(* ===== verification/_CoqProject ===== *)
-Q . S2P
Prelude.v
Machine.v
KString.v
Spinlock.v
Kalloc.v
Vm.v
UserMem.v
AddrSpace.v
CopySpace.v
VmSpec.v
Block.v
Env.v
Pipe.v
Bio.v
Virtio.v
VirtioInv.v
VirtioSpec.v
VirtioSys.v
Log.v
LogSpec.v
Txn.v
Fs.v
FsBlock.v
FsFile.v
FsInode.v
FsWrite.v
FsPath.v
FsDir.v
FsSpec.v
State.v
File.v
Proc.v
Args.v
Exec.v
Sysfile.v
Mmap.v
Syscall.v
Uart.v
Console.v
Trap.v
ProcSpec.v
UartSpec.v
ConsoleSpec.v
SysSpec.v
User.v
Ulib.v
Grep.v
Umalloc.v
Sh.v
ShRun.v
Programs.v
Mkfs.v
