(* ===== verification/Prelude.v ===== *)
(** * A verification development for the xv6 system (RISC-V, mmap lab)

    The program is the teaching kernel under kernel/: a preemptive, multi-core
    kernel in C with paging, processes, a crash-safe file system, pipes, a
    console and memory-mapped files; and, under user/, the library and the
    programs that run on it.  The kernel's parts call one another downwards:

      system calls and traps (sysfile.c, sysproc.c, syscall.c, trap.c, exec.c)
        -> files and pipes (file.c, pipe.c), processes (proc.c)
        -> file system (fs.c) -> log (log.c) -> buffer cache (bio.c)
           -> disk driver (virtio_disk.c) -> disk
        -> virtual memory (vm.c) -> page allocator (kalloc.c) -> memory
        -> console, UART, interrupt controller (console.c, uart.c, plic.c)
      all of them -> locks (spinlock.c, sleeplock.c) and string.c.

    User programs (sh.c, grep.c, cat.c, ...) call the library (ulib.c, printf.c,
    umalloc.c) and, through it or directly, the system calls.  mkfs/mkfs.c runs on
    the host and makes the file system image the kernel starts from.

    ** How code is modelled

    A function of the kernel is a Rocq function in the monad [K S A]: it takes
    the state [S] its component works on and returns ([Done]), stops the machine
    with panic() ([Panic]), gives the processor away until a condition holds
    ([Wait]: the loops around sleep(), the spin loop of acquire(), and context
    switches), or exceeds the budget of a loop ([Diverge]).  Each function has
    the guards, early returns and calls of the source, in its order.  Integers
    are [Z] with the wrap-around of their C type written out ([u8], [u16],
    [u32], [u64], [s16], [s32]); memory is a map from addresses to bytes; structs
    are records; pointers into a table are indices; a buffer passed by kernel
    address is a list of bytes.  A component runs inside the larger state of its
    callers through a lens ([zoom]).  Loops are [for_each] over a list known in
    advance or [while_] with a budget of 2^40 rounds, more than any 32-bit
    counter or the pages of the address space: theorems show that the budget is
    not exhausted, since [wp] (total correctness) and [wpi] (the same under
    interference of other processes while the code sleeps) are false of
    [Diverge] and [Panic].  In [wpi] what the others do is a relation between
    states that also extends a history of theirs, such as the bytes the readers of
    a pipe took; the code under proof can not change it.

    The loop [while(!ready) sleep(chan, lk)] is [sleep_until]: it goes on once
    [ready] holds.  Rounds in which the process is woken too early and sleeps
    again, and whether a wakeup comes at all, are left to sleep() itself (Proc.v,
    ProcSpec.v); the disk driver, where such a round has effects, has them as
    steps ([retry]), and there a process goes on only when it was woken.

    ** Files

    - Prelude.v (this file): outcomes, the monad, loops, [wp] and [wpi] with
      their rules, lenses, tactics.
    - Machine.v: integer widths, riscv.h, memlayout.h and param.h, bytes.
    - KString.v: string.c.
    - Spinlock.v: the hart, spinlock.c, sleeplock.c; Module Smp is a step
      relation of any number of harts that compete for a lock.
    - Kalloc.v: kalloc.c over memory, with the free list in the pages.
    - Vm.v, UserMem.v, AddrSpace.v, CopySpace.v, VmSpec.v: vm.c; the page table
      as a mapping, the memory user code sees, growing and shrinking, two address
      spaces side by side (fork); the theorems.
    - Block.v: blocks as bytes, and the class [BlockCache], the interface of the
      buffer cache.  Bio.v: bio.c implements it.
    - Virtio.v: virtio.h and virtio_disk.c; VirtioInv.v: what the device does,
      errors included, and the invariant of the memory it shares with the driver;
      VirtioSpec.v: the driver's functions, with the wakeups they make;
      VirtioSys.v: processes that sleep and are woken, interrupt handler and
      device as a step relation, and the theorems.
    - Env.v: the process a kernel thread runs for; either_copyin and
      either_copyout (proc.c).  Pipe.v: pipe.c.
    - Log.v, LogSpec.v: log.c over [BlockCache]; Txn.v: the class [TxnStore],
      the interface of the log, and its instance.
    - Fs.v: fs.c over [TxnStore]; FsBlock.v, FsFile.v, FsInode.v, FsWrite.v,
      FsPath.v, FsDir.v: bitmap, bmap, inodes and readi, writei, the inode cache
      and paths, directories; FsSpec.v: the theorems.
    - State.v: file.h, proc.h and [kst], the global state of the kernel, with
      the lenses that give the components their part.
    - File.v (file.c, pipealloc), Proc.v (proc.c), Args.v (argument fetching of
      syscall.c), Exec.v (exec.c), Sysfile.v and Mmap.v (sysfile.c), Syscall.v
      (sysproc.c, syscall.c), Uart.v, Console.v (console.c, printf.c), Trap.v
      (trap.c, plic.c, forkret, procdump).
    - ProcSpec.v, UartSpec.v, ConsoleSpec.v, SysSpec.v: their theorems.
    - User.v: the system calls as user programs see them (class [Os]); programs
      run in [K W], [W] being all that is outside the program, and exit() is a
      [Wait] that is never ready.  [uwp] (returns or exits, with total
      correctness) and [upart] (or runs for ever).
    - Ulib.v: ulib.c and printf.c; Umalloc.v: umalloc.c; Grep.v: grep.c; Sh.v:
      sh.c and its parser; ShRun.v: what runcmd of sh.c does to descriptors;
      Programs.v: cat.c, wc.c, echo.c, kill.c, ln.c, mkdir.c, rm.c, ls.c, init.c,
      zombie.c.
    - Mkfs.v: mkfs.c, over the layout of Fs.v; its theorem.

    ** What is shown

    - Crash safety (LogSpec.v): after a crash at any point of a commit or of
      recovery, recovery yields all of a transaction's writes or none of them;
      log_write within a reservation returns on a log of LOGSIZE blocks, except
      for the last block of all reservations when the log is otherwise full
      (log_space_reserved), which three full reservations reach
      (log_overcommitted, a bug).
    - File system (FsSpec.v): balloc takes the first free block and bfree gives
      it back; bmap never changes a file's contents; readi and writei read and
      replace exactly the bytes asked for, byte by byte, on every branch; what
      is written is read back; a name entered with dirlink is found by dirlookup;
      one in-memory inode per inode; path elements.
    - mkfs (Mkfs.v): the image holds exactly the files given, well-formed as the
      theorems on the file system want them.
    - Memory (Kalloc.v, VmSpec.v): kalloc never returns a page that is in use, nor
      changes one; mappages, uvmunmap, uvmalloc map and unmap exactly what is
      asked; uvmcopy gives fork's child a copy of its own; copyin, copyout and
      copyinstr move exactly the bytes user code would see, and fail exactly
      on unmapped memory.
    - Disk (VirtioSys.v): under any interleaving of processes, interrupts and the
      device, a process that returns from virtio_disk_rw has its block
      transferred; while the device reports no error every process returns, woken
      as soon as it can go on; and the driver panics exactly when the device
      reports an error.  The transfer is the contract Bio.v uses.
    - Concurrency: mutual exclusion of spinlocks (Spinlock.v); no wakeup is lost
      between sleep() and wakeup() on any number of harts (ProcSpec.v); pipes
      and the transmit buffer of the UART are FIFO queues under interference
      (Pipe.v, UartSpec.v).
    - Processes and system calls: wakeup and kill as operations on the table
      (ProcSpec.v); dup and mmap (SysSpec.v), and two defects of munmap and of
      the page-fault handler.
    - Console (ConsoleSpec.v): line editing, reading a line, printing numbers.
    - User storage (Umalloc.v): blocks in use never overlap whatever a program
      does, and malloc fails only when sbrk refuses; a request of 2^31 bytes and
      more gets a block that is not in memory (a bug).
    - Shell (Sh.v, ShRun.v): the parser decides the grammar of the command
      language, and every process of a command line executes a program of the
      command with exactly the descriptors the command says.
    - grep, wc, cat, init, ls (Grep.v, Programs.v): the matcher decides regular
      expressions; grep, wc and cat write what they should, however read() cuts
      the files into pieces; grep stops at a long line (a bug); init starts
      nothing but sh, on the console unless it can not be opened; printf writes what its format says and
      atoi reads back the numbers it prints (Ulib.v).

    ** Parameters

    [kend], [trampoline], [etext], [kernelvec] and the like are addresses the
    linker chooses.  Hardware is a parameter: memory-mapped registers are the
    class [Mmio], [UartHw] states what the driver relies on of the UART, and
    [VirtioDev] and [dev_act] (VirtioInv.v) what the disk driver relies on of the
    disk: it takes the chains of the avail ring in order and completes them in
    any order, with status 0 and the transfer done, or with another status and any
    contents of the block or buffer it was to write, as the virtio specification
    says.  To user programs the system is
    a parameter: the class [Os], with what their theorems rely on of it as laws
    ([OsIo]: reading, writing and opening files; [OsBrk]: sbrk; [OsFd]: tables of
    descriptors).
    [stat_pad] stands for the four bytes of padding filestat() does not set.

    ** Not modelled

    - The buffer cache is not composed with the code of the disk driver: Bio.v
      uses the contract of virtio_disk_rw (a read fills b->data, a write stores
      it), which VirtioSys.v proves of the driver; the driver's interrupt handler
      is a parameter of devintr.  ramdisk.c is not built.
    - Assembly (entry.S, kernelvec.S, trampoline.S, swtch.S), start.c, main.c,
      kvminit and kvminithart: register set-up and calls in sequence.  swtch is
      modelled as giving the hart away until the process runs again.
    - The test programs under user/ (usertests.c, grind.c, mmaptest.c,
      forktest.c, stressfs.c), which have no contract of their own.
    - The user programs are not run on the model of the kernel: the laws of [Os]
      are assumed of it.
    - Wakeups inside components are recorded ([ue_wakes]) and their effect on
      the process table is [Proc.wakeup]; the components themselves are shown
      correct under interference through [wpi] instead of by interleaving with
      the scheduler's code. *)
From Stdlib Require Export ZArith Lia.
From stdpp Require Export base tactics functions list gmap strings numbers relations.
#[global] Set Default Goal Selector "!".
Local Open Scope Z_scope.

Declare Scope kernel_scope.
Delimit Scope kernel_scope with kernel.
Create HintDb kernel discriminated.
#[global] Hint Constants Opaque : kernel.
#[global] Hint Variables Opaque : kernel.

(** ** Wait channels: the addresses given to [sleep] and [wakeup] *)
Inductive chan : Type :=
| ChanLock (name : string) (id : Z)   (* a struct sleeplock *)
| ChanBuf (b : Z)                     (* a struct buf owned by the disk *)
| ChanDesc                            (* &disk.free[0] *)
| ChanLog                             (* &log *)
| ChanRead (pi : Z)                   (* &pi->nread *)
| ChanWrite (pi : Z)                  (* &pi->nwrite *)
| ChanCons                            (* &cons.r *)
| ChanUart                            (* &uart_tx_r *)
| ChanTicks                           (* &ticks *)
| ChanProc (p : Z).                   (* a struct proc, for wait() *)
#[global] Instance chan_eq_dec : EqDecision chan.
Proof. solve_decision. Defined.

(** ** Outcomes of kernel code

    A piece of kernel code is a state transformer that returns ([Done]), stops
    the machine ([Panic], printf.c's [panic]), or gives up the processor until
    a condition on the shared state holds ([Wait]: the loops
    [while(!ready) sleep(c, ..)], with their channel, and the spin loop of
    [acquire], without one).  [Diverge] is returned by [while_] when its
    iteration budget is exhausted. *)
Inductive outcome (S A : Type) : Type :=
| Done (a : A) (s : S)
| Panic (msg : string)
| Diverge
| Wait (c : option chan) (s : S) (ready : S -> bool) (k : S -> outcome S A).
Arguments Done {S A} a s.
Arguments Panic {S A} msg.
Arguments Diverge {S A}.
Arguments Wait {S A} c s ready k.

Definition K (S A : Type) : Type := S -> outcome S A.

Definition ret {S A} (a : A) : K S A := fun s => Done a s.

Fixpoint obind {S A B} (o : outcome S A) (f : A -> K S B) : outcome S B :=
  match o with
  | Done a s => f a s
  | Panic msg => Panic msg
  | Diverge => Diverge
  | Wait c s ready k => Wait c s ready (fun s' => obind (k s') f)
  end.

Definition bind {S A B} (m : K S A) (f : A -> K S B) : K S B :=
  fun s => obind (m s) f.

Definition panic {S A} (msg : string) : K S A := fun _ => Panic msg.
Definition get {S} : K S S := fun s => Done s s.
Definition gets {S A} (f : S -> A) : K S A := fun s => Done (f s) s.
Definition put {S} (s : S) : K S unit := fun _ => Done tt s.
Definition modify {S} (f : S -> S) : K S unit := fun s => Done tt (f s).

Notation "x <- m ;; k" := (bind m (fun x => k))
  (at level 100, m at next level, k at level 200, right associativity) : kernel_scope.
Notation "'let!' p := m 'in' k" := (bind m (fun x => match x with p => k end))
  (at level 10, p strict pattern, m at level 100, k at level 200) : kernel_scope.
Notation "m ;; k" := (bind m (fun _ => k))
  (at level 100, k at level 200, right associativity) : kernel_scope.
Local Open Scope kernel_scope.

(** ** Loops

    [for_each l body] is a [for] loop over the finite sequence [l] of loop
    variables; [body] answers [None] to go on and [Some r] for a [return] or a
    [goto] that leaves the loop with the value [r]. *)
Fixpoint for_each {S X R} (l : list X) (body : X -> K S (option R)) : K S (option R) :=
  match l with
  | [] => ret None
  | x :: l => r <- body x;;
              match r with
              | None => for_each l body
              | Some r => ret (Some r)
              end
  end.

(** [iterate p body x] runs at most [p] rounds of [body]; the budget is a
    binary number, so a bound such as [2^40] costs nothing to evaluate. *)
Fixpoint iterate {S X B} (p : positive) (body : X -> K S (X + B)) (x : X) : K S (X + B) :=
  let again q r := match r with
                   | inl x => iterate q body x
                   | inr b => ret (inr b)
                   end in
  match p with
  | xH => body x
  | xO q => r <- iterate q body x;; again q r
  | xI q => r <- body x;; r <- again q r;; again q r
  end.

Definition while_ {S X B} (p : positive) (body : X -> K S (X + B)) (x : X) : K S B :=
  r <- iterate p body x;;
  match r with
  | inl _ => fun _ => Diverge
  | inr b => ret b
  end.

(** The budget of the loops whose bound is not a constant of the source: more
    rounds than any 32-bit counter or any page of the address space. *)
Definition budget : positive := Pos.pow 2 40.
Arguments while_ : simpl never.
Arguments budget : simpl never.

(** ** Total correctness

    [wp o Q]: the code returns, neither panicking nor giving up the processor,
    with a value and a state that satisfy [Q]. *)
Definition wp {S A} (o : outcome S A) (Q : A -> S -> Prop) : Prop :=
  match o with Done a s => Q a s | _ => False end.

Section wp_rules.
Context {S A B : Type}.
Implicit Types (o : outcome S A) (m : K S A).

Lemma wp_inv o Q : wp o Q <-> exists a s, o = Done a s /\ Q a s.
Proof. destruct o; simpl; (split; [intros H; eauto|intros (a' & s' & [=] & ?)]); by subst. Qed.

Lemma wp_mono o (P Q : A -> S -> Prop) : (forall a s, P a s -> Q a s) -> wp o P -> wp o Q.
Proof. destruct o; simpl; auto. Qed.

Lemma wp_bind m (f : A -> K S B) s Q :
  wp (m s) (fun a s' => wp (f a s') Q) -> wp (bind m f s) Q.
Proof. unfold bind. destruct (m s); simpl; tauto. Qed.

Lemma wp_bind_inv m (f : A -> K S B) s Q :
  wp (bind m f s) Q -> wp (m s) (fun a s' => wp (f a s') Q).
Proof. unfold bind. by destruct (m s). Qed.

Lemma wp_ret (a : A) (s : S) Q : Q a s -> wp (ret a s) Q.
Proof. done. Qed.

Lemma wp_gets (f : S -> A) s Q : Q (f s) s -> wp (gets f s) Q.
Proof. done. Qed.

Lemma wp_get (s : S) (Q : S -> S -> Prop) : Q s s -> wp (get s) Q.
Proof. done. Qed.

Lemma wp_modify (f : S -> S) s (Q : unit -> S -> Prop) : Q tt (f s) -> wp (modify f s) Q.
Proof. done. Qed.

Lemma wp_eq o a s Q : o = Done a s -> Q a s -> wp o Q.
Proof. by intros ->. Qed.

Lemma bind_Done m (f : A -> K S B) s a s' : m s = Done a s' -> bind m f s = f a s'.
Proof. unfold bind. by intros ->. Qed.

Lemma bind_Panic m (f : A -> K S B) s msg : m s = Panic msg -> bind m f s = Panic msg.
Proof. unfold bind. by intros ->. Qed.

Lemma bind_Done_inv m (f : A -> K S B) s b s' :
  bind m f s = Done b s' -> exists a s1, m s = Done a s1 /\ f a s1 = Done b s'.
Proof. unfold bind. destruct (m s); simpl; try discriminate. eauto. Qed.

(** The first two steps of a sequence. *)
Lemma bind_two {C D} (m : K S C) (k : K S D) (f : D -> K S B) s d s' :
  bind m (fun _ => k) s = Done d s' -> bind m (fun _ => bind k f) s = f d s'.
Proof. unfold bind. destruct (m s) as [c s1|msg| |c s1 rdy g]; simpl; try discriminate. by intros ->. Qed.

(** The first three steps of a sequence. *)
Lemma wp_three {C D E} (m1 : K S C) (m2 : K S D) (m3 : K S E) (f : E -> K S B) s Q :
  wp (bind m1 (fun _ => bind m2 (fun _ => m3)) s) (fun e s' => wp (f e s') Q) ->
  wp (bind m1 (fun _ => bind m2 (fun _ => bind m3 f)) s) Q.
Proof.
  unfold bind. destruct (m1 s) as [c s1|msg| |c s1 rdy g]; simpl; try done.
  destruct (m2 s1) as [d s2|msg| |d s2 rdy g]; simpl; try done. by destruct (m3 s2).
Qed.
End wp_rules.

Lemma wp_for_each {S X R} (l : list X) (body : X -> K S (option R))
    (I : list X -> S -> Prop) (Q : option R -> S -> Prop) s :
  (forall x done rest s, l = done ++ x :: rest -> I (x :: rest) s ->
     wp (body x s) (fun r s' => match r with None => I rest s' | Some _ => Q r s' end)) ->
  (forall s, I [] s -> Q None s) ->
  I l s -> wp (for_each l body s) Q.
Proof.
  intros Hbody Hend.
  assert (forall rest done s, l = done ++ rest -> I rest s -> wp (for_each rest body s) Q) as Hgen.
  { induction rest as [|x rest IH]; intros done s0 Hl HI; simpl; [by apply Hend|].
    apply wp_bind. eapply wp_mono; [|by eapply Hbody]. intros [r|] s1 H1; simpl; [done|].
    apply (IH (done ++ [x])); [|done]. by rewrite Hl, <- app_assoc. }
  intros HI. by apply (Hgen l []).
Qed.

(** The loop [for(i = 0; i < n; i++)]. *)
Lemma wp_for_range {S R} n (body : Z -> K S (option R)) (I : nat -> S -> Prop) (Q : option R -> S -> Prop) s :
  (forall k s, (k < Z.to_nat n)%nat -> I k s ->
     wp (body (Z.of_nat k) s) (fun r s' => match r with None => I (1 + k)%nat s' | Some _ => Q r s' end)) ->
  (forall s, I (Z.to_nat n) s -> Q None s) ->
  I O s -> wp (for_each (seqZ 0 n) body s) Q.
Proof.
  intros Hbody Hend H0.
  apply (wp_for_each _ _ (fun rest s => exists k, (k <= Z.to_nat n)%nat /\ rest = seqZ (Z.of_nat k) (n - Z.of_nat k) /\ I k s)).
  - intros x d rest s1 E (k & Hk & Ek & HI). destruct (decide (k < Z.to_nat n)%nat) as [Hlt|].
    2:{ rewrite seqZ_nil in Ek by lia. done. }
    rewrite seqZ_cons in Ek by lia. injection Ek as -> ->. eapply wp_mono; [|by apply Hbody].
    intros [r|] s2 HI2; [done|]. exists (1 + k)%nat. split_and!; [lia| |done]. f_equal; lia.
  - intros s1 (k & Hk & Ek & HI). apply Hend. destruct (decide (k < Z.to_nat n)%nat); [by rewrite seqZ_cons in Ek by lia|].
    by replace (Z.to_nat n) with k by lia.
  - exists O. split_and!; [lia| |done]. f_equal. lia.
Qed.

(** A loop whose first round panics. *)
Lemma iterate_Panic {S X B} p (body : X -> K S (X + B)) x s msg :
  body x s = Panic msg -> iterate p body x s = Panic msg.
Proof.
  intros E. induction p as [q IH|q IH|]; simpl; [|by apply bind_Panic|done]. by apply bind_Panic.
Qed.

(** A loop left in its first round. *)
Lemma iterate_exit {S X B} p (body : X -> K S (X + B)) x s b s' :
  body x s = Done (inr b) s' -> iterate p body x s = Done (inr b) s'.
Proof.
  intros E. induction p as [q IH|q IH|]; simpl; [|by erewrite bind_Done by done|done].
  erewrite bind_Done by done. done.
Qed.

Lemma while_exit {S X B} p (body : X -> K S (X + B)) x s b s' :
  body x s = Done (inr b) s' -> while_ p body x s = Done b s'.
Proof. intros E. unfold while_. by erewrite bind_Done by by apply iterate_exit. Qed.

(** A loop that sleeps in its first round and is left in the second. *)
Lemma iterate_sleep {S X B} p (body : X -> K S (X + B)) x s c s1 rdy k : body x s = Wait c s1 rdy k -> p <> 1%positive ->
  exists k', iterate p body x s = Wait c s1 rdy k' /\ forall s2 x' s3 b s4, k s2 = Done (inl x') s3 ->
    body x' s3 = Done (inr b) s4 -> k' s2 = Done (inr b) s4.
Proof.
  intros E Hp. induction p as [q IH|q IH|]; [| |done]; simpl; unfold bind at 1.
  - rewrite E. simpl. eexists. split; [done|]. intros s2 x' s3 b s4 Hk Hb. cbv beta. rewrite Hk. simpl.
    erewrite bind_Done by by apply iterate_exit. done.
  - destruct (decide (q = 1%positive)) as [->|Hq].
    + simpl. rewrite E. simpl. eexists. split; [done|]. intros s2 x' s3 b s4 Hk Hb. cbv beta. by rewrite Hk.
    + destruct (IH Hq) as (k' & -> & Hk'). simpl. eexists. split; [done|]. intros s2 x' s3 b s4 Hk Hb. cbv beta.
      by rewrite (Hk' _ _ _ _ _ Hk Hb).
Qed.

Lemma while_sleep {S X B} p (body : X -> K S (X + B)) x s c s1 rdy k : body x s = Wait c s1 rdy k -> p <> 1%positive ->
  exists k', while_ p body x s = Wait c s1 rdy k' /\ forall s2 x' s3 b s4, k s2 = Done (inl x') s3 ->
    body x' s3 = Done (inr b) s4 -> k' s2 = Done b s4.
Proof.
  intros E Hp. destruct (iterate_sleep p body x s c s1 rdy k E Hp) as (k' & Ek & Hk'). unfold while_, bind. rewrite Ek.
  simpl. eexists. split; [done|]. intros s2 x' s3 b s4 Hk Hb. cbv beta. by rewrite (Hk' _ _ _ _ _ Hk Hb).
Qed.

(** ** Correctness under interference

    Code that sleeps gives the processor away.  [wpi slept rely o h Q]: whenever
    the code sleeps, [slept] holds of the channel and the state it leaves
    behind; and when the others take that state to any state that [rely] allows
    and in which it may go on, it goes on to return with [Q].  [Wait] without a
    channel is the spin loop of a lock.  [h] is a history the others keep: [rely]
    says how they extend it, and the code has no access to it.  [wpx] is the same
    for code that may panic, with a message that [panics] allows. *)
Section interference.
Context {S H : Type} (slept : option chan -> S -> Prop) (rely : S -> H -> S -> H -> Prop) (panics : string -> Prop).

Fixpoint wpx {A} (o : outcome S A) (h : H) (Q : A -> S -> H -> Prop) : Prop :=
  match o with
  | Done a s => Q a s h
  | Panic msg => panics msg
  | Diverge => False
  | Wait c s ready k => slept c s /\ forall s' h', rely s h s' h' -> ready s' = true -> wpx (k s') h' Q
  end.

Lemma wpx_mono {A} (o : outcome S A) h (P Q : A -> S -> H -> Prop) :
  (forall a s h, P a s h -> Q a s h) -> wpx o h P -> wpx o h Q.
Proof.
  intros HPQ. revert h. induction o as [a s|msg| |c s ready k IH]; intros h; simpl; try done; [by apply HPQ|].
  intros [Hs Hk]. split; [done|]. intros s' h' Hr E. by apply IH, Hk.
Qed.

Lemma wpx_obind {A B} (o : outcome S A) (f : A -> K S B) h Q :
  wpx o h (fun a s h => wpx (f a s) h Q) -> wpx (obind o f) h Q.
Proof.
  revert h. induction o as [a s|msg| |c s ready k IH]; intros h; simpl; try done.
  intros [Hs Hk]. split; [done|]. intros s' h' Hr E. by apply IH, Hk.
Qed.

Lemma wpx_bind {A B} (m : K S A) (f : A -> K S B) s h Q :
  wpx (m s) h (fun a s' h => wpx (f a s') h Q) -> wpx (bind m f s) h Q.
Proof. apply wpx_obind. Qed.

Lemma wpx_wp {A} (o : outcome S A) h (Q : A -> S -> Prop) : wp o Q -> wpx o h (fun a s h' => Q a s /\ h' = h).
Proof. by destruct o. Qed.

Lemma wpx_ret {A} (a : A) (s : S) h Q : Q a s h -> wpx (ret a s) h Q.
Proof. done. Qed.

Lemma wpx_gets {A} (f : S -> A) s h Q : Q (f s) s h -> wpx (gets f s) h Q.
Proof. done. Qed.

Lemma wpx_modify (f : S -> S) s h (Q : unit -> S -> H -> Prop) : Q tt (f s) h -> wpx (modify f s) h Q.
Proof. done. Qed.

Lemma wpx_eq {A} (o : outcome S A) a s h Q : o = Done a s -> Q a s h -> wpx o h Q.
Proof. by intros ->. Qed.

Section while_rule.
Context {X B G : Type} (body : X -> K S (X + B)).
Context (I : G -> X -> S -> H -> Prop) (m : G -> Z) (Q : B -> S -> H -> Prop).
Hypothesis Hround : forall g x s h, I g x s h ->
  wpx (body x s) h (fun r s' h' => match r with
                                   | inl x' => exists g', I g' x' s' h' /\ m g' < m g
                                   | inr b => Q b s' h'
                                   end).
Hypothesis Hpos : forall g x s h, I g x s h -> 0 <= m g.

Lemma wpx_iterate p g x s h : I g x s h ->
  wpx (iterate p body x s) h (fun r s' h' => match r with
                                             | inl x' => exists g', I g' x' s' h' /\ m g' <= m g - Zpos p
                                             | inr b => Q b s' h'
                                             end).
Proof.
  revert g x s h. induction p as [q IH|q IH|]; intros g x s h HI; simpl.
  - apply wpx_bind. eapply wpx_mono; [|by eapply Hround].
    intros [x1|b1] s1 h1 H1; simpl; [|done]. destruct H1 as (g1 & HI1 & Hm1).
    apply wpx_bind. eapply wpx_mono; [|by eapply IH].
    intros [x2|b2] s2 h2 H2; simpl; [|done]. destruct H2 as (g2 & HI2 & Hm2).
    eapply wpx_mono; [|by eapply IH].
    intros [x3|b3] s3 h3 H3; simpl; [|done]. destruct H3 as (g3 & HI3 & Hm3). exists g3. split; [done|lia].
  - apply wpx_bind. eapply wpx_mono; [|by eapply IH].
    intros [x2|b2] s2 h2 H2; simpl; [|done]. destruct H2 as (g2 & HI2 & Hm2).
    eapply wpx_mono; [|by eapply IH].
    intros [x3|b3] s3 h3 H3; simpl; [|done]. destruct H3 as (g3 & HI3 & Hm3). exists g3. split; [done|lia].
  - eapply wpx_mono; [|by eapply Hround]. intros [x1|b1] s1 h1 H1; [|done].
    destruct H1 as (g1 & HI1 & Hm1). exists g1. split; [done|lia].
Qed.

Lemma wpx_while p g x s h : I g x s h -> m g < Zpos p -> wpx (while_ p body x s) h Q.
Proof.
  intros HI Hm. unfold while_. apply wpx_bind. eapply wpx_mono; [|by eapply wpx_iterate].
  intros [x'|b] s' h' H1; simpl; [|done]. destruct H1 as (g' & HI' & Hm'). apply Hpos in HI'. lia.
Qed.
End while_rule.
End interference.
Notation wpi slept rely := (wpx slept rely (fun _ => False)).

(** Code that never sleeps. *)
Lemma wp_never_waits {S A} (o : outcome S A) Q :
  wpi (fun _ _ => False) (fun _ (_ : unit) _ _ => True) o tt (fun a s _ => Q a s) <-> wp o Q.
Proof. destruct o; simpl; tauto. Qed.

(** The loop rule: an invariant [I], a measure [m] that decreases in every
    round that continues, and a budget above the initial measure.  The measure
    may be taken of a ghost value [g] that the invariant relates to the loop
    variable and the state. *)
Section while_ghost.
Context {S X B G : Type} (body : X -> K S (X + B)).
Context (I : G -> X -> S -> Prop) (m : G -> Z) (Q : B -> S -> Prop).
Hypothesis Hround : forall g x s, I g x s ->
  wp (body x s) (fun r s' => match r with
                             | inl x' => exists g', I g' x' s' /\ m g' < m g
                             | inr b => Q b s'
                             end).
Hypothesis Hpos : forall g x s, I g x s -> 0 <= m g.

Lemma wp_while_ghost p g x s : I g x s -> m g < Zpos p -> wp (while_ p body x s) Q.
Proof.
  intros HI Hm. apply wp_never_waits.
  apply (wpx_while _ _ _ body (fun g x s _ => I g x s) m (fun b s _ => Q b s)) with (g := g); [| |done|done].
  - intros g1 x1 s1 [] H1. apply (proj2 (wp_never_waits _ _) (Hround g1 x1 s1 H1)).
  - intros g1 x1 s1 _. apply Hpos.
Qed.
End while_ghost.

Section while_rule.
Context {S X B : Type} (body : X -> K S (X + B)).
Context (I : X -> S -> Prop) (m : X -> Z) (Q : B -> S -> Prop).
Hypothesis Hround : forall x s, I x s ->
  wp (body x s) (fun r s' => match r with
                             | inl x' => I x' s' /\ m x' < m x
                             | inr b => Q b s'
                             end).
Hypothesis Hpos : forall x s, I x s -> 0 <= m x.

Lemma wp_while p x s : I x s -> m x < Zpos p -> wp (while_ p body x s) Q.
Proof.
  intros HI Hm. apply (wp_while_ghost _ (fun g x s => g = x /\ I x s) m Q) with (g := x); [..|done|done].
  - intros g x' s' [-> HI']. eapply wp_mono; [|by apply Hround]. intros [x1|b1] s1 H1; [|done].
    destruct H1. eauto.
  - intros g x' s' [-> HI']. by eapply Hpos.
Qed.
End while_rule.

(** ** Parts of a state *)
Record lens (S T : Type) := Lens { view : S -> T; over : T -> S -> S }.
Arguments Lens {S T} view over.
Arguments view {S T} l s.
Arguments over {S T} l t s.

Class LensOk {S T} (l : lens S T) : Prop := {
  view_over : forall t s, view l (over l t s) = t;
  over_view : forall s, over l (view l s) s = s;
  over_over : forall t u s, over l t (over l u s) = over l t s
}.

(** Code of a component run inside a larger state. *)
Fixpoint ozoom {S T A} (l : lens S T) (s : S) (o : outcome T A) : outcome S A :=
  match o with
  | Done a t => Done a (over l t s)
  | Panic msg => Panic msg
  | Diverge => Diverge
  | Wait c t ready k => Wait c (over l t s) (fun s' => ready (view l s'))
                             (fun s' => ozoom l s' (k (view l s')))
  end.

Definition zoom {S T A} (l : lens S T) (m : K T A) : K S A :=
  fun s => ozoom l s (m (view l s)).

Lemma wp_zoom {S T A} (l : lens S T) (m : K T A) s Q :
  wp (m (view l s)) (fun a t => Q a (over l t s)) -> wp (zoom l m s) Q.
Proof. unfold zoom. by destruct (m (view l s)). Qed.

Lemma zoom_Done {S T A} (l : lens S T) (m : K T A) s a t :
  m (view l s) = Done a t -> zoom l m s = Done a (over l t s).
Proof. unfold zoom. by intros ->. Qed.

(** ** Tactics *)

(** Run the next call of a sequence when it is state manipulation. *)
Ltac kstep :=
  lazymatch goal with
  | |- wp (bind _ _ _) _ => apply wp_bind
  | |- wp (gets _ _) _ => apply wp_gets
  | |- wp (modify _ _) _ => apply wp_modify
  | |- wp (ret _ _) _ => apply wp_ret
  | |- wp (get _) _ => apply wp_get
  | |- wpx _ _ _ (bind _ _ _) _ _ => apply wpx_bind
  | |- wpx _ _ _ (gets _ _) _ _ => apply wpx_gets
  | |- wpx _ _ _ (modify _ _) _ _ => apply wpx_modify
  | |- wpx _ _ _ (ret _ _) _ _ => apply wpx_ret
  end; cbv beta.
Ltac ksteps := repeat kstep.

(** Use a specification of the call at the head of the goal. *)
Ltac kcall H := eapply wp_mono; [|by eapply H].

(** Split the boolean tests of the source. *)
Ltac ktest :=
  match goal with
  | |- context [Z.ltb ?a ?b] => destruct (Z.ltb_spec a b)
  | |- context [Z.leb ?a ?b] => destruct (Z.leb_spec a b)
  | |- context [Z.eqb ?a ?b] => destruct (Z.eqb_spec a b)
  end; try lia.
