(* ===== verification/Machine.v ===== *)
(** * The machine the kernel runs on

    Machine-width integers (kernel/types.h), the constants and address
    arithmetic of kernel/riscv.h, kernel/memlayout.h and kernel/param.h, the open
    modes of kernel/fcntl.h, and byte-addressed physical memory with little-endian words. *)
From S2P Require Import Prelude.
Local Open Scope Z_scope.

(** ** Integers at their width *)
Definition u8 (x : Z) : Z := x mod 2 ^ 8.
Definition u16 (x : Z) : Z := x mod 2 ^ 16.
Definition u32 (x : Z) : Z := x mod 2 ^ 32.
Definition u64 (x : Z) : Z := x mod 2 ^ 64.

(** Conversion to [int] and [short]: two's complement. *)
Definition s32 (x : Z) : Z := (x + 2 ^ 31) mod 2 ^ 32 - 2 ^ 31.
Definition s16 (x : Z) : Z := (x + 2 ^ 15) mod 2 ^ 16 - 2 ^ 15.

(** ** Modes of open (fcntl.h) *)
Definition O_RDONLY : Z := 0x000.
Definition O_WRONLY : Z := 0x001.
Definition O_RDWR : Z := 0x002.
Definition O_CREATE : Z := 0x200.
Definition O_TRUNC : Z := 0x400.

(** ** Paging constants (riscv.h) *)
Definition PGSIZE : Z := 4096.
Definition PGSHIFT : Z := 12.

Definition PGROUNDUP (sz : Z) : Z := Z.land (u64 (sz + PGSIZE - 1)) (Z.lnot (PGSIZE - 1)).
Definition PGROUNDDOWN (a : Z) : Z := Z.land a (Z.lnot (PGSIZE - 1)).

Definition PTE_V : Z := Z.shiftl 1 0.
Definition PTE_R : Z := Z.shiftl 1 1.
Definition PTE_W : Z := Z.shiftl 1 2.
Definition PTE_X : Z := Z.shiftl 1 3.
Definition PTE_U : Z := Z.shiftl 1 4.

Definition PA2PTE (pa : Z) : Z := u64 (Z.shiftl (Z.shiftr pa 12) 10).
Definition PTE2PA (pte : Z) : Z := u64 (Z.shiftl (Z.shiftr pte 10) 12).
Definition PTE_FLAGS (pte : Z) : Z := Z.land pte 0x3FF.

Definition PXMASK : Z := 0x1FF.
Definition PXSHIFT (level : Z) : Z := PGSHIFT + 9 * level.
Definition PX (level va : Z) : Z := Z.land (Z.shiftr va (PXSHIFT level)) PXMASK.

Definition MAXVA : Z := Z.shiftl 1 (9 + 9 + 9 + 12 - 1).

(** ** Memory layout (memlayout.h) and parameters (param.h) *)
Definition UART0 : Z := 0x10000000.
Definition VIRTIO0 : Z := 0x10001000.
Definition PLIC : Z := 0x0c000000.
Definition KERNBASE : Z := 0x80000000.
Definition PHYSTOP : Z := KERNBASE + 128 * 1024 * 1024.
Definition TRAMPOLINE : Z := MAXVA - PGSIZE.
Definition KSTACK (p : Z) : Z := TRAMPOLINE - (p + 1) * 2 * PGSIZE.
Definition TRAPFRAME : Z := TRAMPOLINE - PGSIZE.

Definition NPROC : Z := 64.
Definition NCPU : Z := 8.
Definition NOFILE : Z := 16.
Definition NFILE : Z := 100.
Definition NINODE : Z := 50.
Definition NDEV : Z := 10.
Definition ROOTDEV : Z := 1.
Definition MAXARG : Z := 32.
Definition MAXOPBLOCKS : Z := 10.
Definition LOGSIZE : Z := MAXOPBLOCKS * 3.
Definition NBUF : Z := MAXOPBLOCKS * 3.
Definition FSSIZE : Z := 1000.
Definition MAXPATH : Z := 128.

(** ** Bytes and little-endian words *)
Definition is_byte (b : Z) : Prop := 0 <= b < 256.

Fixpoint le_encode (n : nat) (v : Z) : list Z :=
  match n with
  | O => []
  | S n => v mod 256 :: le_encode n (v / 256)
  end.

Fixpoint le_decode (l : list Z) : Z :=
  match l with
  | [] => 0
  | b :: l => b + 256 * le_decode l
  end.

(** ** Physical memory *)
Definition load8 (m : gmap Z Z) (a : Z) : Z := default 0 (m !! a).
Definition store8 (m : gmap Z Z) (a v : Z) : gmap Z Z := <[a := u8 v]> m.

Definition load_bytes (m : gmap Z Z) (a : Z) (n : nat) : list Z :=
  (fun i => load8 m (a + Z.of_nat i)) <$> seq 0 n.

Fixpoint store_bytes (m : gmap Z Z) (a : Z) (l : list Z) : gmap Z Z :=
  match l with
  | [] => m
  | b :: l => store_bytes (store8 m a b) (a + 1) l
  end.

Definition load64 (m : gmap Z Z) (a : Z) : Z := le_decode (load_bytes m a 8).
Definition store64 (m : gmap Z Z) (a v : Z) : gmap Z Z := store_bytes m a (le_encode 8 v).

(** ** Facts about widths *)
Lemma u8_range x : is_byte (u8 x).
Proof. unfold is_byte, u8. apply Z.mod_pos_bound. lia. Qed.

Lemma u8_id x : is_byte x -> u8 x = x.
Proof. intros. apply Z.mod_small. unfold is_byte in *. lia. Qed.

Lemma u32_range x : 0 <= u32 x < 2 ^ 32.
Proof. apply Z.mod_pos_bound. lia. Qed.

Lemma u32_id x : 0 <= x < 2 ^ 32 -> u32 x = x.
Proof. apply Z.mod_small. Qed.

Lemma u64_range x : 0 <= u64 x < 2 ^ 64.
Proof. apply Z.mod_pos_bound. lia. Qed.

Lemma u64_id x : 0 <= x < 2 ^ 64 -> u64 x = x.
Proof. apply Z.mod_small. Qed.

Lemma s32_range x : - 2 ^ 31 <= s32 x < 2 ^ 31.
Proof. unfold s32. pose proof (Z.mod_pos_bound (x + 2 ^ 31) (2 ^ 32)). lia. Qed.

Lemma s32_id x : - 2 ^ 31 <= x < 2 ^ 31 -> s32 x = x.
Proof. intros. unfold s32. rewrite Z.mod_small; lia. Qed.

(** ** Facts about page arithmetic *)
Lemma PGROUNDDOWN_spec a : PGROUNDDOWN a = a - a mod PGSIZE.
Proof.
  unfold PGROUNDDOWN, PGSIZE. change (4096 - 1) with (Z.ones 12).
  rewrite <- Z.ldiff_land, Z.ldiff_ones_r, Z.shiftr_div_pow2, Z.shiftl_mul_pow2 by lia.
  change (2 ^ 12) with 4096. pose proof (Z.div_mod a 4096). lia.
Qed.

Lemma PGROUNDDOWN_aligned a : PGROUNDDOWN a mod PGSIZE = 0.
Proof. rewrite PGROUNDDOWN_spec, Zminus_mod_idemp_r, Z.sub_diag. done. Qed.

Lemma PGROUNDDOWN_id a : a mod PGSIZE = 0 -> PGROUNDDOWN a = a.
Proof. rewrite PGROUNDDOWN_spec. lia. Qed.

Lemma PGROUNDDOWN_bounds a : PGROUNDDOWN a <= a < PGROUNDDOWN a + PGSIZE.
Proof. rewrite PGROUNDDOWN_spec. pose proof (Z.mod_pos_bound a PGSIZE). unfold PGSIZE in *. lia. Qed.

Lemma PGROUNDUP_spec sz : 0 <= sz <= 2 ^ 64 - PGSIZE ->
  PGROUNDUP sz mod PGSIZE = 0 /\ sz <= PGROUNDUP sz < sz + PGSIZE.
Proof.
  intros Hsz. unfold PGROUNDUP. fold (PGROUNDDOWN (u64 (sz + PGSIZE - 1))).
  rewrite u64_id by (unfold PGSIZE in *; lia).
  pose proof (PGROUNDDOWN_bounds (sz + PGSIZE - 1)). split; [apply PGROUNDDOWN_aligned|lia].
Qed.

Lemma PX_spec level va : 0 <= level -> PX level va = (va / 2 ^ (12 + 9 * level)) mod 512.
Proof.
  intros. unfold PX, PXSHIFT, PXMASK, PGSHIFT. change 511 with (Z.ones 9).
  rewrite Z.land_ones, Z.shiftr_div_pow2 by lia. done.
Qed.

Lemma PX_range level va : 0 <= level -> 0 <= PX level va < 512.
Proof. intros. rewrite PX_spec by done. apply Z.mod_pos_bound. lia. Qed.

(** The three 9-bit indices and the page offset determine an address below
    [MAXVA]. *)
Lemma PX_decompose va : 0 <= va < MAXVA ->
  va = PX 2 va * 2 ^ 30 + PX 1 va * 2 ^ 21 + PX 0 va * 2 ^ 12 + va mod PGSIZE.
Proof.
  change MAXVA with (2 ^ 38). intros. rewrite !PX_spec by lia. unfold PGSIZE.
  change (2 ^ (12 + 9 * 2)) with (2 ^ 30). change (2 ^ (12 + 9 * 1)) with (2 ^ 21).
  change (2 ^ (12 + 9 * 0)) with (2 ^ 12). Z.div_mod_to_equations. lia.
Qed.

Lemma PX_inj va1 va2 : 0 <= va1 < MAXVA -> 0 <= va2 < MAXVA ->
  va1 mod PGSIZE = 0 -> va2 mod PGSIZE = 0 ->
  PX 2 va1 = PX 2 va2 -> PX 1 va1 = PX 1 va2 -> PX 0 va1 = PX 0 va2 -> va1 = va2.
Proof.
  intros H1 H2 A1 A2 E2 E1 E0.
  rewrite (PX_decompose va1), (PX_decompose va2) by done. lia.
Qed.

(** ** Page-table entries *)
Lemma PTE2PA_spec pte : 0 <= pte < 2 ^ 54 -> PTE2PA pte = pte / 1024 * PGSIZE.
Proof.
  intros. unfold PTE2PA. rewrite Z.shiftr_div_pow2, Z.shiftl_mul_pow2 by lia.
  change (2 ^ 10) with 1024. change (2 ^ 12) with PGSIZE. apply u64_id.
  unfold PGSIZE. Z.div_mod_to_equations. lia.
Qed.

Lemma PA2PTE_spec pa : 0 <= pa < 2 ^ 56 -> PA2PTE pa = pa / PGSIZE * 1024.
Proof.
  intros. unfold PA2PTE. rewrite Z.shiftr_div_pow2, Z.shiftl_mul_pow2 by lia.
  change (2 ^ 10) with 1024. change (2 ^ 12) with PGSIZE. apply u64_id.
  unfold PGSIZE. Z.div_mod_to_equations. lia.
Qed.

Lemma lor_disjoint_add (hi lo n : Z) : 0 <= n -> 0 <= lo < 2 ^ n ->
  Z.lor (hi * 2 ^ n) lo = hi * 2 ^ n + lo.
Proof.
  intros Hn Hlo. pose proof (Z.add_lor_land (hi * 2 ^ n) lo) as E.
  enough (Z.land (hi * 2 ^ n) lo = 0) by lia.
  rewrite <- (Z.mod_small lo (2 ^ n)) by done.
  apply Z.bits_inj'; intros i Hi. rewrite Z.land_spec, Z.bits_0.
  destruct (decide (i < n)).
  - by rewrite Z.mul_pow2_bits_low by lia.
  - by rewrite Z.mod_pow2_bits_high, andb_false_r by lia.
Qed.

(** A PTE built the way [mappages] and [walk] build it. *)
Lemma PTE_build pa flags : 0 <= pa < 2 ^ 56 -> 0 <= flags < 1024 ->
  Z.lor (PA2PTE pa) flags = pa / PGSIZE * 1024 + flags.
Proof. intros. rewrite PA2PTE_spec by done. by apply (lor_disjoint_add _ _ 10). Qed.

Lemma PTE_build_range pa flags : 0 <= pa < 2 ^ 56 -> 0 <= flags < 1024 ->
  0 <= Z.lor (PA2PTE pa) flags < 2 ^ 54.
Proof. intros. rewrite PTE_build by done. unfold PGSIZE. Z.div_mod_to_equations. lia. Qed.

(** What is stored in a PTE can be read back: the physical page and the flags. *)
Lemma PTE2PA_build pa flags : 0 <= pa < 2 ^ 56 -> pa mod PGSIZE = 0 -> 0 <= flags < 1024 ->
  PTE2PA (Z.lor (PA2PTE pa) flags) = pa.
Proof.
  intros. rewrite PTE2PA_spec by by apply PTE_build_range. rewrite PTE_build by done.
  unfold PGSIZE in *. Z.div_mod_to_equations. lia.
Qed.

Lemma PTE_FLAGS_build pa flags : 0 <= pa < 2 ^ 56 -> 0 <= flags < 1024 ->
  PTE_FLAGS (Z.lor (PA2PTE pa) flags) = flags.
Proof.
  intros. unfold PTE_FLAGS. rewrite PTE_build by done. change 1023 with (Z.ones 10).
  rewrite Z.land_ones by lia. change (2 ^ 10) with 1024. Z.div_mod_to_equations. lia.
Qed.

Lemma PTE2PA_aligned pte : PTE2PA pte mod PGSIZE = 0.
Proof.
  unfold PTE2PA, u64, PGSIZE. rewrite Z.shiftl_mul_pow2 by lia.
  change (2 ^ 12) with 4096. Z.div_mod_to_equations. lia.
Qed.

(** ** Facts about words *)
Lemma length_le_encode n v : length (le_encode n v) = n.
Proof. revert v. induction n; intros; simpl; auto. Qed.

Lemma le_encode_bytes n v : Forall is_byte (le_encode n v).
Proof.
  revert v. induction n; intros; simpl; constructor; auto.
  apply Z.mod_pos_bound. lia.
Qed.

Lemma le_decode_encode n v : 0 <= v < 256 ^ Z.of_nat n -> le_decode (le_encode n v) = v.
Proof.
  revert v. induction n as [|n IH]; intros v Hv; simpl; [simpl in Hv; lia|].
  rewrite Nat2Z.inj_succ, Z.pow_succ_r in Hv by lia.
  rewrite IH; [pose proof (Z.div_mod v 256); lia|].
  split; [apply Z.div_pos; lia|apply Z.div_lt_upper_bound; lia].
Qed.

Lemma le_decode_range l : Forall is_byte l -> 0 <= le_decode l < 256 ^ Z.of_nat (length l).
Proof.
  induction 1 as [|b l Hb Hl IH]; [simpl; lia|]. cbn [length le_decode].
  rewrite Nat2Z.inj_succ, Z.pow_succ_r by lia. unfold is_byte in Hb. lia.
Qed.

Lemma le_encode_decode l : Forall is_byte l -> le_encode (length l) (le_decode l) = l.
Proof.
  induction 1 as [|b l Hb Hl IH]; [done|]. cbn [length le_decode le_encode].
  unfold is_byte in Hb. f_equal.
  - rewrite Z.mul_comm, Z.mod_add, Z.mod_small by lia. done.
  - rewrite Z.mul_comm, Z.div_add, Z.div_small, Z.add_0_l by lia. done.
Qed.

(** ** Facts about memory *)
Lemma load8_store8 m a v x : load8 (store8 m a v) x = if decide (a = x) then u8 v else load8 m x.
Proof. unfold load8, store8. rewrite lookup_insert. by case_decide. Qed.

Lemma load8_store_bytes_out m a l x : ~ (a <= x < a + Z.of_nat (length l)) ->
  load8 (store_bytes m a l) x = load8 m x.
Proof.
  revert m a. induction l as [|b l IH]; intros m a Hx; [done|].
  cbn [store_bytes length] in *. rewrite IH by lia. rewrite load8_store8.
  case_decide; [lia|done].
Qed.

Lemma load8_store_bytes_in m a l i b : l !! i = Some b ->
  load8 (store_bytes m a l) (a + Z.of_nat i) = u8 b.
Proof.
  revert m a i. induction l as [|c l IH]; intros m a i Hi; [done|].
  cbn [store_bytes]. destruct i as [|i]; simpl in Hi.
  - injection Hi as ->. rewrite load8_store_bytes_out by lia.
    rewrite load8_store8. case_decide; [done|lia].
  - replace (a + Z.of_nat (S i)) with (a + 1 + Z.of_nat i) by lia. by apply IH.
Qed.

Lemma length_load_bytes m a n : length (load_bytes m a n) = n.
Proof. unfold load_bytes. by rewrite length_fmap, length_seq. Qed.

Lemma lookup_load_bytes m a n i : (i < n)%nat -> load_bytes m a n !! i = Some (load8 m (a + Z.of_nat i)).
Proof.
  intros. unfold load_bytes. rewrite list_lookup_fmap, lookup_seq_lt by done. done.
Qed.

Lemma load_bytes_ext m m' a n :
  (forall i, (i < n)%nat -> load8 m (a + Z.of_nat i) = load8 m' (a + Z.of_nat i)) ->
  load_bytes m a n = load_bytes m' a n.
Proof.
  intros H. apply list_eq. intros i. destruct (decide (i < n)%nat).
  - rewrite !lookup_load_bytes by done. by rewrite H.
  - rewrite !lookup_ge_None_2; [done|..]; rewrite length_load_bytes; lia.
Qed.

Lemma load_bytes_app m a n1 n2 :
  load_bytes m a (n1 + n2) = load_bytes m a n1 ++ load_bytes m (a + Z.of_nat n1) n2.
Proof.
  unfold load_bytes. rewrite seq_app, fmap_app. f_equal.
  apply list_eq. intros i. rewrite !list_lookup_fmap.
  destruct (decide (i < n2)%nat).
  - rewrite !lookup_seq_lt by done. simpl. do 2 f_equal. lia.
  - rewrite !lookup_ge_None_2; [done|..]; rewrite length_seq; lia.
Qed.

Lemma load_bytes_cons m a n : load_bytes m a (S n) = load8 m a :: load_bytes m (a + 1) n.
Proof.
  change (S n) with (1 + n)%nat. rewrite load_bytes_app. unfold load_bytes at 1. simpl.
  by rewrite Z.add_0_r.
Qed.

Lemma load_bytes_store_same m a l : Forall is_byte l ->
  load_bytes (store_bytes m a l) a (length l) = l.
Proof.
  intros Hl. apply list_eq. intros i. destruct (l !! i) as [b|] eqn:E.
  - rewrite lookup_load_bytes by by eapply lookup_lt_Some.
    erewrite load8_store_bytes_in by done. f_equal. apply u8_id.
    by eapply Forall_lookup_1.
  - apply lookup_ge_None_2. rewrite length_load_bytes. by apply lookup_ge_None.
Qed.

Lemma load_bytes_store_disjoint m a l x n :
  x + Z.of_nat n <= a \/ a + Z.of_nat (length l) <= x ->
  load_bytes (store_bytes m a l) x n = load_bytes m x n.
Proof. intros. apply load_bytes_ext. intros. apply load8_store_bytes_out. lia. Qed.

Lemma load64_store64_same m a v : 0 <= v < 2 ^ 64 -> load64 (store64 m a v) a = v.
Proof.
  intros. unfold load64, store64. rewrite <- (length_le_encode 8 v) at 2.
  rewrite load_bytes_store_same by apply le_encode_bytes. by apply le_decode_encode.
Qed.

Lemma load64_store64_disjoint m a x v : x + 8 <= a \/ a + 8 <= x ->
  load64 (store64 m a v) x = load64 m x.
Proof.
  intros. unfold load64, store64. rewrite load_bytes_store_disjoint; [done|].
  rewrite length_le_encode. lia.
Qed.

Lemma load64_ext m m' a : (forall x, a <= x < a + 8 -> load8 m x = load8 m' x) ->
  load64 m a = load64 m' a.
Proof. intros H. unfold load64. f_equal. apply load_bytes_ext. intros. apply H. lia. Qed.

Lemma load64_zero m a : (forall x, a <= x < a + 8 -> load8 m x = 0) -> load64 m a = 0.
Proof.
  intros H. unfold load64, load_bytes. cbn [seq fmap list_fmap]. rewrite !H by lia. done.
Qed.

Lemma load8_store64_out m a v x : ~ (a <= x < a + 8) -> load8 (store64 m a v) x = load8 m x.
Proof. intros. unfold store64. apply load8_store_bytes_out. rewrite length_le_encode. lia. Qed.

(** Memory that holds bytes only. *)
Record mem_ok (m : gmap Z Z) : Prop := { load8_byte : forall a, is_byte (load8 m a) }.

Lemma mem_ok_store8 m a v : mem_ok m -> mem_ok (store8 m a v).
Proof. intros [H]. split. intros x. rewrite load8_store8. case_decide; [apply u8_range|apply H]. Qed.

Lemma mem_ok_store_bytes m a l : mem_ok m -> mem_ok (store_bytes m a l).
Proof. revert m a. induction l; intros; simpl; auto using mem_ok_store8. Qed.

Lemma mem_ok_store64 m a v : mem_ok m -> mem_ok (store64 m a v).
Proof. apply mem_ok_store_bytes. Qed.

Lemma mem_ok_empty : mem_ok ∅.
Proof. split. intros a. unfold load8. rewrite lookup_empty. unfold is_byte. simpl. lia. Qed.

Lemma load_bytes_bytes m a n : mem_ok m -> Forall is_byte (load_bytes m a n).
Proof. intros H. apply Forall_fmap. apply Forall_forall. intros. apply H. Qed.

Lemma load64_range m a : mem_ok m -> 0 <= load64 m a < 2 ^ 64.
Proof.
  intros H. pose proof (le_decode_range (load_bytes m a 8) (load_bytes_bytes _ _ _ H)) as R.
  by rewrite length_load_bytes in R.
Qed.

#[export] Hint Resolve mem_ok_store8 mem_ok_store_bytes mem_ok_store64 mem_ok_empty : kernel.

(** ** Memory-mapped device registers

    [W] is the state of the hardware: reads and writes of a register, of one byte
    or of four, may change it. *)
Class Mmio (W : Type) := {
  rd8 : Z -> W -> Z * W;
  wr8 : Z -> Z -> W -> W;
  rd32 : Z -> W -> Z * W;
  wr32 : Z -> Z -> W -> W
}.

(** ** Text *)
(** The bytes of a string literal, without the NUL. *)
Definition str (s : string) : list Z := map (fun a => Z.of_nat (Ascii.nat_of_ascii a)) (String.list_ascii_of_string s).

(** The number a sequence of digits stands for, least significant first. *)
Fixpoint value (base : Z) (ds : list Z) : Z :=
  match ds with
  | [] => 0
  | d :: ds => d + base * value base ds
  end.

(** The digits of [x], least significant first, as printint computes them. *)
Fixpoint digits_of (fuel : nat) (x base : Z) : list Z :=
  match fuel with
  | O => []
  | S fuel => x mod base :: if x / base =? 0 then [] else digits_of fuel (x / base) base
  end.

Lemma digits_of_S fuel x base : digits_of (S fuel) x base = x mod base :: if x / base =? 0 then [] else digits_of fuel (x / base) base.
Proof. done. Qed.
Lemma value_cons base d ds : value base (d :: ds) = d + base * value base ds.
Proof. done. Qed.

Lemma digits_of_ok fuel x base : 2 <= base -> 0 <= x < 2 ^ Z.of_nat (S fuel) ->
  let ds := digits_of (S fuel) x base in
  Forall (fun d => 0 <= d < base) ds /\ value base ds = x /\ (x <> 0 -> exists d ds', ds = ds' ++ [d] /\ d <> 0).
Proof.
  intros Hb. revert x. induction fuel as [|f IH]; intros x Hx; cbn zeta.
  - change (2 ^ Z.of_nat 1) with 2 in Hx. cbn [digits_of]. rewrite Z.div_small, Z.mod_small by lia. cbn.
    split; [constructor; [lia|done]|]. split; [lia|]. intros. by exists x, [].
  - rewrite digits_of_S. pose proof (Z.mod_pos_bound x base ltac:(lia)). pose proof (Z.div_mod x base ltac:(lia)) as Hdm.
    destruct (Z.eqb_spec (x / base) 0) as [E|E].
    + cbn. split; [constructor; [lia|done]|]. split; [lia|]. intros. exists (x mod base), []. split; [done|]. lia.
    + destruct (IH (x / base)) as (H1 & H2 & H3).
      { split; [apply Z.div_pos; lia|]. apply Z.div_lt_upper_bound; [lia|].
        replace (Z.of_nat (S (S f))) with (Z.of_nat (S f) + 1) in Hx by lia. rewrite Z.pow_add_r in Hx by lia. change (2 ^ 1) with 2 in Hx. nia. }
      split; [by constructor; [lia|]|]. split; [rewrite value_cons, H2; lia|].
      intros _. destruct (H3 E) as (d & ds' & -> & Hd). by exists d, (x mod base :: ds').
Qed.
