(* ===== verification/KString.v ===== *)
(** * kernel/string.c

    The memory and string routines of the kernel, on byte-addressed memory.
    Each function takes the memory and returns the memory it leaves (or its
    result); the [n--] loops recurse on the count.  [cstr m s l] is the
    abstraction the string routines are specified with: the NUL-terminated
    string [l] is stored at [s]. *)
From S2P Require Import Prelude Machine.
Local Open Scope Z_scope.

(** [for(i = 0; i < n; i++) cdst[i] = c;] *)
Fixpoint memset_loop (m : gmap Z Z) (cdst c : Z) (i : Z) (k : nat) : gmap Z Z :=
  match k with
  | O => m
  | S k => memset_loop (store8 m (cdst + i) c) cdst c (i + 1) k
  end.

Definition memset (m : gmap Z Z) (dst c n : Z) : gmap Z Z := memset_loop m dst c 0 (Z.to_nat n).

Fixpoint memcmp_loop (m : gmap Z Z) (s1 s2 : Z) (n : nat) : Z :=
  match n with
  | O => 0
  | S n => if load8 m s1 =? load8 m s2 then memcmp_loop m (s1 + 1) (s2 + 1) n
           else load8 m s1 - load8 m s2
  end.

Definition memcmp (m : gmap Z Z) (v1 v2 n : Z) : Z := memcmp_loop m v1 v2 (Z.to_nat n).

(** [while(n-- > 0) *--d = *--s;] *)
Fixpoint copy_down (m : gmap Z Z) (d s : Z) (n : nat) : gmap Z Z :=
  match n with
  | O => m
  | S n => copy_down (store8 m (d - 1) (load8 m (s - 1))) (d - 1) (s - 1) n
  end.

(** [while(n-- > 0) *d++ = *s++;] *)
Fixpoint copy_up (m : gmap Z Z) (d s : Z) (n : nat) : gmap Z Z :=
  match n with
  | O => m
  | S n => copy_up (store8 m d (load8 m s)) (d + 1) (s + 1) n
  end.

Definition memmove (m : gmap Z Z) (dst src n : Z) : gmap Z Z :=
  if (src <? dst) && (dst <? src + n)
  then copy_down m (dst + n) (src + n) (Z.to_nat n)
  else copy_up m dst src (Z.to_nat n).

Definition memcpy (m : gmap Z Z) (dst src n : Z) : gmap Z Z := memmove m dst src n.

(** [while(n > 0 && *p && *p == *q) n--, p++, q++;] and the two returns. *)
Fixpoint strncmp_loop (m : gmap Z Z) (p q : Z) (n : nat) : Z :=
  match n with
  | O => 0
  | S n' => if negb (load8 m p =? 0) && (load8 m p =? load8 m q)
            then strncmp_loop m (p + 1) (q + 1) n'
            else load8 m p - load8 m q
  end.

Definition strncmp (m : gmap Z Z) (p q n : Z) : Z := strncmp_loop m p q (Z.to_nat n).

(** The padding loop [while(n-- > 0) *s++ = 0;] *)
Fixpoint pad_loop (m : gmap Z Z) (s : Z) (n : nat) : gmap Z Z :=
  match n with
  | O => m
  | S n => pad_loop (store8 m s 0) (s + 1) n
  end.

Fixpoint strncpy_loop (m : gmap Z Z) (s t : Z) (n : nat) : gmap Z Z :=
  match n with
  | O => m
  | S n => let c := load8 m t in
           let m := store8 m s c in
           if c =? 0 then pad_loop m (s + 1) n else strncpy_loop m (s + 1) (t + 1) n
  end.

Definition strncpy (m : gmap Z Z) (s t n : Z) : gmap Z Z := strncpy_loop m s t (Z.to_nat n).

(** The copying loop that stops after [--n] reaches 0 or a NUL was copied, and
    the final [*s = 0]; here [k = n - 1]. *)
Fixpoint safestrcpy_loop (m : gmap Z Z) (s t : Z) (k : nat) : gmap Z Z :=
  match k with
  | O => store8 m s 0
  | S k => let c := load8 m t in
           let m := store8 m s c in
           if c =? 0 then store8 m (s + 1) 0 else safestrcpy_loop m (s + 1) (t + 1) k
  end.

Definition safestrcpy (m : gmap Z Z) (s t n : Z) : gmap Z Z :=
  if n <=? 0 then m else safestrcpy_loop m s t (Z.to_nat (n - 1)).

(** [for(n = 0; s[n]; n++);] within a number of rounds; [None] when no NUL is
    found in them. *)
Fixpoint strlen_loop (m : gmap Z Z) (s n : Z) (fuel : nat) : option Z :=
  if load8 m (s + n) =? 0 then Some n
  else match fuel with
       | O => None
       | S fuel => strlen_loop m s (n + 1) fuel
       end.

Definition strlen (m : gmap Z Z) (s : Z) (fuel : nat) : option Z := strlen_loop m s 0 fuel.

(** ** Specifications *)
Definition cstr (m : gmap Z Z) (s : Z) (l : list Z) : Prop :=
  load_bytes m s (length l) = l /\ load8 m (s + Z.of_nat (length l)) = 0 /\
  Forall (fun b => b <> 0) l.

(** What [strncmp] compares: a string up to its NUL or its first [n] bytes. *)
Fixpoint cut (l : list Z) : list Z :=
  match l with
  | [] => []
  | b :: l => if b =? 0 then [] else b :: cut l
  end.

Lemma load8_memset_loop m d c i k x :
  load8 (memset_loop m d c i k) x =
  if decide (d + i <= x < d + i + Z.of_nat k) then u8 c else load8 m x.
Proof.
  revert m i. induction k as [|k IH]; intros m i; cbn [memset_loop].
  - case_decide; [lia|done].
  - rewrite IH, load8_store8. repeat case_decide; (done || lia).
Qed.

Lemma load8_memset m d c n x : 0 <= n ->
  load8 (memset m d c n) x = if decide (d <= x < d + n) then u8 c else load8 m x.
Proof.
  intros. unfold memset. rewrite load8_memset_loop, Z2Nat.id, Z.add_0_r by lia. done.
Qed.

Lemma mem_ok_memset m d c n : mem_ok m -> mem_ok (memset m d c n).
Proof.
  intros [H]. split. intros x. destruct (Z.le_gt_cases 0 n).
  - rewrite load8_memset by done. case_decide; [apply u8_range|apply H].
  - unfold memset. replace (Z.to_nat n) with O by lia. apply H.
Qed.

Lemma load64_memset_zero m d n a : d <= a -> a + 8 <= d + n -> load64 (memset m d 0 n) a = 0.
Proof.
  intros. unfold load64. replace (load_bytes _ _ _) with (replicate 8 0); [done|].
  symmetry. apply list_eq. intros i. destruct (decide (i < 8)%nat).
  - rewrite lookup_load_bytes, lookup_replicate_2 by done.
    rewrite load8_memset by lia. case_decide; [done|lia].
  - rewrite !lookup_ge_None_2; [done|..]; rewrite ?length_load_bytes, ?length_replicate; lia.
Qed.

Lemma load64_memset_out m d c n a : 0 <= n -> a + 8 <= d \/ d + n <= a ->
  load64 (memset m d c n) a = load64 m a.
Proof. intros. apply load64_ext. intros. rewrite load8_memset by done. case_decide; [lia|done]. Qed.

#[export] Hint Resolve mem_ok_memset : kernel.

Lemma load8_copy_up m d s k x : d <= s \/ s + Z.of_nat k <= d -> mem_ok m ->
  load8 (copy_up m d s k) x =
  if decide (d <= x < d + Z.of_nat k) then load8 m (s + (x - d)) else load8 m x.
Proof.
  revert m d s. induction k as [|k IH]; intros m d s Hov Hm; cbn [copy_up].
  - case_decide; [lia|done].
  - destruct (decide (d = s)) as [->|Hds].
    + rewrite IH by (auto with kernel; lia).
      rewrite !load8_store8, u8_id by apply Hm.
      repeat case_decide; subst; try lia; try done; f_equal; lia.
    + rewrite IH by (auto with kernel; lia).
      rewrite !load8_store8, u8_id by apply Hm.
      repeat case_decide; subst; try lia; try done; f_equal; lia.
Qed.

Lemma load8_copy_down m d s k x : s < d -> mem_ok m ->
  load8 (copy_down m d s k) x =
  if decide (d - Z.of_nat k <= x < d) then load8 m (s - (d - x)) else load8 m x.
Proof.
  revert m d s. induction k as [|k IH]; intros m d s Hov Hm; cbn [copy_down].
  - case_decide; [lia|done].
  - rewrite IH by (auto with kernel; lia).
    rewrite !load8_store8, u8_id by apply Hm.
    repeat case_decide; subst; try lia; try done; f_equal; lia.
Qed.

(** [memmove] copies, whatever the overlap of source and destination. *)
Lemma load8_memmove m d s n x : 0 <= n -> mem_ok m ->
  load8 (memmove m d s n) x = if decide (d <= x < d + n) then load8 m (s + (x - d)) else load8 m x.
Proof.
  intros Hn Hm. unfold memmove.
  destruct (Z.ltb_spec s d), (Z.ltb_spec d (s + n)); simpl.
  - rewrite load8_copy_down by (done || lia). rewrite Z2Nat.id by done.
    repeat case_decide; try lia; try done. f_equal; lia.
  - rewrite load8_copy_up by (done || lia). by rewrite Z2Nat.id.
  - rewrite load8_copy_up by (done || lia). by rewrite Z2Nat.id.
  - rewrite load8_copy_up by (done || lia). by rewrite Z2Nat.id.
Qed.

Lemma mem_ok_memmove m d s n : 0 <= n -> mem_ok m -> mem_ok (memmove m d s n).
Proof. intros Hn Hm. split. intros x. rewrite load8_memmove by done. case_decide; apply Hm. Qed.

Lemma memmove_bytes m d s n : 0 <= n -> mem_ok m ->
  load_bytes (memmove m d s n) d (Z.to_nat n) = load_bytes m s (Z.to_nat n).
Proof.
  intros Hn Hm. apply list_eq. intros i. destruct (decide (i < Z.to_nat n)%nat).
  - rewrite !lookup_load_bytes by done. rewrite load8_memmove by done.
    case_decide; [f_equal; f_equal; lia|lia].
  - rewrite !lookup_ge_None_2; [done|..]; rewrite length_load_bytes; lia.
Qed.

#[export] Hint Resolve mem_ok_memmove : kernel.

(** *** Comparison *)
Lemma memcmp_loop_zero m s1 s2 n :
  memcmp_loop m s1 s2 n = 0 <-> load_bytes m s1 n = load_bytes m s2 n.
Proof.
  revert s1 s2. induction n as [|n IH]; intros s1 s2; [done|]. cbn [memcmp_loop].
  rewrite !load_bytes_cons.
  destruct (Z.eqb_spec (load8 m s1) (load8 m s2)) as [E|E].
  - rewrite IH, E. split; [by intros ->|by intros [=]].
  - split; [lia|intros [=]; lia].
Qed.

Lemma memcmp_loop_diff m s1 s2 n i : (i < n)%nat ->
  load_bytes m s1 i = load_bytes m s2 i ->
  load8 m (s1 + Z.of_nat i) <> load8 m (s2 + Z.of_nat i) ->
  memcmp_loop m s1 s2 n = load8 m (s1 + Z.of_nat i) - load8 m (s2 + Z.of_nat i).
Proof.
  revert s1 s2 i. induction n as [|n IH]; intros s1 s2 i Hi Heq Hne; [lia|]. cbn [memcmp_loop].
  destruct i as [|i].
  - rewrite !Z.add_0_r in Hne |- *. destruct (Z.eqb_spec (load8 m s1) (load8 m s2)); [lia|done].
  - rewrite !load_bytes_cons in Heq. injection Heq as E Heq. rewrite E, Z.eqb_refl.
    replace (s1 + Z.of_nat (S i)) with (s1 + 1 + Z.of_nat i) in * by lia.
    replace (s2 + Z.of_nat (S i)) with (s2 + 1 + Z.of_nat i) in * by lia.
    apply IH; [lia|done|done].
Qed.

Lemma strncmp_loop_zero m p q n :
  strncmp_loop m p q n = 0 <-> cut (load_bytes m p n) = cut (load_bytes m q n).
Proof.
  revert p q. induction n as [|n IH]; intros p q; [done|].
  cbn [strncmp_loop]. rewrite !load_bytes_cons. cbn [cut].
  destruct (Z.eqb_spec (load8 m p) 0) as [Ep|Ep], (Z.eqb_spec (load8 m q) 0) as [Eq|Eq];
    destruct (Z.eqb_spec (load8 m p) (load8 m q)) as [E|E]; simpl; try lia.
  - split; [done|lia].
  - split; [lia|discriminate].
  - split; [lia|discriminate].
  - rewrite IH, E. split; [by intros ->|by intros [=]].
  - split; [lia|intros [=]; lia].
Qed.

(** *** Copying strings *)
Lemma mem_ok_pad m s n : mem_ok m -> mem_ok (pad_loop m s n).
Proof. revert m s. induction n; intros; simpl; auto with kernel. Qed.

Lemma load8_pad_loop m s n x :
  load8 (pad_loop m s n) x = if decide (s <= x < s + Z.of_nat n) then 0 else load8 m x.
Proof.
  revert m s. induction n as [|n IH]; intros m s; cbn [pad_loop].
  - case_decide; [lia|done].
  - rewrite IH, load8_store8. repeat case_decide; (done || lia).
Qed.

Definition apart (a b : Z) (n : nat) : Prop := a + Z.of_nat n <= b \/ b + Z.of_nat n <= a.

Lemma strncpy_loop_out m s t n x : ~ (s <= x < s + Z.of_nat n) ->
  load8 (strncpy_loop m s t n) x = load8 m x.
Proof.
  revert m s t. induction n as [|n IH]; intros m s t Hx; [done|]. cbn [strncpy_loop].
  destruct (load8 m t =? 0).
  - rewrite load8_pad_loop, load8_store8. repeat case_decide; (done || lia).
  - rewrite IH, load8_store8 by lia. case_decide; [lia|done].
Qed.

Lemma load_bytes_zeros m s n : (forall x, s <= x < s + Z.of_nat n -> load8 m x = 0) ->
  load_bytes m s n = replicate n 0.
Proof.
  intros H. apply list_eq. intros i. destruct (decide (i < n)%nat).
  - rewrite lookup_load_bytes, lookup_replicate_2 by done. rewrite H by lia. done.
  - rewrite !lookup_ge_None_2; [done|..]; rewrite ?length_load_bytes, ?length_replicate; lia.
Qed.

Lemma load_bytes_frame m m' a n :
  (forall x, a <= x < a + Z.of_nat n -> load8 m x = load8 m' x) ->
  load_bytes m a n = load_bytes m' a n.
Proof. intros H. apply load_bytes_ext. intros. apply H. lia. Qed.

Lemma strncpy_loop_bytes m s t n : apart s t n -> mem_ok m ->
  load_bytes (strncpy_loop m s t n) s n =
  cut (load_bytes m t n) ++ replicate (n - length (cut (load_bytes m t n))) 0.
Proof.
  revert m s t. induction n as [|n IH]; intros m s t Hap Hm; [done|].
  cbn [strncpy_loop]. rewrite (load_bytes_cons m t). cbn [cut].
  destruct (Z.eqb_spec (load8 m t) 0) as [E|E].
  - change (S n - length [])%nat with (S n). rewrite app_nil_l. apply load_bytes_zeros.
    intros x Hx. rewrite load8_pad_loop, load8_store8, E.
    repeat case_decide; (done || lia).
  - unfold apart in Hap. assert (load_bytes (store8 m s (load8 m t)) (t + 1) n = load_bytes m (t + 1) n) as F.
    { apply load_bytes_frame. intros x Hx. rewrite load8_store8. case_decide; [lia|done]. }
    rewrite load_bytes_cons, IH, F by (unfold apart; auto with kernel; lia).
    cbn [app length]. f_equal. rewrite strncpy_loop_out, load8_store8 by lia.
    case_decide; [apply u8_id, Hm|lia].
Qed.

Lemma cut_nonzero l : Forall (fun b => b <> 0) (cut l).
Proof. induction l as [|b l IH]; simpl; [done|]. destruct (Z.eqb_spec b 0); by constructor. Qed.

Lemma length_cut l : (length (cut l) <= length l)%nat.
Proof. induction l as [|b l IH]; simpl; [done|]. destruct (b =? 0); simpl; lia. Qed.

Lemma safestrcpy_loop_out m s t k x : ~ (s <= x <= s + Z.of_nat k) ->
  load8 (safestrcpy_loop m s t k) x = load8 m x.
Proof.
  revert m s t. induction k as [|k IH]; intros m s t Hx; cbn [safestrcpy_loop].
  - rewrite load8_store8. case_decide; [lia|done].
  - destruct (load8 m t =? 0).
    + rewrite !load8_store8. repeat case_decide; (done || lia).
    + rewrite IH, load8_store8 by lia. case_decide; [lia|done].
Qed.

Lemma cstr_cons m s b l : b <> 0 -> load8 m s = b -> cstr m (s + 1) l -> cstr m s (b :: l).
Proof.
  intros Hb Hs (Hl & Hz & Hnz). unfold cstr. cbn [length]. rewrite load_bytes_cons, Hl, Hs.
  replace (s + Z.of_nat (S (length l))) with (s + 1 + Z.of_nat (length l)) by lia. auto.
Qed.

Lemma cstr_nil m s : load8 m s = 0 -> cstr m s [].
Proof. intros H. unfold cstr. simpl. by rewrite Z.add_0_r. Qed.

Lemma safestrcpy_loop_cstr m s t k : apart s t (S k) -> mem_ok m ->
  cstr (safestrcpy_loop m s t k) s (cut (load_bytes m t k)).
Proof.
  revert m s t. induction k as [|k IH]; intros m s t Hap Hm; cbn [safestrcpy_loop].
  - apply cstr_nil. rewrite load8_store8. case_decide; [done|lia].
  - rewrite load_bytes_cons. cbn [cut]. unfold apart in *.
    destruct (Z.eqb_spec (load8 m t) 0) as [E|E].
    + apply cstr_nil. rewrite !load8_store8, E. repeat case_decide; (done || lia).
    + apply cstr_cons; [done|..].
      * rewrite safestrcpy_loop_out, load8_store8 by lia. case_decide; [apply u8_id, Hm|lia].
      * assert (load_bytes (store8 m s (load8 m t)) (t + 1) k = load_bytes m (t + 1) k) as <-.
        { apply load_bytes_frame. intros x Hx. rewrite load8_store8. case_decide; [lia|done]. }
        apply IH; [lia|auto with kernel].
Qed.

Lemma strlen_loop_cstr m s n l fuel : cstr m (s + n) l -> (length l <= fuel)%nat ->
  strlen_loop m s n fuel = Some (n + Z.of_nat (length l)).
Proof.
  revert n fuel. induction l as [|b l IH]; intros n fuel (Hl & Hz & Hnz) Hf.
  - simpl in *. rewrite Z.add_0_r in Hz |- *. destruct fuel; simpl; by rewrite Hz.
  - cbn [length] in *. rewrite load_bytes_cons in Hl. injection Hl as Hb Hl.
    apply Forall_cons_iff in Hnz as [Hb0 Hnz]. destruct fuel as [|fuel]; [lia|].
    cbn [strlen_loop]. rewrite Hb. destruct (Z.eqb_spec b 0); [done|].
    rewrite (IH (n + 1)); [f_equal; lia| |lia].
    split; [|split; [|done]].
    + by replace (s + (n + 1)) with (s + n + 1) by lia.
    + rewrite <- Hz. f_equal. lia.
Qed.

(** These routines are used through their lemmas. *)
#[global] Opaque memset memmove load64 store64.
