(* ===== verification/Spinlock.v ===== *)
(** * kernel/spinlock.c, the interrupt flag of riscv.h, and kernel/sleeplock.c

    A hart is the [tp] and [sstatus] registers of a core together with the
    fields of its [struct cpu] (proc.h) that the locks use.  [acquire] and
    [release] are polymorphic in the state they run in: [H] is the place of the
    hart in it and [L] the place of the lock.  Spinning is a [Wait] for the lock
    word to become 0, which the atomic swap then sets.  Module [Smp] is the same
    code at the granularity of its atomic memory operations, for any number of
    harts. *)
From S2P Require Import Prelude Machine.
Local Open Scope Z_scope.
Local Open Scope kernel_scope.

Definition SSTATUS_SIE : Z := Z.shiftl 1 1.

Record hart := mkHart {
  tp : Z;            (* hartid, the index into cpus[] *)
  sstatus : Z;       (* supervisor status register *)
  noff : Z;          (* depth of push_off() nesting *)
  intena : bool;     (* were interrupts enabled before push_off()? *)
  cproc : option nat (* c->proc, as an index into proc[] *)
}.

Definition set_sstatus (v : Z) (h : hart) : hart := mkHart (tp h) v (noff h) (intena h) (cproc h).
Definition set_noff (v : Z) (h : hart) : hart := mkHart (tp h) (sstatus h) v (intena h) (cproc h).
Definition set_intena (v : bool) (h : hart) : hart := mkHart (tp h) (sstatus h) (noff h) v (cproc h).
Definition set_cproc (v : option nat) (h : hart) : hart := mkHart (tp h) (sstatus h) (noff h) (intena h) v.

Definition intr_on (h : hart) : hart := set_sstatus (Z.lor (sstatus h) SSTATUS_SIE) h.
Definition intr_off (h : hart) : hart := set_sstatus (Z.land (sstatus h) (Z.lnot SSTATUS_SIE)) h.
Definition intr_get (h : hart) : bool := negb (Z.land (sstatus h) SSTATUS_SIE =? 0).

Definition push_off : K hart unit :=
  old <- gets intr_get;;
  modify intr_off;;
  n <- gets noff;;
  (if n =? 0 then modify (set_intena old) else ret tt);;
  modify (fun h => set_noff (noff h + 1) h).

Definition pop_off : K hart unit :=
  on <- gets intr_get;;
  if on then panic "pop_off - interruptible" else
  n <- gets noff;;
  if n <? 1 then panic "pop_off" else
  modify (fun h => set_noff (noff h - 1) h);;
  c <- get;;
  if (noff c =? 0) && intena c then modify intr_on else ret tt.

(** [myproc()]: the pushes and pops around the read of [c->proc]. *)
Definition myproc : K hart (option nat) :=
  push_off;; p <- gets cproc;; pop_off;; ret p.

Record spinlock := mkLock { lk_locked : Z; lk_cpu : option Z; lk_name : string }.

Definition initlock (name : string) : spinlock := mkLock 0 None name.

Definition holding (lk : spinlock) (h : hart) : bool :=
  negb (lk_locked lk =? 0) && bool_decide (lk_cpu lk = Some (tp h)).

Definition set_locked (v : Z) (lk : spinlock) : spinlock := mkLock v (lk_cpu lk) (lk_name lk).
Definition set_lk_cpu (v : option Z) (lk : spinlock) : spinlock := mkLock (lk_locked lk) v (lk_name lk).

Section locks.
Context {S : Type} (H : lens S hart) (L : lens S spinlock).

(** [while(__sync_lock_test_and_set(&lk->locked, 1) != 0) ;] *)
Definition test_and_set : K S unit :=
  let take s := Done tt (over L (set_locked 1 (view L s)) s) in
  fun s => if lk_locked (view L s) =? 0 then take s
           else Wait None s (fun s' => lk_locked (view L s') =? 0) take.

Definition acquire : K S unit :=
  zoom H push_off;;
  h <- gets (view H);;
  lk <- gets (view L);;
  if holding lk h then panic "acquire" else
  test_and_set;;
  h <- gets (view H);;
  modify (fun s => over L (set_lk_cpu (Some (tp h)) (view L s)) s).

Definition release : K S unit :=
  h <- gets (view H);;
  lk <- gets (view L);;
  if negb (holding lk h) then panic "release" else
  modify (fun s => over L (set_lk_cpu None (view L s)) s);;
  modify (fun s => over L (set_locked 0 (view L s)) s);;
  zoom H pop_off.

(** [while(!ready) sleep(chan, lk)] as the code around it sees it: the lock is
    released, the process waits until [ready] holds and the lock is free, and goes
    on with the lock held.  Rounds in which the process is woken and finds [ready]
    false are not steps of the model, and that there is a wakeup once [ready] holds
    is not part of it: Proc.v models [sleep] itself, and ProcSpec.v and VirtioSys.v
    show that no wakeup is lost.  [sched] panics when another spinlock is held. *)
Definition sleep_until (c : chan) (ready : S -> bool) : K S unit :=
  fun s => if ready s then Done tt s else
    if negb (noff (view H s) =? 1) then Panic "sched locks" else
    bind release (fun _ s1 =>
      Wait (Some c) s1 (fun s2 => ready s2 && (lk_locked (view L s2) =? 0)) (fun s2 => acquire s2)) s.
End locks.

(** ** Balanced use of [push_off] and [pop_off] *)
Definition hart_ok (h : hart) : Prop :=
  0 <= noff h /\ 0 <= sstatus h /\ (0 < noff h -> intr_get h = false).

Definition pushed (h : hart) : hart :=
  mkHart (tp h) (Z.land (sstatus h) (Z.lnot SSTATUS_SIE)) (noff h + 1)
         (if noff h =? 0 then intr_get h else intena h) (cproc h).

(** A critical section leaves the hart as it was, except that the dead field
    [intena] of a hart with [noff = 0] records the interrupt flag. *)
Definition touched (h : hart) : hart :=
  if noff h =? 0 then set_intena (intr_get h) h else h.

Lemma push_off_run h : push_off h = Done tt (pushed h).
Proof.
  unfold push_off, pushed, bind, gets, modify. destruct h as [t s n i c]; simpl.
  by destruct (n =? 0).
Qed.

Lemma sie_cases s : Z.land s SSTATUS_SIE = 0 \/ Z.land s SSTATUS_SIE = SSTATUS_SIE.
Proof.
  unfold SSTATUS_SIE. change (Z.shiftl 1 1) with (2 ^ 1).
  destruct (Z.testbit s 1) eqn:E; [right|left]; apply Z.bits_inj'; intros i Hi;
    rewrite Z.land_spec, ?Z.bits_0; destruct (decide (i = 1)) as [->|]; rewrite ?E; try done;
    rewrite (Z.pow2_bits_false 1 i) by lia; by rewrite andb_false_r.
Qed.

Lemma sie_off s : Z.land (Z.land s (Z.lnot SSTATUS_SIE)) SSTATUS_SIE = 0.
Proof. rewrite <- Z.ldiff_land. apply Z.land_ldiff. Qed.

Lemma sie_restore s : Z.land s SSTATUS_SIE = SSTATUS_SIE ->
  Z.lor (Z.land s (Z.lnot SSTATUS_SIE)) SSTATUS_SIE = s.
Proof. intros E. rewrite <- E at 2. rewrite <- Z.ldiff_land. apply Z.lor_ldiff_and. Qed.

Lemma sie_unchanged s : Z.land s SSTATUS_SIE = 0 -> Z.land s (Z.lnot SSTATUS_SIE) = s.
Proof. intros E. rewrite <- Z.sub_land_same_l. lia. Qed.

Lemma intr_get_pushed h : intr_get (pushed h) = false.
Proof. unfold intr_get. simpl. by rewrite sie_off. Qed.

Lemma pop_off_pushed h : hart_ok h -> pop_off (pushed h) = Done tt (touched h).
Proof.
  intros (Hn & Hs & Hi). unfold pop_off, bind, gets. rewrite intr_get_pushed.
  destruct h as [t s n i c]. unfold pushed, touched, set_intena, intr_get in *. simpl in *.
  destruct (Z.ltb_spec (n + 1) 1); [lia|]. unfold modify, get, ret. simpl.
  unfold set_noff. simpl. replace (n + 1 - 1) with n by lia.
  destruct (Z.eqb_spec n 0) as [->|Hn0]; simpl.
  - destruct (sie_cases s) as [E|E]; rewrite E; simpl; unfold intr_on, set_sstatus; simpl.
    + by rewrite sie_unchanged.
    + by rewrite sie_restore.
  - specialize (Hi ltac:(lia)). destruct (Z.eqb_spec (Z.land s SSTATUS_SIE) 0) as [E|]; [|done].
    by rewrite sie_unchanged.
Qed.

Lemma hart_ok_pushed h : hart_ok h -> hart_ok (pushed h).
Proof.
  intros (Hn & Hs & Hi). split; [|split; [|intros _; apply intr_get_pushed]].
  - simpl. lia.
  - simpl. apply Z.land_nonneg. by left.
Qed.

Lemma hart_ok_touched h : hart_ok h -> hart_ok (touched h).
Proof. unfold touched, hart_ok. by destruct (noff h =? 0). Qed.

Lemma touched_touched h : touched (touched h) = touched h.
Proof. unfold touched. destruct (noff h =? 0) eqn:E; simpl; by rewrite E. Qed.

Lemma touched_pushed h : hart_ok h -> touched (pushed h) = pushed h.
Proof. intros (Hn & _). unfold touched. simpl. destruct (Z.eqb_spec (noff h + 1) 0); [lia|done]. Qed.

Lemma pushed_touched h : pushed (touched h) = pushed h.
Proof. unfold touched. destruct (noff h =? 0) eqn:E; unfold pushed; simpl; by rewrite E. Qed.

(** Harts equal up to that dead field: what calls that lock and unlock keep. *)
Definition same_hart (h h' : hart) : Prop := touched h = touched h'.

#[export] Instance same_hart_equiv : Equivalence same_hart.
Proof. split; unfold same_hart; congruence. Qed.

Lemma same_hart_touched h : same_hart (touched h) h.
Proof. apply touched_touched. Qed.

Lemma same_hart_noff h h' : same_hart h h' -> noff h = noff h'.
Proof. unfold same_hart, touched. intros E. apply (f_equal noff) in E. by do 2 destruct (_ =? 0). Qed.

Lemma same_hart_cproc h h' : same_hart h h' -> cproc h = cproc h'.
Proof. unfold same_hart, touched. intros E. apply (f_equal cproc) in E. by do 2 destruct (_ =? 0). Qed.

Lemma tp_touched h : tp (touched h) = tp h.
Proof. unfold touched. by destruct (noff h =? 0). Qed.

Lemma myproc_run h : hart_ok h -> myproc h = Done (cproc h) (touched h).
Proof.
  intros Hok. unfold myproc. erewrite bind_Done by apply push_off_run.
  erewrite bind_Done by reflexivity. by erewrite bind_Done by by apply pop_off_pushed.
Qed.

(** ** Critical sections *)
Class LensDisj {S T U} (l : lens S T) (k : lens S U) : Prop := {
  view_over_l : forall u s, view l (over k u s) = view l s;
  view_over_r : forall t s, view k (over l t s) = view k s;
  over_comm : forall t u s, over l t (over k u s) = over k u (over l t s)
}.

(** The lock [lk] free and held by hart [h]. *)
Definition free_lock (lk : spinlock) : Prop := lk_locked lk = 0 /\ lk_cpu lk = None.
Definition taken (lk : spinlock) (h : hart) : spinlock := mkLock 1 (Some (tp h)) (lk_name lk).

Section critical.
Context {S : Type} (H : lens S hart) (L : lens S spinlock).
Context `{!LensOk H, !LensOk L, !LensDisj H L}.

Lemma acquire_free s : lk_locked (view L s) = 0 ->
  acquire H L s =
  Done tt (over L (taken (view L s) (view H s)) (over H (pushed (view H s)) s)).
Proof.
  intros E. unfold acquire. erewrite bind_Done by (apply zoom_Done, push_off_run).
  erewrite bind_Done by reflexivity. erewrite bind_Done by reflexivity.
  unfold holding. rewrite view_over_r, E. simpl.
  unfold bind, test_and_set, gets, modify. rewrite view_over_r, E. simpl.
  rewrite view_over_l, !view_over, over_over. done.
Qed.

Lemma release_taken s h : hart_ok h -> view H s = pushed h -> view L s = taken (view L s) h ->
  release H L s =
  Done tt (over H (touched h) (over L (mkLock 0 None (lk_name (view L s))) s)).
Proof.
  intros Hok EH EL. unfold release. erewrite bind_Done by reflexivity.
  erewrite bind_Done by reflexivity. unfold holding. rewrite EL, EH. simpl.
  rewrite bool_decide_eq_true_2 by done. simpl.
  erewrite bind_Done by reflexivity. erewrite bind_Done by reflexivity.
  rewrite view_over, over_over. apply zoom_Done. rewrite view_over_l, EH.
  by apply pop_off_pushed.
Qed.

(** A state in which hart [h] is in the critical section of the lock, entered
    with no other lock held. *)
Definition inside_lock (h : hart) (s : S) : Prop :=
  hart_ok h /\ noff h = 0 /\ view H s = pushed h /\ view L s = taken (view L s) h.

Lemma acquire_enter s : hart_ok (view H s) -> noff (view H s) = 0 -> lk_locked (view L s) = 0 ->
  exists s1, acquire H L s = Done tt s1 /\ inside_lock (view H s) s1 /\
    s1 = over L (taken (view L s) (view H s)) (over H (pushed (view H s)) s).
Proof.
  intros Hh Hn Hl. eexists. split; [by apply acquire_free|]. split; [|done]. unfold inside_lock.
  rewrite view_over_l, !view_over. done.
Qed.

Definition unlocked (h : hart) (s : S) : S := over H (touched h) (over L (mkLock 0 None (lk_name (view L s))) s).

Lemma release_leave h s : inside_lock h s -> release H L s = Done tt (unlocked h s).
Proof. intros (Hh & _ & EH & EL). by apply release_taken. Qed.

Lemma wpx_sleep_until {G : Type} slept rely panics c ready h s (g : G) Q : inside_lock h s ->
  (ready s = true -> Q tt s g) ->
  (ready s = false -> slept (Some c) (unlocked h s) /\
     forall s' g' s1, rely (unlocked h s) g s' g' -> ready s' = true -> lk_locked (view L s') = 0 -> acquire H L s' = Done tt s1 ->
       s1 = over L (taken (view L s') (view H s')) (over H (pushed (view H s')) s') -> Q tt s1 g') ->
  wpx slept rely panics (sleep_until H L c ready s) g Q.
Proof.
  intros Hin Hnow Hlater. unfold sleep_until. destruct (ready s); [by apply Hnow|]. destruct (Hlater eq_refl) as [Hs Hgo].
  pose proof Hin as (Hh & Hn & EH & EL). rewrite EH. simpl noff. rewrite Hn. cbn [Z.add Z.eqb Pos.eqb negb].
  erewrite bind_Done by by apply release_leave. split; [done|]. intros s' g' Hr E. apply andb_true_iff in E as [E1 E2].
  apply Z.eqb_eq in E2. rewrite acquire_free by done. simpl. eapply Hgo; [done|done|done|by apply acquire_free|done].
Qed.

(** The whole bracket: a body that runs with the lock held and leaves hart and
    lock alone is run between [acquire] and [release] as if there were no lock. *)
Lemma wp_critical {A} (body : K S A) s (Q : A -> S -> Prop) :
  hart_ok (view H s) -> free_lock (view L s) ->
  wp (body (over L (taken (view L s) (view H s)) (over H (pushed (view H s)) s)))
     (fun a s' => view H s' = pushed (view H s) /\
                  view L s' = taken (view L s) (view H s) /\
                  Q a (over H (touched (view H s)) (over L (view L s) s'))) ->
  wp ((acquire H L;; a <- body;; release H L;; ret a) s) Q.
Proof.
  intros Hok [HL Hc] Hbody. apply wp_bind. rewrite acquire_free by done. simpl.
  apply wp_bind. eapply wp_mono; [|exact Hbody]. intros a s' (EH & EL & HQ). simpl.
  apply wp_bind. erewrite (release_taken s' (view H s)); [|done|done|by rewrite EL].
  simpl. rewrite EL. simpl. destruct (view L s) as [l c n]; simpl in *. by subst.
Qed.
End critical.

(** ** Sleep locks

    A sleep lock carries the spinlock that protects it.  The code runs on the
    hart, the lock, the pid of [myproc()] and the record of the wakeups issued
    ([wakeup] makes the processes sleeping on a channel runnable; Proc.v models
    that on the process table); a component runs it on its own locks with
    [zoom]. *)
Record sleeplock := mkSleep {
  sl_locked : Z; sl_lk : spinlock; sl_name : string; sl_pid : Z
}.

Definition initsleeplock (name : string) : sleeplock := mkSleep 0 (initlock "sleep lock") name 0.

Definition set_sl_locked (v : Z) (l : sleeplock) : sleeplock := mkSleep v (sl_lk l) (sl_name l) (sl_pid l).
Definition set_sl_lk (v : spinlock) (l : sleeplock) : sleeplock := mkSleep (sl_locked l) v (sl_name l) (sl_pid l).
Definition set_sl_pid (v : Z) (l : sleeplock) : sleeplock := mkSleep (sl_locked l) (sl_lk l) (sl_name l) v.

Record slstate := mkSL { ss_hart : hart; ss_lk : sleeplock; ss_pid : Z; ss_wakes : list chan }.

Definition ss_upd (f : sleeplock -> sleeplock) (s : slstate) : slstate :=
  mkSL (ss_hart s) (f (ss_lk s)) (ss_pid s) (ss_wakes s).

Definition ssH : lens slstate hart :=
  Lens ss_hart (fun h s => mkSL h (ss_lk s) (ss_pid s) (ss_wakes s)).
Definition ssL : lens slstate spinlock :=
  Lens (fun s => sl_lk (ss_lk s)) (fun l => ss_upd (set_sl_lk l)).

Definition ss_wakeup (c : chan) : K slstate unit :=
  modify (fun s => mkSL (ss_hart s) (ss_lk s) (ss_pid s) (c :: ss_wakes s)).

Definition acquiresleep (self : chan) : K slstate unit :=
  acquire ssH ssL;;
  sleep_until ssH ssL self (fun s => sl_locked (ss_lk s) =? 0);;
  modify (ss_upd (set_sl_locked 1));;
  _ <- zoom ssH myproc;;
  pid <- gets ss_pid;;
  modify (ss_upd (set_sl_pid pid));;
  release ssH ssL.

Definition releasesleep (self : chan) : K slstate unit :=
  acquire ssH ssL;;
  modify (ss_upd (set_sl_locked 0));;
  modify (ss_upd (set_sl_pid 0));;
  ss_wakeup self;;
  release ssH ssL.

Definition holdingsleep : K slstate bool :=
  acquire ssH ssL;;
  _ <- zoom ssH myproc;;
  pid <- gets ss_pid;;
  r <- gets (fun s => negb (sl_locked (ss_lk s) =? 0) && (sl_pid (ss_lk s) =? pid));;
  release ssH ssL;;
  ret r.

#[export] Instance ssH_ok : LensOk ssH.
Proof. split; by intros; repeat match goal with x : slstate |- _ => destruct x end. Qed.
#[export] Instance ssL_ok : LensOk ssL.
Proof. split; by intros; repeat match goal with x : slstate |- _ => destruct x as [? []] end. Qed.
#[export] Instance ssHL_disj : LensDisj ssH ssL.
Proof. split; by intros. Qed.

(** A sleep lock nobody holds, and one held by the process [pid]. *)
Definition sl_free (l : sleeplock) : Prop := sl_locked l = 0 /\ free_lock (sl_lk l).
Definition sl_held (pid : Z) (l : sleeplock) : Prop :=
  sl_locked l = 1 /\ sl_pid l = pid /\ free_lock (sl_lk l).

Definition sl_take (pid : Z) (l : sleeplock) : sleeplock := mkSleep 1 (sl_lk l) (sl_name l) pid.
Definition sl_drop (l : sleeplock) : sleeplock := mkSleep 0 (sl_lk l) (sl_name l) 0.

Lemma acquiresleep_run self h l pid ws : hart_ok h -> sl_free l ->
  acquiresleep self (mkSL h l pid ws) = Done tt (mkSL (touched h) (sl_take pid l) pid ws).
Proof.
  intros Hok (E1 & E3 & E4). destruct l as [lo [lk c n] nm p]. simpl in *. subst.
  unfold acquiresleep. erewrite bind_Done by by apply (acquire_free ssH ssL). simpl.
  erewrite bind_Done by reflexivity. erewrite bind_Done by reflexivity.
  erewrite bind_Done.
  2: { apply zoom_Done. simpl. apply myproc_run. by apply hart_ok_pushed. }
  do 2 (erewrite bind_Done by reflexivity).
  erewrite (release_taken ssH ssL _ h); [done|done|by apply touched_pushed|done].
Qed.

Lemma releasesleep_run self h l pid ws : hart_ok h -> free_lock (sl_lk l) ->
  releasesleep self (mkSL h l pid ws) = Done tt (mkSL (touched h) (sl_drop l) pid (self :: ws)).
Proof.
  intros Hok (E3 & E4). destruct l as [lo [lk c n] nm p]. simpl in *. subst.
  unfold releasesleep. erewrite bind_Done by by apply (acquire_free ssH ssL). simpl.
  do 3 (erewrite bind_Done by reflexivity).
  by erewrite (release_taken ssH ssL _ h).
Qed.

Lemma holdingsleep_run h l pid ws : hart_ok h -> free_lock (sl_lk l) ->
  holdingsleep (mkSL h l pid ws) =
  Done (negb (sl_locked l =? 0) && (sl_pid l =? pid)) (mkSL (touched h) l pid ws).
Proof.
  intros Hok (E3 & E4). destruct l as [lo [lk c n] nm p]. simpl in *. subst.
  unfold holdingsleep. erewrite bind_Done by by apply (acquire_free ssH ssL). simpl.
  erewrite bind_Done.
  2: { apply zoom_Done. simpl. apply myproc_run. by apply hart_ok_pushed. }
  do 2 (erewrite bind_Done by reflexivity).
  erewrite bind_Done by (erewrite (release_taken ssH ssL _ h); [done|done|by apply touched_pushed|done]).
  done.
Qed.

(** ** Nesting *)
Fixpoint times {S} (n : nat) (m : K S unit) : K S unit :=
  match n with
  | O => ret tt
  | S n => m;; times n m
  end.

Fixpoint pushes (n : nat) (h : hart) : hart :=
  match n with
  | O => h
  | S n => pushed (pushes n h)
  end.

Lemma hart_ok_pushes n h : hart_ok h -> hart_ok (pushes n h).
Proof. intros. induction n; simpl; auto using hart_ok_pushed. Qed.

Lemma pushes_pushed n h : pushes n (pushed h) = pushed (pushes n h).
Proof. induction n; simpl; by rewrite ?IHn. Qed.

Lemma times_push_off n h : times n push_off h = Done tt (pushes n h).
Proof.
  revert h. induction n as [|n IH]; intros h; [done|]. cbn [times].
  erewrite bind_Done by apply push_off_run. by rewrite IH, pushes_pushed.
Qed.

(** [k] pops of a hart that was pushed [n] times: the [n]-th undoes the first push. *)
Lemma times_pop_off k n h : hart_ok h -> (k <= n)%nat ->
  times k pop_off (pushes n h) =
  Done tt (if decide (k = n /\ n <> O) then touched h else pushes (n - k) h).
Proof.
  intros Hok. revert n. induction k as [|k IH]; intros n Hk; cbn [times].
  - rewrite Nat.sub_0_r. case_decide; [lia|done].
  - destruct n as [|n]; [lia|]. cbn [pushes].
    erewrite bind_Done by by apply pop_off_pushed, hart_ok_pushes.
    destruct n as [|n].
    + destruct k; [|lia]. rewrite decide_True by lia. done.
    + cbn [pushes]. rewrite touched_pushed by by apply hart_ok_pushes.
      change (pushed (pushes n h)) with (pushes (S n) h). rewrite IH by lia.
      replace (S (S n) - S k)%nat with (S n - k)%nat by lia. do 2 case_decide; (lia || done).
Qed.

Lemma noff_pushes n h : noff (pushes n h) = noff h + Z.of_nat n.
Proof. induction n as [|n IH]; cbn [pushes pushed noff]; [lia|]. rewrite IH. lia. Qed.

Lemma intr_get_pushes n h : n <> O -> intr_get (pushes n h) = false.
Proof. destruct n; [done|]. intros _. apply intr_get_pushed. Qed.

Lemma intr_get_touched h : intr_get (touched h) = intr_get h.
Proof. unfold touched. by destruct (noff h =? 0). Qed.

(** [push_off] and pop_off are matched.  After [n] calls of push_off and
    [k < n] of pop_off interrupts are off and the nesting depth is [n - k] above
    the initial one; the [n]-th pop_off restores the interrupt flag, whether it
    was on or off, and none of the calls panics. *)
Theorem push_pop_matched (n k : nat) (h : hart) : hart_ok h -> (k <= n)%nat -> n <> O ->
  exists h1 h2, times n push_off h = Done tt h1 /\ times k pop_off h1 = Done tt h2 /\
    noff h2 = noff h + Z.of_nat (n - k) /\
    intr_get h2 = (if decide (k = n) then intr_get h else false).
Proof.
  intros Hok Hk Hn. exists (pushes n h), (if decide (k = n) then touched h else pushes (n - k) h).
  rewrite times_push_off, times_pop_off by done.
  repeat case_decide; try lia; (split; [done|split; [done|]]).
  - rewrite intr_get_touched. unfold touched. split; [|done]. destruct (noff h =? 0); simpl; lia.
  - rewrite noff_pushes, intr_get_pushes by lia. split; [lia|done].
Qed.

Lemma push_pop_matched_witness :
  exists h1 h2, times 2 push_off (mkHart 0 2 0 false None) = Done tt h1 /\
    times 2 pop_off h1 = Done tt h2 /\ noff h2 = 0 + Z.of_nat (2 - 2) /\
    intr_get h2 = (if decide (2 = 2)%nat then intr_get (mkHart 0 2 0 false None) else false).
Proof.
  apply (push_pop_matched 2 2 (mkHart 0 2 0 false None)); [|lia|lia].
  split; [simpl; lia|]. split; [simpl; lia|]. simpl. lia.
Defined.

(** ** Several harts on one lock

    The code of [acquire] and [release] cut at its atomic memory operations:
    [Spin] is the [test_and_set] loop (interrupts are off and [holding] was
    false), [Got] is between the swap and the store of [lk->cpu], [Crit] the
    critical section, and [Cleared] between the two stores of [release].  A hart
    acquires from [Idle] and releases from [Crit]. *)
Module Smp.
Inductive pc := Idle | Spin | Got | Crit | Cleared.

Record state := mkSmp { lock : spinlock; at_ : Z -> pc }.

Definition goto (c : Z) (p : pc) (f : Z -> pc) : Z -> pc := fun d => if d =? c then p else f d.

(** Hart [c] inside [push_off]: interrupts off. *)
Definition hart_of (c : Z) : hart := mkHart c 0 1 false None.

Inductive step : state -> state -> Prop :=
| step_enter c lk f : f c = Idle -> holding lk (hart_of c) = false ->
    step (mkSmp lk f) (mkSmp lk (goto c Spin f))
| step_spin c lk f : f c = Spin -> lk_locked lk <> 0 ->
    step (mkSmp lk f) (mkSmp (set_locked 1 lk) f)
| step_swap c lk f : f c = Spin -> lk_locked lk = 0 ->
    step (mkSmp lk f) (mkSmp (set_locked 1 lk) (goto c Got f))
| step_record c lk f : f c = Got ->
    step (mkSmp lk f) (mkSmp (set_lk_cpu (Some c) lk) (goto c Crit f))
| step_clear c lk f : f c = Crit -> holding lk (hart_of c) = true ->
    step (mkSmp lk f) (mkSmp (set_lk_cpu None lk) (goto c Cleared f))
| step_unlock c lk f : f c = Cleared ->
    step (mkSmp lk f) (mkSmp (set_locked 0 lk) (goto c Idle f)).

(** The two panics of the code. *)
Definition panics (s : state) : Prop :=
  exists c, (at_ s c = Idle /\ holding (lock s) (hart_of c) = true) \/
            (at_ s c = Crit /\ holding (lock s) (hart_of c) = false).

Definition initial (s : state) : Prop :=
  (exists name, lock s = initlock name) /\ forall c, at_ s c = Idle.

Definition inside (p : pc) : Prop := p = Got \/ p = Crit \/ p = Cleared.

Definition inv (s : state) : Prop :=
  (lk_locked (lock s) = 0 /\ lk_cpu (lock s) = None /\ forall c, ~ inside (at_ s c)) \/
  (lk_locked (lock s) = 1 /\ exists o, inside (at_ s o) /\
     (forall c, c <> o -> ~ inside (at_ s c)) /\
     lk_cpu (lock s) = match at_ s o with Crit => Some o | _ => None end).

Lemma goto_eq c p f : goto c p f c = p.
Proof. unfold goto. by rewrite Z.eqb_refl. Qed.

Lemma goto_ne c p f d : d <> c -> goto c p f d = f d.
Proof. unfold goto. intros. by destruct (Z.eqb_spec d c). Qed.

Lemma holding_cpu lk c : holding lk (hart_of c) = true <-> lk_locked lk <> 0 /\ lk_cpu lk = Some c.
Proof.
  unfold holding. rewrite andb_true_iff, negb_true_iff, Z.eqb_neq, bool_decide_eq_true. done.
Qed.

(** A move of a hart outside the critical region changes nothing of [inv]. *)
Lemma inv_move_outside c p lk f : ~ inside (f c) -> ~ inside p ->
  inv (mkSmp lk f) -> inv (mkSmp lk (goto c p f)).
Proof.
  intros Hc Hp Hinv. unfold inv in *; simpl in *.
  destruct Hinv as [(El & Ec & Hout)|(El & o & Ho & Hout & Ec)].
  - left. split_and!; [done|done|]. intros d. destruct (decide (d = c)) as [->|].
    + by rewrite goto_eq.
    + by rewrite goto_ne.
  - right. split; [done|]. exists o. assert (o <> c) by by intros ->.
    rewrite goto_ne by done. split_and!; [done| |done].
    intros d Hd. destruct (decide (d = c)) as [->|].
    + by rewrite goto_eq.
    + rewrite goto_ne by done. by apply Hout.
Qed.

(** A move of the owner inside the region. *)
Lemma inv_owner c p lk lk' f : inside (f c) -> inv (mkSmp lk f) ->
  lk_locked lk' = lk_locked lk -> lk_cpu lk' = match p with Crit => Some c | _ => None end ->
  inside p -> inv (mkSmp lk' (goto c p f)).
Proof.
  intros Hc Hinv El' Ec' Hp. unfold inv in *; simpl in *.
  destruct Hinv as [(El & Ec & Hout)|(El & o & Ho & Hout & Ec)]; [by destruct (Hout c)|].
  right. split; [congruence|]. exists c. rewrite goto_eq. split_and!; [done| |done].
  intros d Hd. rewrite goto_ne by done.
  destruct (decide (d = o)) as [->|]; [|by apply Hout].
  destruct (decide (c = o)); [congruence|]. by destruct (Hout c).
Qed.

Lemma inv_step s s' : inv s -> step s s' -> inv s'.
Proof.
  intros Hinv Hst. destruct Hst as [c lk f Hf Hh|c lk f Hf Hl|c lk f Hf Hl|c lk f Hf|c lk f Hf Hh|c lk f Hf].
  - apply inv_move_outside; [..|done]; unfold inside; rewrite ?Hf; by intros [?|[?|?]].
  - destruct Hinv as [(El & Ec & Hout)|(El & o & Hr)]; [done|].
    right. split; [done|]. exists o. exact Hr.
  - destruct Hinv as [(El & Ec & Hout)|(El & _)]; [|simpl in *; congruence].
    right. split; [done|]. exists c. cbn [lock at_ lk_cpu set_locked] in *. rewrite goto_eq.
    split_and!; [unfold inside; auto| |done]. intros d Hd. rewrite goto_ne by done. apply Hout.
  - eapply inv_owner; [|exact Hinv|done|done|]; unfold inside; rewrite ?Hf; auto.
  - eapply inv_owner; [|exact Hinv|done|done|]; unfold inside; rewrite ?Hf; auto.
  - destruct Hinv as [(El & Ec & Hout)|(El & o & Ho & Hout & Ec)].
    { destruct (Hout c). unfold inside. simpl. rewrite Hf. auto. }
    cbn [lock at_ lk_cpu] in *.
    assert (c = o) as <-.
    { destruct (decide (c = o)); [done|]. destruct (Hout c); [done|]. unfold inside. rewrite Hf. auto. }
    left. rewrite Hf in Ec. split_and!; [done|done|]. intros d. cbn [at_].
    destruct (decide (d = c)) as [->|]; [rewrite goto_eq|rewrite goto_ne by done; by apply Hout].
    by intros [?|[?|?]].
Qed.

Lemma inv_initial s : initial s -> inv s.
Proof.
  intros [[name El] Hidle]. left. rewrite El. split_and!; [done|done|].
  intros c. rewrite Hidle. by intros [?|[?|?]].
Qed.

Lemma inv_reachable s0 s : initial s0 -> rtc step s0 s -> inv s.
Proof.
  intros H0 Hr. apply inv_initial in H0. induction Hr; [done|]. eauto using inv_step.
Qed.

Lemma inv_holding s c : inv s -> holding (lock s) (hart_of c) = true <-> at_ s c = Crit.
Proof.
  intros Hinv. rewrite holding_cpu.
  destruct Hinv as [(El & Ec & Hout)|(El & o & Ho & Hout & Ec)].
  - split; [intros []; congruence|]. intros E. destruct (Hout c). unfold inside. auto.
  - rewrite El, Ec. split.
    + intros [_ E]. by destruct (at_ s o) eqn:Eo; simplify_eq.
    + intros E. split; [done|]. destruct (decide (c = o)) as [->|]; [by rewrite E|].
      destruct (Hout c); [done|]. unfold inside. auto.
Qed.

(** C34: mutual exclusion of spinlocks on any number of harts.  In every
    interleaving of the atomic operations of acquire and release from a fresh
    lock, at most one hart is between the swap that takes the lock and the store
    that frees it, holding() answers exactly for the hart in its critical
    section, and neither acquire nor release panics. *)
Theorem mutual_exclusion s0 s : initial s0 -> rtc step s0 s ->
  (forall c d, inside (at_ s c) -> inside (at_ s d) -> c = d) /\
  (forall c, holding (lock s) (hart_of c) = true <-> at_ s c = Crit) /\
  ~ panics s.
Proof.
  intros H0 Hr. pose proof (inv_reachable _ _ H0 Hr) as Hinv. split_and!.
  - intros c d Hc Hd. destruct Hinv as [(_ & _ & Hout)|(_ & o & _ & Hout & _)]; [by destruct (Hout c)|].
    destruct (decide (c = o)), (decide (d = o)); try congruence; exfalso; eapply Hout; eauto.
  - intros c. by apply inv_holding.
  - intros [c [[E Hh]|[E Hh]]].
    + apply (inv_holding s c Hinv) in Hh. congruence.
    + apply (inv_holding s c Hinv) in E. congruence.
Qed.

(** Two harts: one in its critical section, the other spinning. *)
Definition two_harts : state :=
  mkSmp (mkLock 1 (Some 0) "kmem") (goto 1 Spin (goto 0 Crit (goto 0 Got (goto 0 Spin (fun _ => Idle))))).

Lemma mutual_exclusion_witness :
  (forall c d, inside (at_ two_harts c) -> inside (at_ two_harts d) -> c = d) /\
  (forall c, holding (lock two_harts) (hart_of c) = true <-> at_ two_harts c = Crit) /\
  ~ panics two_harts.
Proof.
  apply (mutual_exclusion (mkSmp (initlock "kmem") (fun _ => Idle))); [split; [by exists "kmem"%string|done]|].
  eapply rtc_l; [by apply (step_enter 0)|]. eapply rtc_l; [by apply (step_swap 0)|].
  eapply rtc_l; [by apply (step_record 0)|]. eapply rtc_l; [by apply (step_enter 1)|].
  apply rtc_refl.
Defined.
End Smp.
