(* ===== verification/Kalloc.v ===== *)
(** * kernel/kalloc.c: the physical page allocator

    The free list is threaded through the free pages themselves: the first word
    of a free page is the address of the next one ([struct run]).  [PM] is the
    state of the allocator: the hart it runs on, [kmem], and physical memory.
    [kend] is the address [end] that kernel.ld gives to the first byte after the
    kernel image. *)
From S2P Require Import Prelude Machine KString Spinlock.
Local Open Scope Z_scope.
Local Open Scope kernel_scope.

Record pm := PM { pm_hart : hart; pm_lock : spinlock; pm_freelist : Z; pm_mem : gmap Z Z }.

Definition set_freelist (v : Z) (s : pm) : pm := PM (pm_hart s) (pm_lock s) v (pm_mem s).
Definition set_mem (v : gmap Z Z) (s : pm) : pm := PM (pm_hart s) (pm_lock s) (pm_freelist s) v.

Lemma set_mem_twice m m' s : set_mem m (set_mem m' s) = set_mem m s.
Proof. done. Qed.

Definition pmH : lens pm hart :=
  Lens pm_hart (fun h s => PM h (pm_lock s) (pm_freelist s) (pm_mem s)).
Definition pmL : lens pm spinlock :=
  Lens pm_lock (fun l s => PM (pm_hart s) l (pm_freelist s) (pm_mem s)).

#[export] Instance pmH_ok : LensOk pmH.
Proof. split; by intros; repeat match goal with x : pm |- _ => destruct x end. Qed.
#[export] Instance pmL_ok : LensOk pmL.
Proof. split; by intros; repeat match goal with x : pm |- _ => destruct x end. Qed.
#[export] Instance pmHL_disj : LensDisj pmH pmL.
Proof. split; by intros. Qed.

Section kalloc.
Context (kend : Z).

Definition kfree (pa : Z) : K pm unit :=
  if negb (pa mod PGSIZE =? 0) || (pa <? kend) || (PHYSTOP <=? pa) then panic "kfree" else
  (* Fill with junk to catch dangling refs. *)
  modify (fun s => set_mem (memset (pm_mem s) pa 1 PGSIZE) s);;
  let r := pa in
  acquire pmH pmL;;
  modify (fun s => set_mem (store64 (pm_mem s) r (pm_freelist s)) s);;
  modify (set_freelist r);;
  release pmH pmL.

Definition kalloc : K pm Z :=
  acquire pmH pmL;;
  r <- gets pm_freelist;;
  (if r =? 0 then ret tt
   else modify (fun s => set_freelist (load64 (pm_mem s) r) s));;
  release pmH pmL;;
  (if r =? 0 then ret tt
   else modify (fun s => set_mem (memset (pm_mem s) r 5 PGSIZE) s));;
  ret r.

(** The loop variable of [freerange] runs over the pages [p], [p + PGSIZE], ...
    while [p + PGSIZE <= pa_end]. *)
Definition freerange (pa_start pa_end : Z) : K pm unit :=
  while_ budget (fun p =>
    if p + PGSIZE <=? pa_end then kfree p;; ret (inl (p + PGSIZE)) else ret (inr tt))
    (PGROUNDUP pa_start).

Definition kinit : K pm unit :=
  modify (over pmL (initlock "kmem"));;
  freerange kend PHYSTOP.

(** ** The invariant: the free list is a list of distinct pages of RAM *)
Definition valid_page (p : Z) : Prop := p mod PGSIZE = 0 /\ kend <= p < PHYSTOP.

(** The pages reached from [head] through their first words. *)
Fixpoint chained (m : gmap Z Z) (head : Z) (l : list Z) : Prop :=
  match l with
  | [] => head = 0
  | p :: l => head = p /\ chained m (load64 m p) l
  end.

(** [end] is above KERNBASE and page-aligned regions fit below PHYSTOP. *)
Hypothesis kend_range : 0 < kend <= PHYSTOP.

Record pm_ok (s : pm) (l : list Z) : Prop := {
  ok_hart : hart_ok (pm_hart s);
  ok_lock : free_lock (pm_lock s);
  ok_mem : mem_ok (pm_mem s);
  ok_chain : chained (pm_mem s) (pm_freelist s) l;
  ok_nodup : NoDup l;
  ok_valid : Forall valid_page l
}.

Definition in_page (p x : Z) : Prop := p <= x < p + PGSIZE.

(** [m'] agrees with [m] outside page [p]. *)
Record same_outside (p : Z) (m m' : gmap Z Z) : Prop := {
  outside : forall x, ~ in_page p x -> load8 m' x = load8 m x
}.

Lemma valid_page_pos p : valid_page p -> 0 < p < 2 ^ 56.
Proof. intros [_ ?]. change PHYSTOP with 0x88000000 in *. lia. Qed.

Lemma pages_disjoint p q x : valid_page p -> valid_page q -> p <> q -> in_page p x -> ~ in_page q x.
Proof.
  unfold valid_page, in_page, PGSIZE. intros [Hp _] [Hq _] Hne Hx Hx'.
  apply Hne. Z.div_mod_to_equations. lia.
Qed.

Lemma chained_frame m m' head l :
  (forall p x, p ∈ l -> p <= x < p + 8 -> load8 m' x = load8 m x) ->
  chained m head l -> chained m' head l.
Proof.
  revert head. induction l as [|p l IH]; intros head Hsame Hc; [done|].
  destruct Hc as [-> Hc]. split; [done|].
  rewrite (load64_ext m' m) by (intros; eapply Hsame; [constructor|lia]).
  apply IH; [|done]. intros q x Hq. apply Hsame. by constructor.
Qed.

Lemma chained_same_outside p m m' head l : valid_page p -> Forall valid_page l -> p ∉ l ->
  same_outside p m m' -> chained m head l -> chained m' head l.
Proof.
  intros Hp Hl Hpl Hsame. apply chained_frame. intros q x Hq Hx. apply Hsame.
  eapply pages_disjoint; [|done| |].
  - rewrite Forall_forall in Hl. by apply Hl.
  - by intros ->.
  - unfold in_page, PGSIZE. lia.
Qed.

Lemma valid_page_check p : valid_page p ->
  negb (p mod PGSIZE =? 0) || (p <? kend) || (PHYSTOP <=? p) = false.
Proof. intros [-> Hp]. simpl. repeat ktest; done. Qed.

Lemma kfree_ok s l p : pm_ok s l -> valid_page p -> p ∉ l ->
  wp (kfree p s) (fun _ s' => pm_ok s' (p :: l) /\ same_outside p (pm_mem s) (pm_mem s') /\
    pm_hart s' = touched (pm_hart s) /\ pm_lock s' = pm_lock s).
Proof.
  intros [Hh [Hl Hc] Hm Hch Hnd Hv] Hp Hpl. unfold kfree. rewrite valid_page_check by done.
  destruct s as [h [lo cpu nm] fl m]. simpl in *. subst.
  apply wp_bind. simpl.
  apply wp_bind. rewrite (acquire_free pmH pmL) by done. simpl.
  do 2 (apply wp_bind; simpl).
  rewrite (release_taken pmH pmL _ h) by done. simpl.
  set (m1 := memset m p 1 PGSIZE). set (m2 := store64 m1 p fl).
  assert (same_outside p m m2) as Hsame.
  { split. intros x Hx. unfold m2, m1. rewrite load8_store64_out by (unfold in_page, PGSIZE in *; lia).
    rewrite load8_memset by (unfold PGSIZE; lia). case_decide; [done|done]. }
  assert (mem_ok m2) by (unfold m2, m1; auto with kernel).
  split_and!; [|done|done|done]. split; simpl.
  - by apply hart_ok_touched.
  - done.
  - done.
  - split; [done|]. replace (load64 m2 p) with fl.
    + by eapply chained_same_outside.
    + unfold m2. rewrite load64_store64_same; [done|]. destruct l as [|q l]; simpl in Hch; [lia|].
      destruct Hch as [-> _]. apply Forall_cons_iff in Hv as [Hv _]. apply valid_page_pos in Hv. lia.
  - by apply NoDup_cons.
  - by constructor.
Qed.

Lemma kalloc_empty s : pm_ok s [] ->
  wp (kalloc s) (fun r s' => r = 0 /\ pm_ok s' [] /\ pm_mem s' = pm_mem s /\
    pm_hart s' = touched (pm_hart s) /\ pm_lock s' = pm_lock s).
Proof.
  intros [Hh [Hl Hc] Hm Hch Hnd Hv]. unfold kalloc.
  destruct s as [h [lo cpu nm] fl m]. simpl in *. subst.
  apply wp_bind. rewrite (acquire_free pmH pmL) by done. simpl.
  do 2 (apply wp_bind; simpl). apply wp_bind. rewrite (release_taken pmH pmL _ h) by done. simpl.
  split_and!; try done. split; simpl; try done. by apply hart_ok_touched.
Qed.

Lemma kalloc_cons s p l : pm_ok s (p :: l) ->
  wp (kalloc s) (fun r s' => r = p /\ pm_ok s' l /\ same_outside p (pm_mem s) (pm_mem s') /\
    (forall x, in_page p x -> load8 (pm_mem s') x = 5) /\
    pm_hart s' = touched (pm_hart s) /\ pm_lock s' = pm_lock s).
Proof.
  intros [Hh [Hl Hc] Hm Hch Hnd Hv]. unfold kalloc.
  apply Forall_cons_iff in Hv as [Hp Hv]. apply NoDup_cons in Hnd as [Hpl Hnd].
  destruct s as [h [lo cpu nm] fl m]. simpl in *. destruct Hch as [-> Hch]. subst.
  assert ((p =? 0) = false) as E by (apply valid_page_pos in Hp; lia).
  apply wp_bind. rewrite (acquire_free pmH pmL) by done. simpl.
  apply wp_bind. simpl. apply wp_bind. rewrite E. simpl.
  apply wp_bind. rewrite (release_taken pmH pmL _ h) by done. simpl.
  assert (same_outside p m (memset m p 5 PGSIZE)) as Hsame.
  { split. intros x Hx. rewrite load8_memset by (unfold PGSIZE; lia). by case_decide. }
  split; [done|split; [|split; [done|split; [|done]]]].
  - split; simpl; [by apply hart_ok_touched|done|auto with kernel| |done|done].
    by eapply chained_same_outside.
  - intros x Hx. rewrite load8_memset by (unfold PGSIZE; lia). by case_decide.
Qed.

(** Both cases at once. *)
Lemma kalloc_ok s l : pm_ok s l ->
  wp (kalloc s) (fun r s' =>
    pm_hart s' = touched (pm_hart s) /\ pm_lock s' = pm_lock s /\
    match l with
    | [] => r = 0 /\ pm_ok s' [] /\ pm_mem s' = pm_mem s
    | p :: l => r = p /\ pm_ok s' l /\ same_outside p (pm_mem s) (pm_mem s') /\
                forall x, in_page p x -> load8 (pm_mem s') x = 5
    end).
Proof.
  intros Hok. destruct l as [|p l].
  - kcall kalloc_empty. tauto.
  - kcall kalloc_cons. tauto.
Qed.

(** Writes outside the free pages keep the invariant. *)
Lemma pm_ok_set_mem s l m' : pm_ok s l -> mem_ok m' ->
  (forall p x, p ∈ l -> in_page p x -> load8 m' x = load8 (pm_mem s) x) -> pm_ok (set_mem m' s) l.
Proof.
  intros [Hh Hl Hm Hch Hnd Hv] Hm' Hsame. split; simpl; try done.
  eapply chained_frame; [|done]. intros p x Hp Hx. eapply Hsame; [done|].
  unfold in_page, PGSIZE. lia.
Qed.

(** The pages of a range, the last one first. *)
Definition pages_of (start : Z) (n : nat) : list Z :=
  reverse ((fun i => start + Z.of_nat i * PGSIZE) <$> seq 0 n).

Lemma pages_of_S start n : pages_of start (S n) = start + Z.of_nat n * PGSIZE :: pages_of start n.
Proof. unfold pages_of. rewrite seq_S, fmap_app, reverse_app. done. Qed.

Lemma elem_pages_of start n p : p ∈ pages_of start n <->
  exists i, (i < n)%nat /\ p = start + Z.of_nat i * PGSIZE.
Proof.
  unfold pages_of. rewrite elem_of_reverse, list_elem_of_fmap.
  split; intros (i & H1 & H2); exists i; rewrite elem_of_seq in *; (split; [lia|done]) || (split; [done|lia]).
Qed.
Lemma freerange_ok s l pa_start n :
  let start := PGROUNDUP pa_start in
  pm_ok s l -> (forall i, (i < n)%nat -> valid_page (start + Z.of_nat i * PGSIZE)) ->
  (forall i, (i < n)%nat -> start + Z.of_nat i * PGSIZE ∉ l) ->
  0 <= start -> start + Z.of_nat n * PGSIZE <= PHYSTOP ->
  forall pa_end, start + Z.of_nat n * PGSIZE <= pa_end < start + (Z.of_nat n + 1) * PGSIZE ->
  wp (freerange pa_start pa_end s) (fun _ s' => pm_ok s' (pages_of start n ++ l)).
Proof.
  intros start Hok Hvalid Hfresh Hstart Hn pa_end Hend. unfold freerange. fold start.
  apply (wp_while _
    (fun p s' => exists k, (k <= n)%nat /\ p = start + Z.of_nat k * PGSIZE /\
                           pm_ok s' (pages_of start k ++ l))
    (fun p => Z.max 0 (pa_end + PGSIZE - p))).
  - intros p s1 (k & Hk & -> & Hok1). ktest.
    + assert (k < n)%nat by (unfold PGSIZE in *; nia).
      apply wp_bind. eapply wp_mono; [|apply (kfree_ok _ _ _ Hok1)].
      * intros _ s2 (Hok2 & _). simpl. split; [|unfold PGSIZE in *; lia].
        exists (S k). split_and!; [lia|unfold PGSIZE in *; lia|]. by rewrite pages_of_S.
      * by apply Hvalid.
      * rewrite not_elem_of_app. split; [|by apply Hfresh].
        rewrite elem_pages_of. intros (i & Hi & E). unfold PGSIZE in *. nia.
    + assert (k = n) as -> by (unfold PGSIZE in *; nia). done.
  - intros p s1 _. lia.
  - exists O. split_and!; [lia|lia|done].
  - change PHYSTOP with 0x88000000 in *. unfold budget, PGSIZE in *. simpl. lia.
Qed.

(** The state in which [main] calls [kinit]: [kmem] is still zero. *)
Definition at_boot (s : pm) : Prop := hart_ok (pm_hart s) /\ mem_ok (pm_mem s) /\ pm_freelist s = 0.

Definition npages : nat := Z.to_nat ((PHYSTOP - PGROUNDUP kend) / PGSIZE).
Definition all_pages : list Z := pages_of (PGROUNDUP kend) npages.

Lemma kend_round : PGROUNDUP kend mod PGSIZE = 0 /\ kend <= PGROUNDUP kend <= PHYSTOP.
Proof.
  destruct (PGROUNDUP_spec kend) as [Ha Hb]; [change PHYSTOP with 0x88000000 in *; unfold PGSIZE; lia|].
  split; [done|]. split; [lia|]. change PHYSTOP with (0x88000 * 4096) in *. unfold PGSIZE in *.
  Z.div_mod_to_equations. lia.
Qed.

Lemma npages_spec : PGROUNDUP kend + Z.of_nat npages * PGSIZE = PHYSTOP.
Proof.
  destruct kend_round as [Ha Hb]. unfold npages. change PHYSTOP with (0x88000 * 4096) in *.
  unfold PGSIZE in *. Z.div_mod_to_equations. lia.
Qed.

Lemma all_pages_valid p : p ∈ all_pages <-> valid_page p.
Proof.
  destruct kend_round as [Ha Hb]. pose proof npages_spec as Hn. unfold all_pages. rewrite elem_pages_of. split.
  - intros (i & Hi & ->). unfold valid_page, PGSIZE in *. split; [Z.div_mod_to_equations; lia|lia].
  - intros [Hp1 Hp2]. exists (Z.to_nat ((p - PGROUNDUP kend) / PGSIZE)).
    destruct (PGROUNDUP_spec kend) as [_ Hc]; [change PHYSTOP with 0x88000000 in *; unfold PGSIZE; lia|].
    unfold PGSIZE in *. split; Z.div_mod_to_equations; lia.
Qed.

Lemma kinit_ok s : at_boot s -> wp (kinit s) (fun _ s' => pm_ok s' all_pages).
Proof.
  intros (Hh & Hm & Hf). destruct kend_round as [Ha Hb]. pose proof npages_spec as Hn.
  unfold kinit. ksteps.
  unfold all_pages. rewrite <- (app_nil_r (pages_of _ _)).
  apply freerange_ok; try (unfold PGSIZE in *; lia).
  - split; simpl; try done. constructor.
  - intros i Hi. apply all_pages_valid. unfold all_pages. rewrite elem_pages_of. eauto.
  - intros i _. apply not_elem_of_nil.
Qed.

(** A client of the allocator: the pages it was given and has not freed, and the
    bytes it stored in them.  It frees and writes only pages it owns. *)
Inductive request := Alloc | Free (p : Z) | Put (x v : Z).
Record client := mkClient { cl_owned : gset Z; cl_put : gmap Z Z }.
Definition page_of (x : Z) : Z := x - x mod PGSIZE.

(** The client after a series of requests, and for every [Alloc] the pages it
    owned and the answer of kalloc. *)
Fixpoint serve (rs : list request) (cl : client) : K pm (client * list (gset Z * Z)) :=
  match rs with
  | [] => ret (cl, [])
  | Alloc :: rs =>
      r <- kalloc;;
      q <- serve rs (if r =? 0 then cl else mkClient ({[r]} ∪ cl_owned cl) (cl_put cl));;
      ret (q.1, (cl_owned cl, r) :: q.2)
  | Free p :: rs =>
      if decide (p ∈ cl_owned cl) then
        kfree p;; serve rs (mkClient (cl_owned cl ∖ {[p]}) (filter (fun xv => page_of xv.1 <> p) (cl_put cl)))
      else serve rs cl
  | Put x v :: rs =>
      if decide (page_of x ∈ cl_owned cl) then
        modify (fun s => set_mem (store8 (pm_mem s) x v) s);;
        serve rs (mkClient (cl_owned cl) (<[x := u8 v]> (cl_put cl)))
      else serve rs cl
  end.

(** Every page of RAM is either owned by the client or on the free list, and
    never both. *)
Definition partition (s : pm) (owned : gset Z) : Prop :=
  exists l, pm_ok s l /\ (forall p, p ∈ owned -> p ∉ l) /\
            forall p, valid_page p <-> p ∈ owned \/ p ∈ l.

(** What kalloc may answer a client that owns the pages [owned]: a page that is
    not among them, or 0 when there is no other. *)
Definition answered (a : gset Z * Z) : Prop :=
  if a.2 =? 0 then forall p, valid_page p -> p ∈ a.1 else valid_page a.2 /\ a.2 ∉ a.1.

(** The bytes of the client are where it stored them. *)
Definition kept (s : pm) (cl : client) : Prop :=
  forall x v, cl_put cl !! x = Some v -> page_of x ∈ cl_owned cl /\ load8 (pm_mem s) x = v.

Definition served (s : pm) (cl : client) : Prop := partition s (cl_owned cl) /\ kept s cl.

Lemma page_of_in x : in_page (page_of x) x.
Proof. unfold in_page, page_of. pose proof (Z.mod_pos_bound x PGSIZE ltac:(done)). lia. Qed.

Lemma kept_outside s s' cl p : kept s cl -> same_outside p (pm_mem s) (pm_mem s') -> valid_page p ->
  (forall q, q ∈ cl_owned cl -> valid_page q) -> p ∉ cl_owned cl -> kept s' cl.
Proof.
  intros Hk [Hs] Hp Hv Hn x v Hx. destruct (Hk x v Hx) as [Ho <-]. split; [done|]. apply Hs.
  apply (pages_disjoint (page_of x)); [by apply Hv|done| |apply page_of_in]. congruence.
Qed.

Lemma served_alloc s cl : served s cl -> wp (kalloc s) (fun r s' => answered (cl_owned cl, r) /\
  served s' (if r =? 0 then cl else mkClient ({[r]} ∪ cl_owned cl) (cl_put cl))).
Proof.
  intros [(l & Hok & Hdis & Hall) Hk]. eapply wp_mono; [|by apply kalloc_ok]. intros r s' (_ & _ & Hr). unfold answered. cbn [fst snd].
  destruct l as [|p l].
  - destruct Hr as (-> & Hok' & Em). cbn [Z.eqb]. split; [|split].
    + intros p Hp. apply Hall in Hp as [|Hp]; [done|]. by apply elem_of_nil in Hp.
    + by exists [].
    + intros x v Hx. rewrite Em. by apply Hk.
  - destruct Hr as (-> & Hok' & Hsame & _). destruct Hok as [_ _ _ _ Hnd Hv].
    apply Forall_cons_iff in Hv as [Hv _]. apply NoDup_cons in Hnd as [Hpl _].
    assert (p ∉ cl_owned cl) as Hpn by (intros Hp; apply (Hdis p Hp); constructor).
    pose proof (valid_page_pos _ Hv) as Hpos. destruct (Z.eqb_spec p 0); [lia|]. split; [done|]. split.
    + exists l. split_and!; [done| |]; cbn [cl_owned].
      * intros q Hq. rewrite elem_of_union, elem_of_singleton in Hq. destruct Hq as [->|Hq]; [done|].
        apply Hdis in Hq. apply not_elem_of_cons in Hq. tauto.
      * intros q. rewrite Hall, elem_of_union, elem_of_singleton, elem_of_cons. tauto.
    + intros x v Hx. assert (kept s' cl) as Hk'.
      { eapply (kept_outside s s' cl p); try done. intros q Hq. apply Hall. by left. }
      destruct (Hk' x v Hx) as [Ho E]. split; [cbn [cl_owned]; set_solver|done].
Qed.

Lemma served_free s cl p : served s cl -> p ∈ cl_owned cl -> wp (kfree p s) (fun _ s' =>
  served s' (mkClient (cl_owned cl ∖ {[p]}) (filter (fun xv => page_of xv.1 <> p) (cl_put cl)))).
Proof.
  intros [(l & Hok & Hdis & Hall) Hk] Hp. assert (valid_page p) as Hvp by (apply Hall; by left).
  eapply wp_mono; [|apply (kfree_ok s l p Hok Hvp); by apply Hdis].
  intros _ s' (Hok' & Hsame & _). split.
  - exists (p :: l). split_and!; [done| |]; cbn [cl_owned].
    + intros q. rewrite elem_of_difference, elem_of_singleton, not_elem_of_cons. intros []. auto.
    + intros q. rewrite Hall, elem_of_difference, elem_of_singleton, elem_of_cons.
      destruct (decide (q = p)) as [->|]; tauto.
  - intros x v Hx. cbn [cl_put cl_owned] in *. apply map_lookup_filter_Some in Hx as [Hx Hne]. cbn [fst] in Hne.
    destruct (Hk x v Hx) as [Ho <-]. split; [set_solver|]. apply Hsame.
    apply (pages_disjoint (page_of x)); [apply Hall; by left|done|done|apply page_of_in].
Qed.

Lemma served_put s cl x v : served s cl -> page_of x ∈ cl_owned cl ->
  served (set_mem (store8 (pm_mem s) x v) s) (mkClient (cl_owned cl) (<[x := u8 v]> (cl_put cl))).
Proof.
  intros [(l & Hok & Hdis & Hall) Hk] Hx. split.
  - exists l. split_and!; [|done|done]. apply pm_ok_set_mem; [done|apply mem_ok_store8, Hok|]. intros p y Hp Hy. rewrite load8_store8, decide_False; [done|].
    intros ->. apply (pages_disjoint (page_of y) p y); [apply Hall; by left|apply Hall; by right| |apply page_of_in|done].
    intros E. apply (Hdis (page_of y) Hx). by rewrite E.
  - intros y w Hy. cbn [cl_put cl_owned pm_mem set_mem] in *. rewrite load8_store8. apply lookup_insert_Some in Hy as [[<- <-]|[Hne Hy]].
    + by rewrite decide_True.
    + rewrite decide_False by done. by apply Hk.
Qed.

Lemma serve_ok rs s cl : served s cl -> wp (serve rs cl s) (fun q s' => served s' q.1 /\ Forall answered q.2).
Proof.
  revert s cl. induction rs as [|[|p|x v] rs IH]; intros s cl Hs; [split; [done|constructor]|..]; cbn [serve].
  - apply wp_bind. eapply wp_mono; [|by apply served_alloc]. intros r s1 [Ha H1]. apply wp_bind.
    eapply wp_mono; [|by apply IH]. intros q s2 [H2 Hl]. kstep. split; [done|by constructor].
  - case_decide; [|by apply IH]. apply wp_bind. eapply wp_mono; [|by apply served_free]. intros u s' H'. by apply IH.
  - case_decide; [|by apply IH]. kstep. kstep. by apply IH, served_put.
Qed.

Definition no_client : client := mkClient ∅ ∅.

Lemma boot_served s : at_boot s -> wp (kinit s) (fun _ s' => served s' no_client).
Proof.
  intros Hb. eapply wp_mono; [|by apply kinit_ok]. intros u s' Hok. split; [|intros x v Hx; cbn [cl_put no_client] in Hx; by rewrite lookup_empty in Hx].
  exists all_pages. split_and!; [done|set_solver|]. intros p. rewrite all_pages_valid. set_solver.
Qed.

(** C3: the allocator never hands out a page twice.  After kinit, any sequence
    of kalloc, of kfree of owned pages and of stores into owned pages runs without
    panic.  Every answer of kalloc is a page above [end] that the client does not
    own, or 0 when the client owns all of them; at the end the pages of RAM are
    partitioned into those the client owns and those on the free list, a list of
    distinct pages threaded through their first words; and every byte the client
    stored in a page it still owns is there. *)
Theorem kalloc_partition (rs : list request) (s : pm) : at_boot s ->
  wp ((kinit;; serve rs no_client) s) (fun q s' => Forall answered q.2 /\ partition s' (cl_owned q.1) /\
    forall x v, cl_put q.1 !! x = Some v -> load8 (pm_mem s') x = v).
Proof.
  intros Hb. apply wp_bind. eapply wp_mono; [|by apply boot_served]. intros u s1 H1. eapply wp_mono; [|by apply serve_ok].
  intros q s2 [[Hp Hk] Hl]. split_and!; [done|done|]. intros x v Hx. by apply Hk.
Qed.

(** kfree undoes kalloc.  A page returned by kalloc is a valid page filled
    with the junk byte 5; freeing it puts it back at the head of the free list, so
    that the list is the one before the call, and the two calls change no memory
    outside that page and leave the lock free. *)
Theorem kalloc_kfree_roundtrip (s : pm) (p : Z) (l : list Z) : pm_ok s (p :: l) ->
  wp (kalloc s) (fun r s1 => r = p /\ valid_page r /\ pm_ok s1 l /\
    (forall x, in_page r x -> load8 (pm_mem s1) x = 5) /\
    wp (kfree r s1) (fun _ s2 => pm_ok s2 (p :: l) /\ same_outside p (pm_mem s) (pm_mem s2))).
Proof.
  intros Hok. pose proof (ok_valid _ _ Hok) as Hv. pose proof (ok_nodup _ _ Hok) as Hnd.
  apply Forall_cons_iff in Hv as [Hv _]. apply NoDup_cons in Hnd as [Hpl _].
  eapply wp_mono; [|by apply kalloc_cons]. intros r s1 (-> & Hok1 & [Hs1] & Hfill & _ & _).
  split_and!; try done. eapply wp_mono; [|by apply (kfree_ok _ l)].
  intros u s2 (Hok2 & [Hs2] & _). split; [done|]. split. intros x Hx. by rewrite Hs2, Hs1.
Qed.

(** [kfree] panics exactly on what cannot be a page of the allocator: an
    address that is not page-aligned, below [end], or at or above PHYSTOP; on a
    free lock it never panics otherwise. *)
Theorem kfree_panics_iff (s : pm) (pa : Z) : hart_ok (pm_hart s) -> free_lock (pm_lock s) ->
  (exists msg, kfree pa s = Panic msg) <-> ~ valid_page pa.
Proof.
  intros Hh Hl. unfold kfree. split.
  - intros [msg E] Hv. rewrite valid_page_check in E by done.
    destruct s as [h lk fl m]. simpl in *. destruct Hl as [Hl _].
    erewrite bind_Done in E by reflexivity.
    erewrite bind_Done in E by by apply (acquire_free pmH pmL).
    do 2 (erewrite bind_Done in E by reflexivity).
    erewrite (release_taken pmH pmL _ h) in E by done. discriminate.
  - intros Hv. exists "kfree"%string.
    destruct (negb _ || _ || _) eqn:E; [done|]. destruct Hv.
    apply orb_false_iff in E as [E E3]. apply orb_false_iff in E as [E1 E2].
    unfold valid_page. split; [by apply negb_false_iff, Z.eqb_eq in E1|lia].
Qed.
End kalloc.

(** ** Witnesses: a machine with two pages of RAM above the kernel *)
Definition boot_hart : hart := mkHart 0 0 0 false None.
Definition tiny : pm := PM boot_hart (mkLock 0 None "kmem") 0 ∅.
Definition tiny_end : Z := PHYSTOP - 2 * PGSIZE.

Lemma boot_hart_ok : hart_ok boot_hart.
Proof. split; [simpl; lia|]. split; [simpl; lia|]. simpl. lia. Qed.

Lemma tiny_boot : at_boot tiny.
Proof. split; [apply boot_hart_ok|]. split; [apply mem_ok_empty|done]. Qed.

Lemma kalloc_partition_witness :
  wp ((kinit tiny_end;; serve tiny_end [Alloc; Put (PHYSTOP - PGSIZE) 7; Alloc; Alloc; Free (PHYSTOP - PGSIZE)] no_client) tiny)
     (fun q s' => Forall (answered tiny_end) q.2 /\ partition tiny_end s' (cl_owned q.1) /\
        forall x v, cl_put q.1 !! x = Some v -> load8 (pm_mem s') x = v).
Proof.
  apply (kalloc_partition tiny_end); [|apply tiny_boot].
  change (0 < PHYSTOP - 8192 <= PHYSTOP). change PHYSTOP with 0x88000000. lia.
Defined.

Lemma tiny_one_page (p := PHYSTOP - PGSIZE) :
  pm_ok tiny_end (PM boot_hart (mkLock 0 None "kmem") p (store64 ∅ p 0)) [p].
Proof.
  split; simpl.
  - apply boot_hart_ok.
  - done.
  - auto with kernel.
  - split; [done|]. by rewrite load64_store64_same.
  - apply NoDup_singleton.
  - repeat constructor; vm_compute; congruence.
Qed.

Lemma kalloc_kfree_roundtrip_witness (p := PHYSTOP - PGSIZE)
    (s := PM boot_hart (mkLock 0 None "kmem") p (store64 ∅ p 0)) :
  wp (kalloc s) (fun r s1 => r = p /\ valid_page tiny_end r /\ pm_ok tiny_end s1 [] /\
    (forall x, in_page r x -> load8 (pm_mem s1) x = 5) /\
    wp (kfree tiny_end r s1) (fun _ s2 => pm_ok tiny_end s2 [p] /\ same_outside p (pm_mem s) (pm_mem s2))).
Proof.
  apply (kalloc_kfree_roundtrip tiny_end); [|apply tiny_one_page].
  change (0 < PHYSTOP - 8192 <= PHYSTOP). change PHYSTOP with 0x88000000. lia.
Defined.

Lemma kfree_panics_iff_witness :
  (exists msg, kfree tiny_end 1 tiny = Panic msg) <-> ~ valid_page tiny_end 1.
Proof. apply (kfree_panics_iff tiny_end); [apply boot_hart_ok|done]. Defined.
