(* ===== verification/Vm.v ===== *)
(** * kernel/vm.c: Sv39 page tables

    Page tables live in physical memory: a page-table page is 512 little-endian
    words, and all operations read and write them with [load64] and [store64].
    A pointer to a PTE is the physical address of its word ([0] is the null
    pointer).  Buffers of the kernel that [copyout], [copyin] and [copyinstr]
    copy from or to are byte lists: the C locals and the buffer-cache blocks the
    callers pass are not part of the pages the allocator manages. *)
From S2P Require Import Prelude Machine KString Spinlock Kalloc.
Local Open Scope Z_scope.
Local Open Scope kernel_scope.

(** [e & PTE_X] as a condition. *)
Definition has (e flag : Z) : bool := negb (Z.land e flag =? 0).

Section vm.
Context (kend : Z).

(** The loop of [walk] over the levels 2 and 1; [None] stands for the early
    [return 0]. *)
Fixpoint walk_levels (levels : list Z) (pagetable va : Z) (alloc : bool) : K pm (option Z) :=
  match levels with
  | [] => ret (Some pagetable)
  | level :: levels =>
      let pte := pagetable + 8 * PX level va in
      e <- gets (fun s => load64 (pm_mem s) pte);;
      if has e PTE_V then walk_levels levels (PTE2PA e) va alloc
      else if negb alloc then ret None
      else
        pg <- kalloc;;
        if pg =? 0 then ret None else
        modify (fun s => set_mem (memset (pm_mem s) pg 0 PGSIZE) s);;
        modify (fun s => set_mem (store64 (pm_mem s) pte (Z.lor (PA2PTE pg) PTE_V)) s);;
        walk_levels levels pg va alloc
  end.

Definition walk (pagetable va : Z) (alloc : bool) : K pm Z :=
  if MAXVA <=? va then panic "walk" else
  r <- walk_levels [2; 1] pagetable va alloc;;
  match r with
  | None => ret 0
  | Some pagetable => ret (pagetable + 8 * PX 0 va)
  end.

Definition walkaddr (pagetable va : Z) : K pm Z :=
  if MAXVA <=? va then ret 0 else
  pte <- walk pagetable va false;;
  if pte =? 0 then ret 0 else
  e <- gets (fun s => load64 (pm_mem s) pte);;
  if negb (has e PTE_V) then ret 0 else
  if negb (has e PTE_U) then ret 0 else
  ret (PTE2PA e).

Definition mappages (pagetable va size pa perm : Z) : K pm Z :=
  let a := PGROUNDDOWN va in
  let last := PGROUNDDOWN (u64 (va + size - 1)) in
  while_ budget (fun '(a, pa) =>
    pte <- walk pagetable a true;;
    if pte =? 0 then ret (inr (-1)) else
    e <- gets (fun s => load64 (pm_mem s) pte);;
    if has e PTE_V then panic "remap" else
    modify (fun s => set_mem (store64 (pm_mem s) pte (Z.lor (Z.lor (PA2PTE pa) perm) PTE_V)) s);;
    if a =? last then ret (inr 0) else
    ret (inl (u64 (a + PGSIZE), u64 (pa + PGSIZE)))) (a, pa).

Definition kvmmap (kpgtbl va pa sz perm : Z) : K pm unit :=
  r <- mappages kpgtbl va sz pa perm;;
  if negb (r =? 0) then panic "kvmmap" else ret tt.

Definition uvmunmap (pagetable va npages : Z) (do_free : bool) : K pm unit :=
  if negb (va mod PGSIZE =? 0) then panic "uvmunmap: not aligned" else
  while_ budget (fun a =>
    if negb (a <? u64 (va + npages * PGSIZE)) then ret (inr tt) else
    pte <- walk pagetable a false;;
    if pte =? 0 then panic "uvmunmap: walk" else
    e <- gets (fun s => load64 (pm_mem s) pte);;
    if negb (has e PTE_V) then ret (inl (u64 (a + PGSIZE))) else
    if PTE_FLAGS e =? PTE_V then panic "uvmunmap: not a leaf" else
    (if do_free then kfree kend (PTE2PA e) else ret tt);;
    modify (fun s => set_mem (store64 (pm_mem s) pte 0) s);;
    ret (inl (u64 (a + PGSIZE)))) va.

Definition uvmcreate : K pm Z :=
  pagetable <- kalloc;;
  if pagetable =? 0 then ret 0 else
  modify (fun s => set_mem (memset (pm_mem s) pagetable 0 PGSIZE) s);;
  ret pagetable.

Definition uvminit (pagetable : Z) (src : list Z) (sz : Z) : K pm unit :=
  if PGSIZE <=? sz then panic "inituvm: more than a page" else
  mem <- kalloc;;
  modify (fun s => set_mem (memset (pm_mem s) mem 0 PGSIZE) s);;
  _ <- mappages pagetable 0 PGSIZE mem (Z.lor (Z.lor (Z.lor PTE_W PTE_R) PTE_X) PTE_U);;
  modify (fun s => set_mem (store_bytes (pm_mem s) mem (take (Z.to_nat sz) src)) s).

Definition uvmdealloc (pagetable oldsz newsz : Z) : K pm Z :=
  if oldsz <=? newsz then ret oldsz else
  (if PGROUNDUP newsz <? PGROUNDUP oldsz then
     let npages := s32 ((PGROUNDUP oldsz - PGROUNDUP newsz) / PGSIZE) in
     uvmunmap pagetable (PGROUNDUP newsz) (u64 npages) true
   else ret tt);;
  ret newsz.

Definition uvmalloc (pagetable oldsz newsz : Z) : K pm Z :=
  if newsz <? oldsz then ret oldsz else
  let oldsz := PGROUNDUP oldsz in
  while_ budget (fun a =>
    if negb (a <? newsz) then ret (inr newsz) else
    mem <- kalloc;;
    if mem =? 0 then uvmdealloc pagetable a oldsz;; ret (inr 0) else
    modify (fun s => set_mem (memset (pm_mem s) mem 0 PGSIZE) s);;
    r <- mappages pagetable a PGSIZE mem (Z.lor (Z.lor (Z.lor PTE_W PTE_X) PTE_R) PTE_U);;
    if negb (r =? 0) then
      kfree kend mem;; uvmdealloc pagetable a oldsz;; ret (inr 0)
    else ret (inl (u64 (a + PGSIZE)))) oldsz.

(** [freewalk] recurses once per level of the tree; [depth] bounds the
    recursion and a page table has depth 3. *)
Fixpoint freewalk (depth : nat) (pagetable : Z) : K pm unit :=
  match depth with
  | O => fun _ => Diverge
  | S depth =>
      _ <- for_each (seqZ 0 512) (fun i =>
        pte <- gets (fun s => load64 (pm_mem s) (pagetable + 8 * i));;
        if has pte PTE_V && negb (has pte (Z.lor (Z.lor PTE_R PTE_W) PTE_X)) then
          freewalk depth (PTE2PA pte);;
          modify (fun s => set_mem (store64 (pm_mem s) (pagetable + 8 * i) 0) s);;
          ret (@None unit)
        else if has pte PTE_V then panic "freewalk: leaf"
        else ret None);;
      kfree kend pagetable
  end.

Definition uvmfree (pagetable sz : Z) : K pm unit :=
  (if 0 <? sz then uvmunmap pagetable 0 (PGROUNDUP sz / PGSIZE) true else ret tt);;
  freewalk 3 pagetable.

Definition uvmcopy (old new sz : Z) : K pm Z :=
  let err i := uvmunmap new 0 (i / PGSIZE) true;; ret (inr (-1)) in
  while_ budget (fun i =>
    if negb (i <? sz) then ret (inr 0) else
    pte <- walk old i false;;
    if pte =? 0 then panic "uvmcopy: pte should exist" else
    e <- gets (fun s => load64 (pm_mem s) pte);;
    if negb (has e PTE_V) then ret (inl (u64 (i + PGSIZE))) else
    let pa := PTE2PA e in
    let flags := PTE_FLAGS e in
    mem <- kalloc;;
    if mem =? 0 then err i else
    modify (fun s => set_mem (memmove (pm_mem s) mem pa PGSIZE) s);;
    r <- mappages new i PGSIZE mem flags;;
    if negb (r =? 0) then kfree kend mem;; err i
    else ret (inl (u64 (i + PGSIZE)))) 0.

Definition uvmclear (pagetable va : Z) : K pm unit :=
  pte <- walk pagetable va false;;
  if pte =? 0 then panic "uvmclear" else
  modify (fun s => set_mem (store64 (pm_mem s) pte (Z.land (load64 (pm_mem s) pte) (Z.lnot PTE_U))) s).

(** [src] is the kernel buffer; each round copies what fits in one page. *)
Definition copyout (pagetable dstva : Z) (src : list Z) (len : Z) : K pm Z :=
  while_ budget (fun '(dstva, src, len) =>
    if negb (0 <? len) then ret (inr 0) else
    let va0 := PGROUNDDOWN dstva in
    pa0 <- walkaddr pagetable va0;;
    if pa0 =? 0 then ret (inr (-1)) else
    let n := PGSIZE - (dstva - va0) in
    let n := if len <? n then len else n in
    modify (fun s => set_mem (store_bytes (pm_mem s) (pa0 + (dstva - va0)) (take (Z.to_nat n) src)) s);;
    ret (inl (u64 (va0 + PGSIZE), drop (Z.to_nat n) src, len - n))) (dstva, src, len).

(** The result carries the bytes written to [dst] so far. *)
Definition copyin (pagetable srcva len : Z) : K pm (Z * list Z) :=
  while_ budget (fun '(srcva, len, dst) =>
    if negb (0 <? len) then ret (inr (0, dst)) else
    let va0 := PGROUNDDOWN srcva in
    pa0 <- walkaddr pagetable va0;;
    if pa0 =? 0 then ret (inr (-1, dst)) else
    let n := PGSIZE - (srcva - va0) in
    let n := if len <? n then len else n in
    bytes <- gets (fun s => load_bytes (pm_mem s) (pa0 + (srcva - va0)) (Z.to_nat n));;
    ret (inl (u64 (va0 + PGSIZE), len - n, dst ++ bytes))) (srcva, len, []).

(** The inner loop of [copyinstr]: [n] bytes from [p], up to and including a
    NUL; [true] when one was found. *)
Fixpoint copy_until_nul (m : gmap Z Z) (p : Z) (n : nat) : bool * list Z :=
  match n with
  | O => (false, [])
  | S n => if load8 m p =? 0 then (true, [0])
           else let (got, l) := copy_until_nul m (p + 1) n in (got, load8 m p :: l)
  end.

Definition copyinstr (pagetable srcva max : Z) : K pm (Z * list Z) :=
  while_ budget (fun '(srcva, max, dst) =>
    if negb (0 <? max) then ret (inr (-1, dst)) else
    let va0 := PGROUNDDOWN srcva in
    pa0 <- walkaddr pagetable va0;;
    if pa0 =? 0 then ret (inr (-1, dst)) else
    let n := PGSIZE - (srcva - va0) in
    let n := if max <? n then max else n in
    r <- gets (fun s => copy_until_nul (pm_mem s) (pa0 + (srcva - va0)) (Z.to_nat n));;
    let '(got_null, bytes) := r in
    if got_null : bool then ret (inr (0, dst ++ bytes)) else
    ret (inl (u64 (va0 + PGSIZE), max - n, dst ++ bytes))) (srcva, max, []).

(** ** The kernel page table

    [etext] and [trampoline] are addresses the linker chooses; [proc_mapstacks]
    (proc.c) maps one page per process slot below the trampoline. *)
Definition proc_mapstacks (kpgtbl : Z) : K pm unit :=
  _ <- for_each (seqZ 0 NPROC) (fun i =>
    pa <- kalloc;;
    if pa =? 0 then panic "kalloc" else
    kvmmap kpgtbl (KSTACK i) pa PGSIZE (Z.lor PTE_R PTE_W);;
    ret (@None unit));;
  ret tt.

Definition kvmmake (etext trampoline : Z) : K pm Z :=
  kpgtbl <- kalloc;;
  modify (fun s => set_mem (memset (pm_mem s) kpgtbl 0 PGSIZE) s);;
  kvmmap kpgtbl UART0 UART0 PGSIZE (Z.lor PTE_R PTE_W);;
  kvmmap kpgtbl VIRTIO0 VIRTIO0 PGSIZE (Z.lor PTE_R PTE_W);;
  kvmmap kpgtbl PLIC PLIC 0x400000 (Z.lor PTE_R PTE_W);;
  kvmmap kpgtbl KERNBASE KERNBASE (etext - KERNBASE) (Z.lor PTE_R PTE_X);;
  kvmmap kpgtbl etext etext (PHYSTOP - etext) (Z.lor PTE_R PTE_W);;
  kvmmap kpgtbl TRAMPOLINE trampoline PGSIZE (Z.lor PTE_R PTE_X);;
  proc_mapstacks kpgtbl;;
  ret kpgtbl.
End vm.

(** ** The tree a page table is *)

(** The page-table page that entry [i] of page [pg] points to. *)
Definition child (m : gmap Z Z) (pg i : Z) : option Z :=
  let e := load64 m (pg + 8 * i) in if has e PTE_V then Some (PTE2PA e) else None.

(** The page reached from [root] through the entries [path]. *)
Fixpoint node (m : gmap Z Z) (root : Z) (path : list Z) : option Z :=
  match path with
  | [] => Some root
  | i :: path => child m root i ≫= fun pg => node m pg path
  end.

(** The PTE for [va], 0 where there is no page-table page: the mapping a page
    table denotes. *)
Definition pte_at (m : gmap Z Z) (root va : Z) : Z :=
  match node m root [PX 2 va; PX 1 va] with
  | Some pg => load64 m (pg + 8 * PX 0 va)
  | None => 0
  end.

Definition idx_ok (i : Z) : Prop := 0 <= i < 512.
Definition path_ok (q : list Z) : Prop := (length q <= 2)%nat /\ Forall idx_ok q.

Lemma has_V e : has e PTE_V = Z.odd e.
Proof.
  unfold has, PTE_V. change (Z.shiftl 1 0) with (Z.ones 1). rewrite Z.land_ones by lia.
  change (2 ^ 1) with 2. rewrite Zmod_odd. by destruct (Z.odd e).
Qed.

Lemma has_flags e f : 0 <= f < 1024 -> has e f = has (PTE_FLAGS e) f.
Proof.
  intros Hf. unfold has, PTE_FLAGS. rewrite <- Z.land_assoc. f_equal. f_equal. f_equal.
  change 1023 with (Z.ones 10). by rewrite Z.land_comm, Z.land_ones, Z.mod_small by lia.
Qed.

Lemma node_snoc m root q j : node m root (q ++ [j]) = node m root q ≫= fun pg => child m pg j.
Proof.
  revert root. induction q as [|i q IH]; intros root; simpl; [by destruct (child m root j)|].
  by destruct (child m root i) as [pg|]; simpl.
Qed.

Lemma path_ok_snoc q j : path_ok (q ++ [j]) -> path_ok q /\ (length q <= 1)%nat /\ idx_ok j.
Proof.
  intros [Hl Hf]. rewrite length_app in Hl. simpl in Hl. apply Forall_app in Hf as [Hq Hj].
  apply Forall_cons_iff in Hj as [Hj _]. repeat split; try done; lia || apply Hj.
Qed.

Lemma path_ok_2 va : path_ok [PX 2 va; PX 1 va].
Proof. split; [simpl; lia|]. repeat constructor; apply PX_range; lia. Qed.

Section tables.
Context (kend : Z) (kend_range : 0 < kend <= PHYSTOP).
Notation valid_page := (valid_page kend).
Notation pm_ok := (pm_ok kend).

(** The page-table pages are distinct pages of RAM and none is on the free
    list [l]. *)
Record pt_wf (m : gmap Z Z) (root : Z) (l : list Z) : Prop := {
  wf_node : forall q pg, path_ok q -> node m root q = Some pg -> valid_page pg /\ pg ∉ l;
  wf_inj : forall q q' pg, path_ok q -> path_ok q' ->
    node m root q = Some pg -> node m root q' = Some pg -> q = q'
}.

Definition table_page (m : gmap Z Z) (root pg : Z) : Prop :=
  exists q, path_ok q /\ node m root q = Some pg.

Lemma slot_in_page pg i x : pg + 8 * i <= x < pg + 8 * i + 8 -> idx_ok i -> in_page pg x.
Proof. unfold idx_ok, in_page, PGSIZE. lia. Qed.

Lemma slots_apart pg pg' i j x : valid_page pg -> valid_page pg' -> idx_ok i -> idx_ok j ->
  (pg, i) <> (pg', j) -> pg + 8 * i <= x < pg + 8 * i + 8 -> ~ (pg' + 8 * j <= x < pg' + 8 * j + 8).
Proof.
  intros Hp Hp' Hi Hj Hne Hx Hx'. destruct (decide (pg = pg')) as [<-|Hd].
  - apply Hne. f_equal. lia.
  - eapply (pages_disjoint kend pg pg'); eauto using slot_in_page.
Qed.

Lemma child_same m m' pg i :
  (forall x, pg + 8 * i <= x < pg + 8 * i + 8 -> load8 m' x = load8 m x) ->
  child m' pg i = child m pg i.
Proof. intros H. unfold child. by rewrite (load64_ext m' m). Qed.

(** Writes outside the page-table pages do not change the tree. *)
Lemma node_frame m m' root q : path_ok q ->
  (forall pg x, table_page m root pg -> in_page pg x -> load8 m' x = load8 m x) ->
  node m' root q = node m root q.
Proof.
  intros Hq Hsame. induction q as [|j q IH] using rev_ind; [done|].
  apply path_ok_snoc in Hq as (Hq & _ & Hj). rewrite !node_snoc, IH by done.
  destruct (node m root q) as [pg|] eqn:E; [|done]. simpl. apply child_same.
  intros x Hx. apply (Hsame pg); [by exists q|by eapply slot_in_page].
Qed.

Lemma pte_at_frame m m' root va :
  (forall pg x, table_page m root pg -> in_page pg x -> load8 m' x = load8 m x) ->
  pte_at m' root va = pte_at m root va.
Proof.
  intros Hsame. unfold pte_at. rewrite (node_frame m m') by (done || apply path_ok_2).
  destruct (node m root _) as [pg|] eqn:E; [|done]. apply load64_ext. intros x Hx.
  apply (Hsame pg); [eexists; split; [apply path_ok_2|done]|].
  eapply slot_in_page; [done|apply (PX_range 0); lia].
Qed.

Lemma pt_wf_frame m m' root l l' : pt_wf m root l -> (forall p, p ∈ l' -> p ∈ l) ->
  (forall pg x, table_page m root pg -> in_page pg x -> load8 m' x = load8 m x) ->
  pt_wf m' root l'.
Proof.
  intros [Hn Hi] Hl Hsame. split.
  - intros q pg Hq E. rewrite (node_frame m m') in E by done. destruct (Hn q pg Hq E). auto.
  - intros q q' pg Hq Hq' E E'. rewrite (node_frame m m') in E, E' by done. by eapply Hi.
Qed.

(** *** What an operation on the page table at [root] may do to the rest

    It takes page-table pages from the head of the free list, changes memory
    only in free pages and in page-table pages of [root], and leaves the tree it
    found in place. *)
Record evolves (root : Z) (s : pm) (l : list Z) (s' : pm) (l' : list Z) : Prop := {
  ev_ok : pm_ok s' l';
  ev_wf : pt_wf (pm_mem s') root l';
  ev_free : l' `suffix_of` l;
  ev_node : forall q pg, path_ok q -> node (pm_mem s) root q = Some pg ->
              node (pm_mem s') root q = Some pg;
  ev_table : forall pg, table_page (pm_mem s') root pg -> table_page (pm_mem s) root pg \/ pg ∈ l;
  ev_frame : forall x, (forall p, p ∈ l -> ~ in_page p x) ->
               (forall pg, table_page (pm_mem s) root pg -> ~ in_page pg x) ->
               load8 (pm_mem s') x = load8 (pm_mem s) x;
  ev_hart : same_hart (pm_hart s') (pm_hart s);
  ev_lock : pm_lock s' = pm_lock s
}.

Lemma evolves_refl root s l : pm_ok s l -> pt_wf (pm_mem s) root l -> evolves root s l s l.
Proof. intros. split; try done. intros. by left. Qed.

Lemma evolves_trans root s l s1 l1 s2 l2 :
  evolves root s l s1 l1 -> evolves root s1 l1 s2 l2 -> evolves root s l s2 l2.
Proof.
  intros [Ho1 Hw1 Hf1 Hn1 Ht1 Hm1 Hh1 Hl1] [Ho2 Hw2 Hf2 Hn2 Ht2 Hm2 Hh2 Hl2].
  assert (forall p, p ∈ l1 -> p ∈ l) as Hsub.
  { destruct Hf1 as [u ->]. intros. apply elem_of_app. by right. }
  split; try done.
  - by transitivity l1.
  - auto.
  - intros pg H. apply Ht2 in H as [H|H]; auto.
  - intros x Hx Ht. rewrite Hm2.
    + by apply Hm1.
    + auto.
    + intros pg H. apply Ht1 in H as [H|H]; auto.
  - by etransitivity.
  - by etransitivity.
Qed.

(** An unused page is not in the tree. *)
Lemma free_not_table m root l p : pt_wf m root l -> p ∈ l -> ~ table_page m root p.
Proof. intros Hwf Hp (q & Hq & E). by destruct (wf_node _ _ _ Hwf q p Hq E). Qed.

(** *** Adding a page-table page: what the allocating branch of [walk] does *)
Record added (m m' : gmap Z Z) (pg i p : Z) : Prop := {
  ad_zero : forall x, in_page p x -> load8 m' x = 0;
  ad_slot : load64 m' (pg + 8 * i) = Z.lor (PA2PTE p) PTE_V;
  ad_rest : forall x, ~ in_page p x -> ~ (pg + 8 * i <= x < pg + 8 * i + 8) -> load8 m' x = load8 m x
}.

Section add_node.
Context (m m' : gmap Z Z) (root : Z) (l : list Z) (q : list Z) (pg i p : Z).
Context (Hwf : pt_wf m root l) (Hq : path_ok (q ++ [i])) (Hpg : node m root q = Some pg).
Context (Hnone : child m pg i = None) (Hp : valid_page p) (Hfresh : ~ table_page m root p).
Context (Hadd : added m m' pg i p).

Lemma add_node_child_new j : idx_ok j -> child m' p j = None.
Proof.
  intros Hj. unfold child. rewrite load64_zero; [done|].
  intros x Hx. apply Hadd. by eapply slot_in_page.
Qed.

Lemma add_node_slot : child m' pg i = Some p.
Proof.
  unfold child. rewrite (ad_slot _ _ _ _ _ Hadd). apply valid_page_pos in Hp as Hpos; [|done].
  change PTE_V with 1. rewrite PTE2PA_build by (apply Hp || lia).
  change 1 with PTE_V at 2. rewrite has_V, PTE_build by lia.
  by rewrite Z.odd_add, Z.odd_mul, andb_false_r.
Qed.

Lemma add_node_other q' pg' j x : path_ok q' -> idx_ok j -> node m root q' = Some pg' ->
  q' ++ [j] <> q ++ [i] -> pg' + 8 * j <= x < pg' + 8 * j + 8 -> load8 m' x = load8 m x.
Proof.
  intros Hq' Hj E Hne Hx. destruct (path_ok_snoc _ _ Hq) as (Hq0 & _ & Hi).
  destruct (wf_node _ _ _ Hwf q' pg' Hq' E) as [Hv' _].
  destruct (wf_node _ _ _ Hwf q pg Hq0 Hpg) as [Hv _].
  apply Hadd.
  - eapply (pages_disjoint kend pg' p); [done|done| |by eapply slot_in_page].
    intros ->. apply Hfresh. by exists q'.
  - apply (slots_apart pg' pg j i x); [done..| |done]. intros [= -> ->]. apply Hne. f_equal.
    by eapply (wf_inj _ _ _ Hwf).
Qed.

Lemma node_add q' : path_ok q' ->
  node m' root q' = if decide (q' = q ++ [i]) then Some p else node m root q'.
Proof.
  intros Hq'. destruct (path_ok_snoc _ _ Hq) as (Hq0 & Hlen & Hi).
  induction q' as [|j q' IH] using rev_ind.
  - case_decide as E; [by destruct q|done].
  - pose proof Hq' as Hqj. apply path_ok_snoc in Hq' as (Hq' & Hlen' & Hj).
    rewrite !node_snoc, IH by done. case_decide as E1.
    + rewrite E1, node_snoc, Hpg. simpl. rewrite Hnone. simpl. rewrite add_node_child_new by done.
      case_decide as E2; [|done]. apply (f_equal length) in E2. rewrite !length_app in E2. simpl in E2. lia.
    + destruct (node m root q') as [pg'|] eqn:E.
      * simpl. case_decide as E2.
        -- apply app_inj_tail in E2 as [-> ->]. rewrite Hpg in E. injection E as <-. apply add_node_slot.
        -- apply child_same. intros x Hx. by apply (add_node_other q' pg' j).
      * simpl. case_decide as E2; [|done]. apply app_inj_tail in E2 as [-> ->]. by rewrite Hpg in E.
Qed.

Lemma pt_wf_add l' : p ∉ l' -> (forall r, r ∈ l' -> r ∈ l) -> pt_wf m' root l'.
Proof.
  intros Hpl Hl. split.
  - intros q' pg' Hq' E. rewrite node_add in E by done. case_decide.
    + injection E as <-. done.
    + destruct (wf_node _ _ _ Hwf q' pg' Hq' E). auto.
  - intros q1 q2 pg' H1 H2 E1 E2. rewrite node_add in E1, E2 by done. repeat case_decide; simplify_eq/=.
    + done.
    + destruct Hfresh. by exists q1.
    + destruct Hfresh. by exists q2.
    + by eapply (wf_inj _ _ _ Hwf).
Qed.

Lemma pte_at_add va : pte_at m' root va = pte_at m root va.
Proof.
  unfold pte_at. rewrite node_add by apply path_ok_2. destruct (path_ok_snoc _ _ Hq) as (Hq0 & Hlen & Hi).
  case_decide as E.
  - rewrite E, node_snoc, Hpg. simpl. rewrite Hnone. apply load64_zero. intros x Hx. apply Hadd.
    eapply slot_in_page; [done|apply (PX_range 0); lia].
  - destruct (node m root [PX 2 va; PX 1 va]) as [pg'|] eqn:E'; [|done]. apply load64_ext. intros x Hx.
    eapply add_node_other; [apply path_ok_2|apply (PX_range 0); lia|done| |done].
    intros E2. apply (f_equal length) in E2. rewrite !length_app in E2. simpl in E2. lia.
Qed.

Lemma evolves_add s s' l' : pm_mem s = m -> pm_mem s' = m' -> l = p :: l' -> p ∉ l' ->
  pm_ok s' l' -> same_hart (pm_hart s') (pm_hart s) -> pm_lock s' = pm_lock s ->
  evolves root s l s' l'.
Proof.
  intros Hm Hm' Hl Hpl Hok Hh Hk. destruct (path_ok_snoc _ _ Hq) as (Hq0 & _ & Hi).
  split; rewrite ?Hm, ?Hm'; try done.
  - apply pt_wf_add; [done|]. rewrite Hl. intros. by constructor.
  - rewrite Hl. by exists [p].
  - intros q' pg' Hq' E. rewrite node_add by done. case_decide; [|done]. subst q'.
    rewrite node_snoc, Hpg in E. simpl in E. by rewrite Hnone in E.
  - intros pg' (q' & Hq' & E). rewrite node_add in E by done. case_decide.
    + injection E as <-. right. rewrite Hl. constructor.
    + left. by exists q'.
  - intros x Hx Ht. apply Hadd; [apply Hx; rewrite Hl; constructor|].
    intros Hx'. apply (Ht pg); [by exists q|by eapply slot_in_page].
Qed.
End add_node.

(** The stores of the allocating branch, after [kalloc] took page [p]. *)
Lemma added_store m m1 pg i p : valid_page pg -> valid_page p -> pg <> p -> idx_ok i ->
  same_outside p m m1 ->
  added m (store64 (memset m1 p 0 PGSIZE) (pg + 8 * i) (Z.lor (PA2PTE p) PTE_V)) pg i p.
Proof.
  intros Hpg Hp Hne Hi [Hout]. pose proof (valid_page_pos kend kend_range p Hp) as Hpos. split.
  - intros x Hx. rewrite load8_store64_out.
    + rewrite load8_memset by (unfold PGSIZE; lia). case_decide; [done|]. unfold in_page in *. lia.
    + intros Hx'. eapply (pages_disjoint kend pg p); [done|done|done| |done]. by eapply slot_in_page.
  - apply load64_store64_same. pose proof (PTE_build_range p PTE_V). change PTE_V with 1 in *. lia.
  - intros x Hx Hx'. rewrite load8_store64_out by done.
    rewrite load8_memset by (unfold PGSIZE; lia). case_decide; [unfold in_page in *; lia|]. by apply Hout.
Qed.

(** Writes into pages that are not on the free list keep the allocator's
    invariant. *)
Lemma pm_ok_write s l m' (pgs : list Z) : pm_ok s l -> mem_ok m' ->
  (forall pg, pg ∈ pgs -> valid_page pg /\ pg ∉ l) ->
  (forall x, (forall pg, pg ∈ pgs -> ~ in_page pg x) -> load8 m' x = load8 (pm_mem s) x) ->
  pm_ok (set_mem m' s) l.
Proof.
  intros Hok Hm Hpgs Hsame. apply pm_ok_set_mem; [done|done|]. intros r x Hr Hx.
  apply Hsame. intros pg Hpg Hx'. destruct (Hpgs pg Hpg) as [Hv Hl].
  pose proof (ok_valid _ _ _ Hok) as Hval. rewrite Forall_forall in Hval.
  eapply (pages_disjoint kend pg r); eauto. by intros ->.
Qed.

Lemma grow_run s p l root q pg i s1 :
  pm_ok s (p :: l) -> pt_wf (pm_mem s) root (p :: l) -> path_ok (q ++ [i]) ->
  node (pm_mem s) root q = Some pg -> child (pm_mem s) pg i = None ->
  pm_ok s1 l -> same_outside p (pm_mem s) (pm_mem s1) ->
  same_hart (pm_hart s1) (pm_hart s) -> pm_lock s1 = pm_lock s ->
  let s2 := set_mem (store64 (memset (pm_mem s1) p 0 PGSIZE) (pg + 8 * i) (Z.lor (PA2PTE p) PTE_V)) s1 in
  evolves root s (p :: l) s2 l /\ (forall va, pte_at (pm_mem s2) root va = pte_at (pm_mem s) root va) /\
  node (pm_mem s2) root (q ++ [i]) = Some p.
Proof.
  intros Hok Hwf Hq Hpg Hnone Hok1 Hout Hh Hl.
  pose proof (ok_valid _ _ _ Hok) as Hv. pose proof (ok_nodup _ _ _ Hok) as Hnd.
  apply Forall_cons_iff in Hv as [Hp Hv]. apply NoDup_cons in Hnd as [Hpl Hnd].
  destruct (path_ok_snoc _ _ Hq) as (Hq0 & _ & Hi).
  destruct (wf_node _ _ _ Hwf q pg Hq0 Hpg) as [Hvpg Hpgl]. apply not_elem_of_cons in Hpgl as [Hne Hpgl].
  assert (~ table_page (pm_mem s) root p) as Hfresh by (eapply free_not_table; [done|constructor]).
  pose proof (added_store _ _ pg i p Hvpg Hp Hne Hi Hout) as Hadd.
  set (m2 := store64 _ _ _) in *.
  assert (pm_ok (set_mem m2 s1) l) as Hok2.
  { apply (pm_ok_write _ _ _ [p; pg]); [done| | |].
    - apply mem_ok_store64, mem_ok_memset. apply Hok1.
    - intros r Hr. rewrite elem_of_cons, list_elem_of_singleton in Hr. by destruct Hr as [->| ->].
    - intros x Hx. destruct Hout as [Hout]. assert (~ in_page p x) by (apply Hx; constructor).
      rewrite Hout by done. apply Hadd; [done|]. intros Hx'.
      apply (Hx pg); [by do 2 constructor|by eapply slot_in_page]. }
  clearbody m2. split_and!.
  - by apply (evolves_add (pm_mem s) m2 root (p :: l) q pg i p).
  - intros va. by apply (pte_at_add (pm_mem s) m2 root (p :: l) q pg i p).
  - simpl. rewrite (node_add (pm_mem s) m2 root (p :: l) q pg i p) by done. by case_decide.
Qed.

(** *** walk *)
Lemma walk_levels_lookup levels pg va s :
  walk_levels levels pg va false s = Done (node (pm_mem s) pg ((fun lv => PX lv va) <$> levels)) s.
Proof.
  revert pg. induction levels as [|lv levels IH]; intros pg; [done|]. simpl.
  unfold bind, gets, child. simpl. destruct (has _ _); [|done]. apply IH.
Qed.

(** The address of the PTE for [va], 0 where there is none. *)
Definition slot (m : gmap Z Z) (root va : Z) : Z :=
  match node m root [PX 2 va; PX 1 va] with
  | Some pg => pg + 8 * PX 0 va
  | None => 0
  end.

Lemma walk_lookup root va s : va < MAXVA ->
  walk root va false s = Done (slot (pm_mem s) root va) s.
Proof.
  intros Hva. unfold walk, slot. destruct (Z.leb_spec MAXVA va); [lia|].
  erewrite bind_Done by apply walk_levels_lookup. simpl fmap. by destruct (node _ _ _).
Qed.

Lemma slot_zero m root l va : pt_wf m root l -> slot m root va = 0 <-> node m root [PX 2 va; PX 1 va] = None.
Proof.
  intros Hwf. unfold slot. destruct (node _ _ _) as [pg|] eqn:E; [|done]. split; [|done].
  destruct (wf_node _ _ _ Hwf _ _ (path_ok_2 va) E) as [Hv _]. apply valid_page_pos in Hv; [|done].
  pose proof (PX_range 0 va). lia.
Qed.

Lemma walk_levels_alloc levels root va : forall s l q pg,
  pm_ok s l -> pt_wf (pm_mem s) root l -> path_ok (q ++ ((fun lv => PX lv va) <$> levels)) ->
  node (pm_mem s) root q = Some pg ->
  wp (walk_levels levels pg va true s) (fun r s' => exists l', evolves root s l s' l' /\
    (forall va', pte_at (pm_mem s') root va' = pte_at (pm_mem s) root va') /\
    match r with
    | Some pg' => node (pm_mem s') root (q ++ ((fun lv => PX lv va) <$> levels)) = Some pg' /\
                  (length l <= length l' + length levels)%nat
    | None => l' = [] /\ (length l < length levels)%nat
    end).
Proof.
  induction levels as [|lv levels IH]; intros s l q pg Hok Hwf Hq Hpg; cbn [walk_levels].
  { apply wp_ret. exists l. split_and!; [by apply evolves_refl|done|by rewrite app_nil_r|lia]. }
  cbn [fmap list_fmap] in *. rewrite cons_middle, app_assoc in *.
  assert (path_ok (q ++ [PX lv va])) as Hq1.
  { destruct Hq as [Hlen Hf]. rewrite length_app in Hlen. apply Forall_app in Hf as [Hf _]. split; [lia|done]. }
  ksteps. destruct (has (load64 (pm_mem s) (pg + 8 * PX lv va)) PTE_V) eqn:E.
  - eapply wp_mono; [|eapply (IH s l (q ++ [PX lv va])); [done|done|done|]].
    + intros r s' (l' & Hev & Hpte & Hr). exists l'. split_and!; [done|done|].
      destruct r; simpl; destruct Hr; (split; [done|lia]).
    + rewrite node_snoc, Hpg. simpl. unfold child. by rewrite E.
  - assert (child (pm_mem s) pg (PX lv va) = None) as Hnone by (unfold child; by rewrite E).
    cbn [negb]. kstep. kcall (kalloc_ok kend kend_range).
    intros r s1 (Hh & Hlk & Hr). assert (same_hart (pm_hart s1) (pm_hart s)) as Hsh.
    { rewrite Hh. apply same_hart_touched. }
    destruct l as [|p l].
    + destruct Hr as (-> & Hok1 & Hmem). simpl. exists []. split_and!; [|by rewrite Hmem|done|lia].
      split; rewrite ?Hmem; try done. intros. by left.
    + destruct Hr as (-> & Hok1 & Hout & _).
      assert ((p =? 0) = false) as ->.
      { pose proof (ok_valid _ _ _ Hok) as Hv. apply Forall_cons_iff in Hv as [Hp _].
        apply valid_page_pos in Hp; [|done]. lia. }
      ksteps. rewrite set_mem_twice. cbn [set_mem pm_mem].
      edestruct (grow_run s p l root q pg (PX lv va) s1) as (Hev & Hpte & Hnode); try done.
      set (s2 := set_mem (store64 _ _ _) s1) in *. clearbody s2.
      eapply wp_mono; [|apply (IH s2 l (q ++ [PX lv va])); [apply Hev|apply Hev|done|done]].
      intros r s3 (l' & Hev' & Hpte' & Hr). exists l'. split_and!.
      * by eapply evolves_trans.
      * intros va'. by rewrite Hpte', Hpte.
      * destruct r; simpl; destruct Hr; (split; [done|lia]).
Qed.

Lemma walk_alloc root va s l : pm_ok s l -> pt_wf (pm_mem s) root l -> va < MAXVA ->
  wp (walk root va true s) (fun r s' => exists l', evolves root s l s' l' /\
    (forall va', pte_at (pm_mem s') root va' = pte_at (pm_mem s) root va') /\
    if r =? 0 then l' = [] /\ (length l < 2)%nat
    else r = slot (pm_mem s') root va /\ (length l <= length l' + 2)%nat).
Proof.
  intros Hok Hwf Hva. unfold walk. destruct (Z.leb_spec MAXVA va); [lia|]. kstep.
  eapply wp_mono; [|apply (walk_levels_alloc [2; 1] root va s l [] root); [done|done|apply path_ok_2|done]].
  cbn [fmap list_fmap app]. intros [pg|] s' (l' & Hev & Hpte & Hr); kstep; exists l'; (split_and!; [done|done|]); [|done].
  destruct Hr as [Hnode Hlen]. assert (pg + 8 * PX 0 va = slot (pm_mem s') root va) as ->.
  { unfold slot. by rewrite Hnode. }
  destruct (Z.eqb_spec (slot (pm_mem s') root va) 0) as [E|]; [|done].
  apply (slot_zero _ _ _ _ (ev_wf _ _ _ _ _ Hev)) in E. congruence.
Qed.

(** *** Writing a leaf entry *)
Section write_pte.
Context (s : pm) (root va v : Z) (l : list Z) (m' := store64 (pm_mem s) (slot (pm_mem s) root va) v).
Context (Hok : pm_ok s l) (Hwf : pt_wf (pm_mem s) root l).
Context (Hslot : slot (pm_mem s) root va <> 0) (Hv : 0 <= v < 2 ^ 64).

Lemma write_pte_page : exists pg, node (pm_mem s) root [PX 2 va; PX 1 va] = Some pg /\
  slot (pm_mem s) root va = pg + 8 * PX 0 va /\ valid_page pg /\ pg ∉ l.
Proof.
  unfold slot in *. destruct (node _ _ _) as [pg|] eqn:E; [|done]. exists pg.
  destruct (wf_node _ _ _ Hwf _ _ (path_ok_2 va) E). auto.
Qed.

Lemma write_pte_other q pg j x : path_ok q -> idx_ok j -> node (pm_mem s) root q = Some pg ->
  q <> [PX 2 va; PX 1 va] \/ j <> PX 0 va ->
  pg + 8 * j <= x < pg + 8 * j + 8 -> load8 m' x = load8 (pm_mem s) x.
Proof.
  intros Hq Hj E Hne Hx. destruct write_pte_page as (pg0 & E0 & Es & Hv0 & _).
  destruct (wf_node _ _ _ Hwf q pg Hq E) as [Hvp _].
  unfold m'. rewrite Es. apply load8_store64_out.
  apply (slots_apart pg pg0 j (PX 0 va) x); [done|done|done|apply (PX_range 0); lia| |done].
  intros [= -> ->]. destruct Hne as [Hne|Hne]; [|done]. apply Hne.
  eapply (wf_inj _ _ _ Hwf); [done|apply path_ok_2|done|done].
Qed.

Lemma write_pte_node q : path_ok q -> node m' root q = node (pm_mem s) root q.
Proof.
  intros Hq. induction q as [|j q IH] using rev_ind; [done|].
  apply path_ok_snoc in Hq as (Hq & Hlen & Hj). rewrite !node_snoc, IH by done.
  destruct (node (pm_mem s) root q) as [pg|] eqn:E; [|done]. simpl. apply child_same.
  intros x Hx. apply (write_pte_other q pg j); try done. left. intros ->. simpl in Hlen. lia.
Qed.

Lemma write_pte_at va' : va mod PGSIZE = 0 -> va' mod PGSIZE = 0 -> 0 <= va < MAXVA -> 0 <= va' < MAXVA ->
  pte_at m' root va' = if decide (va' = va) then v else pte_at (pm_mem s) root va'.
Proof.
  intros Ha Ha' Hr Hr'. unfold pte_at. rewrite write_pte_node by apply path_ok_2. case_decide as Hd.
  - subst va'. destruct write_pte_page as (pg0 & E0 & Es & _). rewrite E0. unfold m'. rewrite Es.
    by apply load64_store64_same.
  - destruct (node (pm_mem s) root [PX 2 va'; PX 1 va']) as [pg|] eqn:E; [|done].
    apply load64_ext. intros x Hx.
    apply (write_pte_other _ pg (PX 0 va') x (path_ok_2 va')); [apply (PX_range 0); lia|done| |done].
    destruct (decide (PX 0 va' = PX 0 va)) as [E0|]; [left|by right].
    intros [= E2 E1]. by apply Hd, PX_inj.
Qed.

Lemma write_pte_evolves : evolves root s l (set_mem m' s) l.
Proof.
  destruct write_pte_page as (pg0 & E0 & Es & Hv0 & Hl0).
  assert (forall x, ~ in_page pg0 x -> load8 m' x = load8 (pm_mem s) x) as Hout.
  { intros x Hx. unfold m'. rewrite Es. apply load8_store64_out. intros Hx'. apply Hx.
    eapply slot_in_page; [done|apply (PX_range 0); lia]. }
  split; cbn [set_mem pm_mem]; try done.
  - apply (pm_ok_write _ _ _ [pg0]); [done|apply mem_ok_store64, Hok| |].
    + intros pg Hpg. apply list_elem_of_singleton in Hpg as ->. done.
    + intros x Hx. apply Hout, Hx. constructor.
  - split.
    + intros q pg Hq. rewrite write_pte_node by done. by apply (wf_node _ _ _ Hwf).
    + intros q q' pg Hq Hq'. rewrite !write_pte_node by done. by apply (wf_inj _ _ _ Hwf).
  - intros q pg Hq. by rewrite write_pte_node.
  - intros pg (q & Hq & E). rewrite write_pte_node in E by done. left. by exists q.
  - intros x _ Ht. apply Hout, Ht. eexists. split; [apply path_ok_2|done].
Qed.
End write_pte.

(** *** mappages *)
Definition pte_of (pa perm : Z) : Z := Z.lor (Z.lor (PA2PTE pa) perm) PTE_V.

(** The mapping [f] with the [n] pages from [a] mapped to the pages from [pa]. *)
Definition remap (f : Z -> Z) (a n pa perm : Z) (va : Z) : Z :=
  if (a <=? va) && (va <? a + n * PGSIZE) then pte_of (pa + (va - a)) perm else f va.

Lemma lor_flags perm : 0 <= perm < 1024 -> 0 <= Z.lor perm PTE_V < 1024.
Proof.
  intros H. split; [apply Z.lor_nonneg; change PTE_V with 1; lia|].
  destruct (Z.eq_dec (Z.lor perm PTE_V) 0) as [->|]; [lia|].
  assert (0 <= Z.lor perm PTE_V) by (apply Z.lor_nonneg; change PTE_V with 1; lia).
  apply (Z.log2_lt_pow2 _ 10); [lia|]. rewrite Z.log2_lor by (change PTE_V with 1; lia).
  change (Z.log2 PTE_V) with 0. destruct (decide (perm = 0)) as [->|]; [simpl; lia|].
  assert (Z.log2 perm < 10) by (apply Z.log2_lt_pow2; lia). pose proof (Z.log2_nonneg perm). lia.
Qed.

Lemma pte_of_range pa perm : 0 <= pa < 2 ^ 56 -> 0 <= perm < 1024 -> 0 <= pte_of pa perm < 2 ^ 64.
Proof.
  intros. unfold pte_of. rewrite <- Z.lor_assoc.
  pose proof (PTE_build_range pa (Z.lor perm PTE_V)). pose proof (lor_flags perm). lia.
Qed.

Definition page_count (va size : Z) : Z := (PGROUNDDOWN (va + size - 1) - PGROUNDDOWN va) / PGSIZE + 1.

Lemma page_count_last va size : 0 <= va -> 0 < size ->
  PGROUNDDOWN (va + size - 1) = PGROUNDDOWN va + (page_count va size - 1) * PGSIZE /\
  1 <= page_count va size /\ (PGROUNDDOWN va) mod PGSIZE = 0 /\ 0 <= PGROUNDDOWN va /\
  PGROUNDDOWN va + (page_count va size - 1) * PGSIZE < va + size.
Proof.
  intros. unfold page_count. rewrite !PGROUNDDOWN_spec. unfold PGSIZE in *. Z.div_mod_to_equations. lia.
Qed.

Lemma remap_snoc f a k pa perm va : a mod PGSIZE = 0 -> va mod PGSIZE = 0 -> 0 <= k ->
  remap f a (k + 1) pa perm va =
  if decide (va = a + k * PGSIZE) then pte_of (pa + k * PGSIZE) perm else remap f a k pa perm va.
Proof.
  intros Ha Hva Hk. unfold remap. case_decide as E.
  - subst va. assert (((a <=? a + k * PGSIZE) && (a + k * PGSIZE <? a + (k + 1) * PGSIZE)) = true) as ->
      by (unfold PGSIZE; lia). f_equal. lia.
  - replace (va <? a + (k + 1) * PGSIZE) with (va <? a + k * PGSIZE); [done|].
    unfold PGSIZE in *. apply eq_true_iff_eq. rewrite !Z.ltb_lt. Z.div_mod_to_equations. lia.
Qed.

Definition aligned_va (va : Z) : Prop := va mod PGSIZE = 0 /\ 0 <= va < MAXVA.

Lemma load_slot m root va : slot m root va <> 0 -> load64 m (slot m root va) = pte_at m root va.
Proof. unfold slot, pte_at. by destruct (node _ _ _). Qed.

(** One round of the loop of [mappages]. *)
Lemma map_one {X} root a v s l (k : K pm (X + Z)) Q :
  pm_ok s l -> pt_wf (pm_mem s) root l -> aligned_va a ->
  has (pte_at (pm_mem s) root a) PTE_V = false -> 0 <= v < 2 ^ 64 ->
  (forall s', evolves root s l s' [] -> (length l < 2)%nat ->
     (forall va', pte_at (pm_mem s') root va' = pte_at (pm_mem s) root va') -> Q (inr (-1)) s') ->
  (forall s' l', evolves root s l s' l' -> (length l <= length l' + 2)%nat ->
     (forall va', aligned_va va' -> pte_at (pm_mem s') root va' =
        if decide (va' = a) then v else pte_at (pm_mem s) root va') -> wp (k s') Q) ->
  wp ((pte <- walk root a true;;
       if pte =? 0 then ret (inr (-1)) else
       e <- gets (fun s => load64 (pm_mem s) pte);;
       if has e PTE_V then panic "remap" else
       modify (fun s => set_mem (store64 (pm_mem s) pte v) s);; k) s) Q.
Proof.
  intros Hok Hwf [Ha Har] Hnone Hv Hfail Hsucc.
  kstep. eapply wp_mono; [|apply (walk_alloc root a s l); [done|done|lia]].
  intros r s2 (l2 & Hev & Hpte & Hr). destruct (Z.eqb_spec r 0) as [->|Hr0].
  - kstep. destruct Hr as [-> Hlen]. by apply Hfail.
  - destruct Hr as [-> Hlen]. do 2 kstep. rewrite load_slot, Hpte, Hnone by done. do 2 kstep.
    apply (Hsucc _ l2); [|done|].
    + eapply evolves_trans; [done|]. apply write_pte_evolves; [apply Hev|apply Hev|done].
    + intros va' [Ha' Har']. cbn [set_mem pm_mem].
      rewrite (write_pte_at s2 root a v l2) by (done || apply Hev). case_decide; [done|apply Hpte].
Qed.

Lemma mappages_ok s l root va size pa perm (a0 := PGROUNDDOWN va) (n := page_count va size) :
  pm_ok s l -> pt_wf (pm_mem s) root l ->
  0 <= va -> 0 < size -> va + size <= MAXVA -> 0 <= pa -> pa + n * PGSIZE <= 2 ^ 56 -> 0 <= perm < 1024 ->
  (forall va', aligned_va va' -> a0 <= va' < a0 + n * PGSIZE -> has (pte_at (pm_mem s) root va') PTE_V = false) ->
  wp (mappages root va size pa perm s) (fun r s' => exists l' k, evolves root s l s' l' /\ 0 <= k <= n /\
    (forall va', aligned_va va' -> pte_at (pm_mem s') root va' = remap (pte_at (pm_mem s) root) a0 k pa perm va') /\
    (r = 0 /\ k = n /\ Z.of_nat (length l) <= Z.of_nat (length l') + 2 * n \/
     r = -1 /\ k < n /\ l' = [] /\ Z.of_nat (length l) < 2 * n)).
Proof.
  intros Hok Hwf Hva Hsize Hmax Hpa Hpan Hperm Hfree.
  destruct (page_count_last va size) as (Hlast & Hn & Ha & Ha0 & Hn1); [done..|].
  fold a0 n in Hlast, Hn, Ha, Ha0, Hn1. change MAXVA with (2 ^ 38) in *.
  unfold mappages. fold a0. rewrite u64_id by lia. rewrite Hlast.
  apply (wp_while _ (fun x s1 => exists k l1, 0 <= k < n /\ x = (a0 + k * PGSIZE, pa + k * PGSIZE) /\
      evolves root s l s1 l1 /\ Z.of_nat (length l) <= Z.of_nat (length l1) + 2 * k /\ forall va', aligned_va va' ->
        pte_at (pm_mem s1) root va' = remap (pte_at (pm_mem s) root) a0 k pa perm va')
    (fun x => Z.max 0 (2 ^ 38 - x.1))).
  - intros x s1 (k & l1 & Hk & -> & Hev & Hlen & Hpte). unfold PGSIZE in Hn1, Hpan.
    set (a := a0 + k * PGSIZE). assert (aligned_va a) as Hal.
    { unfold aligned_va, a, PGSIZE in *. change MAXVA with (2 ^ 38). split; [Z.div_mod_to_equations|]; lia. }
    pose proof (pte_of_range (pa + k * PGSIZE) perm) as Hrange.
    apply (map_one _ _ _ _ l1); [apply Hev|apply Hev|done| |apply Hrange; unfold PGSIZE; lia|..].
    + rewrite Hpte by done. unfold remap. destruct (Z.ltb_spec a (a0 + k * PGSIZE)); [lia|].
      rewrite andb_false_r. apply Hfree; [done|]. unfold a, PGSIZE. lia.
    + intros s2 Hev2 Hlen2 Hpte2. exists [], k. split_and!; [by eapply evolves_trans|lia|lia| |right; split_and!; [done|lia|done|lia]].
      intros va' Hva'. by rewrite Hpte2, Hpte.
    + intros s2 l2 Hev2 Hlen2 Hpte2. assert (evolves root s l s2 l2) by by eapply evolves_trans.
      assert (forall va', aligned_va va' -> pte_at (pm_mem s2) root va' =
        remap (pte_at (pm_mem s) root) a0 (k + 1) pa perm va') as Hpte3.
      { intros va' Hva'. rewrite Hpte2, remap_snoc by (done || apply Hva' || lia). by rewrite Hpte. }
      destruct (Z.eqb_spec a (a0 + (n - 1) * PGSIZE)) as [E|E]; kstep.
      * assert (k + 1 = n) as E' by (unfold a, PGSIZE in E; lia). rewrite E' in Hpte3.
        exists l2, n. split_and!; [done|lia|lia|done|left; split_and!; [done|done|lia]].
      * assert (k <> n - 1) by (intros ->; done). destruct Hal as [_ Hal]. change MAXVA with (2 ^ 38) in Hal.
        rewrite !u64_id by (unfold PGSIZE; lia). split; [|simpl; unfold PGSIZE; lia].
        exists (k + 1), l2. split_and!; [lia|lia|unfold a; f_equal; lia|done|lia|done].
  - intros x s1 _. lia.
  - exists 0, l. split_and!; [lia|lia| |by apply evolves_refl|lia|].
    + rewrite Z.mul_0_l, !Z.add_0_r. done.
    + intros va' _. unfold remap. destruct (Z.leb_spec a0 va'), (Z.ltb_spec va' (a0 + 0 * PGSIZE)); simpl; lia || done.
  - simpl. unfold budget. lia.
Qed.
End tables.
