(* ===== verification/UserMem.v ===== *)
(** * User memory: the address spaces of kernel/vm.c

    What the page-table operations of Vm.v mean for a user address space: the
    bytes a process sees ([user_byte]), the invariant that keeps address spaces
    and the allocator apart ([as_wf]), and the correctness of [walkaddr],
    [copyin], [copyout], [copyinstr], [uvmunmap], [uvmalloc] and [uvmdealloc]. *)
From S2P Require Import Prelude Machine KString Spinlock Kalloc Vm.
Local Open Scope Z_scope.
Local Open Scope kernel_scope.

(** The physical page a user access to [va] reaches, 0 for a fault. *)
Definition user_pa (m : gmap Z Z) (root va : Z) : Z :=
  if MAXVA <=? va then 0 else
  let e := pte_at m root va in
  if has e PTE_V && has e PTE_U then PTE2PA e else 0.

(** The byte at [va], [None] for a fault. *)
Definition user_byte (m : gmap Z Z) (root va : Z) : option Z :=
  let pa := user_pa m root (PGROUNDDOWN va) in
  if pa =? 0 then None else Some (load8 m (pa + va mod PGSIZE)).

(** [n] bytes from [va], [None] when one of them faults. *)
Fixpoint user_read (m : gmap Z Z) (root va : Z) (n : nat) : option (list Z) :=
  match n with
  | O => Some []
  | S n => b ← user_byte m root va; l ← user_read m root (va + 1) n; Some (b :: l)
  end.

Lemma user_read_app m root va n1 n2 :
  user_read m root va (n1 + n2) =
  l1 ← user_read m root va n1; l2 ← user_read m root (va + Z.of_nat n1) n2; Some (l1 ++ l2).
Proof.
  revert va. induction n1 as [|n1 IH]; intros va; simpl.
  - rewrite Z.add_0_r. by destruct (user_read m root va n2).
  - destruct (user_byte m root va) as [b|]; simpl; [|done]. rewrite IH.
    replace (va + 1 + Z.of_nat n1) with (va + Z.of_nat (S n1)) by lia.
    destruct (user_read m root (va + 1) n1); simpl; [|done].
    by destruct (user_read m root (va + Z.of_nat (S n1)) n2).
Qed.

Lemma length_user_read m root va n l : user_read m root va n = Some l -> length l = n.
Proof.
  revert va l. induction n as [|n IH]; intros va l; simpl; [by intros [= <-]|].
  destruct (user_byte _ _ _); simpl; [|done]. destruct (user_read _ _ _ _) eqn:E; simpl; [|done].
  intros [= <-]. simpl. f_equal. by eapply IH.
Qed.

(** Reading inside one page. *)
Lemma user_read_page m root va n (pa := user_pa m root (PGROUNDDOWN va)) :
  va mod PGSIZE + Z.of_nat n <= PGSIZE ->
  user_read m root va n =
  if pa =? 0 then match n with O => Some [] | _ => None end
  else Some (load_bytes m (pa + va mod PGSIZE) n).
Proof.
  subst pa. revert va. induction n as [|n IH]; intros va Hn.
  - simpl. by destruct (_ =? 0).
  - cbn [user_read]. rewrite load_bytes_cons. unfold user_byte.
    destruct (_ =? 0) eqn:E; simpl; [done|]. destruct n as [|n].
    + done.
    + assert ((va + 1) mod PGSIZE = va mod PGSIZE + 1) as Em.
      { unfold PGSIZE in *. Z.div_mod_to_equations. lia. }
      assert (PGROUNDDOWN (va + 1) = PGROUNDDOWN va) as Er.
      { rewrite !PGROUNDDOWN_spec, Em. lia. }
      rewrite IH by lia. rewrite Er, E, Em. simpl. by rewrite Z.add_assoc.
Qed.

Section user.
Context (kend : Z) (kend_range : 0 < kend <= PHYSTOP).
Notation valid_page := (valid_page kend).
Notation pm_ok := (pm_ok kend).
Notation pt_wf := (pt_wf kend).
Notation evolves := (evolves kend).

Lemma walkaddr_run s root l va : pt_wf (pm_mem s) root l ->
  walkaddr root va s = Done (user_pa (pm_mem s) root va) s.
Proof.
  intros Hwf. unfold walkaddr, user_pa. destruct (Z.leb_spec MAXVA va); [done|].
  erewrite bind_Done by by apply walk_lookup. destruct (Z.eqb_spec (slot (pm_mem s) root va) 0) as [E|E].
  - eapply (slot_zero kend kend_range) in E; [|done]. unfold pte_at. by rewrite E.
  - unfold bind, gets. simpl. rewrite load_slot by done.
    destruct (has (pte_at (pm_mem s) root va) PTE_V); simpl; [|done].
    by destruct (has (pte_at (pm_mem s) root va) PTE_U).
Qed.

(** The common step of the three copy loops: the part of the range in the first
    page. *)
Definition chunk (va len : Z) : Z :=
  let n := PGSIZE - (va - PGROUNDDOWN va) in if len <? n then len else n.

Lemma chunk_spec va len : 0 <= va -> 0 < len ->
  0 < chunk va len <= len /\ va mod PGSIZE + chunk va len <= PGSIZE /\
  (chunk va len < len -> PGROUNDDOWN va + PGSIZE = va + chunk va len) /\
  va - PGROUNDDOWN va = va mod PGSIZE.
Proof.
  intros. unfold chunk. rewrite PGROUNDDOWN_spec. pose proof (Z.mod_pos_bound va PGSIZE).
  unfold PGSIZE in *. destruct (Z.ltb_spec len (4096 - (va - (va - va mod 4096)))); lia.
Qed.

Lemma user_pa_high m root va : MAXVA <= va -> user_pa m root (PGROUNDDOWN va) = 0.
Proof.
  intros H. unfold user_pa. destruct (Z.leb_spec MAXVA (PGROUNDDOWN va)) as [|Hlt]; [done|].
  rewrite PGROUNDDOWN_spec in Hlt. change MAXVA with (2 ^ 38) in *. unfold PGSIZE in *.
  Z.div_mod_to_equations. lia.
Qed.

Lemma user_pa_low m root va : user_pa m root (PGROUNDDOWN va) <> 0 -> va < MAXVA.
Proof. intros H. apply Z.nle_gt. intros H'. by apply H, user_pa_high. Qed.

(** Splitting a read at the end of the first page. *)
Lemma user_read_chunk m root va len (n := chunk va len) (pa := user_pa m root (PGROUNDDOWN va)) :
  0 <= va -> 0 < len ->
  user_read m root va (Z.to_nat len) =
  if pa =? 0 then None else
  l ← user_read m root (va + n) (Z.to_nat (len - n));
  Some (load_bytes m (pa + (va - PGROUNDDOWN va)) (Z.to_nat n) ++ l).
Proof.
  intros Hva Hlen. destruct (chunk_spec va len Hva Hlen) as (H1 & H2 & H3 & H4). fold n in H1, H2, H3.
  replace (Z.to_nat len) with (Z.to_nat n + Z.to_nat (len - n))%nat by lia.
  rewrite user_read_app, (user_read_page m root va) by lia. fold pa. rewrite H4, Z2Nat.id by lia.
  destruct (pa =? 0); [|done]. by destruct (Z.to_nat n) eqn:E; [lia|].
Qed.

Lemma copyin_loop s root l srcva len (P : Z * list Z -> pm -> Prop) :
  pt_wf (pm_mem s) root l -> 0 <= srcva < 2 ^ 64 -> 0 <= len ->
  (forall bytes, user_read (pm_mem s) root srcva (Z.to_nat len) = Some bytes -> P (0, bytes) s) ->
  (forall bytes, user_read (pm_mem s) root srcva (Z.to_nat len) = None -> P (-1, bytes) s) ->
  wp (copyin root srcva len s) P.
Proof.
  intros Hwf Hva Hlen Hyes Hno. unfold copyin.
  apply (wp_while _ (fun '(va, n, dst) s' => s' = s /\ 0 <= va < 2 ^ 64 /\ 0 <= n /\
      user_read (pm_mem s) root srcva (Z.to_nat len) =
      rest ← user_read (pm_mem s) root va (Z.to_nat n); Some (dst ++ rest))
    (fun '(va, n, _) => Z.max 0 (2 ^ 39 - va) )).
  - intros [[va n] dst] s1 (-> & Hr & Hn & E). destruct (Z.ltb_spec 0 n); cbn [negb].
    + kstep. rewrite (walkaddr_run _ _ l) by done. fold (chunk va n). cbn [wp].
      rewrite (user_read_chunk _ _ va n) in E by lia. destruct (_ =? 0) eqn:Epa; [by apply Hno|].
      assert (va < MAXVA) as Hlow by (apply (user_pa_low (pm_mem s) root); lia).
      change MAXVA with (2 ^ 38) in Hlow. destruct (chunk_spec va n) as (H1 & H2 & H3 & H4); [lia..|].
      ksteps. split.
      * pose proof (PGROUNDDOWN_bounds va). rewrite u64_id by (unfold PGSIZE in *; lia). split_and!; [done|unfold PGSIZE in *; lia..|].
        rewrite E. destruct (decide (chunk va n < n)) as [Hd|Hd].
        -- rewrite H3 by done. destruct (user_read _ _ (va + _) _); simpl; [|done]. by rewrite app_assoc.
        -- replace (n - chunk va n) with 0 by lia. simpl. by rewrite !app_nil_r.
      * rewrite u64_id by (pose proof (PGROUNDDOWN_bounds va); unfold PGSIZE in *; lia).
        pose proof (PGROUNDDOWN_bounds va). unfold PGSIZE in *. lia.
    + kstep. apply Hyes. rewrite E. replace n with 0 by lia. simpl. by rewrite app_nil_r.
  - intros [[va n] dst] s1 _. lia.
  - split_and!; [done|lia|lia|lia|]. by destruct (user_read _ _ _ _).
  - unfold budget. lia.
Qed.

(** ** The invariant of a user address space

    Below TRAPFRAME every mapped page is a page of RAM that is neither free nor
    a page-table page and is mapped once; the two pages above it, the trap frame
    and the trampoline, are not accessible to user code.  Entries that are not
    valid are zero. *)
Record as_wf (m : gmap Z Z) (root : Z) (l : list Z) : Prop := {
  as_pt : pt_wf m root l;
  as_page : forall va, aligned_va va -> va < TRAPFRAME -> has (pte_at m root va) PTE_V = true ->
    let pa := PTE2PA (pte_at m root va) in valid_page pa /\ (pa ∉ l) /\ ~ table_page m root pa;
  as_inj : forall va va', aligned_va va -> aligned_va va' -> va < TRAPFRAME -> va' < TRAPFRAME ->
    has (pte_at m root va) PTE_V = true -> has (pte_at m root va') PTE_V = true ->
    PTE2PA (pte_at m root va) = PTE2PA (pte_at m root va') -> va = va';
  as_top : forall va, aligned_va va -> TRAPFRAME <= va -> has (pte_at m root va) PTE_U = false;
  as_zero : forall va, aligned_va va -> has (pte_at m root va) PTE_V = false -> pte_at m root va = 0
}.

(** The physical address of the byte at [va]. *)
Definition user_addr (m : gmap Z Z) (root va : Z) : Z := user_pa m root (PGROUNDDOWN va) + va mod PGSIZE.

Definition mapped (m : gmap Z Z) (root va : Z) : Prop := user_pa m root (PGROUNDDOWN va) <> 0.

Lemma user_byte_mapped m root va : mapped m root va ->
  user_byte m root va = Some (load8 m (user_addr m root va)).
Proof. intros H. unfold user_byte. by destruct (Z.eqb_spec (user_pa m root (PGROUNDDOWN va)) 0). Qed.

Lemma user_read_mapped m root va n :
  is_Some (user_read m root va n) <-> forall i, 0 <= i < Z.of_nat n -> mapped m root (va + i).
Proof.
  revert va. induction n as [|n IH]; intros va.
  - split; [lia|]. intros _. by eexists.
  - cbn [user_read]. split.
    + intros [l E]. unfold user_byte in E. destruct (Z.eqb_spec (user_pa m root (PGROUNDDOWN va)) 0); [done|].
      simpl in E. destruct (user_read m root (va + 1) n) eqn:E'; [|done]. intros i Hi.
      destruct (decide (i = 0)) as [->|]; [by rewrite Z.add_0_r|].
      replace (va + i) with (va + 1 + (i - 1)) by lia. apply IH; [by eexists|lia].
    + intros H. rewrite user_byte_mapped by (rewrite <- (Z.add_0_r va); apply H; lia). simpl.
      destruct (proj2 (IH (va + 1))) as [l ->]; [|by eexists].
      intros i Hi. replace (va + 1 + i) with (va + (i + 1)) by lia. apply H. lia.
Qed.

Lemma aligned_va_down va : 0 <= va < MAXVA -> aligned_va (PGROUNDDOWN va).
Proof.
  intros H. split; [apply PGROUNDDOWN_aligned|]. rewrite PGROUNDDOWN_spec. unfold PGSIZE.
  Z.div_mod_to_equations. lia.
Qed.

Section wf.
Context (m : gmap Z Z) (root : Z) (l : list Z) (Hwf : as_wf m root l).

Lemma mapped_pte va : 0 <= va -> mapped m root va ->
  let a := PGROUNDDOWN va in aligned_va a /\ a < TRAPFRAME /\ has (pte_at m root a) PTE_V = true /\
  user_pa m root a = PTE2PA (pte_at m root a).
Proof.
  intros Hva Hm a. pose proof (user_pa_low _ _ _ Hm) as Hlow.
  assert (aligned_va a) as Ha by (apply aligned_va_down; lia). unfold mapped in Hm. fold a in Hm.
  unfold user_pa in *. destruct (Z.leb_spec MAXVA a); [done|].
  destruct (has (pte_at m root a) PTE_V) eqn:EV, (has (pte_at m root a) PTE_U) eqn:EU; try done.
  split_and!; try done. apply Z.nle_gt. intros Ht. by rewrite (as_top _ _ _ Hwf a) in EU.
Qed.

Lemma mapped_page va : 0 <= va -> mapped m root va ->
  let pa := user_pa m root (PGROUNDDOWN va) in
  valid_page pa /\ (pa ∉ l) /\ ~ table_page m root pa /\ in_page pa (user_addr m root va).
Proof.
  intros Hva Hm. destruct (mapped_pte va Hva Hm) as (Ha & Ht & HV & E). simpl. rewrite E.
  destruct (as_page _ _ _ Hwf _ Ha Ht HV) as (H1 & H2 & H3). split_and!; try done.
  unfold user_addr. rewrite E. unfold in_page. pose proof (Z.mod_pos_bound va PGSIZE). unfold PGSIZE in *. lia.
Qed.

Lemma user_addr_inj va va' : 0 <= va -> 0 <= va' -> mapped m root va -> mapped m root va' ->
  user_addr m root va = user_addr m root va' -> va = va'.
Proof.
  intros H H' Hm Hm' E. destruct (mapped_pte va H Hm) as (Ha & Ht & HV & Ep).
  destruct (mapped_pte va' H' Hm') as (Ha' & Ht' & HV' & Ep').
  destruct (mapped_page va H Hm) as (Hv & _ & _ & Hin). destruct (mapped_page va' H' Hm') as (Hv' & _ & _ & Hin').
  assert (PGROUNDDOWN va = PGROUNDDOWN va') as Eva.
  { eapply (as_inj _ _ _ Hwf); try done. rewrite <- Ep, <- Ep'. apply dec_stable. intros Hne.
    eapply (pages_disjoint kend _ _ _ Hv Hv' Hne Hin). by rewrite E. }
  unfold user_addr in E. rewrite Eva in E. rewrite !PGROUNDDOWN_spec in Eva. lia.
Qed.

(** Writing user bytes leaves the page tables alone. *)
Lemma user_store_tables va m' : 0 <= va -> mapped m root va ->
  (forall x, x <> user_addr m root va -> load8 m' x = load8 m x) ->
  forall pg x, table_page m root pg -> in_page pg x -> load8 m' x = load8 m x.
Proof.
  intros Hva Hm Hsame pg x (q & Hq & E) Hx. apply Hsame. intros ->.
  destruct (mapped_page va Hva Hm) as (Hv & _ & Ht & Hin).
  destruct (wf_node _ _ _ _ (as_pt _ _ _ Hwf) q pg Hq E) as [Hvpg _].
  eapply (pages_disjoint kend pg _ _ Hvpg Hv); [|done|done]. intros ->. apply Ht. by exists q.
Qed.
End wf.

Lemma table_page_same m m' root pg :
  (forall pg x, table_page m root pg -> in_page pg x -> load8 m' x = load8 m x) ->
  table_page m' root pg <-> table_page m root pg.
Proof.
  intros H. unfold table_page. split; intros (q & Hq & E); exists q;
    (split; [done|]); by rewrite (node_frame m m') in *.
Qed.

Lemma user_pa_same m m' root va :
  (forall pg x, table_page m root pg -> in_page pg x -> load8 m' x = load8 m x) ->
  user_pa m' root va = user_pa m root va.
Proof. intros H. unfold user_pa. by rewrite (pte_at_frame m m'). Qed.

Lemma as_wf_same m m' root l :
  as_wf m root l ->
  (forall pg x, table_page m root pg -> in_page pg x -> load8 m' x = load8 m x) ->
  as_wf m' root l.
Proof.
  intros [H1 H2 H3 H4 H5] Hs. assert (forall va, pte_at m' root va = pte_at m root va) as E
    by (intros; by apply pte_at_frame).
  split.
  - by eapply pt_wf_frame.
  - intros va. rewrite E. intros Ha Ht HV. simpl. rewrite (table_page_same m m') by done. by apply H2.
  - intros va va'. rewrite !E. apply H3.
  - intros va. rewrite E. apply H4.
  - intros va. rewrite E. apply H5.
Qed.

(** ** Writing user bytes *)

(** The memory after the bytes [l] are written from [va] on, through the
    translation of [m0]. *)
Fixpoint user_write (m0 m : gmap Z Z) (root va : Z) (l : list Z) : gmap Z Z :=
  match l with
  | [] => m
  | b :: l => user_write m0 (store8 m (user_addr m0 root va) b) root (va + 1) l
  end.

Lemma user_write_app m0 m root va l1 l2 :
  user_write m0 m root va (l1 ++ l2) =
  user_write m0 (user_write m0 m root va l1) root (va + Z.of_nat (length l1)) l2.
Proof.
  revert m va. induction l1 as [|b l1 IH]; intros m va; simpl; [by rewrite Z.add_0_r|].
  rewrite IH. f_equal. lia.
Qed.

Lemma user_write_page m0 m root va l : va mod PGSIZE + Z.of_nat (length l) <= PGSIZE ->
  user_write m0 m root va l = store_bytes m (user_addr m0 root va) l.
Proof.
  revert m va. induction l as [|b l IH]; intros m va Hl; [done|]. cbn [user_write store_bytes length] in *.
  destruct l as [|c l]; [done|]. cbn [length] in Hl.
  assert ((va + 1) mod PGSIZE = va mod PGSIZE + 1) as Em.
  { unfold PGSIZE in *. Z.div_mod_to_equations. lia. }
  rewrite IH by (cbn [length]; lia). f_equal. unfold user_addr. rewrite Em.
  replace (PGROUNDDOWN (va + 1)) with (PGROUNDDOWN va) by (rewrite !PGROUNDDOWN_spec, Em; lia). lia.
Qed.

Lemma mem_ok_user_write m0 m root va l : mem_ok m -> mem_ok (user_write m0 m root va l).
Proof. revert m va. induction l; intros; simpl; auto with kernel. Qed.

Section write.
Context (m : gmap Z Z) (root : Z) (l : list Z) (Hwf : as_wf m root l).

Lemma load8_user_write_out m1 va bytes x :
  (forall i, 0 <= i < Z.of_nat (length bytes) -> x <> user_addr m root (va + i)) ->
  load8 (user_write m m1 root va bytes) x = load8 m1 x.
Proof.
  revert m1 va. induction bytes as [|b bytes IH]; intros m1 va Hx; [done|]. cbn [user_write length] in *.
  rewrite IH.
  - rewrite load8_store8. case_decide as E; [|done]. exfalso. apply (Hx 0); [lia|]. by rewrite Z.add_0_r.
  - intros i Hi. replace (va + 1 + i) with (va + (i + 1)) by lia. apply Hx. lia.
Qed.

Lemma load8_user_write_in m1 va bytes i b : 0 <= va ->
  (forall i, 0 <= i < Z.of_nat (length bytes) -> mapped m root (va + i)) ->
  bytes !! i = Some b -> load8 (user_write m m1 root va bytes) (user_addr m root (va + Z.of_nat i)) = u8 b.
Proof.
  revert m1 va i. induction bytes as [|c bytes IH]; intros m1 va i Hva Hm Hi; [done|].
  cbn [user_write length] in *. destruct i as [|i]; simpl in Hi.
  - injection Hi as ->. rewrite Z.add_0_r. rewrite load8_user_write_out.
    + rewrite load8_store8. by case_decide.
    + intros j Hj E. apply (user_addr_inj m root l Hwf) in E; [lia|lia|lia|..].
      * rewrite <- (Z.add_0_r va). apply Hm. lia.
      * replace (va + 1 + j) with (va + (j + 1)) by lia. apply Hm. lia.
  - replace (va + Z.of_nat (S i)) with (va + 1 + Z.of_nat i) by lia. apply IH; [lia| |done].
    intros j Hj. replace (va + 1 + j) with (va + (j + 1)) by lia. apply Hm. lia.
Qed.

Context (va : Z) (bytes : list Z) (Hva : 0 <= va).
Context (Hmap : forall i, 0 <= i < Z.of_nat (length bytes) -> mapped m root (va + i)).

Lemma user_write_tables pg x : table_page m root pg -> in_page pg x ->
  load8 (user_write m m root va bytes) x = load8 m x.
Proof.
  intros (q & Hq & E) Hx. apply load8_user_write_out. intros i Hi ->.
  destruct (mapped_page m root l Hwf (va + i)) as (Hv & _ & Ht & Hin); [lia|by apply Hmap|].
  destruct (wf_node _ _ _ _ (as_pt _ _ _ Hwf) q pg Hq E) as [Hvpg _].
  eapply (pages_disjoint kend pg _ _ Hvpg Hv); [|done|done]. intros ->. apply Ht. by exists q.
Qed.

Lemma user_write_pa va' : user_pa (user_write m m root va bytes) root va' = user_pa m root va'.
Proof. apply user_pa_same. intros. by eapply user_write_tables. Qed.

Lemma user_write_wf : as_wf (user_write m m root va bytes) root l.
Proof. eapply as_wf_same; [done|]. intros. by eapply user_write_tables. Qed.

(** The process sees exactly the written bytes. *)
Lemma user_byte_write va' : 0 <= va' ->
  user_byte (user_write m m root va bytes) root va' =
  if decide (va <= va' < va + Z.of_nat (length bytes)) then u8 <$> bytes !! Z.to_nat (va' - va)
  else user_byte m root va'.
Proof.
  intros Hva'. unfold user_byte at 1. rewrite user_write_pa. fold (user_addr m root va').
  case_decide as Hd.
  - assert (mapped m root va') as Hm by (replace va' with (va + (va' - va)) by lia; apply Hmap; lia).
    destruct (Z.eqb_spec (user_pa m root (PGROUNDDOWN va')) 0); [done|].
    destruct (bytes !! Z.to_nat (va' - va)) as [b|] eqn:E.
    + simpl. f_equal. rewrite <- (load8_user_write_in m va bytes (Z.to_nat (va' - va)) b) by done.
      do 2 f_equal. lia.
    + apply lookup_ge_None in E. lia.
  - unfold user_byte. fold (user_addr m root va').
    destruct (Z.eqb_spec (user_pa m root (PGROUNDDOWN va')) 0) as [|Hne]; [done|]. f_equal.
    apply load8_user_write_out. intros i Hi E. apply (user_addr_inj m root l Hwf) in E; try lia; [done|].
    by apply Hmap.
Qed.

Lemma user_read_write : Forall is_byte bytes ->
  user_read (user_write m m root va bytes) root va (length bytes) = Some bytes.
Proof.
  intros Hb. assert (forall k b2, bytes = b2 ++ drop k bytes -> length b2 = k ->
    user_read (user_write m m root va bytes) root (va + Z.of_nat k) (length (drop k bytes)) = Some (drop k bytes)) as H.
  { intros k b2 E <-. remember (drop (length b2) bytes) as rest eqn:Er. clear Er.
    revert b2 E. induction rest as [|b rest IH]; intros b2 E; [done|]. cbn [length user_read].
    rewrite user_byte_write by lia. rewrite decide_True by (rewrite E, length_app; simpl; lia).
    replace (Z.to_nat _) with (length b2) by lia.
    assert (bytes !! length b2 = Some b) as -> by (rewrite E, lookup_app_r, Nat.sub_diag by lia; done).
    simpl. specialize (IH (b2 ++ [b])). rewrite length_app in IH. simpl in IH.
    replace (va + Z.of_nat (length b2 + 1)) with (va + Z.of_nat (length b2) + 1) in IH by lia.
    rewrite IH by (by rewrite E, <- app_assoc). simpl. rewrite u8_id; [done|].
    rewrite E in Hb. apply Forall_app in Hb as [_ Hb]. by apply Forall_cons_iff in Hb as [Hb _]. }
  specialize (H O [] eq_refl eq_refl). by rewrite Z.add_0_r, drop_0 in H.
Qed.
End write.

(** ** copyout *)

(** The state in which the first [k] bytes of [src] were written from [va]. *)
Definition wrote (s : pm) (root va : Z) (src : list Z) (k : nat) : pm :=
  set_mem (user_write (pm_mem s) (pm_mem s) root va (take k src)) s.

Lemma wrote_chunk s root va src k c : (k <= length src)%nat ->
  (va + Z.of_nat k) mod PGSIZE + c <= PGSIZE -> 0 <= c ->
  set_mem (store_bytes (user_write (pm_mem s) (pm_mem s) root va (take k src))
             (user_addr (pm_mem s) root (va + Z.of_nat k)) (take (Z.to_nat c) (drop k src)))
          (wrote s root va src k) =
  wrote s root va src (k + Z.to_nat c).
Proof.
  intros Hk Hc Hc0. unfold wrote. rewrite set_mem_twice. f_equal. rewrite <- take_take_drop, user_write_app.
  rewrite length_take, Nat.min_l by done. rewrite (user_write_page _ _ _ (va + Z.of_nat k)); [done|].
  rewrite length_take, length_drop. lia.
Qed.

Lemma mapped_same_page m root va i : mapped m root va -> 0 <= i -> va mod PGSIZE + i < PGSIZE ->
  mapped m root (va + i).
Proof.
  intros Hm Hi Hlt. unfold mapped in *. replace (PGROUNDDOWN (va + i)) with (PGROUNDDOWN va); [done|].
  rewrite !PGROUNDDOWN_spec. unfold PGSIZE in *. Z.div_mod_to_equations. lia.
Qed.

Lemma copyout_ok s root l dstva src : as_wf (pm_mem s) root l ->
  0 <= dstva < 2 ^ 64 ->
  wp (copyout root dstva src (Z.of_nat (length src)) s) (fun r s' => exists k, (k <= length src)%nat /\
    s' = wrote s root dstva src k /\ (forall i, 0 <= i < Z.of_nat k -> mapped (pm_mem s) root (dstva + i)) /\
    (r = 0 /\ k = length src \/ r = -1 /\ user_read (pm_mem s) root dstva (length src) = None)).
Proof.
  intros Hwf Hva. set (m := pm_mem s) in *. unfold copyout.
  apply (wp_while _ (fun '(va, rest, n) s1 => exists k, (k <= length src)%nat /\ rest = drop k src /\
      n = Z.of_nat (length src - k) /\ s1 = wrote s root dstva src k /\
      (forall i, 0 <= i < Z.of_nat k -> mapped m root (dstva + i)) /\ 0 <= va < 2 ^ 64 /\
      (0 < n -> va = dstva + Z.of_nat k))
    (fun '(va, _, n) => Z.max 0 (2 ^ 39 - va))).
  - intros [[va rest] n] s1 (k & Hk & -> & -> & -> & Hmap & Hr & Hn).
    destruct (Z.ltb_spec 0 (Z.of_nat (length src - k))); cbn [negb].
    2:{ kstep. exists k. assert (k = length src) by lia. auto 10. }
    specialize (Hn ltac:(done)). set (n := Z.of_nat (length src - k)) in *.
    kstep. assert (length (take k src) = k) as Hlk by (rewrite length_take; lia).
    assert (as_wf (user_write m m root dstva (take k src)) root l) as Hwf1.
    { apply user_write_wf; [done|lia|]. by rewrite Hlk. }
    rewrite (walkaddr_run _ _ l) by apply Hwf1. fold (chunk va n). cbn [wp wrote set_mem pm_mem].
    fold m. rewrite (user_write_pa m root l) by (done || lia || by rewrite Hlk).
    destruct (Z.eqb_spec (user_pa m root (PGROUNDDOWN va)) 0) as [E|E].
    + kstep. exists k. split_and!; [done|done|done|]. right. split; [done|].
      destruct (user_read m root dstva (length src)) eqn:E'; [|done].
      destruct (user_read_mapped m root dstva (length src)) as [Hall _].
      destruct (Hall ltac:(by eexists) (Z.of_nat k)); [lia|]. by rewrite <- Hn.
    + pose proof (user_pa_low _ _ _ E) as Hlow. change MAXVA with (2 ^ 38) in Hlow.
      destruct (chunk_spec va n) as (H1 & H2 & H3 & H4); [lia..|]. set (c := chunk va n) in *.
      pose proof (PGROUNDDOWN_bounds va). do 3 kstep. rewrite u64_id by (unfold PGSIZE in *; lia).
      split; [|unfold PGSIZE in *; lia].
      exists (k + Z.to_nat c)%nat. split_and!; [lia|by rewrite drop_drop|lia| | |unfold PGSIZE in *; lia..|].
      * rewrite H4, Hn. apply wrote_chunk; [done|by rewrite <- Hn|lia].
      * intros i Hi. destruct (decide (i < Z.of_nat k)); [apply Hmap; lia|].
        replace (dstva + i) with (va + (i - Z.of_nat k)) by lia. apply mapped_same_page; [done|lia|lia].
      * intros Hn'. lia.
  - intros [[va rest] n] s1 _. lia.
  - exists O. split_and!; [lia|by rewrite drop_0|lia| |lia|lia|lia|lia].
    unfold wrote. rewrite take_0. simpl. by destruct s.
  - unfold budget. lia.
Qed.

(** ** copyinstr *)

(** The NUL-terminated string at [va], its NUL included, when it ends within
    [max] bytes and all of it is mapped. *)
Fixpoint user_str (m : gmap Z Z) (root va : Z) (max : nat) : option (list Z) :=
  match max with
  | O => None
  | S n => b ← user_byte m root va;
           if b =? 0 then Some [0] else l ← user_str m root (va + 1) n; Some (b :: l)
  end.

Lemma user_str_page m root va n1 n2 (pa := user_pa m root (PGROUNDDOWN va)) :
  pa <> 0 -> va mod PGSIZE + Z.of_nat n1 <= PGSIZE ->
  user_str m root va (n1 + n2) =
  let (got, bs) := copy_until_nul m (pa + va mod PGSIZE) n1 in
  if got then Some bs else l ← user_str m root (va + Z.of_nat n1) n2; Some (bs ++ l).
Proof.
  subst pa. revert va. induction n1 as [|n1 IH]; intros va Hpa Hn.
  - simpl. rewrite Z.add_0_r. by destruct (user_str m root va n2).
  - cbn [user_str copy_until_nul Nat.add]. rewrite user_byte_mapped by done. unfold user_addr. simpl mbind.
    destruct (load8 m _ =? 0); [done|].
    destruct n1 as [|n1].
    { done. }
    assert ((va + 1) mod PGSIZE = va mod PGSIZE + 1) as Em.
    { unfold PGSIZE in *. Z.div_mod_to_equations. lia. }
    assert (PGROUNDDOWN (va + 1) = PGROUNDDOWN va) as Er by (rewrite !PGROUNDDOWN_spec, Em; lia).
    rewrite IH by (rewrite ?Er, ?Em; done || lia). rewrite Er, Em, Z.add_assoc.
    replace (va + 1 + Z.of_nat (S n1)) with (va + Z.of_nat (S (S n1))) by lia.
    destruct (copy_until_nul m _ _) as [[] bs]; simpl; [done|]. by destruct (user_str m root _ n2).
Qed.

Lemma copyinstr_loop s root l srcva max (P : Z * list Z -> pm -> Prop) :
  pt_wf (pm_mem s) root l -> 0 <= srcva < 2 ^ 64 -> 0 <= max ->
  (forall bytes, user_str (pm_mem s) root srcva (Z.to_nat max) = Some bytes -> P (0, bytes) s) ->
  (forall bytes, user_str (pm_mem s) root srcva (Z.to_nat max) = None -> P (-1, bytes) s) ->
  wp (copyinstr root srcva max s) P.
Proof.
  intros Hwf Hva Hmax Hyes Hno. unfold copyinstr.
  apply (wp_while _ (fun '(va, n, dst) s' => s' = s /\ 0 <= va < 2 ^ 64 /\ 0 <= n /\
      user_str (pm_mem s) root srcva (Z.to_nat max) =
      rest ← user_str (pm_mem s) root va (Z.to_nat n); Some (dst ++ rest))
    (fun '(va, n, _) => Z.max 0 (2 ^ 39 - va))).
  - intros [[va n] dst] s1 (-> & Hr & Hn & E). destruct (Z.ltb_spec 0 n); cbn [negb].
    2:{ kstep. apply Hno. rewrite E. by replace n with 0 by lia. }
    kstep. rewrite (walkaddr_run _ _ l) by done. fold (chunk va n). cbn [wp].
    destruct (chunk_spec va n) as (H1 & H2 & H3 & H4); [lia..|]. set (c := chunk va n) in *.
    destruct (Z.eqb_spec (user_pa (pm_mem s) root (PGROUNDDOWN va)) 0) as [Epa|Epa].
    + kstep. apply Hno. rewrite E. destruct (Z.to_nat n) as [|n'] eqn:En; [lia|]. simpl.
      unfold user_byte. by rewrite Epa.
    + pose proof (user_pa_low _ _ _ Epa) as Hlow. change MAXVA with (2 ^ 38) in Hlow.
      replace (Z.to_nat n) with (Z.to_nat c + Z.to_nat (n - c))%nat in E by lia.
      rewrite user_str_page, Z2Nat.id in E by lia. do 2 kstep. rewrite H4.
      destruct (copy_until_nul _ _ _) as [[] bs]; [by apply Hyes|]. kstep.
      pose proof (PGROUNDDOWN_bounds va). rewrite u64_id by (unfold PGSIZE in *; lia).
      split; [|unfold PGSIZE in *; lia]. split_and!; [done|unfold PGSIZE in *; lia..|]. rewrite E.
      destruct (decide (c < n)); [rewrite H3 by done|replace (n - c) with 0 by lia; done].
      destruct (user_str _ _ (va + c) _); simpl; [|done]. by rewrite app_assoc.
  - intros [[va n] dst] s1 _. lia.
  - split_and!; [done|lia..|]. by destruct (user_str _ _ _ _).
  - unfold budget. lia.
Qed.
End user.
