(* ===== verification/AddrSpace.v ===== *)
(** * Growing, shrinking and copying address spaces (kernel/vm.c)

    [as_step] is what the operations that change an address space may do to the
    rest of memory; [uvmunmap], [uvmdealloc] and [uvmalloc] are shown to be such
    steps with the mapping they promise. *)
From S2P Require Import Prelude Machine KString Spinlock Kalloc Vm UserMem.
Local Open Scope Z_scope.
Local Open Scope kernel_scope.

Section space.
Context (kend : Z) (kend_range : 0 < kend <= PHYSTOP).
Notation valid_page := (valid_page kend).
Notation pm_ok := (pm_ok kend).
Notation pt_wf := (pt_wf kend).
Notation evolves := (evolves kend).
Notation as_wf := (as_wf kend).

(** A step of the address space at [root]: the pages [G] are given back, free
    pages may be used, page-table pages stay, and no other memory changes. *)
Record as_step (root : Z) (G : list Z) (s : pm) (l : list Z) (s' : pm) (l' : list Z) : Prop := {
  st_ok : pm_ok s' l';
  st_as : as_wf (pm_mem s') root l';
  st_free : forall p, p ∈ l' -> p ∈ l \/ p ∈ G;
  st_node : forall q pg, path_ok q -> node (pm_mem s) root q = Some pg -> node (pm_mem s') root q = Some pg;
  st_table : forall pg, table_page (pm_mem s') root pg -> table_page (pm_mem s) root pg \/ pg ∈ l \/ pg ∈ G;
  st_frame : forall x, (forall p, p ∈ l \/ p ∈ G -> ~ in_page p x) ->
               (forall pg, table_page (pm_mem s) root pg -> ~ in_page pg x) ->
               load8 (pm_mem s') x = load8 (pm_mem s) x;
  st_hart : same_hart (pm_hart s') (pm_hart s);
  st_lock : pm_lock s' = pm_lock s
}.

Lemma as_step_refl root s l : pm_ok s l -> as_wf (pm_mem s) root l -> as_step root [] s l s l.
Proof. intros. split; try done; intros; by left. Qed.

Lemma as_step_trans root G1 G2 s l s1 l1 s2 l2 :
  as_step root G1 s l s1 l1 -> as_step root G2 s1 l1 s2 l2 -> as_step root (G1 ++ G2) s l s2 l2.
Proof.
  intros [_ _ Hf1 Hn1 Ht1 Hm1 Hh1 Hl1] [Ho2 Ha2 Hf2 Hn2 Ht2 Hm2 Hh2 Hl2]. split; try done.
  - intros p Hp. rewrite elem_of_app. apply Hf2 in Hp as [Hp|Hp]; [apply Hf1 in Hp|]; tauto.
  - auto.
  - intros pg H. rewrite elem_of_app. apply Ht2 in H as [H|[H|H]]; [apply Ht1 in H|apply Hf1 in H|]; tauto.
  - intros x Hx Ht. setoid_rewrite elem_of_app in Hx. rewrite Hm2.
    + apply Hm1; [|done]. intros p Hp. apply Hx. tauto.
    + intros p [Hp|Hp]; [apply Hf1 in Hp|]; apply Hx; tauto.
    + intros pg H. apply Ht1 in H as [H|H]; [by apply Ht|]. apply Hx. tauto.
  - by etransitivity.
  - by etransitivity.
Qed.

(** Pages given back that were free before need not be mentioned. *)
Lemma as_step_absorb root G s l s' l' : (forall p, p ∈ G -> p ∈ l) ->
  as_step root G s l s' l' -> as_step root [] s l s' l'.
Proof.
  intros HG [Ho Ha Hf Hn Ht Hm Hh Hl]. split; try done.
  - intros p Hp. left. apply Hf in Hp as [Hp|Hp]; auto.
  - intros pg H. apply Ht in H as [H|[H|H]]; auto.
  - intros x Hx Ht'. apply Hm; [|done]. intros p [Hp|Hp]; apply Hx; auto.
Qed.

Lemma evolves_step root s l s' l' : evolves root s l s' l' -> as_wf (pm_mem s') root l' ->
  as_step root [] s l s' l'.
Proof.
  intros [Ho Hw Hf Hn Ht Hm Hh Hl] Ha. split; try done.
  - destruct Hf as [u ->]. intros. left. apply elem_of_app. by right.
  - intros pg H. apply Ht in H as [H|H]; auto.
  - intros x Hx. apply Hm. auto.
Qed.

(** ** Removing one mapping *)
Lemma as_wf_clear m m' root l l' a :
  as_wf m root l -> pt_wf m' root l' -> aligned_va a ->
  (forall pg, table_page m' root pg -> table_page m root pg) ->
  (forall va, aligned_va va -> pte_at m' root va = if decide (va = a) then 0 else pte_at m root va) ->
  (forall p, p ∈ l' -> p ∈ l \/ a < TRAPFRAME /\ has (pte_at m root a) PTE_V = true /\ p = PTE2PA (pte_at m root a)) ->
  as_wf m' root l'.
Proof.
  intros Hwf Hpt Ha Ht Hpte Hl. split; [done|..].
  - intros va Hva Htf HV. rewrite Hpte in * by done. case_decide; [done|]. simpl.
    destruct (as_page _ _ _ _ Hwf va Hva Htf HV) as (H1 & H2 & H3). split_and!; [done| |auto].
    intros Hp. apply Hl in Hp as [Hp|(Htf' & HV' & Hp)]; [done|].
    apply (as_inj _ _ _ _ Hwf) in Hp; done.
  - intros va va' Hva Hva' Htf Htf'. rewrite !Hpte by done. do 2 case_decide; try done.
    by apply (as_inj _ _ _ _ Hwf).
  - intros va Hva Htf. rewrite Hpte by done. case_decide; [done|]. by apply (as_top _ _ _ _ Hwf).
  - intros va Hva. rewrite Hpte by done. case_decide; [done|]. by apply (as_zero _ _ _ _ Hwf).
Qed.

Section unmap_one.
Context (s : pm) (root a : Z) (l : list Z) (pa := PTE2PA (pte_at (pm_mem s) root a)).
Context (Hok : pm_ok s l) (Hwf : as_wf (pm_mem s) root l) (Ha : aligned_va a).
Context (Hslot : slot (pm_mem s) root a <> 0) (HV : has (pte_at (pm_mem s) root a) PTE_V = true).

Lemma write_pte_table s1 l1 v pg : pt_wf (pm_mem s1) root l1 -> slot (pm_mem s1) root a <> 0 ->
  table_page (store64 (pm_mem s1) (slot (pm_mem s1) root a) v) root pg -> table_page (pm_mem s1) root pg.
Proof.
  intros Hw Hs (q & Hq & E). rewrite (write_pte_node kend s1 root a v l1) in E by done. by exists q.
Qed.

Lemma unmap_keep : let s' := set_mem (store64 (pm_mem s) (slot (pm_mem s) root a) 0) s in
  as_step root [] s l s' l /\
  forall va, aligned_va va -> pte_at (pm_mem s') root va = if decide (va = a) then 0 else pte_at (pm_mem s) root va.
Proof.
  pose proof (write_pte_evolves kend s root a 0 l Hok (as_pt _ _ _ _ Hwf) Hslot) as Hev.
  assert (forall va, aligned_va va -> pte_at (store64 (pm_mem s) (slot (pm_mem s) root a) 0) root va =
    if decide (va = a) then 0 else pte_at (pm_mem s) root va) as Hpte.
  { intros va Hva. destruct Ha, Hva. by apply (write_pte_at kend s root a 0 l); [apply Hwf|..]. }
  split; [|done]. apply evolves_step; [done|].
  eapply as_wf_clear; [done|apply Hev|done| |done|by left].
  intros pg. apply (write_pte_table s l); [apply Hwf|done].
Qed.

Lemma pt_wf_cons m l1 p : pt_wf m root l1 -> ~ table_page m root p -> pt_wf m root (p :: l1).
Proof.
  intros [Hn Hi] Hp. split; [|done]. intros q pg Hq E. destruct (Hn q pg Hq E). split; [done|].
  apply not_elem_of_cons. split; [|done]. intros ->. apply Hp. by exists q.
Qed.

Context (Htf : a < TRAPFRAME) (s1 : pm) (Hok1 : pm_ok s1 (pa :: l)).
Context (Hout : same_outside pa (pm_mem s) (pm_mem s1)).

Lemma freed_tables pg x : table_page (pm_mem s) root pg -> in_page pg x ->
  load8 (pm_mem s1) x = load8 (pm_mem s) x.
Proof.
  intros (q & Hq & E) Hx. apply Hout.
  destruct (as_page _ _ _ _ Hwf a Ha Htf HV) as (Hv & _ & Ht). fold pa in Hv, Ht.
  destruct (wf_node _ _ _ _ (as_pt _ _ _ _ Hwf) q pg Hq E) as [Hvpg _].
  eapply (pages_disjoint kend pg pa); try done. intros ->. apply Ht. by exists q.
Qed.

Lemma unmap_free : same_hart (pm_hart s1) (pm_hart s) -> pm_lock s1 = pm_lock s ->
  let s' := set_mem (store64 (pm_mem s1) (slot (pm_mem s) root a) 0) s1 in
  as_step root [pa] s l s' (pa :: l) /\
  forall va, aligned_va va -> pte_at (pm_mem s') root va = if decide (va = a) then 0 else pte_at (pm_mem s) root va.
Proof.
  intros Hh Hlk. destruct (as_page _ _ _ _ Hwf a Ha Htf HV) as (Hv & _ & Ht). fold pa in Hv, Ht.
  assert (pt_wf (pm_mem s1) root (pa :: l)) as Hpt.
  { apply pt_wf_cons; [eapply pt_wf_frame; [apply Hwf|done|apply freed_tables]|].
    by rewrite (table_page_same (pm_mem s)) by apply freed_tables. }
  assert (slot (pm_mem s1) root a = slot (pm_mem s) root a) as Es.
  { unfold slot. rewrite (node_frame (pm_mem s)); [done|apply path_ok_2|apply freed_tables]. }
  assert (slot (pm_mem s1) root a <> 0) as Hslot1 by (by rewrite Es).
  pose proof (write_pte_evolves kend s1 root a 0 (pa :: l) Hok1 Hpt Hslot1) as Hev.
  assert (forall va, aligned_va va -> pte_at (store64 (pm_mem s1) (slot (pm_mem s1) root a) 0) root va =
    if decide (va = a) then 0 else pte_at (pm_mem s) root va) as Hpte.
  { intros va Hva. rewrite <- (pte_at_frame (pm_mem s) (pm_mem s1)) by apply freed_tables.
    destruct Ha, Hva. by apply (write_pte_at kend s1 root a 0 (pa :: l)). }
  rewrite <- Es. set (m' := store64 _ _ _) in *. split; [|done].
  assert (forall pg, table_page m' root pg -> table_page (pm_mem s) root pg) as Htab.
  { intros pg Hpg. apply (write_pte_table s1 (pa :: l)) in Hpg; [|done|done].
    by rewrite (table_page_same (pm_mem s)) in Hpg by apply freed_tables. }
  destruct Hev as [Ho Hw Hf Hn Hta Hm Hh2 Hl2]. cbn [set_mem pm_mem] in *. split; try done.
  - eapply as_wf_clear; [done|done|done|done|done|].
    intros p Hp. apply elem_of_cons in Hp as [->|Hp]; auto.
  - intros p Hp. apply elem_of_cons in Hp as [->|Hp]; [right; constructor|by left].
  - intros q pg Hq E. apply Hn; [done|]. by rewrite (node_frame (pm_mem s)) by (done || apply freed_tables).
  - intros pg Hpg. left. auto.
  - intros x Hx Htx. rewrite Hm.
    + apply Hout, Hx. right. constructor.
    + intros p Hp. apply Hx. apply elem_of_cons in Hp as [->|Hp]; [right; constructor|by left].
    + intros pg. rewrite (table_page_same (pm_mem s)) by apply freed_tables. apply Htx.
Qed.
End unmap_one.

Lemma as_step_weaken root G G' s l s' l' : (forall p, p ∈ G -> p ∈ G') ->
  as_step root G s l s' l' -> as_step root G' s l s' l'.
Proof.
  intros HG [Ho Ha Hf Hn Ht Hm Hh Hl]. split; try done.
  - intros p Hp. apply Hf in Hp as [Hp|Hp]; auto.
  - intros pg H. apply Ht in H as [H|[H|H]]; auto.
  - intros x Hx Ht'. apply Hm; [|done]. intros p [Hp|Hp]; apply Hx; auto.
Qed.

(** ** uvmunmap *)

(** The mapped pages among the first [k] from [a], the last one first. *)
Fixpoint backing (f : Z -> Z) (a : Z) (k : nat) : list Z :=
  match k with
  | O => []
  | S k => let e := f (a + Z.of_nat k * PGSIZE) in
           if has e PTE_V then PTE2PA e :: backing f a k else backing f a k
  end.

(** The mapping [f] without the [n] pages from [a]. *)
Definition unmap (f : Z -> Z) (a n : Z) (va : Z) : Z :=
  if (a <=? va) && (va <? a + n * PGSIZE) then 0 else f va.

Lemma unmap_snoc f a k va : a mod PGSIZE = 0 -> va mod PGSIZE = 0 -> 0 <= k ->
  unmap f a (k + 1) va = if decide (va = a + k * PGSIZE) then 0 else unmap f a k va.
Proof.
  intros Ha Hva Hk. unfold unmap. case_decide as E.
  - assert (((a <=? va) && (va <? a + (k + 1) * PGSIZE)) = true) as -> by (unfold PGSIZE in *; lia). done.
  - replace (va <? a + (k + 1) * PGSIZE) with (va <? a + k * PGSIZE); [done|].
    unfold PGSIZE in *. apply eq_true_iff_eq. rewrite !Z.ltb_lt. Z.div_mod_to_equations. lia.
Qed.

Lemma slot_step root G s l s' l' va : as_wf (pm_mem s) root l -> as_step root G s l s' l' ->
  slot (pm_mem s) root va <> 0 -> slot (pm_mem s') root va = slot (pm_mem s) root va.
Proof.
  intros Hwf Hst Hs. unfold slot in *. destruct (node (pm_mem s) root _) as [pg|] eqn:E; [|done].
  by rewrite (st_node _ _ _ _ _ _ Hst _ _ (path_ok_2 va) E).
Qed.

Definition leaf_pte (e : Z) : Prop := has e PTE_V = true -> PTE_FLAGS e <> PTE_V.

Section uvmunmap.
Context (s : pm) (root va : Z) (n : nat) (do_free : bool) (l : list Z).
Context (Hok : pm_ok s l) (Hwf : as_wf (pm_mem s) root l).
Context (Hal : va mod PGSIZE = 0) (Hva : 0 <= va) (Hmax : va + Z.of_nat n * PGSIZE <= MAXVA).
Context (Hfree : do_free = true -> va + Z.of_nat n * PGSIZE <= TRAPFRAME).
Context (Hpages : forall i, (i < n)%nat -> let a := va + Z.of_nat i * PGSIZE in
  slot (pm_mem s) root a <> 0 /\ leaf_pte (pte_at (pm_mem s) root a)).

Definition given (k : nat) : list Z :=
  if do_free then backing (pte_at (pm_mem s) root) va k else [].

Definition unmapped_upto (k : nat) (s1 : pm) : Prop :=
  as_step root (given k) s l s1 (given k ++ l) /\
  forall a, aligned_va a -> pte_at (pm_mem s1) root a = unmap (pte_at (pm_mem s) root) va (Z.of_nat k) a.

Lemma page_aligned k : (k < n)%nat -> aligned_va (va + Z.of_nat k * PGSIZE).
Proof. intros Hk. unfold aligned_va, PGSIZE in *. split; [Z.div_mod_to_equations; lia|lia]. Qed.

Lemma uvmunmap_keep k s1 : (k < n)%nat -> unmapped_upto k s1 ->
  has (pte_at (pm_mem s) root (va + Z.of_nat k * PGSIZE)) PTE_V = false -> unmapped_upto (S k) s1.
Proof.
  intros Hk [Hst Hpte] E. split.
  - unfold given in *. simpl. rewrite E. done.
  - intros a Ha. replace (Z.of_nat (S k)) with (Z.of_nat k + 1) by lia.
    rewrite unmap_snoc by (apply Ha || lia || done). rewrite Hpte by done. case_decide as Ed; [|done].
    subst a. unfold unmap. destruct (_ && _); [done|]. by apply (as_zero _ _ _ _ Hwf).
Qed.

Lemma unmapped_load k s1 (a := va + Z.of_nat k * PGSIZE) : (k < n)%nat -> unmapped_upto k s1 ->
  slot (pm_mem s1) root a = slot (pm_mem s) root a /\
  pte_at (pm_mem s1) root a = pte_at (pm_mem s) root a /\
  load64 (pm_mem s1) (slot (pm_mem s) root a) = pte_at (pm_mem s) root a.
Proof.
  intros Hk [Hst Hpte]. destruct (Hpages k Hk) as [Hslot _]. fold a in Hslot.
  assert (pte_at (pm_mem s1) root a = pte_at (pm_mem s) root a) as Epte.
  { rewrite Hpte by by apply page_aligned. unfold unmap. destruct (Z.ltb_spec a (va + Z.of_nat k * PGSIZE)); [lia|].
    by rewrite andb_false_r. }
  pose proof (slot_step _ _ _ _ _ _ _ Hwf Hst Hslot) as Es. split_and!; [done|done|].
  rewrite <- Es in Hslot |- *. by rewrite load_slot.
Qed.

Lemma uvmunmap_round k s1 (a := va + Z.of_nat k * PGSIZE) : (k < n)%nat -> unmapped_upto k s1 ->
  has (pte_at (pm_mem s) root a) PTE_V = true ->
  wp (((if do_free then kfree kend (PTE2PA (pte_at (pm_mem s) root a)) else ret tt);;
       modify (fun s0 => set_mem (store64 (pm_mem s0) (slot (pm_mem s) root a) 0) s0)) s1)
     (fun _ s2 => unmapped_upto (S k) s2).
Proof.
  intros Hk [Hst Hpte] HV. pose proof (page_aligned k Hk) as Ha. fold a in Ha.
  destruct (Hpages k Hk) as [Hslot _]. fold a in Hslot.
  destruct (unmapped_load k s1 Hk (conj Hst Hpte)) as (Es & Epte & _). fold a in Es, Epte.
  assert (forall f g : Z -> Z, (forall x, aligned_va x -> f x = if decide (x = a) then 0 else g x) ->
    (forall x, aligned_va x -> g x = unmap (pte_at (pm_mem s) root) va (Z.of_nat k) x) ->
    forall x, aligned_va x -> f x = unmap (pte_at (pm_mem s) root) va (Z.of_nat (S k)) x) as Hun.
  { intros f g Hf Hg x Hx. rewrite Hf by done. replace (Z.of_nat (S k)) with (Z.of_nat k + 1) by lia.
    rewrite unmap_snoc by (apply Hx || lia || done). fold a. case_decide; auto. }
  rewrite <- Epte in HV |- *. rewrite <- Es in Hslot |- *. unfold unmapped_upto, given in *.
  destruct do_free; kstep.
  - assert (a < TRAPFRAME) as Htf by (specialize (Hfree eq_refl); unfold a, PGSIZE in *; lia).
    destruct (as_page _ _ _ _ (st_as _ _ _ _ _ _ Hst) a Ha Htf HV) as (Hv & Hl & _).
    eapply wp_mono; [|eapply (kfree_ok kend); [done|apply Hst|done|done]].
    intros u s2 (Hok2 & Hout & Hh & Hlk). kstep.
    edestruct (unmap_free s1 root a) as [Hst2 Hpte2]; [apply Hst|done|done|done|done|done|done|by rewrite Hh; apply same_hart_touched|done|].
    split; [|by eapply Hun]. simpl. fold a. rewrite <- Epte, HV. simpl.
    eapply as_step_weaken; [|by eapply as_step_trans]. intros p.
    rewrite elem_of_app, !elem_of_cons, elem_of_nil. tauto.
  - kstep. kstep. destruct (unmap_keep s1 root a l) as [Hst2 Hpte2]; [apply Hst|apply Hst|done|done|].
    split; [|by eapply Hun]. by eapply (as_step_trans root [] []).
Qed.

Lemma uvmunmap_ok : wp (uvmunmap kend root va (Z.of_nat n) do_free s) (fun _ s' => unmapped_upto n s').
Proof.
  unfold uvmunmap. rewrite Hal. cbn [Z.eqb negb]. change MAXVA with (2 ^ 38) in *.
  rewrite u64_id by (unfold PGSIZE in *; lia).
  apply (wp_while _ (fun a s1 => exists k, (k <= n)%nat /\ a = va + Z.of_nat k * PGSIZE /\ unmapped_upto k s1)
    (fun a => Z.max 0 (2 ^ 39 - a))).
  - intros a s1 (k & Hk & -> & Hup). set (a := va + Z.of_nat k * PGSIZE).
    destruct (Z.ltb_spec a (va + Z.of_nat n * PGSIZE)) as [Hlt|Hge]; cbn [negb].
    2:{ kstep. by replace n with k by (unfold a, PGSIZE in *; lia). }
    assert (k < n)%nat as Hkn by (unfold a, PGSIZE in *; lia).
    pose proof (page_aligned k Hkn) as Ha. fold a in Ha. pose proof Ha as [_ Ha']. change MAXVA with (2 ^ 38) in Ha'.
    destruct (Hpages k Hkn) as [Hslot Hleaf]. fold a in Hslot, Hleaf.
    assert (u64 (a + PGSIZE) = va + Z.of_nat (S k) * PGSIZE) as Enext by (rewrite u64_id; unfold a, PGSIZE in *; lia).
    assert (va + Z.of_nat (S k) * PGSIZE = a + PGSIZE) as Enext' by (unfold a, PGSIZE; lia).
    destruct (unmapped_load k s1 Hkn Hup) as (Es & Epte & Eload). fold a in Es, Epte, Eload.
    kstep. rewrite walk_lookup by apply Ha. cbn [wp]. rewrite Es.
    destruct (Z.eqb_spec (slot (pm_mem s) root a) 0); [done|]. do 2 kstep. rewrite Eload.
    destruct (has (pte_at (pm_mem s) root a) PTE_V) eqn:HV; cbn [negb].
    + destruct (Z.eqb_spec (PTE_FLAGS (pte_at (pm_mem s) root a)) PTE_V); [by destruct Hleaf|].
      pose proof (wp_bind_inv _ _ _ _ (uvmunmap_round k s1 Hkn Hup HV)) as Hround. fold a in Hround.
      kstep. eapply wp_mono; [|exact Hround]. intros u s2 Hup2. apply wp_bind.
      eapply wp_mono; [|exact Hup2]. intros u' s3 Hup3. kstep. rewrite Enext. split; [|unfold PGSIZE in *; lia].
      exists (S k). split_and!; [lia|done|done].
    + kstep. rewrite Enext. split; [|unfold PGSIZE in *; lia]. exists (S k).
      split_and!; [lia|done|]. by apply uvmunmap_keep.
  - intros a s1 _. lia.
  - exists O. split_and!; [lia|lia|]. split; [unfold given; destruct do_free; by apply as_step_refl|].
    intros a _. unfold unmap. destruct (Z.leb_spec va a), (Z.ltb_spec a (va + Z.of_nat 0 * PGSIZE)); simpl; lia || done.
  - unfold budget. lia.
Qed.
End uvmunmap.

(** ** Taking, giving back and mapping one page *)

(** A page that the address space does not use. *)
Record fresh (m : gmap Z Z) (root : Z) (l : list Z) (p : Z) : Prop := {
  fr_valid : valid_page p;
  fr_free : p ∉ l;
  fr_table : ~ table_page m root p;
  fr_user : forall va, aligned_va va -> va < TRAPFRAME -> has (pte_at m root va) PTE_V = true ->
            PTE2PA (pte_at m root va) <> p
}.

Lemma page_write_tables m m' root p : ~ table_page m root p -> valid_page p ->
  (forall pg, table_page m root pg -> valid_page pg) -> same_outside p m m' ->
  forall pg x, table_page m root pg -> in_page pg x -> load8 m' x = load8 m x.
Proof.
  intros Hp Hv Hval [Hout] pg x Hpg Hx. apply Hout.
  eapply (pages_disjoint kend pg p); eauto. by intros ->.
Qed.

Lemma table_valid m root l pg : pt_wf m root l -> table_page m root pg -> valid_page pg.
Proof. intros Hwf (q & Hq & E). by destruct (wf_node _ _ _ _ Hwf q pg Hq E). Qed.

Lemma as_wf_sub m root l l' : as_wf m root l -> (forall p, p ∈ l' -> p ∈ l) -> as_wf m root l'.
Proof.
  intros [[H1 H1'] H2 H3 H4 H5] Hl. split; try done.
  - split; [|done]. intros q pg Hq E. destruct (H1 q pg Hq E). auto.
  - intros va Ha Ht HV. destruct (H2 va Ha Ht HV) as (?&?&?). simpl. split_and!; auto.
Qed.

Lemma fresh_head m root p l : as_wf m root (p :: l) -> NoDup (p :: l) -> valid_page p -> fresh m root l p.
Proof.
  intros Hwf Hnd Hv. apply NoDup_cons in Hnd as [Hpl _]. split; try done.
  - intros (q & Hq & E). destruct (wf_node _ _ _ _ (as_pt _ _ _ _ Hwf) q p Hq E) as [_ Hn].
    apply Hn. constructor.
  - intros va Ha Ht HV E. destruct (as_page _ _ _ _ Hwf va Ha Ht HV) as (_ & Hn & _). apply Hn. rewrite E. constructor.
Qed.

Section page.
Context (s s' : pm) (root p : Z) (l : list Z).
Context (Hout : same_outside p (pm_mem s) (pm_mem s')).
Context (Hh : same_hart (pm_hart s') (pm_hart s)) (Hlk : pm_lock s' = pm_lock s).

Lemma take_page : pm_ok s (p :: l) -> as_wf (pm_mem s) root (p :: l) -> pm_ok s' l ->
  as_step root [] s (p :: l) s' l /\ fresh (pm_mem s') root l p /\
  forall va, pte_at (pm_mem s') root va = pte_at (pm_mem s) root va.
Proof.
  intros Hok Hwf Hok'. pose proof (ok_valid _ _ _ Hok) as Hv. apply Forall_cons_iff in Hv as [Hv _].
  destruct (fresh_head _ _ _ _ Hwf (ok_nodup _ _ _ Hok) Hv) as [_ Hf Ht Hu].
  pose proof (page_write_tables _ _ root p Ht Hv (fun pg => table_valid _ _ _ pg (as_pt _ _ _ _ Hwf)) Hout) as Htab.
  assert (forall va, pte_at (pm_mem s') root va = pte_at (pm_mem s) root va) as Hpte by (intros; by apply pte_at_frame).
  split_and!; [split; try done| |done].
  - eapply as_wf_sub; [by eapply as_wf_same|]. intros. by constructor.
  - intros r Hr. left. by constructor.
  - intros q pg Hq E. by rewrite (node_frame (pm_mem s)).
  - intros pg Hpg. rewrite (table_page_same (pm_mem s)) in Hpg by done. by left.
  - intros x Hx _. apply Hout, Hx. left. constructor.
  - split; try done; [by rewrite (table_page_same (pm_mem s))|]. intros va. rewrite Hpte. apply Hu.
Qed.

Lemma give_page : pm_ok s' (p :: l) -> as_wf (pm_mem s) root l -> fresh (pm_mem s) root l p ->
  as_step root [p] s l s' (p :: l) /\ forall va, pte_at (pm_mem s') root va = pte_at (pm_mem s) root va.
Proof.
  intros Hok' Hwf [Hv Hf Ht Hu].
  pose proof (page_write_tables _ _ root p Ht Hv (fun pg => table_valid _ _ _ pg (as_pt _ _ _ _ Hwf)) Hout) as Htab.
  assert (forall va, pte_at (pm_mem s') root va = pte_at (pm_mem s) root va) as Hpte by (intros; by apply pte_at_frame).
  split; [split; try done|done].
  - pose proof (as_wf_same _ _ (pm_mem s') _ _ Hwf Htab) as [H1 H2 H3 H4 H5]. split; try done.
    + apply pt_wf_cons; [done|]. by rewrite (table_page_same (pm_mem s)).
    + intros va Ha Hta HV. destruct (H2 va Ha Hta HV) as (?&?&?). simpl. split_and!; try done.
      apply not_elem_of_cons. split; [|done]. rewrite Hpte in *. by apply Hu.
  - intros r Hr. apply elem_of_cons in Hr as [->|Hr]; [right; constructor|by left].
  - intros q pg Hq E. by rewrite (node_frame (pm_mem s)).
  - intros pg Hpg. rewrite (table_page_same (pm_mem s)) in Hpg by done. by left.
  - intros x Hx _. apply Hout, Hx. right. constructor.
Qed.
End page.

Lemma fresh_evolves s l s' l' root p :
  fresh (pm_mem s) root l p -> evolves root s l s' l' ->
  (forall va, pte_at (pm_mem s') root va = pte_at (pm_mem s) root va) -> fresh (pm_mem s') root l' p.
Proof.
  intros [Hv Hf Ht Hu] Hev Hpte. split.
  - done.
  - destruct (ev_free _ _ _ _ _ _ Hev) as [u ->]. intros Hp. apply Hf, elem_of_app. by right.
  - intros Hp. apply (ev_table _ _ _ _ _ _ Hev) in Hp as [Hp|Hp]; done.
  - intros va. rewrite Hpte. apply Hu.
Qed.

Lemma as_wf_evolves s l s' l' root : as_wf (pm_mem s) root l -> evolves root s l s' l' ->
  (forall va, aligned_va va -> pte_at (pm_mem s') root va = pte_at (pm_mem s) root va) ->
  as_wf (pm_mem s') root l'.
Proof.
  intros [H1 H2 H3 H4 H5] Hev Hpte. split.
  - apply Hev.
  - intros va Ha Ht HV. rewrite Hpte in * by done. destruct (H2 va Ha Ht HV) as (?&?&?). simpl. split_and!; [done|..].
    + destruct (ev_free _ _ _ _ _ _ Hev) as [u ->]. rewrite elem_of_app in *. tauto.
    + intros Hp. apply (ev_table _ _ _ _ _ _ Hev) in Hp as [Hp|Hp]; done.
  - intros va va' Ha Ha'. rewrite !Hpte by done. by apply H3.
  - intros va Ha. rewrite Hpte by done. by apply H4.
  - intros va Ha. rewrite Hpte by done. by apply H5.
Qed.

Lemma pte_of_facts p perm : valid_page p -> 0 <= perm < 1024 ->
  PTE2PA (pte_of p perm) = p /\ PTE_FLAGS (pte_of p perm) = Z.lor perm PTE_V /\ has (pte_of p perm) PTE_V = true.
Proof.
  intros Hp Hperm. pose proof (valid_page_pos kend kend_range p Hp). pose proof (lor_flags perm Hperm).
  unfold pte_of. rewrite <- Z.lor_assoc. split_and!.
  - apply PTE2PA_build; [lia|apply Hp|done].
  - apply PTE_FLAGS_build; [lia|done].
  - by rewrite has_V, <- Z.bit0_odd, !Z.lor_spec, !orb_true_r.
Qed.

Lemma map_page s l s' l' root a p perm : as_wf (pm_mem s) root l -> fresh (pm_mem s) root l p ->
  evolves root s l s' l' -> aligned_va a -> a < TRAPFRAME -> 0 <= perm < 1024 ->
  (forall va, aligned_va va -> pte_at (pm_mem s') root va =
     if decide (va = a) then pte_of p perm else pte_at (pm_mem s) root va) ->
  as_step root [] s l s' l'.
Proof.
  intros Hwf [Hv Hf Ht Hu] Hev Ha Htf Hperm Hpte. apply evolves_step; [done|].
  destruct (pte_of_facts p perm Hv Hperm) as (Epa & _ & EV). destruct Hwf as [H1 H2 H3 H4 H5].
  assert (forall q, q ∈ l' -> q ∈ l) as Hl.
  { destruct (ev_free _ _ _ _ _ _ Hev) as [u ->]. intros. apply elem_of_app. by right. }
  assert (forall pg, table_page (pm_mem s') root pg -> table_page (pm_mem s) root pg \/ pg ∈ l) as Htab.
  { apply Hev. }
  split; [apply Hev|..].
  - intros va Hva Hta HV. rewrite Hpte in * by done. case_decide; simpl.
    + rewrite Epa. split_and!; [done|auto|]. intros Hp. apply Htab in Hp as [Hp|Hp]; done.
    + destruct (H2 va Hva Hta HV) as (?&?&?). split_and!; [done|auto|]. intros Hp. apply Htab in Hp as [Hp|Hp]; done.
  - intros va va' Hva Hva' Hta Hta'. rewrite !Hpte by done. do 2 case_decide; subst; rewrite ?Epa; try done.
    + intros _ HV' E. by destruct (Hu va').
    + intros HV _ E. by destruct (Hu va).
    + by apply H3.
  - intros va Hva Hta. rewrite Hpte by done. case_decide; [subst; lia|auto].
  - intros va Hva. rewrite Hpte by done. case_decide; [by rewrite EV|auto].
Qed.

(** ** uvmdealloc *)
Definition pages_between (lo hi : Z) : nat := Z.to_nat ((PGROUNDUP hi - PGROUNDUP lo) / PGSIZE).

Lemma PGROUNDUP_user sz : 0 <= sz <= TRAPFRAME ->
  PGROUNDUP sz mod PGSIZE = 0 /\ sz <= PGROUNDUP sz < sz + PGSIZE /\ PGROUNDUP sz <= TRAPFRAME.
Proof.
  change TRAPFRAME with (2 ^ 38 - 2 * 4096). intros H. destruct (PGROUNDUP_spec sz) as [Ha Hb]; [unfold PGSIZE; lia|].
  split_and!; [done|lia|lia|]. unfold PGSIZE in *. Z.div_mod_to_equations. lia.
Qed.

Lemma pages_between_spec lo hi : 0 <= lo <= TRAPFRAME -> 0 <= hi <= TRAPFRAME ->
  PGROUNDUP lo <= PGROUNDUP hi -> PGROUNDUP lo + Z.of_nat (pages_between lo hi) * PGSIZE = PGROUNDUP hi.
Proof.
  intros Hlo Hhi Hle. destruct (PGROUNDUP_user lo Hlo) as (H1 & _). destruct (PGROUNDUP_user hi Hhi) as (H2 & _).
  unfold pages_between. rewrite Z2Nat.id by (apply Z.div_pos; unfold PGSIZE in *; lia).
  unfold PGSIZE in *. Z.div_mod_to_equations. lia.
Qed.

Lemma unmap_0 f a va : unmap f a 0 va = f va.
Proof. unfold unmap. destruct (Z.leb_spec a va), (Z.ltb_spec va (a + 0 * PGSIZE)); simpl; lia || done. Qed.

Lemma uvmdealloc_ok s l root oldsz newsz (a0 := PGROUNDUP newsz) (n := pages_between newsz oldsz) :
  pm_ok s l -> as_wf (pm_mem s) root l -> 0 <= newsz <= TRAPFRAME -> 0 <= oldsz <= TRAPFRAME ->
  (forall a, aligned_va a -> a0 <= a < PGROUNDUP oldsz ->
     slot (pm_mem s) root a <> 0 /\ leaf_pte (pte_at (pm_mem s) root a)) ->
  wp (uvmdealloc kend root oldsz newsz s) (fun r s' => r = Z.min oldsz newsz /\
    unmapped_upto s root a0 true l n s').
Proof.
  intros Hok Hwf Hnew Hold Hpages. unfold uvmdealloc.
  destruct (PGROUNDUP_user newsz Hnew) as (Ha & Hb & Hc). destruct (PGROUNDUP_user oldsz Hold) as (Ha' & Hb' & Hc').
  fold a0 in Ha, Hb, Hc |- *.
  assert (PGROUNDUP oldsz <= a0 -> unmapped_upto s root a0 true l n s) as Hnone.
  { intros Hle. replace n with O.
    - split; [by apply as_step_refl|]. intros a _. by rewrite unmap_0.
    - unfold n, pages_between. fold a0. unfold PGSIZE in *. Z.div_mod_to_equations. lia. }
  destruct (Z.leb_spec oldsz newsz) as [Hle|Hgt].
  - kstep. split; [lia|]. apply Hnone. unfold a0, PGSIZE in *. Z.div_mod_to_equations. lia.
  - kstep. destruct (Z.ltb_spec a0 (PGROUNDUP oldsz)) as [Hlt|Hge].
    + pose proof (pages_between_spec newsz oldsz Hnew Hold ltac:(lia)) as Hn. fold n a0 in Hn.
      change TRAPFRAME with (2 ^ 38 - 2 * 4096) in *.
      replace (u64 (s32 ((PGROUNDUP oldsz - a0) / PGSIZE))) with (Z.of_nat n).
      2:{ replace ((PGROUNDUP oldsz - a0) / PGSIZE) with (Z.of_nat n).
          - rewrite s32_id, u64_id; unfold PGSIZE in *; lia.
          - unfold PGSIZE in *. rewrite <- Hn. Z.div_mod_to_equations. lia. }
      eapply wp_mono; [|apply (uvmunmap_ok s root a0 n true l)]; try done; try lia.
      * intros u s' Hs'. kstep. split; [lia|done].
      * change MAXVA with (2 ^ 38). unfold PGSIZE in *. lia.
      * intros _. change TRAPFRAME with (2 ^ 38 - 2 * 4096). lia.
      * intros i Hi. apply Hpages; unfold aligned_va, PGSIZE in *; change MAXVA with (2 ^ 38);
          [split; [Z.div_mod_to_equations; lia|lia]|lia].
    + do 2 kstep. split; [lia|]. apply Hnone. lia.
Qed.

(** ** Allocating, filling and mapping one page: the rounds of uvmalloc and uvmcopy *)
Lemma page_count_1 a : a mod PGSIZE = 0 -> page_count a PGSIZE = 1.
Proof.
  intros Ha. unfold page_count. rewrite !PGROUNDDOWN_spec. unfold PGSIZE in *. Z.div_mod_to_equations. lia.
Qed.

Lemma remap_1 f a pa perm va : a mod PGSIZE = 0 -> va mod PGSIZE = 0 ->
  remap f a 1 pa perm va = if decide (va = a) then pte_of pa perm else f va.
Proof.
  intros Ha Hva. replace 1 with (0 + 1) by lia. rewrite remap_snoc by (done || lia).
  rewrite Z.mul_0_l, !Z.add_0_r. case_decide; [done|]. unfold remap.
  destruct (Z.leb_spec a va), (Z.ltb_spec va (a + 0 * PGSIZE)); simpl; lia || done.
Qed.

Lemma fresh_apart s l root p x : pm_ok s l -> as_wf (pm_mem s) root l -> fresh (pm_mem s) root l p -> in_page p x ->
  (forall q, q ∈ l -> ~ in_page q x) /\ (forall pg, table_page (pm_mem s) root pg -> ~ in_page pg x).
Proof.
  intros Hok Hwf [Hv Hf Ht Hu] Hx. pose proof (ok_valid _ _ _ Hok) as Hl. rewrite Forall_forall in Hl. split.
  - intros q Hq. eapply (pages_disjoint kend p q); eauto. by intros ->.
  - intros pg Hpg. eapply (pages_disjoint kend p pg); eauto using table_valid, as_pt. by intros ->.
Qed.

(** [mappages] of one fresh page. *)
Lemma map_fresh s l root a p perm : pm_ok s l -> as_wf (pm_mem s) root l -> fresh (pm_mem s) root l p ->
  aligned_va a -> a < TRAPFRAME -> has (pte_at (pm_mem s) root a) PTE_V = false -> 0 <= perm < 1024 ->
  wp (mappages root a PGSIZE p perm s) (fun r s' => exists l', as_step root [] s l s' l' /\
    (forall x, in_page p x -> load8 (pm_mem s') x = load8 (pm_mem s) x) /\
    (r = 0 /\ Z.of_nat (length l) <= Z.of_nat (length l') + 2 /\
       (forall va, aligned_va va -> pte_at (pm_mem s') root va =
          if decide (va = a) then pte_of p perm else pte_at (pm_mem s) root va) \/
     r = -1 /\ Z.of_nat (length l) < 2 /\ fresh (pm_mem s') root l' p /\
       forall va, aligned_va va -> pte_at (pm_mem s') root va = pte_at (pm_mem s) root va)).
Proof.
  intros Hok Hwf Hfr Ha Htf HV Hperm. pose proof Ha as [Ha1 Ha2].
  pose proof (valid_page_pos kend kend_range p (fr_valid _ _ _ _ Hfr)) as Hpos.
  assert (page_count a PGSIZE = 1) as Hn by by apply page_count_1.
  eapply wp_mono; [|apply (mappages_ok kend kend_range s l root a PGSIZE p perm)]; try done; try lia.
  - rewrite Hn, PGROUNDDOWN_id by done. intros r s' (l' & k & Hev & Hk & Hpte & Hr). exists l'.
    assert (forall x, in_page p x -> load8 (pm_mem s') x = load8 (pm_mem s) x) as Hsame.
    { intros x Hx. destruct (fresh_apart s l root p x Hok Hwf Hfr Hx). by apply (ev_frame _ _ _ _ _ _ Hev). }
    destruct Hr as [(-> & -> & Hlen)|(-> & Hk1 & -> & Hlen)].
    + assert (forall va, aligned_va va -> pte_at (pm_mem s') root va =
          if decide (va = a) then pte_of p perm else pte_at (pm_mem s) root va) as Hpte'.
      { intros va Hva. rewrite Hpte by done. apply remap_1; [done|apply Hva]. }
      split_and!; [by eapply map_page|done|]. left. split_and!; [done|lia|done].
    + assert (k = 0) as -> by lia.
      assert (forall va, aligned_va va -> pte_at (pm_mem s') root va = pte_at (pm_mem s) root va) as Hpte'.
      { intros va Hva. rewrite Hpte by done. unfold remap.
        destruct (Z.leb_spec a va), (Z.ltb_spec va (a + 0 * PGSIZE)); simpl; lia || done. }
      split_and!; [|done|].
      * apply evolves_step; [done|]. by eapply as_wf_evolves.
      * right. split_and!; [done|lia| |done]. destruct Hfr as [Hv Hf Ht Hu]. split; [done|by apply not_elem_of_nil| |].
        -- intros Hp. apply (ev_table _ _ _ _ _ _ Hev) in Hp as [Hp|Hp]; done.
        -- intros va Hva. rewrite Hpte' by done. by apply Hu.
  - apply Hwf.
  - change TRAPFRAME with (2 ^ 38 - 2 * 4096) in *. change MAXVA with (2 ^ 38). unfold PGSIZE. lia.
  - rewrite Hn. unfold PGSIZE. destruct Hfr as [[_ Hr] _ _ _]. change PHYSTOP with 0x88000000 in *. lia.
  - rewrite Hn, PGROUNDDOWN_id by done. intros va [Hva _] Hr. replace va with a; [done|].
    unfold PGSIZE in *. Z.div_mod_to_equations. lia.
Qed.

Section alloc_round.
Context {X : Type} (s : pm) (l : list Z) (root a perm : Z) (fill : gmap Z Z -> Z -> gmap Z Z).
Context (fail succ : K pm X) (Q : X -> pm -> Prop).
Context (Hok : pm_ok s l) (Hwf : as_wf (pm_mem s) root l) (Ha : aligned_va a) (Htf : a < TRAPFRAME).
Context (HV : has (pte_at (pm_mem s) root a) PTE_V = false) (Hperm : 0 <= perm < 1024).
Context (Hfill : forall m p, mem_ok m -> mem_ok (fill m p) /\ same_outside p m (fill m p)).
Context (Hfail : forall s' l', as_step root [] s l s' l' ->
  (forall va, aligned_va va -> pte_at (pm_mem s') root va = pte_at (pm_mem s) root va) ->
  Z.of_nat (length l) < 3 -> wp (fail s') Q).
Context (Hsucc : forall s' l' p m1, as_step root [] s l s' l' ->
  Z.of_nat (length l) <= Z.of_nat (length l') + 3 -> p ∈ l -> mem_ok m1 -> same_outside p (pm_mem s) m1 ->
  (forall x, in_page p x -> load8 (pm_mem s') x = load8 (fill m1 p) x) ->
  (forall va, aligned_va va -> pte_at (pm_mem s') root va =
     if decide (va = a) then pte_of p perm else pte_at (pm_mem s) root va) -> wp (succ s') Q).

Lemma alloc_round :
  wp ((mem <- kalloc;;
       if mem =? 0 then fail else
       modify (fun s => set_mem (fill (pm_mem s) mem) s);;
       r <- mappages root a PGSIZE mem perm;;
       if negb (r =? 0) then kfree kend mem;; fail else succ) s) Q.
Proof.
  kstep. kcall (kalloc_ok kend kend_range). intros r s1 (Hh & Hlk & Hr).
  assert (same_hart (pm_hart s1) (pm_hart s)) as Hsh by (rewrite Hh; apply same_hart_touched).
  destruct l as [|p l'].
  - destruct Hr as (-> & Hok1 & Hm). simpl. apply (Hfail s1 []); [|by rewrite Hm|simpl; lia].
    split; rewrite ?Hm; try done; intros; by left.
  - destruct Hr as (-> & Hok1 & Hout & _).
    assert (valid_page p) as Hp by (pose proof (ok_valid _ _ _ Hok) as Hv; by apply Forall_cons_iff in Hv as [Hv _]).
    destruct (Z.eqb_spec p 0); [apply valid_page_pos in Hp; [lia|done]|]. do 2 kstep.
    destruct (Hfill (pm_mem s1) p (ok_mem _ _ _ Hok1)) as [Hfm Hfo]. set (s2 := set_mem _ s1).
    assert (same_outside p (pm_mem s) (pm_mem s2)) as Hout2.
    { split. intros x Hx. simpl. destruct Hout as [Hout], Hfo as [Hfo]. by rewrite Hfo, Hout. }
    pose proof (fresh_head _ _ _ _ Hwf (ok_nodup _ _ _ Hok) Hp) as Hfr0.
    assert (pm_ok s2 l') as Hok2.
    { apply (pm_ok_write kend s1 l' _ [p]); [done|done| |].
      - intros q Hq. apply list_elem_of_singleton in Hq as ->. split; [done|apply Hfr0].
      - intros x Hx. apply Hfo. apply Hx. constructor. }
    assert (pm_mem s2 = fill (pm_mem s1) p) as Hm2 by done.
    destruct (take_page s s2 root p l' Hout2 Hsh Hlk Hok Hwf Hok2) as (Hst & Hfr & Hpte). clearbody s2.
    kstep. eapply wp_mono; [|apply (map_fresh s2 l' root a p perm);
      [done|apply Hst|done|done|done|by rewrite Hpte|done]].
    intros r s3 (l3 & Hst3 & Hsame & Hr). pose proof (as_step_trans _ _ _ _ _ _ _ _ _ Hst Hst3) as Hst'.
    destruct Hr as [(-> & Hlen & Hpte3)|(-> & Hlen & Hfr3 & Hpte3)]; cbn [Z.eqb negb].
    + apply (Hsucc s3 l3 p (pm_mem s1)); [done|simpl length; lia|constructor|apply Hok1|done| |].
      * by rewrite <- Hm2.
      * intros va Hva. by rewrite Hpte3, Hpte.
    + kstep. eapply wp_mono; [|eapply (kfree_ok kend kend_range); [apply Hst3|done|apply Hfr3]].
      intros u s4 (Hok4 & Hout4 & Hh4 & Hlk4).
      destruct (give_page s3 s4 root p l3 Hout4) as [Hst4 Hpte4];
        [rewrite Hh4; apply same_hart_touched|done|done|apply Hst3|done|].
      apply (Hfail s4 (p :: l3)).
      * eapply (as_step_absorb root [p]); [|by eapply (as_step_trans root [] [p])].
        intros q Hq. apply list_elem_of_singleton in Hq as ->. constructor.
      * intros va Hva. by rewrite Hpte4, Hpte3, Hpte.
      * simpl length. lia.
Qed.
End alloc_round.

(** ** uvmalloc *)
Lemma elem_backing f a k p : p ∈ backing f a k <->
  exists i, (i < k)%nat /\ has (f (a + Z.of_nat i * PGSIZE)) PTE_V = true /\ p = PTE2PA (f (a + Z.of_nat i * PGSIZE)).
Proof.
  induction k as [|k IH]; cbn [backing].
  - rewrite elem_of_nil. split; [done|]. intros (i & Hi & _). lia.
  - split.
    + destruct (has _ _) eqn:E; [rewrite elem_of_cons; intros [->|Hp]|intros Hp].
      1: by exists k; auto with lia.
      all: apply IH in Hp as (i & Hi & H); exists i; auto with lia.
    + intros (i & Hi & HV & ->). destruct (decide (i = k)) as [->|].
      * rewrite HV. constructor.
      * assert (PTE2PA (f (a + Z.of_nat i * PGSIZE)) ∈ backing f a k) by (apply IH; exists i; auto with lia).
        destruct (has (f (a + Z.of_nat k * PGSIZE)) PTE_V); [by constructor|done].
Qed.

Definition RWXU : Z := Z.lor (Z.lor (Z.lor PTE_W PTE_X) PTE_R) PTE_U.

(** Between [s] and [s'] the pages from [lo] up to [hi] were mapped to distinct
    zeroed pages that were free, and the other mappings stay. *)
Definition grown (root lo hi : Z) (s : pm) (l : list Z) (s' : pm) : Prop :=
  forall a, aligned_va a ->
    if (lo <=? a) && (a <? hi)
    then exists p, p ∈ l /\ pte_at (pm_mem s') root a = pte_of p RWXU /\
                   forall x, in_page p x -> load8 (pm_mem s') x = 0
    else pte_at (pm_mem s') root a = pte_at (pm_mem s) root a.

(** A mapped page keeps its contents in a step that gives nothing back. *)
Lemma step_page_kept root s l s' l' a x : pm_ok s l -> as_wf (pm_mem s) root l -> as_step root [] s l s' l' ->
  aligned_va a -> a < TRAPFRAME -> has (pte_at (pm_mem s) root a) PTE_V = true ->
  in_page (PTE2PA (pte_at (pm_mem s) root a)) x -> load8 (pm_mem s') x = load8 (pm_mem s) x.
Proof.
  intros Hok Hwf Hst Ha Htf HV Hx. destruct (as_page _ _ _ _ Hwf a Ha Htf HV) as (Hv & Hl & Ht).
  pose proof (ok_valid _ _ _ Hok) as Hvl. rewrite Forall_forall in Hvl. apply (st_frame _ _ _ _ _ _ Hst).
  - intros p [Hp|Hp]; [|by apply elem_of_nil in Hp]. eapply (pages_disjoint kend _ p x Hv); eauto. by intros <-.
  - intros pg Hpg. eapply (pages_disjoint kend _ pg x Hv); eauto using table_valid, as_pt. by intros <-.
Qed.

Lemma has_slot m root a : has (pte_at m root a) PTE_V = true -> forall l, pt_wf m root l -> slot m root a <> 0.
Proof.
  intros HV l Hwf E. apply (slot_zero kend kend_range m root l) in E; [|done].
  unfold pte_at in HV. by rewrite E in HV.
Qed.

Lemma memset_fill m p : mem_ok m -> mem_ok (memset m p 0 PGSIZE) /\ same_outside p m (memset m p 0 PGSIZE).
Proof.
  intros Hm. split; [by apply mem_ok_memset|]. split. intros x Hx.
  rewrite load8_memset by (unfold PGSIZE; lia). case_decide; [|done]. unfold in_page in Hx. lia.
Qed.

Section uvmalloc.
Context (s : pm) (l : list Z) (root oldsz newsz : Z) (a0 := PGROUNDUP oldsz).
Context (Hok : pm_ok s l) (Hwf : as_wf (pm_mem s) root l) (Hsz : 0 <= oldsz <= newsz) (Hnew : newsz <= TRAPFRAME).
Context (Hnone : forall a, aligned_va a -> a0 <= a < newsz -> has (pte_at (pm_mem s) root a) PTE_V = false).

Definition alloc_failed (s' : pm) (l' : list Z) : Prop :=
  as_step root [] s l s' l' /\
  forall va, aligned_va va -> pte_at (pm_mem s') root va = pte_at (pm_mem s) root va.

(** What a failing round does with the pages mapped so far. *)
Lemma uvmalloc_undo s1 l1 a : as_step root [] s l s1 l1 -> grown root a0 a s l s1 -> aligned_va a -> a0 <= a < newsz ->
  wp (uvmdealloc kend root a a0 s1) (fun _ s' => exists l', alloc_failed s' l').
Proof.
  intros Hst Hgr Ha Har. destruct (PGROUNDUP_user oldsz) as (H1 & H2 & H3); [lia|]. fold a0 in H1, H2, H3.
  assert (forall b, b mod PGSIZE = 0 -> 0 <= b <= TRAPFRAME -> PGROUNDUP b = b) as Hround.
  { intros b Hb Hbr. destruct (PGROUNDUP_user b Hbr) as (H4 & H5 & _).
    unfold PGSIZE in *. Z.div_mod_to_equations. lia. }
  assert (PGROUNDUP a0 = a0) as E0 by (apply Hround; [done|lia]).
  assert (PGROUNDUP a = a) as Ea by (apply Hround; [apply Ha|lia]).
  assert (forall b, aligned_va b -> a0 <= b < a -> exists p, p ∈ l /\ pte_at (pm_mem s1) root b = pte_of p RWXU) as Hin.
  { intros b Hb Hbr. specialize (Hgr b Hb). destruct (Z.leb_spec a0 b), (Z.ltb_spec b a); try lia.
    destruct Hgr as (p & Hp & E & _). eauto. }
  assert (forall p, p ∈ l -> valid_page p) as Hval.
  { pose proof (ok_valid _ _ _ Hok) as Hv. by rewrite Forall_forall in Hv. }
  eapply wp_mono; [|apply (uvmdealloc_ok s1 l1 root a a0); [apply Hst|apply Hst|lia|lia|]].
  - rewrite E0. intros r s' (_ & Hst' & Hpte). eexists. split.
    + eapply as_step_absorb; [|eapply (as_step_trans root [] _ _ _ _ _ _ _ Hst Hst')].
      intros p Hp. apply elem_backing in Hp as (i & Hi & HV & ->).
      pose proof (pages_between_spec a0 a) as Hn. rewrite E0, Ea in Hn. specialize (Hn ltac:(lia) ltac:(lia) ltac:(lia)).
      destruct (Hin (a0 + Z.of_nat i * PGSIZE)) as (q & Hq & ->).
      * destruct Ha. unfold aligned_va, PGSIZE in *. split; [Z.div_mod_to_equations; lia|lia].
      * unfold PGSIZE in *. lia.
      * destruct (pte_of_facts q RWXU) as (-> & _); [auto|by vm_compute|done].
    + intros va Hva. rewrite Hpte by done. unfold unmap.
      pose proof (pages_between_spec a0 a) as Hn. rewrite E0, Ea in Hn. specialize (Hn ltac:(lia) ltac:(lia) ltac:(lia)).
      rewrite Hn. specialize (Hgr va Hva). destruct (Z.leb_spec a0 va), (Z.ltb_spec va a); simpl in *; try done.
      symmetry. apply (as_zero _ _ _ _ Hwf); [done|]. apply Hnone; [done|lia].
  - rewrite E0, Ea. intros b Hb Hbr. destruct (Hin b Hb Hbr) as (p & Hp & E).
    destruct (pte_of_facts p RWXU) as (_ & EF & EV); [auto|by vm_compute|]. rewrite <- E in EF, EV. split.
    + eapply has_slot; [done|apply Hst].
    + intros _. rewrite EF. by vm_compute.
Qed.

Lemma grown_kept s1 l1 s2 l2 b q x : as_step root [] s l s1 l1 -> as_step root [] s1 l1 s2 l2 ->
  aligned_va b -> b < TRAPFRAME -> q ∈ l -> pte_at (pm_mem s1) root b = pte_of q RWXU -> in_page q x ->
  load8 (pm_mem s2) x = load8 (pm_mem s1) x.
Proof.
  intros Hst Hst2 Hb Htf Hq Eq Hx. pose proof (ok_valid _ _ _ Hok) as Hv. rewrite Forall_forall in Hv.
  destruct (pte_of_facts q RWXU (Hv q Hq)) as (EP & _ & EV); [by vm_compute|].
  apply (step_page_kept root s1 l1 s2 l2 b x); [apply Hst|apply Hst|done|done|done|..]; by rewrite ?Eq, ?EP.
Qed.

Lemma grown_step s1 l1 s2 l2 a p : as_step root [] s l s1 l1 -> grown root a0 a s l s1 -> aligned_va a -> a0 <= a < newsz ->
  as_step root [] s1 l1 s2 l2 -> p ∈ l -> (forall x, in_page p x -> load8 (pm_mem s2) x = 0) ->
  (forall va, aligned_va va -> pte_at (pm_mem s2) root va =
     if decide (va = a) then pte_of p RWXU else pte_at (pm_mem s1) root va) ->
  grown root a0 (a + PGSIZE) s l s2.
Proof.
  intros Hst Hgr Ha Har Hst2 Hp Hzero Hpte b Hb. rewrite Hpte by done. specialize (Hgr b Hb).
  case_decide as E.
  - subst b. destruct (Z.leb_spec a0 a), (Z.ltb_spec a (a + PGSIZE)); try (unfold PGSIZE in *; lia). simpl. eauto.
  - replace (b <? a + PGSIZE) with (b <? a).
    + destruct ((a0 <=? b) && (b <? a)) eqn:Er; [|done]. destruct Hgr as (q & Hq & Eq & Hqz).
      exists q. split_and!; [done|done|]. intros x Hx. rewrite <- (Hqz x Hx).
      apply (grown_kept s1 l1 s2 l2 b q x); try done. lia.
    + destruct Ha as [Ha _], Hb as [Hb _]. unfold PGSIZE in *. apply eq_true_iff_eq. rewrite !Z.ltb_lt.
      Z.div_mod_to_equations. lia.
Qed.

Lemma uvmalloc_ok : wp (uvmalloc kend root oldsz newsz s) (fun r s' => exists l', as_step root [] s l s' l' /\
  (r = newsz /\ grown root a0 newsz s l s' \/
   r = 0 /\ Z.of_nat (length l) < 3 * Z.of_nat (pages_between oldsz newsz) /\
   forall va, aligned_va va -> pte_at (pm_mem s') root va = pte_at (pm_mem s) root va)).
Proof.
  unfold uvmalloc. destruct (Z.ltb_spec newsz oldsz); [lia|]. fold a0.
  destruct (PGROUNDUP_user oldsz) as (H1 & H2 & H3); [lia|]. fold a0 in H1, H2, H3.
  destruct (PGROUNDUP_user newsz) as (N1 & N2 & N3); [lia|].
  assert (a0 <= PGROUNDUP newsz) as Hmono by (unfold PGSIZE in *; Z.div_mod_to_equations; lia).
  pose proof (pages_between_spec oldsz newsz ltac:(lia) ltac:(lia) Hmono) as Hn. fold a0 in Hn.
  change TRAPFRAME with (2 ^ 38 - 2 * 4096) in *.
  apply (wp_while _ (fun a s1 => exists k l1, 0 <= k /\ a = a0 + k * PGSIZE /\ a <= PGROUNDUP newsz /\
      as_step root [] s l s1 l1 /\ grown root a0 a s l s1 /\ Z.of_nat (length l) <= Z.of_nat (length l1) + 3 * k)
    (fun a => Z.max 0 (2 ^ 39 - a))).
  - intros a s1 (k & l1 & Hk & Ea & Har & Hst & Hgr & Hlen). destruct (Z.ltb_spec a newsz) as [Hlt|Hge]; cbn [negb].
    2:{ kstep. exists l1. split; [done|left]. split; [done|]. intros b Hb. specialize (Hgr b Hb).
        replace (b <? newsz) with (b <? a); [done|]. destruct Hb as [Hb _]. unfold PGSIZE in *.
        apply eq_true_iff_eq. rewrite !Z.ltb_lt. Z.div_mod_to_equations. lia. }
    assert (aligned_va a) as Ha.
    { unfold aligned_va, PGSIZE in *. change MAXVA with (2 ^ 38). split; [Z.div_mod_to_equations; lia|lia]. }
    assert (k < Z.of_nat (pages_between oldsz newsz)) as Hkn by (unfold PGSIZE in *; lia).
    assert (a0 <= a) by (unfold PGSIZE in *; lia).
    assert (has (pte_at (pm_mem s1) root a) PTE_V = false) as HV.
    { specialize (Hgr a Ha). destruct (Z.ltb_spec a a); [lia|]. rewrite andb_false_r in Hgr. rewrite Hgr. by apply Hnone. }
    apply (alloc_round s1 l1 root a RWXU (fun m p => memset m p 0 PGSIZE)).
    + apply Hst.
    + apply Hst.
    + done.
    + change TRAPFRAME with (2 ^ 38 - 2 * 4096). lia.
    + done.
    + by vm_compute.
    + intros. by apply memset_fill.
    + intros s2 l2 Hst2 Hpte2 Hlen2. kstep.
      pose proof (as_step_trans _ _ _ _ _ _ _ _ _ Hst Hst2 : as_step root [] s l s2 l2) as Hst'.
      eapply wp_mono; [|apply (uvmalloc_undo s2 l2 a); [done| |done|lia]].
      * intros r s3 (l3 & Hst3 & Hpte3). kstep. exists l3. split; [done|]. right. split_and!; [done|lia|done].
      * intros b Hb. specialize (Hgr b Hb). rewrite Hpte2 by done.
        destruct ((a0 <=? b) && (b <? a)) eqn:Er; [|done]. destruct Hgr as (q & Hq & Eq & Hqz).
        exists q. split_and!; [done|done|]. intros x Hx. rewrite <- (Hqz x Hx).
        apply (grown_kept s1 l1 s2 l2 b q x); try done.
        change TRAPFRAME with (2 ^ 38 - 2 * 4096). lia.
    + intros s2 l2 p m1 Hst2 Hlen2 Hp _ Hout Hcont Hpte2. kstep. rewrite u64_id by (unfold PGSIZE in *; lia).
      split; [|unfold PGSIZE in *; lia].
      exists (k + 1), l2. split_and!; [lia|unfold PGSIZE in *; lia| |by eapply (as_step_trans root [] [])| |lia].
      * destruct Ha as [Ha _]. unfold PGSIZE in *. Z.div_mod_to_equations. lia.
      * apply (grown_step s1 l1 s2 l2 a p); [done|done|done|lia|done| | |done].
        -- destruct (st_free _ _ _ _ _ _ Hst p Hp) as [H'|H']; [done|by apply elem_of_nil in H'].
        -- intros x Hx. rewrite Hcont by done. rewrite load8_memset by (unfold PGSIZE; lia).
           case_decide; [done|]. unfold in_page in Hx. lia.
  - intros a s1 _. lia.
  - exists 0, l. split_and!; [lia|lia|lia|by apply as_step_refl| |lia]. intros b Hb.
    destruct (Z.leb_spec a0 b), (Z.ltb_spec b a0); simpl; lia || done.
  - unfold budget. lia.
Qed.
End uvmalloc.

(** ** uvmcreate *)
Lemma empty_table m root l : valid_page root -> root ∉ l -> (forall x, in_page root x -> load8 m x = 0) ->
  as_wf m root l /\ (forall va, pte_at m root va = 0) /\ forall pg, table_page m root pg -> pg = root.
Proof.
  intros Hv Hl Hzero.
  assert (forall i, idx_ok i -> child m root i = None) as Hc.
  { intros i Hi. unfold child. rewrite load64_zero; [done|]. intros x Hx. apply Hzero. by eapply slot_in_page. }
  assert (forall q pg, path_ok q -> node m root q = Some pg -> q = [] /\ pg = root) as Hn.
  { intros [|i q] pg [_ Hq] E; simpl in E; [by injection E as ->|].
    apply Forall_cons_iff in Hq as [Hi _]. by rewrite Hc in E. }
  assert (forall va, pte_at m root va = 0) as Hp.
  { intros va. unfold pte_at. destruct (node m root _) as [pg|] eqn:E; [|done].
    by apply Hn in E as [E _]; [|apply path_ok_2]. }
  split_and!; [split|done|intros pg (q & Hq & E); by apply Hn in E as [_ ->]].
  - split.
    + intros q pg Hq E. by apply Hn in E as [_ ->].
    + intros q q' pg Hq Hq' E E'. apply Hn in E as [-> _], E' as [-> _]; done.
  - intros va _ _ HV. by rewrite Hp in HV.
  - intros va va' _ _ _ _ HV. by rewrite Hp in HV.
  - intros va _ _. by rewrite Hp.
  - intros va _ _. apply Hp.
Qed.

Lemma uvmcreate_ok s p l : pm_ok s (p :: l) ->
  wp (uvmcreate s) (fun r s' => r = p /\ pm_ok s' l /\ as_wf (pm_mem s') p l /\
    (forall va, pte_at (pm_mem s') p va = 0) /\ (forall pg, table_page (pm_mem s') p pg -> pg = p) /\
    same_outside p (pm_mem s) (pm_mem s') /\ same_hart (pm_hart s') (pm_hart s) /\ pm_lock s' = pm_lock s).
Proof.
  intros Hok. unfold uvmcreate. kstep. kcall (kalloc_cons kend kend_range). intros r s1 (-> & Hok1 & [Hout] & _ & Hh & Hlk).
  pose proof (ok_valid _ _ _ Hok) as Hv. apply Forall_cons_iff in Hv as [Hp _].
  pose proof (ok_nodup _ _ _ Hok) as Hnd. apply NoDup_cons in Hnd as [Hpl _].
  destruct (Z.eqb_spec p 0); [apply valid_page_pos in Hp; [lia|done]|]. do 3 kstep. cbn [set_mem pm_mem].
  destruct (memset_fill (pm_mem s1) p (ok_mem _ _ _ Hok1)) as [Hfm [Hfo]].
  assert (forall x, in_page p x -> load8 (memset (pm_mem s1) p 0 PGSIZE) x = 0) as Hzero.
  { intros x Hx. rewrite load8_memset by (unfold PGSIZE; lia). case_decide; [done|]. unfold in_page in Hx. lia. }
  split; [done|]. destruct (empty_table _ p l Hp Hpl Hzero) as (Has & Hpte & Htab).
  split_and!; [|done|done|done| |cbn [set_mem pm_hart]; rewrite Hh; apply same_hart_touched|done].
  - apply (pm_ok_write kend s1 l _ [p]); [done|done| |].
    + intros q Hq. by apply list_elem_of_singleton in Hq as ->.
    + intros x Hx. apply Hfo. apply Hx. constructor.
  - split. intros x Hx. by rewrite Hfo, Hout.
Qed.
End space.
