(* ===== verification/CopySpace.v ===== *)
(** * Copying an address space: uvmcopy of kernel/vm.c, the memory half of fork()

    Two page tables share physical memory with the allocator.  [apart] says that
    they use different pages; a step on one of them then leaves the other and its
    contents alone ([other_kept]), so that the parent is unchanged by the copy. *)
From S2P Require Import Prelude Machine KString Spinlock Kalloc Vm UserMem AddrSpace.
Local Open Scope Z_scope.
Local Open Scope kernel_scope.

(** A page that belongs to the address space at [root]. *)
Definition uses (m : gmap Z Z) (root pg : Z) : Prop :=
  table_page m root pg \/
  exists a, aligned_va a /\ a < TRAPFRAME /\ has (pte_at m root a) PTE_V = true /\ pg = PTE2PA (pte_at m root a).

Definition apart (m : gmap Z Z) (r1 r2 : Z) : Prop := forall pg, uses m r1 pg -> ~ uses m r2 pg.

Section copy.
Context (kend : Z) (kend_range : 0 < kend <= PHYSTOP).
Notation valid_page := (valid_page kend).
Notation pm_ok := (pm_ok kend).
Notation as_wf := (as_wf kend).
Notation as_step := (as_step kend).

Lemma uses_valid m root l pg : as_wf m root l -> uses m root pg -> valid_page pg /\ pg ∉ l.
Proof.
  intros Hwf [(q & Hq & E)|(a & Ha & Ht & HV & ->)].
  - by apply (wf_node _ _ _ _ (as_pt _ _ _ _ Hwf) q).
  - by destruct (as_page _ _ _ _ Hwf a Ha Ht HV) as (? & ? & _).
Qed.

Section other.
Context (old new : Z) (s s' : pm) (l l' : list Z).
Context (Hok : pm_ok s l) (Hold : as_wf (pm_mem s) old l) (Hnew : as_wf (pm_mem s) new l).
Context (Hap : apart (pm_mem s) old new) (Hst : as_step new [] s l s' l').

(** Memory of the other address space is not touched. *)
Lemma other_bytes pg x : uses (pm_mem s) old pg -> in_page pg x -> load8 (pm_mem s') x = load8 (pm_mem s) x.
Proof.
  intros Hu Hx. destruct (uses_valid _ _ _ _ Hold Hu) as [Hv Hl].
  pose proof (ok_valid _ _ _ Hok) as Hvl. rewrite Forall_forall in Hvl.
  apply (st_frame _ _ _ _ _ _ _ Hst).
  - intros p [Hp|Hp]; [|by apply elem_of_nil in Hp]. eapply (pages_disjoint kend pg p); eauto. by intros ->.
  - intros t Ht. eapply (pages_disjoint kend pg t); eauto using table_valid, as_pt. intros ->.
    apply (Hap t Hu). by left.
Qed.

Lemma other_tables pg x : table_page (pm_mem s) old pg -> in_page pg x -> load8 (pm_mem s') x = load8 (pm_mem s) x.
Proof. intros H. apply other_bytes. by left. Qed.

Lemma other_pte a : pte_at (pm_mem s') old a = pte_at (pm_mem s) old a.
Proof. apply pte_at_frame, other_tables. Qed.

Lemma other_slot a : slot (pm_mem s') old a = slot (pm_mem s) old a.
Proof. unfold slot. rewrite (node_frame (pm_mem s)); [done|apply path_ok_2|apply other_tables]. Qed.

Lemma other_wf : as_wf (pm_mem s') old l'.
Proof.
  eapply as_wf_sub; [by eapply as_wf_same; [|apply other_tables]|].
  intros p Hp. apply (st_free _ _ _ _ _ _ _ Hst) in Hp as [Hp|Hp]; [done|by apply elem_of_nil in Hp].
Qed.

Lemma other_user va : 0 <= va -> user_byte (pm_mem s') old va = user_byte (pm_mem s) old va.
Proof.
  intros Hva. unfold user_byte. rewrite (user_pa_same (pm_mem s)) by apply other_tables.
  destruct (Z.eqb_spec (user_pa (pm_mem s) old (PGROUNDDOWN va)) 0) as [|Hm]; [done|]. f_equal.
  destruct (mapped_pte kend _ _ _ Hold va Hva Hm) as (Ha & Ht & HV & E).
  destruct (mapped_page kend _ _ _ Hold va Hva Hm) as (_ & _ & _ & Hx).
  eapply other_bytes; [|exact Hx]. right. exists (PGROUNDDOWN va). auto.
Qed.

Lemma other_uses pg : uses (pm_mem s') old pg -> uses (pm_mem s) old pg.
Proof.
  intros [H|(a & Ha & Ht & HV & ->)].
  - left. by rewrite (table_page_same (pm_mem s)) in H by apply other_tables.
  - right. exists a. by rewrite other_pte in *.
Qed.
End other.

Lemma memmove_fill m p pa : mem_ok m -> mem_ok (memmove m p pa PGSIZE) /\ same_outside p m (memmove m p pa PGSIZE).
Proof.
  intros Hm. split; [apply mem_ok_memmove; [done|done]|]. split. intros x Hx.
  rewrite load8_memmove by (done || unfold PGSIZE; lia). case_decide; [|done]. unfold in_page in Hx. lia.
Qed.

Section uvmcopy.
Context (s : pm) (l : list Z) (old new sz : Z).
Notation pto := (pte_at (pm_mem s) old).
Notation ptn := (pte_at (pm_mem s) new).
Context (Hok : pm_ok s l) (Hold : as_wf (pm_mem s) old l) (Hnew : as_wf (pm_mem s) new l).
Context (Hap : apart (pm_mem s) old new) (Hsz : 0 <= sz <= TRAPFRAME).
Context (Hslots : forall a, aligned_va a -> a < sz -> slot (pm_mem s) old a <> 0 /\ leaf_pte (pto a)).
Context (Hnone : forall a, aligned_va a -> a < sz -> has (ptn a) PTE_V = false).

(** The pages below [i] are copied. *)
Definition copied (i : Z) (s' : pm) : Prop := forall a, aligned_va a ->
  if (a <? i) && has (pto a) PTE_V
  then exists p, p ∈ l /\ pte_at (pm_mem s') new a = pte_of p (PTE_FLAGS (pto a)) /\
         forall o, 0 <= o < PGSIZE -> load8 (pm_mem s') (p + o) = load8 (pm_mem s) (PTE2PA (pto a) + o)
  else pte_at (pm_mem s') new a = ptn a.

Lemma flags_range e : 0 <= PTE_FLAGS e < 1024.
Proof. unfold PTE_FLAGS. change 1023 with (Z.ones 10). rewrite Z.land_ones by lia. apply Z.mod_pos_bound. lia. Qed.

Lemma copied_pte e p : valid_page p -> has e PTE_V = true ->
  PTE2PA (pte_of p (PTE_FLAGS e)) = p /\ PTE_FLAGS (pte_of p (PTE_FLAGS e)) = PTE_FLAGS e /\
  has (pte_of p (PTE_FLAGS e)) PTE_V = true.
Proof.
  intros Hv HV. pose proof (flags_range e) as Hf. destruct (pte_of_facts kend kend_range p _ Hv Hf) as (E1 & E2 & E3).
  split_and!; [done| |done]. rewrite E2. change PTE_V with 1 in *.
  assert (Z.testbit (PTE_FLAGS e) 0 = true) as H0.
  { rewrite has_flags, has_V in HV by by vm_compute. by rewrite Z.bit0_odd. }
  apply Z.bits_inj'. intros n Hn. rewrite Z.lor_spec. destruct (decide (n = 0)) as [->|]; [by rewrite H0|].
  rewrite (Z.bits_above_log2 1 n) by (simpl; lia). apply orb_false_r.
Qed.

Lemma free_valid p : p ∈ l -> valid_page p.
Proof. pose proof (ok_valid _ _ _ Hok) as Hv. rewrite Forall_forall in Hv. apply Hv. Qed.

(** A later step keeps what was copied, where the mapping stays. *)
Lemma copied_kept s1 l1 s2 l2 a p o : as_step new [] s l s1 l1 -> as_step new [] s1 l1 s2 l2 ->
  aligned_va a -> a < TRAPFRAME -> has (pto a) PTE_V = true -> p ∈ l ->
  pte_at (pm_mem s1) new a = pte_of p (PTE_FLAGS (pto a)) -> 0 <= o < PGSIZE ->
  load8 (pm_mem s2) (p + o) = load8 (pm_mem s1) (p + o).
Proof.
  intros Hst Hst2 Ha Ht HV Hp Ep Ho. destruct (copied_pte (pto a) p (free_valid p Hp) HV) as (EP & _ & EV).
  apply (step_page_kept kend new s1 l1 s2 l2 a); [apply Hst|apply Hst|done|done|done|by rewrite Ep|].
  rewrite Ep, EP. unfold in_page. lia.
Qed.

Lemma copied_same i s1 l1 s2 l2 : as_step new [] s l s1 l1 -> as_step new [] s1 l1 s2 l2 -> i <= TRAPFRAME ->
  (forall va, aligned_va va -> pte_at (pm_mem s2) new va = pte_at (pm_mem s1) new va) ->
  copied i s1 -> copied i s2.
Proof.
  intros Hst Hst2 Hi Hpte Hc a Ha. specialize (Hc a Ha). rewrite Hpte by done.
  destruct (Z.ltb_spec a i), (has (pto a) PTE_V) eqn:HV; simpl in *; try done.
  destruct Hc as (p & Hp & Ep & Hb). exists p. split_and!; [done|done|]. intros o Ho. rewrite <- Hb by done.
  eapply copied_kept; try done. lia.
Qed.

Lemma next_page a i : a mod PGSIZE = 0 -> i mod PGSIZE = 0 -> a <> i -> (a <? i + PGSIZE) = (a <? i).
Proof.
  intros Ha Hi Hne. unfold PGSIZE in *. apply eq_true_iff_eq. rewrite !Z.ltb_lt. Z.div_mod_to_equations. lia.
Qed.

Lemma copied_skip i s1 : aligned_va i -> has (pto i) PTE_V = false -> copied i s1 -> copied (i + PGSIZE) s1.
Proof.
  intros Hi HV Hc a Ha. specialize (Hc a Ha). destruct (decide (a = i)) as [->|Hne].
  - rewrite HV, andb_false_r in *. done.
  - by rewrite next_page by (apply Ha || apply Hi || done).
Qed.

Lemma copied_add i s1 l1 s2 l2 p m1 : aligned_va i -> i < sz -> has (pto i) PTE_V = true -> copied i s1 ->
  as_step new [] s l s1 l1 -> as_step new [] s1 l1 s2 l2 -> p ∈ l1 -> same_outside p (pm_mem s1) m1 -> mem_ok m1 ->
  (forall x, in_page p x -> load8 (pm_mem s2) x = load8 (memmove m1 p (PTE2PA (pto i)) PGSIZE) x) ->
  (forall va, aligned_va va -> pte_at (pm_mem s2) new va =
     if decide (va = i) then pte_of p (PTE_FLAGS (pto i)) else pte_at (pm_mem s1) new va) ->
  copied (i + PGSIZE) s2.
Proof.
  intros Hi Hlt HV Hc Hst Hst2 Hp [Hout] Hm1 Hcont Hpte a Ha. rewrite Hpte by done. case_decide as E.
  - subst a. rewrite HV. destruct (Z.ltb_spec i (i + PGSIZE)); [simpl|unfold PGSIZE in *; lia].
    assert (p ∈ l) as Hpl.
    { apply (st_free _ _ _ _ _ _ _ Hst) in Hp as [Hp|Hp]; [done|by apply elem_of_nil in Hp]. }
    exists p. split_and!; [done|done|]. intros o Ho.
    assert (uses (pm_mem s) old (PTE2PA (pto i))) as Hu by (right; exists i; split_and!; [done|lia|done|done]).
    destruct (uses_valid _ _ _ _ Hold Hu) as [Hv Hl].
    assert (in_page (PTE2PA (pto i)) (PTE2PA (pto i) + o)) as Hin by (unfold in_page; lia).
    rewrite Hcont by (unfold in_page; lia). rewrite load8_memmove by (done || unfold PGSIZE; lia).
    case_decide; [|lia]. replace (p + o - p) with o by lia. rewrite Hout.
    + by apply (other_bytes old new s s1 l l1 Hok Hold Hnew Hap Hst (PTE2PA (pto i))).
    + apply (pages_disjoint kend (PTE2PA (pto i)) p); [done|by apply free_valid| |done]. by intros <-.
  - rewrite next_page by (apply Ha || apply Hi || done). specialize (Hc a Ha).
    destruct (Z.ltb_spec a i), (has (pto a) PTE_V) eqn:HVa; simpl in *; try done.
    destruct Hc as (q & Hq & Eq & Hb). exists q. split_and!; [done|done|]. intros o Ho. rewrite <- Hb by done.
    eapply (copied_kept s1 l1 s2 l2 a q); try done. lia.
Qed.

(** The cleanup after a failure in the round of page [i], when no page below was
    skipped. *)
Lemma uvmcopy_undo i s1 l1 : aligned_va i -> i < sz -> as_step new [] s l s1 l1 -> copied i s1 ->
  (forall a, aligned_va a -> a < i -> has (pto a) PTE_V = true) ->
  wp (uvmunmap kend new 0 (i / PGSIZE) true s1) (fun _ s' => exists l', as_step new [] s l s' l' /\
    forall va, aligned_va va -> pte_at (pm_mem s') new va = ptn va).
Proof.
  intros Hi Hlt Hst Hc Hall. pose proof Hi as [Hi1 Hi2]. change MAXVA with (2 ^ 38) in *. change TRAPFRAME with (2 ^ 38 - 2 * 4096) in *.
  assert (i = 0 + Z.of_nat (Z.to_nat (i / PGSIZE)) * PGSIZE) as En by (unfold PGSIZE in *; Z.div_mod_to_equations; lia).
  replace (i / PGSIZE) with (Z.of_nat (Z.to_nat (i / PGSIZE))) by (unfold PGSIZE in *; Z.div_mod_to_equations; lia).
  set (n := Z.to_nat (i / PGSIZE)) in *.
  assert (forall a, aligned_va a -> a < i -> exists p, p ∈ l /\ pte_at (pm_mem s1) new a = pte_of p (PTE_FLAGS (pto a))) as Hin.
  { intros a Ha Hai. specialize (Hc a Ha). rewrite (Hall a Ha Hai) in Hc. destruct (Z.ltb_spec a i); [|lia].
    destruct Hc as (p & Hp & E & _). eauto. }
  assert (forall k, (k < n)%nat -> aligned_va (0 + Z.of_nat k * PGSIZE) /\ 0 + Z.of_nat k * PGSIZE < i) as Hk.
  { intros k Hk. unfold aligned_va, PGSIZE in *. change MAXVA with (2 ^ 38). split; [split; [Z.div_mod_to_equations; lia|lia]|lia]. }
  eapply wp_mono; [|apply (uvmunmap_ok kend kend_range s1 new 0 n true l1); [apply Hst|apply Hst|done|lia|..]].
  - intros u s' [Hst' Hpte]. eexists. split.
    + eapply as_step_absorb; [|eapply (as_step_trans kend kend_range new [] _ _ _ _ _ _ _ Hst Hst')].
      intros p Hp. apply elem_backing in Hp as (k & Hkn & HV & ->). destruct (Hk k Hkn) as [Ha Hai].
      destruct (Hin _ Ha Hai) as (q & Hq & ->).
      destruct (copied_pte (pto (0 + Z.of_nat k * PGSIZE)) q (free_valid q Hq) (Hall _ Ha Hai)) as (-> & _). done.
    + intros va Hva. rewrite Hpte by done. unfold unmap. rewrite <- En. specialize (Hc va Hva).
      destruct (Z.leb_spec 0 va) as [|Hneg]; [|destruct Hva; lia]. destruct (Z.ltb_spec va i); simpl in *; [|done].
      symmetry. apply (as_zero _ _ _ _ Hnew); [done|]. apply Hnone; [done|lia].
  - change MAXVA with (2 ^ 38). lia.
  - intros _. change TRAPFRAME with (2 ^ 38 - 2 * 4096). lia.
  - intros k Hkn. destruct (Hk k Hkn) as [Ha Hai]. destruct (Hin _ Ha Hai) as (q & Hq & E).
    destruct (copied_pte (pto (0 + Z.of_nat k * PGSIZE)) q (free_valid q Hq) (Hall _ Ha Hai)) as (_ & EF & EV).
    rewrite <- E in EF, EV. split.
    + eapply (has_slot kend kend_range); [done|apply Hst].
    + intros _. rewrite EF. apply Hslots; [done|lia|by apply Hall].
Qed.

Context (Hcase : (forall a, aligned_va a -> a < sz -> has (pto a) PTE_V = true) \/
                 3 * Z.of_nat (pages_between 0 sz) <= Z.of_nat (length l)).

Lemma uvmcopy_ok : wp (uvmcopy kend old new sz s) (fun r s' => exists l', as_step new [] s l s' l' /\
  (r = 0 /\ copied (PGROUNDUP sz) s' \/
   r = -1 /\ Z.of_nat (length l) < 3 * Z.of_nat (pages_between 0 sz) /\
   forall va, aligned_va va -> pte_at (pm_mem s') new va = ptn va)).
Proof.
  destruct (PGROUNDUP_user sz Hsz) as (N1 & N2 & N3).
  pose proof (pages_between_spec 0 sz) as Hn. change (PGROUNDUP 0) with 0 in Hn.
  change TRAPFRAME with (2 ^ 38 - 2 * 4096) in *. specialize (Hn ltac:(lia) ltac:(lia) ltac:(lia)).
  apply (wp_while _ (fun i s1 => exists k l1, 0 <= k /\ i = k * PGSIZE /\ i <= PGROUNDUP sz /\
      as_step new [] s l s1 l1 /\ copied i s1 /\ Z.of_nat (length l) <= Z.of_nat (length l1) + 3 * k)
    (fun i => Z.max 0 (2 ^ 39 - i))).
  - intros i s1 (k & l1 & Hk & Ei & Hir & Hst & Hc & Hlen). destruct (Z.ltb_spec i sz) as [Hlt|Hge]; cbn [negb].
    2:{ kstep. exists l1. split; [done|left]. split; [done|].
        by replace (PGROUNDUP sz) with i by (unfold PGSIZE in *; Z.div_mod_to_equations; lia). }
    assert (aligned_va i) as Hi.
    { unfold aligned_va, PGSIZE in *. change MAXVA with (2 ^ 38). split; [Z.div_mod_to_equations; lia|lia]. }
    assert (k < Z.of_nat (pages_between 0 sz)) as Hkn by (unfold PGSIZE in *; lia).
    assert (i + PGSIZE <= PGROUNDUP sz) as Hnext by (unfold PGSIZE in *; Z.div_mod_to_equations; lia).
    assert (u64 (i + PGSIZE) = (k + 1) * PGSIZE /\ (k + 1) * PGSIZE = i + PGSIZE) as [Enext Enext'].
    { split; [rewrite u64_id|]; unfold PGSIZE in *; lia. }
    destruct (Hslots i Hi Hlt) as [Hslot Hleaf].
    pose proof (other_slot old new s s1 l l1 Hok Hold Hnew Hap Hst i) as Es.
    kstep. rewrite walk_lookup by apply Hi. cbn [wp]. rewrite Es.
    destruct (Z.eqb_spec (slot (pm_mem s) old i) 0); [done|]. do 2 kstep.
    rewrite <- Es, load_slot by by rewrite Es. rewrite (other_pte old new s s1 l l1 Hok Hold Hnew Hap Hst).
    destruct (has (pto i) PTE_V) eqn:HV; cbn [negb].
    2:{ kstep. rewrite Enext. split; [|unfold PGSIZE in *; lia]. exists (k + 1), l1.
        split_and!; [lia|done|lia|done|rewrite Enext'; by apply copied_skip|lia]. }
    apply (alloc_round kend kend_range s1 l1 new i (PTE_FLAGS (pto i)) (fun m p => memmove m p (PTE2PA (pto i)) PGSIZE)).
    + apply Hst.
    + apply Hst.
    + done.
    + change TRAPFRAME with (2 ^ 38 - 2 * 4096). lia.
    + specialize (Hc i Hi). destruct (Z.ltb_spec i i); [lia|]. rewrite Hc. by apply Hnone.
    + apply flags_range.
    + intros. by apply memmove_fill.
    + intros s2 l2 Hst2 Hpte2 Hlen2.
      destruct Hcase as [Hall|Henough]; [|lia].
      pose proof (as_step_trans kend kend_range _ _ _ _ _ _ _ _ _ Hst Hst2 : as_step new [] s l s2 l2) as Hst'.
      kstep. eapply wp_mono; [|apply (uvmcopy_undo i s2 l2); [done|done|done| |]].
      * intros u s3 (l3 & Hst3 & Hpte3). kstep. exists l3. split; [done|]. right. split_and!; [done|lia|done].
      * apply (copied_same i s1 l1 s2 l2); [done|done|change TRAPFRAME with (2 ^ 38 - 2 * 4096); lia|done|done].
      * intros a Ha Hai. apply Hall; [done|lia].
    + intros s2 l2 p m1 Hst2 Hlen2 Hp Hm1 Hout Hcont Hpte2. kstep. rewrite Enext. split; [|unfold PGSIZE in *; lia].
      exists (k + 1), l2. split_and!; [lia|done|lia|by eapply (as_step_trans kend kend_range new [] [])| |lia].
      rewrite Enext'. eapply (copied_add i s1 l1 s2 l2 p m1); try done.
  - intros i s1 _. lia.
  - exists 0, l. split_and!; [lia|lia|lia|by apply as_step_refl| |lia]. intros a Ha.
    destruct (Z.ltb_spec a 0); [destruct Ha; lia|done].
  - unfold budget. lia.
Qed.

(** The mapping of the copy: what it had before, or a page that was free. *)
Lemma apart_after s' l' : as_step new [] s l s' l' ->
  (forall a, aligned_va a -> a < TRAPFRAME -> has (pte_at (pm_mem s') new a) PTE_V = true ->
     pte_at (pm_mem s') new a = ptn a \/ PTE2PA (pte_at (pm_mem s') new a) ∈ l) ->
  apart (pm_mem s') old new.
Proof.
  intros Hst Hpte pg Ho Hn. apply (other_uses old new s s' l l' Hok Hold Hnew Hap Hst) in Ho.
  destruct (uses_valid _ _ _ _ Hold Ho) as [_ Hl]. destruct Hn as [Ht|(a & Ha & Htf & HV & ->)].
  - apply (st_table _ _ _ _ _ _ _ Hst) in Ht as [Ht|[Ht|Ht]]; [|done|by apply elem_of_nil in Ht].
    apply (Hap pg Ho). by left.
  - destruct (Hpte a Ha Htf HV) as [E|E]; [|done]. apply (Hap _ Ho). right. exists a. rewrite E in HV |- *. auto.
Qed.

Lemma copied_cases i s' a : aligned_va a -> copied i s' ->
  pte_at (pm_mem s') new a = ptn a \/ PTE2PA (pte_at (pm_mem s') new a) ∈ l.
Proof.
  intros Ha Hc. specialize (Hc a Ha). destruct (a <? i), (has (pto a) PTE_V) eqn:HV; simpl in Hc; auto.
  destruct Hc as (p & Hp & -> & _). right. by destruct (copied_pte (pto a) p (free_valid p Hp) HV) as (-> & _).
Qed.

(** What the child reads. *)
Lemma copied_user i s' va : i <= TRAPFRAME -> i mod PGSIZE = 0 -> copied i s' -> 0 <= va < i -> 
  (forall a, aligned_va a -> a < i -> has (ptn a) PTE_V = false) ->
  user_byte (pm_mem s') new va = user_byte (pm_mem s) old va.
Proof.
  intros Hi Hal Hc Hva Hnon. set (a := PGROUNDDOWN va).
  change TRAPFRAME with (2 ^ 38 - 2 * 4096) in *.
  assert (aligned_va a) as Ha by (apply aligned_va_down; change MAXVA with (2 ^ 38); lia).
  assert (a < i) as Hai by (pose proof (PGROUNDDOWN_bounds va); unfold a; lia).
  specialize (Hc a Ha). destruct (Z.ltb_spec a i); [|lia]. simpl in Hc.
  unfold user_byte, user_pa. fold a. destruct (Z.leb_spec MAXVA a) as [|Hm]; [done|].
  destruct (has (pto a) PTE_V) eqn:HV; simpl.
  - destruct Hc as (p & Hp & E & Hb). pose proof (free_valid p Hp) as Hv.
    destruct (copied_pte (pto a) p Hv HV) as (EP & EF & EV).
    assert (has (pte_of p (PTE_FLAGS (pto a))) PTE_U = has (pto a) PTE_U) as EU.
    { rewrite (has_flags _ PTE_U), EF, <- has_flags by by vm_compute. done. }
    rewrite E, EV, EU, EP. simpl. destruct (has (pto a) PTE_U); [|done].
    pose proof (valid_page_pos kend kend_range p Hv) as Hpos.
    destruct (as_page _ _ _ _ Hold a Ha) as (Hvo & _); [change TRAPFRAME with (2 ^ 38 - 2 * 4096); lia|done|].
    apply (valid_page_pos kend kend_range) in Hvo.
    destruct (Z.eqb_spec p 0), (Z.eqb_spec (PTE2PA (pto a)) 0); try lia. f_equal. apply Hb.
    apply Z.mod_pos_bound. unfold PGSIZE. lia.
  - rewrite Hc, (as_zero _ _ _ _ Hnew) by auto. done.
Qed.

Lemma copied_flags i s' a : copied i s' -> aligned_va a -> a < i -> has (ptn a) PTE_V = false ->
  PTE_FLAGS (pte_at (pm_mem s') new a) = PTE_FLAGS (pto a).
Proof.
  intros Hc Ha Hai Hn. specialize (Hc a Ha). destruct (Z.ltb_spec a i); [|lia]. simpl in Hc.
  destruct (has (pto a) PTE_V) eqn:HV.
  - destruct Hc as (p & Hp & -> & _). by destruct (copied_pte (pto a) p (free_valid p Hp) HV) as (_ & -> & _).
  - by rewrite Hc, (as_zero _ _ _ _ Hnew), (as_zero _ _ _ _ Hold).
Qed.
End uvmcopy.

(** A page table made by [uvmcreate] is apart from the one there was. *)
Lemma uvmcreate_apart s p l old : pm_ok s (p :: l) -> as_wf (pm_mem s) old (p :: l) ->
  wp (uvmcreate s) (fun new s' => pm_ok s' l /\ as_wf (pm_mem s') old l /\ as_wf (pm_mem s') new l /\
    apart (pm_mem s') old new /\ (forall va, pte_at (pm_mem s') old va = pte_at (pm_mem s) old va) /\
    (forall va, pte_at (pm_mem s') new va = 0)).
Proof.
  intros Hok Hold. eapply wp_mono; [|by apply (uvmcreate_ok kend kend_range)].
  intros r s' (-> & Hok' & Hnew & Hpte & Htab & Hout & Hh & Hlk).
  destruct (take_page kend s s' old p l Hout Hh Hlk Hok Hold Hok') as (Hst & [_ _ Hft Hfu] & Hsame).
  split_and!; [done|apply Hst|done| |done|done].
  intros pg Ho [Ht|(a & _ & _ & HV & _)]; [|by rewrite Hpte in HV]. apply Htab in Ht as ->.
  destruct Ho as [Ho|(a & Ha & Hta & HV & E)]; [done|]. by destruct (Hfu a Ha Hta HV).
Qed.

Lemma apart_sym m r1 r2 : apart m r1 r2 -> apart m r2 r1.
Proof. intros H pg H2 H1. by apply (H pg). Qed.
End copy.
