(* ===== verification/VmSpec.v ===== *)
(** * The theorems about virtual memory (kernel/vm.c)

    The statements of what Vm.v, UserMem.v and AddrSpace.v prove about the
    functions of vm.c, in terms of the mapping a page table denotes and of the
    bytes user code sees, and a machine on which their hypotheses hold: the one
    [kinit] boots with eight pages of RAM. *)
From S2P Require Import Prelude Machine KString Spinlock Kalloc Vm UserMem AddrSpace CopySpace.
Local Open Scope Z_scope.
Local Open Scope kernel_scope.

Section theorems.
Context (kend : Z) (kend_range : 0 < kend <= PHYSTOP).

(** C24: mappages maps a range.  When no page of the range is mapped, mappages
    does not panic: it returns 0 with every page of the range mapped to the
    corresponding physical page with the given permissions and PTE_V, or -1
    after the allocator ran out of pages, with a prefix of the range mapped.  In
    both cases every other virtual page keeps its PTE, the page-table pages stay
    distinct pages that are not on the free list, and memory outside free pages
    and page-table pages is unchanged. *)
Theorem mappages_correct s l root va size pa perm :
  pm_ok kend s l -> pt_wf kend (pm_mem s) root l ->
  0 <= va -> 0 < size -> va + size <= MAXVA ->
  0 <= pa -> pa + page_count va size * PGSIZE <= 2 ^ 56 -> 0 <= perm < 1024 ->
  (forall va', aligned_va va' ->
     PGROUNDDOWN va <= va' < PGROUNDDOWN va + page_count va size * PGSIZE ->
     has (pte_at (pm_mem s) root va') PTE_V = false) ->
  wp (mappages root va size pa perm s) (fun r s' => exists l' k,
    evolves kend root s l s' l' /\
    (forall va', aligned_va va' -> pte_at (pm_mem s') root va' =
       remap (pte_at (pm_mem s) root) (PGROUNDDOWN va) k pa perm va') /\
    (r = 0 /\ k = page_count va size \/
     r = -1 /\ 0 <= k < page_count va size /\ l' = [] /\
     Z.of_nat (length l) < 2 * page_count va size)).
Proof.
  intros. eapply wp_mono; [|by apply (mappages_ok kend kend_range s l)].
  intros r s' (l' & k & Hev & Hk & Hpte & Hr). exists l', k. split_and!; [done|done|].
  destruct Hr as [(-> & -> & _)|(-> & ? & -> & ?)]; [by left|right]. split_and!; [done|lia|lia|done|done].
Qed.

(** C26: copyin reads exactly the bytes user code would read.  It changes
    nothing; it returns 0 with the [len] bytes from [srcva] on when all of them
    are mapped and accessible to user code, across any number of pages, and -1
    otherwise. *)
Theorem copyin_correct s l root srcva len :
  pt_wf kend (pm_mem s) root l -> 0 <= srcva < 2 ^ 64 -> 0 <= len ->
  wp (copyin root srcva len s) (fun r s' => s' = s /\
    match user_read (pm_mem s) root srcva (Z.to_nat len) with
    | Some bytes => r = (0, bytes)
    | None => r.1 = -1
    end).
Proof.
  intros Hwf Hva Hlen. apply (copyin_loop kend kend_range s root l); try done.
  - intros bytes E. by rewrite E.
  - intros bytes E. by rewrite E.
Qed.

(** copyinstr reads the NUL-terminated string at [srcva]: 0 and the bytes up
    to and including the first NUL when it lies within [max] bytes and all bytes
    up to it are accessible to user code, and -1 otherwise; it changes nothing. *)
Theorem copyinstr_correct s l root srcva max :
  pt_wf kend (pm_mem s) root l -> 0 <= srcva < 2 ^ 64 -> 0 <= max ->
  wp (copyinstr root srcva max s) (fun r s' => s' = s /\
    match user_str (pm_mem s) root srcva (Z.to_nat max) with
    | Some bytes => r = (0, bytes)
    | None => r.1 = -1
    end).
Proof.
  intros Hwf Hva Hlen. apply (copyinstr_loop kend kend_range s root l); try done.
  - intros bytes E. by rewrite E.
  - intros bytes E. by rewrite E.
Qed.

(** C25: copyout writes exactly the given bytes.  It succeeds if and only if the
    whole destination is accessible to user code; then user code sees the bytes
    of [src] from [dstva] on and every other byte of its address space as
    before, copyin of the same range returns [src], and the invariants of the
    allocator and of the address space are kept. *)
Theorem copyout_correct s l root dstva src :
  pm_ok kend s l -> as_wf kend (pm_mem s) root l -> 0 <= dstva < 2 ^ 64 -> Forall is_byte src ->
  wp (copyout root dstva src (Z.of_nat (length src)) s) (fun r s' =>
    as_wf kend (pm_mem s') root l /\
    (r = 0 <-> is_Some (user_read (pm_mem s) root dstva (length src))) /\
    (r = 0 ->
     (forall va, 0 <= va -> ~ (dstva <= va < dstva + Z.of_nat (length src)) ->
        user_byte (pm_mem s') root va = user_byte (pm_mem s) root va) /\
     wp (copyin root dstva (Z.of_nat (length src)) s') (fun r' _ => r' = (0, src)))).
Proof.
  intros Hok Hwf Hva Hsrc. eapply wp_mono; [|by apply (copyout_ok kend kend_range s root l)].
  intros r s' (k & Hk & -> & Hmap & Hr).
  assert (length (take k src) = k) as Hlk by (rewrite length_take; lia).
  assert (as_wf kend (pm_mem (wrote s root dstva src k)) root l) as Hwf'.
  { apply user_write_wf; [done|lia|]. by rewrite Hlk. }
  destruct Hr as [(-> & ->)|(-> & E)].
  2:{ rewrite E. split_and!; [done|split; [done|by intros []]|done]. }
  rewrite firstn_all in *. split_and!; [done| |].
  - split; [intros _|done]. by apply user_read_mapped.
  - intros _. split.
    + intros va Hva' Hout. unfold wrote. cbn [set_mem pm_mem]. rewrite firstn_all.
      rewrite (user_byte_write kend _ _ l) by (done || lia). by case_decide.
    + apply (copyin_loop kend kend_range _ root l); [apply Hwf'|done|lia|..];
        unfold wrote; cbn [set_mem pm_mem]; rewrite firstn_all, Nat2Z.id;
        intros bytes; rewrite (user_read_write kend _ _ l) by (done || lia); [by intros [= <-]|done].
Qed.

(** A byte whose page keeps its PTE and is not given back keeps its value. *)
Lemma user_byte_step root G s l s' l' va :
  pm_ok kend s l -> as_wf kend (pm_mem s) root l -> as_step kend root G s l s' l' -> 0 <= va ->
  pte_at (pm_mem s') root (PGROUNDDOWN va) = pte_at (pm_mem s) root (PGROUNDDOWN va) ->
  (forall p, p ∈ G -> p <> user_pa (pm_mem s) root (PGROUNDDOWN va) /\ valid_page kend p) ->
  user_byte (pm_mem s') root va = user_byte (pm_mem s) root va.
Proof.
  intros Hok Hwf Hst Hva Hpte HG.
  assert (user_pa (pm_mem s') root (PGROUNDDOWN va) = user_pa (pm_mem s) root (PGROUNDDOWN va)) as Epa.
  { unfold user_pa. by rewrite Hpte. }
  unfold user_byte. rewrite Epa. destruct (Z.eqb_spec (user_pa (pm_mem s) root (PGROUNDDOWN va)) 0) as [|Hm]; [done|].
  f_equal. destruct (mapped_page kend _ _ _ Hwf va Hva Hm) as (Hv & Hl & Ht & Hx).
  pose proof (ok_valid _ _ _ Hok) as Hvl. rewrite Forall_forall in Hvl. apply (st_frame _ _ _ _ _ _ _ Hst).
  - intros p [Hp|Hp].
    + eapply (pages_disjoint kend _ p _ Hv); [by apply Hvl| |done]. by intros <-.
    + destruct (HG p Hp). eapply (pages_disjoint kend _ p _ Hv); done.
  - intros pg Hpg. eapply (pages_disjoint kend _ pg _ Hv); [|by intros <-|done].
    eapply table_valid; [apply Hwf|done].
Qed.

(** C27: uvmalloc grows an address space with zeroed pages or not at all.  When
    the pages between the rounded-up old size and the new size are not mapped,
    it returns the new size, user code then reads 0 in all of them and every byte
    below is unchanged; or it returns 0, which happens only when the free pages
    are fewer than three per page to map (a data page and at most two page-table
    pages), and every byte of the address space is as before.  The new pages
    come from the free list and are mapped once, and no memory outside free
    pages and page-table pages changes. *)
Theorem uvmalloc_correct s l root oldsz newsz :
  pm_ok kend s l -> as_wf kend (pm_mem s) root l -> 0 <= oldsz <= newsz -> newsz <= TRAPFRAME ->
  (forall a, aligned_va a -> PGROUNDUP oldsz <= a < newsz -> has (pte_at (pm_mem s) root a) PTE_V = false) ->
  wp (uvmalloc kend root oldsz newsz s) (fun r s' => exists l', as_step kend root [] s l s' l' /\
    (r = newsz /\
       (forall va, PGROUNDUP oldsz <= va < newsz -> user_byte (pm_mem s') root va = Some 0) /\
       (forall va, 0 <= va < PGROUNDUP oldsz -> user_byte (pm_mem s') root va = user_byte (pm_mem s) root va) \/
     r = 0 /\ Z.of_nat (length l) < 3 * Z.of_nat (pages_between oldsz newsz) /\
       forall va, 0 <= va < TRAPFRAME -> user_byte (pm_mem s') root va = user_byte (pm_mem s) root va)).
Proof.
  intros Hok Hwf Hsz Hnew Hnone. eapply wp_mono; [|by apply (uvmalloc_ok kend kend_range s l)].
  intros r s' (l' & Hst & Hr). exists l'. split; [done|].
  assert (forall va, 0 <= va < TRAPFRAME -> aligned_va (PGROUNDDOWN va)) as Hal.
  { intros va Hva. apply aligned_va_down. change TRAPFRAME with (2 ^ 38 - 2 * 4096) in Hva. change MAXVA with (2 ^ 38). lia. }
  destruct (PGROUNDUP_user oldsz) as (H1 & H2 & H3); [lia|].
  destruct Hr as [(-> & Hgr)|(-> & Hlen & Hpte)]; [left|right]; (split_and!; [done| |]).
  - intros va Hva. destruct (PGROUNDUP_user newsz) as (N1 & N2 & N3); [lia|].
    pose proof (PGROUNDDOWN_bounds va) as Hb. pose proof (PGROUNDDOWN_aligned va) as Hd.
    specialize (Hgr (PGROUNDDOWN va) (Hal va ltac:(lia))).
    destruct (Z.leb_spec (PGROUNDUP oldsz) (PGROUNDDOWN va)); [|unfold PGSIZE in *; Z.div_mod_to_equations; lia].
    destruct (Z.ltb_spec (PGROUNDDOWN va) newsz); [|lia].
    destruct Hgr as (p & Hp & E & Hz). pose proof (ok_valid _ _ _ Hok) as Hv. rewrite Forall_forall in Hv.
    specialize (Hv p Hp). destruct (pte_of_facts kend kend_range p RWXU Hv) as (EP & EF & EV); [by vm_compute|].
    assert (has (pte_of p RWXU) PTE_U = true) as EU.
    { rewrite has_flags by by vm_compute. by rewrite EF. }
    assert (user_pa (pm_mem s') root (PGROUNDDOWN va) = p) as Epa.
    { unfold user_pa. destruct (Z.leb_spec MAXVA (PGROUNDDOWN va)) as [Hm|];
        [destruct (Hal va ltac:(lia)); lia|]. by rewrite E, EV, EU, EP. }
    unfold user_byte. rewrite Epa. apply valid_page_pos in Hv; [|done].
    destruct (Z.eqb_spec p 0); [lia|]. f_equal. apply Hz. unfold in_page.
    pose proof (Z.mod_pos_bound va PGSIZE). unfold PGSIZE in *. lia.
  - intros va Hva. eapply user_byte_step; try done; [lia| |by intros p Hp; apply elem_of_nil in Hp].
    specialize (Hgr (PGROUNDDOWN va) (Hal va ltac:(lia))). pose proof (PGROUNDDOWN_bounds va).
    destruct (Z.leb_spec (PGROUNDUP oldsz) (PGROUNDDOWN va)); [lia|done].
  - done.
  - intros va Hva. eapply user_byte_step; try done; [lia| |by intros p Hp; apply elem_of_nil in Hp]. auto.
Qed.

(** C29: uvmunmap removes a range.  When every page of the range has a PTE slot,
    and its PTE is a leaf when valid, uvmunmap does not panic, user code faults
    on every address of the range afterwards and sees every other byte
    unchanged, and with do_free the pages that backed the range are put on the
    free list, each of them once, while without it the free list stays. *)
Theorem uvmunmap_correct s l root va n do_free :
  pm_ok kend s l -> as_wf kend (pm_mem s) root l -> va mod PGSIZE = 0 -> 0 <= va ->
  va + Z.of_nat n * PGSIZE <= TRAPFRAME ->
  (forall i, (i < n)%nat -> let a := va + Z.of_nat i * PGSIZE in
     slot (pm_mem s) root a <> 0 /\ leaf_pte (pte_at (pm_mem s) root a)) ->
  let freed := if do_free : bool then backing (pte_at (pm_mem s) root) va n else [] in
  wp (uvmunmap kend root va (Z.of_nat n) do_free s) (fun _ s' =>
    pm_ok kend s' (freed ++ l) /\ as_wf kend (pm_mem s') root (freed ++ l) /\
    forall x, 0 <= x -> user_byte (pm_mem s') root x =
      if decide (va <= x < va + Z.of_nat n * PGSIZE) then None else user_byte (pm_mem s) root x).
Proof.
  intros Hok Hwf Hal Hva Hmax Hpages freed.
  assert (va + Z.of_nat n * PGSIZE <= MAXVA) as Hmax'.
  { change TRAPFRAME with (2 ^ 38 - 2 * 4096) in Hmax. change MAXVA with (2 ^ 38). lia. }
  eapply wp_mono; [|by apply (uvmunmap_ok kend kend_range s root va n do_free l)].
  intros u s' [Hst Hpte]. fold (given s root va do_free n) in freed. fold freed in Hst.
  split_and!; [apply Hst|apply Hst|]. intros x Hx.
  assert (va <= x < va + Z.of_nat n * PGSIZE <-> va <= PGROUNDDOWN x < va + Z.of_nat n * PGSIZE) as Hrange.
  { rewrite PGROUNDDOWN_spec. unfold PGSIZE in *. Z.div_mod_to_equations. lia. }
  destruct (decide (x < MAXVA)) as [Hlow|Hhigh].
  2:{ unfold user_byte. rewrite !user_pa_high by lia. by case_decide. }
  specialize (Hpte (PGROUNDDOWN x) (aligned_va_down x ltac:(lia))). unfold unmap in Hpte. case_decide as Hd.
  - apply Hrange in Hd. destruct (Z.leb_spec va (PGROUNDDOWN x)), (Z.ltb_spec (PGROUNDDOWN x) (va + Z.of_nat n * PGSIZE)); try lia.
    simpl in Hpte. unfold user_byte, user_pa. rewrite Hpte. by destruct (MAXVA <=? PGROUNDDOWN x).
  - rewrite Hrange in Hd. assert (pte_at (pm_mem s') root (PGROUNDDOWN x) = pte_at (pm_mem s) root (PGROUNDDOWN x)) as E.
    { destruct (Z.leb_spec va (PGROUNDDOWN x)), (Z.ltb_spec (PGROUNDDOWN x) (va + Z.of_nat n * PGSIZE)); try done. lia. }
    destruct (decide (user_pa (pm_mem s) root (PGROUNDDOWN x) = 0)) as [Hz|Hm].
    { unfold user_byte, user_pa in *. by rewrite E, Hz. }
    eapply user_byte_step; try done. intros p Hp. unfold freed, given in Hp. destruct do_free; [|by apply elem_of_nil in Hp].
    apply elem_backing in Hp as (i & Hi & HV & ->).
    assert (aligned_va (va + Z.of_nat i * PGSIZE) /\ va + Z.of_nat i * PGSIZE < TRAPFRAME) as [Ha Ht].
    { unfold aligned_va, PGSIZE in *. split; [split; [Z.div_mod_to_equations; lia|lia]|lia]. }
    destruct (mapped_pte kend _ _ _ Hwf x Hx Hm) as (Ha' & Ht' & HV' & Ep). split.
    + rewrite Ep. intros Heq. apply (as_inj _ _ _ _ Hwf) in Heq; try done. unfold PGSIZE in *. lia.
    + apply (as_page _ _ _ _ Hwf _ Ha Ht HV).
Qed.

(** C28: uvmcopy copies an address space.  When the page tables of the parent and
    the child use different pages, the parent has a PTE slot for each page below
    the size and the child maps none of them, uvmcopy returns 0 and the child
    then reads the parent's byte at every address below the rounded size, faults
    exactly where the parent faults, and has the parent's permissions; or it
    returns -1, only when the free pages are fewer than three per page of the
    size, and the child is as before.  Either way the parent is unchanged byte
    for byte and the two still use different pages, so that a write of one is not
    seen by the other.  (A range with holes, which a lazy mmap leaves, is covered
    when memory suffices.) *)
Theorem uvmcopy_correct s l old new sz :
  pm_ok kend s l -> as_wf kend (pm_mem s) old l -> as_wf kend (pm_mem s) new l -> apart (pm_mem s) old new ->
  0 <= sz <= TRAPFRAME ->
  (forall a, aligned_va a -> a < sz -> slot (pm_mem s) old a <> 0 /\ leaf_pte (pte_at (pm_mem s) old a)) ->
  (forall a, aligned_va a -> a < sz -> has (pte_at (pm_mem s) new a) PTE_V = false) ->
  ((forall a, aligned_va a -> a < sz -> has (pte_at (pm_mem s) old a) PTE_V = true) \/
   3 * Z.of_nat (pages_between 0 sz) <= Z.of_nat (length l)) ->
  wp (uvmcopy kend old new sz s) (fun r s' => exists l', pm_ok kend s' l' /\
    as_wf kend (pm_mem s') old l' /\ as_wf kend (pm_mem s') new l' /\ apart (pm_mem s') old new /\
    (forall va, 0 <= va -> user_byte (pm_mem s') old va = user_byte (pm_mem s) old va) /\
    (r = 0 /\ (forall va, 0 <= va < PGROUNDUP sz -> user_byte (pm_mem s') new va = user_byte (pm_mem s) old va) /\
       (forall a, aligned_va a -> a < sz ->
          PTE_FLAGS (pte_at (pm_mem s') new a) = PTE_FLAGS (pte_at (pm_mem s) old a)) \/
     r = -1 /\ Z.of_nat (length l) < 3 * Z.of_nat (pages_between 0 sz) /\
       forall va, 0 <= va < TRAPFRAME -> user_byte (pm_mem s') new va = user_byte (pm_mem s) new va)).
Proof.
  intros Hok Hold Hnew Hap Hsz Hslots Hnone Hcase. destruct (PGROUNDUP_user sz Hsz) as (N1 & N2 & N3).
  eapply wp_mono; [|by apply (uvmcopy_ok kend kend_range s l)].
  intros r s' (l' & Hst & Hr). exists l'. split_and!; [apply Hst|by eapply other_wf|apply Hst|..].
  - eapply apart_after; try done. intros a Ha _ _. destruct Hr as [(_ & Hc)|(_ & _ & E)]; [|by left; apply E].
    by eapply copied_cases.
  - intros va Hva. by eapply other_user.
  - destruct Hr as [(-> & Hc)|(-> & Hlen & E)]; [left|right]; (split_and!; [done| |]).
    + intros va Hva. eapply copied_user; try done. intros a Ha Hai. apply Hnone; [done|].
      destruct Ha as [Ha _]. unfold PGSIZE in *. Z.div_mod_to_equations. lia.
    + intros a Ha Hai. eapply copied_flags; try done; [lia|by apply Hnone].
    + done.
    + intros va Hva. eapply user_byte_step; try done; [lia| |by intros p Hp; apply elem_of_nil in Hp].
      apply E, aligned_va_down. change TRAPFRAME with (2 ^ 38 - 2 * 4096) in Hva. change MAXVA with (2 ^ 38). lia.
Qed.

(** C37: uvmunmap panics on a range that was never populated.  If the page table
    has no level-0 page for the first address of a non-empty range, which is the
    case when nothing in the surrounding 2 MB was touched since a lazy mmap
    reserved it, uvmunmap stops the kernel instead of skipping the page. *)
Theorem uvmunmap_unpopulated s root va n do_free :
  va mod PGSIZE = 0 -> 0 <= va -> 0 < n -> va + n * PGSIZE <= MAXVA ->
  node (pm_mem s) root [PX 2 va; PX 1 va] = None ->
  uvmunmap kend root va n do_free s = Panic "uvmunmap: walk".
Proof.
  intros Hal Hva Hn Hmax Hnone. unfold uvmunmap. rewrite Hal. cbn [Z.eqb negb].
  change MAXVA with (2 ^ 38) in *. rewrite u64_id by (unfold PGSIZE in *; lia).
  unfold while_. apply bind_Panic. apply iterate_Panic.
  destruct (Z.ltb_spec va (va + n * PGSIZE)) as [|H]; [|unfold PGSIZE in H; lia]. cbn [negb].
  erewrite bind_Done by (apply walk_lookup; change MAXVA with (2 ^ 38); unfold PGSIZE in *; lia).
  unfold slot. by rewrite Hnone.
Qed.
End theorems.

(** ** Witnesses: the machine after [kinit] with eight pages of RAM *)
Definition end8 : Z := PHYSTOP - 8 * PGSIZE.

Lemma end8_range : 0 < end8 <= PHYSTOP.
Proof. change end8 with (0x88000000 - 8 * 4096). change PHYSTOP with 0x88000000. lia. Qed.

(** [kinit] and [uvmcreate] leave an empty page table and seven free pages. *)
Lemma booted : exists s l root, pm_ok end8 s l /\ as_wf end8 (pm_mem s) root l /\
  (forall va, pte_at (pm_mem s) root va = 0) /\ length l = 7%nat.
Proof.
  pose proof (kinit_ok end8 end8_range tiny tiny_boot) as H.
  destruct (proj1 (wp_inv _ _) H) as (_ & s & _ & Hok). clear H.
  assert (length (all_pages end8) = 8%nat) as Hlen.
  { unfold all_pages, pages_of. rewrite length_reverse, length_fmap, length_seq. by vm_compute. }
  destruct (all_pages end8) as [|p l]; [discriminate|]. injection Hlen as Hlen.
  pose proof (uvmcreate_ok end8 end8_range s p l Hok) as H'.
  destruct (proj1 (wp_inv _ _) H') as (r & s' & _ & _ & Hok' & Has & Hpte & _). clear H'.
  exists s', l, p. split_and!; [done|done|done|lia].
Qed.

(** After [uvmalloc] of one page, address 0 is accessible to user code. *)
Lemma booted_user : exists s l root, pm_ok end8 s l /\ as_wf end8 (pm_mem s) root l /\ mapped (pm_mem s) root 0 /\
  (forall i, (i < 1)%nat -> let a := 0 + Z.of_nat i * PGSIZE in
     slot (pm_mem s) root a <> 0 /\ leaf_pte (pte_at (pm_mem s) root a)).
Proof.
  destruct booted as (s & l & root & Hok & Has & Hpte & Hlen).
  pose proof (uvmalloc_ok end8 end8_range s l root 0 PGSIZE Hok Has) as H.
  assert (TRAPFRAME = 2 ^ 38 - 2 * 4096) as Ht by done. unfold PGSIZE in *.
  specialize (H ltac:(lia) ltac:(lia)). lapply H; [clear H; intros H|intros; by rewrite Hpte].
  destruct (proj1 (wp_inv _ _) H) as (r & s' & _ & l' & Hst & [(-> & Hgr)|(_ & Hl & _)]).
  2:{ clear H. assert (pages_between 0 4096 = 1%nat) as E by by vm_compute. rewrite Hlen, E in Hl. lia. }
  clear H.
  specialize (Hgr 0 ltac:(split; [done|change MAXVA with (2 ^ 38); lia])). simpl in Hgr.
  destruct Hgr as (p & Hp & E & _). pose proof (ok_valid _ _ _ Hok) as Hv. rewrite Forall_forall in Hv.
  specialize (Hv p Hp). destruct (pte_of_facts end8 end8_range p RWXU Hv) as (EP & EF & EV); [by vm_compute|].
  exists s', l', root. split_and!; [apply Hst|apply Hst| |].
  - unfold mapped, user_pa. change (PGROUNDDOWN 0) with 0. change (MAXVA <=? 0) with false. cbv iota.
    rewrite E, EV, (has_flags _ PTE_U) by by vm_compute. rewrite EF, EP. simpl.
    pose proof (valid_page_pos end8 end8_range p Hv). lia.
  - intros i Hi. replace (0 + Z.of_nat i * 4096) with 0 by lia. rewrite E. split.
    + eapply (has_slot end8 end8_range); [by rewrite E|apply Hst].
    + intros _. rewrite EF. by vm_compute.
Qed.

(** A parent with one page and a child with none. *)
Lemma booted_pair : exists s l old new, pm_ok end8 s l /\ as_wf end8 (pm_mem s) old l /\ as_wf end8 (pm_mem s) new l /\
  apart (pm_mem s) old new /\ mapped (pm_mem s) old 0 /\ (forall va, pte_at (pm_mem s) new va = 0) /\
  forall a, aligned_va a -> a < PGSIZE -> slot (pm_mem s) old a <> 0 /\ leaf_pte (pte_at (pm_mem s) old a) /\
    has (pte_at (pm_mem s) old a) PTE_V = true.
Proof.
  destruct booted as (s0 & [|p l] & old & Hok0 & Has0 & Hpte0 & Hlen); [done|]. injection Hlen as Hlen.
  destruct (proj1 (wp_inv _ _) (uvmcreate_apart end8 end8_range s0 p l old Hok0 Has0))
    as (new & s & _ & Hok & Hold & Hnew & Hap & Hptes & Hpte). apply apart_sym in Hap.
  assert (TRAPFRAME = 2 ^ 38 - 2 * 4096) as Ht by done. unfold PGSIZE in *.
  pose proof (uvmalloc_ok end8 end8_range s l old 0 PGSIZE Hok Hold) as H. unfold PGSIZE in *.
  specialize (H ltac:(lia) ltac:(lia)). lapply H; [clear H; intros H|intros; by rewrite Hptes, Hpte0].
  destruct (proj1 (wp_inv _ _) H) as (r & s' & _ & l' & Hst & [(-> & Hgr)|(_ & Hl & _)]); clear H.
  2:{ assert (pages_between 0 4096 = 1%nat) as E by by vm_compute. rewrite Hlen, E in Hl. lia. }
  assert (aligned_va 0) as Ha0 by (split; [done|change MAXVA with (2 ^ 38); lia]).
  assert (forall a, aligned_va a -> has (pte_at (pm_mem s') old a) PTE_V = true -> PTE2PA (pte_at (pm_mem s') old a) ∈ l) as Hfrom.
  { intros a Ha HV. specialize (Hgr a Ha). destruct (_ && _); [|by rewrite Hgr, Hptes, Hpte0 in HV].
    destruct Hgr as (q & Hq & E & _). pose proof (ok_valid _ _ _ Hok) as Hv. rewrite Forall_forall in Hv.
    rewrite E. by destruct (pte_of_facts end8 end8_range q RWXU (Hv q Hq)) as (-> & _); [by vm_compute|]. }
  specialize (Hgr 0 Ha0). simpl in Hgr.
  destruct Hgr as (q & Hq & E & _). pose proof (ok_valid _ _ _ Hok) as Hv. rewrite Forall_forall in Hv.
  specialize (Hv q Hq). destruct (pte_of_facts end8 end8_range q RWXU Hv) as (EP & EF & EV); [by vm_compute|].
  exists s', l', old, new. split_and!; [apply Hst|apply Hst|exact (other_wf end8 new old s s' l l' Hok Hnew Hold Hap Hst)| | | |].
  - apply apart_sym. eapply apart_after; try done. intros a Ha _ HV. right. by apply Hfrom.
  - unfold mapped, user_pa. change (PGROUNDDOWN 0) with 0. change (MAXVA <=? 0) with false. cbv iota.
    rewrite E, EV, (has_flags _ PTE_U) by by vm_compute. rewrite EF, EP. simpl.
    pose proof (valid_page_pos end8 end8_range q Hv). lia.
  - intros va. rewrite (other_pte end8 new old s s' l l'); done.
  - intros a [Ha Har] Hlt. replace a with 0 by (Z.div_mod_to_equations; unfold PGSIZE in *; lia). rewrite E. split_and!.
    + eapply (has_slot end8 end8_range); [by rewrite E|apply Hst].
    + intros _. rewrite EF. by vm_compute.
    + done.
Qed.

Lemma mappages_correct_witness : exists s l root,
  wp (mappages root 0 8192 end8 PTE_R s) (fun r s' => exists l' k,
    evolves end8 root s l s' l' /\
    (forall va', aligned_va va' -> pte_at (pm_mem s') root va' =
       remap (pte_at (pm_mem s) root) (PGROUNDDOWN 0) k end8 PTE_R va') /\
    (r = 0 /\ k = page_count 0 8192 \/
     r = -1 /\ 0 <= k < page_count 0 8192 /\ l' = [] /\ Z.of_nat (length l) < 2 * page_count 0 8192)).
Proof.
  destruct booted as (s & l & root & Hok & Has & Hpte & Hlen). exists s, l, root.
  apply (mappages_correct end8 end8_range); [done|apply Has|lia|lia|..|intros va' _ _; by rewrite Hpte];
    vm_compute; intuition discriminate.
Defined.

Lemma copyin_correct_witness : exists s l root, mapped (pm_mem s) root 0 /\ pt_wf end8 (pm_mem s) root l /\
  wp (copyin root 0 5 s) (fun r s' => s' = s /\
    match user_read (pm_mem s) root 0 (Z.to_nat 5) with Some bytes => r = (0, bytes) | None => r.1 = -1 end).
Proof.
  destruct booted_user as (s & l & root & Hok & Has & Hm & _). exists s, l, root. split_and!; [done|apply Has|].
  apply (copyin_correct end8 end8_range s l root); [apply Has|lia|lia].
Defined.

Lemma copyinstr_correct_witness : exists s l root, mapped (pm_mem s) root 0 /\ pt_wf end8 (pm_mem s) root l /\
  wp (copyinstr root 0 16 s) (fun r s' => s' = s /\
    match user_str (pm_mem s) root 0 (Z.to_nat 16) with Some bytes => r = (0, bytes) | None => r.1 = -1 end).
Proof.
  destruct booted_user as (s & l & root & Hok & Has & Hm & _). exists s, l, root. split_and!; [done|apply Has|].
  apply (copyinstr_correct end8 end8_range s l root); [apply Has|lia|lia].
Defined.

Lemma copyout_correct_witness : exists s l root, mapped (pm_mem s) root 0 /\
  wp (copyout root 0 [104; 105] (Z.of_nat (length [104; 105])) s) (fun r s' =>
    as_wf end8 (pm_mem s') root l /\
    (r = 0 <-> is_Some (user_read (pm_mem s) root 0 (length [104; 105]))) /\
    (r = 0 ->
     (forall va, 0 <= va -> ~ (0 <= va < 0 + Z.of_nat (length [104; 105])) ->
        user_byte (pm_mem s') root va = user_byte (pm_mem s) root va) /\
     wp (copyin root 0 (Z.of_nat (length [104; 105])) s') (fun r' _ => r' = (0, [104; 105])))).
Proof.
  destruct booted_user as (s & l & root & Hok & Has & Hm & _). exists s, l, root. split; [done|].
  apply (copyout_correct end8 end8_range s l root); [done|done|lia|].
  repeat constructor; unfold is_byte; lia.
Defined.

Lemma uvmalloc_correct_witness : exists s l root, length l = 7%nat /\
  wp (uvmalloc end8 root 0 8000 s) (fun r s' => exists l', as_step end8 root [] s l s' l' /\
    (r = 8000 /\
       (forall va, PGROUNDUP 0 <= va < 8000 -> user_byte (pm_mem s') root va = Some 0) /\
       (forall va, 0 <= va < PGROUNDUP 0 -> user_byte (pm_mem s') root va = user_byte (pm_mem s) root va) \/
     r = 0 /\ Z.of_nat (length l) < 3 * Z.of_nat (pages_between 0 8000) /\
       forall va, 0 <= va < TRAPFRAME -> user_byte (pm_mem s') root va = user_byte (pm_mem s) root va)).
Proof.
  destruct booted as (s & l & root & Hok & Has & Hpte & Hlen). exists s, l, root. split; [done|].
  apply (uvmalloc_correct end8 end8_range s l root); [done|done|lia|by vm_compute|].
  intros a _ _. by rewrite Hpte.
Defined.

Lemma uvmcopy_correct_witness : exists s (l : list Z) old new, mapped (pm_mem s) old 0 /\
  wp (uvmcopy end8 old new PGSIZE s) (fun r s' => exists l', pm_ok end8 s' l' /\
    as_wf end8 (pm_mem s') old l' /\ as_wf end8 (pm_mem s') new l' /\ apart (pm_mem s') old new /\
    (forall va, 0 <= va -> user_byte (pm_mem s') old va = user_byte (pm_mem s) old va) /\
    (r = 0 /\ (forall va, 0 <= va < PGROUNDUP PGSIZE -> user_byte (pm_mem s') new va = user_byte (pm_mem s) old va) /\
       (forall a, aligned_va a -> a < PGSIZE ->
          PTE_FLAGS (pte_at (pm_mem s') new a) = PTE_FLAGS (pte_at (pm_mem s) old a)) \/
     r = -1 /\ Z.of_nat (length l) < 3 * Z.of_nat (pages_between 0 PGSIZE) /\
       forall va, 0 <= va < TRAPFRAME -> user_byte (pm_mem s') new va = user_byte (pm_mem s) new va)).
Proof.
  destruct booted_pair as (s & l & old & new & Hok & Hold & Hnew & Hap & Hm & Hpte & Hpages).
  exists s, l, old, new. split; [done|].
  apply (uvmcopy_correct end8 end8_range); try done.
  - intros a Ha Hlt. destruct (Hpages a Ha Hlt) as (? & ? & _). done.
  - intros a _ _. by rewrite Hpte.
  - left. intros a Ha Hlt. by destruct (Hpages a Ha Hlt) as (_ & _ & ?).
Defined.

Lemma uvmunmap_correct_witness : exists s l root, mapped (pm_mem s) root 0 /\
  let freed := backing (pte_at (pm_mem s) root) 0 1 in
  wp (uvmunmap end8 root 0 (Z.of_nat 1) true s) (fun _ s' =>
    pm_ok end8 s' (freed ++ l) /\ as_wf end8 (pm_mem s') root (freed ++ l) /\
    forall x, 0 <= x -> user_byte (pm_mem s') root x =
      if decide (0 <= x < 0 + Z.of_nat 1 * PGSIZE) then None else user_byte (pm_mem s) root x).
Proof.
  destruct booted_user as (s & l & root & Hok & Has & Hm & Hslots). exists s, l, root. split; [done|].
  apply (uvmunmap_correct end8 end8_range s l root 0 1 true); [done|done|done|lia|by vm_compute|done].
Defined.

Lemma uvmunmap_unpopulated_witness :
  uvmunmap end8 end8 0x200000 1 true tiny = Panic "uvmunmap: walk".
Proof. apply uvmunmap_unpopulated; vm_compute; (reflexivity || discriminate). Defined.
