(* ===== verification/Block.v ===== *)
(** * Disk blocks and the interface of the buffer cache

    A block is a list of BSIZE bytes; the fields of the C structures the file
    system lays over a block (struct logheader, struct superblock, struct dinode,
    struct dirent) are read and written at byte offsets, little-endian.

    [BlockCache] is what the log and the file system rely on from bio.c: its
    operations run on the context of the calling process and the state of the
    cache, and its laws describe them on an abstract cache: the logical contents
    of every block, the contents of the disk, the sequence of disk writes, the
    blocks whose buffers are locked and the number of pins on each block.  Bio.v
    shows that bio.c satisfies it. *)
From S2P Require Import Prelude Machine Spinlock.
Local Open Scope Z_scope.
Local Open Scope kernel_scope.

(** ** Blocks *)
Definition BSIZE : Z := 1024.
Definition bsize : nat := 1024.

Definition block_ok (d : list Z) : Prop := length d = bsize /\ Forall is_byte d.
Definition zero_block : list Z := replicate bsize 0.

(** Bytes [off, off+n) of a block, and the block with them replaced. *)
Definition slice (d : list Z) (off n : nat) : list Z := take n (drop off d).
Definition splice (d : list Z) (off : nat) (l : list Z) : list Z :=
  take off d ++ l ++ drop (off + length l) d.

Definition get8 (d : list Z) (off : nat) : Z := le_decode (slice d off 1).
Definition get16 (d : list Z) (off : nat) : Z := le_decode (slice d off 2).
Definition get32 (d : list Z) (off : nat) : Z := le_decode (slice d off 4).
Definition put8 (d : list Z) (off : nat) (v : Z) : list Z := splice d off (le_encode 1 v).
Definition put16 (d : list Z) (off : nat) (v : Z) : list Z := splice d off (le_encode 2 v).
Definition put32 (d : list Z) (off : nat) (v : Z) : list Z := splice d off (le_encode 4 v).

Lemma length_slice d off n : (off + n <= length d)%nat -> length (slice d off n) = n.
Proof. intros. unfold slice. rewrite length_take, length_drop. lia. Qed.

Lemma length_splice d off l : (off + length l <= length d)%nat -> length (splice d off l) = length d.
Proof. intros. unfold splice. rewrite !length_app, length_take, length_drop. lia. Qed.

Lemma slice_splice_same d off l : (off + length l <= length d)%nat -> slice (splice d off l) off (length l) = l.
Proof.
  intros H. unfold slice, splice. rewrite drop_app_length' by (rewrite length_take; lia).
  by rewrite take_app_length' by lia.
Qed.

Lemma lookup_slice d off n i : (i < n)%nat -> slice d off n !! i = d !! (off + i)%nat.
Proof. intros. unfold slice. by rewrite lookup_take_lt, lookup_drop. Qed.

Lemma lookup_splice d off l i : (off + length l <= length d)%nat ->
  splice d off l !! i = if decide (off <= i < off + length l)%nat then l !! (i - off)%nat else d !! i.
Proof.
  intros H. unfold splice. assert (length (take off d) = off) as Ht by (rewrite length_take; lia).
  case_decide as E.
  - rewrite lookup_app_r by lia. rewrite lookup_app_l by lia. by rewrite Ht.
  - destruct (decide (i < off)%nat).
    + rewrite lookup_app_l by lia. by rewrite lookup_take_lt by lia.
    + rewrite lookup_app_r by lia. rewrite lookup_app_r by lia. rewrite lookup_drop. f_equal. lia.
Qed.

Lemma slice_ext d d' off n : (forall i, (off <= i < off + n)%nat -> d !! i = d' !! i) -> slice d off n = slice d' off n.
Proof.
  intros H. apply list_eq. intros i. destruct (decide (i < n)%nat).
  - rewrite !lookup_slice by done. apply H. lia.
  - unfold slice. rewrite !lookup_take_ge by lia. done.
Qed.

Lemma slice_splice_out d off l o n : (off + length l <= length d)%nat ->
  (o + n <= off \/ off + length l <= o)%nat -> slice (splice d off l) o n = slice d o n.
Proof. intros H Ho. apply slice_ext. intros i Hi. rewrite lookup_splice by done. case_decide; [lia|done]. Qed.

Lemma block_ok_splice d off l : block_ok d -> (off + length l <= bsize)%nat -> Forall is_byte l -> block_ok (splice d off l).
Proof.
  intros [Hl Hb] Ho Hbl. split; [by rewrite length_splice by lia|].
  unfold splice. rewrite !Forall_app. split_and!; [by apply Forall_take|done|by apply Forall_drop].
Qed.

Lemma block_ok_put32 d off v : block_ok d -> (off + 4 <= bsize)%nat -> block_ok (put32 d off v).
Proof. intros. apply block_ok_splice; [done|by rewrite length_le_encode|apply le_encode_bytes]. Qed.

Lemma get32_put32_same d off v : block_ok d -> (off + 4 <= bsize)%nat -> 0 <= v < 2 ^ 32 -> get32 (put32 d off v) off = v.
Proof.
  intros [Hl _] Ho Hv. unfold get32, put32. change 4%nat with (length (le_encode 4 v)) at 2.
  rewrite slice_splice_same by (rewrite length_le_encode; lia). by apply le_decode_encode.
Qed.

Lemma get32_put32_out d off v o : block_ok d -> (off + 4 <= bsize)%nat -> (o + 4 <= off \/ off + 4 <= o)%nat ->
  get32 (put32 d off v) o = get32 d o.
Proof.
  intros [Hl _] Ho Hoo. unfold get32, put32. by rewrite slice_splice_out by (rewrite length_le_encode; lia).
Qed.

Lemma get32_range d off : block_ok d -> 0 <= get32 d off < 2 ^ 32.
Proof.
  intros [_ Hb]. unfold get32, slice. assert (Forall is_byte (take 4 (drop off d))) as H by by apply Forall_take, Forall_drop.
  pose proof (le_decode_range _ H) as R. rewrite length_take in R.
  assert (256 ^ Z.of_nat (4 `min` length (drop off d)) <= 256 ^ 4) by (apply Z.pow_le_mono_r; lia). lia.
Qed.

Lemma zero_block_ok : block_ok zero_block.
Proof. split; [apply length_replicate|]. apply Forall_replicate. unfold is_byte. lia. Qed.

(** ** The context kernel code runs in: the hart, the process, and the wakeups
    it issued *)
Record ctx := Ctx { cx_hart : hart; cx_pid : Z; cx_wakes : list chan }.

Definition cx_ok (c : ctx) : Prop := hart_ok (cx_hart c).

(** What a call that returns does to the context of its caller. *)
Record cx_step (c c' : ctx) : Prop := {
  cx_same_hart : same_hart (cx_hart c') (cx_hart c);
  cx_same_pid : cx_pid c' = cx_pid c;
  cx_more_wakes : cx_wakes c `suffix_of` cx_wakes c'
}.

#[export] Instance cx_step_refl : Reflexive cx_step.
Proof. split; done. Qed.
#[export] Instance cx_step_trans : Transitive cx_step.
Proof. intros c1 c2 c3 [] []. split; by etransitivity. Qed.

Lemma hart_ok_same h h' : same_hart h' h -> hart_ok h -> hart_ok h'.
Proof.
  unfold same_hart, touched, hart_ok, intr_get. intros E. destruct h as [t s n i c], h' as [t' s' n' i' c'].
  simpl in *. destruct (n =? 0), (n' =? 0); simpl in *; unfold set_intena in E; simpl in E; by simplify_eq.
Qed.

Lemma cx_ok_step c c' : cx_step c c' -> cx_ok c -> cx_ok c'.
Proof. intros [H _ _]. by apply hart_ok_same. Qed.

(** ** The abstract cache *)
Record acache (B : Type) := AC {
  logical : Z -> list Z;              (* what a reader of the block gets *)
  on_disk : Z -> list Z;              (* what the disk holds *)
  writes : list (Z * list Z);         (* the disk writes so far, the latest last *)
  held : gmap Z B;                    (* the locked buffers, by block number *)
  pinned : gset Z                     (* the blocks the log keeps cached *)
}.
Arguments AC {B} logical on_disk writes held pinned.
Arguments logical {B} a n.
Arguments on_disk {B} a n.
Arguments writes {B} a.
Arguments held {B} a.
Arguments pinned {B} a.

Section acache.
Context {B : Type}.
Implicit Types (a : acache B).

Definition a_hold (n : Z) (b : B) a := AC (logical a) (on_disk a) (writes a) (<[n := b]> (held a)) (pinned a).
Definition a_drop (n : Z) a := AC (logical a) (on_disk a) (writes a) (delete n (held a)) (pinned a).
Definition a_set (n : Z) (d : list Z) a := AC (<[n := d]> (logical a)) (on_disk a) (writes a) (held a) (pinned a).
Definition a_write (n : Z) a :=
  AC (logical a) (<[n := logical a n]> (on_disk a)) (writes a ++ [(n, logical a n)]) (held a) (pinned a).
Definition a_pin (n : Z) a := AC (logical a) (on_disk a) (writes a) (held a) ({[n]} ∪ pinned a).
Definition a_unpin (n : Z) a := AC (logical a) (on_disk a) (writes a) (held a) (pinned a ∖ {[n]}).

(** A block written through to the disk. *)
Definition a_put (n : Z) (d : list Z) a :=
  AC (<[n := d]> (logical a)) (<[n := d]> (on_disk a)) (writes a ++ [(n, d)]) (held a) (pinned a).

(** The blocks whose buffers cannot be recycled. *)
Definition in_use a : gset Z := dom (held a) ∪ pinned a.
Definition room (n : Z) a : Prop := n ∈ in_use a \/ Z.of_nat (size (in_use a)) < NBUF.
End acache.

(** Abstract caches are compared block by block. *)
Record aequiv {B} (a a' : acache B) : Prop := {
  eq_logical : forall n, logical a n = logical a' n;
  eq_disk : forall n, on_disk a n = on_disk a' n;
  eq_writes : writes a = writes a';
  eq_held : held a = held a';
  eq_pinned : pinned a = pinned a'
}.

#[export] Instance aequiv_equiv {B} : Equivalence (@aequiv B).
Proof.
  split.
  - by split.
  - intros a a' []. by split.
  - intros a a' a'' [] []. split; intros; congruence.
Qed.

Definition is_u32 (n : Z) : Prop := 0 <= n < 2 ^ 32.

Class BlockCache (S B : Type) (dev : Z) := {
  binit : K (ctx * S) unit;
  bread : Z -> Z -> K (ctx * S) B;
  bwrite : B -> K (ctx * S) unit;
  brelse : B -> K (ctx * S) unit;
  bpin : B -> K (ctx * S) unit;
  bunpin : B -> K (ctx * S) unit;
  bdata : S -> B -> list Z;
  set_bdata : B -> list Z -> S -> S;
  bblockno : S -> B -> Z;

  (** The cache of a machine switched on with the given disk, and the relation
      to the abstract cache when the process [pid] holds the locked buffers. *)
  power_on : (Z -> list Z) -> S;
  rep : Z -> S -> acache B -> Prop;

  rep_equiv pid s a a' : aequiv a a' -> rep pid s a -> rep pid s a';
  binit_law c d : cx_ok c -> (forall n, block_ok (d n)) ->
    wp (binit (c, power_on d)) (fun _ '(c', s') => cx_step c c' /\ rep (cx_pid c) s' (AC d d [] ∅ ∅));
  bread_law c s a n : cx_ok c -> rep (cx_pid c) s a -> is_u32 n -> held a !! n = None -> room n a ->
    wp (bread dev n (c, s)) (fun b '(c', s') => cx_step c c' /\ rep (cx_pid c) s' (a_hold n b a));
  bwrite_law c s a n b : cx_ok c -> rep (cx_pid c) s a -> held a !! n = Some b ->
    wp (bwrite b (c, s)) (fun _ '(c', s') => cx_step c c' /\ rep (cx_pid c) s' (a_write n a));
  brelse_law c s a n b : cx_ok c -> rep (cx_pid c) s a -> held a !! n = Some b ->
    n ∈ pinned a \/ logical a n = on_disk a n ->
    wp (brelse b (c, s)) (fun _ '(c', s') => cx_step c c' /\ rep (cx_pid c) s' (a_drop n a));
  bpin_law c s a n b : cx_ok c -> rep (cx_pid c) s a -> held a !! n = Some b -> n ∉ pinned a ->
    wp (bpin b (c, s)) (fun _ '(c', s') => cx_step c c' /\ rep (cx_pid c) s' (a_pin n a));
  bunpin_law c s a n b : cx_ok c -> rep (cx_pid c) s a -> held a !! n = Some b -> n ∈ pinned a ->
    wp (bunpin b (c, s)) (fun _ '(c', s') => cx_step c c' /\ rep (cx_pid c) s' (a_unpin n a));
  bdata_law pid s a n b : rep pid s a -> held a !! n = Some b -> bdata s b = logical a n /\ bblockno s b = n;
  set_bdata_law pid s a n b d : rep pid s a -> held a !! n = Some b -> block_ok d ->
    rep pid (set_bdata b d s) (a_set n d a);
  rep_blocks pid s a : rep pid s a -> forall n, block_ok (logical a n) /\ block_ok (on_disk a n);
  rep_clean pid s a n : rep pid s a -> n ∉ pinned a -> held a !! n = None -> logical a n = on_disk a n;
  rep_held pid s a n : rep pid s a -> is_Some (held a !! n) -> is_u32 n
}.

#[export] Instance rep_proper {S B dev} `{!BlockCache S B dev} :
  Proper (eq ==> eq ==> aequiv ==> iff) (rep (BlockCache := _)).
Proof. intros pid ? <- s ? <- a a' E. split; by apply rep_equiv. Qed.
