(* ===== verification/Env.v ===== *)
(** * The process a kernel thread runs for

    [uenv] holds what the code of a system call sees of the machine and of its
    process: physical memory with the page allocator and the hart ([pm]),
    p->pid, p->killed and p->pagetable, and the wakeups it has issued.  The
    functions of proc.c that copy between kernel and user memory,
    [either_copyout] and [either_copyin], run on it; the lemmas restate the
    theorems on copyin and copyout for it. *)
From S2P Require Import Prelude Machine KString Spinlock Kalloc Vm UserMem AddrSpace VmSpec Block.
Local Open Scope Z_scope.
Local Open Scope kernel_scope.

Record uenv := UE { ue_pm : pm; ue_pid : Z; ue_killed : Z; ue_root : Z; ue_wakes : list chan }.

Definition set_ue_pm (v : pm) (e : uenv) : uenv := UE v (ue_pid e) (ue_killed e) (ue_root e) (ue_wakes e).
Definition set_ue_wakes (v : list chan) (e : uenv) : uenv := UE (ue_pm e) (ue_pid e) (ue_killed e) (ue_root e) v.
Definition set_ue_mem (m : gmap Z Z) (e : uenv) : uenv := set_ue_pm (set_mem m (ue_pm e)) e.

Definition envP : lens uenv pm := Lens ue_pm set_ue_pm.
Definition envH : lens uenv hart :=
  Lens (fun e => pm_hart (ue_pm e))
       (fun h e => set_ue_pm (PM h (pm_lock (ue_pm e)) (pm_freelist (ue_pm e)) (pm_mem (ue_pm e))) e).
Definition envC : lens uenv ctx :=
  Lens (fun e => Ctx (pm_hart (ue_pm e)) (ue_pid e) (ue_wakes e))
       (fun c e => UE (PM (cx_hart c) (pm_lock (ue_pm e)) (pm_freelist (ue_pm e)) (pm_mem (ue_pm e)))
                      (cx_pid c) (ue_killed e) (ue_root e) (cx_wakes c)).

Definition e_wakeup (c : chan) : K uenv unit := modify (fun e => set_ue_wakes (c :: ue_wakes e) e).

(** [dst] is the user address, or a kernel buffer: the bytes stored there are
    then the second part of the result. *)
Definition either_copyout (dst : option Z) (src : list Z) (len : Z) : K uenv (Z * list Z) :=
  _ <- zoom envH myproc;;
  root <- gets ue_root;;
  match dst with
  | Some va => r <- zoom envP (copyout root va src len);; ret (r, [])
  | None => ret (0, take (Z.to_nat len) src)
  end.

(** [src] is a user address, or the bytes of a kernel buffer. *)
Definition either_copyin (src : Z + list Z) (len : Z) : K uenv (Z * list Z) :=
  _ <- zoom envH myproc;;
  root <- gets ue_root;;
  match src with
  | inl va => zoom envP (copyin root va len)
  | inr bytes => ret (0, take (Z.to_nat len) bytes)
  end.

#[export] Instance envP_ok : LensOk envP.
Proof. split; try done; by intros []. Qed.
#[export] Instance envH_ok : LensOk envH.
Proof. split; try done; by intros [[] ? ? ? ?]. Qed.
#[export] Instance envC_ok : LensOk envC.
Proof. split; try done; [by intros [] [[] ? ? ? ?]|by intros [[] ? ? ? ?]]. Qed.

Definition ubyte (e : uenv) (va : Z) : option Z := user_byte (pm_mem (ue_pm e)) (ue_root e) va.
Definition uread (e : uenv) (va : Z) (n : nat) : option (list Z) := user_read (pm_mem (ue_pm e)) (ue_root e) va n.

Lemma uread_snoc e va k : uread e va (S k) = l ← uread e va k; b ← ubyte e (va + Z.of_nat k); Some (l ++ [b]).
Proof.
  unfold uread, ubyte. replace (S k) with (k + 1)%nat by lia. rewrite user_read_app.
  destruct (user_read _ _ va k); simpl; [|done]. by destruct (user_byte _ _ _).
Qed.

Lemma uread_None e va n : uread e va n = None <-> exists j, (j < n)%nat /\ ubyte e (va + Z.of_nat j) = None.
Proof.
  induction n as [|n IH]; [split; [done|intros (j & Hj & _); lia]|]. rewrite uread_snoc. split.
  - destruct (uread e va n) as [l|]; simpl.
    + destruct (ubyte e (va + Z.of_nat n)) eqn:E; [done|]. intros _. exists n. split; [lia|done].
    + intros _. destruct IH as [IH _]. destruct (IH eq_refl) as (j & Hj & E). exists j. split; [lia|done].
  - intros (j & Hj & E). destruct (decide (j = n)) as [->|].
    + rewrite E. by destruct (uread e va n).
    + replace (uread e va n) with (@None (list Z)); [done|]. symmetry. apply IH. exists j. split; [lia|done].
Qed.

Lemma ubyte_low e va : is_Some (ubyte e va) -> va < MAXVA.
Proof.
  unfold ubyte, user_byte. intros [b Hb]. destruct (_ =? 0) eqn:E; [done|]. apply Z.eqb_neq in E. by eapply user_pa_low.
Qed.

Lemma uread_low e va n l : uread e va n = Some l -> (0 < n)%nat -> va + Z.of_nat n <= MAXVA.
Proof.
  intros E Hn. destruct n as [|n]; [lia|]. rewrite uread_snoc in E.
  destruct (uread e va n); simpl in E; [|done]. destruct (ubyte e (va + Z.of_nat n)) eqn:Eb; simpl in E; [|done].
  assert (va + Z.of_nat n < MAXVA) by (apply (ubyte_low e); by eexists). lia.
Qed.

(** Two states in which the process has the same memory. *)
Definition same_user (e e' : uenv) : Prop := ue_root e' = ue_root e /\ forall va, ubyte e' va = ubyte e va.

#[export] Instance same_user_equiv : Equivalence same_user.
Proof.
  split; [done|intros e e' [? ?]; by split|]. intros e1 e2 e3 [H1 H2] [H3 H4]. split; [congruence|]. intros va. by rewrite H4, H2.
Qed.

Lemma same_user_read e e' va n : same_user e e' -> uread e' va n = uread e va n.
Proof. intros [_ H]. induction n as [|n IH]; [done|]. by rewrite !uread_snoc, IH, H. Qed.

Section env.
Context (kend : Z) (kend_range : 0 < kend <= PHYSTOP).

(** The machine is in order, with the free pages [l], and so is the process's
    address space. *)
Record env_ok (e : uenv) (l : list Z) : Prop := {
  eo_pm : pm_ok kend (ue_pm e) l;
  eo_as : as_wf kend (pm_mem (ue_pm e)) (ue_root e) l
}.

Lemma env_copyin e l va n : env_ok e l -> 0 <= va < 2 ^ 64 -> 0 <= n ->
  wp (zoom envP (copyin (ue_root e) va n) e) (fun r e' => e' = e /\
    match uread e va (Z.to_nat n) with Some bytes => r = (0, bytes) | None => r.1 = -1 end).
Proof.
  intros [Hpm Has] Hva Hn. apply wp_zoom. cbn [envP view].
  apply (copyin_loop kend kend_range (ue_pm e) (ue_root e) l); [apply Has|done|done| |];
    intros bytes E; unfold uread; rewrite E; split; try done; by destruct e.
Qed.

(** What [copyout] changes: user memory, and nothing else of the machine. *)
Record wrote_user (e e' : uenv) : Prop := {
  wu_eq : e' = set_ue_mem (pm_mem (ue_pm e')) e;
  wu_mapped : forall va, 0 <= va -> is_Some (ubyte e' va) <-> is_Some (ubyte e va)
}.

Lemma pm_ok_wrote e l va bytes : env_ok e l -> 0 <= va ->
  (forall i, 0 <= i < Z.of_nat (length bytes) -> mapped (pm_mem (ue_pm e)) (ue_root e) (va + i)) ->
  let m' := user_write (pm_mem (ue_pm e)) (pm_mem (ue_pm e)) (ue_root e) va bytes in
  env_ok (set_ue_mem m' e) l /\ wrote_user e (set_ue_mem m' e).
Proof.
  intros [Hpm Has] Hva Hmap m'. subst m'. split; split; simpl.
  - destruct Hpm as [H1 H2 H3 H4 H5 H6]. split; simpl; try done; [by apply mem_ok_user_write|].
    eapply chained_frame; [|exact H4]. intros p x Hp Hx. apply load8_user_write_out. intros i Hi ->.
    destruct (mapped_page kend _ _ l Has (va + i)) as (Hv & Hnl & _ & Hin); [lia|by apply Hmap|].
    rewrite Forall_forall in H6. apply (pages_disjoint kend p _ (user_addr (pm_mem (ue_pm e)) (ue_root e) (va + i)) (H6 _ Hp) Hv); [by intros ->|unfold in_page, PGSIZE; lia|done].
  - by apply user_write_wf.
  - done.
  - intros va' Hva'. unfold ubyte. simpl. rewrite (user_byte_write kend _ _ l) by done.
    case_decide as Hd; [|done]. rewrite (user_byte_mapped _ _ va').
    + split; intros _; [by eexists|]. rewrite fmap_is_Some. apply lookup_lt_is_Some_2. lia.
    + specialize (Hmap (va' - va)). replace (va + (va' - va)) with va' in Hmap by lia. apply Hmap. lia.
Qed.

Lemma env_copyout e l va src : env_ok e l -> 0 <= va < 2 ^ 64 -> Forall is_byte src ->
  wp (zoom envP (copyout (ue_root e) va src (Z.of_nat (length src))) e) (fun r e' =>
    env_ok e' l /\ wrote_user e e' /\ exists k, (k <= length src)%nat /\
      (forall va', 0 <= va' -> ubyte e' va' =
         if decide (va <= va' < va + Z.of_nat k) then src !! Z.to_nat (va' - va) else ubyte e va') /\
      (r = 0 /\ k = length src \/ r = -1 /\ uread e va (length src) = None)).
Proof.
  intros Hok Hva Hsrc. pose proof Hok as [Hpm Has]. apply wp_zoom. cbn [envP view].
  eapply wp_mono; [|by apply (copyout_ok kend kend_range (ue_pm e) (ue_root e) l)].
  intros r s' (k & Hk & -> & Hmap & Hr). assert (length (take k src) = k) as Hlk by (rewrite length_take; lia).
  destruct (pm_ok_wrote e l va (take k src)) as [H1 H2]; [done|lia|by rewrite Hlk|].
  split; [exact H1|]. split; [exact H2|]. exists k. split; [done|]. split; [|done].
  intros va' Hva'. unfold ubyte. cbn [over envP set_ue_pm ue_pm ue_root wrote set_mem pm_mem].
  rewrite (user_byte_write kend _ _ l) by (done || lia || by rewrite Hlk). rewrite Hlk.
  case_decide as Hd; [|done]. rewrite lookup_take_lt by lia.
  destruct (src !! Z.to_nat (va' - va)) as [b|] eqn:Eb; [|done]. simpl. f_equal. apply Z.mod_small.
  rewrite Forall_forall in Hsrc. apply Hsrc. by eapply list_elem_of_lookup_2.
Qed.

Lemma ubyte_byte e l va b : env_ok e l -> ubyte e va = Some b -> is_byte b.
Proof.
  intros [[_ _ Hm _ _ _] _] E. unfold ubyte, user_byte in E. destruct (_ =? 0); [done|]. injection E as <-. apply Hm.
Qed.

Lemma env_copyin1 e l va : env_ok e l -> 0 <= va < 2 ^ 64 ->
  wp (zoom envP (copyin (ue_root e) va 1) e) (fun r e' => e' = e /\
    match ubyte e va with Some b => r = (0, [b]) | None => r.1 = -1 end).
Proof.
  intros Hok Hva. eapply wp_mono; [|by apply (env_copyin e l va 1)]. intros r e' [-> H]. split; [done|].
  change (Z.to_nat 1) with 1%nat in H. rewrite uread_snoc, Z.add_0_r in H. simpl in H. by destruct (ubyte e va).
Qed.

Lemma env_copyout1 e l va b : env_ok e l -> 0 <= va < 2 ^ 64 -> is_byte b ->
  wp (zoom envP (copyout (ue_root e) va [b] 1) e) (fun r e' =>
    env_ok e' l /\ wrote_user e e' /\
    (r = 0 /\ (forall va', 0 <= va' -> ubyte e' va' = if decide (va' = va) then Some b else ubyte e va') \/
     r = -1 /\ ubyte e va = None /\ forall va', 0 <= va' -> ubyte e' va' = ubyte e va')).
Proof.
  intros Hok Hva Hb. eapply wp_mono; [|apply (env_copyout e l va [b] Hok Hva); by constructor].
  intros r e' (Hok' & Hw & k & Hk & Hu & Hr). split; [done|]. split; [done|]. destruct Hr as [[-> ->]|[-> Hn]].
  - left. split; [done|]. intros va' Hva'. rewrite Hu by done. simpl length in *. repeat case_decide; try lia; [|done].
    by replace (va' - va) with 0 by lia.
  - right. simpl length in Hn. rewrite uread_snoc, Z.add_0_r in Hn. simpl in Hn.
    assert (ubyte e va = None) as Eva by by destruct (ubyte e va). split; [done|]. split; [done|]. intros va' Hva'.
    rewrite Hu by done. case_decide as Hd; [|done]. simpl length in Hk. replace va' with va in * by lia.
    pose proof (wu_mapped _ _ Hw va Hva') as Hm. rewrite Hu, decide_True, Eva in Hm by lia.
    destruct (proj1 Hm); [|done]. rewrite Z.sub_diag. by eexists.
Qed.

Lemma env_ok_hart e l h : env_ok e l -> hart_ok h -> env_ok (over envH h e) l.
Proof. intros [[] H] Hh. split; [by split|done]. Qed.

Lemma env_ok_wakes e l w : env_ok e l -> env_ok (set_ue_wakes w e) l.
Proof. by intros []. Qed.
End env.

(** ** Steps of the code of a system call

    [estep]: only the context of the process changes (the hart and the wakeups);
    [ustep]: and the memory. *)
Definition estep (e e' : uenv) : Prop := exists c, cx_step (view envC e) c /\ e' = over envC c e.
Definition ustep (e e' : uenv) : Prop := exists c m, cx_step (view envC e) c /\ e' = over envC c (set_ue_mem m e).

#[export] Instance estep_refl : Reflexive estep.
Proof. intros e. exists (view envC e). by rewrite over_view. Qed.
#[export] Instance estep_trans : Transitive estep.
Proof.
  intros e1 e2 e3 (c1 & H1 & ->) (c2 & H2 & ->). exists c2. rewrite view_over in H2. split; [by etransitivity|]. by rewrite over_over.
Qed.

Lemma over_mem c m e : over envC c (set_ue_mem m e) = set_ue_mem m (over envC c e).
Proof. by destruct e as [[] ? ? ? ?]. Qed.
Lemma view_mem m e : view envC (set_ue_mem m e) = view envC e.
Proof. done. Qed.
Lemma set_mem_id e : set_ue_mem (pm_mem (ue_pm e)) e = e.
Proof. by destruct e as [[] ? ? ? ?]. Qed.
Lemma set_mem_mem m m' e : set_ue_mem m (set_ue_mem m' e) = set_ue_mem m e.
Proof. done. Qed.

#[export] Instance ustep_refl : Reflexive ustep.
Proof. intros e. exists (view envC e), (pm_mem (ue_pm e)). split; [done|]. by rewrite set_mem_id, over_view. Qed.
#[export] Instance ustep_trans : Transitive ustep.
Proof.
  intros e1 e2 e3 (c1 & m1 & H1 & ->) (c2 & m2 & H2 & ->). exists c2, m2. rewrite view_over in H2.
  split; [by etransitivity|]. by rewrite !over_mem, over_over, set_mem_mem.
Qed.
Lemma estep_ustep e e' : estep e e' -> ustep e e'.
Proof. intros (c & H & ->). exists c, (pm_mem (ue_pm e)). split; [done|]. by rewrite set_mem_id. Qed.
Lemma wrote_ustep e e' : wrote_user e e' -> ustep e e'.
Proof. intros [E _]. exists (view envC e), (pm_mem (ue_pm e')). split; [done|]. by rewrite over_mem, over_view. Qed.

Lemma estep_user e e' : estep e e' -> same_user e e'.
Proof. intros (c & _ & ->). by destruct e as [[] ? ? ? ?]. Qed.
Lemma estep_env_ok kend e e' l : estep e e' -> env_ok kend e l -> env_ok kend e' l.
Proof.
  intros (c & [H _ _] & ->) [[] Has]. split; [|done]. split; try done. by eapply hart_ok_same.
Qed.

(** The process whose memory is copied. *)
Lemma e_myproc e : cx_ok (view envC e) -> exists e', zoom envH myproc e = Done (cproc (view envH e)) e' /\ estep e e'.
Proof.
  intros Hc. eexists. split; [apply zoom_Done, myproc_run, Hc|].
  exists (Ctx (touched (view envH e)) (ue_pid e) (ue_wakes e)). split; [|done]. split; [apply same_hart_touched|done|done].
Qed.

(** The bytes at a source, when they can be read. *)
Definition src_read (e : uenv) (src : Z + list Z) (len : Z) : option (list Z) :=
  match src with
  | inl va => uread e va (Z.to_nat len)
  | inr bytes => Some (take (Z.to_nat len) bytes)
  end.
Definition src_ok (kend : Z) (e : uenv) (src : Z + list Z) : Prop :=
  match src with inl va => 0 <= va < 2 ^ 64 /\ exists l, env_ok kend e l | inr _ => True end.

(** The rest of a source after [t] bytes. *)
Definition src_at (t : Z) (src : Z + list Z) : Z + list Z :=
  match src with inl va => inl (u64 (va + t)) | inr bytes => inr (drop (Z.to_nat t) bytes) end.

Lemma uread_app e va n m : uread e va (n + m) = l1 ← uread e va n; l2 ← uread e (va + Z.of_nat n) m; Some (l1 ++ l2).
Proof. apply user_read_app. Qed.

Lemma length_uread e va n l : uread e va n = Some l -> length l = n.
Proof.
  revert l. induction n as [|n IH]; intros l; [by intros [= <-]|]. rewrite uread_snoc. destruct (uread e va n) as [l'|] eqn:E; [|done].
  simpl. destruct (ubyte _ _); [|done]. intros [= <-]. rewrite length_app, (IH l') by done. simpl. lia.
Qed.

(** Part of a source that can be read. *)
Lemma src_read_part e src n bytes t m : src_read e src n = Some bytes -> Z.of_nat (length bytes) = n ->
  match src with inl va => 0 <= va | inr _ => True end ->
  0 <= t -> 0 < m -> t + m <= n -> src_read e (src_at t src) m = Some (slice bytes (Z.to_nat t) (Z.to_nat m)).
Proof.
  intros E Hl Hs Ht Hm Htm. destruct src as [va|l]; cbn [src_read src_at] in *.
  - pose proof (uread_low e va _ _ E) as Hlow. assert (MAXVA <= 2 ^ 64) by done. unfold u64. rewrite Z.mod_small by lia.
    replace (Z.to_nat n) with (Z.to_nat t + (Z.to_nat m + Z.to_nat (n - t - m)))%nat in E by lia. rewrite !uread_app in E.
    destruct (uread e va (Z.to_nat t)) as [l1|] eqn:E1; [|done]. cbn [mbind option_bind] in E. rewrite Z2Nat.id in E by lia.
    destruct (uread e (va + t) (Z.to_nat m)) as [l2|] eqn:E2; [|done]. cbn [mbind option_bind] in E.
    destruct (uread e (va + t + _) _) as [l3|]; [|done]. cbn [mbind option_bind] in E. injection E as <-. f_equal. unfold slice.
    rewrite drop_app_length' by (symmetry; by eapply length_uread). symmetry. apply take_app_length'. symmetry. by eapply length_uread.
  - injection E as <-. f_equal. apply (slice_ext l). intros i Hi. rewrite lookup_take_lt by lia. done.
Qed.

Lemma src_ok_at kend e e' src t : estep e e' -> src_ok kend e src -> src_ok kend e' (src_at t src).
Proof.
  intros He. destruct src as [va|l]; cbn [src_ok src_at]; [|done]. intros [Hva [l Hl]]. split; [by apply Z.mod_pos_bound|].
  exists l. by eapply estep_env_ok.
Qed.

Lemma src_read_estep e e' src n : estep e e' -> src_read e' src n = src_read e src n.
Proof. intros He. destruct src; [|done]. by apply same_user_read, estep_user. Qed.

Lemma either_copyin_ok kend e src len : 0 < kend <= PHYSTOP -> cx_ok (view envC e) -> src_ok kend e src -> 0 <= len ->
  wp (either_copyin src len e) (fun r e' => estep e e' /\
    match src_read e src len with Some bytes => r = (0, bytes) | None => r.1 = -1 end).
Proof.
  intros Hk Hc Hs Hlen. unfold either_copyin. kstep. destruct (e_myproc e Hc) as (e1 & -> & S1). cbn [wp]. kstep. kstep.
  destruct src as [va|bytes]; [|by kstep]. destruct Hs as [Hva [l Hl]].
  eapply wp_mono; [|apply (env_copyin kend Hk e1 l va len); [by eapply estep_env_ok|done|done]].
  intros r e' [-> H]. split; [done|]. cbn [src_read]. by rewrite (same_user_read e e1) in H by by apply estep_user.
Qed.

Lemma either_copyout_kernel e src len : cx_ok (view envC e) ->
  wp (either_copyout None src len e) (fun r e' => estep e e' /\ r = (0, take (Z.to_nat len) src)).
Proof. intros Hc. unfold either_copyout. kstep. destruct (e_myproc e Hc) as (e1 & -> & S1). cbn [wp]. by ksteps. Qed.

Lemma either_copyout_user kend e l va src : 0 < kend <= PHYSTOP -> env_ok kend e l -> 0 <= va < 2 ^ 64 -> Forall is_byte src ->
  wp (either_copyout (Some va) src (Z.of_nat (length src)) e) (fun r e' =>
    env_ok kend e' l /\ ustep e e' /\ r.2 = [] /\ exists k, (k <= length src)%nat /\
      (forall va', 0 <= va' -> ubyte e' va' =
         if decide (va <= va' < va + Z.of_nat k) then src !! Z.to_nat (va' - va) else ubyte e va') /\
      (r.1 = 0 /\ k = length src \/ r.1 = -1 /\ uread e va (length src) = None)).
Proof.
  intros Hk Hok Hva Hb. unfold either_copyout. kstep. destruct (e_myproc e) as (e1 & -> & S1); [apply Hok|]. cbn [wp].
  kstep. kstep. kstep. pose proof (estep_user _ _ S1) as [Er Eu].
  eapply wp_mono; [|apply (env_copyout kend Hk e1 l va src); [by eapply estep_env_ok|done|done]].
  intros r e' (H1 & H2 & k & H3 & H4 & H5). kstep. split; [done|]. split; [etransitivity; [by apply estep_ustep|by apply wrote_ustep]|].
  split; [done|]. exists k. split; [done|]. cbn [fst]. rewrite (same_user_read e e1) in H5 by done. split; [|done].
  intros va' Hva'. rewrite H4 by done. by rewrite Eu.
Qed.

Lemma same_user_hart e h : same_user e (over envH h e).
Proof. done. Qed.
Lemma same_user_wakes e w : same_user e (set_ue_wakes w e).
Proof. done. Qed.

(** A process with one page of memory on a freshly booted machine. *)
Lemma booted_env : exists e l, env_ok end8 e l /\ noff (view envH e) = 0 /\ (exists b, ubyte e 0 = Some b) /\
  ue_pid e = 1 /\ ue_killed e = 0 /\ ue_wakes e = [].
Proof.
  destruct booted_user as (s & l & root & Hok & Has & Hm & _).
  exists (over envH boot_hart (UE s 1 0 root [])), l. split_and!; try done.
  - apply env_ok_hart; [by split|by split_and!].
  - unfold ubyte. simpl. eexists. by apply user_byte_mapped.
Qed.
