(* ===== verification/Pipe.v ===== *)
(** * kernel/pipe.c: pipes

    A pipe is a ring of PIPESIZE bytes with two 32-bit counters that are never
    reduced modulo PIPESIZE.  The file gives [pipewrite], [piperead] and
    [pipeclose] (pipealloc, which builds the two files of a pipe, is in File.v),
    and shows that a pipe is a bounded FIFO queue: under any interleaving with
    readers, what a writer writes is appended in order and nothing is lost, and
    under any interleaving with writers a reader takes a prefix; a sleeping
    writer has woken the readers, and a sleeping reader has found the pipe
    empty. *)
From S2P Require Import Prelude Machine KString Spinlock Kalloc Vm UserMem VmSpec Block Env.
Local Open Scope Z_scope.
Local Open Scope kernel_scope.

Definition PIPESIZE : Z := 512.

Record pipe := mkPipe {
  pi_lock : spinlock;
  pi_data : list Z;
  pi_nread : Z;      (* number of bytes read *)
  pi_nwrite : Z;     (* number of bytes written *)
  pi_readopen : Z;   (* read fd is still open *)
  pi_writeopen : Z   (* write fd is still open *)
}.

Definition set_pi_lock (v : spinlock) (p : pipe) : pipe :=
  mkPipe v (pi_data p) (pi_nread p) (pi_nwrite p) (pi_readopen p) (pi_writeopen p).
(** pi->data[pi->nwrite++ % PIPESIZE] = ch *)
Definition push_byte (ch : Z) (p : pipe) : pipe :=
  mkPipe (pi_lock p) (<[Z.to_nat (pi_nwrite p mod PIPESIZE) := ch]> (pi_data p))
         (pi_nread p) (u32 (pi_nwrite p + 1)) (pi_readopen p) (pi_writeopen p).
(** ch = pi->data[pi->nread++ % PIPESIZE] *)
Definition front_byte (p : pipe) : Z := default 0 (pi_data p !! Z.to_nat (pi_nread p mod PIPESIZE)).
Definition pop_byte (p : pipe) : pipe :=
  mkPipe (pi_lock p) (pi_data p) (u32 (pi_nread p + 1)) (pi_nwrite p) (pi_readopen p) (pi_writeopen p).
Definition set_readopen (v : Z) (p : pipe) : pipe :=
  mkPipe (pi_lock p) (pi_data p) (pi_nread p) (pi_nwrite p) v (pi_writeopen p).
Definition set_writeopen (v : Z) (p : pipe) : pipe :=
  mkPipe (pi_lock p) (pi_data p) (pi_nread p) (pi_nwrite p) (pi_readopen p) v.

(** The process that runs, and the pipe. *)
Record pst := PS { ps_env : uenv; ps_pipe : pipe }.

Definition psE : lens pst uenv := Lens ps_env (fun e s => PS e (ps_pipe s)).
Definition psH : lens pst hart :=
  Lens (fun s => view envH (ps_env s)) (fun h s => PS (over envH h (ps_env s)) (ps_pipe s)).
Definition psL : lens pst spinlock :=
  Lens (fun s => pi_lock (ps_pipe s)) (fun l s => PS (ps_env s) (set_pi_lock l (ps_pipe s))).

Definition pi_get {A} (f : pipe -> A) : K pst A := gets (fun s => f (ps_pipe s)).
Definition pi_upd (f : pipe -> pipe) : K pst unit := modify (fun s => PS (ps_env s) (f (ps_pipe s))).

(** A loop of the source left by [return v], or at the end of its condition or
    by [break] with the loop variable [i]. *)
Inductive leave := Return (v : Z) | Break (i : Z).

Section code.
Context (kend : Z).
(** The address of the struct pipe. *)
Context (pi : Z).

Definition pipe_full (p : pipe) : bool := pi_nwrite p =? u32 (pi_nread p + PIPESIZE).
Definition pipe_empty (p : pipe) : bool := pi_nread p =? pi_nwrite p.
Definition write_hopeless (s : pst) : bool := (pi_readopen (ps_pipe s) =? 0) || negb (ue_killed (ps_env s) =? 0).

Definition pipewrite (addr n : Z) : K pst Z :=
  _ <- zoom psH myproc;;
  acquire psH psL;;
  r <- while_ budget (fun i =>
    if negb (i <? n) then ret (inr (Break i)) else
    stop <- gets write_hopeless;;
    if stop : bool then release psH psL;; ret (inr (Return (-1))) else
    full <- pi_get pipe_full;;
    if full : bool then
      zoom psE (e_wakeup (ChanRead pi));;
      sleep_until psH psL (ChanWrite pi) (fun s => negb (pipe_full (ps_pipe s)) || write_hopeless s);;
      ret (inl i)
    else
      root <- gets (fun s => ue_root (ps_env s));;
      c <- zoom psE (zoom envP (copyin root (u64 (addr + i)) 1));;
      if c.1 =? -1 then ret (inr (Break i)) else
      pi_upd (push_byte (default 0 (head c.2)));;
      ret (inl (i + 1))) 0;;
  match r with
  | Return v => ret v
  | Break i => zoom psE (e_wakeup (ChanRead pi));; release psH psL;; ret i
  end.

Definition read_waits (s : pst) : bool := pipe_empty (ps_pipe s) && negb (pi_writeopen (ps_pipe s) =? 0).

Definition piperead (addr n : Z) : K pst Z :=
  _ <- zoom psH myproc;;
  acquire psH psL;;
  dead <- while_ budget (fun _ : unit =>
    w <- gets read_waits;;
    if negb w then ret (inr false) else
    k <- gets (fun s => ue_killed (ps_env s));;
    if negb (k =? 0) then release psH psL;; ret (inr true) else
    sleep_until psH psL (ChanRead pi) (fun s => negb (read_waits s) || negb (ue_killed (ps_env s) =? 0));;
    ret (inl tt)) tt;;
  if dead : bool then ret (-1) else
  r <- for_each (seqZ 0 n) (fun i =>
    e <- pi_get pipe_empty;;
    if e : bool then ret (Some i) else
    ch <- pi_get front_byte;;
    pi_upd pop_byte;;
    root <- gets (fun s => ue_root (ps_env s));;
    c <- zoom psE (zoom envP (copyout root (u64 (addr + i)) [ch] 1));;
    if c =? -1 then ret (Some i) else ret None);;
  let i := default (Z.max 0 n) r in
  zoom psE (e_wakeup (ChanWrite pi));;
  release psH psL;;
  ret i.

Definition pipeclose (writable : bool) : K pst unit :=
  acquire psH psL;;
  (if writable then
     pi_upd (set_writeopen 0);; zoom psE (e_wakeup (ChanRead pi))
   else
     pi_upd (set_readopen 0);; zoom psE (e_wakeup (ChanWrite pi)));;
  ro <- pi_get pi_readopen;;
  wo <- pi_get pi_writeopen;;
  if (ro =? 0) && (wo =? 0) then
    release psH psL;;
    zoom psE (zoom envP (kfree kend pi))
  else release psH psL.
End code.

#[export] Instance psH_ok : LensOk psH.
Proof. split; intros; simpl; try done; by destruct s as [[[] ? ? ? ?] ?]. Qed.
#[export] Instance psL_ok : LensOk psL.
Proof. split; intros; simpl; try done; by destruct s as [? []]. Qed.
#[export] Instance psHL_disj : LensDisj psH psL.
Proof. done. Qed.

(** ** The queue a pipe holds *)
Record pipe_rep (p : pipe) (q : list Z) : Prop := {
  pr_data : length (pi_data p) = Z.to_nat PIPESIZE;
  pr_nread : 0 <= pi_nread p < 2 ^ 32;
  pr_nwrite : pi_nwrite p = u32 (pi_nread p + Z.of_nat (length q));
  pr_len : Z.of_nat (length q) <= PIPESIZE;
  pr_bytes : Forall is_byte q;
  pr_queue : forall k b, q !! k = Some b -> pi_data p !! Z.to_nat ((pi_nread p + Z.of_nat k) mod PIPESIZE) = Some b
}.

Section queue.
Context (p : pipe) (q : list Z) (Hrep : pipe_rep p q).

Lemma u32_mod_512 x : u32 x mod PIPESIZE = x mod PIPESIZE.
Proof. unfold u32, PIPESIZE. Z.div_mod_to_equations. lia. Qed.

Lemma nwrite_diff n : 0 <= n <= PIPESIZE -> pi_nwrite p = u32 (pi_nread p + n) <-> Z.of_nat (length q) = n.
Proof.
  destruct Hrep as [_ Hr -> Hl _ _]. unfold PIPESIZE in *. intros Hn. split; [|by intros <-].
  unfold u32. intros E. Z.div_mod_to_equations. lia.
Qed.

Lemma pipe_full_iff : pipe_full p = true <-> Z.of_nat (length q) = PIPESIZE.
Proof. unfold pipe_full. rewrite Z.eqb_eq. apply nwrite_diff. unfold PIPESIZE. lia. Qed.

Lemma pipe_empty_iff : pipe_empty p = true <-> q = [].
Proof.
  unfold pipe_empty. rewrite Z.eqb_eq. transitivity (pi_nwrite p = u32 (pi_nread p + 0)).
  - rewrite Z.add_0_r, u32_id by apply Hrep. done.
  - rewrite nwrite_diff by (unfold PIPESIZE; lia). destruct q; simpl; split; intros; lia || done.
Qed.

Lemma push_byte_rep ch : is_byte ch -> Z.of_nat (length q) < PIPESIZE -> pipe_rep (push_byte ch p) (q ++ [ch]).
Proof.
  intros Hch Hlt. destruct Hrep as [Hd Hr Hw Hl Hb Hq]. unfold PIPESIZE in *. split; simpl.
  - by rewrite length_insert.
  - done.
  - rewrite Hw, length_app. simpl. unfold u32. rewrite Zplus_mod_idemp_l. f_equal. lia.
  - rewrite length_app. simpl. unfold PIPESIZE. lia.
  - apply Forall_app. split; [done|]. by constructor.
  - intros k b Hk. rewrite Hw, u32_mod_512. unfold PIPESIZE in *. destruct (decide (k = length q)) as [->|Hne].
    + rewrite lookup_app_r, Nat.sub_diag in Hk by lia. injection Hk as ->. apply list_lookup_insert_eq.
      rewrite Hd. pose proof (Z.mod_pos_bound (pi_nread p + Z.of_nat (length q)) 512). lia.
    + pose proof (lookup_lt_Some _ _ _ Hk) as Hlk. rewrite length_app in Hlk. simpl in Hlk.
      rewrite lookup_app_l in Hk by lia. rewrite list_lookup_insert_ne; [by apply Hq|].
      pose proof (Z.mod_pos_bound (pi_nread p + Z.of_nat (length q)) 512). pose proof (Z.mod_pos_bound (pi_nread p + Z.of_nat k) 512).
      intros E. assert ((pi_nread p + Z.of_nat (length q)) mod 512 = (pi_nread p + Z.of_nat k) mod 512) as E' by lia.
      Z.div_mod_to_equations. lia.
Qed.

Lemma pop_byte_rep b q' : q = b :: q' -> front_byte p = b /\ pipe_rep (pop_byte p) q'.
Proof.
  intros ->. destruct Hrep as [Hd Hr Hw Hl Hb Hq]. unfold front_byte. pose proof (Hq O b eq_refl) as H0. rewrite Z.add_0_r in H0.
  rewrite H0. simpl in *. split; [done|]. split; simpl; try done.
  - apply u32_range.
  - rewrite Hw. unfold u32. rewrite Zplus_mod_idemp_l. f_equal. lia.
  - lia.
  - by apply Forall_cons_iff in Hb as [_ Hb].
  - intros k c Hk. rewrite <- (Hq (S k) c Hk). f_equal. f_equal. unfold PIPESIZE, u32. Z.div_mod_to_equations. lia.
Qed.
End queue.

Lemma pipe_rep_lock p q lk : pipe_rep p q -> pipe_rep (set_pi_lock lk p) q.
Proof. by intros []. Qed.

Section fifo.
Context (kend : Z) (kend_range : 0 < kend <= PHYSTOP) (pi : Z).
Notation env_ok := (env_ok kend).

(** What the others may do while this process sleeps: the pipe stays unlocked
    and the memory of this process as it is. *)
Record undisturbed (s s' : pst) : Prop := {
  un_lock : free_lock (pi_lock (ps_pipe s'));
  un_user : same_user (ps_env s) (ps_env s');
  un_env : exists l, env_ok (ps_env s') l;
  un_hart : noff (view psH s') = 0
}.

(** The readers only: they take bytes from the front of the queue.  [t] is the
    history of what they took. *)
Definition readers (s : pst) (t : list Z) (s' : pst) (t' : list Z) : Prop := undisturbed s s' /\
  forall q, pipe_rep (ps_pipe s) q -> exists x q', q = x ++ q' /\ t' = t ++ x /\ pipe_rep (ps_pipe s') q'.

(** A writer sleeps on a full pipe it has woken the readers of. *)
Definition writer_sleeps (c : option chan) (s : pst) : Prop :=
  c = Some (ChanWrite pi) /\ pipe_full (ps_pipe s) = true /\ ChanRead pi ∈ ue_wakes (ps_env s) /\
  free_lock (pi_lock (ps_pipe s)).

Lemma ps_copyin1 s l va : env_ok (ps_env s) l -> 0 <= va < 2 ^ 64 ->
  wp (zoom psE (zoom envP (copyin (ue_root (ps_env s)) va 1)) s) (fun r s' => s' = s /\
    match ubyte (ps_env s) va with Some b => r = (0, [b]) | None => r.1 = -1 end).
Proof.
  intros Hl Hva. apply wp_zoom. cbn [psE view]. eapply wp_mono; [|exact (env_copyin1 kend kend_range _ l va Hl Hva)].
  intros r e' [-> Hr]. split; [by destruct s|exact Hr].
Qed.

(** The pipe at rest: unlocked, with no lock held by this hart. *)
Record at_rest (s : pst) (q : list Z) : Prop := {
  ar_env : exists l, env_ok (ps_env s) l;
  ar_lock : free_lock (pi_lock (ps_pipe s));
  ar_hart : noff (view psH s) = 0;
  ar_queue : pipe_rep (ps_pipe s) q
}.

(** The entry of both functions: myproc() and acquire(). *)
Lemma enter_ok s q : at_rest s q -> exists s1, (_ <- zoom psH myproc;; acquire psH psL) s = Done tt s1 /\
  (exists h, inside_lock psH psL h s1) /\ (exists l, env_ok (ps_env s1) l) /\ same_user (ps_env s) (ps_env s1) /\
  (exists lk, ps_pipe s1 = set_pi_lock lk (ps_pipe s)) /\ ue_killed (ps_env s1) = ue_killed (ps_env s) /\
  ue_wakes (ps_env s1) = ue_wakes (ps_env s).
Proof.
  intros [[l Hl] [Hk _] Hn Hq]. assert (hart_ok (view psH s)) as Hh by apply (eo_pm _ _ _ Hl).
  erewrite bind_Done by (apply zoom_Done, myproc_run, Hh). set (s0 := over psH _ s).
  assert (hart_ok (touched (view psH s))) as Ht by by apply hart_ok_touched.
  assert (noff (touched (view psH s)) = 0) as Hn0 by (by rewrite (same_hart_noff _ _ (same_hart_touched _))).
  destruct (acquire_enter psH psL s0) as (s1 & E1 & Hin & ->); [exact Ht|exact Hn0|exact Hk|].
  eexists. split; [exact E1|]. split; [eexists; exact Hin|]. split_and!; try done.
  - exists l. by apply env_ok_hart, hart_ok_pushed; [apply env_ok_hart|].
  - eexists. reflexivity.
Qed.

Section write.
Context (e0 : uenv) (addr : Z) (q0 : list Z) (Haddr : 0 <= addr < 2 ^ 64).

(** [i] bytes of the process's buffer were appended, and readers took [t]. *)
Record wrote_upto (i : Z) (s : pst) (t : list Z) : Prop := {
  wu_env : exists l, env_ok (ps_env s) l;
  wu_user : same_user e0 (ps_env s);
  wu_queue : exists q bytes, pipe_rep (ps_pipe s) q /\ uread e0 addr (Z.to_nat i) = Some bytes /\ t ++ q = q0 ++ bytes
}.

Lemma wrote_upto_move i s t e lk : wrote_upto i s t -> (exists l, env_ok e l) -> same_user (ps_env s) e ->
  wrote_upto i (PS e (set_pi_lock lk (ps_pipe s))) t.
Proof.
  intros [H1 H2 (q & bytes & Hq & Hr & E)] He Hs. split; [done|by etransitivity|].
  exists q, bytes. split; [by apply pipe_rep_lock|done].
Qed.

Lemma wrote_upto_env i s t e : wrote_upto i s t -> (exists l, env_ok e l) -> same_user (ps_env s) e -> wrote_upto i (PS e (ps_pipe s)) t.
Proof. intros [H1 H2 H3] He Hs. split; [done|by etransitivity|done]. Qed.

Lemma wrote_upto_leave i h s t : inside_lock psH psL h s -> wrote_upto i s t -> wrote_upto i (unlocked psH psL h s) t.
Proof.
  intros (Hh & _ & _ & _) Hw. destruct (wu_env _ _ _ Hw) as [l Hl]. apply wrote_upto_move; [done| |done].
  exists l. by apply env_ok_hart, hart_ok_touched.
Qed.

(** The writer goes on after readers ran. *)
Lemma wrote_upto_resume i s t s' t' : wrote_upto i s t -> readers s t s' t' -> wrote_upto i s' t'.
Proof.
  intros [H1 H2 (q & bytes & Hq & Hr & E)] [[Hl Hu He _] Hrd]. destruct (Hrd q Hq) as (x & q' & -> & -> & Hq').
  split; [done|by etransitivity|]. exists q', bytes. by rewrite <- app_assoc.
Qed.

Lemma write_addr i s t : 0 <= i -> wrote_upto i s t -> 0 <= addr + i < 2 ^ 64.
Proof.
  intros Hi [_ _ (q & bytes & _ & Hr & _)]. destruct (decide (i = 0)) as [->|]; [lia|].
  pose proof (uread_low _ _ _ _ Hr ltac:(lia)) as H. change MAXVA with (2 ^ 38) in H. lia.
Qed.

(** One byte more. *)
Lemma wrote_one i s t b : 0 <= i -> wrote_upto i s t -> pipe_full (ps_pipe s) = false -> ubyte (ps_env s) (addr + i) = Some b ->
  wrote_upto (i + 1) (PS (ps_env s) (push_byte b (ps_pipe s))) t.
Proof.
  intros Hi [H1 H2 (q & bytes & Hq & Hr & E)] Hf Hb. split; [done|done|]. exists (q ++ [b]), (bytes ++ [b]). split_and!.
  - destruct H1 as [l Hl]. apply push_byte_rep; [done|by eapply ubyte_byte|]. pose proof (pr_len _ _ Hq). destruct (decide (Z.of_nat (length q) = PIPESIZE)) as [E'|]; [|lia].
    apply (pipe_full_iff _ _ Hq) in E'. congruence.
  - replace (Z.to_nat (i + 1)) with (S (Z.to_nat i)) by lia. rewrite uread_snoc, Hr. simpl.
    rewrite Z2Nat.id by done. destruct H2 as [_ H2]. by rewrite <- H2, Hb.
  - by rewrite !app_assoc, E.
Qed.

Definition write_body (n i : Z) : K pst (Z + leave) :=
    if negb (i <? n) then ret (inr (Break i)) else
    stop <- gets write_hopeless;;
    if stop : bool then release psH psL;; ret (inr (Return (-1))) else
    full <- pi_get pipe_full;;
    if full : bool then
      zoom psE (e_wakeup (ChanRead pi));;
      sleep_until psH psL (ChanWrite pi) (fun s => negb (pipe_full (ps_pipe s)) || write_hopeless s);;
      ret (inl i)
    else
      root <- gets (fun s => ue_root (ps_env s));;
      c <- zoom psE (zoom envP (copyin root (u64 (addr + i)) 1));;
      if c.1 =? -1 then ret (inr (Break i)) else
      pi_upd (push_byte (default 0 (head c.2)));;
      ret (inl (i + 1)).

Definition write_measure (n i : Z) (s : pst) : Z :=
  2 * (n - i) + (if pipe_full (ps_pipe s) && negb (write_hopeless s) then 1 else 0).

(** What leaves the loop. *)
Definition write_left (n : Z) (r : leave) (s : pst) (t : list Z) : Prop :=
  match r with
  | Return v => v = -1 /\ write_hopeless s = true /\ free_lock (pi_lock (ps_pipe s)) /\ exists i, 0 <= i < n /\ wrote_upto i s t
  | Break i => 0 <= i <= n /\ wrote_upto i s t /\ (i = n \/ ubyte e0 (addr + i) = None) /\ exists h, inside_lock psH psL h s
  end.

Lemma write_round n i s t : 0 <= i <= n -> wrote_upto i s t -> (exists h, inside_lock psH psL h s) ->
  wpi writer_sleeps readers (write_body n i s) t (fun r s' t' =>
    match r with
    | inl i' => 0 <= i' <= n /\ wrote_upto i' s' t' /\ (exists h, inside_lock psH psL h s') /\ write_measure n i' s' < write_measure n i s
    | inr b => write_left n b s' t'
    end).
Proof.
  intros Hi Hw [h Hin]. unfold write_body. destruct (Z.ltb_spec i n); cbn [negb].
  2:{ kstep. assert (i = n) as -> by lia. split; [lia|]. split; [done|]. split; [by left|by exists h]. }
  do 2 kstep. destruct (write_hopeless s) eqn:Eh.
  { kstep. eapply wpx_eq; [exact (release_leave psH psL h s Hin)|]. kstep. split_and!; [done|done|done|]. exists i. split; [lia|].
    by apply wrote_upto_leave. }
  unfold pi_get, pi_upd. do 2 kstep. destruct (wu_env _ _ _ Hw) as [l Hl]. destruct (pipe_full (ps_pipe s)) eqn:Ef.
  - kstep. eapply wpx_eq; [by apply zoom_Done|]. kstep.
    set (s1 := over psE _ s). assert (inside_lock psH psL h s1) as Hin1 by exact Hin.
    assert (wrote_upto i s1 t) as Hw1 by (apply (wrote_upto_env i s t _ Hw); [exists l; by apply env_ok_wakes|done]).
    apply (wpx_sleep_until _ _ _ _ _ _ _ h); [done| |].
    + change (pipe_full (ps_pipe s1)) with (pipe_full (ps_pipe s)). change (write_hopeless s1) with (write_hopeless s). by rewrite Ef, Eh.
    + intros _. split.
      * split_and!; [done|done| |done]. apply elem_of_cons. by left.
      * intros s' t' s2 Hr Hready Hlk _ ->. kstep. split; [done|].
        pose proof (wrote_upto_resume _ _ _ _ _ (wrote_upto_leave _ _ _ _ Hin1 Hw1) Hr) as Hw2.
        destruct Hr as [[Hul Huu [l' Hue] Huh] _]. assert (hart_ok (view psH s')) as Hh' by apply (eo_pm _ _ _ Hue).
        split_and!.
        -- apply (wrote_upto_move i s' t'); [done| |done]. exists l'. by apply env_ok_hart, hart_ok_pushed.
        -- exists (view psH s'). split_and!; done.
        -- unfold write_measure. rewrite Ef, Eh. cbn [andb negb].
           change (pipe_full _) with (pipe_full (ps_pipe s')). change (write_hopeless _) with (write_hopeless s').
           destruct (pipe_full (ps_pipe s')), (write_hopeless s'); simpl in *; lia || done.
  - do 3 kstep. assert (0 <= addr + i < 2 ^ 64) as Ha by (apply (write_addr i s t); [lia|exact Hw]).
    rewrite (u64_id (addr + i)) by exact Ha.
    eapply wpx_mono; [|exact (wpx_wp _ _ _ _ _ _ (ps_copyin1 s l _ Hl Ha))].
    intros [c bytes] s' t' [[-> Hc] ->]. destruct (ubyte (ps_env s) (addr + i)) as [b|] eqn:Eb.
    + injection Hc as -> ->. cbn [fst snd Z.eqb]. do 3 kstep. cbn [head default].
      split; [lia|]. split; [apply wrote_one; done || lia|]. split; [by exists h|]. unfold write_measure.
      destruct (_ && _), (pipe_full (ps_pipe s) && _); lia.
    + cbn [fst] in Hc |- *. rewrite Hc. cbn [Z.eqb Pos.eqb]. kstep. split; [lia|]. split; [exact Hw|].
      split; [right|by exists h]. destruct (wu_user _ _ _ Hw) as [_ Hu]. by rewrite <- Hu.
Qed.
End write.

Lemma pipewrite_ok s q addr n : at_rest s q -> 0 <= addr < 2 ^ 64 -> 0 <= n < 2 ^ 31 ->
  wpi writer_sleeps readers (pipewrite pi addr n s) [] (fun r s' t' =>
    free_lock (pi_lock (ps_pipe s')) /\ exists i, wrote_upto (ps_env s) addr q i s' t' /\
      (r = -1 /\ 0 <= i < n /\ write_hopeless s' = true \/
       r = i /\ 0 <= i <= n /\ ChanRead pi ∈ ue_wakes (ps_env s') /\ (i = n \/ ubyte (ps_env s) (addr + i) = None))).
Proof.
  intros Hrest Haddr Hn. pose proof (ar_queue _ _ Hrest) as Hq.
  destruct (enter_ok s q Hrest) as (s1 & E1 & [h Hin] & [l Hl] & Hu & [lk Ep] & _ & _).
  unfold pipewrite. rewrite (bind_two _ _ _ _ _ _ E1). cbv beta.
  assert (wrote_upto (ps_env s) addr q 0 s1 []) as Hw.
  { split; [by exists l|done|]. exists q, []. rewrite Ep, app_nil_r. split_and!; [by apply pipe_rep_lock|done|done]. }
  kstep. eapply wpx_mono; [|eapply (wpx_while _ _ _ (write_body addr n) (fun g i s' t' => g = write_measure n i s' /\ 0 <= i <= n /\
    wrote_upto (ps_env s) addr q i s' t' /\ exists h, inside_lock psH psL h s') (fun g => g) (write_left (ps_env s) addr q n))].
  - intros [v|i] s2 t2 Hleft; simpl in Hleft; cbv beta iota.
    + destruct Hleft as (-> & Hd & Hlk & i & Hi & Hw2). kstep. split; [done|]. exists i. split; [done|]. by left.
    + destruct Hleft as (Hi & Hw2 & Hend & h2 & Hin2). destruct (wu_env _ _ _ _ _ _ Hw2) as [l2 Hl2].
      kstep. eapply wpx_eq; [apply zoom_Done; reflexivity|]. kstep. set (s3 := over psE _ s2).
      assert (inside_lock psH psL h2 s3) as Hin3 by exact Hin2.
      eapply wpx_eq; [exact (release_leave psH psL h2 s3 Hin3)|]. kstep. split; [done|]. exists i. split.
      * apply wrote_upto_leave; [done|]. apply (wrote_upto_env _ _ _ i s2 t2); [done|exists l2; by apply env_ok_wakes|done].
      * right. split_and!; try done || lia. apply elem_of_cons. by left.
  - intros g i s2 t2 (-> & Hi & Hw2 & Hin2). eapply wpx_mono; [|by apply (write_round (ps_env s) addr q Haddr n i s2)].
    intros [i'|b] s3 t3 H3; [|done]. destruct H3 as (Hi3 & Hw3 & Hin3 & Hm). by eexists.
  - intros g i s2 t2 (-> & Hi & _). unfold write_measure. destruct (_ && _); lia.
  - split_and!; [done|lia|lia|done|by exists h].
  - unfold write_measure, budget. destruct (_ && _); lia.
Qed.

(** The writers only: they append to the queue.  [a] is the history of what they
    appended. *)
Definition writers (s : pst) (a : list Z) (s' : pst) (a' : list Z) : Prop := undisturbed s s' /\
  forall q, pipe_rep (ps_pipe s) q -> exists x, a' = a ++ x /\ pipe_rep (ps_pipe s') (q ++ x).

(** A reader sleeps on an empty pipe that is open for writing. *)
Definition reader_sleeps (c : option chan) (s : pst) : Prop :=
  c = Some (ChanRead pi) /\ pipe_empty (ps_pipe s) = true /\ pi_writeopen (ps_pipe s) <> 0 /\
  free_lock (pi_lock (ps_pipe s)).

Lemma ps_copyout1 s l va b : env_ok (ps_env s) l -> 0 <= va < 2 ^ 64 -> is_byte b ->
  wp (zoom psE (zoom envP (copyout (ue_root (ps_env s)) va [b] 1)) s) (fun r s' =>
    ps_pipe s' = ps_pipe s /\ env_ok (ps_env s') l /\ wrote_user (ps_env s) (ps_env s') /\
    (r = 0 /\ (forall va', 0 <= va' -> ubyte (ps_env s') va' = if decide (va' = va) then Some b else ubyte (ps_env s) va') \/
     r = -1 /\ ubyte (ps_env s) va = None /\ forall va', 0 <= va' -> ubyte (ps_env s') va' = ubyte (ps_env s) va')).
Proof.
  intros Hl Hva Hb. apply wp_zoom. cbn [psE view]. eapply wp_mono; [|exact (env_copyout1 kend kend_range _ l va b Hl Hva Hb)].
  intros r e' H. split; [done|exact H].
Qed.

Section read.
Context (e0 : uenv) (addr : Z) (q1 : list Z) (Haddr : 0 <= addr < 2 ^ 64).

(** The first [i] bytes of the queue [q1] reached the process, and [j] bytes
    were taken from the pipe. *)
Record read_upto (i j : nat) (s : pst) : Prop := {
  ru_env : exists l, env_ok (ps_env s) l;
  ru_root : ue_root (ps_env s) = ue_root e0;
  ru_len : (i <= j <= length q1)%nat;
  ru_queue : pipe_rep (ps_pipe s) (drop j q1);
  ru_mapped : forall k, (k < i)%nat -> is_Some (ubyte e0 (addr + Z.of_nat k));
  ru_user : forall va, 0 <= va -> ubyte (ps_env s) va =
    if decide (addr <= va < addr + Z.of_nat i) then q1 !! Z.to_nat (va - addr) else ubyte e0 va
}.

Lemma read_addr i j s : read_upto i j s -> 0 <= addr + Z.of_nat i < 2 ^ 64.
Proof.
  intros [_ _ _ _ Hm _]. destruct i as [|i]; [lia|]. pose proof (ubyte_low _ _ (Hm i ltac:(lia))) as H.
  change MAXVA with (2 ^ 38) in H. lia.
Qed.

(** The byte at the front is taken. *)
Lemma take_front i s b : read_upto i i s -> q1 !! i = Some b ->
  front_byte (ps_pipe s) = b /\ is_byte b /\ read_upto i (S i) (PS (ps_env s) (pop_byte (ps_pipe s))).
Proof.
  intros [H1 H2 H3 Hq H5 H6] Hb. pose proof (drop_S _ _ _ Hb) as E. destruct (pop_byte_rep _ _ Hq _ _ E) as [F1 F2].
  pose proof (pr_bytes _ _ Hq) as H. rewrite E in H. apply Forall_cons_iff in H as [H _]. split; [done|]. split; [done|].
  pose proof (lookup_lt_Some _ _ _ Hb). split; try done; lia.
Qed.

(** How the copy loop ends: everything wanted or everything there was moved, or
    the process's memory ended, and then one byte is lost. *)
Definition read_left (n i : nat) (s : pst) : Prop :=
  read_upto i i s /\ (i = n \/ (i < n)%nat /\ i = length q1) \/
  read_upto i (S i) s /\ (i < n)%nat /\ ubyte e0 (addr + Z.of_nat i) = None.

Lemma read_left_move n i s e lk : read_left n i s -> (exists l, env_ok e l) -> same_user (ps_env s) e ->
  read_left n i (PS e (set_pi_lock lk (ps_pipe s))).
Proof.
  assert (forall j, read_upto i j s -> (exists l, env_ok e l) -> same_user (ps_env s) e -> read_upto i j (PS e (set_pi_lock lk (ps_pipe s)))) as H.
  { intros j [_ H2 H3 H4 H5 H6] He [Hr Hu]. split; try done; simpl; [by rewrite Hr|by apply pipe_rep_lock|].
    intros va Hva. rewrite Hu. by apply H6. }
  intros [[Hr Hd]|[Hr Hd]] He Hs; [left|right]; (split; [by apply H|done]).
Qed.

Definition read_body (i : Z) : K pst (option Z) :=
    e <- pi_get pipe_empty;;
    if e : bool then ret (Some i) else
    ch <- pi_get front_byte;;
    pi_upd pop_byte;;
    root <- gets (fun s => ue_root (ps_env s));;
    c <- zoom psE (zoom envP (copyout root (u64 (addr + i)) [ch] 1));;
    if c =? -1 then ret (Some i) else ret None.

Lemma read_round n i s h : read_upto i i s -> inside_lock psH psL h s -> (i < n)%nat ->
  wp (read_body (Z.of_nat i) s) (fun r s' => inside_lock psH psL h s' /\ pi_writeopen (ps_pipe s') = pi_writeopen (ps_pipe s) /\
    match r with
    | None => read_upto (S i) (S i) s'
    | Some v => v = Z.of_nat i /\ read_left n i s'
    end).
Proof.
  intros Hr Hin Hi. unfold read_body, pi_get, pi_upd. do 2 kstep. pose proof Hr as [[l Hl] Hroot Hlen Hq Hm Hu].
  destruct (pipe_empty (ps_pipe s)) eqn:Ee.
  - kstep. split; [done|]. split; [done|]. split; [done|]. left. split; [done|]. right. split; [done|].
    apply (pipe_empty_iff _ _ Hq) in Ee. apply (f_equal length) in Ee. rewrite length_drop in Ee. simpl in Ee. lia.
  - assert (is_Some (q1 !! i)) as [b Hb].
    { apply lookup_lt_is_Some_2. destruct (decide (i = length q1)) as [->|]; [|lia].
      rewrite drop_all in Hq. by rewrite (proj2 (pipe_empty_iff _ _ Hq)) in Ee. }
    destruct (take_front i s b Hr Hb) as (Ef & Hbyte & Hr'). do 7 kstep. rewrite Ef.
    pose proof (read_addr _ _ _ Hr) as Ha. rewrite u64_id by exact Ha. set (s1 := PS (ps_env s) _) in *.
    eapply wp_mono; [|exact (ps_copyout1 s1 l _ b Hl Ha Hbyte)]. intros c s2 (Ep & Hl2 & [Hw Hwm] & Hc).
    assert (inside_lock psH psL h s2) as Hin2.
    { destruct Hin as (A1 & A2 & A3 & A4). split_and!; try done; cbn [psH psL view] in *; [by rewrite Hw|by rewrite Ep]. }
    assert (ubyte (ps_env s) (addr + Z.of_nat i) = ubyte e0 (addr + Z.of_nat i)) as Ei.
    { rewrite Hu by lia. case_decide; [lia|done]. }
    destruct Hr' as [_ _ Hlen' Hq' _ _]. destruct Hc as [[-> Hu2]|[-> [Hn Hu2]]]; cbn [Z.eqb Pos.eqb]; kstep.
    + split; [done|]. split; [by rewrite Ep|]. split; [by exists l|by rewrite Hw|lia|by rewrite Ep| |].
      * intros k Hk. destruct (decide (k = i)) as [->|]; [|apply Hm; lia].
        rewrite <- Ei. apply (Hwm (addr + Z.of_nat i)); [lia|]. rewrite Hu2, decide_True by lia. by eexists.
      * intros va Hva. rewrite Hu2 by done. cbn [s1 ps_env]. destruct (decide (va = addr + Z.of_nat i)) as [->|].
        -- rewrite decide_True by lia. by replace (Z.to_nat (addr + Z.of_nat i - addr)) with i by lia.
        -- rewrite Hu by done. repeat case_decide; lia || done.
    + split; [done|]. split; [by rewrite Ep|]. split; [done|]. right. split; [|by rewrite <- Ei].
      split; [by exists l|by rewrite Hw|lia|by rewrite Ep|done|]. intros va Hva. rewrite Hu2 by done. by apply Hu.
Qed.
End read.

(** *** Waiting for bytes *)
Section wait.
Context (e0 : uenv) (q0 : list Z).

Record waited (s : pst) (a : list Z) : Prop := {
  wt_env : exists l, env_ok (ps_env s) l;
  wt_user : same_user e0 (ps_env s);
  wt_queue : pipe_rep (ps_pipe s) (q0 ++ a)
}.

Lemma waited_move s a e lk : waited s a -> (exists l, env_ok e l) -> same_user (ps_env s) e -> waited (PS e (set_pi_lock lk (ps_pipe s))) a.
Proof. intros [H1 H2 Ha] He Hs. split; [done|by etransitivity|]. by apply pipe_rep_lock. Qed.

Lemma waited_leave h s a : inside_lock psH psL h s -> waited s a -> waited (unlocked psH psL h s) a.
Proof.
  intros (Hh & _ & _ & _) Hw. destruct (wt_env _ _ Hw) as [l Hl]. apply waited_move; [done| |done].
  exists l. by apply env_ok_hart, hart_ok_touched.
Qed.

Lemma waited_resume s a s' a' : waited s a -> writers s a s' a' -> waited s' a'.
Proof.
  intros [H1 H2 Ha] [[Hl Hu He _] Hrd]. destruct (Hrd _ Ha) as (x & -> & Hx). split; [done|by etransitivity|].
  by rewrite app_assoc.
Qed.

Definition wait_body (_ : unit) : K pst (unit + bool) :=
    w <- gets read_waits;;
    if negb w then ret (inr false) else
    k <- gets (fun s => ue_killed (ps_env s));;
    if negb (k =? 0) then release psH psL;; ret (inr true) else
    sleep_until psH psL (ChanRead pi) (fun s => negb (read_waits s) || negb (ue_killed (ps_env s) =? 0));;
    ret (inl tt).

Definition wait_measure (s : pst) : Z := if read_waits s && (ue_killed (ps_env s) =? 0) then 1 else 0.

Definition wait_left (dead : bool) (s : pst) (a : list Z) : Prop :=
  waited s a /\ if dead then ue_killed (ps_env s) <> 0 /\ free_lock (pi_lock (ps_pipe s))
              else read_waits s = false /\ exists h, inside_lock psH psL h s.

Lemma wait_round s a h : waited s a -> inside_lock psH psL h s ->
  wpi reader_sleeps writers (wait_body tt s) a (fun r s' a' =>
    match r with
    | inl _ => waited s' a' /\ (exists h, inside_lock psH psL h s') /\ wait_measure s' < wait_measure s
    | inr b => wait_left b s' a'
    end).
Proof.
  intros Hw Hin. unfold wait_body. do 2 kstep. destruct (read_waits s) eqn:Er; cbn [negb].
  2:{ kstep. split; [done|]. split; [done|]. by exists h. }
  do 2 kstep. destruct (Z.eqb_spec (ue_killed (ps_env s)) 0) as [Hk|Hk]; cbn [negb].
  2:{ kstep. eapply wpx_eq; [exact (release_leave psH psL h s Hin)|]. kstep. split; [by apply waited_leave|done]. }
  kstep. apply (wpx_sleep_until _ _ _ _ _ _ _ h); [done| |].
  - by rewrite Er, Hk.
  - intros _. split.
    + apply andb_true_iff in Er as [E1 E2]. apply negb_true_iff, Z.eqb_neq in E2. done.
    + intros s' a' s2 Hr Hready Hlk _ ->. kstep. pose proof (waited_resume _ _ _ _ (waited_leave _ _ _ Hin Hw) Hr) as Hw2.
      destruct Hr as [[Hul Huu [l' Hue] Huh] _]. assert (hart_ok (view psH s')) as Hh' by apply (eo_pm _ _ _ Hue).
      split_and!.
      * apply (waited_move s' a'); [done| |done]. exists l'. by apply env_ok_hart, hart_ok_pushed.
      * exists (view psH s'). split_and!; done.
      * unfold wait_measure. rewrite Er, Hk. cbn [andb Z.eqb]. change (read_waits (over _ _ _)) with (read_waits s').
        change (ue_killed _) with (ue_killed (ps_env s')). destruct (read_waits s'), (_ =? 0); simpl in *; lia || done.
Qed.
End wait.

(** *** The copy loop *)
Lemma read_loop e0 addr q1 n s h : 0 <= addr < 2 ^ 64 -> read_upto e0 addr q1 0 0 s -> inside_lock psH psL h s ->
  wp (for_each (seqZ 0 n) (read_body addr) s) (fun r s' => exists i, inside_lock psH psL h s' /\
    pi_writeopen (ps_pipe s') = pi_writeopen (ps_pipe s) /\ default (Z.max 0 n) r = Z.of_nat i /\ read_left e0 addr q1 (Z.to_nat n) i s').
Proof.
  intros Haddr H0 Hin. apply (wp_for_range n _ (fun k s' => read_upto e0 addr q1 k k s' /\ inside_lock psH psL h s' /\
    pi_writeopen (ps_pipe s') = pi_writeopen (ps_pipe s))).
  - intros k s1 Hk (Hr & Hi & Ho). eapply wp_mono; [|by apply (read_round e0 addr q1 Haddr (Z.to_nat n) k s1 h)].
    intros [v|] s2 (Hin2 & Ho2 & H2); [|by rewrite Ho2]. destruct H2 as [-> H2]. exists k. by rewrite Ho2.
  - intros s1 (Hr & Hi & Ho). exists (Z.to_nat n). split_and!; [done|done|simpl; lia|]. left. split; [done|by left].
  - done.
Qed.

Lemma piperead_ok s q addr n : at_rest s q -> 0 <= addr < 2 ^ 64 -> 0 <= n < 2 ^ 31 ->
  wpi reader_sleeps writers (piperead pi addr n s) [] (fun r s' a =>
    free_lock (pi_lock (ps_pipe s')) /\
    ((r = -1 /\ ue_killed (ps_env s') <> 0 /\ pipe_rep (ps_pipe s') (q ++ a)) \/
     (exists i, r = Z.of_nat i /\ read_left (ps_env s) addr (q ++ a) (Z.to_nat n) i s' /\
        ChanWrite pi ∈ ue_wakes (ps_env s') /\ (q ++ a = [] -> pi_writeopen (ps_pipe s') = 0)))).
Proof.
  intros Hrest Haddr Hn. destruct (enter_ok s q Hrest) as (s1 & E1 & [h Hin] & [l Hl] & Hu & [lk Ep] & _ & _).
  unfold piperead. rewrite (bind_two _ _ _ _ _ _ E1). cbv beta.
  assert (waited (ps_env s) q s1 []) as Hw.
  { split; [by exists l|done|]. rewrite Ep, app_nil_r. apply pipe_rep_lock, (ar_queue _ _ Hrest). }
  kstep. eapply wpx_mono; [|eapply (wpx_while _ _ _ wait_body (fun g _ s' a => g = wait_measure s' /\ waited (ps_env s) q s' a /\
    exists h, inside_lock psH psL h s') (fun g => g) (wait_left (ps_env s) q))].
  - intros dead s2 a [Hw2 Hd]. destruct dead; cbv beta iota.
    + kstep. destruct Hd as [Hk Hlk]. split; [done|]. left. split; [done|]. split; [done|]. apply Hw2.
    + destruct Hd as [Hnw [h2 Hin2]]. destruct Hw2 as [[l2 Hl2] Hu2 Ha]. kstep.
      assert (read_upto (ps_env s) addr (q ++ a) 0 0 s2) as Hr0.
      { destruct Hu2 as [Hroot Hub]. split; [by exists l2|done|lia|done|lia|]. intros va Hva. rewrite decide_False by lia. apply Hub. }
      eapply wpx_mono; [|apply wpx_wp, (read_loop _ _ _ n s2 h2 Haddr Hr0 Hin2)].
      intros r s3 a3 [(i & Hin3 & Ho3 & Er & Hleft) ->]. cbv zeta. rewrite Er.
      assert (exists l3, env_ok (ps_env s3) l3) as [l3 Hl3] by (destruct Hleft as [[Hr3 _]|[Hr3 _]]; apply Hr3).
      kstep. eapply wpx_eq; [apply zoom_Done; reflexivity|]. kstep. set (s4 := over psE _ s3).
      assert (inside_lock psH psL h2 s4) as Hin4 by exact Hin3.
      eapply wpx_eq; [exact (release_leave psH psL h2 s4 Hin4)|]. kstep. split; [done|]. right. exists i.
      split_and!; [done| |apply elem_of_cons; by left|].
      * apply (read_left_move (ps_env s) addr (q ++ a) _ i s3); [done| |done]. exists l3. apply env_ok_hart; [by apply env_ok_wakes|]. apply hart_ok_touched, Hin4.
      * intros Eq. change (pi_writeopen (ps_pipe s3) = 0). rewrite Ho3. unfold read_waits in Hnw. rewrite Eq in Ha.
        rewrite (proj2 (pipe_empty_iff _ _ Ha)) in Hnw by done. cbn [andb] in Hnw. by apply negb_false_iff, Z.eqb_eq in Hnw.
  - intros g [] s2 a2 (-> & Hw2 & h2 & Hin2). eapply wpx_mono; [|by apply (wait_round (ps_env s) q s2 a2 h2)].
    intros [[]|b] s3 a3 H3; [|done]. destruct H3 as (Hw3 & Hin3 & Hm). by eexists.
  - intros g [] s2 a2 (-> & _). unfold wait_measure. destruct (_ && _); lia.
  - split_and!; [done|done|by exists h].
  - unfold wait_measure, budget. destruct (_ && _); lia.
Qed.
End fifo.

Section theorems.
Context (kend : Z) (kend_range : 0 < kend <= PHYSTOP) (pi : Z).

(** C30: pipewrite appends to the queue.  Whatever readers do in between, when
    it returns, the bytes [t] the readers took since the call (their history,
    which only [readers] extends) followed by the bytes still in the pipe are the old queue followed by the first [i] bytes of the
    caller's buffer, in order.  It returns [i], which is [n] unless the buffer
    leaves the caller's memory, after waking the readers; or -1 when the read
    end is closed or the caller was killed.  It sleeps only when the pipe is
    full, with the lock released and the readers woken. *)
Theorem pipewrite_fifo s q addr n : at_rest kend s q -> 0 <= addr < 2 ^ 64 -> 0 <= n < 2 ^ 31 ->
  wpi (writer_sleeps pi) (readers kend) (pipewrite pi addr n s) [] (fun r s' t =>
    exists q' i bytes, pipe_rep (ps_pipe s') q' /\ free_lock (pi_lock (ps_pipe s')) /\
      uread (ps_env s) addr (Z.to_nat i) = Some bytes /\ t ++ q' = q ++ bytes /\
      (r = -1 /\ 0 <= i < n /\ (pi_readopen (ps_pipe s') = 0 \/ ue_killed (ps_env s') <> 0) \/
       r = i /\ 0 <= i <= n /\ ChanRead pi ∈ ue_wakes (ps_env s') /\ (i = n \/ ubyte (ps_env s) (addr + i) = None))).
Proof.
  intros Hr Ha Hn. eapply wpx_mono; [|by apply (pipewrite_ok kend kend_range pi s q)].
  intros r s' t (Hlk & i & [_ _ (q' & bytes & Hq & Hb & E)] & Hres). exists q', i, bytes. split_and!; try done.
  destruct Hres as [(-> & Hi & Hd)|Hres]; [left|by right]. split; [done|]. split; [done|].
  unfold write_hopeless in Hd. apply orb_true_iff in Hd as [Hd|Hd].
  - left. by apply Z.eqb_eq.
  - right. by apply negb_true_iff, Z.eqb_neq in Hd.
Qed.

(** C31: piperead takes a prefix of the queue.  Whatever writers do in between,
    the old queue and the bytes [a] written since the call (the writers' history) are, in order, the [i]
    bytes that are now in the caller's buffer, followed by what is still in the
    pipe; [i] is [n] or all there was.  Only when the buffer leaves the caller's
    memory one byte is taken and lost.  It returns 0 for [n] > 0 only when the
    write end is closed or the buffer is bad, and -1 only when the caller was
    killed; it sleeps only on an empty pipe with an open write end. *)
Theorem piperead_fifo s q addr n : at_rest kend s q -> 0 <= addr < 2 ^ 64 -> 0 <= n < 2 ^ 31 ->
  wpi (reader_sleeps pi) (writers kend) (piperead pi addr n s) [] (fun r s' a =>
    free_lock (pi_lock (ps_pipe s')) /\
    (r = -1 /\ ue_killed (ps_env s') <> 0 /\ pipe_rep (ps_pipe s') (q ++ a) \/
     exists i lost q', r = Z.of_nat i /\ q ++ a = take i (q ++ a) ++ lost ++ q' /\ pipe_rep (ps_pipe s') q' /\
       (forall va, 0 <= va -> ubyte (ps_env s') va =
          if decide (addr <= va < addr + Z.of_nat i) then (q ++ a) !! Z.to_nat (va - addr) else ubyte (ps_env s) va) /\
       (lost = [] /\ (r = n \/ r < n /\ q' = []) \/ length lost = 1%nat /\ ubyte (ps_env s) (addr + r) = None) /\
       (q ++ a = [] -> pi_writeopen (ps_pipe s') = 0) /\ ChanWrite pi ∈ ue_wakes (ps_env s'))).
Proof.
  intros Hr Ha Hn. eapply wpx_mono; [|by apply (piperead_ok kend kend_range pi s q)].
  intros r s' a (Hlk & [(-> & Hk & Hq)|(i & -> & Hleft & Hw & Ho)]); (split; [done|]); [by left|right].
  destruct Hleft as [[[_ _ Hlen Hq _ Hu] Hend]|[[_ _ Hlen Hq _ Hu] [Hlt Hbad]]].
  - exists i, [], (drop i (q ++ a)). split_and!; try done; [simpl; by rewrite take_drop|]. left. split; [done|].
    destruct Hend as [->|[Hlt ->]]; [left; lia|right]. split; [lia|]. by rewrite drop_all.
  - destruct (lookup_lt_is_Some_2 (q ++ a) i) as [b Hb]; [lia|]. exists i, [b], (drop (S i) (q ++ a)). split_and!; try done.
    + simpl. rewrite <- (drop_S _ _ _ Hb). by rewrite take_drop.
    + right. done.
Qed.
End theorems.

(** ** Witnesses: a fresh pipe *)
Definition new_pipe : pipe := mkPipe (initlock "pipe") (replicate (Z.to_nat PIPESIZE) 5) 0 0 1 1.

Lemma new_pipe_rep : pipe_rep new_pipe [].
Proof. by split. Qed.

Lemma pipewrite_fifo_witness : exists s b, ubyte (ps_env s) 0 = Some b /\ ps_pipe s = new_pipe /\
  wpi (writer_sleeps 7) (readers end8) (pipewrite 7 0 1 s) [] (fun r s' t =>
    exists q' i bytes, pipe_rep (ps_pipe s') q' /\ free_lock (pi_lock (ps_pipe s')) /\
      uread (ps_env s) 0 (Z.to_nat i) = Some bytes /\ t ++ q' = [] ++ bytes /\
      (r = -1 /\ 0 <= i < 1 /\ (pi_readopen (ps_pipe s') = 0 \/ ue_killed (ps_env s') <> 0) \/
       r = i /\ 0 <= i <= 1 /\ ChanRead 7 ∈ ue_wakes (ps_env s') /\ (i = 1 \/ ubyte (ps_env s) (0 + i) = None))).
Proof.
  destruct booted_env as (e & l & He & Hn & [b Hb] & _). exists (PS e new_pipe), b. split; [done|]. split; [done|].
  apply (pipewrite_fifo end8 end8_range 7 (PS e new_pipe) [] 0 1); [|lia|lia].
  split; [by exists l|done|done|apply new_pipe_rep].
Defined.

(** The same pipe after a byte was written. *)
Lemma piperead_fifo_witness : exists s b, ubyte (ps_env s) 0 = Some b /\ ps_pipe s = push_byte 65 new_pipe /\
  wpi (reader_sleeps 7) (writers end8) (piperead 7 0 1 s) [] (fun r s' a =>
    free_lock (pi_lock (ps_pipe s')) /\
    (r = -1 /\ ue_killed (ps_env s') <> 0 /\ pipe_rep (ps_pipe s') ([65] ++ a) \/
     exists i lost q', r = Z.of_nat i /\ [65] ++ a = take i ([65] ++ a) ++ lost ++ q' /\ pipe_rep (ps_pipe s') q' /\
       (forall va, 0 <= va -> ubyte (ps_env s') va =
          if decide (0 <= va < 0 + Z.of_nat i) then ([65] ++ a) !! Z.to_nat (va - 0) else ubyte (ps_env s) va) /\
       (lost = [] /\ (r = 1 \/ r < 1 /\ q' = []) \/ length lost = 1%nat /\ ubyte (ps_env s) (0 + r) = None) /\
       ([65] ++ a = [] -> pi_writeopen (ps_pipe s') = 0) /\ ChanWrite 7 ∈ ue_wakes (ps_env s'))).
Proof.
  destruct booted_env as (e & l & He & Hn & [b Hb] & _). exists (PS e (push_byte 65 new_pipe)), b. split; [done|]. split; [done|].
  apply (piperead_fifo end8 end8_range 7 (PS e (push_byte 65 new_pipe)) [65] 0 1); [|lia|lia].
  split; [by exists l|done|done|]. apply (push_byte_rep _ _ new_pipe_rep); [unfold is_byte; lia|by vm_compute].
Defined.
