(* ===== verification/Bio.v ===== *)
(** * kernel/bio.c: the buffer cache

    [bcache] is the array of NBUF buffers followed by the list head; a pointer
    to a [struct buf] is its index, [HEAD] for [&bcache.head].  The cache calls
    the disk driver through [virtio_disk_rw], whose contract is modelled here:
    a read fills [b->data] from the block, a write stores it.  The disk records
    the sequence of its writes, so that the states a crash can leave are the
    prefixes of that sequence. *)
From S2P Require Import Prelude Machine Spinlock Block.
Local Open Scope Z_scope.
Local Open Scope kernel_scope.

Record buf := mkBuf {
  b_valid : Z;         (* has data been read from disk? *)
  b_dev : Z;
  b_blockno : Z;
  b_lock : sleeplock;
  b_refcnt : Z;
  b_prev : nat;        (* LRU cache list *)
  b_next : nat;
  b_data : list Z
}.

Definition nobuf : buf := mkBuf 0 0 0 (mkSleep 0 (mkLock 0 None "") "" 0) 0 0 0 zero_block.

Definition set_valid (v : Z) (b : buf) : buf :=
  mkBuf v (b_dev b) (b_blockno b) (b_lock b) (b_refcnt b) (b_prev b) (b_next b) (b_data b).
Definition set_id (dev blockno : Z) (b : buf) : buf :=
  mkBuf (b_valid b) dev blockno (b_lock b) (b_refcnt b) (b_prev b) (b_next b) (b_data b).
Definition set_lock (v : sleeplock) (b : buf) : buf :=
  mkBuf (b_valid b) (b_dev b) (b_blockno b) v (b_refcnt b) (b_prev b) (b_next b) (b_data b).
Definition set_refcnt (v : Z) (b : buf) : buf :=
  mkBuf (b_valid b) (b_dev b) (b_blockno b) (b_lock b) (u32 v) (b_prev b) (b_next b) (b_data b).
Definition set_prev (v : nat) (b : buf) : buf :=
  mkBuf (b_valid b) (b_dev b) (b_blockno b) (b_lock b) (b_refcnt b) v (b_next b) (b_data b).
Definition set_next (v : nat) (b : buf) : buf :=
  mkBuf (b_valid b) (b_dev b) (b_blockno b) (b_lock b) (b_refcnt b) (b_prev b) v (b_data b).
Definition set_data (v : list Z) (b : buf) : buf :=
  mkBuf (b_valid b) (b_dev b) (b_blockno b) (b_lock b) (b_refcnt b) (b_prev b) (b_next b) v.

Record disk := mkDisk { d_blocks : Z -> list Z; d_writes : list (Z * list Z) }.

Record bcache := mkBC { bc_lock : spinlock; bc_buf : list buf; bc_disk : disk }.

Definition nbuf : nat := Z.to_nat NBUF.
Definition HEAD : nat := nbuf.

Definition getb (l : list buf) (i : nat) : buf := default nobuf (l !! i).

Definition upd_buf (i : nat) (f : buf -> buf) (s : bcache) : bcache :=
  mkBC (bc_lock s) (alter f i (bc_buf s)) (bc_disk s).

Notation bst := (ctx * bcache)%type (only parsing).

Definition updb (i : nat) (f : buf -> buf) : K bst unit := modify (fun s => (s.1, upd_buf i f s.2)).
Definition readb (i : nat) : K bst buf := gets (fun s => getb (bc_buf s.2) i).

Definition bH : lens bst hart :=
  Lens (fun s => cx_hart s.1) (fun h s => (Ctx h (cx_pid s.1) (cx_wakes s.1), s.2)).
Definition bL : lens bst spinlock :=
  Lens (fun s => bc_lock s.2) (fun l s => (s.1, mkBC l (bc_buf s.2) (bc_disk s.2))).

(** The sleep lock of buffer [i], in the context of the caller. *)
Definition bSL (i : nat) : lens bst slstate :=
  Lens (fun s => mkSL (cx_hart s.1) (b_lock (getb (bc_buf s.2) i)) (cx_pid s.1) (cx_wakes s.1))
       (fun t s => (Ctx (ss_hart t) (ss_pid t) (ss_wakes t), upd_buf i (set_lock (ss_lk t)) s.2)).

Definition buf_chan (i : nat) : chan := ChanLock "buffer" (Z.of_nat i).

(** The contract of virtio_disk.c. *)
Definition virtio_disk_rw (i : nat) (write : bool) : K bst unit :=
  b <- readb i;;
  if write then
    modify (fun s => (s.1, mkBC (bc_lock s.2) (bc_buf s.2)
      (mkDisk (<[b_blockno b := b_data b]> (d_blocks (bc_disk s.2)))
              (d_writes (bc_disk s.2) ++ [(b_blockno b, b_data b)]))))
  else
    d <- gets (fun s => d_blocks (bc_disk s.2) (b_blockno b));;
    updb i (set_data d).

Definition binit : K bst unit :=
  modify (over bL (initlock "bcache"));;
  updb HEAD (set_prev HEAD);;
  updb HEAD (set_next HEAD);;
  _ <- for_each (seq 0 nbuf) (fun b =>
    h <- readb HEAD;;
    updb b (set_next (b_next h));;
    updb b (set_prev HEAD);;
    updb b (set_lock (initsleeplock "buffer"));;
    updb (b_next h) (set_prev b);;
    updb HEAD (set_next b);;
    ret (@None unit));;
  ret tt.

Definition bget (dev blockno : Z) : K bst nat :=
  acquire bH bL;;
  (* Is the block already cached? *)
  h <- readb HEAD;;
  r <- while_ budget (fun b =>
    if (b =? HEAD)%nat then ret (inr None) else
    x <- readb b;;
    if (b_dev x =? dev) && (b_blockno x =? blockno) then
      updb b (set_refcnt (b_refcnt x + 1));;
      release bH bL;;
      zoom (bSL b) (acquiresleep (buf_chan b));;
      ret (inr (Some b))
    else ret (inl (b_next x))) (b_next h);;
  match r with
  | Some b => ret b
  | None =>
      (* Recycle the least recently used (LRU) unused buffer. *)
      h <- readb HEAD;;
      while_ budget (fun b =>
        if (b =? HEAD)%nat then panic "bget: no buffers" else
        x <- readb b;;
        if b_refcnt x =? 0 then
          updb b (set_id dev blockno);;
          updb b (set_valid 0);;
          updb b (set_refcnt 1);;
          release bH bL;;
          zoom (bSL b) (acquiresleep (buf_chan b));;
          ret (inr b)
        else ret (inl (b_prev x))) (b_prev h)
  end.

Definition bread (dev blockno : Z) : K bst nat :=
  b <- bget dev blockno;;
  x <- readb b;;
  (if b_valid x =? 0 then
     virtio_disk_rw b false;;
     updb b (set_valid 1)
   else ret tt);;
  ret b.

Definition bwrite (b : nat) : K bst unit :=
  h <- zoom (bSL b) holdingsleep;;
  if negb h then panic "bwrite" else
  virtio_disk_rw b true.

Definition brelse (b : nat) : K bst unit :=
  h <- zoom (bSL b) holdingsleep;;
  if negb h then panic "brelse" else
  zoom (bSL b) (releasesleep (buf_chan b));;
  acquire bH bL;;
  x <- readb b;;
  updb b (set_refcnt (b_refcnt x - 1));;
  x <- readb b;;
  (if b_refcnt x =? 0 then
     (* no one is waiting for it. *)
     updb (b_next x) (set_prev (b_prev x));;
     x <- readb b;;
     updb (b_prev x) (set_next (b_next x));;
     h <- readb HEAD;;
     updb b (set_next (b_next h));;
     updb b (set_prev HEAD);;
     h <- readb HEAD;;
     updb (b_next h) (set_prev b);;
     updb HEAD (set_next b)
   else ret tt);;
  release bH bL.

Definition bpin (b : nat) : K bst unit :=
  acquire bH bL;;
  x <- readb b;;
  updb b (set_refcnt (b_refcnt x + 1));;
  release bH bL.

Definition bunpin (b : nat) : K bst unit :=
  acquire bH bL;;
  x <- readb b;;
  updb b (set_refcnt (b_refcnt x - 1));;
  release bH bL.

(** ** The circular list *)
Section adj.
Implicit Types (nx pv : nat -> nat).

(** Consecutive elements of [c] are linked in both directions. *)
Fixpoint adj nx pv (c : list nat) : Prop :=
  match c with
  | x :: ((y :: _) as t) => nx x = y /\ pv y = x /\ adj nx pv t
  | _ => True
  end.

Lemma adj_cons nx pv x y t : adj nx pv (x :: y :: t) <-> nx x = y /\ pv y = x /\ adj nx pv (y :: t).
Proof. done. Qed.

Lemma adj_app nx pv l x r : adj nx pv (l ++ x :: r) <-> adj nx pv (l ++ [x]) /\ adj nx pv (x :: r).
Proof.
  induction l as [|y l IH]; [simpl; tauto|]. destruct l as [|z l]; cbn [app] in *.
  - rewrite !adj_cons. simpl. tauto.
  - rewrite !(adj_cons _ _ y), IH. tauto.
Qed.

(** [adj] reads [nx] on all elements but the last and [pv] on all but the first. *)
Lemma adj_frame nx pv nx' pv' x l y :
  (forall z, z ∈ x :: l -> nx' z = nx z) -> (forall z, z ∈ l ++ [y] -> pv' z = pv z) ->
  adj nx pv (x :: l ++ [y]) -> adj nx' pv' (x :: l ++ [y]).
Proof.
  revert x. induction l as [|z l IH]; intros x Hn Hp.
  - cbn [app]. rewrite !adj_cons. intros (E1 & E2 & _). by rewrite Hn, Hp by constructor.
  - cbn [app]. rewrite !(adj_cons _ _ x). intros (E1 & E2 & H). rewrite Hn, Hp by constructor. split_and!; [done|done|].
    apply IH; [..|done].
    + intros w Hw. apply Hn. by constructor.
    + intros w Hw. apply Hp. by constructor.
Qed.

(** The list [c] closed into a ring through the head [h]. *)
Definition ring nx pv (h : nat) (c : list nat) : Prop := adj nx pv (h :: c ++ [h]).

Lemma ring_split nx pv h c1 c2 :
  ring nx pv h (c1 ++ c2) <->
  exists a b, hd_error (c2 ++ [h]) = Some b /\ last (h :: c1) = Some a /\
    nx a = b /\ pv b = a /\ adj nx pv (h :: c1) /\ adj nx pv (c2 ++ [h]).
Proof.
  unfold ring. destruct (c2 ++ [h]) as [|b r] eqn:E; [by destruct c2|].
  destruct (exists_last (l := h :: c1)) as (l & a & El); [done|].
  rewrite <- app_assoc, E. change (h :: c1 ++ b :: r) with ((h :: c1) ++ b :: r). rewrite El, <- app_assoc.
  change ([a] ++ b :: r) with (a :: b :: r). rewrite adj_app, last_snoc. simpl. split.
  - intros (H1 & <- & H2 & H3). exists a, (nx a). tauto.
  - intros (a' & b' & [= <-] & [= <-] & H1 & H2 & H3 & H4). tauto.
Qed.

Lemma adj_frame_l nx pv nx' pv' h c : NoDup (h :: c) ->
  (forall z, z ∈ h :: c -> last (h :: c) <> Some z -> nx' z = nx z) -> (forall z, z ∈ c -> pv' z = pv z) ->
  adj nx pv (h :: c) -> adj nx' pv' (h :: c).
Proof.
  intros Hnd Hn Hp. induction c as [|a l _] using rev_ind; [done|].
  apply adj_frame; [|done]. intros z Hz. apply Hn.
  - rewrite app_comm_cons, elem_of_app. by left.
  - change (h :: l ++ [a]) with ((h :: l) ++ [a]) in *. rewrite last_snoc. intros [= ->].
    apply NoDup_app in Hnd as (_ & Hd & _). apply (Hd z Hz). constructor.
Qed.

Lemma adj_frame_r nx pv nx' pv' h c : NoDup (c ++ [h]) ->
  (forall z, z ∈ c -> nx' z = nx z) -> (forall z, z ∈ c ++ [h] -> hd_error (c ++ [h]) <> Some z -> pv' z = pv z) ->
  adj nx pv (c ++ [h]) -> adj nx' pv' (c ++ [h]).
Proof.
  intros Hnd Hn Hp. destruct c as [|x c]; [done|]. apply adj_frame; [done|].
  intros z Hz. apply Hp; [by constructor|]. intros [= ->]. apply NoDup_cons in Hnd as [Hd _]. by apply Hd.
Qed.

Lemma ring_next_head nx pv h c : ring nx pv h c -> hd_error (c ++ [h]) = Some (nx h) /\ pv (nx h) = h.
Proof.
  intros Hr. apply (ring_split _ _ _ []) in Hr as (a & b & Hb & [= <-] & <- & Hp & _). done.
Qed.

Lemma ring_prev_head nx pv h c : ring nx pv h c -> last (h :: c) = Some (pv h).
Proof.
  intros Hr. rewrite <- (app_nil_r c) in Hr. apply ring_split in Hr as (a & b & [= <-] & Hl & _ & <- & _). done.
Qed.

Lemma ring_neighbours nx pv h c1 i c2 : ring nx pv h (c1 ++ i :: c2) ->
  last (h :: c1) = Some (pv i) /\ hd_error (c2 ++ [h]) = Some (nx i).
Proof.
  intros Hr. apply ring_split in Hr as (a & b & [= <-] & Ha & Hna & <- & H1 & H2). split; [done|].
  cbn [app] in H2. destruct (c2 ++ [h]) as [|b r] eqn:E; [by destruct c2|].
  by destruct H2 as [-> _].
Qed.

Lemma ring_remove nx pv nx' pv' h c1 i c2 : NoDup (h :: c1 ++ i :: c2) -> ring nx pv h (c1 ++ i :: c2) ->
  (forall z, nx' z = if decide (z = pv i) then nx i else nx z) ->
  (forall z, pv' z = if decide (z = nx i) then pv i else pv z) ->
  ring nx' pv' h (c1 ++ c2).
Proof.
  intros Hnd Hr Hn Hp. apply ring_split in Hr as (a & b & [= <-] & Ha & Hna & Hpi & H1 & H2).
  cbn [app] in H2. destruct (c2 ++ [h]) as [|b r] eqn:E; [by destruct c2|].
  rewrite adj_cons in H2. destruct H2 as (Hni & Hpb & H2).
  rewrite app_comm_cons, NoDup_app in Hnd. destruct Hnd as (N1 & N2 & N3). apply NoDup_cons in N3 as [N3 N4].
  assert (h ∉ c2) as Hh by (intros Hh; apply (N2 h); constructor; done).
  assert (a ∈ h :: c1) as Hain by (apply last_Some in Ha as [l ->]; apply elem_of_app; right; constructor).
  assert (b ∈ c2 ++ [h]) as Hbin by (rewrite E; constructor).
  apply ring_split. exists a, b. rewrite E. split_and!; [done|done|..].
  - rewrite Hn, decide_True by done. done.
  - rewrite Hp, decide_True by done. done.
  - eapply adj_frame_l; [done| | |done].
    + intros z Hz Hl. rewrite Hn, decide_False; [done|]. rewrite Hpi. intros ->. done.
    + intros z Hz. rewrite Hp, decide_False; [done|]. rewrite Hni. intros ->.
      apply elem_of_app in Hbin as [Hb|Hb]; [apply (N2 b); [by constructor|by constructor]|].
      apply list_elem_of_singleton in Hb as ->. by apply NoDup_cons in N1 as [N1 _].
  - rewrite <- E. eapply adj_frame_r; [| | |by rewrite E].
    + apply NoDup_app. split_and!; [done| |apply NoDup_singleton]. intros z Hz Hz'.
      apply list_elem_of_singleton in Hz' as ->. done.
    + intros z Hz. rewrite Hn, decide_False; [done|]. rewrite Hpi. intros ->. by apply (N2 a); [|constructor].
    + intros z Hz Hl. rewrite Hp, decide_False; [done|]. rewrite Hni. intros ->. rewrite E in Hl. done.
Qed.

Lemma ring_insert nx pv nx' pv' h i c : NoDup (h :: i :: c) -> ring nx pv h c ->
  (forall z, nx' z = if decide (z = h) then i else if decide (z = i) then nx h else nx z) ->
  (forall z, pv' z = if decide (z = nx h) then i else if decide (z = i) then h else pv z) ->
  ring nx' pv' h (i :: c).
Proof.
  intros Hnd Hr Hn Hp. apply NoDup_cons in Hnd as [N1 N2]. apply NoDup_cons in N2 as [N2 N3].
  apply not_elem_of_cons in N1 as [N0 N1].
  apply (ring_split _ _ _ []) in Hr as (a & b & Hb & [= <-] & Hnh & Hpb & _ & H2).
  destruct (c ++ [h]) as [|b' r] eqn:E; [done|]. injection Hb as ->.
  assert (b ∈ c ++ [h]) as Hbin by (rewrite E; constructor).
  assert (b <> i) as Hbi.
  { intros ->. apply elem_of_app in Hbin as [Hb|Hb]; [done|]. apply list_elem_of_singleton in Hb as ->. done. }
  unfold ring. cbn [app]. rewrite E, !adj_cons. split_and!.
  - by rewrite Hn, decide_True.
  - rewrite Hp, decide_False, decide_True by (done || by rewrite Hnh). done.
  - by rewrite Hn, decide_False, decide_True.
  - by rewrite Hp, decide_True.
  - rewrite <- E. eapply adj_frame_r; [| | |by rewrite E].
    + apply NoDup_app. split_and!; [done| |apply NoDup_singleton]. intros z Hz Hz'.
      apply list_elem_of_singleton in Hz' as ->. done.
    + intros z Hz. rewrite Hn, !decide_False; [done|..]; by intros ->.
    + intros z Hz Hl. rewrite E in Hl. rewrite Hp, decide_False by (rewrite Hnh; by intros ->).
      rewrite decide_False; [done|]. intros ->. apply elem_of_app in Hz as [Hz|Hz]; [done|].
      apply list_elem_of_singleton in Hz. by subst.
Qed.
End adj.

(** ** Running the locks of the cache *)
#[export] Instance bH_ok : LensOk bH.
Proof. split; intros; by repeat match goal with x : (_ * _)%type |- _ => destruct x as [[]] end. Qed.
#[export] Instance bL_ok : LensOk bL.
Proof. split; intros; by repeat match goal with x : (_ * _)%type |- _ => destruct x as [? []] end. Qed.
#[export] Instance bHL_disj : LensDisj bH bL.
Proof. split; by intros. Qed.

Definition pushc (c : ctx) : ctx := Ctx (pushed (cx_hart c)) (cx_pid c) (cx_wakes c).
Definition touchc (c : ctx) : ctx := Ctx (touched (cx_hart c)) (cx_pid c) (cx_wakes c).
Definition lockc (c : ctx) (s : bcache) : bcache := mkBC (taken (bc_lock s) (cx_hart c)) (bc_buf s) (bc_disk s).

Lemma bacquire_run c s : free_lock (bc_lock s) -> acquire bH bL (c, s) = Done tt (pushc c, lockc c s).
Proof. intros [H _]. by rewrite (acquire_free bH bL). Qed.

Lemma brelease_run c lk bufs d : cx_ok c -> free_lock lk ->
  release bH bL (pushc c, mkBC (taken lk (cx_hart c)) bufs d) = Done tt (touchc c, mkBC lk bufs d).
Proof.
  intros Hc [H1 H2]. rewrite (release_taken bH bL _ (cx_hart c)) by done.
  destruct lk as [l cpu nm]. simpl in *. by subst.
Qed.

Lemma touchc_step c : cx_step c (touchc c).
Proof. split; [apply same_hart_touched|done|done]. Qed.

Lemma touchc_ok c : cx_ok c -> cx_ok (touchc c).
Proof. apply hart_ok_touched. Qed.

Lemma getb_alter l i f j : (i < length l)%nat ->
  getb (alter f i l) j = if decide (j = i) then f (getb l i) else getb l j.
Proof.
  intros Hi. unfold getb. case_decide as E.
  - subst j. rewrite list_lookup_alter_eq. by destruct (lookup_lt_is_Some_2 l i Hi) as [b ->].
  - by rewrite list_lookup_alter_ne.
Qed.

(** The sleep locks of the buffers. *)
Lemma bSL_acquire c s i : cx_ok c -> sl_free (b_lock (getb (bc_buf s) i)) ->
  zoom (bSL i) (acquiresleep (buf_chan i)) (c, s) =
  Done tt (touchc c, upd_buf i (set_lock (sl_take (cx_pid c) (b_lock (getb (bc_buf s) i)))) s).
Proof. intros Hc Hf. erewrite zoom_Done by by apply acquiresleep_run. done. Qed.

Lemma bSL_release c s i : cx_ok c -> free_lock (sl_lk (b_lock (getb (bc_buf s) i))) ->
  zoom (bSL i) (releasesleep (buf_chan i)) (c, s) =
  Done tt (Ctx (touched (cx_hart c)) (cx_pid c) (buf_chan i :: cx_wakes c),
           upd_buf i (set_lock (sl_drop (b_lock (getb (bc_buf s) i)))) s).
Proof. intros Hc Hf. erewrite zoom_Done by by apply releasesleep_run. done. Qed.

Lemma bSL_holding c s i : cx_ok c -> sl_held (cx_pid c) (b_lock (getb (bc_buf s) i)) ->
  zoom (bSL i) holdingsleep (c, s) =
  Done true (touchc c, upd_buf i (set_lock (b_lock (getb (bc_buf s) i))) s).
Proof.
  intros Hc (H1 & H2 & H3). erewrite zoom_Done by by apply holdingsleep_run. simpl.
  by rewrite H1, H2, Z.eqb_refl.
Qed.

Lemma upd_buf_same s i : (i < length (bc_buf s))%nat -> upd_buf i (set_lock (b_lock (getb (bc_buf s) i))) s = s.
Proof.
  intros Hi. destruct s as [lk bufs d]. unfold upd_buf. simpl in *. f_equal. apply list_eq. intros j.
  destruct (decide (j = i)) as [->|]; [|by rewrite list_lookup_alter_ne].
  rewrite list_lookup_alter_eq. unfold getb. destruct (lookup_lt_is_Some_2 bufs i Hi) as [b ->]. simpl. by destruct b.
Qed.

(** ** The invariant and the relation to the abstract cache *)
Section rep.
Context (dev : Z) (Hdev : dev <> 0).

Definition cached (l : list buf) (i : nat) (n : Z) : Prop :=
  (i < nbuf)%nat /\ b_dev (getb l i) = dev /\ b_blockno (getb l i) = n.

Definition held1 (a : acache nat) (n : Z) : Z := match held a !! n with Some _ => 1 | None => 0 end.
Definition pinned1 (a : acache nat) (n : Z) : Z := if decide (n ∈ pinned a) then 1 else 0.

(** A buffer of block [n] of the device, and a buffer that is not used yet. *)
Record buf_used (pid : Z) (a : acache nat) (b : buf) : Prop := {
  bu_valid : b_valid b = 1;
  bu_range : is_u32 (b_blockno b);
  bu_data : b_data b = logical a (b_blockno b);
  bu_locked : sl_locked (b_lock b) = held1 a (b_blockno b);
  bu_pid : is_Some (held a !! b_blockno b) -> sl_pid (b_lock b) = pid;
  bu_refcnt : b_refcnt b = held1 a (b_blockno b) + pinned1 a (b_blockno b)
}.

Definition buf_ok (pid : Z) (a : acache nat) (b : buf) : Prop :=
  free_lock (sl_lk (b_lock b)) /\
  (b_dev b = dev /\ buf_used pid a b \/ b_dev b = 0 /\ b_refcnt b = 0 /\ sl_locked (b_lock b) = 0).

Definition nx (l : list buf) (i : nat) : nat := b_next (getb l i).
Definition pv (l : list buf) (i : nat) : nat := b_prev (getb l i).

Definition lru (l : list buf) (order : list nat) : Prop :=
  order ≡ₚ seq 0 nbuf /\ ring (nx l) (pv l) HEAD order.

Record brep (pid : Z) (s : bcache) (a : acache nat) : Prop := {
  r_lock : free_lock (bc_lock s);
  r_len : length (bc_buf s) = S nbuf;
  r_lru : exists order, lru (bc_buf s) order;
  r_uniq : forall i j n, cached (bc_buf s) i n -> cached (bc_buf s) j n -> i = j;
  r_buf : forall i, (i < nbuf)%nat -> buf_ok pid a (getb (bc_buf s) i);
  r_held : forall n i, held a !! n = Some i -> cached (bc_buf s) i n;
  r_pin : forall n, n ∈ pinned a -> exists i, cached (bc_buf s) i n;
  r_clean : forall n, n ∉ pinned a -> held a !! n = None -> logical a n = on_disk a n;
  r_disk : forall n, d_blocks (bc_disk s) n = on_disk a n;
  r_writes : d_writes (bc_disk s) = writes a;
  r_blocks : forall n, block_ok (logical a n) /\ block_ok (on_disk a n)
}.

Lemma lru_elem l order i : lru l order -> i ∈ order <-> (i < nbuf)%nat.
Proof. intros [Hp _]. rewrite Hp, elem_of_seq. lia. Qed.

Lemma lru_nodup l order : lru l order -> NoDup (HEAD :: order).
Proof.
  intros Hl. pose proof (lru_elem l order HEAD Hl) as Hh. destruct Hl as [Hp _]. apply NoDup_cons. split.
  - rewrite Hh. unfold HEAD. lia.
  - rewrite Hp. apply NoDup_seq.
Qed.

Lemma brep_equiv pid s a a' : aequiv a a' -> brep pid s a -> brep pid s a'.
Proof.
  intros [El Ed Ew Eh Ep] [H1 H2 H3 H4 H5 H6 H7 H8 H9 H10 H11]. split; rewrite <- ?Ew, <- ?Eh, <- ?Ep; try done.
  - intros i Hi. destruct (H5 i Hi) as [Hl [[Hd [U1 U2 U3 U4 U5 U6]]|Hu]]; (split; [done|]); [left|by right].
    split; [done|]. split; unfold held1, pinned1 in *; rewrite <- ?El, <- ?Eh, <- ?Ep; done.
  - intros n. rewrite <- El, <- Ed. apply H8.
  - intros n. rewrite <- Ed. apply H9.
  - intros n. rewrite <- El, <- Ed. apply H11.
Qed.

(** A list update that keeps the pointers keeps the ring. *)
Lemma lru_same l l' order : lru l order -> (forall i, (i <= nbuf)%nat -> nx l' i = nx l i /\ pv l' i = pv l i) ->
  lru l' order.
Proof.
  intros Hl Hsame. pose proof (fun i => lru_elem l order i Hl) as Hin. destruct Hl as [Hp Hr]. split; [done|].
  eapply adj_frame; [..|exact Hr].
  - intros z Hz. apply Hsame. apply elem_of_cons in Hz as [->|Hz]; [unfold HEAD; lia|]. apply Hin in Hz. lia.
  - intros z Hz. apply Hsame. apply elem_of_app in Hz as [Hz|Hz]; [apply Hin in Hz; lia|].
    apply list_elem_of_singleton in Hz as ->. unfold HEAD. lia.
Qed.

(** The abstract caches [a] and [a'] differ on block [n] only. *)
Record agree (n : Z) (a a' : acache nat) : Prop := {
  ag_logical : forall k, k <> n -> logical a' k = logical a k;
  ag_disk : forall k, k <> n -> on_disk a' k = on_disk a k;
  ag_held : forall k, k <> n -> held a' !! k = held a !! k;
  ag_pinned : forall k, k <> n -> k ∈ pinned a' <-> k ∈ pinned a
}.

Lemma buf_used_agree n a a' pid b : agree n a a' -> b_blockno b <> n -> buf_used pid a b -> buf_used pid a' b.
Proof.
  intros [Hl _ Hh Hp] Hn [H1 H2 H3 H4 H5 H6]. split; unfold held1, pinned1 in *; rewrite ?Hl, ?Hh by done; try done.
  rewrite H6. f_equal. specialize (Hp (b_blockno b) Hn). do 2 case_decide; tauto.
Qed.

(** Changing one buffer, and the abstract cache on the block it holds. *)
Section local.
Context (pid : Z) (s : bcache) (a a' : acache nat) (i : nat) (n : Z) (f : buf -> buf) (d' : disk).
Context (b := getb (bc_buf s) i) (b' := f b).
Context (Hrep : brep pid s a) (Hi : (i < nbuf)%nat).
Context (Hptr : b_next b' = b_next b /\ b_prev b' = b_prev b).
Context (Hb' : b_dev b' = dev /\ b_blockno b' = n /\ free_lock (sl_lk (b_lock b')) /\ buf_used pid a' b').
Context (Honly : forall j, j <> i -> ~ cached (bc_buf s) j n).
Context (Hold : b_dev b = dev -> b_blockno b <> n -> b_refcnt b = 0).
Context (Hag : agree n a a').
Context (Hheld : forall j, held a' !! n = Some j -> j = i).
Context (Hclean : n ∉ pinned a' -> held a' !! n = None -> logical a' n = on_disk a' n).
Context (Hblk : block_ok (logical a' n) /\ block_ok (on_disk a' n)).
Context (Hdisk : forall k, d_blocks d' k = on_disk a' k) (Hwr : d_writes d' = writes a').

Lemma local_getb j : getb (alter f i (bc_buf s)) j = if decide (j = i) then b' else getb (bc_buf s) j.
Proof. apply getb_alter. rewrite (r_len _ _ _ Hrep). lia. Qed.

(** The old block of a recycled buffer is neither locked nor pinned. *)
Lemma local_old : b_dev b = dev -> b_blockno b <> n ->
  held a !! b_blockno b = None /\ b_blockno b ∉ pinned a.
Proof.
  intros Hd Hn. specialize (Hold Hd Hn). destruct (r_buf _ _ _ Hrep i Hi) as [_ [[_ Hu]|[Hd' _]]].
  - fold b in Hu. pose proof (bu_refcnt _ _ _ Hu) as E. rewrite Hold in E. unfold held1, pinned1 in E.
    destruct (held a !! b_blockno b), (decide (b_blockno b ∈ pinned a)); try lia. done.
  - fold b in Hd'. congruence.
Qed.

Lemma local_cached j k : cached (alter f i (bc_buf s)) j k <->
  (j = i /\ k = n) \/ (j <> i /\ cached (bc_buf s) j k).
Proof.
  destruct Hb' as (Hd & Hn & _). unfold cached. rewrite local_getb. case_decide as E.
  - subst j. fold b'. rewrite Hn. split; [intros (_ & _ & <-); by left|]. intros [[_ ->]|[? _]]; [done|done].
  - split; [by right|]. intros [[? _]|[_ ?]]; done.
Qed.

Lemma local_kept j k : cached (bc_buf s) j k -> (j <> i \/ k = n) \/ (held a !! k = None /\ k ∉ pinned a).
Proof.
  intros (Hj & Hd & Hk). destruct (decide (j = i)) as [->|]; [|auto].
  destruct (decide (k = n)); [auto|]. right. fold b in Hd, Hk. subst k. by apply local_old.
Qed.

Lemma brep_local : brep pid (mkBC (bc_lock s) (alter f i (bc_buf s)) d') a'.
Proof.
  destruct Hrep as [H1 H2 (order & H3) H4 H5 H6 H7 H8 H9 H10 H11].
  destruct Hb' as (Hd & Hn & Hlk & Hu). split; cbn [bc_lock bc_buf bc_disk]; try done.
  - by rewrite length_alter.
  - exists order. eapply lru_same; [done|]. intros j _. unfold nx, pv. rewrite local_getb.
    case_decide; [subst j; apply Hptr|done].
  - intros j1 j2 k. rewrite !local_cached. intros [[-> ->]|[N1 C1]] [[-> E2]|[N2 C2]]; try done.
    + by destruct (Honly j2 N2).
    + subst k. by destruct (Honly j1 N1).
    + by eapply H4.
  - intros j Hj. rewrite local_getb. case_decide as E; [split; [done|by left]|].
    destruct (H5 j Hj) as [Hl [[Hdj Huj]|Hfree]]; (split; [done|]); [left|by right]. split; [done|].
    eapply buf_used_agree; [done| |done]. intros Hk. by apply (Honly j E).
  - intros k j Hk. rewrite local_cached. destruct (decide (k = n)) as [->|Hkn].
    + left. split; [by apply Hheld|done].
    + rewrite (ag_held _ _ _ Hag) in Hk by done. pose proof (H6 k j Hk) as C.
      destruct (local_kept j k C) as [[?|?]|[? _]]; [by right|done|congruence].
  - intros k Hk. destruct (decide (k = n)) as [->|Hkn].
    + exists i. apply local_cached. by left.
    + apply (ag_pinned _ _ _ Hag) in Hk; [|done]. destruct (H7 k Hk) as [j C]. exists j. apply local_cached.
      destruct (local_kept j k C) as [[?|?]|[_ ?]]; [by right|done|done].
  - intros k. destruct (decide (k = n)) as [->|Hkn]; [done|].
    rewrite (ag_pinned _ _ _ Hag), (ag_held _ _ _ Hag), (ag_logical _ _ _ Hag), (ag_disk _ _ _ Hag) by done. apply H8.
  - intros k. destruct (decide (k = n)) as [->|Hkn]; [done|].
    rewrite (ag_logical _ _ _ Hag), (ag_disk _ _ _ Hag) by done. apply H11.
Qed.
End local.
End rep.

(** ** The laws of the cache *)
Lemma agree_hold n b a : agree n a (a_hold n b a).
Proof. split; simpl; intros; try done. by rewrite lookup_insert_ne. Qed.
Lemma agree_drop n a : agree n a (a_drop n a).
Proof. split; simpl; intros; try done. by rewrite lookup_delete_ne. Qed.
Lemma agree_set n d a : agree n a (a_set n d a).
Proof. split; simpl; intros; try done. by rewrite fn_lookup_insert_ne. Qed.
Lemma agree_write n a : agree n a (a_write n a).
Proof. split; simpl; intros; try done. by rewrite fn_lookup_insert_ne. Qed.
Lemma agree_pin n a : agree n a (a_pin n a).
Proof. split; simpl; intros; try done. rewrite elem_of_union, elem_of_singleton. tauto. Qed.
Lemma agree_unpin n a : agree n a (a_unpin n a).
Proof. split; simpl; intros; try done. rewrite elem_of_difference, elem_of_singleton. tauto. Qed.

Lemma upd_buf_twice i f g s : upd_buf i g (upd_buf i f s) = upd_buf i (fun b => g (f b)) s.
Proof.
  unfold upd_buf. simpl. f_equal. apply list_eq. intros j. destruct (decide (j = i)) as [->|].
  - rewrite !list_lookup_alter_eq. by destruct (bc_buf s !! i).
  - by rewrite !list_lookup_alter_ne.
Qed.

Lemma upd_buf_mk i f s : upd_buf i f s = mkBC (bc_lock s) (alter f i (bc_buf s)) (bc_disk s).
Proof. done. Qed.

Section laws.
Context (dev : Z) (Hdev : dev <> 0).
Notation brep := (brep dev).
Notation cached := (cached dev).

(** What is known of the buffer of a held block. *)
Lemma held_buf pid s a n i : brep pid s a -> held a !! n = Some i ->
  let b := getb (bc_buf s) i in
  (i < nbuf)%nat /\ (i < length (bc_buf s))%nat /\ b_dev b = dev /\ b_blockno b = n /\
  sl_held pid (b_lock b) /\ buf_used pid a b /\ (forall j, j <> i -> ~ cached (bc_buf s) j n).
Proof.
  intros Hrep Hh b. pose proof (r_held _ _ _ _ Hrep n i Hh) as (Hi & Hd & Hn). fold b in Hd, Hn.
  destruct (r_buf _ _ _ _ Hrep i Hi) as [Hl [[_ Hu]|[Hd' _]]]; [|destruct Hdev; by rewrite <- Hd]. fold b in Hl, Hu.
  split_and!; try done.
  - rewrite (r_len _ _ _ _ Hrep). lia.
  - pose proof (bu_locked _ _ _ Hu) as E. unfold held1 in E. rewrite Hn, Hh in E. split_and!; [done| |apply Hl..].
    apply (bu_pid _ _ _ Hu). rewrite Hn, Hh. by eexists.
  - intros j Hj C. apply Hj. eapply (r_uniq _ _ _ _ Hrep); [done|]. by split_and!.
Qed.

Lemma refcnt_u32 pid a b : buf_used pid a b -> 0 <= b_refcnt b <= 2.
Proof.
  intros Hu. rewrite (bu_refcnt _ _ _ Hu). unfold held1, pinned1.
  destruct (held a !! b_blockno b), (decide (b_blockno b ∈ pinned a)); lia.
Qed.

Lemma bpin_ok c s a n i : cx_ok c -> brep (cx_pid c) s a -> held a !! n = Some i -> n ∉ pinned a ->
  wp (bpin i (c, s)) (fun _ '(c', s') => cx_step c c' /\ brep (cx_pid c) s' (a_pin n a)).
Proof.
  intros Hc Hrep Hh Hp. destruct (held_buf _ _ _ _ _ Hrep Hh) as (Hi & _ & Hd & Hn & Hl & Hu & Ho).
  unfold bpin, readb, updb. kstep. rewrite bacquire_run by apply Hrep. cbn [wp].
  do 4 kstep. unfold lockc, upd_buf. cbn [fst snd bc_lock bc_buf bc_disk].
  rewrite brelease_run by (done || apply Hrep). cbn [wp]. split; [apply touchc_step|].
  set (b := getb (bc_buf s) i) in *. pose proof (refcnt_u32 _ _ _ Hu) as Hr.
  apply brep_local with (a := a) (n := n); fold b; try done.
  - split_and!; [done|done|apply Hl|]. destruct Hu as [U1 U2 U3 U4 U5 U6]. split; simpl; try done.
    rewrite u32_id by lia. rewrite U6, Hn. unfold held1, pinned1. simpl.
    rewrite (decide_False (P := n ∈ pinned a)), decide_True by (done || apply elem_of_union_l, elem_of_singleton; done). lia.
  - apply agree_pin.
  - simpl. intros j Hj. congruence.
  - simpl. set_solver.
  - apply (r_blocks _ _ _ _ Hrep).
  - apply Hrep.
  - apply Hrep.
Qed.

Lemma bunpin_ok c s a n i : cx_ok c -> brep (cx_pid c) s a -> held a !! n = Some i -> n ∈ pinned a ->
  wp (bunpin i (c, s)) (fun _ '(c', s') => cx_step c c' /\ brep (cx_pid c) s' (a_unpin n a)).
Proof.
  intros Hc Hrep Hh Hp. destruct (held_buf _ _ _ _ _ Hrep Hh) as (Hi & _ & Hd & Hn & Hl & Hu & Ho).
  unfold bunpin, readb, updb. kstep. rewrite bacquire_run by apply Hrep. cbn [wp].
  do 4 kstep. unfold lockc, upd_buf. cbn [fst snd bc_lock bc_buf bc_disk].
  rewrite brelease_run by (done || apply Hrep). cbn [wp]. split; [apply touchc_step|].
  set (b := getb (bc_buf s) i) in *. pose proof (refcnt_u32 _ _ _ Hu) as Hr.
  assert (n ∉ pinned a ∖ {[n]}) as Hnp by (rewrite elem_of_difference, elem_of_singleton; tauto).
  apply brep_local with (a := a) (n := n); fold b; try done.
  - split_and!; [done|done|apply Hl|]. destruct Hu as [U1 U2 U3 U4 U5 U6]. split; simpl; try done.
    revert U6. rewrite Hn. unfold held1, pinned1. simpl. rewrite Hh, decide_True, decide_False by done.
    intros ->. done.
  - apply agree_unpin.
  - simpl. intros j Hj. congruence.
  - simpl. intros _ Hn'. congruence.
  - apply (r_blocks _ _ _ _ Hrep).
  - apply Hrep.
  - apply Hrep.
Qed.

Lemma bwrite_ok c s a n i : cx_ok c -> brep (cx_pid c) s a -> held a !! n = Some i ->
  wp (bwrite i (c, s)) (fun _ '(c', s') => cx_step c c' /\ brep (cx_pid c) s' (a_write n a)).
Proof.
  intros Hc Hrep Hh. destruct (held_buf _ _ _ _ _ Hrep Hh) as (Hi & Hil & Hd & Hn & Hl & Hu & Ho).
  unfold bwrite, virtio_disk_rw, readb. kstep. rewrite bSL_holding by done. rewrite upd_buf_same by done. cbn [wp negb].
  do 3 kstep. cbn [fst snd]. split; [apply touchc_step|]. set (b := getb (bc_buf s) i) in *.
  replace (bc_buf s) with (alter (fun x => x) i (bc_buf s)).
  2:{ apply list_eq. intros j. destruct (decide (j = i)) as [->|]; [|by rewrite list_lookup_alter_ne].
      rewrite list_lookup_alter_eq. by destruct (bc_buf s !! i). }
  pose proof (bu_data _ _ _ Hu) as Edata. rewrite Hn in Edata. rewrite Hn, Edata.
  apply brep_local with (a := a) (n := n); fold b; try done.
  - split_and!; [done|done|apply Hl|]. destruct Hu as [U1 U2 U3 U4 U5 U6]. by split.
  - apply agree_write.
  - simpl. intros j Hj. congruence.
  - simpl. intros _ Hn'. congruence.
  - simpl. rewrite fn_lookup_insert. split; apply (r_blocks _ _ _ _ Hrep).
  - intros k. simpl. destruct (decide (k = n)) as [->|]; [by rewrite !fn_lookup_insert|].
    rewrite !fn_lookup_insert_ne by done. apply (r_disk _ _ _ _ Hrep).
  - simpl. by rewrite (r_writes _ _ _ _ Hrep).
Qed.

Lemma set_data_ok pid s a n i d : brep pid s a -> held a !! n = Some i -> block_ok d ->
  brep pid (upd_buf i (set_data d) s) (a_set n d a).
Proof.
  intros Hrep Hh Hblk. destruct (held_buf _ _ _ _ _ Hrep Hh) as (Hi & Hil & Hd & Hn & Hl & Hu & Ho).
  set (b := getb (bc_buf s) i) in *. rewrite upd_buf_mk.
  apply brep_local with (a := a) (n := n); fold b; try done.
  - split_and!; [done|done|apply Hl|]. destruct Hu as [U1 U2 U3 U4 U5 U6]. split; try done.
    simpl. by rewrite Hn, fn_lookup_insert.
  - apply agree_set.
  - simpl. intros j Hj. congruence.
  - simpl. intros _ Hn'. congruence.
  - simpl. rewrite fn_lookup_insert. split; [done|]. apply (r_blocks _ _ _ _ Hrep).
  - apply Hrep.
  - apply Hrep.
Qed.

(** Dropping the lock and the reference of a held buffer, before the buffer is
    moved to the front of the list. *)
Lemma drop_ref_ok pid s a n i (b := getb (bc_buf s) i) : brep pid s a -> held a !! n = Some i ->
  n ∈ pinned a \/ logical a n = on_disk a n ->
  brep pid (upd_buf i (fun b => set_refcnt (b_refcnt b - 1) (set_lock (sl_drop (b_lock b)) b)) s) (a_drop n a) /\
  b_refcnt b - 1 = pinned1 a n.
Proof.
  intros Hrep Hh Hcl. destruct (held_buf _ _ _ _ _ Hrep Hh) as (Hi & Hil & Hd & Hn & Hl & Hu & Ho). fold b in Hd, Hn, Hl, Hu.
  assert (b_refcnt b - 1 = pinned1 a n) as Er.
  { rewrite (bu_refcnt _ _ _ Hu), Hn. unfold held1. rewrite Hh. lia. }
  split; [|done]. rewrite upd_buf_mk. apply brep_local with (a := a) (n := n); fold b; try done.
  - split_and!; [done|done|apply Hl|]. destruct Hu as [U1 U2 U3 U4 U5 U6].
    assert (held (a_drop n a) !! n = None) as Hdel by apply lookup_delete_eq.
    split; simpl b_blockno; try done; simpl; rewrite ?Hn; unfold held1; rewrite ?Hdel; try done.
    + rewrite lookup_delete_eq. by intros [].
    + rewrite Er. unfold pinned1 in *. simpl. destruct (decide (n ∈ pinned a)); done.
  - apply agree_drop.
  - simpl. intros j. by rewrite lookup_delete_eq.
  - simpl. intros Hnp _. by destruct Hcl.
  - apply (r_blocks _ _ _ _ Hrep).
  - apply Hrep.
  - apply Hrep.
Qed.

(** ** Moving a buffer to the front of the list *)
Definition payload (b : buf) := (b_valid b, b_dev b, b_blockno b, b_lock b, b_refcnt b, b_data b).

Lemma brep_pointers pid s a l' : brep pid s a -> length l' = S nbuf ->
  (forall j, payload (getb l' j) = payload (getb (bc_buf s) j)) -> (exists order, lru l' order) ->
  brep pid (mkBC (bc_lock s) l' (bc_disk s)) a.
Proof.
  intros [H1 H2 H3 H4 H5 H6 H7 H8 H9 H10 H11] Hlen Hpay Hlru.
  assert (forall i n, cached l' i n <-> cached (bc_buf s) i n) as Hc.
  { intros i n. specialize (Hpay i). unfold payload in Hpay. injection Hpay as _ E1 E2 _ _ _.
    unfold Bio.cached. by rewrite E1, E2. }
  split; cbn [bc_lock bc_buf bc_disk]; try done.
  - intros i j n. rewrite !Hc. apply H4.
  - intros i Hi. specialize (H5 i Hi). specialize (Hpay i). destruct (getb l' i), (getb (bc_buf s) i).
    unfold payload in Hpay. simpl in Hpay. simplify_eq. destruct H5 as [Hf [[Hd [U1 U2 U3 U4 U5 U6]]|Hu]].
    + split; [done|left]. split; [done|]. by split.
    + split; [done|by right].
  - intros n i. rewrite Hc. apply H6.
  - intros n Hn. destruct (H7 n Hn) as [i Hi]. exists i. by rewrite Hc.
Qed.

(** The pointer updates of [brelse], on the array. *)
Definition move_front (i : nat) (l : list buf) : list buf :=
  let l1 := alter (set_prev (pv l i)) (nx l i) l in
  let l2 := alter (set_next (nx l1 i)) (pv l1 i) l1 in
  let l3 := alter (set_next (nx l2 HEAD)) i l2 in
  let l4 := alter (set_prev HEAD) i l3 in
  let l5 := alter (set_prev i) (nx l4 HEAD) l4 in
  alter (set_next i) HEAD l5.

Lemma nx_alter_prev l k v z : nx (alter (set_prev v) k l) z = nx l z.
Proof.
  unfold nx, getb. destruct (decide (z = k)) as [->|]; [|by rewrite list_lookup_alter_ne].
  rewrite list_lookup_alter_eq. by destruct (l !! k).
Qed.
Lemma pv_alter_next l k v z : pv (alter (set_next v) k l) z = pv l z.
Proof.
  unfold pv, getb. destruct (decide (z = k)) as [->|]; [|by rewrite list_lookup_alter_ne].
  rewrite list_lookup_alter_eq. by destruct (l !! k).
Qed.
Lemma nx_alter_next l k v z : (k < length l)%nat -> nx (alter (set_next v) k l) z = if decide (z = k) then v else nx l z.
Proof. intros Hk. unfold nx. rewrite getb_alter by done. by case_decide. Qed.
Lemma pv_alter_prev l k v z : (k < length l)%nat -> pv (alter (set_prev v) k l) z = if decide (z = k) then v else pv l z.
Proof. intros Hk. unfold pv. rewrite getb_alter by done. by case_decide. Qed.
Lemma payload_alter l k f z : (forall b, payload (f b) = payload b) -> payload (getb (alter f k l) z) = payload (getb l z).
Proof.
  intros Hf. unfold getb. destruct (decide (z = k)) as [->|]; [|by rewrite list_lookup_alter_ne].
  rewrite list_lookup_alter_eq. destruct (l !! k); simpl; [apply Hf|done].
Qed.

Lemma payload_move_front i l z : payload (getb (move_front i l) z) = payload (getb l z).
Proof. unfold move_front. by rewrite !payload_alter. Qed.

Lemma length_move_front i l : length (move_front i l) = length l.
Proof. unfold move_front. by rewrite !length_alter. Qed.

Lemma last_in {A} (x a : A) (l : list A) : last (x :: l) = Some a -> a ∈ x :: l.
Proof. intros H. apply last_Some in H as [k ->]. apply elem_of_app. right. constructor. Qed.

Lemma hd_in (b : nat) c h : hd_error (c ++ [h]) = Some b -> b ∈ h :: c.
Proof. destruct c as [|x c]; simpl; intros [= <-]; [constructor|do 2 constructor]. Qed.

Lemma lru_index l order z : lru l order -> z ∈ HEAD :: order -> (z <= nbuf)%nat.
Proof. intros Hl Hz. apply elem_of_cons in Hz as [->|Hz]; [done|]. apply (lru_elem l order) in Hz; [lia|done]. Qed.

Lemma move_front_lru l i c1 c2 : length l = S nbuf -> lru l (c1 ++ i :: c2) -> lru (move_front i l) (i :: c1 ++ c2).
Proof.
  intros Hlen Hl. pose proof (lru_nodup _ _ Hl) as Hnd. pose proof (fun z => lru_index _ _ z Hl) as Hix.
  assert (i < nbuf)%nat as Hi by (apply (lru_elem l (c1 ++ i :: c2)); [done|]; apply elem_of_app; right; constructor).
  destruct Hl as [Hp Hr]. destruct (ring_neighbours _ _ _ _ _ _ Hr) as [Hpi Hni].
  assert (pv l i <= nbuf)%nat as Hpi'.
  { apply Hix. apply last_in in Hpi. rewrite app_comm_cons. apply elem_of_app. by left. }
  assert (nx l i <= nbuf)%nat as Hni'.
  { apply Hix. apply hd_in in Hni. apply elem_of_cons in Hni as [->|Hni]; [constructor|].
    constructor. apply elem_of_app. right. by constructor. }
  set (l1 := alter (set_prev (pv l i)) (nx l i) l). set (l2 := alter (set_next (nx l i)) (pv l i) l1).
  assert (ring (nx l2) (pv l2) HEAD (c1 ++ c2)) as Hr2.
  { eapply ring_remove; [done|done|..]; intros z; unfold l2, l1.
    - rewrite nx_alter_next, nx_alter_prev by (rewrite length_alter; lia). done.
    - rewrite pv_alter_next, pv_alter_prev by lia. done. }
  assert (i <> nx l i) as Hine.
  { intros E. rewrite <- E in Hni. apply hd_in in Hni. apply elem_of_cons in Hni as [Hni|Hni].
    - unfold HEAD in Hni. lia.
    - apply NoDup_cons in Hnd as [_ Hnd]. apply NoDup_app in Hnd as (_ & _ & Hnd). by apply NoDup_cons in Hnd as [Hnd _]. }
  assert (nx l1 i = nx l i) as E1 by apply nx_alter_prev.
  assert (pv l1 i = pv l i) as E2 by (unfold l1; rewrite pv_alter_prev by lia; by rewrite decide_False).
  unfold move_front. fold l1. rewrite E1, E2. fold l2.
  destruct (ring_next_head _ _ _ _ Hr2) as [Hh _]. apply hd_in in Hh.
  assert (nx l2 HEAD <= nbuf)%nat as Hh'.
  { apply Hix. apply elem_of_cons in Hh as [->|Hh]; [constructor|]. constructor. apply elem_of_app in Hh as [?|?];
      apply elem_of_app; [by left|right; by constructor]. }
  assert (length l2 = S nbuf) as Hl2 by (unfold l2, l1; by rewrite !length_alter).
  assert (HEAD <> i) as Hhi by (unfold HEAD; lia). rewrite nx_alter_prev.
  rewrite (nx_alter_next l2 i), decide_False by (done || lia). split.
  - rewrite <- Hp, <- Permutation_middle. done.
  - assert (NoDup (HEAD :: i :: c1 ++ c2)) as Hnd' by by rewrite (Permutation_middle c1 c2 i).
    eapply ring_insert; [done|exact Hr2|..]; intros z.
    + rewrite nx_alter_next by (rewrite !length_alter; unfold HEAD; lia).
      case_decide; [done|]. rewrite !nx_alter_prev, nx_alter_next by lia. done.
    + rewrite pv_alter_next, !pv_alter_prev, pv_alter_next by (rewrite ?length_alter; lia). done.
Qed.

Lemma alter_getb f g i l : f (getb l i) = g (getb l i) -> alter f i l = alter g i l.
Proof.
  intros H. apply list_eq. intros j. destruct (decide (j = i)) as [->|]; [|by rewrite !list_lookup_alter_ne].
  rewrite !list_lookup_alter_eq. unfold getb in H. destruct (l !! i); simpl in *; [by f_equal|done].
Qed.

Lemma brelse_ok c s a n i : cx_ok c -> brep (cx_pid c) s a -> held a !! n = Some i ->
  n ∈ pinned a \/ logical a n = on_disk a n ->
  wp (brelse i (c, s)) (fun _ '(c', s') => cx_step c c' /\ brep (cx_pid c) s' (a_drop n a)).
Proof.
  intros Hc Hrep Hh Hcl. destruct (held_buf _ _ _ _ _ Hrep Hh) as (Hi & Hil & Hd & Hn & Hl & Hu & Ho).
  destruct (drop_ref_ok _ _ _ _ _ Hrep Hh Hcl) as [Hrep1 Hr].
  unfold brelse, readb, updb. kstep. rewrite bSL_holding, upd_buf_same by done. cbn [wp negb].
  kstep. rewrite bSL_release by (apply touchc_ok, Hc || apply Hl).
  cbn [wp touchc cx_hart cx_pid cx_wakes]. rewrite touched_touched.
  set (c2 := Ctx _ _ _). assert (cx_ok c2) as Hc2 by by apply hart_ok_touched.
  assert (cx_step c (touchc c2)) as Hst.
  { split; [simpl; rewrite touched_touched; apply same_hart_touched|done|by apply suffix_cons_r]. }
  kstep. rewrite bacquire_run by apply Hrep. cbn [wp]. do 5 kstep.
  unfold lockc, upd_buf. cbn [fst snd bc_lock bc_buf bc_disk].
  set (l1 := alter (set_refcnt _) i _).
  assert (l1 = alter (fun b => set_refcnt (b_refcnt b - 1) (set_lock (sl_drop (b_lock b)) b)) i (bc_buf s)) as El.
  { unfold l1. change (alter _ i (alter _ i (bc_buf s))) with
      (bc_buf (upd_buf i (set_refcnt (b_refcnt (getb (alter (set_lock (sl_drop (b_lock (getb (bc_buf s) i)))) i (bc_buf s)) i) - 1))
        (upd_buf i (set_lock (sl_drop (b_lock (getb (bc_buf s) i)))) s))).
    rewrite upd_buf_twice. simpl. apply alter_getb. rewrite getb_alter by done. by rewrite decide_True. }
  rewrite upd_buf_mk, <- El in Hrep1. clearbody l1. clear El.
  kstep. cbn [fst snd bc_buf].
  destruct (Z.eqb_spec (b_refcnt (getb l1 i)) 0) as [E0|E0].
  - ksteps. cbn [fst snd bc_lock bc_buf bc_disk].
    change (alter (set_next i) HEAD _) with (move_front i l1).
    rewrite brelease_run by (done || apply Hrep). cbn [wp]. split; [done|].
    pose proof (brep_pointers (cx_pid c) _ _ (move_front i l1) Hrep1) as Hmove. simpl in Hmove. apply Hmove.
    + rewrite length_move_front. apply (r_len _ _ _ _ Hrep1).
    + intros j. apply payload_move_front.
    + destruct (r_lru _ _ _ _ Hrep1) as [order Hlru]. simpl in Hlru.
      assert (i ∈ order) as Hin by by apply (lru_elem l1 order).
      apply list_elem_of_split in Hin as (o1 & o2 & ->). eexists. apply move_front_lru; [|done].
      apply (r_len _ _ _ _ Hrep1).
  - ksteps. rewrite brelease_run by (done || apply Hrep). done.
Qed.

(** ** bget *)
Lemma cached_use pid s a i n : brep pid s a -> cached (bc_buf s) i n ->
  let b := getb (bc_buf s) i in free_lock (sl_lk (b_lock b)) /\ buf_used pid a b.
Proof.
  intros Hrep (Hi & Hd & Hn). destruct (r_buf _ _ _ _ Hrep i Hi) as [Hl [[_ Hu]|[Hd' _]]]; [done|].
  destruct Hdev. by rewrite <- Hd.
Qed.

(** When every buffer is in use there are at least NBUF blocks in use. *)
Lemma all_in_use pid s a : brep pid s a -> (forall i, (i < nbuf)%nat -> b_refcnt (getb (bc_buf s) i) <> 0) ->
  (nbuf <= size (in_use a))%nat.
Proof.
  intros Hrep Hall. set (f := fun i => b_blockno (getb (bc_buf s) i)).
  assert (forall i, (i < nbuf)%nat -> cached (bc_buf s) i (f i)) as Hc.
  { intros i Hi. split_and!; [done| |done]. destruct (r_buf _ _ _ _ Hrep i Hi) as [_ [[Hd _]|(_ & Hr & _)]]; [done|].
    by destruct (Hall i Hi). }
  assert (NoDup (f <$> seq 0 nbuf)) as Hnd.
  { apply NoDup_fmap_2_strong; [|apply NoDup_seq]. intros i j Hi Hj E. rewrite elem_of_seq in Hi, Hj.
    eapply (r_uniq _ _ _ _ Hrep); [apply Hc; lia|]. rewrite E. apply Hc. lia. }
  assert (size (list_to_set (f <$> seq 0 nbuf) : gset Z) = nbuf) as Hsize.
  { by rewrite size_list_to_set, length_fmap, length_seq. }
  rewrite <- Hsize at 1. apply subseteq_size. intros n Hn. apply elem_of_list_to_set, list_elem_of_fmap in Hn as (i & -> & Hi).
  apply elem_of_seq in Hi. destruct (cached_use _ _ _ _ _ Hrep (Hc i ltac:(lia))) as [_ Hu].
  pose proof (bu_refcnt _ _ _ Hu) as Er. fold (f i) in Er. specialize (Hall i ltac:(lia)).
  unfold in_use. apply elem_of_union. unfold held1, pinned1 in Er.
  destruct (held a !! f i) eqn:E; [left; by apply elem_of_dom_2 in E|]. right. case_decide; [done|]. lia.
Qed.

(** Taking a cached buffer that is not locked. *)
Definition take_ref (pid : Z) (x : buf) : buf :=
  set_lock (sl_take pid (b_lock x)) (set_refcnt (b_refcnt x + 1) x).

Lemma take_cached pid s a i n : brep pid s a -> cached (bc_buf s) i n -> held a !! n = None ->
  brep pid (upd_buf i (take_ref pid) s) (a_hold n i a) /\ b_valid (getb (bc_buf s) i) = 1.
Proof.
  intros Hrep Hc Hh. destruct (cached_use _ _ _ _ _ Hrep Hc) as [Hl Hu]. destruct Hc as (Hi & Hd & Hn).
  split; [|apply Hu]. set (b := getb (bc_buf s) i) in *. pose proof (refcnt_u32 _ _ _ Hu) as Hr.
  rewrite upd_buf_mk. apply brep_local with (a := a) (n := n); fold b; try done.
  - split_and!; [done|done|done|]. destruct Hu as [U1 U2 U3 U4 U5 U6].
    assert (held (a_hold n i a) !! n = Some i) as Hins by apply lookup_insert_eq.
    split; [done..| |done|]; unfold held1; simpl b_blockno; rewrite Hn, Hins; [done|].
    simpl. rewrite u32_id by lia. rewrite U6, Hn. unfold held1, pinned1. rewrite Hh. simpl. lia.
  - intros j Hj C. apply Hj. eapply (r_uniq _ _ _ _ Hrep); [done|]. by split_and!.
  - apply agree_hold.
  - simpl. intros j. rewrite lookup_insert_eq. congruence.
  - simpl. by rewrite lookup_insert_eq.
  - apply (r_blocks _ _ _ _ Hrep).
  - apply Hrep.
  - apply Hrep.
Qed.

(** Reading block [n] into an unused buffer. *)
Definition take_new (pid n : Z) (x : buf) : buf :=
  set_lock (sl_take pid (b_lock x)) (set_refcnt 1 (set_valid 0 (set_id dev n x))).

Lemma take_unused pid s a i n d : brep pid s a -> (i < nbuf)%nat -> (forall j, ~ cached (bc_buf s) j n) ->
  b_refcnt (getb (bc_buf s) i) = 0 -> is_u32 n -> d = d_blocks (bc_disk s) n ->
  brep pid (upd_buf i (fun x => set_valid 1 (set_data d (take_new pid n x))) s) (a_hold n i a).
Proof.
  intros Hrep Hi Hnone Hr Hn ->. set (b := getb (bc_buf s) i) in *.
  assert (n ∉ pinned a) as Hp by (intros Hp; destruct (r_pin _ _ _ _ Hrep n Hp) as [j Hj]; by apply (Hnone j)).
  assert (held a !! n = None) as Hh.
  { destruct (held a !! n) as [j|] eqn:E; [|done]. by destruct (Hnone j), (r_held _ _ _ _ Hrep n j E). }
  assert (held (a_hold n i a) !! n = Some i) as Hins by apply lookup_insert_eq.
  destruct (r_buf _ _ _ _ Hrep i Hi) as [Hl _]. fold b in Hl.
  rewrite upd_buf_mk. apply brep_local with (a := a) (n := n); fold b; try done.
  - split_and!; [done|done|done|]. split; [done|done| | |done|]; unfold held1; simpl b_blockno; rewrite ?Hins.
    + simpl. rewrite (r_disk _ _ _ _ Hrep). symmetry. by apply (r_clean _ _ _ _ Hrep).
    + done.
    + simpl. unfold pinned1. simpl. by rewrite decide_False.
  - apply agree_hold.
  - simpl. intros j. rewrite lookup_insert_eq. congruence.
  - simpl. by rewrite lookup_insert_eq.
  - apply (r_blocks _ _ _ _ Hrep).
  - apply Hrep.
  - apply Hrep.
Qed.

Section bget.
Context (c : ctx) (s : bcache) (a : acache nat) (n : Z).
Context (Hc : cx_ok c) (Hrep : brep (cx_pid c) s a) (Hn : is_u32 n) (Hh : held a !! n = None) (Hroom : room n a).

(** What [bget] leaves: a cached buffer that is locked now, or an unused one
    that was given to the block. *)
Definition got (b : nat) (st : ctx * bcache) : Prop :=
  st.1 = touchc c /\
  ((cached (bc_buf s) b n /\ st.2 = upd_buf b (take_ref (cx_pid c)) s) \/
   ((b < nbuf)%nat /\ (forall j, ~ cached (bc_buf s) j n) /\ b_refcnt (getb (bc_buf s) b) = 0 /\
    st.2 = upd_buf b (take_new (cx_pid c) n) s)).

(** Releasing the cache lock and taking the buffer's sleep lock. *)
Lemma release_take b f : (b < nbuf)%nat -> sl_free (b_lock (f (getb (bc_buf s) b))) ->
  wp ((release bH bL;; zoom (bSL b) (acquiresleep (buf_chan b))) (pushc c, upd_buf b f (lockc c s)))
     (fun _ st => st = (touchc c, upd_buf b (fun x => set_lock (sl_take (cx_pid c) (b_lock (f x))) (f x)) s)).
Proof.
  intros Hb Hf. kstep. unfold lockc, upd_buf at 1. cbn [bc_lock bc_buf bc_disk].
  rewrite brelease_run by (done || apply Hrep). cbn [wp].
  assert (getb (alter f b (bc_buf s)) b = f (getb (bc_buf s) b)) as Eg.
  { rewrite getb_alter by (rewrite (r_len _ _ _ _ Hrep); lia). by rewrite decide_True. }
  rewrite bSL_acquire; [|by apply touchc_ok|by cbn [bc_buf]; rewrite Eg]. cbn [wp bc_buf]. rewrite Eg. f_equal.
  - unfold touchc. simpl. by rewrite touched_touched.
  - change (mkBC (bc_lock s) (alter f b (bc_buf s)) (bc_disk s)) with (upd_buf b f s). rewrite upd_buf_twice.
    unfold upd_buf. f_equal. by apply alter_getb.
Qed.

Lemma cached_free b : cached (bc_buf s) b n -> sl_free (b_lock (getb (bc_buf s) b)).
Proof.
  intros C. destruct (cached_use _ _ _ _ _ Hrep C) as [Hl Hu]. destruct C as (_ & _ & En). split; [|done].
  rewrite (bu_locked _ _ _ Hu), En. unfold held1. by rewrite Hh.
Qed.

Lemma unused_free b : (b < nbuf)%nat -> b_refcnt (getb (bc_buf s) b) = 0 -> sl_free (b_lock (getb (bc_buf s) b)).
Proof.
  intros Hb Hr. destruct (r_buf _ _ _ _ Hrep b Hb) as [Hl [[_ Hu]|(_ & _ & H0)]]; [|by split].
  split; [|done]. rewrite (bu_locked _ _ _ Hu). pose proof (bu_refcnt _ _ _ Hu) as E. rewrite Hr in E.
  unfold held1, pinned1 in *. destruct (held a !! b_blockno (getb (bc_buf s) b)); [|done]. case_decide; lia.
Qed.

(** The search for a cached buffer. *)
Definition search_body (b : nat) : K bst (nat + option nat) :=
  if (b =? HEAD)%nat then ret (inr None) else
  x <- readb b;;
  if (b_dev x =? dev) && (b_blockno x =? n) then
    updb b (set_refcnt (b_refcnt x + 1));;
    release bH bL;;
    zoom (bSL b) (acquiresleep (buf_chan b));;
    ret (inr (Some b))
  else ret (inl (b_next x)).

Lemma search_ok order : lru (bc_buf s) order ->
  wp (while_ budget search_body (nx (bc_buf s) HEAD) (pushc c, lockc c s))
     (fun r st => match r with
                  | Some b => got b st
                  | None => st = (pushc c, lockc c s) /\ forall j, ~ cached (bc_buf s) j n
                  end).
Proof.
  intros Hl. pose proof (fun i => lru_elem _ _ i Hl) as Hin. pose proof Hl as [Hperm Hring].
  apply wp_while_ghost with (g := order) (m := fun g => Z.of_nat (length g))
    (I := fun g b st => st = (pushc c, lockc c s) /\ hd_error (g ++ [HEAD]) = Some b /\
            exists pre, order = pre ++ g /\ forall j, j ∈ pre -> ~ cached (bc_buf s) j n).
  - intros g b st (-> & Hb & pre & Eo & Hpre). unfold search_body. destruct g as [|b' g].
    + injection Hb as <-. rewrite Nat.eqb_refl. kstep. split; [done|]. intros j C. apply (Hpre j); [|done].
      rewrite app_nil_r in Eo. rewrite <- Eo. apply Hin. apply C.
    + injection Hb as ->. assert (b < nbuf)%nat as Hbn by (apply Hin; rewrite Eo; apply elem_of_app; right; constructor).
      destruct (Nat.eqb_spec b HEAD) as [->|_]; [unfold HEAD in *; lia|]. unfold readb. do 2 kstep. cbn [fst snd lockc bc_buf].
      destruct ((b_dev (getb (bc_buf s) b) =? dev) && (b_blockno (getb (bc_buf s) b) =? n)) eqn:E.
      * apply andb_true_iff in E as [E1 E2]. assert (cached (bc_buf s) b n) as C by (split_and!; [done|lia|lia]).
        unfold updb. do 2 kstep. cbn [fst snd].
        pose proof (release_take b (set_refcnt (b_refcnt (getb (bc_buf s) b) + 1)) Hbn (cached_free b C)) as Hrt.
        apply wp_bind. apply wp_bind_inv in Hrt. eapply wp_mono; [|exact Hrt]. intros u st H. apply wp_bind.
        eapply wp_mono; [|exact H]. intros u' st' ->. kstep. split; [done|left]. split; [done|]. cbn [snd].
        unfold upd_buf. f_equal. by apply alter_getb.
      * kstep. exists g. cbn [length]. split; [|lia].
        assert (hd_error (g ++ [HEAD]) = Some (nx (bc_buf s) b)) as Hnext.
        { rewrite Eo in Hring. by apply ring_neighbours in Hring as [_ ?]. }
        split_and!; [done|done|]. exists (pre ++ [b]). rewrite Eo, <- app_assoc. split; [done|].
        intros j Hj. apply elem_of_app in Hj as [Hj|Hj]; [by apply Hpre|]. apply list_elem_of_singleton in Hj as ->.
        intros (_ & E1 & E2). rewrite E1, E2, !Z.eqb_refl in E. done.
  - intros. lia.
  - split_and!; [done|by apply ring_next_head in Hring as [? _]|]. exists []. split; [done|].
    intros j Hj. by apply elem_of_nil in Hj.
  - rewrite Hperm, length_seq. by vm_compute.
Qed.

(** The search for the least recently used unused buffer. *)
Definition recycle_body (b : nat) : K bst (nat + nat) :=
  if (b =? HEAD)%nat then panic "bget: no buffers" else
  x <- readb b;;
  if b_refcnt x =? 0 then
    updb b (set_id dev n);;
    updb b (set_valid 0);;
    updb b (set_refcnt 1);;
    release bH bL;;
    zoom (bSL b) (acquiresleep (buf_chan b));;
    ret (inr b)
  else ret (inl (b_prev x)).

Lemma recycle_ok order : lru (bc_buf s) order -> (forall j, ~ cached (bc_buf s) j n) ->
  wp (while_ budget recycle_body (pv (bc_buf s) HEAD) (pushc c, lockc c s)) got.
Proof.
  intros Hl Hnone. pose proof (fun i => lru_elem _ _ i Hl) as Hin. pose proof Hl as [Hperm Hring].
  assert (n ∉ in_use a) as Hnu.
  { unfold in_use. rewrite elem_of_union, elem_of_dom, Hh. intros [[]|Hp]; [done|].
    destruct (r_pin _ _ _ _ Hrep n Hp) as [j Hj]. by apply (Hnone j). }
  apply wp_while_ghost with (g := order) (m := fun g => Z.of_nat (length g))
    (I := fun g b st => st = (pushc c, lockc c s) /\ last (HEAD :: g) = Some b /\
            exists post, order = g ++ post /\ forall j, j ∈ post -> b_refcnt (getb (bc_buf s) j) <> 0).
  - intros g b st (-> & Hb & post & Eo & Hpost). unfold recycle_body. induction g as [|b' g _] using rev_ind.
    + exfalso. pose proof (all_in_use _ _ _ Hrep) as Hall. destruct Hroom as [Hr|Hr]; [done|].
      unfold nbuf in Hall. cbn [app] in Eo. rewrite <- Eo in Hpost.
      specialize (Hall ltac:(intros i Hi; apply Hpost; by apply Hin)). lia.
    + rewrite app_comm_cons, last_snoc in Hb. injection Hb as ->.
      assert (b < nbuf)%nat as Hbn.
      { apply Hin. rewrite Eo. apply elem_of_app. left. apply elem_of_app. right. constructor. }
      destruct (Nat.eqb_spec b HEAD) as [->|_]; [unfold HEAD in *; lia|]. unfold readb. do 2 kstep. cbn [fst snd lockc bc_buf].
      destruct (Z.eqb_spec (b_refcnt (getb (bc_buf s) b)) 0) as [E|E].
      * unfold updb. do 6 kstep. cbn [fst snd]. rewrite !upd_buf_twice.
        pose proof (release_take b (fun x => set_refcnt 1 (set_valid 0 (set_id dev n x))) Hbn (unused_free b Hbn E)) as Hrt.
        apply wp_bind. apply wp_bind_inv in Hrt. eapply wp_mono; [|exact Hrt]. intros u st H. apply wp_bind.
        eapply wp_mono; [|exact H]. intros u' st' ->. kstep. split; [done|right]. by split_and!.
      * kstep. exists g. rewrite length_app. simpl length. split; [|lia].
        rewrite <- app_assoc in Eo. cbn [app] in Eo.
        assert (last (HEAD :: g) = Some (pv (bc_buf s) b)) as Hprev.
        { rewrite Eo in Hring. by apply ring_neighbours in Hring as [? _]. }
        split_and!; [done|done|]. exists (b :: post). split; [done|].
        intros j Hj. apply elem_of_cons in Hj as [->|Hj]; [done|by apply Hpost].
  - intros. lia.
  - split_and!; [done|by apply (ring_prev_head (nx (bc_buf s)))|]. exists []. rewrite app_nil_r. split; [done|].
    intros j Hj. by apply elem_of_nil in Hj.
  - rewrite Hperm, length_seq. by vm_compute.
Qed.

Lemma bget_ok : wp (bget dev n (c, s)) got.
Proof.
  destruct (r_lru _ _ _ _ Hrep) as [order Hl]. unfold bget. kstep. rewrite bacquire_run by apply Hrep. cbn [wp].
  unfold readb at 1. do 3 kstep. cbn [fst snd lockc bc_buf].
  eapply wp_mono; [|by eapply search_ok]. intros [b|] st H; [by kstep|]. destruct H as [-> Hnone].
  unfold readb at 1. do 2 kstep. by eapply recycle_ok.
Qed.
End bget.

Lemma bread_ok c s a n : cx_ok c -> brep (cx_pid c) s a -> is_u32 n -> held a !! n = None -> room n a ->
  wp (bread dev n (c, s)) (fun b '(c', s') => cx_step c c' /\ brep (cx_pid c) s' (a_hold n b a)).
Proof.
  intros Hc Hrep Hn Hh Hroom. unfold bread. kstep. eapply wp_mono; [|by apply (bget_ok c s a n)].
  intros b [c' s'] [Ec [[C Es]|(Hb & Hnone & Hr & Es)]]; simpl in Ec, Es; subst.
  - destruct (take_cached _ _ _ _ _ Hrep C Hh) as [Hrep' Hv]. unfold readb. do 2 kstep. cbn [snd].
    assert (b_valid (getb (bc_buf (upd_buf b (take_ref (cx_pid c)) s)) b) = 1) as ->.
    { unfold upd_buf. simpl. rewrite getb_alter by (rewrite (r_len _ _ _ _ Hrep); destruct C; lia). by rewrite decide_True. }
    cbn [Z.eqb]. do 3 kstep. split; [apply touchc_step|done].
  - unfold virtio_disk_rw, updb, readb. do 2 kstep. cbn [snd].
    assert (getb (bc_buf (upd_buf b (take_new (cx_pid c) n) s)) b = take_new (cx_pid c) n (getb (bc_buf s) b)) as Eg.
    { unfold upd_buf. simpl. rewrite getb_alter by (rewrite (r_len _ _ _ _ Hrep); lia). by rewrite decide_True. }
    rewrite Eg. cbn [take_new set_lock set_refcnt set_valid set_id b_valid Z.eqb]. ksteps. cbn [fst snd].
    rewrite Eg. split; [apply touchc_step|]. rewrite !upd_buf_twice. by apply take_unused.
Qed.

(** ** binit *)

(** bcache is in the zeroed data section when the machine starts. *)
Definition power_on (d : Z -> list Z) : bcache :=
  mkBC (mkLock 0 None "") (replicate (S nbuf) nobuf) (mkDisk d []).

(** A buffer no block was read into yet. *)
Definition idle (b : buf) : Prop :=
  b_dev b = 0 /\ b_refcnt b = 0 /\ sl_locked (b_lock b) = 0 /\ free_lock (sl_lk (b_lock b)).

Lemma idle_alter l i f j : (forall b, idle b -> idle (f b)) -> (forall k, idle (getb l k)) -> idle (getb (alter f i l) j).
Proof.
  intros Hf Hl. specialize (Hl j). unfold getb in *. destruct (decide (j = i)) as [->|]; [|by rewrite list_lookup_alter_ne].
  rewrite list_lookup_alter_eq. destruct (l !! i); simpl in *; [auto|done].
Qed.

Lemma ring_nil nx pv h : ring nx pv h [] <-> nx h = h /\ pv h = h.
Proof. unfold ring. simpl. tauto. Qed.

(** One round of the loop: buffer [b] is linked in behind the head. *)
Definition link_front (b : nat) (l : list buf) : list buf :=
  alter (set_next b) HEAD
    (alter (set_prev b) (nx l HEAD)
      (alter (set_lock (initsleeplock "buffer")) b
        (alter (set_prev HEAD) b (alter (set_next (nx l HEAD)) b l)))).

Lemma nx_alter_lock l k v z : nx (alter (set_lock v) k l) z = nx l z.
Proof.
  unfold nx, getb. destruct (decide (z = k)) as [->|]; [|by rewrite list_lookup_alter_ne].
  rewrite list_lookup_alter_eq. by destruct (l !! k).
Qed.
Lemma pv_alter_lock l k v z : pv (alter (set_lock v) k l) z = pv l z.
Proof.
  unfold pv, getb. destruct (decide (z = k)) as [->|]; [|by rewrite list_lookup_alter_ne].
  rewrite list_lookup_alter_eq. by destruct (l !! k).
Qed.

Lemma link_front_ring l b c : length l = S nbuf -> (b < nbuf)%nat -> (forall j, j ∈ c -> (j < nbuf)%nat) ->
  NoDup (b :: c) -> ring (nx l) (pv l) HEAD c -> ring (nx (link_front b l)) (pv (link_front b l)) HEAD (b :: c).
Proof.
  intros Hlen Hb Hc Hnd Hr. destruct (ring_next_head _ _ _ _ Hr) as [Hh _]. apply hd_in in Hh.
  assert (nx l HEAD <= nbuf)%nat as Hh'.
  { apply elem_of_cons in Hh as [->|Hh]; [done|]. apply Hc in Hh. lia. }
  assert (HEAD <> b) as Hhb by (unfold HEAD; lia).
  eapply ring_insert; [|done|..].
  - apply NoDup_cons. split; [|done]. rewrite not_elem_of_cons. split; [done|]. intros H. apply Hc in H. unfold HEAD in H. lia.
  - intros z. unfold link_front. rewrite nx_alter_next by (rewrite !length_alter; unfold HEAD; lia).
    case_decide; [done|]. rewrite nx_alter_prev, nx_alter_lock, nx_alter_prev, nx_alter_next by lia. done.
  - intros z. unfold link_front. rewrite pv_alter_next, pv_alter_prev by (rewrite !length_alter; lia).
    case_decide; [done|]. rewrite pv_alter_lock, pv_alter_prev, pv_alter_next by (rewrite length_alter; lia). done.
Qed.

Lemma link_front_idle l b j : (forall k, idle (getb l k)) -> idle (getb (link_front b l) j).
Proof.
  intros H. unfold link_front. repeat (apply idle_alter; [by intros x (?&?&?&?)|intros ?]). apply H.
Qed.

Lemma binit_ok c d : cx_ok c -> (forall n, block_ok (d n)) ->
  wp (binit (c, power_on d)) (fun _ '(c', s') => cx_step c c' /\ brep (cx_pid c) s' (AC d d [] ∅ ∅)).
Proof.
  intros Hc Hd. unfold binit, updb, readb. ksteps. cbn [fst snd]. set (s0 := upd_buf HEAD _ _).
  eapply wp_mono; [|apply (wp_for_each (S := ctx * bcache) (R := unit) (seq 0 nbuf) _
    (fun rest st => exists k l, (k <= nbuf)%nat /\ rest = seq k (nbuf - k) /\
       st = (c, mkBC (initlock "bcache") l (mkDisk d [])) /\ length l = S nbuf /\
       ring (nx l) (pv l) HEAD (reverse (seq 0 k)) /\ forall j, idle (getb l j))
    (fun _ st => exists l, st = (c, mkBC (initlock "bcache") l (mkDisk d [])) /\ length l = S nbuf /\
       ring (nx l) (pv l) HEAD (reverse (seq 0 nbuf)) /\ forall j, idle (getb l j)))].
  - intros r st (l & -> & Hlen & Hr & Hidle). kstep. split; [done|].
    assert (forall i n, ~ cached l i n) as Hnone.
    { intros i n (_ & E & _). destruct (Hidle i) as [E' _]. destruct Hdev. by rewrite <- E, E'. }
    split; cbn [bc_lock bc_buf bc_disk logical on_disk writes held pinned]; try done.
    + exists (reverse (seq 0 nbuf)). split; [|done]. apply reverse_Permutation.
    + intros i j n Hi. by destruct (Hnone i n).
    + intros i Hi. destruct (Hidle i) as (H1 & H2 & H3 & H4). split; [done|by right].
  - intros b done rest st Hseq (k & l & Hk & Erest & -> & Hlen & Hr & Hidle).
    assert (k < nbuf)%nat as Hkn by (destruct (nbuf - k)%nat eqn:E; [discriminate|lia]).
    replace (nbuf - k)%nat with (S (nbuf - S k)) in Erest by lia. cbn [seq] in Erest. injection Erest as -> ->.
    ksteps. cbn [fst snd bc_lock bc_buf bc_disk]. exists (S k), (link_front k l). split_and!; [lia|done|done| | |].
    + unfold link_front. by rewrite !length_alter.
    + rewrite seq_S, reverse_snoc. apply link_front_ring; [done|done| | |done].
      * intros j Hj. rewrite elem_of_reverse, elem_of_seq in Hj. lia.
      * apply NoDup_cons. split; [|rewrite reverse_Permutation; apply NoDup_seq].
        intros Hj. rewrite elem_of_reverse, elem_of_seq in Hj. lia.
    + intros j. by apply link_front_idle.
  - intros st (k & l & Hk & E & -> & Hlen & Hr & Hidle). assert (k = nbuf) as ->.
    { destruct (nbuf - k)%nat eqn:En; [lia|discriminate]. }
    by exists l.
  - exists O, (bc_buf s0). split_and!; [lia|by rewrite Nat.sub_0_r|done|by vm_compute| |].
    + apply ring_nil. unfold s0. by vm_compute.
    + intros j. unfold s0, upd_buf. cbn [bc_buf power_on over bL snd fst].
      do 2 (apply idle_alter; [by intros x (?&?&?&?)|intros ?]). unfold getb.
      destruct (replicate (S nbuf) nobuf !! _) eqn:E; [|by simpl]. apply lookup_replicate in E as [-> _]. by simpl.
Qed.
End laws.

(** bio.c implements the interface the log and the file system are written
    against. *)
Program Definition bio_cache (dev : Z) (Hdev : dev <> 0) : BlockCache bcache nat dev := {|
  Block.binit := binit;
  Block.bread := bread;
  Block.bwrite := bwrite;
  Block.brelse := brelse;
  Block.bpin := bpin;
  Block.bunpin := bunpin;
  Block.bdata s b := b_data (getb (bc_buf s) b);
  Block.set_bdata b d s := upd_buf b (set_data d) s;
  Block.bblockno s b := b_blockno (getb (bc_buf s) b);
  Block.power_on := power_on;
  Block.rep := brep dev
|}.
Next Obligation. intros dev Hdev pid s a a' E. by apply brep_equiv. Qed.
Next Obligation. intros. by apply binit_ok. Qed.
Next Obligation. intros. by apply bread_ok. Qed.
Next Obligation. intros. by apply bwrite_ok. Qed.
Next Obligation. intros. by apply brelse_ok. Qed.
Next Obligation. intros. by apply bpin_ok. Qed.
Next Obligation. intros. by apply bunpin_ok. Qed.
Next Obligation.
  intros dev Hdev pid s a n b Hrep Hh. destruct (held_buf dev Hdev _ _ _ _ _ Hrep Hh) as (_ & _ & _ & Hn & _ & Hu & _).
  by rewrite (bu_data _ _ _ Hu), Hn.
Qed.
Next Obligation. intros. by apply set_data_ok. Qed.
Next Obligation. intros dev Hdev pid s a Hrep n. apply (r_blocks _ _ _ _ Hrep). Qed.
Next Obligation. intros dev Hdev pid s a n Hrep. apply (r_clean _ _ _ _ Hrep). Qed.
Next Obligation.
  intros dev Hdev pid s a n Hrep [b Hh]. destruct (held_buf dev Hdev _ _ _ _ _ Hrep Hh) as (_ & _ & _ & <- & _ & Hu & _).
  apply Hu.
Qed.
