(* ===== verification/Virtio.v ===== *)
(** * kernel/virtio_disk.c and kernel/virtio.h: the disk driver

    The driver and the device share memory: descriptors, the avail ring and the
    used ring (struct disk), the request headers, the status bytes and the data
    of the buffers.  An address handed to the device is modelled by the object it
    points to ([dma]).  [W] is the device: its registers ([Mmio]) and whatever it
    keeps to itself.  An access outside an array is an error of the model
    ([Panic]), so that a function shown to return makes none. *)
From S2P Require Import Prelude Machine Spinlock Block.
Local Open Scope Z_scope.
Local Open Scope kernel_scope.

(** ** virtio.h *)
Definition VIRTIO_MMIO_MAGIC_VALUE : Z := 0x000.
Definition VIRTIO_MMIO_VERSION : Z := 0x004.
Definition VIRTIO_MMIO_DEVICE_ID : Z := 0x008.
Definition VIRTIO_MMIO_VENDOR_ID : Z := 0x00c.
Definition VIRTIO_MMIO_DEVICE_FEATURES : Z := 0x010.
Definition VIRTIO_MMIO_DRIVER_FEATURES : Z := 0x020.
Definition VIRTIO_MMIO_GUEST_PAGE_SIZE : Z := 0x028.
Definition VIRTIO_MMIO_QUEUE_SEL : Z := 0x030.
Definition VIRTIO_MMIO_QUEUE_NUM_MAX : Z := 0x034.
Definition VIRTIO_MMIO_QUEUE_NUM : Z := 0x038.
Definition VIRTIO_MMIO_QUEUE_PFN : Z := 0x040.
Definition VIRTIO_MMIO_QUEUE_NOTIFY : Z := 0x050.
Definition VIRTIO_MMIO_INTERRUPT_STATUS : Z := 0x060.
Definition VIRTIO_MMIO_INTERRUPT_ACK : Z := 0x064.
Definition VIRTIO_MMIO_STATUS : Z := 0x070.

Definition VIRTIO_CONFIG_S_ACKNOWLEDGE : Z := 1.
Definition VIRTIO_CONFIG_S_DRIVER : Z := 2.
Definition VIRTIO_CONFIG_S_DRIVER_OK : Z := 4.
Definition VIRTIO_CONFIG_S_FEATURES_OK : Z := 8.

Definition VIRTIO_BLK_F_RO : Z := 5.
Definition VIRTIO_BLK_F_SCSI : Z := 7.
Definition VIRTIO_BLK_F_CONFIG_WCE : Z := 11.
Definition VIRTIO_BLK_F_MQ : Z := 12.
Definition VIRTIO_F_ANY_LAYOUT : Z := 27.
Definition VIRTIO_RING_F_INDIRECT_DESC : Z := 28.
Definition VIRTIO_RING_F_EVENT_IDX : Z := 29.

Definition NUM : Z := 8.

(** What an address in a descriptor points to. *)
Inductive dma :=
| DNull
| DOp (i : Z)       (* &disk.ops[i] *)
| DData (b : nat)   (* b->data *)
| DStatus (i : Z).  (* &disk.info[i].status *)

Record virtq_desc := mkDesc { d_addr : dma; d_len : Z; d_flags : Z; d_next : Z }.
Definition VRING_DESC_F_NEXT : Z := 1.
Definition VRING_DESC_F_WRITE : Z := 2.

Record virtq_avail := mkAvail { av_flags : Z; av_idx : Z; av_ring : list Z; av_unused : Z }.
Record virtq_used_elem := mkUsedElem { ue_id : Z; ue_len : Z }.
Record virtq_used := mkUsed { us_flags : Z; us_idx : Z; us_ring : list virtq_used_elem }.

Definition VIRTIO_BLK_T_IN : Z := 0.
Definition VIRTIO_BLK_T_OUT : Z := 1.
Record virtio_blk_req := mkReq { rq_type : Z; rq_reserved : Z; rq_sector : Z }.

(** ** struct disk *)
Record op_info := mkInfo { in_b : option nat; in_status : Z }.
Record vdisk := mkVDisk {
  vd_desc : list virtq_desc;
  vd_avail : virtq_avail;
  vd_used : virtq_used;
  vd_free : list Z;          (* is a descriptor free? *)
  vd_used_idx : Z;           (* we've looked this far in used[2..NUM]. *)
  vd_info : list op_info;    (* in-flight operations, by first descriptor of the chain *)
  vd_ops : list virtio_blk_req;
  vd_lock : spinlock
}.

(** The fields of struct buf that the driver uses. *)
Record dbuf := mkDbuf { db_disk : Z; db_blockno : Z; db_data : list Z }.

Record vst (W : Type) := mkVst { vs_ctx : ctx; vs_disk : vdisk; vs_bufs : list dbuf; vs_dev : W }.
Arguments mkVst {W} _ _ _ _.
Arguments vs_ctx {W} _.
Arguments vs_disk {W} _.
Arguments vs_bufs {W} _.
Arguments vs_dev {W} _.

Definition descL : lens vdisk (list virtq_desc) :=
  Lens vd_desc (fun l d => mkVDisk l (vd_avail d) (vd_used d) (vd_free d) (vd_used_idx d) (vd_info d) (vd_ops d) (vd_lock d)).
Definition availL : lens vdisk virtq_avail :=
  Lens vd_avail (fun a d => mkVDisk (vd_desc d) a (vd_used d) (vd_free d) (vd_used_idx d) (vd_info d) (vd_ops d) (vd_lock d)).
Definition usedL : lens vdisk virtq_used :=
  Lens vd_used (fun u d => mkVDisk (vd_desc d) (vd_avail d) u (vd_free d) (vd_used_idx d) (vd_info d) (vd_ops d) (vd_lock d)).
Definition freeL : lens vdisk (list Z) :=
  Lens vd_free (fun l d => mkVDisk (vd_desc d) (vd_avail d) (vd_used d) l (vd_used_idx d) (vd_info d) (vd_ops d) (vd_lock d)).
Definition used_idxL : lens vdisk Z :=
  Lens vd_used_idx (fun i d => mkVDisk (vd_desc d) (vd_avail d) (vd_used d) (vd_free d) i (vd_info d) (vd_ops d) (vd_lock d)).
Definition infoL : lens vdisk (list op_info) :=
  Lens vd_info (fun l d => mkVDisk (vd_desc d) (vd_avail d) (vd_used d) (vd_free d) (vd_used_idx d) l (vd_ops d) (vd_lock d)).
Definition opsL : lens vdisk (list virtio_blk_req) :=
  Lens vd_ops (fun l d => mkVDisk (vd_desc d) (vd_avail d) (vd_used d) (vd_free d) (vd_used_idx d) (vd_info d) l (vd_lock d)).
Definition vlockL : lens vdisk spinlock :=
  Lens vd_lock (fun l d => mkVDisk (vd_desc d) (vd_avail d) (vd_used d) (vd_free d) (vd_used_idx d) (vd_info d) (vd_ops d) l).
Definition ringL : lens vdisk (list Z) :=
  Lens (fun d => av_ring (vd_avail d))
       (fun l d => over availL (mkAvail (av_flags (vd_avail d)) (av_idx (vd_avail d)) l (av_unused (vd_avail d))) d).
Definition avail_idxL : lens vdisk Z :=
  Lens (fun d => av_idx (vd_avail d))
       (fun i d => over availL (mkAvail (av_flags (vd_avail d)) i (av_ring (vd_avail d)) (av_unused (vd_avail d))) d).

Section code.
Context {W : Type} `{MM : !Mmio W}.
Notation st := (vst W).

Definition vH : lens st hart :=
  Lens (fun s => cx_hart (vs_ctx s))
       (fun h s => mkVst (Ctx h (cx_pid (vs_ctx s)) (cx_wakes (vs_ctx s))) (vs_disk s) (vs_bufs s) (vs_dev s)).
Definition vL : lens st spinlock :=
  Lens (fun s => vd_lock (vs_disk s)) (fun l s => mkVst (vs_ctx s) (over vlockL l (vs_disk s)) (vs_bufs s) (vs_dev s)).

Definition upd_disk (f : vdisk -> vdisk) (s : st) : st := mkVst (vs_ctx s) (f (vs_disk s)) (vs_bufs s) (vs_dev s).
Definition fld {A} (L : lens vdisk A) : K st A := gets (fun s => view L (vs_disk s)).
Definition set_fld {A} (L : lens vdisk A) (a : A) : K st unit := modify (upd_disk (over L a)).

(** [l[i]] and [l[i] = a]. *)
Definition elt {A} (L : lens vdisk (list A)) (i : Z) : K st A := fun s =>
  if i <? 0 then Panic "out of bounds" else
  match view L (vs_disk s) !! Z.to_nat i with
  | Some a => Done a s
  | None => Panic "out of bounds"
  end.
Definition set_elt {A} (L : lens vdisk (list A)) (i : Z) (a : A) : K st unit :=
  _ <- elt L i;;
  modify (upd_disk (fun d => over L (<[Z.to_nat i := a]> (view L d)) d)).

Definition bufp (b : nat) : K st dbuf := fun s =>
  match vs_bufs s !! b with Some x => Done x s | None => Panic "out of bounds" end.
Definition set_disk (b : nat) (v : Z) : K st unit :=
  _ <- bufp b;;
  modify (fun s => mkVst (vs_ctx s) (vs_disk s)
                         (alter (fun x => mkDbuf v (db_blockno x) (db_data x)) b (vs_bufs s)) (vs_dev s)).

Definition wakeup (c : chan) : K st unit :=
  modify (fun s => mkVst (Ctx (cx_hart (vs_ctx s)) (cx_pid (vs_ctx s)) (c :: cx_wakes (vs_ctx s)))
                         (vs_disk s) (vs_bufs s) (vs_dev s)).

(** [*R(r)] *)
Definition reg (r : Z) : K st Z := fun s =>
  let (v, w) := rd32 (VIRTIO0 + r) (vs_dev s) in Done v (mkVst (vs_ctx s) (vs_disk s) (vs_bufs s) w).
Definition set_reg (r v : Z) : K st unit :=
  modify (fun s => mkVst (vs_ctx s) (vs_disk s) (vs_bufs s) (wr32 (VIRTIO0 + r) (u32 v) (vs_dev s))).

(** [pages] is the address of disk.pages. *)
Definition virtio_disk_init (pages : Z) : K st unit :=
  set_fld vlockL (initlock "virtio_disk");;
  magic <- reg VIRTIO_MMIO_MAGIC_VALUE;;
  let fail := panic "could not find virtio disk" in
  if negb (magic =? 0x74726976) then fail else
  version <- reg VIRTIO_MMIO_VERSION;;
  if negb (version =? 1) then fail else
  id <- reg VIRTIO_MMIO_DEVICE_ID;;
  if negb (id =? 2) then fail else
  vendor <- reg VIRTIO_MMIO_VENDOR_ID;;
  if negb (vendor =? 0x554d4551) then fail else
  let status := VIRTIO_CONFIG_S_ACKNOWLEDGE in
  set_reg VIRTIO_MMIO_STATUS status;;
  let status := Z.lor status VIRTIO_CONFIG_S_DRIVER in
  set_reg VIRTIO_MMIO_STATUS status;;
  (* negotiate features *)
  features <- reg VIRTIO_MMIO_DEVICE_FEATURES;;
  let features := foldl (fun f bit => Z.land f (Z.lnot (Z.shiftl 1 bit))) features
    [VIRTIO_BLK_F_RO; VIRTIO_BLK_F_SCSI; VIRTIO_BLK_F_CONFIG_WCE; VIRTIO_BLK_F_MQ;
     VIRTIO_F_ANY_LAYOUT; VIRTIO_RING_F_EVENT_IDX; VIRTIO_RING_F_INDIRECT_DESC] in
  set_reg VIRTIO_MMIO_DRIVER_FEATURES features;;
  (* tell device that feature negotiation is complete. *)
  let status := Z.lor status VIRTIO_CONFIG_S_FEATURES_OK in
  set_reg VIRTIO_MMIO_STATUS status;;
  (* tell device we're completely ready. *)
  let status := Z.lor status VIRTIO_CONFIG_S_DRIVER_OK in
  set_reg VIRTIO_MMIO_STATUS status;;
  set_reg VIRTIO_MMIO_GUEST_PAGE_SIZE PGSIZE;;
  (* initialize queue 0. *)
  set_reg VIRTIO_MMIO_QUEUE_SEL 0;;
  max <- reg VIRTIO_MMIO_QUEUE_NUM_MAX;;
  if max =? 0 then panic "virtio disk has no queue 0" else
  if max <? NUM then panic "virtio disk max queue too short" else
  set_reg VIRTIO_MMIO_QUEUE_NUM NUM;;
  (* memset(disk.pages, 0, sizeof(disk.pages)) *)
  let num := Z.to_nat NUM in
  set_fld descL (replicate num (mkDesc DNull 0 0 0));;
  set_fld availL (mkAvail 0 0 (replicate num 0) 0);;
  set_fld usedL (mkUsed 0 0 (replicate num (mkUsedElem 0 0)));;
  set_reg VIRTIO_MMIO_QUEUE_PFN (Z.shiftr pages PGSHIFT);;
  (* all NUM descriptors start out unused. *)
  _ <- for_each (seqZ 0 NUM) (fun i => set_elt freeL i 1;; ret (@None unit));;
  ret tt.

(** Find a free descriptor, mark it non-free, return its index. *)
Definition alloc_desc : K st Z :=
  r <- for_each (seqZ 0 NUM) (fun i =>
    f <- elt freeL i;;
    if negb (f =? 0) then set_elt freeL i 0;; ret (Some i) else ret None);;
  ret (default (-1) r).

(** Mark a descriptor as free. *)
Definition free_desc (i : Z) : K st unit :=
  if NUM <=? i then panic "free_desc 1" else
  f <- elt freeL i;;
  if negb (f =? 0) then panic "free_desc 2" else
  set_elt descL i (mkDesc DNull 0 0 0);;
  set_elt freeL i 1;;
  wakeup ChanDesc.

(** Free a chain of descriptors. *)
Definition free_chain (i : Z) : K st unit :=
  while_ budget (fun i =>
    d <- elt descL i;;
    let flag := d_flags d in
    let nxt := d_next d in
    free_desc i;;
    if negb (Z.land flag VRING_DESC_F_NEXT =? 0) then ret (inl nxt) else ret (inr tt)) i.

(** [alloc_descs k idx]: the rounds of the loop of [alloc3_desc] with [k] to go,
    [idx] being the descriptors it has. *)
Fixpoint alloc_descs (k : nat) (idx : list Z) : K st (option (list Z)) :=
  match k with
  | O => ret (Some idx)
  | S k =>
      d <- alloc_desc;;
      if d <? 0 then
        _ <- for_each idx (fun j => free_desc j;; ret (@None unit));;
        ret None
      else alloc_descs k (idx ++ [d])
  end.
Definition alloc3_desc : K st (option (list Z)) := alloc_descs 3 [].

(** Format the three descriptors and tell the device. *)
Definition submit (b : nat) (write : bool) (sector : Z) (idx : Z * Z * Z) : K st unit :=
  let '(idx0, idx1, idx2) := idx in
  set_elt opsL idx0 (mkReq (if write then VIRTIO_BLK_T_OUT else VIRTIO_BLK_T_IN) 0 sector);;
  set_elt descL idx0 (mkDesc (DOp idx0) 16 VRING_DESC_F_NEXT (u16 idx1));;
  set_elt descL idx1 (mkDesc (DData b) BSIZE
    (Z.lor (if write then 0 else VRING_DESC_F_WRITE) VRING_DESC_F_NEXT) (u16 idx2));;
  info <- elt infoL idx0;;
  set_elt infoL idx0 (mkInfo (in_b info) 0xff);; (* device writes 0 on success *)
  set_elt descL idx2 (mkDesc (DStatus idx0) 1 VRING_DESC_F_WRITE 0);;
  (* record struct buf for virtio_disk_intr(). *)
  set_disk b 1;;
  info <- elt infoL idx0;;
  set_elt infoL idx0 (mkInfo (Some b) (in_status info));;
  (* tell the device the first index in our chain of descriptors. *)
  i <- fld avail_idxL;;
  set_elt ringL (i mod NUM) (u16 idx0);;
  (* tell the device another avail ring entry is available. *)
  i <- fld avail_idxL;;
  set_fld avail_idxL (u16 (i + 1));;
  set_reg VIRTIO_MMIO_QUEUE_NOTIFY 0.

(** The next attempt to allocate would succeed. *)
Definition can_alloc3 (s : st) : bool :=
  match alloc3_desc s with Done (Some _) _ => true | _ => false end.

(** The loop around [alloc3_desc]: the process sleeps until an attempt can
    succeed.  ([retry] is what it does when it is woken and an attempt fails.) *)
Definition alloc3_wait : K st (Z * Z * Z) :=
  while_ budget (fun _ =>
    r <- alloc3_desc;;
    match r with
    | Some [i0; i1; i2] => ret (inr (i0, i1, i2))
    | _ => sleep_until vH vL ChanDesc can_alloc3;; ret (inl tt)
    end) tt.

(** What a process does that was asleep on [ch] in virtio_disk_rw, and is woken
    before it can go on: it returns from sleep(), finds its condition false, which
    for the descriptors is an attempt that gives back what it took, and sleeps
    again. *)
Definition retry (ch : option chan) : K st unit :=
  acquire vH vL;;
  (match ch with
   | Some ChanDesc => _ <- alloc3_desc;; ret tt
   | _ => ret tt (* b->disk == 1 *)
   end);;
  release vH vL.

Definition virtio_disk_rw (b : nat) (write : bool) : K st unit :=
  x <- bufp b;;
  let sector := u32 (db_blockno x * (BSIZE / 512)) in
  acquire vH vL;;
  idx <- alloc3_wait;;
  submit b write sector idx;;
  (* Wait for virtio_disk_intr() to say request has finished. *)
  sleep_until vH vL (ChanBuf (Z.of_nat b)) (fun s =>
    match vs_bufs s !! b with Some x => negb (db_disk x =? 1) | None => true end);;
  let idx0 := idx.1.1 in
  info <- elt infoL idx0;;
  set_elt infoL idx0 (mkInfo None (in_status info));;
  free_chain idx0;;
  release vH vL.

Definition virtio_disk_intr : K st unit :=
  acquire vH vL;;
  v <- reg VIRTIO_MMIO_INTERRUPT_STATUS;;
  set_reg VIRTIO_MMIO_INTERRUPT_ACK (Z.land v 0x3);;
  (* the device increments disk.used->idx when it adds an entry to the used ring. *)
  while_ budget (fun _ =>
    i <- fld used_idxL;;
    u <- fld usedL;;
    if i =? us_idx u then ret (inr tt) else
    e <- (fun s => match us_ring u !! Z.to_nat (i mod NUM) with Some e => Done e s | None => Panic "out of bounds" end);;
    let id := s32 (ue_id e) in
    info <- elt infoL id;;
    if negb (in_status info =? 0) then panic "virtio_disk_intr status" else
    match in_b info with
    | None => panic "kerneltrap"
    | Some b =>
        set_disk b 0;; (* disk is done with buf *)
        wakeup (ChanBuf (Z.of_nat b));;
        i <- fld used_idxL;;
        set_fld used_idxL (u16 (i + 1));;
        ret (inl tt)
    end) tt;;
  release vH vL.
End code.
