(* ===== verification/VirtioInv.v ===== *)
(** * The disk driver and the disk: what the device does, and the invariant

    [VirtioDev] and [dev_act] say what kernel/virtio_disk.c relies on of the
    device: it takes the chains of the avail ring in order, completes them in any
    order, each by moving one block between the disk and a buffer, writing 0 to
    the status byte and adding the head to the used ring; or it reports an error
    there, with any other status.  [vinv] is the invariant of the memory the
    driver and the device share; the device's actions and the handling of a
    completed request preserve it. *)
From S2P Require Import Prelude Machine Spinlock Block Virtio.
Local Open Scope Z_scope.
Local Open Scope kernel_scope.

(** ** The device *)
Record same_dev_at {W} (blocks : W -> Z -> list Z) (last : W -> Z) (pend : W -> list Z) (w w' : W) : Prop := {
  sd_blocks : blocks w' = blocks w;
  sd_last : last w' = last w;
  sd_pend : pend w' = pend w
}.

(** What the device keeps to itself: the contents of the disk, how far it has
    read the avail ring, and the heads of the chains it works on.  The accesses
    to its registers after initialization (the notification, and reading and
    acknowledging the interrupt status) do not change them. *)
Class VirtioDev (W : Type) `{MM : !Mmio W} := {
  blocks : W -> Z -> list Z;
  last_avail : W -> Z;
  pending : W -> list Z;
  dev_notify : forall v w, same_dev_at blocks last_avail pending w (wr32 (VIRTIO0 + VIRTIO_MMIO_QUEUE_NOTIFY) v w);
  dev_status : forall w, same_dev_at blocks last_avail pending w (rd32 (VIRTIO0 + VIRTIO_MMIO_INTERRUPT_STATUS) w).2;
  dev_ack : forall v w, same_dev_at blocks last_avail pending w (wr32 (VIRTIO0 + VIRTIO_MMIO_INTERRUPT_ACK) v w)
}.

Definition has_flag (d : virtq_desc) (f : Z) : bool := negb (Z.land (d_flags d) f =? 0).

Section spec.
Context {W : Type} `{MM : !Mmio W} `{VD : !VirtioDev W}.
Notation st := (vst W).

Definition set_dev (w : W) (s : st) : st := mkVst (vs_ctx s) (vs_disk s) (vs_bufs s) w.
Definition set_bufs (l : list dbuf) (s : st) : st := mkVst (vs_ctx s) (vs_disk s) l (vs_dev s).
Definition set_ctx (c : ctx) (s : st) : st := mkVst c (vs_disk s) (vs_bufs s) (vs_dev s).
Definition set_data (data : list Z) (x : dbuf) : dbuf := mkDbuf (db_disk x) (db_blockno x) data.

Notation "l .[ i ]" := (l !! Z.to_nat i) (at level 1, format "l .[ i ]").

(** The chain of three descriptors from [h]: the request, the buffer, whether the
    device may write it, and the owner of the status byte. *)
Definition chain_at (d : vdisk) (h : Z) : option (virtio_blk_req * nat * bool * Z) :=
  d0 ← (vd_desc d).[h]; d1 ← (vd_desc d).[d_next d0]; d2 ← (vd_desc d).[d_next d1];
  match d_addr d0, d_addr d1, d_addr d2 with
  | DOp i, DData b, DStatus j =>
      r ← (vd_ops d).[i];
      if has_flag d0 VRING_DESC_F_NEXT && has_flag d1 VRING_DESC_F_NEXT && negb (has_flag d2 VRING_DESC_F_NEXT)
         && has_flag d2 VRING_DESC_F_WRITE
      then Some (r, b, has_flag d1 VRING_DESC_F_WRITE, j) else None
  | _, _, _ => None
  end.

(** The status byte and the entry of the used ring. *)
Definition finish_chain (h j v len : Z) (d : vdisk) : vdisk :=
  let u := vd_used d in
  over usedL (mkUsed (us_flags u) (u16 (us_idx u + 1))
    (<[Z.to_nat (us_idx u mod NUM) := mkUsedElem h len]> (us_ring u)))
  (over infoL (alter (fun i => mkInfo (in_b i) v) (Z.to_nat j) (vd_info d)) d).

(** The actions of the device (virtio 1.1, sections 2.6 and 5.2); a block is two
    sectors. *)
Inductive dev_work (s : st) : st -> Prop :=
| dev_take h w : last_avail (vs_dev s) <> av_idx (vd_avail (vs_disk s)) ->
    (av_ring (vd_avail (vs_disk s))).[last_avail (vs_dev s) mod NUM] = Some h ->
    blocks w = blocks (vs_dev s) -> last_avail w = u16 (last_avail (vs_dev s) + 1) ->
    pending w = pending (vs_dev s) ++ [h] -> dev_work s (set_dev w s)
| dev_read P1 h P2 r b j x len w : pending (vs_dev s) = P1 ++ h :: P2 ->
    chain_at (vs_disk s) h = Some (r, b, true, j) -> rq_type r = VIRTIO_BLK_T_IN -> vs_bufs s !! b = Some x ->
    blocks w = blocks (vs_dev s) -> last_avail w = last_avail (vs_dev s) -> pending w = P1 ++ P2 ->
    dev_work s (mkVst (vs_ctx s) (finish_chain h j 0 len (vs_disk s))
                     (<[b := set_data (blocks (vs_dev s) (rq_sector r / 2)) x]> (vs_bufs s)) w)
| dev_write P1 h P2 r b j x len w : pending (vs_dev s) = P1 ++ h :: P2 ->
    chain_at (vs_disk s) h = Some (r, b, false, j) -> rq_type r = VIRTIO_BLK_T_OUT -> vs_bufs s !! b = Some x ->
    blocks w = <[rq_sector r / 2 := db_data x]> (blocks (vs_dev s)) ->
    last_avail w = last_avail (vs_dev s) -> pending w = P1 ++ P2 ->
    dev_work s (mkVst (vs_ctx s) (finish_chain h j 0 len (vs_disk s)) (vs_bufs s) w).

(** The device gives up on a chain: the status byte says so.  The block may have
    been written in part, or the buffer, if the device may write it. *)
Inductive dev_fail (s : st) : st -> Prop :=
| dev_error P1 h P2 r b wr j x D v len w : pending (vs_dev s) = P1 ++ h :: P2 ->
    chain_at (vs_disk s) h = Some (r, b, wr, j) -> vs_bufs s !! b = Some x -> 0 < v < 256 ->
    (wr = false -> D = db_data x) -> (forall k, k <> rq_sector r / 2 \/ wr = true -> blocks w k = blocks (vs_dev s) k) ->
    last_avail w = last_avail (vs_dev s) -> pending w = P1 ++ P2 ->
    dev_fail s (mkVst (vs_ctx s) (finish_chain h j v len (vs_disk s)) (<[b := set_data D x]> (vs_bufs s)) w).

Inductive dev_act (s : st) : st -> Prop :=
| dev_idle w : same_dev_at blocks last_avail pending (vs_dev s) w -> dev_act s (set_dev w s)
| dev_works s' : dev_work s s' -> dev_act s s'
| dev_fails s' : dev_fail s s' -> dev_act s s'.

(** There is something for the device to do. *)
Inductive has_work (s : st) : Prop :=
| hw_take h : last_avail (vs_dev s) <> av_idx (vd_avail (vs_disk s)) ->
    (av_ring (vd_avail (vs_disk s))).[last_avail (vs_dev s) mod NUM] = Some h -> has_work s
| hw_chain P1 h P2 r b wr j x : pending (vs_dev s) = P1 ++ h :: P2 -> chain_at (vs_disk s) h = Some (r, b, wr, j) ->
    rq_type r = (if wr : bool then VIRTIO_BLK_T_IN else VIRTIO_BLK_T_OUT) -> vs_bufs s !! b = Some x -> has_work s.

(** An entry of the used ring that the driver has not looked at yet; and one that
    reports an error. *)
Definition unseen (s : st) : Prop := us_idx (vd_used (vs_disk s)) <> vd_used_idx (vs_disk s).
Definition failed (s : st) : Prop := exists k h len i,
  0 <= k < u16 (us_idx (vd_used (vs_disk s)) - vd_used_idx (vs_disk s)) /\
  (us_ring (vd_used (vs_disk s))).[(vd_used_idx (vs_disk s) + k) mod NUM] = Some (mkUsedElem h len) /\
  (vd_info (vs_disk s)).[h] = Some i /\ in_status i <> 0.

(** ** The invariant *)

(** A request in flight: its buffer, its direction, and the second and third
    descriptor of its chain; the map [R] below gives the one with head [h]. *)
Record req := mkRq { r_b : nat; r_write : bool; r_1 : Z; r_2 : Z }.

Definition chain (h : Z) (q : req) : list Z := [h; r_1 q; r_2 q].
Definition owned (R : gmap Z req) (i : Z) : Prop := exists h q, R !! h = Some q /\ i ∈ chain h q.

(** The memory of the request, as [submit] left it; [x] is its buffer. *)
Record req_ok (s : st) (h : Z) (q : req) (x : dbuf) : Prop := {
  rk_buf : vs_bufs s !! r_b q = Some x;
  rk_block : 0 <= db_blockno x < 2 ^ 31;
  rk_0 : (vd_desc (vs_disk s)).[h] = Some (mkDesc (DOp h) 16 VRING_DESC_F_NEXT (r_1 q));
  rk_1 : (vd_desc (vs_disk s)).[r_1 q] = Some (mkDesc (DData (r_b q)) BSIZE
           (Z.lor (if r_write q then 0 else VRING_DESC_F_WRITE) VRING_DESC_F_NEXT) (r_2 q));
  rk_2 : (vd_desc (vs_disk s)).[r_2 q] = Some (mkDesc (DStatus h) 1 VRING_DESC_F_WRITE 0);
  rk_op : (vd_ops (vs_disk s)).[h] = Some
            (mkReq (if r_write q then VIRTIO_BLK_T_OUT else VIRTIO_BLK_T_IN) 0 (2 * db_blockno x));
  rk_info : exists v, (vd_info (vs_disk s)).[h] = Some (mkInfo (Some (r_b q)) v)
}.

(** [A], [P], [U]: the heads in the avail ring, with the device, and in the used
    ring.  A request in none of them is done: its process has been told.  [F]:
    the heads in the used ring with an error. *)
Record vinv (s : st) (R : gmap Z req) (A P U F : list Z) : Prop := {
  v_desc : length (vd_desc (vs_disk s)) = 8%nat;
  v_ring : length (av_ring (vd_avail (vs_disk s))) = 8%nat;
  v_uring : length (us_ring (vd_used (vs_disk s))) = 8%nat;
  v_frees : length (vd_free (vs_disk s)) = 8%nat;
  v_infos : length (vd_info (vs_disk s)) = 8%nat;
  v_ops : length (vd_ops (vs_disk s)) = 8%nat;
  v_range : forall h q i, R !! h = Some q -> i ∈ chain h q -> 0 <= i < NUM;
  v_nodup : forall h q, R !! h = Some q -> NoDup (chain h q);
  v_disj : forall h q h' q' i, R !! h = Some q -> R !! h' = Some q' -> i ∈ chain h q -> i ∈ chain h' q' -> h = h';
  v_taken : forall i, owned R i -> (vd_free (vs_disk s)).[i] = Some 0;
  v_free : forall i, 0 <= i < NUM -> ~ owned R i -> (vd_free (vs_disk s)).[i] = Some 1;
  v_req : forall h q, R !! h = Some q -> exists x, req_ok s h q x;
  v_block : forall h q h' q' x x', R !! h = Some q -> R !! h' = Some q' ->
    vs_bufs s !! r_b q = Some x -> vs_bufs s !! r_b q' = Some x' -> db_blockno x = db_blockno x' -> h = h';
  v_once : NoDup (A ++ P ++ U);
  v_known : forall h, h ∈ A ++ P ++ U -> is_Some (R !! h);
  v_flag : forall h q x, R !! h = Some q -> vs_bufs s !! r_b q = Some x ->
    db_disk x = if decide (h ∈ A ++ P ++ U) then 1 else 0;
  v_done : forall h q x, R !! h = Some q -> h ∉ A -> h ∉ P -> vs_bufs s !! r_b q = Some x ->
    exists v, (vd_info (vs_disk s)).[h] = Some (mkInfo (Some (r_b q)) v) /\ (v = 0 <-> h ∉ F) /\
      (h ∉ F -> db_data x = blocks (vs_dev s) (db_blockno x));
  v_err : forall h, h ∈ F -> h ∈ U;
  v_avail_idx : av_idx (vd_avail (vs_disk s)) = u16 (last_avail (vs_dev s) + Z.of_nat (length A));
  v_avail : forall k h, A !! k = Some h ->
    (av_ring (vd_avail (vs_disk s))).[(last_avail (vs_dev s) + Z.of_nat k) mod NUM] = Some h;
  v_used_idx : us_idx (vd_used (vs_disk s)) = u16 (vd_used_idx (vs_disk s) + Z.of_nat (length U));
  v_used : forall k h, U !! k = Some h -> exists len,
    (us_ring (vd_used (vs_disk s))).[(vd_used_idx (vs_disk s) + Z.of_nat k) mod NUM] = Some (mkUsedElem h len);
  v_pend : pending (vs_dev s) = P;
  v_last : 0 <= last_avail (vs_dev s) < 2 ^ 16;
  v_seen : 0 <= vd_used_idx (vs_disk s) < 2 ^ 16
}.

(** ** Arithmetic of the rings *)
Lemma u16_mod x : u16 x mod NUM = x mod NUM.
Proof. unfold u16, NUM. Z.div_mod_to_equations. lia. Qed.

Lemma ring_next x k : (u16 (x + 1) + k) mod NUM = (x + (1 + k)) mod NUM.
Proof.
  rewrite Z.add_mod, u16_mod by (unfold NUM; lia). rewrite <- Z.add_mod by (unfold NUM; lia). f_equal. lia.
Qed.

Lemma u16_next x k : u16 (u16 (x + 1) + k) = u16 (x + (1 + k)).
Proof. unfold u16. Z.div_mod_to_equations. lia. Qed.

Lemma u16_id x : 0 <= x < 2 ^ 16 -> u16 x = x.
Proof. intros. unfold u16. apply Z.mod_small. lia. Qed.

Lemma u16_range x : 0 <= u16 x < 2 ^ 16.
Proof. unfold u16. apply Z.mod_pos_bound. lia. Qed.

Lemma u16_moved x k : 0 <= x < 2 ^ 16 -> 0 <= k <= 8 -> u16 (x + k) = x -> k = 0.
Proof. intros Hx Hk. unfold u16. Z.div_mod_to_equations. lia. Qed.

Lemma ring_inj x i j : 0 <= i < 8 -> 0 <= j < 8 -> Z.to_nat ((x + i) mod NUM) = Z.to_nat ((x + j) mod NUM) -> i = j.
Proof. intros Hi Hj. unfold NUM. Z.div_mod_to_equations. lia. Qed.

(** At most eight different descriptors. *)
Lemma few (l : list Z) : NoDup l -> (forall i, i ∈ l -> 0 <= i < NUM) -> (length l <= 8)%nat.
Proof.
  intros Hnd Hr. change 8%nat with (length (seqZ 0 NUM)). apply submseteq_length, NoDup_submseteq; [done|].
  intros i Hi. apply elem_of_seqZ. apply Hr in Hi. unfold NUM in *. lia.
Qed.

Lemma NoDup_part {X} (a b c : list X) : NoDup (a ++ b ++ c) -> NoDup a /\ NoDup b /\ NoDup c.
Proof. intros (Ha & _ & Hbc)%NoDup_app. apply NoDup_app in Hbc as (Hb & _ & Hc). done. Qed.

Section preserved.
Context (s : st) (R : gmap Z req) (A P U F : list Z) (HI : vinv s R A P U F).

Lemma head_range h : is_Some (R !! h) -> 0 <= h < NUM.
Proof. intros [q Hq]. apply (v_range _ _ _ _ _ _ HI h q h Hq). constructor. Qed.

Lemma known_range h : h ∈ A ++ P ++ U -> 0 <= h < NUM.
Proof. intros H. by apply head_range, (v_known _ _ _ _ _ _ HI). Qed.

Lemma phases_few : (length A + (length P + length U) <= 8)%nat.
Proof.
  rewrite <- !length_app. apply few; [apply (v_once _ _ _ _ _ _ HI)|]. intros i. apply known_range.
Qed.

(** *** The device *)
Lemma idle_inv w : same_dev_at blocks last_avail pending (vs_dev s) w -> vinv (set_dev w s) R A P U F.
Proof.
  intros [Eb El Ep]. destruct HI. split; simpl; rewrite ?Eb, ?El, ?Ep; try done.
  intros h q Hq. destruct (v_req0 h q Hq) as [x [? ? ? ? ? ? ?]]. by exists x.
Qed.

Lemma take_inv h w : last_avail (vs_dev s) <> av_idx (vd_avail (vs_disk s)) ->
  (av_ring (vd_avail (vs_disk s))).[last_avail (vs_dev s) mod NUM] = Some h ->
  blocks w = blocks (vs_dev s) -> last_avail w = u16 (last_avail (vs_dev s) + 1) ->
  pending w = pending (vs_dev s) ++ [h] ->
  exists A', A = h :: A' /\ vinv (set_dev w s) R A' (P ++ [h]) U F.
Proof.
  intros Hne Hh Eb El Ep. pose proof (v_avail_idx _ _ _ _ _ _ HI) as Hidx. pose proof (v_last _ _ _ _ _ _ HI) as Hlast.
  destruct A as [|h0 A'] eqn:EA.
  { simpl in Hidx. rewrite Z.add_0_r, u16_id in Hidx by done. congruence. }
  pose proof (v_avail _ _ _ _ _ _ HI O h0 eq_refl) as H0. rewrite Z.add_0_r in H0. rewrite H0 in Hh. injection Hh as ->.
  exists A'. split; [done|].
  assert (forall i, i ∈ A' ++ (P ++ [h]) ++ U <-> i ∈ (h :: A') ++ P ++ U) as Hmem.
  { intros i. rewrite !elem_of_app, !elem_of_cons, elem_of_nil. tauto. }
  destruct HI. split; simpl; rewrite ?Eb, ?El, ?Ep; try done.
  - intros h1 q Hq. destruct (v_req0 h1 q Hq) as [x [? ? ? ? ? ? ?]]. by exists x.
  - assert (A' ++ (P ++ [h]) ++ U ≡ₚ (h :: A') ++ P ++ U) as -> by solve_Permutation. done.
  - intros i Hi. by apply v_known0, Hmem.
  - intros h1 q x Hq Hx. rewrite (v_flag0 h1 q x Hq Hx). by apply decide_ext.
  - intros h1 q x Hq HA HP Hx. apply (v_done0 h1 q x Hq); [|by intros ?; apply HP, elem_of_app; left|done].
    rewrite elem_of_cons. intros [->|?]; [|done]. apply HP, elem_of_app. right. constructor.
  - rewrite u16_next, v_avail_idx0. f_equal. simpl. lia.
  - intros k i Hk. rewrite ring_next. replace (1 + Z.of_nat k) with (Z.of_nat (S k)) by lia. by apply v_avail0.
  - by rewrite v_pend0.
  - apply u16_range.
Qed.

Lemma chain_of h q x : req_ok s h q x ->
  chain_at (vs_disk s) h = Some (mkReq (if r_write q then VIRTIO_BLK_T_OUT else VIRTIO_BLK_T_IN) 0 (2 * db_blockno x),
                                 r_b q, negb (r_write q), h).
Proof.
  intros [_ _ E0 E1 E2 Eo _]. unfold chain_at. rewrite E0. simpl. rewrite E1. simpl. rewrite E2. simpl. rewrite Eo.
  by destruct (r_write q).
Qed.

Lemma buf_apart h q h' q' x : R !! h = Some q -> R !! h' = Some q' -> h <> h' -> vs_bufs s !! r_b q = Some x ->
  r_b q <> r_b q'.
Proof. intros Hq Hq' Hne Hx E. apply Hne. eapply (v_block _ _ _ _ _ _ HI h q h' q' x x); try done. by rewrite <- E. Qed.

Lemma to_nat_ne (i j : Z) : 0 <= i -> 0 <= j -> i <> j -> Z.to_nat i <> Z.to_nat j.
Proof. lia. Qed.

(** The heads with an error, after [h] was completed with the status [v]. *)
Definition faulty (h v : Z) : list Z := if decide (v = 0) then F else h :: F.

Lemma faulty_other h v h' : h <> h' -> h' ∈ faulty h v <-> h' ∈ F.
Proof. intros Hne. unfold faulty. case_decide; [done|]. rewrite elem_of_cons. naive_solver. Qed.

(** The completion of a chain with the status [v]: if it is 0, the block and the
    buffer agree afterwards; other blocks and buffers are unchanged. *)
Lemma complete_inv P1 h P2 q x w D v len : P = P1 ++ h :: P2 -> R !! h = Some q -> req_ok s h q x ->
  (v = 0 -> blocks w (db_blockno x) = D) -> (forall k, k <> db_blockno x -> blocks w k = blocks (vs_dev s) k) ->
  last_avail w = last_avail (vs_dev s) -> pending w = P1 ++ P2 ->
  vinv (mkVst (vs_ctx s) (finish_chain h h v len (vs_disk s)) (<[r_b q := set_data D x]> (vs_bufs s)) w)
       R A (P1 ++ P2) (U ++ [h]) (faulty h v).
Proof.
  intros EP Hq Hreq ED Eother El Ep.
  pose proof phases_few as Hfew. pose proof (head_range h ltac:(eauto)) as Hh.
  assert (A ++ (P1 ++ P2) ++ U ++ [h] ≡ₚ A ++ P ++ U) as Hperm by (rewrite EP; solve_Permutation).
  pose proof (rk_buf _ _ _ _ Hreq) as Hx. assert (r_b q < length (vs_bufs s))%nat as Hlt by by eapply lookup_lt_Some.
  assert (forall h' q' x', R !! h' = Some q' -> h <> h' -> <[r_b q := set_data D x]> (vs_bufs s) !! r_b q' = Some x' ->
    vs_bufs s !! r_b q' = Some x' /\ db_blockno x' <> db_blockno x) as Hothers.
  { intros h' q' x' Hq' Hne Hx'. rewrite list_lookup_insert_ne in Hx' by by eapply buf_apart. split; [done|].
    intros E. apply Hne. by eapply (v_block _ _ _ _ _ _ HI h q h' q' x x'). }
  assert (<[r_b q := set_data D x]> (vs_bufs s) !! r_b q = Some (set_data D x)) as Hself by by apply list_lookup_insert_eq.
  assert (v = 0 <-> h ∉ faulty h v) as Hfault.
  { unfold faulty. case_decide as Hv; [|rewrite elem_of_cons; tauto]. split; [|done]. intros _ Hh'. apply (v_err _ _ _ _ _ _ HI) in Hh'.
    pose proof (v_once _ _ _ _ _ _ HI) as Hnd. rewrite EP in Hnd. apply NoDup_app in Hnd as (_ & _ & Hnd).
    rewrite <- app_assoc in Hnd. apply NoDup_app in Hnd as (_ & _ & Hnd). apply NoDup_cons in Hnd as [Hnd _].
    apply Hnd. rewrite elem_of_app. tauto. }
  destruct HI. split; simpl; rewrite ?El, ?Ep, ?length_insert, ?length_alter; try done.
  - intros h' q' Hq'. destruct (v_req0 h' q' Hq') as [x' [B1 B2 B3 B4 B5 B6 [v0 B7]]].
    assert (exists v', alter (fun i => mkInfo (in_b i) v) (Z.to_nat h) (vd_info (vs_disk s)) !! Z.to_nat h' =
                      Some (mkInfo (Some (r_b q')) v')) as Hinfo.
    { destruct (decide (h = h')) as [<-|Hne].
      - rewrite list_lookup_alter_eq, B7. simpl. eauto.
      - rewrite list_lookup_alter_ne; [eauto|]. apply to_nat_ne; [lia| |done]. apply (head_range h'); eauto. }
    destruct (decide (h = h')) as [<-|Hne].
    + assert (q' = q) as -> by congruence. assert (x' = x) as -> by congruence. by exists (set_data D x).
    + exists x'. split; simpl; try done. rewrite list_lookup_insert_ne; [done|by eapply buf_apart].
  - assert (forall h0 q0 x0, R !! h0 = Some q0 -> <[r_b q := set_data D x]> (vs_bufs s) !! r_b q0 = Some x0 ->
      exists y, vs_bufs s !! r_b q0 = Some y /\ db_blockno y = db_blockno x0) as Hblk.
    { intros h0 q0 x0 Hq0 Hx0. destruct (decide (h = h0)) as [<-|Hne].
      - assert (q0 = q) as -> by congruence. rewrite Hself in Hx0. injection Hx0 as <-. eauto.
      - destruct (Hothers h0 q0 x0) as [? _]; eauto. }
    intros h1 q1 h2 q2 x1 x2 H1 H2 Hx1 Hx2 E. destruct (Hblk h1 q1 x1 H1 Hx1) as (y1 & Hy1 & E1).
    destruct (Hblk h2 q2 x2 H2 Hx2) as (y2 & Hy2 & E2). eapply v_block0; try done. congruence.
  - by rewrite Hperm.
  - intros h'. rewrite Hperm. apply v_known0.
  - intros h' q' x' Hq' Hx'.
    rewrite (decide_ext (h' ∈ A ++ (P1 ++ P2) ++ U ++ [h]) (h' ∈ A ++ P ++ U)) by by rewrite Hperm.
    destruct (decide (h = h')) as [<-|Hne].
    + assert (q' = q) as -> by congruence. rewrite Hself in Hx'. injection Hx' as <-. exact (v_flag0 h q x Hq Hx).
    + destruct (Hothers h' q' x') as [? _]; [done..|]. by apply v_flag0 with q'.
  - intros h' q' x' Hq' HA HP Hx'. destruct (decide (h = h')) as [<-|Hne].
    + assert (q' = q) as -> by congruence. rewrite Hself in Hx'. injection Hx' as <-. exists v. split; [|split; [done|]].
      * destruct Hreq as [_ _ _ _ _ _ [v0 Ev]]. by rewrite list_lookup_alter_eq, Ev.
      * intros Hf%Hfault. symmetry. by apply ED.
    + destruct (Hothers h' q' x') as [Hx'' Hb]; [done..|]. rewrite Eother by done.
      rewrite list_lookup_alter_ne; [|apply to_nat_ne; [lia| |done]; apply (head_range h'); eauto].
      destruct (v_done0 h' q' x' Hq' HA) as (v' & V1 & V2 & V3); [|done|].
      { rewrite EP. intros Hin. rewrite elem_of_app, elem_of_cons in Hin. apply HP. rewrite elem_of_app. destruct Hin as [?|[->|?]]; tauto. }
      exists v'. rewrite (faulty_other h v h' Hne). done.
  - intros h' Hh'. rewrite elem_of_app. destruct (decide (h = h')) as [<-|Hne]; [right; constructor|left].
    by apply v_err0, (faulty_other h v h' Hne).
  - rewrite v_used_idx0, length_app. simpl. unfold u16. Z.div_mod_to_equations. lia.
  - intros k h' Hk. rewrite v_used_idx0, u16_mod. apply lookup_app_Some in Hk as [Hk|[Hge Hk]].
    + assert (k < length U)%nat by by eapply lookup_lt_Some. rewrite EP in Hfew. rewrite length_app in Hfew. simpl in Hfew.
      rewrite list_lookup_insert_ne; [by apply v_used0|]. intros E. apply ring_inj in E; lia.
    + apply list_lookup_singleton_Some in Hk as [Hk <-]. replace k with (length U) by lia. exists len.
      apply list_lookup_insert_eq. rewrite v_uring0. unfold NUM. pose proof (Z.mod_pos_bound (vd_used_idx (vs_disk s) + Z.of_nat (length U)) 8). lia.
Qed.

(** What the device may do to the buffers. *)
Definition bufs_step (s' : st) : Prop := forall b x, vs_bufs s !! b = Some x -> exists x', vs_bufs s' !! b = Some x' /\
  db_blockno x' = db_blockno x /\
  (db_data x' = db_data x \/ exists h q, R !! h = Some q /\ r_b q = b /\ r_write q = false).

(** A chain the device works on is that of a request. *)
Lemma work_req P1 h P2 r b wr j : pending (vs_dev s) = P1 ++ h :: P2 -> chain_at (vs_disk s) h = Some (r, b, wr, j) ->
  exists q x, R !! h = Some q /\ req_ok s h q x /\ P = P1 ++ h :: P2 /\ b = r_b q /\ wr = negb (r_write q) /\ j = h /\
    rq_sector r / 2 = db_blockno x.
Proof.
  intros Ep Ec. rewrite (v_pend _ _ _ _ _ _ HI) in Ep. destruct (v_known _ _ _ _ _ _ HI h) as [q Hq].
  { rewrite Ep, !elem_of_app, elem_of_cons. tauto. }
  destruct (v_req _ _ _ _ _ _ HI h q Hq) as [x Hx]. rewrite (chain_of h q x Hx) in Ec. injection Ec as <- <- <- <-.
  exists q, x. split_and!; try done. simpl. Z.div_mod_to_equations. lia.
Qed.

(** What a step of the device does to the driver: heads move on, a process that
    waits for one still does. *)
Definition dev_post (s' : st) (A' P' U' F' : list Z) : Prop :=
  bufs_step s' /\ vd_lock (vs_disk s') = vd_lock (vs_disk s) /\ A' ++ P' ++ U' ≡ₚ A ++ P ++ U /\ vinv s' R A' P' U' F'.

Lemma complete_phases P1 h P2 : P = P1 ++ h :: P2 -> A ++ (P1 ++ P2) ++ U ++ [h] ≡ₚ A ++ P ++ U.
Proof. intros ->. solve_Permutation. Qed.

(** A buffer the device may write. *)
Lemma bufs_step_read s' h q x D : R !! h = Some q -> r_write q = false -> vs_bufs s !! r_b q = Some x ->
  vs_bufs s' = <[r_b q := set_data D x]> (vs_bufs s) -> bufs_step s'.
Proof.
  intros Hq Hw Hx E b x' Hx'. rewrite E. destruct (decide (b = r_b q)) as [->|].
  - rewrite list_lookup_insert_eq by by eapply lookup_lt_Some. assert (x' = x) as -> by congruence. eexists. split_and!; [done|done|].
    right. by exists h, q.
  - rewrite list_lookup_insert_ne by done. eauto.
Qed.

Lemma set_same b x : vs_bufs s !! b = Some x -> <[b := set_data (db_data x) x]> (vs_bufs s) = vs_bufs s.
Proof. intros Hx. apply list_insert_id. rewrite Hx. by destruct x. Qed.

Lemma work_inv s' : dev_work s s' ->
  exists A' P' U', dev_post s' A' P' U' F /\ (3 * length A' + 2 * length P' + length U' < 3 * length A + 2 * length P + length U)%nat.
Proof.
  intros Hact. unfold dev_post.
  destruct Hact as [h w H1 H2 H3 H4 H5|P1 h P2 r b j x len w Ep Ec Et Hx Eb El Ep'|P1 h P2 r b j x len w Ep Ec Et Hx Eb El Ep'].
  - destruct (take_inv h w H1 H2 H3 H4 H5) as (A' & -> & ?).
    exists A', (P ++ [h]), U. split; [|rewrite length_app; simpl; lia]. split_and!; [unfold bufs_step; eauto|done| |done]. solve_Permutation.
  - destruct (work_req _ _ _ _ _ _ _ Ep Ec) as (q & y & Hq & Hok & EP & -> & Ew & -> & Es).
    assert (y = x) as -> by (pose proof (rk_buf _ _ _ _ Hok); congruence).
    exists A, (P1 ++ P2), (U ++ [h]). split; [|rewrite EP, !length_app; simpl; lia]. split_and!; [|done|by apply complete_phases|].
    + eapply bufs_step_read; [done|by destruct (r_write q)|done|done].
    + eapply (complete_inv P1 h P2 q x w _ 0); try done; rewrite ?Eb, ?Es; done.
  - destruct (work_req _ _ _ _ _ _ _ Ep Ec) as (q & y & Hq & Hok & EP & -> & Ew & -> & Es).
    assert (y = x) as -> by (pose proof (rk_buf _ _ _ _ Hok); congruence).
    exists A, (P1 ++ P2), (U ++ [h]). split; [|rewrite EP, !length_app; simpl; lia].
    split_and!; [unfold bufs_step; eauto|done|by apply complete_phases|].
    pose proof (complete_inv P1 h P2 q x w (db_data x) 0 len EP Hq Hok) as Hinv. rewrite set_same in Hinv by done.
    apply Hinv; [intros _|intros k Hk|done|done]; rewrite Eb, Es; [apply fn_lookup_insert|by apply fn_lookup_insert_ne].
Qed.

Lemma fail_inv s' : dev_fail s s' -> exists A' P' U' F', dev_post s' A' P' U' F'.
Proof.
  intros [P1 h P2 r b wr j x D v len w Ep Ec Hx Hv HD Eb El Ep'].
  destruct (work_req _ _ _ _ _ _ _ Ep Ec) as (q & y & Hq & Hok & EP & -> & -> & -> & Es).
  assert (y = x) as -> by (pose proof (rk_buf _ _ _ _ Hok); congruence).
  exists A, (P1 ++ P2), (U ++ [h]), (faulty h v). split_and!; [|done|by apply complete_phases|].
  - destruct (r_write q) eqn:Ew; [|by eapply bufs_step_read]. rewrite HD by done. unfold bufs_step. simpl. rewrite set_same by done. eauto.
  - apply (complete_inv P1 h P2 q x w D v); try done; [lia|]. intros k Hk. apply Eb. left. by rewrite Es.
Qed.

Lemma dev_inv s' : dev_act s s' -> exists A' P' U' F', dev_post s' A' P' U' F'.
Proof.
  intros [w Hw|s1 Hw|s1 Hw].
  - exists A, P, U, F. split_and!; [intros b x Hx; eauto|done|done|]. by apply idle_inv.
  - destruct (work_inv s1 Hw) as (A' & P' & U' & ? & _). eauto 10.
  - by apply fail_inv.
Qed.

Lemma busy_work : A <> [] \/ P <> [] -> has_work s.
Proof.
  intros Hne. pose proof phases_few as Hf. destruct A as [|h A'] eqn:EA.
  - destruct P as [|h P'] eqn:EP; [by destruct Hne|]. destruct (v_known _ _ _ _ _ _ HI h) as [q Hq].
    { simpl. constructor. }
    destruct (v_req _ _ _ _ _ _ HI h q Hq) as [x Hx]. apply (hw_chain s [] h P' _ _ _ _ x (v_pend _ _ _ _ _ _ HI) (chain_of h q x Hx)).
    + simpl. by destruct (r_write q).
    + apply Hx.
  - apply (hw_take s h).
    + rewrite (v_avail_idx _ _ _ _ _ _ HI). intros E. symmetry in E.
      apply u16_moved in E; [simpl in E; lia|apply (v_last _ _ _ _ _ _ HI)|simpl in *; lia].
    + pose proof (v_avail _ _ _ _ _ _ HI O h eq_refl) as E. by rewrite Z.add_0_r in E.
Qed.

(** *** The used ring *)
Lemma unseen_length : u16 (us_idx (vd_used (vs_disk s)) - vd_used_idx (vs_disk s)) = Z.of_nat (length U).
Proof.
  pose proof phases_few as Hf. pose proof (v_seen _ _ _ _ _ _ HI). rewrite (v_used_idx _ _ _ _ _ _ HI). unfold u16.
  Z.div_mod_to_equations. lia.
Qed.

Lemma unseen_iff : unseen s <-> U <> [].
Proof.
  unfold unseen. pose proof (v_seen _ _ _ _ _ _ HI) as Hs. pose proof phases_few as Hf. rewrite (v_used_idx _ _ _ _ _ _ HI). split.
  - intros Hne ->. apply Hne. simpl. by rewrite Z.add_0_r, u16_id.
  - intros Hne E. apply Hne. apply u16_moved in E; [|done|lia]. destruct U; [done|simpl in E; lia].
Qed.

(** An entry of the used ring: its request, and the status the device left. *)
Lemma used_entry k h : U !! k = Some h -> exists q x len v, R !! h = Some q /\ req_ok s h q x /\ 0 <= h < NUM /\
  (us_ring (vd_used (vs_disk s))).[(vd_used_idx (vs_disk s) + Z.of_nat k) mod NUM] = Some (mkUsedElem h len) /\
  (vd_info (vs_disk s)).[h] = Some (mkInfo (Some (r_b q)) v) /\ (v = 0 <-> h ∉ F).
Proof.
  intros Hk. assert (h ∈ U) as HU by by eapply list_elem_of_lookup_2.
  assert (h ∈ A ++ P ++ U) as Hin by (rewrite !elem_of_app; tauto).
  destruct (v_known _ _ _ _ _ _ HI h Hin) as [q Hq]. destruct (v_req _ _ _ _ _ _ HI h q Hq) as [x Hx].
  destruct (v_used _ _ _ _ _ _ HI k h Hk) as [len Hlen]. pose proof (v_once _ _ _ _ _ _ HI) as Hnd.
  rewrite app_assoc in Hnd. apply NoDup_app in Hnd as (_ & Hd & _).
  assert (h ∉ A /\ h ∉ P) as [HA HP] by (split; intros H; apply (Hd h); rewrite ?elem_of_app; tauto).
  destruct (v_done _ _ _ _ _ _ HI h q x Hq HA HP (rk_buf _ _ _ _ Hx)) as (v & Hv & Hz & _).
  exists q, x, len, v. split_and!; try done; by apply known_range.
Qed.

Lemma failed_iff : failed s <-> F <> [].
Proof.
  unfold failed. rewrite unseen_length. split.
  - intros (k & h & len & i & Hk & Hu & Hi & Hst). destruct (lookup_lt_is_Some_2 U (Z.to_nat k)) as [h' Hh']; [lia|].
    destruct (used_entry _ _ Hh') as (q & x & len' & v & _ & _ & _ & Hu' & Hi' & Hz). rewrite Z2Nat.id in Hu' by lia.
    rewrite Hu in Hu'. injection Hu' as <- <-. rewrite Hi in Hi'. injection Hi' as ->. intros ->. apply Hst. apply Hz, not_elem_of_nil.
  - intros Hne. assert (exists h, h ∈ F) as [h HF] by (destruct F as [|h F']; [done|]; exists h; constructor).
    apply (v_err _ _ _ _ _ _ HI) in HF as HU.
    apply list_elem_of_lookup in HU as [k Hk]. destruct (used_entry k h Hk) as (q & x & len & v & _ & _ & _ & Hu & Hi & Hz).
    exists (Z.of_nat k), h, len, (mkInfo (Some (r_b q)) v). split; [apply lookup_lt_Some in Hk; lia|]. split_and!; [done|done|].
    simpl. intros ->. by apply Hz.
Qed.

(** *** The interrupt handler: one entry of the used ring *)
Definition set_flag (v : Z) (x : dbuf) : dbuf := mkDbuf v (db_blockno x) (db_data x).

Lemma notice_inv h U' q c : U = h :: U' -> R !! h = Some q -> h ∉ F ->
  vinv (mkVst c (over used_idxL (u16 (vd_used_idx (vs_disk s) + 1)) (vs_disk s))
              (alter (set_flag 0) (r_b q) (vs_bufs s)) (vs_dev s)) R A P U' F.
Proof.
  intros EU Hq Hok. pose proof (head_range h ltac:(eauto)) as Hh.
  assert (h ∉ A ++ P ++ U') as Hnew.
  { pose proof (v_once _ _ _ _ _ _ HI) as Hnd. rewrite EU in Hnd.
    assert (A ++ P ++ h :: U' ≡ₚ h :: A ++ P ++ U') as Ep by solve_Permutation. rewrite Ep in Hnd.
    by apply NoDup_cons in Hnd as [? _]. }
  assert (forall i, i ∈ A ++ P ++ U <-> i = h \/ i ∈ A ++ P ++ U') as Hmem.
  { intros i. rewrite EU, !elem_of_app, elem_of_cons. tauto. }
  assert (forall h' q' x', R !! h' = Some q' -> alter (set_flag 0) (r_b q) (vs_bufs s) !! r_b q' = Some x' ->
    exists x, vs_bufs s !! r_b q' = Some x /\ (h' = h /\ x' = set_flag 0 x \/ h' <> h /\ x' = x)) as Hbuf.
  { intros h' q' x' Hq' Hx'. destruct (v_req _ _ _ _ _ _ HI h' q' Hq') as [x Hx]. apply rk_buf in Hx.
    exists x. split; [done|]. destruct (decide (h' = h)) as [->|Hne].
    - assert (q' = q) as -> by congruence. rewrite list_lookup_alter_eq, Hx in Hx'. left. by injection Hx' as <-.
    - rewrite list_lookup_alter_ne in Hx' by (apply not_eq_sym; by eapply buf_apart). right. split; [done|congruence]. }
  destruct HI. split; simpl; rewrite ?length_insert; try done.
  - intros h' q' Hq'. destruct (v_req0 h' q' Hq') as [x' [B1 B2 B3 B4 B5 B6 [v B7]]].
    destruct (decide (h' = h)) as [->|Hne].
    + assert (q' = q) as -> by congruence. exists (set_flag 0 x'). split; simpl; eauto.
      by rewrite list_lookup_alter_eq, B1.
    + exists x'. split; simpl; eauto. rewrite list_lookup_alter_ne; [done|]. apply not_eq_sym. by eapply buf_apart.
  - intros h1 q1 h2 q2 x1 x2 H1 H2 Hx1 Hx2 E. destruct (Hbuf h1 q1 x1 H1 Hx1) as (y1 & Hy1 & E1).
    destruct (Hbuf h2 q2 x2 H2 Hx2) as (y2 & Hy2 & E2). apply (v_block0 h1 q1 h2 q2 y1 y2); try done.
    destruct E1 as [[_ ->]|[_ ->]], E2 as [[_ ->]|[_ ->]]; done.
  - assert (A ++ P ++ U ≡ₚ h :: A ++ P ++ U') as Ep by (rewrite EU; solve_Permutation). rewrite Ep in v_once0.
    by apply NoDup_cons in v_once0 as [_ ?].
  - intros i Hi. apply v_known0, Hmem. by right.
  - intros h' q' x' Hq' Hx'. destruct (Hbuf h' q' x' Hq' Hx') as (x & Hx & [[-> ->]|[Hne ->]]).
    + by rewrite decide_False.
    + rewrite (v_flag0 h' q' x Hq' Hx). apply decide_ext. rewrite Hmem. naive_solver.
  - intros h' q' x' Hq' HA HP Hx'. destruct (Hbuf h' q' x' Hq' Hx') as (x & Hx & E).
    destruct (v_done0 h' q' x Hq' HA HP Hx) as (v & Hi & Hv & Hd). exists v. by destruct E as [[-> ->]|[Hne ->]].
  - intros h' Hh'. pose proof (v_err0 h' Hh') as HU. rewrite EU, elem_of_cons in HU. by destruct HU as [->|].
  - rewrite v_used_idx0, EU, u16_next. f_equal. simpl. lia.
  - intros k i Hk. rewrite ring_next. replace (1 + Z.of_nat k) with (Z.of_nat (S k)) by lia. apply v_used0. by rewrite EU.
  - apply u16_range.
Qed.
End preserved.
End spec.
