(* ===== verification/VirtioSpec.v ===== *)
(** * The disk driver at work (kernel/virtio_disk.c)

    The functions of Virtio.v between two sleeps, run on a state that satisfies
    the invariant of VirtioInv.v: virtio_disk_intr, the allocation of descriptors,
    the request, and what happens when it is done.  VirtioSys.v puts them together
    in the system of processes, interrupts and the device. *)
From S2P Require Import Prelude Machine Spinlock Block Virtio VirtioInv.
Local Open Scope Z_scope.
Local Open Scope kernel_scope.

Section spec.
Context {W : Type} `{MM : !Mmio W} `{VD : !VirtioDev W}.
Notation st := (vst W).
Implicit Types s : st.
Notation "l .[ i ]" := (l !! Z.to_nat i) (at level 1, format "l .[ i ]").

#[local] Instance vH_ok : LensOk (@vH W).
Proof. split; [done|by intros [[] ? ? ?]|done]. Qed.
#[local] Instance vL_ok : LensOk (@vL W).
Proof. split; [done|by intros [? [] ? ?]|done]. Qed.
#[local] Instance vHL_disj : LensDisj (@vH W) (@vL W).
Proof. done. Qed.

(** Everything but the lock and the context of the running process. *)
Definition core (s : st) : vdisk * list dbuf * W := (over vlockL (initlock "") (vs_disk s), vs_bufs s, vs_dev s).

Lemma core_inv s s' R A P U F : core s' = core s -> vinv s R A P U F -> vinv s' R A P U F.
Proof.
  intros [= E1 E2 E3 E4 E5 E6 E7 E8 E9] HI. destruct s as [c [] bufs w], s' as [c' [] bufs' w']; simpl in *; subst.
  destruct HI. split; try done. intros h q Hq. destruct (v_req h q Hq) as [x [? ? ? ? ? ? ?]]. by exists x.
Qed.

(** No process is in the driver's critical section, and the one about to run
    holds no lock. *)
Definition ctx_ok (c : ctx) : Prop := hart_ok (cx_hart c) /\ noff (cx_hart c) = 0.
Definition at_rest (s : st) : Prop := ctx_ok (vs_ctx s) /\ free_lock (vd_lock (vs_disk s)).

(** The buffers keep their block and their data. *)
Definition bufs_keep (s s' : st) : Prop := forall b x, vs_bufs s !! b = Some x ->
  exists x', vs_bufs s' !! b = Some x' /\ db_blockno x' = db_blockno x /\ db_data x' = db_data x.

#[local] Instance bufs_keep_pre : PreOrder bufs_keep.
Proof.
  split; [intros s b x Hx; eauto|]. intros s1 s2 s3 H1 H2 b x Hx.
  destruct (H1 b x Hx) as (y & Hy & ? & ?). destruct (H2 b y Hy) as (z & Hz & ? & ?). exists z. split_and!; congruence.
Qed.

Lemma bufs_keep_eq s s' : vs_bufs s' = vs_bufs s -> bufs_keep s s'.
Proof. intros E b x Hx. rewrite E. eauto. Qed.

(** ** Entering and leaving *)
Lemma enter s : at_rest s -> exists s1, acquire vH vL s = Done tt s1 /\
  inside_lock vH vL (cx_hart (vs_ctx s)) s1 /\ core s1 = core s.
Proof.
  intros [[Hh Hn] [Hl Hc]]. destruct (acquire_enter vH vL s Hh Hn Hl) as (s1 & E & Hin & ->). eexists. split_and!; done.
Qed.

Lemma leave h s : inside_lock vH vL h s -> exists s1, release vH vL s = Done tt s1 /\ at_rest s1 /\ core s1 = core s /\
  cx_wakes (vs_ctx s1) = cx_wakes (vs_ctx s).
Proof.
  intros Hin. exists (unlocked vH vL h s). split; [exact (release_leave vH vL h s Hin)|]. destruct Hin as (Hh & Hn & _ & _).
  split; [|done]. split; [|done]. split; simpl; unfold touched; destruct (noff h =? 0); done.
Qed.

(** Code that keeps the hart and the lock stays inside. *)
Lemma stay h s s' : inside_lock vH vL h s -> cx_hart (vs_ctx s') = cx_hart (vs_ctx s) ->
  vd_lock (vs_disk s') = vd_lock (vs_disk s) -> inside_lock vH vL h s'.
Proof.
  unfold inside_lock. simpl. intros (Hh & Hn & EH & EL) E1 E2. rewrite E1, E2. done.
Qed.

(** ** Array accesses *)
Lemma wp_elt {A} (L : lens vdisk (list A)) i (a : A) s Q :
  0 <= i -> (view L (vs_disk s)).[i] = Some a -> Q a s -> wp (elt L i s) Q.
Proof. intros Hi E HQ. unfold elt. destruct (Z.ltb_spec i 0); [lia|]. by rewrite E. Qed.

Lemma wp_set_elt {A} (L : lens vdisk (list A)) i (a : A) s (Q : unit -> st -> Prop) :
  0 <= i < NUM -> length (view L (vs_disk s)) = 8%nat ->
  Q tt (upd_disk (fun d => over L (<[Z.to_nat i := a]> (view L d)) d) s) -> wp (set_elt L i a s) Q.
Proof.
  intros Hi Hl HQ. unfold set_elt. kstep. destruct (lookup_lt_is_Some_2 (view L (vs_disk s)) (Z.to_nat i)) as [x Hx].
  { rewrite Hl. unfold NUM in *. lia. }
  by apply (wp_elt L i x); [lia|done|].
Qed.

Lemma wp_set_elt' {A} (L : lens vdisk (list A)) i (a : A) c d l w (Q : unit -> st -> Prop) :
  0 <= i < NUM -> length (view L d) = 8%nat ->
  (forall d', d' = over L (<[Z.to_nat i := a]> (view L d)) d -> Q tt (mkVst c d' l w)) -> wp (set_elt L i a (mkVst c d l w)) Q.
Proof. intros Hi Hl HQ. apply wp_set_elt; [done|done|]. by apply HQ. Qed.

Lemma wp_set_disk b v x s (Q : unit -> st -> Prop) : vs_bufs s !! b = Some x ->
  Q tt (set_bufs (alter (set_flag v) b (vs_bufs s)) s) -> wp (set_disk b v s) Q.
Proof. intros E HQ. unfold set_disk. kstep. unfold bufp. by rewrite E. Qed.

(** ** virtio_disk_intr *)
Lemma reg_status s : exists w v, reg VIRTIO_MMIO_INTERRUPT_STATUS s = Done v (set_dev w s) /\
  same_dev_at blocks last_avail pending (vs_dev s) w.
Proof.
  pose proof (dev_status (vs_dev s)) as H. unfold reg. destruct (rd32 _ (vs_dev s)) as [v w]. by exists w, v.
Qed.

(** The handler looks at the entries of the used ring and wakes the process of
    each; it panics exactly when one of them reports an error. *)
Section intr.
Context (R : gmap Z req) (A P F : list Z).

Definition intr_panics (s : st) (msg : string) : Prop := msg = "virtio_disk_intr status"%string /\ failed s.

Definition woken (U : list Z) (s : st) : Prop :=
  forall h q, h ∈ U -> R !! h = Some q -> ChanBuf (Z.of_nat (r_b q)) ∈ cx_wakes (vs_ctx s).

Notation wpp := (wpx (fun _ _ => False) (fun _ (_ : unit) _ _ => True)).

Lemma wpp_elt {X} (L : lens vdisk (list X)) i (a : X) s E Q :
  0 <= i -> (view L (vs_disk s)).[i] = Some a -> Q a s tt -> wpp E (elt L i s) tt Q.
Proof. intros Hi He HQ. unfold elt. destruct (Z.ltb_spec i 0); [lia|]. by rewrite He. Qed.

(** One entry. *)
Lemma intr_round s s0 U : vinv s R A P U F -> unseen s -> (F <> [] -> failed s0) -> bufs_keep s0 s ->
  wpp (intr_panics s0) ((
    u <- fld usedL;;
    e <- (fun s => match us_ring u !! Z.to_nat (vd_used_idx (vs_disk s) mod NUM) with Some e => Done e s | None => Panic "out of bounds" end);;
    let id := s32 (ue_id e) in
    info <- elt infoL id;;
    if negb (in_status info =? 0) then panic "virtio_disk_intr status" else
    match in_b info with
    | None => panic "kerneltrap"
    | Some b =>
        set_disk b 0;;
        wakeup (ChanBuf (Z.of_nat b));;
        i <- fld used_idxL;;
        set_fld used_idxL (u16 (i + 1));;
        ret (@inl unit unit tt)
    end) s) tt (fun r s' _ => r = inl tt /\ exists h U', U = h :: U' /\ vinv s' R A P U' F /\ bufs_keep s0 s' /\
      blocks (vs_dev s') = blocks (vs_dev s) /\ vd_lock (vs_disk s') = vd_lock (vs_disk s) /\ cx_hart (vs_ctx s') = cx_hart (vs_ctx s) /\
      exists q, R !! h = Some q /\ cx_wakes (vs_ctx s') = ChanBuf (Z.of_nat (r_b q)) :: cx_wakes (vs_ctx s)).
Proof.
  intros HI Hun%(unseen_iff s R A P U F HI) Hfail Hkeep. destruct U as [|h U']; [done|].
  destruct (used_entry s R A P _ F HI O h eq_refl) as (q & x & len & v & Hq & Hreq & Hh & Hu & Hi & Hz). rewrite Z.add_0_r in Hu.
  unfold fld. do 3 kstep. cbn [view usedL]. rewrite Hu. cbn [wpx ue_id]. rewrite s32_id by (unfold NUM in *; lia). kstep.
  apply (wpp_elt infoL h (mkInfo (Some (r_b q)) v)); [lia|exact Hi|]. cbn [in_status in_b]. destruct (Z.eqb_spec v 0) as [Ev|Hv]; cbn [negb].
  2:{ cbn. split; [done|]. apply Hfail. intros EF. apply Hv, Hz. rewrite EF. apply not_elem_of_nil. }
  kstep. eapply wpx_mono; [|apply wpx_wp, (wp_set_disk (r_b q) 0 x s (fun _ s' => s' = set_bufs (alter (set_flag 0) (r_b q) (vs_bufs s)) s)); [apply Hreq|done]].
  intros [] s1 [] [-> _]. unfold wakeup, set_fld. do 7 kstep. split; [done|]. exists h, U'. split; [done|].
  split; [by apply (notice_inv s R A P (h :: U') F HI h U' q); [done|done|apply Hz]|]. split_and!; try done.
  - etransitivity; [exact Hkeep|]. intros b y Hy. simpl. destruct (decide (b = r_b q)) as [->|].
    + rewrite list_lookup_alter_eq, Hy. eexists. done.
    + rewrite list_lookup_alter_ne by done. eauto.
  - by exists q.
Qed.

Lemma intr_any s U : at_rest s -> vinv s R A P U F ->
  wpp (intr_panics s) (virtio_disk_intr s) tt (fun _ s' _ => at_rest s' /\ vinv s' R A P [] F /\ bufs_keep s s' /\ woken U s').
Proof.
  intros Hrest HI. unfold virtio_disk_intr. destruct (enter s Hrest) as (s1 & E & Hin & Hcore).
  assert (F <> [] -> failed s) as Hfail by apply (failed_iff s R A P U F HI).
  kstep. rewrite E. cbn [wpx]. apply (core_inv s s1) in HI; [|done]. kstep.
  destruct (reg_status s1) as (w & v & -> & Hw). cbn [wpx]. kstep. unfold set_reg. kstep.
  set (s2 := mkVst _ _ _ _). pose proof (dev_ack (u32 (Z.land v 3)) w) as Hw2.
  assert (vinv s2 R A P U F) as HI2.
  { apply (idle_inv s1 R A P U F HI). destruct Hw as [E1 E2 E3], Hw2 as [H1 H2 H3]. split; simpl in *; congruence. }
  assert (bufs_keep s s2) as Hkeep by (apply bufs_keep_eq; by injection Hcore).
  assert (inside_lock vH vL (cx_hart (vs_ctx s)) s2) as Hin2 by by eapply stay.
  clearbody s2. clear s1 E Hin Hcore HI Hw Hw2. set (h := cx_hart (vs_ctx s)) in *.
  kstep. apply (wpx_while _ _ _ _ (fun (g : list Z) (_ : unit) s' (_ : unit) => inside_lock vH vL h s' /\ vinv s' R A P g F /\
      bufs_keep s s' /\ exists g0, U = g0 ++ g /\ woken g0 s') (fun g => Z.of_nat (length g))) with (g := U).
  - intros g [] s1 [] (Hin & HI & Hk & g0 & EU & Hwk). kstep. unfold fld at 1. kstep. cbn [view used_idxL].
    pose proof (unseen_iff s1 R A P g F HI) as Hun. unfold unseen in Hun.
    kstep. unfold fld at 1. kstep. cbn [view usedL].
    destruct (Z.eqb_spec (vd_used_idx (vs_disk s1)) (us_idx (vd_used (vs_disk s1)))) as [Eidx|Hne].
    + kstep. assert (g = []) as -> by (destruct g; [done|]; exfalso; by apply (proj2 Hun)). rewrite app_nil_r in EU. subst g0.
      destruct (leave h s1 Hin) as (s3 & -> & Hrest3 & Hcore3 & Hw3). cbn [wpx]. split_and!; [done|by eapply core_inv| |].
      * transitivity s1; [done|]. apply bufs_keep_eq. by injection Hcore3.
      * intros i q Hi Hq. rewrite Hw3. by apply (Hwk i).
    + eapply wpx_mono; [|apply (intr_round s1 s g HI); [by apply not_eq_sym|done|done]].
      intros r s3 [] (-> & i & U' & -> & HI3 & Hk3 & _ & Hlk & Hhart & q & Hq & Hw3). exists U'. split; [|simpl; lia].
      split_and!; [by eapply stay|done|done|]. exists (g0 ++ [i]). split; [by rewrite <- app_assoc|].
      intros i' q' Hi' Hq'. rewrite Hw3. apply elem_of_app in Hi' as [Hi'|Hi']; apply elem_of_cons; [right; by apply (Hwk i')|left].
      apply list_elem_of_singleton in Hi' as ->. congruence.
  - intros. lia.
  - split_and!; [done..|]. exists []. split; [done|]. intros i q Hi. by apply elem_of_nil in Hi.
  - pose proof (phases_few _ _ _ _ _ _ HI2). unfold budget. lia.
Qed.

(** Without an error in the used ring it returns. *)
Lemma intr_ok s U : at_rest s -> vinv s R A P U F -> ~ failed s ->
  exists s', virtio_disk_intr s = Done tt s' /\ at_rest s' /\ vinv s' R A P [] F /\ bufs_keep s s' /\ woken U s'.
Proof.
  intros Hrest HI Hno. pose proof (intr_any s U Hrest HI) as H. destruct (virtio_disk_intr s) as [[] s'|msg| |c s' rdy k]; simpl in H.
  - by exists s'.
  - by destruct H.
  - done.
  - by destruct H.
Qed.

(** With one it panics. *)
Lemma intr_fails s U : at_rest s -> vinv s R A P U F -> failed s -> virtio_disk_intr s = Panic "virtio_disk_intr status".
Proof.
  intros Hrest HI Hf. pose proof (intr_any s U Hrest HI) as H. destruct (virtio_disk_intr s) as [[] s'|msg| |c s' rdy k]; simpl in H.
  - destruct H as (_ & HI' & _). apply (failed_iff s R A P U F HI) in Hf. destruct F as [|h F']; [done|].
    pose proof (v_err _ _ _ _ _ _ HI' h ltac:(constructor)) as Hh. by apply elem_of_nil in Hh.
  - by destruct H as [-> _].
  - done.
  - by destruct H.
Qed.
End intr.

(** ** Descriptors *)

(** Everything but the descriptors, their marks and the record of wakeups. *)
Definition rest_of s : virtq_avail * virtq_used * Z * list op_info * list virtio_blk_req * spinlock * list dbuf * W * hart :=
  (vd_avail (vs_disk s), vd_used (vs_disk s), vd_used_idx (vs_disk s), vd_info (vs_disk s), vd_ops (vs_disk s),
   vd_lock (vs_disk s), vs_bufs s, vs_dev s, cx_hart (vs_ctx s)).

Lemma stay_rest h s s' : inside_lock vH vL h s -> rest_of s' = rest_of s -> inside_lock vH vL h s'.
Proof. intros Hin E. by eapply stay; [done|injection E..]. Qed.

(** [s'] is [s] after the descriptors [l] were freed. *)
Record freed (l : list Z) s s' : Prop := {
  fd_rest : rest_of s' = rest_of s;
  fd_ldesc : length (vd_desc (vs_disk s')) = 8%nat;
  fd_lfree : length (vd_free (vs_disk s')) = 8%nat;
  fd_desc : forall j, 0 <= j -> j ∉ l -> (vd_desc (vs_disk s')).[j] = (vd_desc (vs_disk s)).[j];
  fd_in : forall j, j ∈ l -> (vd_free (vs_disk s')).[j] = Some 1;
  fd_out : forall j, 0 <= j -> j ∉ l -> (vd_free (vs_disk s')).[j] = (vd_free (vs_disk s)).[j];
  fd_wakes : cx_wakes (vs_ctx s') = replicate (length l) ChanDesc ++ cx_wakes (vs_ctx s)
}.

Lemma freed_nil s : length (vd_desc (vs_disk s)) = 8%nat -> length (vd_free (vs_disk s)) = 8%nat -> freed [] s s.
Proof. intros. split; try done. intros j Hj. by apply elem_of_nil in Hj. Qed.

Lemma free_desc_ok l s0 s i : freed l s0 s -> (forall j, j ∈ l -> 0 <= j) -> 0 <= i < NUM -> i ∉ l ->
  (vd_free (vs_disk s0)).[i] = Some 0 -> wp (free_desc i s) (fun _ s' => freed (l ++ [i]) s0 s').
Proof.
  intros [Hr Hd Hf E1 E2 E3 E4] Hl Hi Hil H0. unfold free_desc. destruct (Z.leb_spec NUM i); [lia|]. kstep.
  apply (wp_elt freeL i 0); [lia|simpl; rewrite E3 by (done || lia); done|]. cbn [Z.eqb negb].
  kstep. apply wp_set_elt; [lia|done|]. kstep. apply wp_set_elt; [lia|done|]. unfold wakeup. kstep.
  assert (forall j, 0 <= j -> j ∉ l ++ [i] -> j ∉ l /\ Z.to_nat i <> Z.to_nat j) as Hout.
  { intros j Hj. rewrite elem_of_app, list_elem_of_singleton. intros Hn. split; [tauto|]. apply to_nat_ne; [lia|done|]. intros ->. tauto. }
  split; simpl; rewrite ?length_insert; try done.
  - intros j Hj Hjl. destruct (Hout j Hj Hjl). rewrite list_lookup_insert_ne by done. by apply E1.
  - intros j Hj. destruct (decide (j = i)) as [->|Hne].
    + apply list_lookup_insert_eq. rewrite Hf. unfold NUM in *. lia.
    + rewrite elem_of_app, list_elem_of_singleton in Hj. destruct Hj as [Hj|]; [|done].
      rewrite list_lookup_insert_ne; [by apply E2|]. apply to_nat_ne; [lia|by apply Hl|done].
  - intros j Hj Hjl. destruct (Hout j Hj Hjl). rewrite list_lookup_insert_ne by done. by apply E3.
  - rewrite E4, length_app. simpl. by rewrite Nat.add_1_r.
Qed.

(** [s] with the descriptors [l] taken. *)
Definition took (l : list Z) s : st :=
  upd_disk (fun d => over freeL (foldl (fun f i => <[Z.to_nat i := 0]> f) (vd_free d) l) d) s.

Lemma took_length l (f : list Z) : length (foldl (fun f i => <[Z.to_nat i := 0]> f) f l) = length f.
Proof. revert f. induction l as [|i l IH]; intros f; simpl; [done|]. by rewrite IH, length_insert. Qed.

Lemma took_out l (f : list Z) j : 0 <= j -> (forall i, i ∈ l -> 0 <= i) -> j ∉ l ->
  (foldl (fun f i => <[Z.to_nat i := 0]> f) f l).[j] = f.[j].
Proof.
  intros Hj. revert f. induction l as [|i l IH]; intros f Hl Hjl; simpl; [done|].
  apply not_elem_of_cons in Hjl as [Hne Hjl]. rewrite IH; [|intros; apply Hl; by constructor|done].
  apply list_lookup_insert_ne, to_nat_ne; [|done|done]. apply Hl. constructor.
Qed.

Lemma took_in l (f : list Z) j : (forall i, i ∈ l -> 0 <= i < NUM) -> length f = 8%nat -> j ∈ l ->
  (foldl (fun f i => <[Z.to_nat i := 0]> f) f l).[j] = Some 0.
Proof.
  revert f. induction l as [|i l IH]; intros f Hl Hf Hj; simpl; [by apply elem_of_nil in Hj|].
  destruct (decide (j ∈ l)) as [Hin|Hout]; [apply IH; [intros; apply Hl; by constructor|by rewrite length_insert|done]|].
  apply elem_of_cons in Hj as [->|]; [|done].
  rewrite took_out; [|specialize (Hl i); lapply Hl; [lia|constructor]|intros k Hk; specialize (Hl k); lapply Hl; [lia|by constructor]|done].
  apply list_lookup_insert_eq. rewrite Hf. specialize (Hl i). lapply Hl; [unfold NUM; lia|constructor].
Qed.

Lemma alloc_desc_ok s : length (vd_free (vs_disk s)) = 8%nat ->
  wp (alloc_desc s) (fun r s' =>
    r = -1 /\ s' = s /\ (forall i, 0 <= i < NUM -> (vd_free (vs_disk s)).[i] = Some 0) \/
    0 <= r < NUM /\ (vd_free (vs_disk s)).[r] <> Some 0 /\ s' = took [r] s).
Proof.
  intros Hf. unfold alloc_desc. kstep.
  apply (wp_for_range NUM _ (fun k s' => s' = s /\ forall i, 0 <= i < Z.of_nat k -> (vd_free (vs_disk s)).[i] = Some 0)).
  - intros k s' Hk [-> Hz]. destruct (lookup_lt_is_Some_2 (vd_free (vs_disk s)) k) as [v Hv]; [rewrite Hf; unfold NUM in *; lia|].
    assert ((vd_free (vs_disk s)).[Z.of_nat k] = Some v) as Hv' by by rewrite Nat2Z.id.
    kstep. apply (wp_elt freeL (Z.of_nat k) v); [lia|done|]. destruct (Z.eqb_spec v 0) as [->|Hne]; cbn [negb].
    + kstep. split; [done|]. intros i Hi. destruct (decide (i = Z.of_nat k)) as [->|]; [done|]. apply Hz. lia.
    + kstep. apply wp_set_elt; [unfold NUM in *; lia|done|]. do 2 kstep. right.
      split; [unfold NUM in *; simpl; lia|]. split; [simpl; rewrite Hv'; congruence|done].
  - intros s' [-> Hz]. kstep. left. split_and!; [done|done|]. intros i Hi. apply Hz. lia.
  - split; [done|]. intros. lia.
Qed.

Lemma took_nil s : took [] s = s.
Proof. by destruct s as [? [] ? ?]. Qed.

Lemma took_snoc l i s : took [i] (took l s) = took (l ++ [i]) s.
Proof. unfold took. simpl. unfold upd_disk. simpl. by rewrite foldl_app. Qed.

(** Changes of descriptors that no request uses. *)
Lemma frame_inv s s' R A P U F : vinv s R A P U F -> rest_of s' = rest_of s ->
  length (vd_desc (vs_disk s')) = 8%nat -> length (vd_free (vs_disk s')) = 8%nat ->
  (forall i, owned R i -> (vd_desc (vs_disk s')).[i] = (vd_desc (vs_disk s)).[i]) ->
  (forall i, 0 <= i < NUM -> (vd_free (vs_disk s')).[i] = (vd_free (vs_disk s)).[i]) -> vinv s' R A P U F.
Proof.
  intros HI [= E1 E2 E3 E4 E5 E6 E7 E8 E9] Hd Hf Edesc Efree.
  assert (forall i, owned R i -> 0 <= i < NUM) as Hown by (intros i (h & q & Hq & Hi); by eapply (v_range _ _ _ _ _ _ HI)).
  destruct HI. split; rewrite ?E1, ?E2, ?E3, ?E4, ?E5, ?E7, ?E8; try done.
  - intros i Hi. rewrite Efree; auto.
  - intros i Hi. rewrite Efree; auto.
  - intros h q Hq. destruct (v_req h q Hq) as [x [B1 B2 B3 B4 B5 B6 B7]]. exists x.
    assert (forall i, i ∈ chain h q -> owned R i) as Ho by (intros; by exists h, q).
    split; rewrite ?E1, ?E2, ?E3, ?E4, ?E5, ?E7, ?E8; try done; rewrite Edesc; try done; apply Ho; unfold chain;
      rewrite !elem_of_cons; tauto.
Qed.

Section alloc3.
Context (s : st) (R : gmap Z req) (A P U F : list Z) (HI : vinv s R A P U F).

Definition spare (l : list Z) : Prop := NoDup l /\ forall i, i ∈ l -> 0 <= i < NUM /\ ~ owned R i.

Lemma spare_range l i : spare l -> i ∈ l -> 0 <= i < NUM.
Proof. intros [_ H] Hi. by apply H. Qed.

(** Giving back what an attempt took. *)
Lemma undo_ok l : spare l -> wp (for_each l (fun j => free_desc j;; ret (@None unit)) (took l s))
  (fun _ s' => vinv s' R A P U F /\ rest_of s' = rest_of s).
Proof.
  intros Hl. apply (wp_for_each _ _ (fun rest s' => exists d, l = d ++ rest /\ freed d (took l s) s')).
  - intros x d0 rest s' _ (d & El & Hfr). kstep. eapply wp_mono; [|eapply free_desc_ok; [exact Hfr|..]].
    + intros ? s2 H2. kstep. exists (d ++ [x]). split; [by rewrite <- app_assoc|done].
    + intros j Hj. apply (spare_range l j Hl). rewrite El. apply elem_of_app. by left.
    + apply (spare_range l x Hl). rewrite El, elem_of_app, elem_of_cons. tauto.
    + destruct Hl as [Hnd _]. rewrite El in Hnd. apply NoDup_app in Hnd as (_ & Hd & _). intros Hx. apply (Hd x Hx). constructor.
    + simpl. apply took_in; [intros; by apply (spare_range l)|apply HI|]. rewrite El, elem_of_app, elem_of_cons. tauto.
  - intros s' (d & El & Hfr). rewrite app_nil_r in El. subst d. destruct Hfr as [Hr Hd Hf E1 E2 E3 _]. split; [|done].
    eapply frame_inv; try done.
    + intros i Hi. rewrite E1; [done| |].
      * destruct Hi as (h & q & Hq & Hi). apply (v_range _ _ _ _ _ _ HI h q i Hq Hi).
      * intros Hil. by destruct (proj2 Hl i Hil).
    + intros i Hi. destruct (decide (i ∈ l)) as [Hil|Hil].
      * rewrite E2 by done. symmetry. apply (v_free _ _ _ _ _ _ HI); [done|]. by apply Hl.
      * rewrite E3 by (done || lia). simpl. apply took_out; [lia| |done]. intros j Hj. by apply (spare_range l).
  - exists []. split; [done|]. apply freed_nil; simpl; rewrite ?took_length; apply HI.
Qed.

Lemma alloc_descs_ok k : forall l, spare l ->
  wp (alloc_descs k l (took l s)) (fun r s' => match r with
    | Some l' => length l' = (length l + k)%nat /\ spare l' /\ s' = took l' s
    | None => (exists l', (length l' < length l + k)%nat /\ forall i, 0 <= i < NUM -> ~ owned R i -> i ∈ l') /\
              vinv s' R A P U F /\ rest_of s' = rest_of s
    end).
Proof.
  induction k as [|k IH]; intros l Hl; cbn [alloc_descs].
  - kstep. split_and!; [lia|done|done].
  - kstep. eapply wp_mono; [|apply alloc_desc_ok; simpl; rewrite took_length; apply HI].
    intros r s' [(-> & -> & Hz)|(Hr & Hnz & ->)].
    + cbn [Z.ltb Z.compare]. kstep. eapply wp_mono; [|by apply undo_ok]. intros ? s2 [Hinv Hrest]. kstep.
      split; [|done]. exists l. split; [lia|]. intros i Hi Hno. apply dec_stable. intros Hil.
      specialize (Hz i Hi). simpl in Hz. rewrite took_out in Hz; [|lia|intros; by apply (spare_range l)|done].
      rewrite (v_free _ _ _ _ _ _ HI) in Hz by done. done.
    + destruct (Z.ltb_spec r 0); [lia|]. rewrite took_snoc. simpl in Hnz.
      assert (r ∉ l) as Hrl.
      { intros Hrl. apply Hnz, took_in; [intros; by apply (spare_range l)|apply HI|done]. }
      rewrite took_out in Hnz; [|lia|intros; by apply (spare_range l)|done].
      eapply wp_mono; [|apply (IH (l ++ [r]))].
      * intros [l'|] s2; rewrite length_app; simpl.
        -- intros (Hlen & H2). split; [lia|done].
        -- intros ((l' & Hlen & H2) & H3). split; [|done]. exists l'. split; [lia|done].
      * destruct Hl as [Hnd Hl]. split.
        -- apply NoDup_app. split_and!; [done| |apply NoDup_singleton]. intros j Hj. rewrite list_elem_of_singleton. by intros ->.
        -- intros i. rewrite elem_of_app, list_elem_of_singleton. intros [Hi| ->]; [by apply Hl|]. split; [done|].
           intros Ho. by apply Hnz, (v_taken _ _ _ _ _ _ HI).
Qed.

(** [alloc3_desc] takes three spare descriptors, or there are not three and
    nothing changes. *)
Lemma alloc3_ok : wp (alloc3_desc s) (fun r s' => match r with
    | Some l => exists i0 i1 i2, l = [i0; i1; i2] /\ spare l /\ s' = took l s
    | None => (~ exists l, length l = 3%nat /\ spare l) /\ vinv s' R A P U F /\ rest_of s' = rest_of s
    end).
Proof.
  pose proof (alloc_descs_ok 3 []) as H. rewrite took_nil in H. eapply wp_mono; [|apply H].
  - intros [l|] s'.
    + intros (Hlen & Hl). destruct l as [|i0 [|i1 [|i2 [|]]]]; try discriminate. eauto 10.
    + intros ((l' & Hlen & Hl') & Hs'). split; [|done]. intros (l & H3 & Hnd & Hl). simpl in Hlen.
      assert (length l <= length l')%nat; [|lia]. apply submseteq_length, NoDup_submseteq; [done|].
      intros i Hi. apply Hl' ; by apply Hl.
  - split; [apply NoDup_nil_2|]. intros i Hi. by apply elem_of_nil in Hi.
Qed.

Lemma can_alloc3_true : can_alloc3 s = true -> exists l, length l = 3%nat /\ spare l.
Proof.
  unfold can_alloc3. pose proof alloc3_ok as H. apply wp_inv in H as (r & s' & -> & Hr).
  destruct r as [l|]; [|done]. intros _. destruct Hr as (i0 & i1 & i2 & -> & Hl & _). by exists [i0; i1; i2].
Qed.

Lemma can_alloc3_spare : (exists l, length l = 3%nat /\ spare l) -> can_alloc3 s = true.
Proof.
  intros Hex. unfold can_alloc3. pose proof alloc3_ok as H. apply wp_inv in H as (r & s' & -> & Hr).
  destruct r as [l|]; [done|]. by destruct Hr.
Qed.
End alloc3.

(** ** Handing a request to the device *)
Section submit.
Context (s : st) (R : gmap Z req) (A P U F : list Z) (HI : vinv s R A P U F).
Context (b : nat) (x : dbuf) (write : bool) (i0 i1 i2 : Z) (q := mkRq b write i1 i2).
Context (Hx : vs_bufs s !! b = Some x) (Hblk : 0 <= db_blockno x < 2 ^ 31).
Context (Hb : forall h q', R !! h = Some q' -> r_b q' <> b).
Context (Hnew : forall h q' x', R !! h = Some q' -> vs_bufs s !! r_b q' = Some x' -> db_blockno x' <> db_blockno x).
Context (Hsp : spare R [i0; i1; i2]).

Definition d0 := mkDesc (DOp i0) 16 VRING_DESC_F_NEXT i1.
Definition d1 := mkDesc (DData b) BSIZE (Z.lor (if write then 0 else VRING_DESC_F_WRITE) VRING_DESC_F_NEXT) i2.
Definition d2 := mkDesc (DStatus i0) 1 VRING_DESC_F_WRITE 0.

Definition submitted_disk : vdisk :=
  let d := vs_disk s in
  mkVDisk (<[Z.to_nat i2 := d2]> (<[Z.to_nat i1 := d1]> (<[Z.to_nat i0 := d0]> (vd_desc d))))
    (mkAvail (av_flags (vd_avail d)) (u16 (av_idx (vd_avail d) + 1))
       (<[Z.to_nat (av_idx (vd_avail d) mod NUM) := i0]> (av_ring (vd_avail d))) (av_unused (vd_avail d)))
    (vd_used d) (foldl (fun f i => <[Z.to_nat i := 0]> f) (vd_free d) [i0; i1; i2]) (vd_used_idx d)
    (<[Z.to_nat i0 := mkInfo (Some b) 0xff]> (vd_info d))
    (<[Z.to_nat i0 := mkReq (if write then VIRTIO_BLK_T_OUT else VIRTIO_BLK_T_IN) 0 (2 * db_blockno x)]> (vd_ops d))
    (vd_lock d).

Lemma spare_facts : (0 <= i0 < NUM /\ 0 <= i1 < NUM /\ 0 <= i2 < NUM) /\ (i0 <> i1 /\ i0 <> i2 /\ i1 <> i2) /\
  (~ owned R i0 /\ ~ owned R i1 /\ ~ owned R i2).
Proof.
  destruct Hsp as [Hnd Hs]. rewrite !NoDup_cons, !not_elem_of_cons in Hnd.
  pose proof (Hs i0 ltac:(rewrite !elem_of_cons; tauto)). pose proof (Hs i1 ltac:(rewrite !elem_of_cons; tauto)).
  pose proof (Hs i2 ltac:(rewrite !elem_of_cons; tauto)). tauto.
Qed.

Lemma fresh_head_none : R !! i0 = None.
Proof.
  destruct (R !! i0) as [q'|] eqn:E; [|done]. destruct spare_facts as (_ & _ & H & _). destruct H.
  exists i0, q'. split; [done|]. constructor.
Qed.

Lemma submitted_old i : owned R i -> 0 <= i /\ i <> i0 /\ i <> i1 /\ i <> i2.
Proof.
  intros Ho. destruct spare_facts as (_ & _ & H0 & H1 & H2). split_and!; try (by intros ->).
  destruct Ho as (h & q' & Hq & Hi). apply (v_range _ _ _ _ _ _ HI h q' i Hq Hi).
Qed.

Lemma submitted_owned i : owned (<[i0 := q]> R) i <-> i = i0 \/ i = i1 \/ i = i2 \/ owned R i.
Proof.
  split.
  - intros (h & q' & Hq & Hi). apply lookup_insert_Some in Hq as [[<- <-]|[Hne Hq]].
    + unfold chain in Hi. rewrite !elem_of_cons, elem_of_nil in Hi. tauto.
    + do 3 right. by exists h, q'.
  - assert (forall j, j ∈ chain i0 q -> owned (<[i0:=q]> R) j) as Hme.
    { intros j Hj. exists i0, q. by rewrite lookup_insert_eq. }
    intros [->|[->|[->|(h & q' & Hq & Hi)]]]; try (apply Hme; unfold chain; rewrite !elem_of_cons; tauto).
    exists h, q'. split; [|done]. rewrite lookup_insert_ne; [done|]. intros <-. by rewrite fresh_head_none in Hq.
Qed.

Lemma fresh_phase : i0 ∉ A ++ P ++ U.
Proof. intros Hi. apply (v_known _ _ _ _ _ _ HI) in Hi as [q' Hq']. by rewrite fresh_head_none in Hq'. Qed.

Lemma submitted_desc : (vd_desc submitted_disk).[i0] = Some d0 /\ (vd_desc submitted_disk).[i1] = Some d1 /\
  (vd_desc submitted_disk).[i2] = Some d2.
Proof.
  destruct spare_facts as ((H0 & H1 & H2) & (N01 & N02 & N12) & _). cbn [submitted_disk vd_desc].
  pose proof (v_desc _ _ _ _ _ _ HI) as Hl. split_and!.
  - rewrite !list_lookup_insert_ne by lia. apply list_lookup_insert_eq. rewrite Hl. unfold NUM in *. lia.
  - rewrite list_lookup_insert_ne by lia. apply list_lookup_insert_eq. rewrite length_insert, Hl. unfold NUM in *. lia.
  - apply list_lookup_insert_eq. rewrite !length_insert, Hl. unfold NUM in *. lia.
Qed.

Lemma submitted_mine c (w : W) : req_ok (mkVst c submitted_disk (alter (set_flag 1) b (vs_bufs s)) w) i0 q (set_flag 1 x).
Proof.
  destruct spare_facts as ((H0 & _) & _). destruct submitted_desc as (D0 & D1 & D2).
  split; cbn [vs_disk vs_bufs r_b r_write r_1 r_2 q]; [|exact Hblk|exact D0|exact D1|exact D2|..].
  - by rewrite list_lookup_alter_eq, Hx.
  - apply list_lookup_insert_eq. rewrite (v_ops _ _ _ _ _ _ HI). unfold NUM in *. lia.
  - eexists. apply list_lookup_insert_eq. rewrite (v_infos _ _ _ _ _ _ HI). unfold NUM in *. lia.
Qed.

Lemma submitted_others c (w : W) h q' : R !! h = Some q' ->
  exists y, req_ok (mkVst c submitted_disk (alter (set_flag 1) b (vs_bufs s)) w) h q' y.
Proof.
  intros Hq. destruct (v_req _ _ _ _ _ _ HI h q' Hq) as [y [B1 B2 B3 B4 B5 B6 [v B7]]]. exists y.
  destruct spare_facts as ((H0 & H1 & H2) & _).
  assert (forall i, i ∈ chain h q' -> 0 <= i /\ i <> i0 /\ i <> i1 /\ i <> i2) as Ho by (intros; apply submitted_old; by exists h, q').
  destruct (Ho h) as (? & ? & ? & ?); [unfold chain; rewrite !elem_of_cons; tauto|].
  destruct (Ho (r_1 q')) as (? & ? & ? & ?); [unfold chain; rewrite !elem_of_cons; tauto|].
  destruct (Ho (r_2 q')) as (? & ? & ? & ?); [unfold chain; rewrite !elem_of_cons; tauto|].
  split; cbn [vs_disk vs_bufs submitted_disk vd_desc vd_ops vd_info]; rewrite ?list_lookup_insert_ne by (apply not_eq_sym, to_nat_ne; tauto); eauto.
  rewrite list_lookup_alter_ne; [done|]. by apply not_eq_sym, (Hb h).
Qed.

Lemma submitted_lookup h q' : <[i0 := q]> R !! h = Some q' -> h = i0 /\ q' = q \/ h <> i0 /\ R !! h = Some q'.
Proof. intros Hq. apply lookup_insert_Some in Hq as [[<- <-]|[Hne Hq]]; [by left|right]. by split; [apply not_eq_sym|]. Qed.

Lemma submitted_range i : i ∈ chain i0 q -> 0 <= i < NUM /\ ~ owned R i.
Proof. intros Hi. by apply Hsp. Qed.

Lemma submitted_disj h q' h' q'' i : <[i0 := q]> R !! h = Some q' -> <[i0 := q]> R !! h' = Some q'' ->
  i ∈ chain h q' -> i ∈ chain h' q'' -> h = h'.
Proof.
  intros [[-> ->]|[_ Hq]]%submitted_lookup [[-> ->]|[_ Hq']]%submitted_lookup Hi Hi'; [done|..|by eapply (v_disj _ _ _ _ _ _ HI)].
  - destruct (proj2 (submitted_range i Hi)). by exists h', q''.
  - destruct (proj2 (submitted_range i Hi')). by exists h, q'.
Qed.

(** The marks of the descriptors. *)
Lemma submitted_taken i : owned (<[i0 := q]> R) i -> (vd_free submitted_disk).[i] = Some 0.
Proof.
  intros Hi%submitted_owned. unfold submitted_disk, vd_free at 1.
  destruct (decide (i ∈ [i0; i1; i2])) as [Hin|Hout].
  - apply took_in; [intros; by apply submitted_range|apply (v_frees _ _ _ _ _ _ HI)|done].
  - assert (owned R i) as Ho by (rewrite !elem_of_cons, elem_of_nil in Hout; tauto).
    rewrite took_out; [by apply (v_taken _ _ _ _ _ _ HI)|by apply submitted_old|intros; by apply submitted_range|done].
Qed.

Lemma submitted_free i : 0 <= i < NUM -> ~ owned (<[i0 := q]> R) i -> (vd_free submitted_disk).[i] = Some 1.
Proof.
  intros Hi Hno. rewrite submitted_owned in Hno. unfold submitted_disk, vd_free at 1.
  rewrite took_out; [apply (v_free _ _ _ _ _ _ HI); tauto|lia|intros; by apply submitted_range|].
  rewrite !elem_of_cons, elem_of_nil. tauto.
Qed.

(** The buffers. *)
Lemma submitted_buf h q' y : <[i0 := q]> R !! h = Some q' -> alter (set_flag 1) b (vs_bufs s) !! r_b q' = Some y ->
  h = i0 /\ q' = q /\ y = set_flag 1 x \/ h <> i0 /\ R !! h = Some q' /\ vs_bufs s !! r_b q' = Some y.
Proof.
  intros [[-> ->]|[Hne Hq]]%submitted_lookup Hy; [left|right].
  - simpl in Hy. rewrite list_lookup_alter_eq, Hx in Hy. by injection Hy as <-.
  - rewrite list_lookup_alter_ne in Hy; [done|]. by apply not_eq_sym, (Hb h).
Qed.

Lemma submitted_block h q' h' q'' y y' : <[i0 := q]> R !! h = Some q' -> <[i0 := q]> R !! h' = Some q'' ->
  alter (set_flag 1) b (vs_bufs s) !! r_b q' = Some y -> alter (set_flag 1) b (vs_bufs s) !! r_b q'' = Some y' ->
  db_blockno y = db_blockno y' -> h = h'.
Proof.
  intros Hq Hq' Hy Hy' E. destruct (submitted_buf _ _ _ Hq Hy) as [(-> & -> & ->)|(_ & Hr & Hby)], (submitted_buf _ _ _ Hq' Hy')
    as [(-> & -> & ->)|(_ & Hr' & Hby')]; [done|..|by eapply (v_block _ _ _ _ _ _ HI)].
  - by destruct (Hnew h' q'' y').
  - by destruct (Hnew h q' y).
Qed.

Lemma submitted_phase : (A ++ [i0]) ++ P ++ U ≡ₚ i0 :: A ++ P ++ U.
Proof. solve_Permutation. Qed.

Lemma submitted_flag h q' y : <[i0 := q]> R !! h = Some q' -> alter (set_flag 1) b (vs_bufs s) !! r_b q' = Some y ->
  db_disk y = if decide (h ∈ (A ++ [i0]) ++ P ++ U) then 1 else 0.
Proof.
  intros Hq Hy. rewrite (decide_ext (h ∈ (A ++ [i0]) ++ P ++ U) (h ∈ i0 :: A ++ P ++ U)) by by rewrite submitted_phase.
  destruct (submitted_buf _ _ _ Hq Hy) as [(-> & -> & ->)|(Hne & Hr & Hby)].
  - rewrite decide_True; [done|constructor].
  - rewrite (v_flag _ _ _ _ _ _ HI h q' y Hr Hby). apply decide_ext. rewrite elem_of_cons. naive_solver.
Qed.

Lemma submitted_done h q' y : <[i0 := q]> R !! h = Some q' -> h ∉ A ++ [i0] -> h ∉ P ->
  alter (set_flag 1) b (vs_bufs s) !! r_b q' = Some y ->
  exists v, (vd_info submitted_disk).[h] = Some (mkInfo (Some (r_b q')) v) /\ (v = 0 <-> h ∉ F) /\
    (h ∉ F -> db_data y = blocks (vs_dev s) (db_blockno y)).
Proof.
  intros Hq HA HP Hy. rewrite elem_of_app, list_elem_of_singleton in HA.
  destruct (submitted_buf _ _ _ Hq Hy) as [(-> & _)|(Hne & Hr & Hby)]; [tauto|]. simpl.
  assert (0 <= h < NUM) as Hh by (apply (v_range _ _ _ _ _ _ HI h q' h Hr); constructor).
  destruct spare_facts as ((H0 & _) & _). rewrite list_lookup_insert_ne by lia. apply (v_done _ _ _ _ _ _ HI); tauto.
Qed.

(** The avail ring. *)
Lemma submitted_few : (length A < 8)%nat.
Proof.
  assert (length (i0 :: A) <= 8)%nat; [|simpl in *; lia]. pose proof fresh_phase as Hph. apply few.
  - apply NoDup_cons. split; [|by destruct (NoDup_part A P U (v_once _ _ _ _ _ _ HI)) as (? & _)].
    intros Hi. apply Hph. rewrite elem_of_app. tauto.
  - intros i. rewrite elem_of_cons. intros [->|Hi]; [by apply spare_facts|]. apply (known_range _ _ _ _ _ _ HI). rewrite elem_of_app. tauto.
Qed.

Lemma submitted_avail_idx : av_idx (vd_avail submitted_disk) = u16 (last_avail (vs_dev s) + Z.of_nat (length (A ++ [i0]))).
Proof.
  simpl. rewrite (v_avail_idx _ _ _ _ _ _ HI), length_app. simpl. unfold u16. Z.div_mod_to_equations. lia.
Qed.

Lemma submitted_avail k h : (A ++ [i0]) !! k = Some h ->
  (av_ring (vd_avail submitted_disk)).[(last_avail (vs_dev s) + Z.of_nat k) mod NUM] = Some h.
Proof.
  intros Hk. simpl. rewrite (v_avail_idx _ _ _ _ _ _ HI), u16_mod. pose proof submitted_few.
  apply lookup_app_Some in Hk as [Hk|[Hge Hk]].
  - assert (k < length A)%nat by by eapply lookup_lt_Some.
    rewrite list_lookup_insert_ne; [by apply (v_avail _ _ _ _ _ _ HI)|]. intros E. apply ring_inj in E; lia.
  - apply list_lookup_singleton_Some in Hk as [Hk <-]. replace k with (length A) by lia.
    apply list_lookup_insert_eq. rewrite (v_ring _ _ _ _ _ _ HI).
    pose proof (Z.mod_pos_bound (last_avail (vs_dev s) + Z.of_nat (length A)) NUM). unfold NUM in *. lia.
Qed.

Lemma submit_inv c w : same_dev_at blocks last_avail pending (vs_dev s) w ->
  vinv (mkVst c submitted_disk (alter (set_flag 1) b (vs_bufs s)) w) (<[i0 := q]> R) (A ++ [i0]) P U F.
Proof.
  intros [Ew1 Ew2 Ew3]. pose proof submitted_phase as Hperm. pose proof fresh_phase as Hph.
  split; cbn [vs_disk vs_bufs vs_dev]; rewrite ?Ew1, ?Ew2, ?Ew3.
  - cbn. rewrite !length_insert. apply HI.
  - cbn. rewrite !length_insert. apply HI.
  - apply HI.
  - cbn. rewrite !length_insert. apply HI.
  - cbn. rewrite !length_insert. apply HI.
  - cbn. rewrite !length_insert. apply HI.
  - intros h q' i [[-> ->]|[_ Hq]]%submitted_lookup Hi; [by apply submitted_range|by eapply (v_range _ _ _ _ _ _ HI)].
  - intros h q' [[-> ->]|[_ Hq]]%submitted_lookup; [apply Hsp|by eapply (v_nodup _ _ _ _ _ _ HI)].
  - exact submitted_disj.
  - exact submitted_taken.
  - exact submitted_free.
  - intros h q' [[-> ->]|[_ Hq]]%submitted_lookup; [eexists; apply submitted_mine|by apply submitted_others].
  - exact submitted_block.
  - rewrite Hperm. apply NoDup_cons. split; [done|apply HI].
  - intros h. rewrite Hperm, elem_of_cons. intros [->|Hh]; [rewrite lookup_insert_eq; eauto|].
    destruct (v_known _ _ _ _ _ _ HI h Hh) as [q' Hq']. exists q'. rewrite lookup_insert_ne; [done|]. by intros <-.
  - exact submitted_flag.
  - exact submitted_done.
  - apply HI.
  - exact submitted_avail_idx.
  - exact submitted_avail.
  - apply HI.
  - apply HI.
  - apply HI.
  - apply HI.
  - apply HI.
Qed.

Lemma submit_ok : wp (submit b write (2 * db_blockno x) (i0, i1, i2) (took [i0; i1; i2] s)) (fun _ s' =>
  vinv s' (<[i0 := q]> R) (A ++ [i0]) P U F /\ vs_bufs s' = alter (set_flag 1) b (vs_bufs s) /\
  blocks (vs_dev s') = blocks (vs_dev s) /\ cx_hart (vs_ctx s') = cx_hart (vs_ctx s) /\
  vd_lock (vs_disk s') = vd_lock (vs_disk s)).
Proof.
  destruct spare_facts as ((H0 & H1 & H2) & _).
  pose proof (v_desc _ _ _ _ _ _ HI) as L1. pose proof (v_ring _ _ _ _ _ _ HI) as L2. pose proof (v_infos _ _ _ _ _ _ HI) as L5.
  pose proof (v_ops _ _ _ _ _ _ HI) as L6.
  destruct (lookup_lt_is_Some_2 (vd_info (vs_disk s)) (Z.to_nat i0)) as [o Ho]; [rewrite L5; unfold NUM in *; lia|].
  assert (forall i, 0 <= i < NUM -> u16 i = i) as Hu by (intros; apply u16_id; unfold NUM in *; lia).
  assert (0 <= av_idx (vd_avail (vs_disk s)) mod NUM < NUM) as Hidx by (apply Z.mod_pos_bound; unfold NUM; lia).
  unfold submit. kstep. apply wp_set_elt'; [lia|done|]. intros e1 E1. kstep. apply wp_set_elt'; [lia|by rewrite E1|]. intros e2 E2.
  kstep. apply wp_set_elt'; [lia|rewrite E2, E1; simpl; by rewrite length_insert|]. intros e3 E3.
  kstep. apply (wp_elt infoL i0 o); [lia|by rewrite E3, E2, E1|].
  kstep. apply wp_set_elt'; [lia|by rewrite E3, E2, E1|]. intros e4 E4.
  kstep. apply wp_set_elt'; [lia|rewrite E4, E3, E2, E1; simpl; by rewrite !length_insert|]. intros e5 E5.
  kstep. apply (wp_set_disk b 1 x); [done|]. kstep. unfold set_bufs. cbn [vs_ctx vs_disk vs_bufs vs_dev].
  assert (view infoL e5 = <[Z.to_nat i0 := mkInfo (in_b o) 0xff]> (vd_info (vs_disk s))) as Ei by by rewrite E5, E4, E3, E2, E1.
  apply (wp_elt infoL i0 (mkInfo (in_b o) 0xff)); [lia|cbn [vs_disk]; rewrite Ei; apply list_lookup_insert_eq; rewrite L5; unfold NUM in *; lia|].
  kstep. apply wp_set_elt'; [lia|rewrite Ei; by rewrite length_insert|]. intros e6 E6. unfold fld, set_fld, set_reg. do 2 kstep.
  assert (vd_avail e6 = vd_avail (vs_disk s)) as Ea by by rewrite E6, E5, E4, E3, E2, E1.
  kstep. apply wp_set_elt'; [by simpl; rewrite Ea|by simpl; rewrite Ea|]. intros e7 E7. do 5 kstep.
  set (w := wr32 _ _ _). pose proof (dev_notify (u32 0) (vs_dev s) : same_dev_at _ _ _ _ w) as Hw. clearbody w.
  assert (over avail_idxL (u16 (view avail_idxL e7 + 1)) e7 = submitted_disk) as Ed.
  { unfold submitted_disk, d0, d1, d2. rewrite E7, E6, Ei, E5, E4, E3, E2, E1, (Hu i0), (Hu i1), (Hu i2) by done. simpl. by rewrite list_insert_insert_eq. }
  split_and!; [|done|apply Hw|done|].
  - pose proof (submit_inv (vs_ctx s) w Hw) as Hinv. rewrite <- Ed in Hinv. exact Hinv.
  - simpl. by rewrite E7, E6, E5, E4, E3, E2, E1.
Qed.
End submit.

(** ** Finishing a request *)
Section finish.
Context (s : st) (R : gmap Z req) (A P U F : list Z) (HI : vinv s R A P U F).
Context (h : Z) (q : req) (Hq : R !! h = Some q).

(** The driver's last look at the request. *)
Definition forgotten (v : Z) : st :=
  upd_disk (fun d => over infoL (<[Z.to_nat h := mkInfo None v]> (vd_info d)) d) s.

Lemma delete_owned i : 0 <= i -> owned (delete h R) i <-> owned R i /\ i ∉ chain h q.
Proof.
  intros _. split.
  - intros (h' & q' & Hq' & Hi). apply lookup_delete_Some in Hq' as [Hne Hq']. split; [by exists h', q'|].
    intros Hi'. by apply Hne, (v_disj _ _ _ _ _ _ HI h q h' q' i).
  - intros [(h' & q' & Hq' & Hi) Hout]. exists h', q'. split; [|done]. apply lookup_delete_Some. split; [|done].
    intros <-. assert (q' = q) as -> by congruence. done.
Qed.

Lemma finish_inv v s' : h ∉ A ++ P ++ U -> freed (chain h q) (forgotten v) s' -> vinv s' (delete h R) A P U F.
Proof.
  intros Hph [Hr Hd Hf E1 E2 E3 _]. injection Hr as R1 R2 R3 R4 R5 R6 R7 R8 R9. simpl in *.
  assert (forall h' q', delete h R !! h' = Some q' -> h' <> h /\ R !! h' = Some q') as Hdel.
  { intros h' q' H. apply lookup_delete_Some in H as [H1 H2]. split; [congruence|done]. }
  assert (forall h' q' i, delete h R !! h' = Some q' -> i ∈ chain h' q' -> 0 <= i < NUM /\ i ∉ chain h q) as Hch.
  { intros h' q' i H Hi. destruct (Hdel _ _ H) as [_ H']. pose proof (v_range _ _ _ _ _ _ HI h' q' i H' Hi). split; [done|].
    apply delete_owned; [lia|]. by exists h', q'. }
  assert (forall h' q', delete h R !! h' = Some q' -> (vd_info (vs_disk s')).[h'] = (vd_info (vs_disk s)).[h']) as Einfo.
  { intros h' q' H. destruct (Hdel _ _ H) as [Hne H']. rewrite R4. apply list_lookup_insert_ne, to_nat_ne; [| |done].
    - apply (head_range _ _ _ _ _ _ HI h); eauto.
    - apply (head_range _ _ _ _ _ _ HI h'); eauto. }
  destruct HI. split; rewrite ?R1, ?R2, ?R3, ?R5, ?R7, ?R8; try done.
  - by rewrite R4, length_insert.
  - intros h' q' i H Hi. by apply (Hch h' q').
  - intros h' q' H. apply Hdel in H as [_ H]. by apply v_nodup.
  - intros h1 q1 h2 q2 i H1' H2'. apply Hdel in H1' as [_ H1'], H2' as [_ H2']. by apply v_disj.
  - intros i Hi. assert (0 <= i) as H0 by (destruct Hi as (h' & q' & H & Hi); destruct (Hch h' q' i H Hi); lia).
    apply delete_owned in Hi as [Ho Hi]; [|done]. rewrite E3 by done. by apply v_taken.
  - intros i Hi Hno. rewrite delete_owned in Hno by lia. destruct (decide (i ∈ chain h q)) as [Hin|Hout]; [by apply E2|].
    rewrite E3 by (done || lia). apply v_free; [done|]. tauto.
  - intros h' q' H. pose proof (Einfo h' q' H) as Ei. pose proof (Hdel _ _ H) as [_ H'].
    destruct (v_req h' q' H') as [x [B1 B2 B3 B4 B5 B6 B7]]. exists x.
    assert (forall i, i ∈ chain h' q' -> (vd_desc (vs_disk s')).[i] = (vd_desc (vs_disk s)).[i]) as Ed.
    { intros i Hi. destruct (Hch h' q' i H Hi). apply E1; [lia|done]. }
    split; rewrite ?R5, ?R7, ?Ei; try done; rewrite Ed; try done; unfold chain; rewrite !elem_of_cons; tauto.
  - intros h1 q1 h2 q2 x1 x2 H1' H2'. apply Hdel in H1' as [_ H1'], H2' as [_ H2']. by apply v_block.
  - intros i Hi. destruct (v_known i Hi) as [q' Hq']. exists q'. apply lookup_delete_Some. split; [|done]. by intros <-.
  - intros h' q' x H. apply Hdel in H as [_ H]. by apply v_flag.
  - intros h' q' x H. rewrite (Einfo h' q' H). apply Hdel in H as [_ H]. by apply v_done.
Qed.

Lemma free_chain_ok v : wp (free_chain h (forgotten v)) (fun _ s' => freed (chain h q) (forgotten v) s').
Proof.
  set (s0 := forgotten v). destruct (v_req _ _ _ _ _ _ HI h q Hq) as [x [_ _ B0 B1 B2 _ _]].
  pose proof (v_nodup _ _ _ _ _ _ HI h q Hq) as Hnd.
  assert (forall i, i ∈ chain h q -> 0 <= i < NUM) as Hr by (intros; by eapply (v_range _ _ _ _ _ _ HI)).
  assert (forall i, i ∈ chain h q -> (vd_free (vs_disk s0)).[i] = Some 0) as Ht.
  { intros i Hi. apply (v_taken _ _ _ _ _ _ HI). by exists h, q. }
  assert (forall d i rest nx fl s1, chain h q = d ++ i :: rest -> freed d s0 s1 ->
    (exists a n, (vd_desc (vs_disk s)).[i] = Some (mkDesc a n fl nx)) ->
    wp ((d <- elt descL i;; let flag := d_flags d in let nxt := d_next d in free_desc i;;
         if negb (Z.land flag VRING_DESC_F_NEXT =? 0) then ret (inl nxt) else ret (inr tt)) s1)
      (fun r s2 => freed (d ++ [i]) s0 s2 /\ r = if negb (Z.land fl VRING_DESC_F_NEXT =? 0) then inl nx else inr tt)) as Hone.
  { intros d i rest nx fl s1 Hc Hfr (a & n & Hdesc). assert (i ∈ chain h q) as Hi by (rewrite Hc, elem_of_app, elem_of_cons; tauto).
    assert (i ∉ d) as Hid.
    { rewrite Hc in Hnd. apply NoDup_app in Hnd as (_ & Hdd & _). intros Hin. apply (Hdd i Hin). constructor. }
    kstep. eapply (wp_elt descL); [apply (Hr i Hi)| |].
    { simpl. rewrite (fd_desc _ _ _ Hfr) by (done || apply (Hr i Hi)). exact Hdesc. }
    cbn [d_flags d_next]. kstep. eapply wp_mono; [|apply (free_desc_ok d s0 s1 i Hfr); [|apply (Hr i Hi)|done|by apply Ht]].
    - intros ? s2 Hfr2. by destruct (negb _); kstep.
    - intros j Hj. apply Hr. rewrite Hc, elem_of_app. by left. }
  unfold free_chain.
  apply (wp_while_ghost _ (fun (d : list Z) i s1 => freed d s0 s1 /\ exists rest, chain h q = d ++ i :: rest) (fun d => 3 - Z.of_nat (length d))) with (g := []).
  - intros d i s1 (Hfr & rest & Hc). assert (length d < 3)%nat as Hlen.
    { apply (f_equal length) in Hc. rewrite length_app in Hc. simpl in Hc. lia. }
    destruct d as [|e0 [|e1 [|e2 [|]]]]; simpl in Hlen; try lia; injection Hc; intros; subst.
    + eapply wp_mono; [|eapply (Hone [] h); [done|done|eauto]]. intros ? s2 [Hfr2 ->]. simpl. exists [h].
      split; [|simpl; lia]. split; [done|]. by eexists.
    + eapply wp_mono; [|eapply (Hone [h] (r_1 q)); [done|done|eauto]]. intros ? s2 [Hfr2 ->].
      assert (negb (Z.land (Z.lor (if r_write q then 0 else VRING_DESC_F_WRITE) VRING_DESC_F_NEXT) VRING_DESC_F_NEXT =? 0) = true) as ->
        by by destruct (r_write q). exists [h; r_1 q]. split; [|simpl; lia]. split; [done|]. by eexists.
    + eapply wp_mono; [|eapply (Hone [h; r_1 q] (r_2 q)); [done|done|eauto]]. intros ? s2 [Hfr2 ->]. done.
  - intros d i s1 (_ & rest & Hc). apply (f_equal length) in Hc. rewrite length_app in Hc. simpl in Hc. lia.
  - split; [|by eexists]. apply freed_nil; apply HI.
  - unfold budget. simpl. lia.
Qed.
End finish.

(** ** virtio_disk_rw between two sleeps *)

(** The request of buffer [b] may be made: it is the only one for its block. *)
Record may_go s (R : gmap Z req) (b : nat) (x : dbuf) : Prop := {
  mg_buf : vs_bufs s !! b = Some x;
  mg_block : 0 <= db_blockno x < 2 ^ 31;
  mg_fresh : forall h q, R !! h = Some q -> r_b q <> b;
  mg_alone : forall h q y, R !! h = Some q -> vs_bufs s !! r_b q = Some y -> db_blockno y <> db_blockno x
}.

(** Three descriptors can be taken. *)
Definition room (R : gmap Z req) : Prop := exists l, length l = 3%nat /\ spare R l.

(** A process asleep for its request: when the flag of the buffer is cleared,
    which is when the request is done, it goes on to return, the request is gone,
    and the processes that wait for descriptors are woken. *)
Definition finish_spec (h : Z) (q : req) (rdy : st -> bool) (k : K st unit) : Prop :=
  forall s R A P U F, at_rest s -> vinv s R A P U F -> R !! h = Some q -> (rdy s = true <-> h ∉ A ++ P ++ U) /\
  (rdy s = true -> exists s', k s = Done tt s' /\ at_rest s' /\ vinv s' (delete h R) A P U F /\
    vs_bufs s' = vs_bufs s /\ vs_dev s' = vs_dev s /\ ChanDesc ∈ cx_wakes (vs_ctx s')).

(** The outcome of code that makes the request and goes to sleep for it. *)
Definition submits (b : nat) (write : bool) (o : outcome st unit) s R A P U F : Prop :=
  exists s' rdy k h q, o = Wait (Some (ChanBuf (Z.of_nat b))) s' rdy k /\ at_rest s' /\ R !! h = None /\ r_b q = b /\ r_write q = write /\
    vinv s' (<[h := q]> R) (A ++ [h]) P U F /\ vs_bufs s' = alter (set_flag 1) b (vs_bufs s) /\
    (room (<[h := q]> R) -> room R) /\ finish_spec h q rdy k.

(** A process asleep for descriptors. *)
Definition wait_spec (b : nat) (write : bool) (blockno : Z) (rdy : st -> bool) (k : K st unit) : Prop :=
  forall s R A P U F x, at_rest s -> vinv s R A P U F -> may_go s R b x -> db_blockno x = blockno ->
  (rdy s = true <-> room R) /\ (rdy s = true -> submits b write (k s) s R A P U F).

Definition after_alloc (b : nat) (write : bool) (sector : Z) (idx : Z * Z * Z) : K st unit :=
  submit b write sector idx;;
  sleep_until vH vL (ChanBuf (Z.of_nat b)) (fun s =>
    match vs_bufs s !! b with Some x => negb (db_disk x =? 1) | None => true end);;
  let idx0 := idx.1.1 in
  info <- elt infoL idx0;;
  set_elt infoL idx0 (mkInfo None (in_status info));;
  free_chain idx0;;
  release vH vL.

Lemma rest_unlocked h s : inside_lock vH vL h s -> at_rest (unlocked vH vL h s) /\ core (unlocked vH vL h s) = core s.
Proof. intros Hin. destruct (leave h s Hin) as (s1 & E & H1 & H2 & _). pose proof (release_leave vH vL h s Hin) as E'. rewrite E in E'. by injection E' as ->. Qed.

Lemma sleep_until_waits c ready h s : inside_lock vH vL h s -> ready s = false ->
  sleep_until vH vL c ready s = Wait (Some c) (unlocked vH vL h s)
    (fun s2 => ready s2 && (lk_locked (view vL s2) =? 0)) (fun s2 => acquire vH vL s2).
Proof.
  intros Hin E. unfold sleep_until. rewrite E. pose proof Hin as (Hh & Hn & EH & EL). rewrite EH. simpl noff. rewrite Hn.
  cbn [Z.add Z.eqb Pos.eqb negb]. by erewrite bind_Done by exact (release_leave vH vL h s Hin).
Qed.

Section segments.
Context (s : st) (R : gmap Z req) (A P U F : list Z) (b : nat) (x : dbuf) (write : bool) (hh : hart).
Context (Hgo : may_go s R b x) (HI : vinv s R A P U F) (Hin : inside_lock vH vL hh s).

Lemma finish_run h q (rdy := fun s2 : st => (match vs_bufs s2 !! b with Some x => negb (db_disk x =? 1) | None => true end) &&
    (lk_locked (view vL s2) =? 0)) : r_b q = b ->
  finish_spec h q rdy (fun s2 => obind (acquire vH vL s2) (fun _ =>
    info <- elt infoL h;; set_elt infoL h (mkInfo None (in_status info));; free_chain h;; release vH vL)).
Proof.
  intros Hb s2 R2 A2 P2 U2 F2 Hrest HI2 Hq.
  assert (rdy s2 = true <-> h ∉ A2 ++ P2 ++ U2) as Hrdyiff.
  { unfold rdy. pose proof Hrest as [_ [El _]]. simpl view. rewrite El, andb_true_r. subst b.
    destruct (v_req _ _ _ _ _ _ HI2 h q Hq) as [y Hy]. apply rk_buf in Hy. rewrite Hy, (v_flag _ _ _ _ _ _ HI2 h q y Hq Hy).
    by case_decide. }
  split; [done|]. intros Hph%Hrdyiff. clear Hrdyiff.
  destruct (enter s2 Hrest) as (s3 & -> & Hin3 & Hcore). simpl. pose proof (core_inv _ _ _ _ _ _ _ Hcore HI2) as HI3.
  injection Hcore as C1 C2 C3 C4 C5 C6 C7 C8 C9. destruct (v_req _ _ _ _ _ _ HI3 h q Hq) as [y [B1 _ _ _ _ _ [v B7]]].
  pose proof (head_range _ _ _ _ _ _ HI3 h ltac:(eauto)) as Hh.
  assert (wp ((info <- elt infoL h;; set_elt infoL h (mkInfo None (in_status info));; free_chain h;; release vH vL) s3)
    (fun _ s' => at_rest s' /\ vinv s' (delete h R2) A2 P2 U2 F2 /\ vs_bufs s' = vs_bufs s2 /\ vs_dev s' = vs_dev s2 /\
      ChanDesc ∈ cx_wakes (vs_ctx s'))) as Hwp.
  { kstep. eapply (wp_elt infoL h); [lia|exact B7|]. kstep. apply wp_set_elt; [lia|apply HI3|].
    cbn [in_status]. kstep. eapply wp_mono; [|eapply (free_chain_ok s3 R2 A2 P2 U2 F2 HI3 h q Hq v)].
    intros ? s4 Hfr. pose proof (finish_inv s3 R2 A2 P2 U2 F2 HI3 h q Hq v s4 Hph Hfr) as HI4.
    assert (inside_lock vH vL (cx_hart (vs_ctx s2)) s4) as Hin4.
    { eapply (stay_rest _ (forgotten s3 h v)); [by eapply stay|apply Hfr]. }
    destruct (leave _ s4 Hin4) as (s5 & -> & Hrest5 & Hcore5 & Hw5). cbn [wp].
    pose proof (fd_rest _ _ _ Hfr) as E. injection E as _ _ _ _ _ _ E7 E8 _.
    injection Hcore5 as D1 D2 D3 D4 D5 D6 D7 D8 D9. split; [done|]. split; [|split; [simpl in *; congruence|split; [simpl in *; congruence|]]].
    - eapply core_inv; [|done]. unfold core. simpl. congruence.
    - rewrite Hw5, (fd_wakes _ _ _ Hfr). simpl. apply elem_of_cons. by left. }
  apply wp_inv in Hwp as ([] & s' & -> & H). exists s'. done.
Qed.

Lemma after_alloc_submits i0 i1 i2 : spare R [i0; i1; i2] ->
  submits b write (after_alloc b write (2 * db_blockno x) (i0, i1, i2) (took [i0; i1; i2] s)) s R A P U F.
Proof.
  intros Hsp. destruct Hgo as [Hx Hblk Hb Hal].
  pose proof (submit_ok s R A P U F HI b x write i0 i1 i2 Hx Hblk Hb Hal Hsp) as Hsub.
  apply wp_inv in Hsub as ([] & s1 & E & HI1 & Hbufs & Hbl & Hhart & Hlk).
  assert (inside_lock vH vL hh s1) as Hin1 by by eapply stay.
  destruct (rest_unlocked hh s1 Hin1) as [Hrest Hcore].
  unfold after_alloc. erewrite bind_Done by exact E. unfold bind at 1.
  erewrite sleep_until_waits; [|exact Hin1|by rewrite Hbufs, list_lookup_alter_eq, Hx]. simpl.
  eexists _, _, _, i0, (mkRq b write i1 i2). split; [done|].
  split_and!; [exact Hrest|by eapply fresh_head_none|done|done|by eapply core_inv|exact Hbufs| |by apply finish_run].
  intros (l & Hlen & Hnd & Hl). exists l. split; [done|]. split; [done|]. intros i Hi. destruct (Hl i Hi) as [Hr Hno]. split; [done|].
  intros (h' & q' & Hq' & Hi'). apply Hno. exists h', q'. split; [|done]. rewrite lookup_insert_ne; [done|].
  intros <-. apply (proj2 (proj2 Hsp i0 ltac:(constructor))). exists i0, q'. split; [done|constructor].
Qed.

Definition alloc_round (_ : unit) : K st (unit + Z * Z * Z) :=
  r <- alloc3_desc;;
  match r with
  | Some [i0; i1; i2] => ret (inr (i0, i1, i2))
  | _ => sleep_until vH vL ChanDesc can_alloc3;; ret (inl tt)
  end.

(** A round takes three spare descriptors when there are three. *)
Lemma alloc_round_now : room R -> exists i0 i1 i2, spare R [i0; i1; i2] /\
  alloc_round tt s = Done (inr (i0, i1, i2)) (took [i0; i1; i2] s).
Proof.
  intros Hex. pose proof (alloc3_ok s R A P U F HI) as H. apply wp_inv in H as ([l|] & s' & E & Hr); [|by destruct Hr].
  destruct Hr as (i0 & i1 & i2 & -> & Hsp & ->). exists i0, i1, i2. split; [done|]. unfold alloc_round.
  by erewrite bind_Done by exact E.
Qed.

Lemma alloc_round_sleeps : ~ room R -> exists s', inside_lock vH vL hh s' /\
  vinv s' R A P U F /\ rest_of s' = rest_of s /\
  alloc_round tt s = Wait (Some ChanDesc) (unlocked vH vL hh s') (fun s2 => can_alloc3 s2 && (lk_locked (view vL s2) =? 0))
    (fun s2 => obind (acquire vH vL s2) (fun _ => ret (inl tt))).
Proof.
  intros Hno. pose proof (alloc3_ok s R A P U F HI) as H. apply wp_inv in H as ([l|] & s' & E & Hr).
  { destruct Hr as (i0 & i1 & i2 & -> & Hsp & _). destruct Hno. by exists [i0; i1; i2]. }
  destruct Hr as (_ & HI' & Hrest). exists s'. assert (inside_lock vH vL hh s') as Hin' by by eapply stay_rest.
  split_and!; [done..|]. unfold alloc_round. erewrite bind_Done by exact E. unfold bind.
  erewrite sleep_until_waits; [done|exact Hin'|]. destruct (can_alloc3 s') eqn:Ec; [|done].
  destruct Hno. by apply (can_alloc3_true s' R A P U F).
Qed.
End segments.

Lemma no_spare_dec s R A P U F : vinv s R A P U F -> Decision (room R).
Proof.
  intros HI. destruct (can_alloc3 s) eqn:E; [left; by apply (can_alloc3_true s R A P U F)|right].
  intros Hex. by rewrite (can_alloc3_spare s R A P U F HI Hex) in E.
Qed.

Lemma sector_of n : 0 <= n < 2 ^ 31 -> u32 (n * (BSIZE / 512)) = 2 * n.
Proof. intros Hn. change (BSIZE / 512) with 2. rewrite Z.mul_comm. apply u32_id. lia. Qed.

Lemma may_go_core s s' R b x : core s' = core s -> may_go s R b x -> may_go s' R b x.
Proof. intros [= _ _ _ _ _ _ _ E _] [H1 H2 H3 H4]. split; rewrite ?E; done. Qed.

(** A call of virtio_disk_rw makes its request, or waits for descriptors. *)
Lemma rw_start s R A P U F b x write : at_rest s -> vinv s R A P U F -> may_go s R b x ->
  submits b write (virtio_disk_rw b write s) s R A P U F \/
  ~ room R /\ exists s' rdy k, virtio_disk_rw b write s = Wait (Some ChanDesc) s' rdy k /\ at_rest s' /\ vinv s' R A P U F /\
    vs_bufs s' = vs_bufs s /\ wait_spec b write (db_blockno x) rdy k.
Proof.
  intros Hrest HI Hgo. destruct (enter s Hrest) as (s1 & E1 & Hin1 & Hcore1).
  pose proof (core_inv _ _ _ _ _ _ _ Hcore1 HI) as HI1. pose proof (may_go_core _ _ _ _ _ Hcore1 Hgo) as Hgo1.
  assert (virtio_disk_rw b write s = bind alloc3_wait (after_alloc b write (2 * db_blockno x)) s1) as ->.
  { unfold virtio_disk_rw. rewrite (bind_Done (bufp b) _ s x s); [|unfold bufp; by rewrite (mg_buf _ _ _ _ Hgo)].
    erewrite bind_Done by exact E1. rewrite sector_of by apply Hgo. done. }
  assert (vs_bufs s1 = vs_bufs s) as Eb by by injection Hcore1.
  destruct (no_spare_dec s1 R A P U F HI1) as [Hex|Hno].
  - left. destruct (alloc_round_now s1 R A P U F HI1 Hex) as (i0 & i1 & i2 & Hsp & E2).
    assert (alloc3_wait s1 = Done (i0, i1, i2) (took [i0; i1; i2] s1)) as E3 by by apply while_exit.
    erewrite bind_Done by exact E3. destruct (after_alloc_submits s1 R A P U F b x write _ Hgo1 HI1 Hin1 i0 i1 i2 Hsp)
      as (s' & rdy & k & h & q & H). exists s', rdy, k, h, q. by rewrite <- Eb.
  - right. split; [done|]. destruct (alloc_round_sleeps s1 R A P U F _ HI1 Hin1 Hno) as (s2 & Hin2 & HI2 & Hr2 & E2).
    destruct (while_sleep budget alloc_round tt s1 _ _ _ _ E2) as (k & Ek & Hk); [done|].
    assert (alloc3_wait s1 = Wait (Some ChanDesc) (unlocked vH vL (cx_hart (vs_ctx s)) s2)
      (fun s2 => can_alloc3 s2 && (lk_locked (view vL s2) =? 0)) k) as E3 by exact Ek.
    unfold bind. rewrite E3. simpl. destruct (rest_unlocked _ s2 Hin2) as [Hrest2 Hcore2].
    eexists _, _, _. split; [done|]. split; [done|]. split; [by eapply core_inv|].
    split; [injection Hr2 as _ _ _ _ _ _ E7 _ _; simpl in *; congruence|].
    intros s3 R3 A3 P3 U3 F3 y Hrest3 HI3 Hgo3 Hblk.
    assert (can_alloc3 s3 && (lk_locked (view vL s3) =? 0) = true <-> room R3) as Hiff.
    { pose proof Hrest3 as [_ [El _]]. simpl view. rewrite El, andb_true_r.
      split; [by apply (can_alloc3_true s3 R3 A3 P3 U3 F3)|by apply (can_alloc3_spare s3 R3 A3 P3 U3 F3)]. }
    split; [done|]. intros Hex%Hiff. destruct (enter s3 Hrest3) as (s4 & E4 & Hin4 & Hcore4).
    pose proof (core_inv _ _ _ _ _ _ _ Hcore4 HI3) as HI4. pose proof (may_go_core _ _ _ _ _ Hcore4 Hgo3) as Hgo4.
    destruct (alloc_round_now s4 R3 A3 P3 U3 F3 HI4 Hex) as (i0 & i1 & i2 & Hsp & E5).
    rewrite (Hk s3 tt s4 (i0, i1, i2) (took [i0; i1; i2] s4)); [|by rewrite E4|done]. simpl. rewrite <- Hblk.
    destruct (after_alloc_submits s4 R3 A3 P3 U3 F3 b y write _ Hgo4 HI4 Hin4 i0 i1 i2 Hsp)
      as (s' & rdy & k' & h & q & H). exists s', rdy, k', h, q. assert (vs_bufs s4 = vs_bufs s3) as <- by by injection Hcore4. done.
Qed.

(** A process that was woken too early leaves everything as it was. *)
Lemma retry_ok ch s R A P U F : at_rest s -> vinv s R A P U F -> (ch = Some ChanDesc -> ~ room R) ->
  exists s', retry ch s = Done tt s' /\ at_rest s' /\ vinv s' R A P U F /\ vs_bufs s' = vs_bufs s.
Proof.
  intros Hrest HI Hch. destruct (enter s Hrest) as (s1 & E1 & Hin1 & Hcore1). pose proof (core_inv _ _ _ _ _ _ _ Hcore1 HI) as HI1.
  assert (vs_bufs s1 = vs_bufs s) as Eb by by injection Hcore1.
  assert (exists s2, (match ch with Some ChanDesc => _ <- alloc3_desc;; ret tt | _ => ret tt end) s1 = Done tt s2 /\
    inside_lock vH vL (cx_hart (vs_ctx s)) s2 /\ vinv s2 R A P U F /\ vs_bufs s2 = vs_bufs s) as (s2 & E2 & Hin2 & HI2 & Eb2).
  { assert (exists s2, ret tt s1 = Done tt s2 /\ inside_lock vH vL (cx_hart (vs_ctx s)) s2 /\ vinv s2 R A P U F /\ vs_bufs s2 = vs_bufs s) as Hret
      by by exists s1.
    destruct ch as [[]|]; try exact Hret. clear Hret.
    pose proof (alloc3_ok s1 R A P U F HI1) as H. apply wp_inv in H as ([l|] & s2 & E & Hr).
    { destruct Hr as (i0 & i1 & i2 & -> & Hsp & _). destruct (Hch eq_refl). by exists [i0; i1; i2]. }
    destruct Hr as (_ & HI2 & Hr2). exists s2. split; [by erewrite bind_Done by exact E|]. split; [by eapply stay_rest|]. split; [done|].
    rewrite <- Eb. by injection Hr2. }
  destruct (leave _ s2 Hin2) as (s3 & E3 & Hrest3 & Hcore3 & _). exists s3. unfold retry.
  erewrite bind_Done by exact E1. erewrite bind_Done by exact E2. split; [done|]. split; [done|]. split; [by eapply core_inv|].
  rewrite <- Eb2. by injection Hcore3.
Qed.
End spec.
