(* ===== verification/VirtioSys.v ===== *)
(** * The disk as the buffer cache sees it (kernel/virtio_disk.c)

    The system of processes in virtio_disk_rw, the interrupt handler and the
    device, as a step relation.  A process runs the code of Virtio.v from one sleep
    to the next (the lock keeps the others out); asleep, it is the continuation the
    code left behind, on a channel, and runs again only after a wakeup on that
    channel: the wakeups are those the code of the other runs made.  The theorems
    say that a process returns with the block transferred, whatever the others do
    meanwhile; that the processes do return, and no wakeup is lost; and that a
    panic stops the system only when the device reported an error. *)
From S2P Require Import Prelude Machine Spinlock Block Virtio VirtioInv VirtioSpec.
Local Open Scope Z_scope.
Local Open Scope kernel_scope.

Section system.
Context {W : Type} `{MM : !Mmio W} `{VD : !VirtioDev W}.
Notation st := (vst W).
Implicit Types s : st.
Notation "l .[ i ]" := (l !! Z.to_nat i) (at level 1, format "l .[ i ]").
Context (dev : st -> st -> Prop) (pages : Z).

(** A process asleep in virtio_disk_rw(b, write), with the data and the block
    number the buffer had when it was called: where it sleeps, how it goes on, and
    whether it has been woken. *)
Record call := mkCall {
  c_buf : nat; c_write : bool; c_data : list Z; c_block : Z;
  c_chan : option chan; c_rdy : st -> bool; c_k : K st unit; c_woken : bool
}.
Definition set_woken (v : bool) (cl : call) : call :=
  mkCall (c_buf cl) (c_write cl) (c_data cl) (c_block cl) (c_chan cl) (c_rdy cl) (c_k cl) v.

Record cfg := mkCfg { g_s : st; g_p : gmap nat call }.

(** The wakeups of a run, in the order latest first, reach the processes asleep on
    their channels. *)
Definition hears (l : list chan) (cl : call) : bool :=
  match c_chan cl with Some ch => bool_decide (ch ∈ l) | None => false end.
Definition wake (l : list chan) (p : gmap nat call) : gmap nat call :=
  (fun cl => set_woken (c_woken cl || hears l cl) cl) <$> p.

(** The system after a run of the code; [p] is what becomes of the processes.  A
    panic stops it. *)
Definition run (o : outcome st unit) (p : gmap nat call -> gmap nat call) (p0 : gmap nat call) : cfg + string :=
  match o with
  | Done _ s => inl (mkCfg s (p (wake (cx_wakes (vs_ctx s)) p0)))
  | Panic msg => inr msg
  | _ => inr "no result"
  end.

(** After process [i] ran: it returned, or it sleeps. *)
Definition after (i : nat) (asleep : option chan -> (st -> bool) -> K st unit -> bool -> call)
    (o : outcome st unit) (p : gmap nat call) : cfg + string :=
  match o with
  | Wait ch s rdy k => inl (mkCfg s (<[i := asleep ch rdy k false]> (wake (cx_wakes (vs_ctx s)) p)))
  | _ => run o (delete i) p
  end.

(** A run starts on a hart that holds no lock; it has woken nobody yet. *)
Definition start_ctx (c : ctx) : Prop := ctx_ok c /\ cx_wakes c = [].

(** What the processes in the driver, the interrupt handler and the device do.  A
    process that was woken runs: if what it waited for has happened it goes on
    ([Resume]), otherwise it goes back to sleep ([Again]). *)
Inductive label := Resume | Again | Intr | Dev.
Inductive act (g : cfg) : label -> cfg + string -> Prop :=
| a_resume i cl c : g_p g !! i = Some cl -> c_woken cl = true -> start_ctx c -> c_rdy cl (set_ctx c (g_s g)) = true ->
    act g Resume (after i (mkCall (c_buf cl) (c_write cl) (c_data cl) (c_block cl)) (c_k cl (set_ctx c (g_s g))) (g_p g))
| a_again i cl c : g_p g !! i = Some cl -> c_woken cl = true -> start_ctx c -> c_rdy cl (set_ctx c (g_s g)) = false ->
    act g Again (run (retry (c_chan cl) (set_ctx c (g_s g))) (<[i := set_woken false cl]>) (g_p g))
| a_intr c : start_ctx c -> act g Intr (run (virtio_disk_intr (set_ctx c (g_s g))) id (g_p g))
| a_dev s : dev (g_s g) s -> act g Dev (inl (mkCfg s (g_p g))).

(** And what processes do that are not in the driver. *)
Inductive step (g : cfg) : cfg + string -> Prop :=
| s_act l o : act g l o -> step g o
| s_call i b x write c : g_p g !! i = None -> start_ctx c -> vs_bufs (g_s g) !! b = Some x -> 0 <= db_blockno x < 2 ^ 31 ->
    (* the buffer cache has one buffer per block, and one process that uses it *)
    (forall j cl, g_p g !! j = Some cl -> c_buf cl <> b /\ c_block cl <> db_blockno x) ->
    step g (after i (mkCall b write (db_data x) (db_blockno x)) (virtio_disk_rw b write (set_ctx c (g_s g))) (g_p g))
| s_use b x y : vs_bufs (g_s g) !! b = Some x -> (forall j cl, g_p g !! j = Some cl -> c_buf cl <> b) ->
    (* a process uses a buffer it holds outside the driver *)
    db_disk y = db_disk x -> step g (inl (mkCfg (set_bufs (<[b := y]> (vs_bufs (g_s g))) (g_s g)) (g_p g))).

(** struct disk before initialization: zeroes, in arrays of NUM elements. *)
Definition static_disk (s : st) : Prop :=
  vd_used_idx (vs_disk s) = 0 /\ length (vd_free (vs_disk s)) = 8%nat /\ length (vd_info (vs_disk s)) = 8%nat /\
  length (vd_ops (vs_disk s)) = 8%nat.

(** After virtio_disk_init() the device has nothing to do. *)
Inductive reachable : cfg -> Prop :=
| r_init s s' : static_disk s -> virtio_disk_init pages s = Done tt s' ->
    last_avail (vs_dev s') = 0 -> pending (vs_dev s') = [] -> reachable (mkCfg s' ∅)
| r_step g g' : reachable g -> step g (inl g') -> reachable g'.

(** ** The invariant of the system

    [ph] are the heads of the requests that are not done.  A process that has not
    been woken has nothing to wake up for: no wakeup is lost. *)
Definition entry (s : st) (R : gmap Z req) (ph : list Z) (cl : call) : Prop :=
  exists x, vs_bufs s !! c_buf cl = Some x /\ db_blockno x = c_block cl /\ 0 <= c_block cl < 2 ^ 31 /\
    (c_write cl = true -> db_data x = c_data cl) /\
    ((forall h q, R !! h = Some q -> r_b q <> c_buf cl) /\ c_chan cl = Some ChanDesc /\ (c_woken cl = false -> ~ room R) /\
     wait_spec (c_buf cl) (c_write cl) (c_block cl) (c_rdy cl) (c_k cl) \/
     exists h q, R !! h = Some q /\ r_b q = c_buf cl /\ r_write q = c_write cl /\
       c_chan cl = Some (ChanBuf (Z.of_nat (c_buf cl))) /\ (c_woken cl = false -> h ∈ ph) /\ finish_spec h q (c_rdy cl) (c_k cl)).

Record good_at (g : cfg) (R : gmap Z req) (A P U F : list Z) : Prop := {
  go_inv : vinv (g_s g) R A P U F;
  go_lock : free_lock (vd_lock (vs_disk (g_s g)));
  go_entry : forall i cl, g_p g !! i = Some cl -> entry (g_s g) R (A ++ P ++ U) cl;
  go_alone : forall i j ci cj, g_p g !! i = Some ci -> g_p g !! j = Some cj -> i <> j ->
    c_buf ci <> c_buf cj /\ c_block ci <> c_block cj;
  go_owner : forall h q, R !! h = Some q -> exists i cl, g_p g !! i = Some cl /\ c_buf cl = r_b q
}.
Definition good (g : cfg) : Prop := exists R A P U F, good_at g R A P U F.

Lemma rest_ctx c s : start_ctx c -> free_lock (vd_lock (vs_disk s)) -> at_rest (set_ctx c s).
Proof. by intros [Hc _]. Qed.

Lemma ctx_inv c s R A P U F : vinv s R A P U F -> vinv (set_ctx c s) R A P U F.
Proof. by apply core_inv. Qed.

Lemma set_woken_id cl : set_woken (c_woken cl) cl = cl.
Proof. by destruct cl. Qed.

Lemma wake_lookup l p i cl' : wake l p !! i = Some cl' <->
  exists cl, p !! i = Some cl /\ cl' = set_woken (c_woken cl || hears l cl) cl.
Proof. unfold wake. rewrite lookup_fmap_Some. naive_solver. Qed.

Lemma hears_in l cl ch : c_chan cl = Some ch -> ch ∈ l -> hears l cl = true.
Proof. unfold hears. intros -> H. by apply bool_decide_eq_true_2. Qed.

(** An entry stays good when its buffer and its request are kept, and what it
    waits for does not happen unless it is woken. *)
Lemma entry_keep s s' R R' ph ph' cl w : entry s R ph cl ->
  (forall x, vs_bufs s !! c_buf cl = Some x -> exists x', vs_bufs s' !! c_buf cl = Some x' /\
     db_blockno x' = db_blockno x /\ (c_write cl = true -> db_data x' = db_data x)) ->
  (forall h q, r_b q = c_buf cl -> R !! h = Some q <-> R' !! h = Some q) ->
  (w = false -> c_woken cl = false) ->
  (w = false -> c_chan cl = Some ChanDesc -> room R' -> room R) ->
  (forall h q, w = false -> c_chan cl = Some (ChanBuf (Z.of_nat (c_buf cl))) -> R !! h = Some q -> r_b q = c_buf cl -> h ∈ ph -> h ∈ ph') ->
  entry s' R' ph' (set_woken w cl).
Proof.
  intros (x & Hx & Hb & Hr & Hd & Hcase) Hbuf HR Hw Hroom Hph. destruct (Hbuf x Hx) as (x' & Hx' & Hb' & Hd'). exists x'. simpl.
  split_and!; [done|congruence|lia|lia|intros Hwr; rewrite Hd' by done; auto|].
  destruct Hcase as [(Hno & Hc & Hn & Hs)|(h & q & Hq & Hqb & Hqw & Hc & Hn & Hf)].
  - left. split_and!; [|done| |done].
    + intros h q Hq E. apply (Hno h q); [by apply HR|done].
    + intros E Hr'. apply (Hn (Hw E)). by apply Hroom.
  - right. exists h, q. split_and!; try done; [by apply HR|]. intros E. apply (Hph h q E Hc Hq Hqb). auto.
Qed.

(** The same for a step that does not touch requests. *)
Lemma entry_env s s' R ph ph' cl w : entry s R ph cl ->
  (forall x, vs_bufs s !! c_buf cl = Some x -> exists x', vs_bufs s' !! c_buf cl = Some x' /\
     db_blockno x' = db_blockno x /\ (c_write cl = true -> db_data x' = db_data x)) ->
  (w = false -> c_woken cl = false) -> (forall h, h ∈ ph -> h ∈ ph') -> entry s' R ph' (set_woken w cl).
Proof. intros. eapply entry_keep; eauto. Qed.

Lemma p_insert i cl0 (p : gmap nat call) l j cl : <[i := cl0]> (wake l p) !! j = Some cl ->
  j = i /\ cl = cl0 \/ j <> i /\ exists cl1, p !! j = Some cl1 /\ cl = set_woken (c_woken cl1 || hears l cl1) cl1.
Proof.
  intros H. apply lookup_insert_Some in H as [[<- <-]|[Hne H]]; [by left|right]. split; [done|]. by apply wake_lookup.
Qed.

(** Processes of different blocks, after one of them ran and the others were woken. *)
Lemma alone_insert i cl0 (p : gmap nat call) l :
  (forall j1 j2 c1 c2, p !! j1 = Some c1 -> p !! j2 = Some c2 -> j1 <> j2 -> c_buf c1 <> c_buf c2 /\ c_block c1 <> c_block c2) ->
  (forall j cl, p !! j = Some cl -> j <> i -> c_buf cl <> c_buf cl0 /\ c_block cl <> c_block cl0) ->
  forall j1 j2 c1 c2, <[i := cl0]> (wake l p) !! j1 = Some c1 -> <[i := cl0]> (wake l p) !! j2 = Some c2 -> j1 <> j2 ->
    c_buf c1 <> c_buf c2 /\ c_block c1 <> c_block c2.
Proof.
  intros Ha Ho j1 j2 c1 c2 H1 H2 Hne.
  destruct (p_insert _ _ _ _ _ _ H1) as [[-> ->]|(N1 & d1 & H1' & ->)], (p_insert _ _ _ _ _ _ H2) as [[-> ->]|(N2 & d2 & H2' & ->)]; simpl.
  - done.
  - destruct (Ho j2 d2 H2' N2). split; by apply not_eq_sym.
  - by apply (Ho j1).
  - by eapply Ha.
Qed.

Section step.
Context (g : cfg) (R : gmap Z req) (A P U F : list Z) (Hg : good_at g R A P U F).

Lemma entry_buf i cl h q : g_p g !! i = Some cl -> R !! h = Some q -> r_b q = c_buf cl -> r_write q = c_write cl.
Proof.
  intros Hi Hq Hqb. destruct (go_entry _ _ _ _ _ _ Hg i cl Hi) as (x & Hx & _ & _ & _ & [[Hno _]|(h' & q' & Hq' & Hb' & Hw' & _)]).
  - by destruct (Hno h q).
  - assert (h = h') as -> by (eapply (v_block _ _ _ _ _ _ (go_inv _ _ _ _ _ _ Hg) h q h' q' x x); congruence). congruence.
Qed.

Lemma good_dev s A' P' U' F' : dev_post (g_s g) R A P U s A' P' U' F' -> good_at (mkCfg s (g_p g)) R A' P' U' F'.
Proof.
  intros (Hstep & Hlk & Hph & HI'). pose proof Hg as [HI Hl He Ha Ho].
  split; simpl; try done; [by rewrite Hlk|]. intros i cl Hi. rewrite <- (set_woken_id cl).
  eapply entry_env; [by eapply He| |done|intros h; by rewrite Hph].
  intros x Hx. destruct (Hstep _ _ Hx) as (x' & Hx' & Hb & Hd). exists x'. split_and!; [done|done|]. intros Hw.
  destruct Hd as [Hd|(h & q & Hq & Hqb & Hqw)]; [done|]. rewrite <- (entry_buf i cl h q) in Hw by done. congruence.
Qed.

(** A run that leaves the requests and the buffers' data alone, and wakes the
    processes whose requests it finds done. *)
Lemma good_quiet s' A' P' U' : vinv s' R A' P' U' F -> free_lock (vd_lock (vs_disk s')) ->
  (forall b x, vs_bufs (g_s g) !! b = Some x -> exists x', vs_bufs s' !! b = Some x' /\ db_blockno x' = db_blockno x /\ db_data x' = db_data x) ->
  (forall h q, h ∈ A ++ P ++ U -> R !! h = Some q -> h ∈ A' ++ P' ++ U' \/ ChanBuf (Z.of_nat (r_b q)) ∈ cx_wakes (vs_ctx s')) ->
  good_at (mkCfg s' (wake (cx_wakes (vs_ctx s')) (g_p g))) R A' P' U' F.
Proof.
  intros HI' Hl' Hkeep Hph. pose proof Hg as [HI Hl He Ha Ho]. split; simpl; try done.
  - intros i cl' (cl & Hi & ->)%wake_lookup. eapply entry_keep; [by eapply He| |done|by intros [? _]%orb_false_iff|done|].
    + intros x Hx. destruct (Hkeep _ x Hx) as (x' & ? & ? & ?). eauto.
    + intros h q Hw Hc Hq Hqb Hh. destruct (Hph h q Hh Hq) as [|Hin]; [done|]. rewrite Hqb in Hin.
      rewrite (hears_in _ _ _ Hc Hin), orb_true_r in Hw. done.
  - intros i j ci cj (ci' & Hi & ->)%wake_lookup (cj' & Hj & ->)%wake_lookup. simpl. by eapply Ha.
  - intros h q Hq. destruct (Ho h q Hq) as (i & cl & Hi & Hb). eexists i, _. split; [apply wake_lookup; eauto|done].
Qed.

(** The interrupt handler. *)
Lemma good_intr c : start_ctx c -> ~ failed (g_s g) -> exists s', virtio_disk_intr (set_ctx c (g_s g)) = Done tt s' /\
  good_at (mkCfg s' (wake (cx_wakes (vs_ctx s')) (g_p g))) R A P [] F.
Proof.
  intros Hc Hno. pose proof Hg as [HI Hl He Ha Ho].
  destruct (intr_ok R A P F (set_ctx c (g_s g)) U (rest_ctx c _ Hc Hl) (ctx_inv c _ _ _ _ _ _ HI) Hno)
    as (s' & E & [_ Hrest] & HI' & Hkeep & Hwk). exists s'. split; [done|]. apply good_quiet; try done.
  intros h q Hh Hq. rewrite !elem_of_app in Hh. destruct Hh as [?|[?|?]]; [left; set_solver|left; set_solver|right]. by apply (Hwk h).
Qed.

Lemma intr_error c : start_ctx c -> failed (g_s g) -> virtio_disk_intr (set_ctx c (g_s g)) = Panic "virtio_disk_intr status".
Proof.
  intros Hc Hf. pose proof Hg as [HI Hl He Ha Ho].
  by apply (intr_fails R A P F (set_ctx c (g_s g)) U (rest_ctx c _ Hc Hl) (ctx_inv c _ _ _ _ _ _ HI)).
Qed.

(** A process that has not been woken could not go on. *)
Lemma not_ready i cl c : g_p g !! i = Some cl -> start_ctx c ->
  (c_rdy cl (set_ctx c (g_s g)) = true <->
   c_chan cl = Some ChanDesc /\ room R \/ exists h q, R !! h = Some q /\ r_b q = c_buf cl /\ h ∉ A ++ P ++ U).
Proof.
  intros Hi Hc. pose proof Hg as [HI Hl He Ha Ho].
  destruct (He i cl Hi) as (x & Hx & Hb & Hr & Hd & [(Hno & Ec & Hn & Hw)|(h & q & Hq & Hqb & Hqw & Ec & Hn & Hfin)]).
  - destruct (Hw _ R A P U F x (rest_ctx c _ Hc Hl) (ctx_inv c _ _ _ _ _ _ HI)) as [-> _]; [|done|].
    + split; try done; [by rewrite Hb|]. intros h q y Hq Hy E. destruct (Ho h q Hq) as (j & cj & Hj & Hjb).
      assert (j <> i) as Hne by (intros ->; apply (Hno h q Hq); congruence).
      destruct (Ha j i cj cl Hj Hi Hne) as [_ Hblk]. destruct (He j cj Hj) as (z & Hz & Hzb & _). rewrite Hjb in Hz. simpl in Hy. congruence.
    + split; [by left|]. intros [[_ ?]|(h & q & Hq & Hqb & _)]; [done|]. by destruct (Hno h q).
  - destruct (Hfin _ R A P U F (rest_ctx c _ Hc Hl) (ctx_inv c _ _ _ _ _ _ HI) Hq) as [-> _]. split; [right; by exists h, q|].
    intros [[? _]|(h' & q' & Hq' & Hqb' & Hph)]; [congruence|].
    assert (h = h') as -> by (eapply (v_block _ _ _ _ _ _ HI h q h' q' x x); congruence). done.
Qed.

(** A process that was woken too early. *)
Lemma good_again i cl c : g_p g !! i = Some cl -> start_ctx c -> c_rdy cl (set_ctx c (g_s g)) = false ->
  exists g', run (retry (c_chan cl) (set_ctx c (g_s g))) (<[i := set_woken false cl]>) (g_p g) = inl g' /\ good_at g' R A P U F.
Proof.
  intros Hi Hc Hrdy. pose proof Hg as [HI Hl He Ha Ho]. pose proof (not_ready i cl c Hi Hc) as Hiff. rewrite Hrdy in Hiff.
  destruct (retry_ok (c_chan cl) (set_ctx c (g_s g)) R A P U F (rest_ctx c _ Hc Hl) (ctx_inv c _ _ _ _ _ _ HI)) as (s' & E & [_ Hl'] & HI' & Hb).
  { intros Ec Hr. discriminate (proj2 Hiff (or_introl (conj Ec Hr))). }
  rewrite E. simpl. eexists. split; [done|]. assert (good_at (mkCfg s' (wake (cx_wakes (vs_ctx s')) (g_p g))) R A P U F) as Hg'.
  { apply good_quiet; try done; [intros b x Hx; rewrite Hb; eauto|by left]. }
  destruct Hg' as [HI2 Hl2 He2 Ha2 Ho2]. split; simpl; try done.
  - intros j cl' Hj. apply lookup_insert_Some in Hj as [[<- <-]|[_ Hj]]; [|by apply (He2 j)].
    destruct (He i cl Hi) as (x & Hx & Hxb & Hr & Hd & Hcase). exists x. rewrite Hb. simpl. split_and!; try done; [lia|lia|].
    destruct Hcase as [(Hno & Ec & Hn & Hw)|(h & q & Hq & Hqb & Hqw & Ec & Hn & Hfin)]; [left|right].
    + split_and!; try done. intros _ Hroom. destruct Hiff as [_ Hiff]. discriminate Hiff. by left.
    + exists h, q. split_and!; try done. intros _. apply dec_stable. intros Hph. destruct Hiff as [_ Hiff]. discriminate Hiff. right. by exists h, q.
  - apply alone_insert; [done|]. intros j cl' Hj Hne. exact (Ha j i cl' cl Hj Hi Hne).
  - intros h q Hq. destruct (Ho h q Hq) as (j & cj & Hj & Hjb). destruct (decide (j = i)) as [->|Hne].
    + exists i, (set_woken false cl). rewrite lookup_insert_eq. split; [done|]. simpl. congruence.
    + eexists j, _. rewrite lookup_insert_ne by done. split; [apply wake_lookup; eauto|done].
Qed.

Lemma good_use b x y : vs_bufs (g_s g) !! b = Some x -> (forall j cl, g_p g !! j = Some cl -> c_buf cl <> b) ->
  good_at (mkCfg (set_bufs (<[b := y]> (vs_bufs (g_s g))) (g_s g)) (g_p g)) R A P U F.
Proof.
  intros Hx Hfree. pose proof Hg as [HI Hl He Ha Ho].
  assert (forall h q, R !! h = Some q -> <[b := y]> (vs_bufs (g_s g)) !! r_b q = vs_bufs (g_s g) !! r_b q) as Eb.
  { intros h q Hq. apply list_lookup_insert_ne. destruct (Ho h q Hq) as (i & cl & Hi & <-). apply not_eq_sym. by eapply Hfree. }
  split; simpl; try done.
  - destruct HI. split; simpl; try done.
    + intros h q Hq. destruct (v_req h q Hq) as [z [B1 ? ? ? ? ? ?]]. exists z. split; simpl; try done. by rewrite (Eb h).
    + intros h q h' q' z z' Hq Hq'. rewrite (Eb h), (Eb h') by done. by apply v_block.
    + intros h q z Hq. rewrite (Eb h) by done. by apply v_flag.
    + intros h q z Hq HA HP. rewrite (Eb h) by done. by apply v_done.
  - intros i cl Hi. rewrite <- (set_woken_id cl). eapply entry_env; [by eapply He| |done|done]. intros z Hz. exists z. simpl.
    rewrite list_lookup_insert_ne by (apply not_eq_sym; by eapply Hfree). done.
Qed.

(** A process that makes its request. *)
Lemma good_submits i b write data blk o x c : submits b write o (set_ctx c (g_s g)) R A P U F ->
  vs_bufs (g_s g) !! b = Some x -> db_blockno x = blk -> 0 <= blk < 2 ^ 31 -> (write = true -> db_data x = data) ->
  (forall j cl, g_p g !! j = Some cl -> j <> i -> c_buf cl <> b /\ c_block cl <> blk) ->
  (forall cl, g_p g !! i = Some cl -> c_buf cl = b) ->
  exists g' h q cl l, after i (mkCall b write data blk) o (g_p g) = inl g' /\ good_at g' (<[h := q]> R) (A ++ [h]) P U F /\
    g_p g' = <[i := cl]> (wake l (g_p g)) /\ c_chan cl = Some (ChanBuf (Z.of_nat b)).
Proof.
  intros (s' & rdy & k & h & q & -> & [_ Hl'] & Hnone & Hqb & Hqw & HI' & Hbufs & Hroom & Hfin) Hx Hblk Hr Hd Hothers Hself.
  pose proof Hg as [HI Hl He Ha Ho]. cbn [after]. set (cl0 := mkCall b write data blk _ rdy k false). set (l := cx_wakes _).
  eexists _, h, q, cl0, l. split; [done|]. split; [|done].
  split; simpl; try done.
  - intros j cl Hj. destruct (p_insert _ _ _ _ _ _ Hj) as [[-> ->]|(Hne & cl1 & Hj' & ->)].
    + exists (set_flag 1 x). rewrite Hbufs, list_lookup_alter_eq. simpl. rewrite Hx. split_and!; try done; try lia.
      right. exists h, q. rewrite lookup_insert_eq. split_and!; try done. intros _. rewrite !elem_of_app, list_elem_of_singleton. tauto.
    + destruct (Hothers j cl1 Hj' Hne) as [Hneb _]. eapply entry_keep; [by eapply He|..].
      * intros z Hz. exists z. rewrite Hbufs, list_lookup_alter_ne by done. done.
      * intros h' q' Hq'. rewrite lookup_insert_Some. split.
        -- intros HR. right. split; [|done]. intros <-. congruence.
        -- intros [[<- <-]|[_ HR]]; [congruence|done].
      * by intros [? _]%orb_false_iff.
      * done.
      * intros h' q' _ _ _ _. rewrite !elem_of_app. tauto.
  - by apply alone_insert.
  - intros h' q' Hq'. apply lookup_insert_Some in Hq' as [[<- <-]|[_ Hq']].
    + exists i, cl0. by rewrite lookup_insert_eq.
    + destruct (Ho h' q' Hq') as (j & cl & Hj & Hcl). destruct (decide (j = i)) as [->|Hne].
      * exists i, cl0. rewrite lookup_insert_eq. split; [done|]. simpl. rewrite <- Hcl. symmetry. by apply Hself.
      * eexists j, _. rewrite lookup_insert_ne by done. split; [apply wake_lookup; eauto|done].
Qed.

Lemma go_may i b x c : vs_bufs (g_s g) !! b = Some x -> 0 <= db_blockno x < 2 ^ 31 ->
  (forall h q, R !! h = Some q -> r_b q <> b) ->
  (forall j cl, g_p g !! j = Some cl -> j <> i -> c_buf cl <> b /\ c_block cl <> db_blockno x) ->
  (forall cl, g_p g !! i = Some cl -> c_buf cl = b) -> may_go (set_ctx c (g_s g)) R b x.
Proof.
  intros Hx Hr Hno Hothers Hself. pose proof Hg as [HI Hl He Ha Ho]. split; try done.
  intros h q y Hq Hy. destruct (Ho h q Hq) as (j & cl & Hj & Hcl). destruct (decide (j = i)) as [->|Hne].
  - destruct (Hno h q Hq). rewrite <- Hcl. by apply Hself.
  - destruct (Hothers j cl Hj Hne) as [_ Hb]. destruct (He j cl Hj) as (z & Hz & Hzb & _). rewrite Hcl in Hz. simpl in Hy. congruence.
Qed.

Lemma good_call i b x write c : g_p g !! i = None -> start_ctx c -> vs_bufs (g_s g) !! b = Some x -> 0 <= db_blockno x < 2 ^ 31 ->
  (forall j cl, g_p g !! j = Some cl -> c_buf cl <> b /\ c_block cl <> db_blockno x) ->
  exists g' R' A', after i (mkCall b write (db_data x) (db_blockno x)) (virtio_disk_rw b write (set_ctx c (g_s g))) (g_p g) = inl g' /\
    good_at g' R' A' P U F /\ is_Some (g_p g' !! i).
Proof.
  intros Hi Hc Hx Hr Hothers. pose proof Hg as [HI Hl He Ha Ho].
  assert (forall h q, R !! h = Some q -> r_b q <> b) as Hno.
  { intros h q Hq. destruct (Ho h q Hq) as (j & cl & Hj & <-). by apply (Hothers j). }
  assert (may_go (set_ctx c (g_s g)) R b x) as Hgo by (apply (go_may i); [done|done|done|by eauto|congruence]).
  destruct (rw_start _ R A P U F b x write (rest_ctx c _ Hc Hl) (ctx_inv c _ _ _ _ _ _ HI) Hgo)
    as [Hsub|(Hroom & s' & rdy & k & -> & [_ Hl'] & HI' & Hbufs & Hw)].
  - destruct (good_submits i b write (db_data x) (db_blockno x) _ x c Hsub Hx eq_refl Hr) as (g' & h & q & cl & l & E & Hgood & Ep & _);
      [done|by eauto|congruence|]. eexists g', _, _. split; [done|]. split; [exact Hgood|]. rewrite Ep, lookup_insert_eq. eauto.
  - cbn [after]. set (cl0 := mkCall b write _ _ _ rdy k false). set (l := cx_wakes _).
    eexists _, R, A. split; [done|]. split; [|simpl; rewrite lookup_insert_eq; eauto]. split; simpl; try done.
    + intros j cl Hj. destruct (p_insert _ _ _ _ _ _ Hj) as [[-> ->]|(Hne & cl1 & Hj' & ->)].
      * exists x. rewrite Hbufs. simpl. split_and!; try done; try lia. by left.
      * eapply entry_env; [by eapply He| |by intros [? _]%orb_false_iff|done]. intros z Hz. rewrite Hbufs. eauto.
    + apply alone_insert; [done|]. intros j cl Hj _. by apply (Hothers j).
    + intros h q Hq. destruct (Ho h q Hq) as (j & cl & Hj & Hcl). eexists j, _. rewrite lookup_insert_ne by congruence.
      split; [apply wake_lookup; eauto|done].
Qed.

(** A process whose request is done returns, with the block transferred. *)
Lemma good_finish i cl c h q x : g_p g !! i = Some cl -> start_ctx c -> R !! h = Some q -> r_b q = c_buf cl ->
  vs_bufs (g_s g) !! c_buf cl = Some x -> finish_spec h q (c_rdy cl) (c_k cl) -> c_rdy cl (set_ctx c (g_s g)) = true ->
  exists s', c_k cl (set_ctx c (g_s g)) = Done tt s' /\
    good_at (mkCfg s' (delete i (wake (cx_wakes (vs_ctx s')) (g_p g)))) (delete h R) A P U F /\
    vs_bufs s' = vs_bufs (g_s g) /\ db_data x = blocks (vs_dev s') (db_blockno x).
Proof.
  intros Hi Hc Hq Hqb Hx Hfin Hrdy. pose proof Hg as [HI Hl He Ha Ho].
  destruct (Hfin _ R A P U F (rest_ctx c _ Hc Hl) (ctx_inv c _ _ _ _ _ _ HI) Hq) as [Hiff Hk].
  destruct (Hk Hrdy) as (s' & E & [_ Hl'] & HI' & Hbufs & Hdev & Hwk).
  apply Hiff in Hrdy as Hph. exists s'. split; [done|]. rewrite !not_elem_of_app in Hph. split; [|split; [done|]].
  - set (l := cx_wakes (vs_ctx s')) in *.
    assert (forall j cl', delete i (wake l (g_p g)) !! j = Some cl' -> j <> i /\ exists cl1, g_p g !! j = Some cl1 /\
      cl' = set_woken (c_woken cl1 || hears l cl1) cl1) as Hp.
    { intros j cl' Hj. apply lookup_delete_Some in Hj as [Hne Hj%wake_lookup]. split; [congruence|done]. }
    split; simpl; try done.
    + intros j cl' Hj. apply Hp in Hj as (Hne & cl1 & Hj & ->). eapply entry_keep; [by eapply He|intros y Hy; rewrite Hbufs; eauto| | | |].
      * intros h' q' Hq'. rewrite lookup_delete_Some. split; [|tauto]. intros HR. split; [|done]. intros <-.
        destruct (Ha i j cl cl1 Hi Hj) as [Hb _]; [done|]. congruence.
      * by intros [? _]%orb_false_iff.
      * intros Hw Ec _. rewrite (hears_in _ _ _ Ec Hwk), orb_true_r in Hw. done.
      * done.
    + intros j1 j2 c1 c2 H1 H2. apply Hp in H1 as (_ & d1 & H1 & ->), H2 as (_ & d2 & H2 & ->). simpl. by eapply Ha.
    + intros h' q' Hq'. apply lookup_delete_Some in Hq' as [Hne Hq']. destruct (Ho h' q' Hq') as (j & cl' & Hj & Hcl').
      exists j, (set_woken (c_woken cl' || hears l cl') cl'). split; [|exact Hcl']. rewrite lookup_delete_ne; [apply wake_lookup; eauto|]. intros ->. assert (cl' = cl) as -> by congruence.
      apply Hne. eapply (v_block _ _ _ _ _ _ HI h q h' q' x x); congruence.
  - rewrite Hdev. simpl. rewrite <- Hqb in Hx. destruct (v_done _ _ _ _ _ _ HI h q x Hq) as (v & _ & _ & Hv); [tauto|tauto|exact Hx|].
    apply Hv. intros HF%(v_err _ _ _ _ _ _ HI). tauto.
Qed.

(** A process that was woken and goes on: it makes its request, or it returns. *)
Lemma good_resume i cl c : g_p g !! i = Some cl -> start_ctx c -> c_rdy cl (set_ctx c (g_s g)) = true ->
  (exists g' h q cl' l, after i (mkCall (c_buf cl) (c_write cl) (c_data cl) (c_block cl)) (c_k cl (set_ctx c (g_s g))) (g_p g) = inl g' /\
     good_at g' (<[h := q]> R) (A ++ [h]) P U F /\ g_p g' = <[i := cl']> (wake l (g_p g)) /\
     c_chan cl = Some ChanDesc /\ c_chan cl' = Some (ChanBuf (Z.of_nat (c_buf cl)))) \/
  exists g' h l, after i (mkCall (c_buf cl) (c_write cl) (c_data cl) (c_block cl)) (c_k cl (set_ctx c (g_s g))) (g_p g) = inl g' /\
     good_at g' (delete h R) A P U F /\ g_p g' = delete i (wake l (g_p g)) /\
     exists x, vs_bufs (g_s g') !! c_buf cl = Some x /\ db_blockno x = c_block cl /\
       db_data x = blocks (vs_dev (g_s g')) (c_block cl) /\ (c_write cl = true -> db_data x = c_data cl).
Proof.
  intros Hi Hc Hrdy. pose proof Hg as [HI Hl He Ha Ho].
  destruct (He i cl Hi) as (x & Hx & Hb & Hr & Hd & [(Hno & Ec & _ & Hw)|(h & q & Hq & Hqb & Hqw & _ & _ & Hfin)]); [left|right].
  - assert (forall j cl', g_p g !! j = Some cl' -> j <> i -> c_buf cl' <> c_buf cl /\ c_block cl' <> c_block cl) as Hothers
      by (intros j cl' Hj Hne; by eapply Ha).
    assert (forall cl', g_p g !! i = Some cl' -> c_buf cl' = c_buf cl) as Hself by congruence.
    assert (submits (c_buf cl) (c_write cl) (c_k cl (set_ctx c (g_s g))) (set_ctx c (g_s g)) R A P U F) as Hsub.
    { apply (Hw _ R A P U F x); [by apply rest_ctx|by apply ctx_inv| |done|done].
      apply (go_may i); try done; rewrite Hb; [lia|done]. }
    destruct (good_submits i (c_buf cl) (c_write cl) (c_data cl) (c_block cl) _ x c Hsub Hx Hb Hr Hd Hothers Hself)
      as (g' & h & q & cl' & l & H1 & H2 & H3 & H4). by exists g', h, q, cl', l.
  - destruct (good_finish i cl c h q x Hi Hc Hq Hqb Hx Hfin Hrdy) as (s' & E & Hgood & Hbufs & Hdata).
    rewrite E. simpl. eexists _, h, _. split_and!; [done|done|done|]. simpl. exists x. rewrite Hbufs, <- Hb. split_and!; done.
Qed.
End step.

(** ** Initialization *)
Definition returns {A} (o : outcome st A) (Q : A -> st -> Prop) : Prop := forall a s', o = Done a s' -> Q a s'.

Lemma returns_bind {A B} (m : K st A) (f : A -> K st B) s Q :
  returns (m s) (fun a s' => returns (f a s') Q) -> returns (bind m f s) Q.
Proof. intros H b s' E. apply bind_Done_inv in E as (a & s1 & E1 & E2). by eapply H. Qed.

Lemma returns_reg r s Q : (forall v w, Q v (set_dev w s)) -> returns (reg r s) Q.
Proof. intros H v s'. unfold reg. destruct (rd32 _ _) as [v' w]. intros [= <- <-]. apply H. Qed.

Lemma returns_set_reg r v s (Q : unit -> st -> Prop) : (forall w, Q tt (set_dev w s)) -> returns (set_reg r v s) Q.
Proof. intros H [] s' [= <-]. apply H. Qed.

Lemma returns_set_fld {A} (L : lens vdisk A) a s (Q : unit -> st -> Prop) :
  Q tt (upd_disk (over L a) s) -> returns (set_fld L a s) Q.
Proof. intros H [] s' [= <-]. apply H. Qed.

Lemma returns_panic {A} msg s (Q : A -> st -> Prop) : returns (panic msg s) Q.
Proof. done. Qed.

Ltac rstep := first [apply returns_bind | apply returns_reg; intros ? ? | apply returns_set_reg; intros ?
  | apply returns_set_fld | apply returns_panic
  | match goal with |- returns ((if ?b then _ else _) _) _ => destruct b end].

(** The disk after [virtio_disk_init]: no descriptor in use, the rings empty. *)
Definition fresh_disk (d d' : vdisk) : Prop :=
  vd_desc d' = replicate 8 (mkDesc DNull 0 0 0) /\ vd_avail d' = mkAvail 0 0 (replicate 8 0) 0 /\
  vd_used d' = mkUsed 0 0 (replicate 8 (mkUsedElem 0 0)) /\ vd_used_idx d' = vd_used_idx d /\
  vd_info d' = vd_info d /\ vd_ops d' = vd_ops d /\ free_lock (vd_lock d') /\
  length (vd_free d') = 8%nat /\ forall i, 0 <= i < NUM -> (vd_free d').[i] = Some 1.

Lemma init_free s : length (vd_free (vs_disk s)) = 8%nat ->
  wp ((_ <- for_each (seqZ 0 NUM) (fun i => set_elt freeL i 1;; ret (@None unit));; ret tt) s) (fun _ s' =>
    vs_disk s' = over freeL (vd_free (vs_disk s')) (vs_disk s) /\ length (vd_free (vs_disk s')) = 8%nat /\
    forall i, 0 <= i < NUM -> (vd_free (vs_disk s')).[i] = Some 1).
Proof.
  intros Hf. kstep. apply (wp_for_range NUM _ (fun k s' => vs_disk s' = over freeL (vd_free (vs_disk s')) (vs_disk s) /\
    length (vd_free (vs_disk s')) = 8%nat /\ forall i, 0 <= i < Z.of_nat k -> (vd_free (vs_disk s')).[i] = Some 1)).
  - intros k s' Hk (Ed & Hl & Hone). kstep. apply wp_set_elt; [unfold NUM in *; lia|done|]. kstep. simpl.
    rewrite length_insert. split_and!; [by rewrite Ed|done|]. intros i Hi. destruct (decide (i = Z.of_nat k)) as [->|].
    + apply list_lookup_insert_eq. rewrite Hl. unfold NUM in *. lia.
    + rewrite list_lookup_insert_ne by lia. apply Hone. lia.
  - intros s' (Ed & Hl & Hone). kstep. split_and!; [done|done|]. intros i Hi. apply Hone. unfold NUM in *. lia.
  - split_and!; [by destruct (vs_disk s)|done|]. intros. lia.
Qed.

Lemma init_free_returns s (Q : unit -> st -> Prop) : length (vd_free (vs_disk s)) = 8%nat ->
  (forall s', vs_disk s' = over freeL (vd_free (vs_disk s')) (vs_disk s) -> length (vd_free (vs_disk s')) = 8%nat ->
     (forall i, 0 <= i < NUM -> (vd_free (vs_disk s')).[i] = Some 1) -> Q tt s') ->
  returns ((_ <- for_each (seqZ 0 NUM) (fun i => set_elt freeL i 1;; ret (@None unit));; ret tt) s) Q.
Proof. intros Hf HQ [] s' E. pose proof (init_free s Hf) as Hwp. rewrite E in Hwp. destruct Hwp as (? & ? & ?). by apply HQ. Qed.

Lemma init_fresh s : static_disk s -> returns (virtio_disk_init pages s) (fun _ s' => fresh_disk (vs_disk s) (vs_disk s')).
Proof.
  intros (Hu & Hf & Hi & Ho). unfold virtio_disk_init. cbv zeta. repeat first [apply init_free_returns; [done|]|rstep].
  intros s' -> Hl Hone. unfold fresh_disk. simpl. split_and!; done.
Qed.

Lemma good_init s s' : static_disk s -> virtio_disk_init pages s = Done tt s' -> last_avail (vs_dev s') = 0 ->
  pending (vs_dev s') = [] -> good (mkCfg s' ∅).
Proof.
  intros Hst E El Ep. pose proof (init_fresh s Hst tt s' E) as (E1 & E2 & E3 & E4 & E5 & E6 & Hl & Hf & Hone).
  destruct Hst as (Hu & _ & Hi & Ho). exists ∅, [], [], [], []. split; simpl; try done.
  assert (forall i, ~ owned ∅ i) as Hno by (intros i (h & q & Hq & _); by rewrite lookup_empty in Hq).
  split; rewrite ?E1, ?E2, ?E3, ?E4, ?E5, ?E6, ?Hu, ?El, ?Ep; try done; try (intros; by rewrite lookup_empty in *).
  - by intros i Hi'%Hno.
  - intros i Hi' _. by apply Hone.
  - apply NoDup_nil_2.
  - intros h Hh. by apply elem_of_nil in Hh.
Qed.

(** ** The theorems *)
Context (dev_spec : forall s s', dev s s' -> dev_act s s').

Definition run_ctx : ctx := Ctx (mkHart 0 0 0 false None) 0 [].

Lemma run_ctx_ok : start_ctx run_ctx.
Proof. by split_and!. Qed.

(** A step leads to a good state, or the interrupt handler found an error. *)
Definition step_post (g : cfg) (o : cfg + string) : Prop :=
  match o with inl g' => good g' | inr msg => msg = "virtio_disk_intr status"%string /\ failed (g_s g) end.

Lemma good_act g l o : good g -> act g l o -> step_post g o.
Proof.
  intros (R & A & P & U & F & Hg) Hact. destruct Hact as [i cl c Hi Hw Hc Hrdy|i cl c Hi Hw Hc Hrdy|c Hc|s Hd].
  - destruct (good_resume g R A P U F Hg i cl c Hi Hc Hrdy) as [(g' & h & q & cl' & l & -> & H & _)|(g' & h & l & -> & H & _)];
      by eexists _, _, _, _, _.
  - destruct (good_again g R A P U F Hg i cl c Hi Hc Hrdy) as (g' & -> & H). by eexists _, _, _, _, _.
  - assert (failed (g_s g) \/ ~ failed (g_s g)) as [Hf|Hf].
    { rewrite (failed_iff _ _ _ _ _ _ (go_inv _ _ _ _ _ _ Hg)). destruct F; [right; tauto|by left]. }
    + by rewrite (intr_error g R A P U F Hg c Hc Hf).
    + destruct (good_intr g R A P U F Hg c Hc Hf) as (s' & -> & H). by eexists _, _, _, _, _.
  - destruct (dev_inv (g_s g) R A P U F (go_inv _ _ _ _ _ _ Hg) s (dev_spec _ _ Hd)) as (A' & P' & U' & F' & H).
    exists R, A', P', U', F'. by eapply good_dev.
Qed.

Lemma good_step g o : good g -> step g o -> step_post g o.
Proof.
  intros Hgood Hstep. destruct Hstep as [l o Hact|i b x write c Hi Hc Hx Hr Ho|b x y Hx Hfree Hy].
  - by eapply good_act.
  - destruct Hgood as (R & A & P & U & F & Hg). destruct (good_call g R A P U F Hg i b x write c Hi Hc Hx Hr Ho) as (g' & R' & A' & -> & H & _).
    by eexists _, _, _, _, _.
  - destruct Hgood as (R & A & P & U & F & Hg). eexists _, _, _, _, _. by eapply good_use.
Qed.

Lemma reachable_good g : reachable g -> good g.
Proof.
  induction 1 as [s s' Hst E El Ep|g g' _ IH Hstep]; [by eapply good_init|]. exact (good_step g (inl g') IH Hstep).
Qed.

(** C10: the driver panics exactly when the device reports an error.  Whatever
    processes call virtio_disk_rw on buffers of different blocks, in whatever order
    they run, the interrupt handler runs and the device works, the two panics of
    free_desc are not reached, no access is out of bounds and no loop runs forever;
    a step panics if and only if an entry of the used ring has a status other than
    0, with the handler's "virtio_disk_intr status". *)
Theorem virtio_no_panic g msg : reachable g -> step g (inr msg) <-> msg = "virtio_disk_intr status"%string /\ failed (g_s g).
Proof.
  intros Hr%reachable_good. split; [intros Hs; exact (good_step g (inr msg) Hr Hs)|]. intros [-> Hf].
  destruct Hr as (R & A & P & U & F & Hg). pose proof (a_intr g run_ctx run_ctx_ok) as Hi.
  rewrite (intr_error g R A P U F Hg run_ctx run_ctx_ok Hf) in Hi. by apply (s_act g Intr).
Qed.




(** ** Every request is completed *)
Context (dev_goes : forall s, has_work s -> exists s', dev s s' /\ dev_work s s').

(** A step that gets the system on: a woken process goes on, the handler looks at
    new entries of the used ring, the device takes or completes a request. *)
Definition progress (g g' : cfg) : Prop := exists l, act g l (inl g') /\
  match l with
  | Resume => True
  | Again => False
  | Intr => unseen (g_s g)
  | Dev => dev_work (g_s g) (g_s g')
  end.

(** A step that neither gets it on nor adds to it: a process woken too early sleeps
    again, the handler runs with nothing to see, the device does something else, a
    process uses a buffer outside the driver. *)
Inductive idle (g g' : cfg) : Prop :=
| i_act l : act g l (inl g') ->
    match l with
    | Resume => False
    | Again => True
    | Intr => ~ unseen (g_s g)
    | Dev => exists w, same_dev_at blocks last_avail pending (vs_dev (g_s g)) w /\ g_s g' = set_dev w (g_s g)
    end -> idle g g'
| i_use b x y : vs_bufs (g_s g) !! b = Some x -> (forall j cl, g_p g !! j = Some cl -> c_buf cl <> b) -> db_disk y = db_disk x ->
    g' = mkCfg (set_bufs (<[b := y]> (vs_bufs (g_s g))) (g_s g)) (g_p g) -> idle g g'.

Definition moves (g g' : cfg) : Prop := progress g g' \/ idle g g'.
(** The next step that gets the system on, after any number of others. *)
Definition next (g g' : cfg) : Prop := exists g1, rtc idle g g1 /\ progress g1 g'.

(** What is left to do. *)
Definition weight (cl : call) : nat := if decide (c_chan cl = Some ChanDesc) then 100 else 40.
Definition load (p : gmap nat call) : nat := map_fold (fun _ cl n => weight cl + n)%nat O p.
Definition left_over (g : cfg) (A P U : list Z) : nat := load (g_p g) + 3 * length A + 2 * length P + length U.

Lemma load_wake l p : load (wake l p) = load p.
Proof. unfold load, wake. by rewrite map_fold_fmap. Qed.

Lemma load_insert i cl p : p !! i = None -> load (<[i := cl]> p) = (weight cl + load p)%nat.
Proof. intros Hi. unfold load. rewrite map_fold_insert_L; [done| |done]. intros. lia. Qed.

Lemma load_delete i cl p : p !! i = Some cl -> load p = (weight cl + load (delete i p))%nat.
Proof.
  intros Hi. rewrite <- (insert_delete_id p i cl Hi) at 1. apply load_insert. apply lookup_delete_eq.
Qed.

Lemma load_woken l i cl p : p !! i = Some cl -> load p = (weight cl + load (delete i (wake l p)))%nat.
Proof.
  intros Hi. rewrite <- (load_wake l p).
  rewrite (load_delete i (set_woken (c_woken cl || hears l cl) cl)); [done|]. apply wake_lookup. eauto.
Qed.

Lemma progress_good g g' R A P U : good_at g R A P U [] -> progress g g' ->
  exists R' A' P' U', good_at g' R' A' P' U' [] /\ (left_over g' A' P' U' < left_over g A P U)%nat.
Proof.
  intros Hg (l & Hact & Hl). unfold left_over.
  assert (~ failed (g_s g)) as Hok by (rewrite (failed_iff _ _ _ _ _ _ (go_inv _ _ _ _ _ _ Hg)); naive_solver).
  remember (inl g') as o eqn:Eo. destruct Hact as [i cl c Hi Hw Hc Hrdy|i cl c Hi Hw Hc Hrdy|c Hc|s Hd]; [|done|..].
  - destruct (good_resume g R A P U [] Hg i cl c Hi Hc Hrdy) as [(g1 & h & q & cl' & l & E & Hg1 & Ep & Ec & Ec')|(g1 & h & l & E & Hg1 & Ep & _)];
      rewrite Eo in E; injection E as <-; rewrite Ep; pose proof (load_woken l i cl _ Hi) as Ht.
    + exists (<[h := q]> R), (A ++ [h]), P, U. split; [done|]. rewrite <- insert_delete_eq, load_insert by apply lookup_delete_eq.
      unfold weight in *. rewrite Ec, decide_True in Ht by done. rewrite Ec', decide_False by done. rewrite length_app. simpl. lia.
    + exists (delete h R), A, P, U. split; [done|]. unfold weight in Ht. destruct (decide _); lia.
  - destruct (good_intr g R A P U [] Hg c Hc Hok) as (s' & E & Hg1). rewrite E in Eo. injection Eo as <-.
    exists R, A, P, []. split; [done|]. simpl. rewrite load_wake. apply (unseen_iff _ _ _ _ _ _ (go_inv _ _ _ _ _ _ Hg)) in Hl.
    destruct U; [done|]. simpl. lia.
  - injection Eo as <-. destruct (work_inv _ R A P U [] (go_inv _ _ _ _ _ _ Hg) _ Hl) as (A' & P' & U' & Hpost & Hlt).
    exists R, A', P', U'. split; [by eapply good_dev|]. simpl. lia.
Qed.

Lemma run_procs o p p0 g' : run o p p0 = inl g' -> exists l, g_p g' = p (wake l p0).
Proof. intros E. destruct o as [u s| | |]; try done. injection E as <-. by exists (cx_wakes (vs_ctx s)). Qed.

Lemma load_again l i cl p : p !! i = Some cl -> load (<[i := set_woken false cl]> (wake l p)) = load p.
Proof.
  intros Hi. rewrite (load_woken l i cl p Hi), <- insert_delete_eq, load_insert by apply lookup_delete_eq. done.
Qed.

Lemma idle_good g g' R A P U : good_at g R A P U [] -> idle g g' -> good_at g' R A P U [] /\ load (g_p g') = load (g_p g).
Proof.
  intros Hg [l Hact Hl|b x y Hx Hno Hy ->]; [|split; [by eapply good_use|done]].
  assert (~ failed (g_s g)) as Hok by (rewrite (failed_iff _ _ _ _ _ _ (go_inv _ _ _ _ _ _ Hg)); naive_solver).
  remember (inl g') as o eqn:Eo. destruct Hact as [i cl c Hi Hw Hc Hrdy|i cl c Hi Hw Hc Hrdy|c Hc|s Hd]; [done|..].
  - destruct (good_again g R A P U [] Hg i cl c Hi Hc Hrdy) as (g1 & E & Hg1). rewrite Eo in E. injection E as <-. split; [done|].
    destruct (run_procs _ _ _ _ Eo) as [l ->]. by apply load_again.
  - destruct (good_intr g R A P U [] Hg c Hc Hok) as (s' & E & Hg1). rewrite E in Eo. injection Eo as <-.
    rewrite (unseen_iff _ _ _ _ _ _ (go_inv _ _ _ _ _ _ Hg)) in Hl. destruct U; [|by destruct Hl]. split; [done|]. simpl. by rewrite load_wake.
  - injection Eo as <-. destruct Hl as (w & Hw & Es). simpl in Es. subst s. split; [|done]. apply (good_dev g R A P U [] Hg).
    split_and!; [intros b x Hx; eauto|done|done|]. apply idle_inv; [apply Hg|done].
Qed.

Lemma idles_good g g' R A P U : good_at g R A P U [] -> rtc idle g g' -> good_at g' R A P U [] /\ load (g_p g') = load (g_p g).
Proof.
  intros Hg Hl. induction Hl as [|g g1 g' Hi _ IH]; [done|]. destruct (idle_good _ _ _ _ _ _ Hg Hi) as [Hg1 <-]. by apply IH.
Qed.

Lemma next_good g g' R A P U : good_at g R A P U [] -> next g g' ->
  exists R' A' P' U', good_at g' R' A' P' U' [] /\ (left_over g' A' P' U' < left_over g A P U)%nat.
Proof.
  intros Hg (g1 & Hl & Hp). destruct (idles_good _ _ _ _ _ _ Hg Hl) as [Hg1 E]. unfold left_over at 2. rewrite <- E. by eapply progress_good.
Qed.

(** A process that could go on has been woken. *)
Lemma ready_woken g R A P U F i cl c : good_at g R A P U F -> g_p g !! i = Some cl -> start_ctx c ->
  c_rdy cl (set_ctx c (g_s g)) = true -> c_woken cl = true.
Proof.
  intros Hg Hi Hc Hrdy%(not_ready g R A P U F Hg i cl c Hi Hc). apply not_false_is_true. intros Hw.
  destruct (go_entry _ _ _ _ _ _ Hg i cl Hi) as (x & Hx & _ & _ & _ & [(Hno & Ec & Hn & _)|(h & q & Hq & Hqb & _ & Ec & Hn & _)]).
  - destruct Hrdy as [[_ Hr]|(h & q & Hq & Hqb & _)]; [by apply Hn|by destruct (Hno h q)].
  - destruct Hrdy as [[? _]|(h' & q' & Hq' & Hqb' & Hph)]; [congruence|].
    assert (h = h') as -> by (eapply (v_block _ _ _ _ _ _ (go_inv _ _ _ _ _ _ Hg) h q h' q' x x); congruence). by apply Hph, Hn.
Qed.

Lemma spare_three : room ∅.
Proof.
  exists [0; 1; 2]. split; [done|]. split; [repeat constructor; set_solver|]. intros i Hi. split; [set_unfold in Hi; unfold NUM; lia|].
  intros (h & q & Hq & _). by rewrite lookup_empty in Hq.
Qed.

(** When the device has nothing to do and the handler nothing to see, a process
    in the driver can go on. *)
Lemma someone_ready g R F : good_at g R [] [] [] F -> g_p g <> ∅ ->
  exists i cl, g_p g !! i = Some cl /\ c_rdy cl (set_ctx run_ctx (g_s g)) = true.
Proof.
  intros Hg Hne. destruct (map_choose (g_p g) Hne) as (i & cl & Hi).
  destruct (go_entry _ _ _ _ _ _ Hg i cl Hi) as (x & _ & _ & _ & _ & [(Hno & Ec & _)|(h & q & Hq & Hqb & _)]).
  - destruct (decide (R = ∅)) as [->|HR].
    + exists i, cl. split; [done|]. apply (not_ready g ∅ [] [] [] F Hg i cl run_ctx Hi run_ctx_ok). left. split; [done|apply spare_three].
    + destruct (map_choose R HR) as (h & q & Hq). destruct (go_owner _ _ _ _ _ _ Hg h q Hq) as (j & cj & Hj & Hjb).
      exists j, cj. split; [done|]. apply (not_ready g R [] [] [] F Hg j cj run_ctx Hj run_ctx_ok). right. exists h, q.
      split_and!; [done|done|apply not_elem_of_nil].
  - exists i, cl. split; [done|]. apply (not_ready g R [] [] [] F Hg i cl run_ctx Hi run_ctx_ok). right. exists h, q.
    split_and!; [done|done|apply not_elem_of_nil].
Qed.

Lemma can_progress g R A P U : good_at g R A P U [] -> g_p g <> ∅ -> exists g', progress g g'.
Proof.
  intros Hg Hne. pose proof (go_inv _ _ _ _ _ _ Hg) as HI.
  destruct (decide (A = [] /\ P = [])) as [[-> ->]|Hbusy].
  2:{ destruct (dev_goes (g_s g)) as (s' & Hd & Hw).
      { apply (busy_work _ _ _ _ _ _ HI). destruct A, P; try (by left); [by destruct Hbusy|by right]. }
      eexists _, Dev. split; [by apply a_dev|exact Hw]. }
  destruct (decide (U = [])) as [->|HU].
  - destruct (someone_ready g R [] Hg Hne) as (i & cl & Hi & Hrdy).
    pose proof (a_resume g i cl run_ctx Hi (ready_woken _ _ _ _ _ _ _ _ _ Hg Hi run_ctx_ok Hrdy) run_ctx_ok Hrdy) as Ha.
    destruct (good_resume g R [] [] [] [] Hg i cl run_ctx Hi run_ctx_ok Hrdy) as [(g' & h & q & cl' & l & E & _)|(g' & h & l & E & _)];
      rewrite E in Ha; by exists g', Resume.
  - destruct (good_intr g R [] [] U [] Hg run_ctx run_ctx_ok) as (s' & E & _); [rewrite (failed_iff _ _ _ _ _ _ HI); naive_solver|].
    pose proof (a_intr g run_ctx run_ctx_ok) as Ha. rewrite E in Ha. eexists _, Intr. split; [exact Ha|]. by apply (unseen_iff _ _ _ _ _ _ HI).
Qed.

Lemma moves_good g g' R A P U : good_at g R A P U [] -> rtc moves g g' -> exists R' A' P' U', good_at g' R' A' P' U' [].
Proof.
  intros Hg Hl. revert R A P U Hg. induction Hl as [|g g1 g' [Hp|Hi] Hl IH]; intros R A P U Hg; [eauto|..].
  - destruct (progress_good _ _ _ _ _ _ Hg Hp) as (R' & A' & P' & U' & Hg' & _). by eapply IH.
  - destruct (idle_good _ _ _ _ _ _ Hg Hi) as [Hg' _]. by eapply IH.
Qed.

Lemma next_ends n g R A P U : good_at g R A P U [] -> (left_over g A P U < n)%nat -> Acc (fun g2 g1 => next g1 g2) g.
Proof.
  revert g R A P U. induction n as [|n IH]; intros g R A P U Hg Hn; [lia|]. constructor. intros g1 Hp.
  destruct (next_good _ _ _ _ _ _ Hg Hp) as (R' & A' & P' & U' & Hg' & Hlt). eapply IH; [exact Hg'|lia].
Qed.

Lemma progress_ends n g R A P U : good_at g R A P U [] -> (left_over g A P U < n)%nat -> exists g', rtc progress g g' /\ g_p g' = ∅.
Proof.
  revert g R A P U. induction n as [|n IH]; intros g R A P U Hg Hn; [lia|]. destruct (decide (g_p g = ∅)) as [E|Hne]; [by exists g|].
  destruct (can_progress g R A P U Hg Hne) as (g1 & Hp). destruct (progress_good _ _ _ _ _ _ Hg Hp) as (R' & A' & P' & U' & Hg' & Hlt).
  destruct (IH g1 R' A' P' U' Hg') as (g' & Hl & E); [lia|]. exists g'. split; [by eapply rtc_l|done].
Qed.

(** C9: a process in virtio_disk_rw returns.  If the device works when it has work,
    then from every reachable state in which it has reported no error, with any
    number of processes asleep for descriptors or for their requests, as long as no
    further call is made and no error is reported: there are only finitely many
    steps that get the system on ([progress]), however many idle ones are
    in between; whatever steps are made, one is possible as long as a process is in
    the driver; so unless the system idles forever with such a step possible, every
    process returns.  A process goes on only after a wakeup, and no wakeup is lost:
    whenever what a process waits for has happened, it has been woken. *)
Theorem virtio_rw_returns g : reachable g -> ~ failed (g_s g) ->
  Acc (fun g2 g1 => next g1 g2) g /\
  (forall g1, rtc moves g g1 ->
     (g_p g1 <> ∅ -> exists g2, progress g1 g2) /\
     (forall i cl c, g_p g1 !! i = Some cl -> start_ctx c -> c_rdy cl (set_ctx c (g_s g1)) = true -> c_woken cl = true)) /\
  exists g', rtc progress g g' /\ g_p g' = ∅.
Proof.
  intros (R & A & P & U & F & Hg)%reachable_good Hf. rewrite (failed_iff _ _ _ _ _ _ (go_inv _ _ _ _ _ _ Hg)) in Hf.
  assert (F = []) as -> by (destruct F; [done|by destruct Hf]). split; [by eapply next_ends, Nat.lt_succ_diag_r|].
  split; [|by eapply progress_ends, Nat.lt_succ_diag_r]. intros g1 Hl. destruct (moves_good _ _ _ _ _ _ Hg Hl) as (R1 & A1 & P1 & U1 & Hg1).
  split; [by eapply can_progress|]. intros i cl c Hi Hc. by eapply ready_woken.
Qed.


(** A call goes to sleep: for descriptors, or for its request. *)
Lemma call_sleeps g i b x (write : bool) : reachable g -> g_p g = ∅ -> vs_bufs (g_s g) !! b = Some x ->
  0 <= db_blockno x < 2 ^ 31 -> exists g' cl, reachable g' /\ g_p g' !! i = Some cl /\ (failed (g_s g') -> failed (g_s g)).
Proof.
  intros Hr Hall Hx Hb. assert (g_p g !! i = None) as Hi by by rewrite Hall.
  assert (forall j cl, g_p g !! j = Some cl -> c_buf cl <> b /\ c_block cl <> db_blockno x) as Hno by (intros j cl; by rewrite Hall).
  pose proof (s_call g i b x write run_ctx Hi run_ctx_ok Hx Hb Hno) as Hs. destruct (reachable_good g Hr) as (R & A & P & U & F & Hg).
  destruct (good_call g R A P U F Hg i b x write run_ctx Hi run_ctx_ok Hx Hb Hno) as (g' & R' & A' & E & Hg' & [cl Hcl]).
  rewrite E in Hs. exists g', cl. split; [by eapply r_step|]. split; [done|].
  by rewrite (failed_iff _ _ _ _ _ _ (go_inv _ _ _ _ _ _ Hg)), (failed_iff _ _ _ _ _ _ (go_inv _ _ _ _ _ _ Hg')).
Qed.

End system.

(** ** A device that serves one chain at a time *)
Section example.
Record toy := mkToy { t_blocks : Z -> list Z; t_last : Z; t_pend : list Z }.

Definition toy_reg (a : Z) : Z :=
  if a =? VIRTIO0 + VIRTIO_MMIO_MAGIC_VALUE then 0x74726976
  else if a =? VIRTIO0 + VIRTIO_MMIO_VERSION then 1
  else if a =? VIRTIO0 + VIRTIO_MMIO_DEVICE_ID then 2
  else if a =? VIRTIO0 + VIRTIO_MMIO_VENDOR_ID then 0x554d4551
  else if a =? VIRTIO0 + VIRTIO_MMIO_QUEUE_NUM_MAX then 1024
  else 0.

#[local] Instance toy_mmio : Mmio toy :=
  {| rd8 a w := (0, w); wr8 a v w := w; rd32 a w := (toy_reg a, w); wr32 a v w := w |}.
#[local] Program Instance toy_dev : VirtioDev toy :=
  {| blocks := t_blocks; last_avail := t_last; pending := t_pend |}.
Solve All Obligations with done.

Notation tst := (vst toy).

Lemma toy_spec (s s' : tst) : dev_work s s' -> dev_act s s'.
Proof. apply dev_works. Qed.

Lemma toy_goes (s : tst) : has_work s -> exists s', dev_work s s' /\ dev_work s s'.
Proof.
  cut (has_work s -> exists s', dev_work s s'); [intros H (s' & Hs)%H; by exists s'|].
  intros [h Hne Hh|P1 h P2 r b wr j x Ep Ec Et Hx].
  - eexists. by apply (dev_take s h (mkToy (t_blocks (vs_dev s)) (u16 (t_last (vs_dev s) + 1)) (t_pend (vs_dev s) ++ [h]))).
  - destruct wr; eexists.
    + by apply (dev_read s P1 h P2 r b j x 0 (mkToy (t_blocks (vs_dev s)) (t_last (vs_dev s)) (P1 ++ P2))).
    + by apply (dev_write s P1 h P2 r b j x 0
        (mkToy (<[rq_sector r / 2 := db_data x]> (t_blocks (vs_dev s))) (t_last (vs_dev s)) (P1 ++ P2))).
Qed.

(** The static struct disk, one buffer for block 3. *)
Definition toy_st : tst :=
  mkVst run_ctx
    (mkVDisk [] (mkAvail 0 0 [] 0) (mkUsed 0 0 []) (replicate 8 0) 0 (replicate 8 (mkInfo None 0)) (replicate 8 (mkReq 0 0 0))
       (initlock ""))
    [mkDbuf 0 3 [7]] (mkToy (fun _ => []) 0 []).

Lemma toy_reachable dev : exists g, reachable dev PGSIZE g /\ g_p g = ∅ /\ vs_bufs (g_s g) = vs_bufs toy_st /\ ~ failed (g_s g).
Proof.
  destruct (virtio_disk_init PGSIZE toy_st) as [[] s'| | |] eqn:E; [|vm_compute in E; done..].
  exists (mkCfg s' ∅). split_and!; [|done|..]; [apply (r_init _ _ toy_st)|..]; try done; vm_compute in E; injection E as <-; try done.
  intros (k & h & len & i & Hk & _). change (0 <= k < 0) in Hk. lia.
Qed.

Lemma toy_asleep dev : (forall s s', dev s s' -> dev_act s s') ->
  exists g cl, reachable dev PGSIZE g /\ g_p g !! 1%nat = Some cl /\ ~ failed (g_s g).
Proof.
  intros Hdev. destruct (toy_reachable dev) as (g & Hr & Hall & Hb & Hf).
  destruct (call_sleeps _ _ Hdev g 1 0 (mkDbuf 0 3 [7]) true Hr Hall) as (g' & cl & Hr' & Hi & Hf'); [by rewrite Hb|simpl; lia|].
  exists g', cl. split_and!; try done. intros H. by apply Hf, Hf'.
Qed.

(** A process in the driver, with a device that may report errors. *)
Lemma virtio_no_panic_witness : exists (g : cfg (W := toy)) cl, reachable dev_act PGSIZE g /\ g_p g !! 1%nat = Some cl /\
  forall msg, step dev_act g (inr msg) <-> msg = "virtio_disk_intr status"%string /\ failed (g_s g).
Proof.
  destruct (toy_asleep dev_act (fun _ _ H => H)) as (g & cl & Hr & Hi & _). exists g, cl. split; [exact Hr|]. split; [exact Hi|].
  intros msg. exact (virtio_no_panic dev_act PGSIZE (fun _ _ H => H) g msg Hr).
Defined.

Lemma virtio_rw_returns_witness : exists (g : cfg (W := toy)) cl, reachable dev_work PGSIZE g /\ g_p g !! 1%nat = Some cl /\
  Acc (fun g2 g1 => next dev_work g1 g2) g /\ exists g', rtc (progress dev_work) g g' /\ g_p g' = ∅.
Proof.
  destruct (toy_asleep dev_work toy_spec) as (g & cl & Hr & Hi & Hf). exists g, cl. split; [exact Hr|]. split; [exact Hi|].
  destruct (virtio_rw_returns dev_work PGSIZE toy_spec toy_goes g Hr Hf) as (H1 & _ & H2). split; [exact H1|exact H2].
Defined.

End example.
