(* ===== verification/Log.v ===== *)
(** * kernel/log.c: the write-ahead log

    The log is written against the interface of the buffer cache
    ([BlockCache]), so that its theorems hold for bio.c and for any cache with
    those laws.  [initlog], [begin_op], [end_op], [log_write] and the functions
    they call are the definitions of Section [code]; the rest of the file shows
    that a transaction is atomic with respect to crashes: whatever prefix of the
    disk writes of [commit] reaches the disk, recovery yields the blocks as they
    were before the transaction or as they are after it. *)
From S2P Require Import Prelude Machine Spinlock Block.
Local Open Scope Z_scope.
Local Open Scope kernel_scope.

Record logheader := mkLH { lh_n : Z; lh_block : list Z }.

Record log := mkLog {
  lg_lock : spinlock;
  lg_start : Z;
  lg_size : Z;
  lg_outstanding : Z;  (* how many FS sys calls are executing. *)
  lg_committing : Z;   (* in commit(), please wait. *)
  lg_dev : Z;
  lg_lh : logheader
}.

Definition set_lg_lock (v : spinlock) (l : log) : log :=
  mkLog v (lg_start l) (lg_size l) (lg_outstanding l) (lg_committing l) (lg_dev l) (lg_lh l).
Definition set_outstanding (v : Z) (l : log) : log :=
  mkLog (lg_lock l) (lg_start l) (lg_size l) v (lg_committing l) (lg_dev l) (lg_lh l).
Definition set_committing (v : Z) (l : log) : log :=
  mkLog (lg_lock l) (lg_start l) (lg_size l) (lg_outstanding l) v (lg_dev l) (lg_lh l).
Definition set_lh (v : logheader) (l : log) : log :=
  mkLog (lg_lock l) (lg_start l) (lg_size l) (lg_outstanding l) (lg_committing l) (lg_dev l) v.
Definition set_n (v : Z) (l : log) : log := set_lh (mkLH v (lh_block (lg_lh l))) l.
Definition set_block (i : nat) (v : Z) (l : log) : log :=
  set_lh (mkLH (lh_n (lg_lh l)) (<[i := v]> (lh_block (lg_lh l)))) l.

(** The fields of the superblock the log uses (struct superblock, fs.h). *)
Record sb_log := mkSbLog { sb_logstart : Z; sb_nlog : Z }.

Section code.
Context {ST B : Type} {dev : Z} `{BC : !BlockCache ST B dev}.

Record lst := LS { ls_ctx : ctx; ls_log : log; ls_cache : ST }.

Definition cacheL : lens lst (ctx * ST) :=
  Lens (fun s => (ls_ctx s, ls_cache s)) (fun t s => LS t.1 (ls_log s) t.2).
Definition lH : lens lst hart :=
  Lens (fun s => cx_hart (ls_ctx s))
       (fun h s => LS (Ctx h (cx_pid (ls_ctx s)) (cx_wakes (ls_ctx s))) (ls_log s) (ls_cache s)).
Definition lL : lens lst spinlock :=
  Lens (fun s => lg_lock (ls_log s)) (fun l s => LS (ls_ctx s) (set_lg_lock l (ls_log s)) (ls_cache s)).

Definition upd_log (f : log -> log) : K lst unit :=
  modify (fun s => LS (ls_ctx s) (f (ls_log s)) (ls_cache s)).
Definition log_get {A} (f : log -> A) : K lst A := gets (fun s => f (ls_log s)).
Definition wakeup (c : chan) : K lst unit :=
  modify (fun s => LS (Ctx (cx_hart (ls_ctx s)) (cx_pid (ls_ctx s)) (c :: cx_wakes (ls_ctx s))) (ls_log s) (ls_cache s)).

(** An access of log.lh.block outside the array is undefined in C. *)
Definition get_block (i : Z) : K lst Z :=
  l <- log_get (fun l => lh_block (lg_lh l));;
  if i <? 0 then panic "undefined: log.lh.block index" else
  match l !! Z.to_nat i with
  | Some b => ret b
  | None => panic "undefined: log.lh.block index"
  end.
Definition put_block (i v : Z) : K lst unit :=
  l <- log_get (fun l => lh_block (lg_lh l));;
  if (i <? 0) || (LOGSIZE <=? i) then panic "undefined: log.lh.block index" else
  upd_log (set_block (Z.to_nat i) v).

Definition rd (b : B) : K lst (list Z) := gets (fun s => bdata (ls_cache s) b).
Definition wr (b : B) (d : list Z) : K lst unit :=
  modify (fun s => LS (ls_ctx s) (ls_log s) (set_bdata b d (ls_cache s))).

Definition install_trans (recovering : bool) : K lst unit :=
  n <- log_get (fun l => lh_n (lg_lh l));;
  _ <- for_each (seqZ 0 n) (fun tail =>
    start <- log_get lg_start;;
    d <- log_get lg_dev;;
    lbuf <- zoom cacheL (bread d (u32 (start + tail + 1)));;
    home <- get_block tail;;
    dbuf <- zoom cacheL (bread d (u32 home));;
    data <- rd lbuf;;
    wr dbuf data;;
    zoom cacheL (bwrite dbuf);;
    (if recovering then ret tt else zoom cacheL (bunpin dbuf));;
    zoom cacheL (brelse lbuf);;
    zoom cacheL (brelse dbuf);;
    ret (@None unit));;
  ret tt.

(** Fields of the header block. *)
Definition hdr_n (d : list Z) : Z := s32 (get32 d 0).
Definition hdr_block (d : list Z) (i : Z) : Z := s32 (get32 d (4 + 4 * Z.to_nat i)).

Definition read_head : K lst unit :=
  start <- log_get lg_start;;
  dv <- log_get lg_dev;;
  buf <- zoom cacheL (bread dv (u32 start));;
  d <- rd buf;;
  upd_log (set_n (hdr_n d));;
  n <- log_get (fun l => lh_n (lg_lh l));;
  _ <- for_each (seqZ 0 n) (fun i =>
    put_block i (hdr_block d i);; ret (@None unit));;
  zoom cacheL (brelse buf).

Definition write_head : K lst unit :=
  start <- log_get lg_start;;
  dv <- log_get lg_dev;;
  buf <- zoom cacheL (bread dv (u32 start));;
  n <- log_get (fun l => lh_n (lg_lh l));;
  d <- rd buf;;
  wr buf (put32 d 0 (u32 n));;
  _ <- for_each (seqZ 0 n) (fun i =>
    v <- get_block i;;
    d <- rd buf;;
    wr buf (put32 d (4 + 4 * Z.to_nat i) (u32 v));;
    ret (@None unit));;
  zoom cacheL (bwrite buf);;
  zoom cacheL (brelse buf).

Definition recover_from_log : K lst unit :=
  read_head;;
  install_trans true;; (* if committed, copy from log to disk *)
  upd_log (set_n 0);;
  write_head.          (* clear the log *)

Definition initlog (dev : Z) (sb : sb_log) : K lst unit :=
  (* sizeof(struct logheader) *)
  if BSIZE <=? 4 + 4 * LOGSIZE then panic "initlog: too big logheader" else
  modify (over lL (initlock "log"));;
  upd_log (fun l => mkLog (lg_lock l) (s32 (sb_logstart sb)) (s32 (sb_nlog sb))
                          (lg_outstanding l) (lg_committing l) dev (lg_lh l));;
  recover_from_log.

Definition begin_op : K lst unit :=
  acquire lH lL;;
  sleep_until lH lL ChanLog (fun s =>
    let l := ls_log s in
    (lg_committing l =? 0) && (lh_n (lg_lh l) + (lg_outstanding l + 1) * MAXOPBLOCKS <=? LOGSIZE));;
  upd_log (fun l => set_outstanding (lg_outstanding l + 1) l);;
  release lH lL.

(** Copy modified blocks from cache to log. *)
Definition write_log : K lst unit :=
  n <- log_get (fun l => lh_n (lg_lh l));;
  _ <- for_each (seqZ 0 n) (fun tail =>
    start <- log_get lg_start;;
    d <- log_get lg_dev;;
    to <- zoom cacheL (bread d (u32 (start + tail + 1)));;
    home <- get_block tail;;
    from <- zoom cacheL (bread d (u32 home));;
    data <- rd from;;
    wr to data;;
    zoom cacheL (bwrite to);;
    zoom cacheL (brelse from);;
    zoom cacheL (brelse to);;
    ret (@None unit));;
  ret tt.

Definition commit : K lst unit :=
  n <- log_get (fun l => lh_n (lg_lh l));;
  if 0 <? n then
    write_log;;            (* Write modified blocks from cache to log *)
    write_head;;           (* Write header to disk -- the real commit *)
    install_trans false;;  (* Now install writes to home locations *)
    upd_log (set_n 0);;
    write_head             (* Erase the transaction from the log *)
  else ret tt.

Definition end_op : K lst unit :=
  acquire lH lL;;
  upd_log (fun l => set_outstanding (lg_outstanding l - 1) l);;
  c <- log_get lg_committing;;
  if negb (c =? 0) then panic "log.committing" else
  o <- log_get lg_outstanding;;
  do_commit <- (if o =? 0 then upd_log (set_committing 1);; ret true
                else wakeup ChanLog;; ret false);;
  release lH lL;;
  if do_commit : bool then
    commit;;
    acquire lH lL;;
    upd_log (set_committing 0);;
    wakeup ChanLog;;
    release lH lL
  else ret tt.

Definition log_write (b : B) : K lst unit :=
  n <- log_get (fun l => lh_n (lg_lh l));;
  sz <- log_get lg_size;;
  if (LOGSIZE <=? n) || (sz - 1 <=? n) then panic "too big a transaction" else
  o <- log_get lg_outstanding;;
  if o <? 1 then panic "log_write outside of trans" else
  acquire lH lL;;
  blockno <- gets (fun s => bblockno (ls_cache s) b);;
  n <- log_get (fun l => lh_n (lg_lh l));;
  found <- for_each (seqZ 0 n) (fun i =>
    v <- get_block i;;
    if u32 v =? blockno then ret (Some i) (* log absorbtion *) else ret None);;
  let i := default (Z.max 0 n) found in
  put_block i (s32 blockno);;
  (if i =? n then (* Add new block to log? *)
     zoom cacheL (bpin b);;
     upd_log (fun l => set_n (lh_n (lg_lh l) + 1) l)
   else ret tt);;
  release lH lL.
End code.

(** ** Running the operations of the cache from the log *)
Section proofs.
Context {ST B : Type} {dev : Z} `{BC : !BlockCache ST B dev}.
Implicit Types (a : acache B) (s : @lst ST).

Definition lrep s a : Prop := cx_ok (ls_ctx s) /\ rep (cx_pid (ls_ctx s)) (ls_cache s) a.

(** A step that leaves the log record alone. *)
Definition same_log s s' : Prop := ls_log s' = ls_log s /\ cx_step (ls_ctx s) (ls_ctx s').

#[export] Instance same_log_refl : Reflexive same_log.
Proof. by split. Qed.
#[export] Instance same_log_trans : Transitive same_log.
Proof. intros s1 s2 s3 [E1 H1] [E2 H2]. split; [congruence|by etransitivity]. Qed.

(** Lift a law of the cache. *)
Lemma lift_law {A} (m : K (ctx * ST) A) s (Q : A -> acache B) :
  cx_ok (ls_ctx s) ->
  wp (m (ls_ctx s, ls_cache s)) (fun r '(c', t') => cx_step (ls_ctx s) c' /\ rep (cx_pid (ls_ctx s)) t' (Q r)) ->
  wp (zoom cacheL m s) (fun r s' => lrep s' (Q r) /\ same_log s s').
Proof.
  intros Hc H. apply wp_zoom. eapply wp_mono; [|exact H]. intros r [c' t'] [Hst Hrep]. simpl. split; [|by split].
  split; [by eapply cx_ok_step|]. simpl. by rewrite (cx_same_pid _ _ Hst).
Qed.

Section ops.
Context (s : @lst ST) (a : acache B) (n : Z) (b : B).
Context (Hrep : lrep s a).

Lemma z_bread : is_u32 n -> held a !! n = None -> room n a ->
  wp (zoom cacheL (bread dev n) s) (fun b s' => lrep s' (a_hold n b a) /\ same_log s s').
Proof. intros. destruct Hrep. apply (lift_law _ _ (fun b => a_hold n b a)); [done|]. by apply bread_law. Qed.

Lemma z_bwrite : held a !! n = Some b ->
  wp (zoom cacheL (bwrite b) s) (fun _ s' => lrep s' (a_write n a) /\ same_log s s').
Proof. intros. destruct Hrep. apply (lift_law _ _ (fun _ => a_write n a)); [done|]. by apply bwrite_law. Qed.

Lemma z_brelse : held a !! n = Some b -> n ∈ pinned a \/ logical a n = on_disk a n ->
  wp (zoom cacheL (brelse b) s) (fun _ s' => lrep s' (a_drop n a) /\ same_log s s').
Proof. intros. destruct Hrep. apply (lift_law _ _ (fun _ => a_drop n a)); [done|]. by apply brelse_law. Qed.

Lemma z_bpin : held a !! n = Some b -> n ∉ pinned a ->
  wp (zoom cacheL (bpin b) s) (fun _ s' => lrep s' (a_pin n a) /\ same_log s s').
Proof. intros. destruct Hrep. apply (lift_law _ _ (fun _ => a_pin n a)); [done|]. by apply bpin_law. Qed.

Lemma z_bunpin : held a !! n = Some b -> n ∈ pinned a ->
  wp (zoom cacheL (bunpin b) s) (fun _ s' => lrep s' (a_unpin n a) /\ same_log s s').
Proof. intros. destruct Hrep. apply (lift_law _ _ (fun _ => a_unpin n a)); [done|]. by apply bunpin_law. Qed.

Lemma z_rd : held a !! n = Some b -> wp (rd b s) (fun d s' => d = logical a n /\ s' = s).
Proof. intros Hh. destruct Hrep as [_ Hr]. unfold rd. kstep. split; [|done]. by apply (bdata_law _ _ _ _ _ Hr). Qed.

Lemma z_wr d : held a !! n = Some b -> block_ok d ->
  wp (wr b d s) (fun _ s' => lrep s' (a_set n d a) /\ same_log s s').
Proof.
  intros Hh Hd. destruct Hrep as [Hc Hr]. unfold wr. kstep. split; [|by split]. split; [done|]. simpl.
  by apply set_bdata_law.
Qed.
End ops.

Lemma lrep_equiv s a a' : aequiv a a' -> lrep s a -> lrep s a'.
Proof. intros E [Hc Hr]. split; [done|]. by eapply rep_equiv. Qed.

(** ** Sequences of disk writes *)
Definition apply_writes (f : Z -> list Z) (W : list (Z * list Z)) : Z -> list Z :=
  foldl (fun f w => <[w.1 := w.2]> f) f W.

Definition puts (W : list (Z * list Z)) a : acache B :=
  AC (apply_writes (logical a) W) (apply_writes (on_disk a) W) (writes a ++ W) (held a) (pinned a).

Lemma puts_nil a : aequiv (puts [] a) a.
Proof. split; try done. apply app_nil_r. Qed.

Lemma puts_snoc W n d a : aequiv (puts (W ++ [(n, d)]) a) (a_put n d (puts W a)).
Proof. split; intros; unfold puts, apply_writes; simpl; rewrite ?foldl_app, ?app_assoc; done. Qed.

Lemma puts_app W1 W2 a : aequiv (puts (W1 ++ W2) a) (puts W2 (puts W1 a)).
Proof. split; intros; unfold puts, apply_writes; simpl; rewrite ?foldl_app, ?app_assoc; done. Qed.

Lemma apply_writes_app f W1 W2 : apply_writes f (W1 ++ W2) = apply_writes (apply_writes f W1) W2.
Proof. apply foldl_app. Qed.

Lemma apply_writes_cons f n d W : apply_writes f ((n, d) :: W) = apply_writes (<[n := d]> f) W.
Proof. done. Qed.

Lemma apply_writes_out f W k : k ∉ W.*1 -> apply_writes f W k = f k.
Proof.
  revert f. induction W as [|[n d] W IH]; intros f Hk; [done|]. simpl in *.
  apply not_elem_of_cons in Hk as [Hn Hk]. unfold apply_writes in *. simpl. rewrite IH by done.
  by rewrite fn_lookup_insert_ne.
Qed.

Lemma apply_writes_in f W k d : NoDup W.*1 -> (k, d) ∈ W -> apply_writes f W k = d.
Proof.
  revert f. induction W as [|[n e] W IH]; intros f Hnd Hin; [by apply elem_of_nil in Hin|].
  simpl in *. apply NoDup_cons in Hnd as [Hn Hnd]. change (apply_writes f ((n, e) :: W)) with (apply_writes (<[n := e]> f) W).
  apply elem_of_cons in Hin as [[= -> ->]|Hin]; [|by apply IH].
  rewrite apply_writes_out by done. by rewrite fn_lookup_insert.
Qed.

Lemma apply_writes_ok f W : (forall k, block_ok (f k)) -> (forall w, w ∈ W -> block_ok w.2) ->
  forall k, block_ok (apply_writes f W k).
Proof.
  revert f. induction W as [|[n d] W IH]; intros f Hf HW k; [apply Hf|]. rewrite apply_writes_cons. apply IH.
  - intros k'. destruct (decide (k' = n)) as [->|]; [|by rewrite fn_lookup_insert_ne].
    rewrite fn_lookup_insert. apply (HW (n, d)), elem_of_cons. by left.
  - intros w Hw. apply HW, elem_of_cons. by right.
Qed.

(** ** The shape of a log with a transaction *)
Definition txn (l : log) : list Z := take (Z.to_nat (lh_n (lg_lh l))) (lh_block (lg_lh l)).

Definition in_log (l : log) (k : Z) : Prop := lg_start l <= k < lg_start l + lg_size l.

Record log_ok (l : log) : Prop := {
  lo_dev : lg_dev l = dev;
  lo_region : 0 <= lg_start l /\ lg_start l + lg_size l <= 2 ^ 31;
  lo_n : 0 <= lh_n (lg_lh l) < lg_size l;
  lo_max : lh_n (lg_lh l) < NBUF;
  lo_array : length (lh_block (lg_lh l)) = Z.to_nat LOGSIZE /\ lh_n (lg_lh l) <= LOGSIZE;
  lo_home : forall h, h ∈ txn l -> 0 <= h < 2 ^ 31 /\ ~ in_log l h;
  lo_nodup : NoDup (txn l)
}.

Lemma length_txn l : log_ok l -> length (txn l) = Z.to_nat (lh_n (lg_lh l)).
Proof. intros Hl. unfold txn. rewrite length_take. destruct (lo_array _ Hl), (lo_n _ Hl). lia. Qed.

Lemma get_block_ok s i h : txn (ls_log s) !! i = Some h -> wp (get_block (Z.of_nat i) s) (fun r s' => r = h /\ s' = s).
Proof.
  intros Hh. unfold get_block, log_get. do 2 kstep. destruct (Z.ltb_spec (Z.of_nat i) 0); [lia|].
  rewrite Nat2Z.id. unfold txn in Hh. apply lookup_take_Some in Hh as [-> _]. by kstep.
Qed.

(** The position of a round in a loop over [0, n). *)
Lemma seqZ_split n x d rest : seqZ 0 n = d ++ x :: rest ->
  x = Z.of_nat (length d) /\ (length d < Z.to_nat n)%nat /\ rest = seqZ (x + 1) (n - (x + 1)).
Proof.
  intros E. assert (seqZ 0 n !! length d = Some x) as Hx by (rewrite E; by apply list_lookup_middle).
  apply lookup_seqZ in Hx as [Hx Hlt]. split_and!; [lia|lia|].
  assert (drop (1 + length d) (seqZ 0 n) = rest) as <-.
  { rewrite E. change (d ++ x :: rest) with (d ++ [x] ++ rest). rewrite app_assoc.
    rewrite drop_app_length'; [done|]. rewrite length_app. simpl. lia. }
  apply list_eq. intros i. rewrite lookup_drop.
  destruct (decide (Z.of_nat i < n - (x + 1))).
  - rewrite !lookup_seqZ_lt by lia. f_equal. lia.
  - rewrite !lookup_seqZ_ge by lia. done.
Qed.

(** ** Copying blocks between their home and the log *)
Section copy.
Context (s : @lst ST) (a : acache B) (Hrep : lrep s a) (Hheld : held a = ∅).

Lemma not_held k : held a !! k = None.
Proof. by rewrite Hheld, lookup_empty. Qed.

Lemma held_hold k b a' : held (a_hold k b a') !! k = Some b.
Proof. apply lookup_insert_eq. Qed.

(** The cache after both buffers are released again. *)
Lemma copied_equiv x y bx by_ a1 : x <> y -> a1 = a_hold x bx (a_hold y by_ a) \/ a1 = a_hold y by_ (a_hold x bx a) ->
  aequiv (a_drop y (a_drop x (a_write y (a_set y (logical a x) a1)))) (a_put y (logical a x) a) /\
  aequiv (a_drop x (a_drop y (a_write y (a_set y (logical a x) a1)))) (a_put y (logical a x) a).
Proof.
  intros Hxy Ha1. assert (delete y (delete x (held a1)) = held a /\ delete x (delete y (held a1)) = held a) as [E1 E2].
  { destruct Ha1 as [-> | ->]; simpl; rewrite Hheld; split; apply map_eq; intros k; simplify_map_eq;
      destruct (decide (k = x)), (decide (k = y)); subst; by simplify_map_eq. }
  assert (logical a1 = logical a /\ on_disk a1 = on_disk a /\ writes a1 = writes a /\ pinned a1 = pinned a)
    as (L1 & L2 & L3 & L4) by (by destruct Ha1 as [-> | ->]).
  split; split; simpl; intros; rewrite ?L1, ?L2, ?L3, ?L4, ?fn_lookup_insert; try done.
Qed.

Lemma block_ok_logical k : block_ok (logical a k).
Proof. destruct Hrep as [_ Hr]. apply (rep_blocks _ _ _ Hr). Qed.

Definition same_cache (s' : @lst ST) (a' : acache B) : Prop := lrep s' a' /\ same_log s s'.

(** A round of [write_log]: [x] is the home block, [y] the log block. *)
Lemma copy_to_log x y {X} (r : X) : is_u32 x -> is_u32 y -> x <> y -> x ∈ pinned a -> Z.of_nat (size (pinned a)) < NBUF ->
  forall (get : K (@lst ST) Z) home, (forall s', ls_log s' = ls_log s -> wp (get s') (fun h s'' => h = home /\ s'' = s')) -> u32 home = x ->
  wp ((to <- zoom cacheL (bread dev y);;
       home <- get;;
       from <- zoom cacheL (bread dev (u32 home));;
       data <- rd from;;
       wr to data;;
       zoom cacheL (bwrite to);;
       zoom cacheL (brelse from);;
       zoom cacheL (brelse to);;
       ret r) s) (fun r' s' => r' = r /\ same_cache s' (a_put y (logical a x) a)).
Proof.
  intros Hx Hy Hxy Hpin Hroom get home Hget Hhome.
  kstep. eapply wp_mono; [|apply (z_bread s a y Hrep Hy (not_held y))].
  2:{ destruct (decide (y ∈ in_use a)); [by left|right]. unfold in_use in *. rewrite Hheld, dom_empty_L in *.
      by rewrite (left_id_L ∅ union). }
  intros bt s1 [R1 L1]. kstep. eapply wp_mono; [|apply Hget, L1]. intros h s1' [-> ->]. rewrite Hhome.
  kstep. eapply wp_mono; [|apply (z_bread s1 _ x R1 Hx)].
  2:{ simpl. rewrite lookup_insert_ne by done. apply not_held. }
  2:{ left. unfold in_use. simpl. apply elem_of_union. by right. }
  intros bf s2 [R2 L2].
  assert (held (a_hold x bf (a_hold y bt a)) !! y = Some bt) as Ht.
  { simpl. rewrite lookup_insert_ne, lookup_insert_eq by done. done. }
  kstep. eapply wp_mono; [|apply (z_rd _ _ x bf R2), held_hold]. intros d s2' [-> ->].
  kstep. eapply wp_mono; [|apply (z_wr _ _ y bt R2); [done|apply block_ok_logical]]. intros _ s3 [R3 L3].
  kstep. eapply wp_mono; [|apply (z_bwrite _ _ y bt R3); done]. intros _ s4 [R4 L4].
  kstep. eapply wp_mono; [|apply (z_brelse _ _ x bf R4); [apply held_hold|by left]]. intros _ s5 [R5 L5].
  kstep. eapply wp_mono; [|apply (z_brelse _ _ y bt R5)].
  2:{ simpl. rewrite lookup_delete_ne by done. done. }
  2:{ right. simpl. by rewrite !fn_lookup_insert. }
  intros _ s6 [R6 L6]. kstep. split; [done|]. split.
  - eapply lrep_equiv; [|exact R6]. eapply (copied_equiv x y bf bt); [done|by left].
  - by repeat (etransitivity; [|done]).
Qed.

(** A round of [install_trans]: [x] is the log block, [y] the home block. *)
Lemma copy_to_home recovering x y {X} (r : X) : is_u32 x -> is_u32 y -> x <> y -> x ∉ pinned a ->
  (if recovering : bool then y ∉ pinned a else y ∈ pinned a) -> Z.of_nat (size (pinned a)) + 2 <= NBUF \/ y ∈ pinned a /\ Z.of_nat (size (pinned a)) < NBUF ->
  forall (get : K (@lst ST) Z) home, (forall s', ls_log s' = ls_log s -> wp (get s') (fun h s'' => h = home /\ s'' = s')) -> u32 home = y ->
  wp ((lbuf <- zoom cacheL (bread dev x);;
       home <- get;;
       dbuf <- zoom cacheL (bread dev (u32 home));;
       data <- rd lbuf;;
       wr dbuf data;;
       zoom cacheL (bwrite dbuf);;
       (if recovering then ret tt else zoom cacheL (bunpin dbuf));;
       zoom cacheL (brelse lbuf);;
       zoom cacheL (brelse dbuf);;
       ret r) s) (fun r' s' => r' = r /\
         same_cache s' (if recovering then a_put y (logical a x) a else a_unpin y (a_put y (logical a x) a))).
Proof.
  intros Hx Hy Hxy Hxp Hyp Hroom get home Hget Hhome.
  kstep. eapply wp_mono; [|apply (z_bread s a x Hrep Hx (not_held x))].
  2:{ right. unfold in_use in *. rewrite Hheld, dom_empty_L, (left_id_L ∅ union). lia. }
  intros bl s1 [R1 L1]. kstep. eapply wp_mono; [|apply Hget, L1]. intros h s1' [-> ->]. rewrite Hhome.
  kstep. eapply wp_mono; [|apply (z_bread s1 _ y R1 Hy)].
  2:{ simpl. rewrite lookup_insert_ne by done. apply not_held. }
  2:{ unfold room, in_use. simpl. rewrite Hheld. destruct Hroom as [Hroom|[Hroom _]]; [right|left; apply elem_of_union; by right].
      rewrite insert_empty, dom_singleton_L. rewrite size_union_alt.
      assert (size (pinned a ∖ {[x]}) <= size (pinned a))%nat by (apply subseteq_size, subseteq_difference_l; done).
      rewrite size_singleton. lia. }
  intros bd s2 [R2 L2].
  assert (held (a_hold y bd (a_hold x bl a)) !! x = Some bl) as Ht.
  { simpl. rewrite lookup_insert_ne, lookup_insert_eq by done. done. }
  kstep. eapply wp_mono; [|apply (z_rd _ _ x bl R2); done]. intros d s2' [-> ->].
  kstep. eapply wp_mono; [|apply (z_wr _ _ y bd R2); [apply held_hold|apply block_ok_logical]]. intros _ s3 [R3 L3].
  kstep. eapply wp_mono; [|apply (z_bwrite _ _ y bd R3), held_hold]. intros _ s4 [R4 L4].
  assert (logical a x = on_disk a x) as Hclean.
  { destruct Hrep as [_ Hr]. apply (rep_clean _ _ _ _ Hr); [done|apply not_held]. }
  set (a4 := a_write y _) in *.
  assert (logical a4 x = on_disk a4 x /\ logical a4 y = on_disk a4 y) as [C1 C2].
  { simpl. rewrite !fn_lookup_insert, !fn_lookup_insert_ne by done. done. }
  assert (held a4 !! y = Some bd /\ held a4 !! x = Some bl) as [Hd Hl] by (split; [apply held_hold|done]).
  destruct (copied_equiv x y bl bd (a_hold y bd (a_hold x bl a)) Hxy (or_intror eq_refl)) as [Ea _]. fold a4 in Ea.
  kstep. eapply wp_mono with (P := fun _ s5 => lrep s5 (if recovering then a4 else a_unpin y a4) /\ same_log s s5).
  - intros u s5 [R5 L5]. clear u.
    assert (aequiv (a_drop y (a_drop x (if recovering then a4 else a_unpin y a4)))
              (if recovering then a_put y (logical a x) a else a_unpin y (a_put y (logical a x) a))) as Ea'.
    { destruct recovering; [done|]. destruct Ea as [F1 F2 F3 F4 F5]. by split. }
    set (a5 := if recovering then a4 else _) in *.
    assert (held a5 = held a4 /\ logical a5 = logical a4 /\ on_disk a5 = on_disk a4) as (G1 & G2 & G3)
      by (unfold a5; by destruct recovering).
    kstep. eapply wp_mono; [|apply (z_brelse _ _ x bl R5); [by rewrite G1|right; by rewrite G2, G3]]. intros _ s6 [R6 L6].
    kstep. eapply wp_mono; [|apply (z_brelse _ _ y bd R6)].
    2:{ cbn [a_drop held]. rewrite lookup_delete_ne by done. by rewrite G1. }
    2:{ right. cbn [a_drop logical on_disk]. by rewrite G2, G3. }
    intros _ s7 [R7 L7]. kstep. split; [done|]. split; [by eapply lrep_equiv|by repeat (etransitivity; [|done])].
  - assert (same_log s s4) as L by by repeat (etransitivity; [|done]). destruct recovering; [by kstep|].
    eapply wp_mono; [|apply (z_bunpin _ _ y bd R4); done]. intros _ s5 [R5 L5]. split; [done|by etransitivity].
Qed.
End copy.

(** ** The writes of the two copy loops *)
Definition logw (l : log) (L : Z -> list Z) : list (Z * list Z) :=
  imap (fun t h => (lg_start l + Z.of_nat t + 1, L h)) (txn l).
Definition homew (l : log) (L : Z -> list Z) : list (Z * list Z) :=
  imap (fun t h => (h, L (lg_start l + Z.of_nat t + 1))) (txn l).

Lemma logw_fst l L k : log_ok l -> k ∈ (logw l L).*1 -> in_log l k /\ k <> lg_start l.
Proof.
  intros Hl Hk. apply list_elem_of_fmap in Hk as ([k' d] & -> & Hk). unfold logw in Hk.
  apply elem_of_lookup_imap in Hk as (t & h & [= -> ->] & Ht). apply lookup_lt_Some in Ht.
  rewrite (length_txn l Hl) in Ht. destruct (lo_n _ Hl). unfold in_log. simpl. lia.
Qed.

Lemma homew_fst l L : (homew l L).*1 = txn l.
Proof.
  unfold homew. apply list_eq. intros i. rewrite list_lookup_fmap, list_lookup_imap.
  by destruct (txn l !! i).
Qed.

Lemma NoDup_logw l L : NoDup (logw l L).*1.
Proof.
  unfold logw. rewrite NoDup_alt. intros i j x. rewrite !list_lookup_fmap, !list_lookup_imap.
  destruct (txn l !! i), (txn l !! j); simpl; try done. intros [= <-] [= E]. lia.
Qed.

Lemma u32_int k : 0 <= k < 2 ^ 31 -> is_u32 k /\ u32 k = k.
Proof. intros. unfold is_u32. rewrite u32_id by lia. split; [lia|done]. Qed.

Lemma for_each_seqZ {X} n (body : Z -> K (@lst ST) (option X)) (I : nat -> @lst ST -> Prop) s :
  (forall k s, (k < Z.to_nat n)%nat -> I k s -> wp (body (Z.of_nat k) s) (fun r s' => r = None /\ I (1 + k)%nat s')) ->
  I O s -> wp (for_each (seqZ 0 n) body s) (fun _ s' => I (Z.to_nat n) s').
Proof.
  intros Hbody H0. apply (wp_for_range n body I); [|done|done]. intros k s1 Hk HI.
  eapply wp_mono; [|by apply Hbody]. by intros r s2 [-> HI2].
Qed.

Section loops.
Context (s : @lst ST) (a : acache B) (l := ls_log s).
Context (Hrep : lrep s a) (Hheld : held a = ∅) (Hl : log_ok l).

Lemma txn_lookup k : (k < Z.to_nat (lh_n (lg_lh l)))%nat -> exists h, txn l !! k = Some h /\ 0 <= h < 2 ^ 31 /\ ~ in_log l h.
Proof.
  intros Hk. destruct (lookup_lt_is_Some_2 (txn l) k) as [h Hh]; [by rewrite length_txn|]. exists h. split; [done|].
  apply (lo_home _ Hl). by eapply list_elem_of_lookup_2.
Qed.

Lemma log_block_ok k : (k < Z.to_nat (lh_n (lg_lh l)))%nat ->
  0 <= lg_start l + Z.of_nat k + 1 < 2 ^ 31 /\ in_log l (lg_start l + Z.of_nat k + 1).
Proof. intros Hk. destruct (lo_region _ Hl), (lo_n _ Hl). unfold in_log. lia. Qed.

Lemma write_log_ok : (forall h, h ∈ txn l -> h ∈ pinned a) -> Z.of_nat (size (pinned a)) < NBUF ->
  wp (write_log s) (fun _ s' => lrep s' (puts (logw l (logical a)) a) /\ same_log s s').
Proof.
  intros Hpin Hsize. unfold write_log, log_get. do 3 kstep.
  eapply wp_mono; [|apply (for_each_seqZ _ _ (fun k s' => lrep s' (puts (take k (logw l (logical a))) a) /\ same_log s s'))].
  - intros r s' [R L]. kstep. split; [|done]. fold l in R. rewrite firstn_all2 in R; [done|].
    unfold logw. rewrite length_imap, (length_txn l Hl). done.
  - intros k s1 Hk [R1 [Elog Hcx]]. fold l in Hk. destruct (txn_lookup k Hk) as (h & Hh & Hr & Hout).
    destruct (log_block_ok k Hk) as [Hy Hin]. destruct (u32_int _ Hy) as [Hy1 Hy2]. destruct (u32_int h Hr) as [Hh1 Hh2].
    do 4 kstep. rewrite Elog. fold l. rewrite (lo_dev _ Hl), Hy2.
    assert (h ∈ txn l) as Hht by by eapply list_elem_of_lookup_2.
    eapply wp_mono; [|eapply (copy_to_log s1 _ R1 Hheld h _ (@None unit) Hh1 Hy1) with (home := h)]; try done.
    + intros r s2 [-> [R2 L2]]. split; [done|]. split; [|by etransitivity; [split|]].
      eapply lrep_equiv; [|exact R2]. erewrite take_S_r by (unfold logw; rewrite list_lookup_imap, Hh; done).
      etransitivity; [|symmetry; apply puts_snoc]. simpl. rewrite apply_writes_out; [done|].
      intros Hk'. apply list_elem_of_fmap in Hk' as (w & Ew & Hw). apply elem_of_take in Hw as (i & Hw & _).
      destruct (logw_fst l (logical a) h Hl) as [Hbad _]; [|done].
      apply list_elem_of_fmap. exists w. split; [done|]. by eapply list_elem_of_lookup_2.
    + intros ->. done.
    + by apply Hpin.
    + intros s' Es'. apply get_block_ok. by rewrite Es', Elog.
  - split; [|done]. eapply lrep_equiv; [symmetry; apply puts_nil|done].
Qed.

(** The cache after the first [k] blocks were installed. *)
Definition installed (recovering : bool) (k : nat) : acache B :=
  let a' := puts (take k (homew l (logical a))) a in
  AC (logical a') (on_disk a') (writes a') (held a')
     (if recovering then pinned a else pinned a ∖ list_to_set (take k (txn l))).

Lemma take_homew k h : txn l !! k = Some h ->
  take (1 + k) (homew l (logical a)) = take k (homew l (logical a)) ++ [(h, logical a (lg_start l + Z.of_nat k + 1))].
Proof. intros Hh. apply take_S_r. unfold homew. by rewrite list_lookup_imap, Hh. Qed.

Lemma homew_take_fst k : (take k (homew l (logical a))).*1 = take k (txn l).
Proof. by rewrite fmap_take, homew_fst. Qed.

Lemma txn_take_notin k h : txn l !! k = Some h -> h ∉ take k (txn l).
Proof.
  intros Hh Hin. apply elem_of_take in Hin as (i & Hi & Hlt). pose proof (lo_nodup _ Hl) as Hnd.
  eapply NoDup_lookup in Hnd; [|exact Hh|exact Hi]. lia.
Qed.

Lemma install_trans_ok recovering :
  (forall h, h ∈ txn l -> if recovering : bool then h ∉ pinned a else h ∈ pinned a) ->
  (forall k, in_log l k -> k ∉ pinned a) ->
  (if recovering then Z.of_nat (size (pinned a)) + 2 <= NBUF else Z.of_nat (size (pinned a)) < NBUF) ->
  wp (install_trans recovering s) (fun _ s' =>
    lrep s' (installed recovering (length (txn l))) /\ same_log s s').
Proof.
  intros Hpin Hlogpin Hsize. unfold install_trans, log_get. do 3 kstep.
  eapply wp_mono; [|apply (for_each_seqZ _ _ (fun k s' => lrep s' (installed recovering k) /\ same_log s s'))].
  - intros r s' [R L]. kstep. by rewrite length_txn by done.
  - intros k s1 Hk [R1 [Elog Hcx]]. fold l in Hk. destruct (txn_lookup k Hk) as (h & Hh & Hr & Hout).
    destruct (log_block_ok k Hk) as [Hy Hin]. destruct (u32_int _ Hy) as [Hy1 Hy2]. destruct (u32_int h Hr) as [Hh1 Hh2].
    set (x := lg_start l + Z.of_nat k + 1) in *.
    assert (h ∈ txn l) as Hht by by eapply list_elem_of_lookup_2.
    pose proof (txn_take_notin k h Hh) as Hnot.
    assert (pinned (installed recovering k) ⊆ pinned a) as Hsub by (unfold installed; destruct recovering; simpl; [done|apply subseteq_difference_l; done]).
    assert (size (pinned (installed recovering k)) <= size (pinned a))%nat as Hsz by by apply subseteq_size.
    assert (if recovering then h ∉ pinned (installed recovering k) else h ∈ pinned (installed recovering k)) as Hpin'.
    { specialize (Hpin h Hht). destruct recovering; simpl; [done|]. rewrite elem_of_difference, elem_of_list_to_set. done. }
    assert (logical (installed recovering k) x = logical a x) as Hlx.
    { simpl. apply apply_writes_out. rewrite homew_take_fst. intros Hx. apply elem_of_take in Hx as (i & Hi & _).
      destruct (lo_home _ Hl x) as [_ Hbad]; [by eapply list_elem_of_lookup_2|done]. }
    do 4 kstep. rewrite Elog. fold l x. rewrite (lo_dev _ Hl), Hy2.
    eapply wp_mono; [|eapply (copy_to_home s1 _ R1 Hheld recovering x h (@None unit) Hy1 Hh1) with (home := h)]; try done.
    + intros r s2 [-> [R2 L2]]. split; [done|]. split; [|by etransitivity; [split|]].
      eapply lrep_equiv; [|exact R2]. rewrite Hlx.
      pose proof (puts_snoc (take k (homew l (logical a))) h (logical a x) a) as [F1 F2 F3 F4 F5].
      unfold installed. rewrite (take_homew k h Hh). fold x.
      destruct recovering; split; try (intros; symmetry; by apply F1 || by apply F2 || by rewrite F3); try done.
      simpl. rewrite (take_S_r _ _ _ Hh), list_to_set_app_L. clear. set_solver.
    + intros ->. done.
    + intros Hx. apply Hsub in Hx. by apply (Hlogpin x).
    + destruct recovering; [left; lia|right; split; [done|lia]].
    + intros s' Es'. apply get_block_ok. by rewrite Es', Elog.
  - split; [|done]. eapply lrep_equiv; [|exact Hrep]. pose proof (puts_nil a) as [F1 F2 F3 F4 F5].
    unfold installed. split; intros; simpl; rewrite ?take_0, ?app_nil_r; try done.
    destruct recovering; [done|]. by rewrite (difference_empty_L (pinned a)).
Qed.

(** *** The header block *)
Fixpoint head_upto (d : list Z) (hs : list Z) (k : nat) : list Z :=
  match k with
  | O => d
  | Datatypes.S k => put32 (head_upto d hs k) (4 + 4 * k) (u32 (nth k hs 0))
  end.

(** The header block [write_head] makes of [d] for the blocks [hs]. *)
Definition make_head (d : list Z) (hs : list Z) : list Z :=
  head_upto (put32 d 0 (u32 (Z.of_nat (length hs)))) hs (length hs).

Lemma head_upto_ok d hs k : block_ok d -> (k <= Z.to_nat LOGSIZE)%nat -> block_ok (head_upto d hs k).
Proof.
  intros Hd. induction k as [|k IH]; intros Hk; simpl; [done|].
  apply block_ok_put32; [apply IH; lia|]. change (Z.to_nat LOGSIZE) with 30%nat in Hk. unfold bsize. lia.
Qed.

Lemma head_upto_n d hs k : block_ok d -> (k <= Z.to_nat LOGSIZE)%nat -> get32 (head_upto d hs k) 0 = get32 d 0.
Proof.
  intros Hd. induction k as [|k IH]; intros Hk; simpl; [done|]. change (Z.to_nat LOGSIZE) with 30%nat in Hk.
  rewrite get32_put32_out; [apply IH; change (Z.to_nat LOGSIZE) with 30%nat; lia| |unfold bsize; lia|lia].
  apply head_upto_ok; [done|]. change (Z.to_nat LOGSIZE) with 30%nat. lia.
Qed.

Lemma head_upto_block d hs k i h : block_ok d -> (k <= Z.to_nat LOGSIZE)%nat -> (i < k)%nat -> hs !! i = Some h ->
  is_u32 h -> get32 (head_upto d hs k) (4 + 4 * i) = h.
Proof.
  intros Hd. induction k as [|k IH]; intros Hk Hi Hh Hr; [lia|]. simpl head_upto.
  assert (block_ok (head_upto d hs k)) as Hok by (apply head_upto_ok; [done|lia]).
  change (Z.to_nat LOGSIZE) with 30%nat in *. destruct (decide (i = k)) as [->|].
  - rewrite get32_put32_same by (done || (unfold bsize; lia) || apply u32_range).
    erewrite nth_lookup_Some by done. apply u32_id, Hr.
  - rewrite get32_put32_out by (done || (unfold bsize; lia) || lia). apply IH; [lia|lia|done|done].
Qed.

Lemma make_head_ok d hs : block_ok d -> (length hs <= Z.to_nat LOGSIZE)%nat -> block_ok (make_head d hs).
Proof. intros. apply head_upto_ok; [|done]. apply block_ok_put32; [done|]. unfold bsize. lia. Qed.

Lemma hdr_n_make d hs : block_ok d -> (length hs <= Z.to_nat LOGSIZE)%nat -> hdr_n (make_head d hs) = Z.of_nat (length hs).
Proof.
  intros Hd Hlen. unfold hdr_n, make_head. rewrite head_upto_n; [|apply block_ok_put32; [done|unfold bsize; lia]|done].
  change (Z.to_nat LOGSIZE) with 30%nat in Hlen.
  rewrite get32_put32_same by (done || (unfold bsize; lia) || apply u32_range). rewrite u32_id by lia. apply s32_id. lia.
Qed.

Lemma hdr_block_make d hs i h : block_ok d -> (length hs <= Z.to_nat LOGSIZE)%nat -> hs !! i = Some h -> 0 <= h < 2 ^ 31 ->
  hdr_block (make_head d hs) (Z.of_nat i) = h.
Proof.
  intros Hd Hlen Hh Hr. unfold hdr_block, make_head. rewrite Nat2Z.id.
  erewrite head_upto_block; [apply s32_id; lia|apply block_ok_put32; [done|unfold bsize; lia]|done| |done|unfold is_u32; lia].
  by eapply lookup_lt_Some.
Qed.

Lemma a_set_set n d1 d2 a1 : aequiv (a_set n d2 (a_set n d1 a1)) (a_set n d2 a1).
Proof.
  split; try done. intros k. simpl. destruct (decide (k = n)) as [->|]; [by rewrite !fn_lookup_insert|].
  by rewrite !fn_lookup_insert_ne.
Qed.

Lemma write_head_ok : room (lg_start l) a ->
  wp (write_head s) (fun _ s' => lrep s' (a_put (lg_start l) (make_head (logical a (lg_start l)) (txn l)) a) /\ same_log s s').
Proof.
  intros Hroom. destruct (lo_region _ Hl) as [Hs0 Hs1]. destruct (lo_n _ Hl) as [Hn0 Hn1]. destruct (lo_array _ Hl) as [Ha1 Ha2].
  assert (0 <= lg_start l < 2 ^ 31) as Hst by lia. destruct (u32_int _ Hst) as [Hst1 Hst2].
  set (st := lg_start l) in *. set (d0 := logical a st). set (n := lh_n (lg_lh l)) in *.
  assert (block_ok d0) as Hd0 by by apply (block_ok_logical s).
  assert (length (txn l) = Z.to_nat n) as Hlen by by apply length_txn.
  assert (u32 (Z.of_nat (length (txn l))) = u32 n) as En by (f_equal; lia).
  unfold write_head, log_get. do 4 kstep. fold l st. rewrite Hst2, (lo_dev _ Hl).
  kstep. eapply wp_mono; [|apply (z_bread s a st Hrep Hst1 (not_held a Hheld st) Hroom)]. intros b s1 [R1 [E1 C1]].
  do 3 kstep. rewrite E1. fold l n.
  eapply wp_mono; [|apply (z_rd _ _ st b R1), held_hold]. intros d s1' [-> ->]. simpl logical. fold d0.
  kstep. eapply wp_mono; [|apply (z_wr _ _ st b R1 _ (held_hold _ _ _)); apply block_ok_put32; [done|unfold bsize; lia]].
  intros _ s2 [R2 [E2 C2]]. set (d1 := put32 d0 0 (u32 n)) in *.
  assert (block_ok d1) as Hd1 by (apply block_ok_put32; [done|unfold bsize; lia]).
  kstep. eapply wp_mono; [|apply (for_each_seqZ n _ (fun k s' =>
      lrep s' (a_set st (head_upto d1 (txn l) k) (a_hold st b a)) /\ same_log s s'))].
  - intros r s3 [R3 L3]. unfold make_head in *. rewrite <- Hlen in R3.
    kstep. eapply wp_mono; [|apply (z_bwrite _ _ st b R3), held_hold]. intros _ s4 [R4 L4].
    eapply wp_mono; [|apply (z_brelse _ _ st b R4); [apply held_hold|right; simpl; by rewrite !fn_lookup_insert]].
    intros _ s5 [R5 L5]. split; [|by repeat (etransitivity; [|done])]. eapply lrep_equiv; [|exact R5].
    rewrite En. fold d1. split; simpl; intros; rewrite ?fn_lookup_insert; try done.
    by rewrite Hheld, insert_empty, delete_singleton_eq.
  - intros k s3 Hk [R3 [E3 C3]]. destruct (txn_lookup k Hk) as (h & Hh & Hr & _).
    kstep. eapply wp_mono; [|apply (get_block_ok s3 k h); by rewrite E3]. intros v s3' [-> ->].
    kstep. eapply wp_mono; [|apply (z_rd _ _ st b R3), held_hold]. intros d s3' [-> ->].
    simpl logical. rewrite fn_lookup_insert, Nat2Z.id.
    kstep. eapply wp_mono; [|apply (z_wr _ _ st b R3); [apply held_hold|]].
    + intros _ s4 [R4 L4]. kstep. split; [done|]. split; [|by etransitivity; [split|]]. eapply lrep_equiv; [|exact R4].
      simpl head_upto. erewrite nth_lookup_Some by done. apply a_set_set.
    + apply block_ok_put32; [apply head_upto_ok; [done|lia]|]. change LOGSIZE with 30 in Ha2. unfold bsize. lia.
  - split; [done|]. by etransitivity; split.
Qed.
End loops.

(** ** Recovery *)

(** The transaction recorded in the header block [d]. *)
Definition hdr_txn (d : list Z) : list Z := hdr_block d <$> seqZ 0 (hdr_n d).

(** A header that can be on the disk of a log at [start] with [size] blocks. *)
Record hdr_ok (start size : Z) (d : list Z) : Prop := {
  ho_n : 0 <= hdr_n d < size;
  ho_max : hdr_n d < NBUF /\ hdr_n d <= LOGSIZE;
  ho_home : forall h, h ∈ hdr_txn d -> 0 <= h < 2 ^ 31 /\ ~ (start <= h < start + size);
  ho_nodup : NoDup (hdr_txn d)
}.

Lemma lookup_hdr_txn d (i : nat) : (i < Z.to_nat (hdr_n d))%nat -> hdr_txn d !! i = Some (hdr_block d (Z.of_nat i)).
Proof. intros Hi. unfold hdr_txn. rewrite list_lookup_fmap, lookup_seqZ_lt by lia. done. Qed.

Lemma length_hdr_txn d : length (hdr_txn d) = Z.to_nat (hdr_n d).
Proof. unfold hdr_txn. rewrite length_fmap. apply length_seqZ. Qed.

Lemma txn_empty l0 : txn (set_n 0 l0) = [].
Proof. done. Qed.

Lemma log_ok_empty l0 : log_ok l0 -> log_ok (set_n 0 l0).
Proof.
  intros [H1 H2 H3 H4 [H5 H5'] H6 H7]. split; rewrite ?txn_empty; simpl; try done; try lia.
  - intros h Hh. by apply elem_of_nil in Hh.
  - constructor.
Qed.

Section recovery.
Context (s : @lst ST) (a : acache B) (l := ls_log s) (d := logical a (lg_start l)).
Context (Hrep : lrep s a) (Hheld : held a = ∅) (Hpin : pinned a = ∅).
Context (Hdev : lg_dev l = dev) (Hregion : 0 <= lg_start l /\ lg_start l + lg_size l <= 2 ^ 31).
Context (Harray : length (lh_block (lg_lh l)) = Z.to_nat LOGSIZE) (Hhdr : hdr_ok (lg_start l) (lg_size l) d).

Lemma empty_room k : room k a.
Proof. right. unfold in_use. rewrite Hheld, Hpin, dom_empty_L, (left_id_L ∅ union), size_empty. done. Qed.

Lemma read_head_ok : wp (read_head s) (fun _ s' => lrep s' a /\ cx_step (ls_ctx s) (ls_ctx s') /\
  log_ok (ls_log s') /\ txn (ls_log s') = hdr_txn d /\
  exists bl, ls_log s' = set_lh (mkLH (hdr_n d) bl) l /\ length bl = Z.to_nat LOGSIZE).
Proof.
  destruct Hhdr as [Hn [Hmax Hmax'] Hhome Hnd]. destruct Hregion as [Hs0 Hs1].
  assert (0 <= lg_start l < 2 ^ 31) as Hst by lia. destruct (u32_int _ Hst) as [Hst1 Hst2]. set (st := lg_start l) in *.
  unfold read_head, log_get. do 4 kstep. fold l st. rewrite Hst2, Hdev.
  kstep. eapply wp_mono; [|apply (z_bread s a st Hrep Hst1 (not_held a Hheld st) (empty_room st))]. intros b s1 [R1 [E1 C1]].
  kstep. eapply wp_mono; [|apply (z_rd _ _ st b R1), held_hold]. intros d' s1' [-> ->]. simpl logical. fold d.
  unfold upd_log. do 2 kstep. cbn [ls_log set_n set_lh lg_lh lh_n ls_ctx ls_cache].
  do 3 kstep. cbn [ls_log set_n set_lh lg_lh lh_n ls_ctx ls_cache].
  eapply wp_mono; [|apply (for_each_seqZ (hdr_n d) _ (fun k s' => ls_ctx s' = ls_ctx s1 /\ ls_cache s' = ls_cache s1 /\
    exists bl, ls_log s' = set_lh (mkLH (hdr_n d) bl) l /\ length bl = Z.to_nat LOGSIZE /\
      forall i, (i < k)%nat -> bl !! i = Some (hdr_block d (Z.of_nat i))))].
  - intros r s2 (Ec & Es & bl & El & Hlen & Hbl).
    assert (lrep s2 (a_hold st b a)) as R2 by (unfold lrep; by rewrite Ec, Es).
    assert (logical a st = on_disk a st) as Hclean.
    { destruct Hrep as [_ Hr]. apply (rep_clean _ _ _ _ Hr); [by rewrite Hpin|by apply not_held]. }
    eapply wp_mono; [|apply (z_brelse _ _ st b R2); [apply held_hold|by right]]. intros _ s3 [R3 [E3 C3]].
    assert (take (Z.to_nat (hdr_n d)) bl = hdr_txn d) as Etx.
    { apply list_eq. intros i. destruct (decide (i < Z.to_nat (hdr_n d))%nat).
      - rewrite lookup_take_lt by done. by rewrite Hbl, lookup_hdr_txn.
      - rewrite lookup_take_ge by lia. symmetry. apply lookup_ge_None_2. rewrite length_hdr_txn. lia. }
    split; [|split; [|split; [|split]]].
    + eapply lrep_equiv; [|exact R3]. split; try done. simpl. by rewrite Hheld, insert_empty, delete_singleton_eq.
    + etransitivity; [exact C1|]. by rewrite <- Ec.
    + rewrite E3, El. split; unfold txn, in_log; simpl; rewrite ?Etx; try done.
    + rewrite E3, El. unfold txn. simpl. exact Etx.
    + exists bl. by rewrite E3.
  - intros k s2 Hk (Ec & Es & bl & El & Hlen & Hbl). unfold put_block, log_get. kstep. do 2 kstep.
    change LOGSIZE with 30 in *.
    destruct (Z.ltb_spec (Z.of_nat k) 0); [lia|]. destruct (Z.leb_spec 30 (Z.of_nat k)); [lia|]. cbn [orb].
    unfold upd_log. kstep. ksteps. split; [done|]. cbn [ls_ctx ls_cache ls_log]. split; [done|]. split; [done|].
    exists (<[k := hdr_block d (Z.of_nat k)]> bl). rewrite El, Nat2Z.id. split_and!; [done|by rewrite length_insert|].
    intros i Hi. destruct (decide (i = k)) as [->|].
    + apply list_lookup_insert_eq. lia.
    + rewrite list_lookup_insert_ne by done. apply Hbl. lia.
  - split; [done|]. split; [done|]. exists (lh_block (lg_lh l)). cbn [ls_log]. rewrite E1. fold l. split_and!; [done|done|lia].
Qed.

(** The writes of recovery: the logged blocks to their homes, then an empty
    header. *)
Definition recw (start : Z) (D : Z -> list Z) : list (Z * list Z) :=
  imap (fun t h => (h, D (start + Z.of_nat t + 1))) (hdr_txn (D start)).
Definition recovery_writes (start : Z) (D : Z -> list Z) : list (Z * list Z) :=
  recw start D ++ [(start, make_head (D start) [])].

Lemma recw_fst start D : (recw start D).*1 = hdr_txn (D start).
Proof.
  unfold recw. apply list_eq. intros i. rewrite list_lookup_fmap, list_lookup_imap. by destruct (hdr_txn (D start) !! i).
Qed.

Lemma recover_ok : wp (recover_from_log s) (fun _ s' => lrep s' (puts (recovery_writes (lg_start l) (logical a)) a) /\
  cx_step (ls_ctx s) (ls_ctx s') /\ log_ok (ls_log s') /\
  exists bl, ls_log s' = set_lh (mkLH 0 bl) l).
Proof.
  unfold recover_from_log, upd_log. kstep. eapply wp_mono; [|exact read_head_ok].
  intros _ s1 (R1 & C1 & L1 & T1 & bl & E1 & Hlen). set (l1 := ls_log s1) in *.
  assert (lg_start l1 = lg_start l) as Est by by rewrite E1.
  kstep. eapply wp_mono; [|apply (install_trans_ok s1 a R1 Hheld L1 true)].
  2:{ intros h _. rewrite Hpin. apply not_elem_of_empty. }
  2:{ intros k _. rewrite Hpin. apply not_elem_of_empty. }
  2:{ rewrite Hpin, size_empty. done. }
  intros _ s2 [R2 [E2 C2]]. do 2 kstep.
  assert (lrep (LS (ls_ctx s2) (set_n 0 (ls_log s2)) (ls_cache s2)) (puts (recw (lg_start l) (logical a)) a)) as R3.
  { eapply lrep_equiv; [|exact R2]. unfold installed, puts. rewrite firstn_all2 by (unfold homew; by rewrite length_imap).
    unfold homew, recw. fold l1. rewrite T1, Est. done. }
  assert (log_ok (set_n 0 (ls_log s2))) as L3 by (rewrite E2; by apply log_ok_empty).
  eapply wp_mono; [|apply (write_head_ok _ _ R3 Hheld L3)].
  - intros _ s4 [R4 [E4 C4]]. simpl in *. split; [|split; [|split]].
    + eapply lrep_equiv; [|exact R4]. etransitivity; [|symmetry; apply puts_snoc]. rewrite txn_empty, E2.
      fold l1. rewrite Est, apply_writes_out; [done|]. rewrite recw_fst. intros Hbad.
      destruct (ho_home _ _ _ Hhdr _ Hbad) as [_ Hb]. apply Hb. destruct (ho_n _ _ _ Hhdr). lia.
    + by etransitivity; [|etransitivity].
    + by rewrite E4.
    + exists bl. rewrite E4, E2. fold l1. by rewrite E1.
  - right. unfold in_use. simpl. rewrite Hheld, Hpin, dom_empty_L, (left_id_L ∅ union), size_empty. done.
Qed.
End recovery.

(** What recovery makes of a disk. *)
Definition recovered (start : Z) (D : Z -> list Z) : Z -> list Z := apply_writes D (recovery_writes start D).

(** A block that is not the header holds its logged contents, or is left alone. *)
Lemma recovered_other start D k : k <> start -> k ∉ hdr_txn (D start) -> recovered start D k = D k.
Proof.
  intros Hk Hnot. apply apply_writes_out. unfold recovery_writes. rewrite fmap_app, recw_fst, elem_of_app. simpl.
  rewrite list_elem_of_singleton. tauto.
Qed.

Lemma recovered_noop start D k : hdr_n (D start) = 0 -> k <> start -> recovered start D k = D k.
Proof. intros Hn Hk. apply recovered_other; [done|]. unfold hdr_txn. rewrite Hn. apply not_elem_of_nil. Qed.

Lemma recovered_logged start D t h : NoDup (hdr_txn (D start)) -> h <> start -> hdr_txn (D start) !! t = Some h ->
  recovered start D h = D (start + Z.of_nat t + 1).
Proof.
  intros Hnd Hk Ht. unfold recovered, recovery_writes. rewrite apply_writes_app, apply_writes_cons.
  change (apply_writes ?f []) with f. rewrite fn_lookup_insert_ne by done.
  apply apply_writes_in; [by rewrite recw_fst|]. apply elem_of_lookup_imap. by exists t, h.
Qed.

Lemma hdr_txn_make d hs : block_ok d -> (length hs <= Z.to_nat LOGSIZE)%nat -> (forall h, h ∈ hs -> 0 <= h < 2 ^ 31) ->
  hdr_txn (make_head d hs) = hs.
Proof.
  intros Hd Hlen Hr. apply list_eq. intros i. assert (length (hdr_txn (make_head d hs)) = length hs) as El.
  { rewrite length_hdr_txn, hdr_n_make by done. lia. }
  destruct (hs !! i) as [h|] eqn:Hi.
  - rewrite lookup_hdr_txn; [|rewrite <- length_hdr_txn, El; by eapply lookup_lt_Some].
    by erewrite hdr_block_make by (done || apply Hr; by eapply list_elem_of_lookup_2).
  - apply lookup_ge_None in Hi. apply lookup_ge_None_2. lia.
Qed.

Lemma prefix_split {X} (W A B' : list X) : W `prefix_of` A ++ B' ->
  W `prefix_of` A \/ exists V, V `prefix_of` B' /\ W = A ++ V.
Proof.
  intros [C E]. apply app_eq_inv in E as [(k & -> & ->)|(k & -> & ->)].
  - left. by exists k.
  - right. exists k. split; [by exists C|done].
Qed.

(** ** Commit *)
Definition commit_writes (l : log) (L : Z -> list Z) : list (Z * list Z) :=
  let head := make_head (L (lg_start l)) (txn l) in
  logw l L ++ [(lg_start l, head)] ++ ((fun h => (h, L h)) <$> txn l) ++ [(lg_start l, make_head head [])].

Section commit.
Context (s : @lst ST) (a : acache B) (l := ls_log s).
Context (Hrep : lrep s a) (Hheld : held a = ∅) (Hl : log_ok l) (Hpin : pinned a = list_to_set (txn l)).

Lemma pinned_size : Z.of_nat (size (pinned a)) < NBUF.
Proof.
  rewrite Hpin, size_list_to_set by apply (lo_nodup _ Hl). rewrite (length_txn l Hl).
  pose proof (lo_max _ Hl). pose proof (lo_n _ Hl). lia.
Qed.

Lemma in_log_unpinned k : in_log l k -> k ∉ pinned a.
Proof. intros Hk Hp. rewrite Hpin, elem_of_list_to_set in Hp. by apply (lo_home _ Hl) in Hp as [_ Hp]. Qed.

Lemma start_in_log : in_log l (lg_start l).
Proof. unfold in_log. pose proof (lo_n _ Hl). lia. Qed.

Lemma logw_block t h : txn l !! t = Some h -> (lg_start l + Z.of_nat t + 1, logical a h) ∈ logw l (logical a).
Proof. intros Ht. apply elem_of_lookup_imap. by exists t, h. Qed.

Lemma start_not_logw L : lg_start l ∉ (logw l L).*1.
Proof. intros Hb. by apply (logw_fst _ _ _ Hl) in Hb as [_ Hb]. Qed.

Lemma room_no_held a1 k : held a1 = ∅ -> pinned a1 ⊆ pinned a -> room k a1.
Proof.
  intros Hh1 Hs. right. unfold in_use. rewrite Hh1, dom_empty_L, (left_id_L ∅ union).
  pose proof (subseteq_size _ _ Hs). pose proof pinned_size. lia.
Qed.

Definition committed_head := make_head (logical a (lg_start l)) (txn l).

Lemma homew_after_log : let a2 := a_put (lg_start l) committed_head (puts (logw l (logical a)) a) in
  homew l (logical a2) = (fun h => (h, logical a h)) <$> txn l.
Proof.
  intros a2. unfold homew. apply list_eq. intros t. rewrite list_lookup_imap, list_lookup_fmap.
  destruct (txn l !! t) as [h|] eqn:Ht; [|done]. simpl. do 2 f_equal.
  rewrite fn_lookup_insert_ne by lia. apply apply_writes_in; [apply NoDup_logw|by apply logw_block].
Qed.

(** The writes [commit] does. *)
Definition committed_writes : list (Z * list Z) :=
  if 0 <? lh_n (lg_lh l) then commit_writes l (logical a) else [].
Definition after_commit : acache B :=
  AC (apply_writes (logical a) committed_writes) (apply_writes (on_disk a) committed_writes)
     (writes a ++ committed_writes) ∅ ∅.

Lemma commit_ok : wp (commit s) (fun _ s' => lrep s' after_commit /\
  cx_step (ls_ctx s) (ls_ctx s') /\ ls_log s' = set_n 0 l).
Proof.
  unfold commit, log_get, upd_log, after_commit, committed_writes. do 2 kstep. fold l. destruct (Z.ltb_spec 0 (lh_n (lg_lh l))) as [Hpos|Hn].
  2:{ kstep. assert (lh_n (lg_lh l) = 0) as H0 by (pose proof (lo_n _ Hl); lia). split; [|split].
      - eapply lrep_equiv; [|exact Hrep]. split; simpl; rewrite ?app_nil_r; try done.
        rewrite Hpin. unfold txn. by rewrite H0.
      - done.
      - fold l. unfold set_n. rewrite <- H0. by destruct l as [? ? ? ? ? ? []]. }
  kstep. eapply wp_mono; [|apply (write_log_ok s a Hrep Hheld Hl); [by intros h ?; rewrite Hpin, elem_of_list_to_set|apply pinned_size]].
  intros _ s1 [R1 [E1 C1]]. assert (log_ok (ls_log s1)) as L1 by by rewrite E1.
  kstep. eapply wp_mono; [|apply (write_head_ok s1 _ R1 Hheld L1), room_no_held; done].
  intros _ s2 [R2 [E2 C2]]. rewrite E1 in *. fold l in R1, R2, L1, E2. simpl logical in R2. rewrite apply_writes_out in R2 by by apply start_not_logw.
  fold committed_head in R2. assert (log_ok (ls_log s2)) as L2 by by rewrite E2.
  kstep. eapply wp_mono; [|apply (install_trans_ok s2 _ R2 Hheld L2 false); rewrite ?E2].
  2:{ intros h ?. simpl. rewrite Hpin. by rewrite elem_of_list_to_set. }
  2:{ intros k. apply in_log_unpinned. }
  2:{ apply pinned_size. }
  intros _ s3 [R3 [E3 C3]]. do 2 kstep. rewrite E2 in *.
  assert (log_ok (set_n 0 (ls_log s3))) as L4 by (rewrite E3; by apply log_ok_empty).
  set (a3 := installed _ _ _ _) in R3.
  assert (lrep (LS (ls_ctx s3) (set_n 0 (ls_log s3)) (ls_cache s3)) a3) as R4 by done.
  assert (pinned a3 = ∅) as Hp3.
  { simpl. rewrite firstn_all2 by (by rewrite E2). rewrite E2, Hpin. apply difference_diag_L. }
  eapply wp_mono; [|apply (write_head_ok _ _ R4 Hheld L4), room_no_held; [done|rewrite Hp3; apply empty_subseteq]].
  intros _ s5 [R5 [E5 C5]]. simpl in C5, E5.
  split; [|split; [by repeat (etransitivity; [|done])|by rewrite E5, E3]].
  eapply lrep_equiv; [|exact R5]. cbn [ls_log]. rewrite txn_empty, E3. cbn [lg_start set_n set_lh].
  assert (logical a3 (lg_start l) = committed_head) as Hst3.
  { simpl. rewrite E2, firstn_all2 by (unfold homew; by rewrite length_imap).
    rewrite apply_writes_out; [by rewrite fn_lookup_insert|]. rewrite homew_fst. intros Hb.
    apply (lo_home _ Hl) in Hb as [_ Hb]. by apply Hb, start_in_log. }
  rewrite Hst3. unfold a3, installed. rewrite E2. rewrite firstn_all2 by (unfold homew; by rewrite length_imap).
  pose proof homew_after_log as Eh. cbv zeta in Eh. rewrite Eh. clear R5 R4 R3.
  unfold commit_writes, puts, a_put. fold committed_head.
  split; intros; simpl; rewrite ?apply_writes_app, ?apply_writes_cons, ?apply_writes_app; try done.
  - by rewrite <- !app_assoc.
  - by rewrite firstn_all2, Hpin, difference_diag_L.
Qed.

(** *** Crashes *)
Section crash.
Context (Hempty : hdr_n (on_disk a (lg_start l)) = 0).
Notation st := (lg_start l).

Lemma clean_disk k : k ∉ txn l -> logical a k = on_disk a k.
Proof.
  intros Hk. destruct Hrep as [_ Hr]. apply (rep_clean _ _ _ _ Hr); [by rewrite Hpin, elem_of_list_to_set|by apply not_held].
Qed.

Lemma head_txn : hdr_txn committed_head = txn l.
Proof.
  apply hdr_txn_make.
  - destruct Hrep as [_ Hr]. apply (rep_blocks _ _ _ Hr).
  - rewrite (length_txn l Hl). pose proof (lo_array _ Hl). pose proof (lo_n _ Hl). lia.
  - intros h Hh. by apply (lo_home _ Hl).
Qed.

Lemma head_n : hdr_n committed_head = lh_n (lg_lh l).
Proof.
  pose proof (length_hdr_txn committed_head) as E. rewrite head_txn, (length_txn l Hl) in E.
  destruct Hrep as [_ Hr]. unfold committed_head in *. rewrite hdr_n_make; [rewrite (length_txn l Hl); pose proof (lo_n _ Hl); lia| |].
  - apply (rep_blocks _ _ _ Hr).
  - rewrite (length_txn l Hl). pose proof (lo_array _ Hl). pose proof (lo_n _ Hl). lia.
Qed.

Lemma hdr_ok_head : hdr_ok st (lg_size l) committed_head.
Proof.
  split; rewrite ?head_n, ?head_txn; [apply (lo_n _ Hl)|split; [apply (lo_max _ Hl)|apply (lo_array _ Hl)]|
    apply (lo_home _ Hl)|apply (lo_nodup _ Hl)].
Qed.

Lemma hdr_ok_none d : hdr_n d = 0 -> hdr_ok st (lg_size l) d.
Proof.
  intros H0. split; rewrite ?H0.
  - pose proof (lo_n _ Hl). lia.
  - done.
  - intros h Hh. unfold hdr_txn in Hh. rewrite H0 in Hh. by apply elem_of_nil in Hh.
  - unfold hdr_txn. rewrite H0. constructor.
Qed.

(** Block [k] of the file system is not touched by writes to the log, and the
    header is not touched by writes to the homes. *)
Lemma before_header V k : V `prefix_of` logw l (logical a) -> ~ in_log l k \/ k = st -> apply_writes (on_disk a) V k = on_disk a k.
Proof.
  intros [V' E] Hk. apply apply_writes_out. intros Hb. destruct (logw_fst l (logical a) k Hl) as [H1 H2].
  - rewrite E, fmap_app. apply elem_of_app. by left.
  - tauto.
Qed.

Definition homes : list (Z * list Z) := (fun h => (h, logical a h)) <$> txn l.

Lemma homes_fst : homes.*1 = txn l.
Proof. unfold homes. rewrite <- list_fmap_compose. apply list_fmap_id. Qed.

Lemma start_not_homes V : V `prefix_of` homes -> st ∉ V.*1.
Proof.
  intros [V' E] Hb. assert (st ∈ txn l) as Hin by (rewrite <- homes_fst, E, fmap_app; apply elem_of_app; by left).
  apply (lo_home _ Hl) in Hin as [_ Hin]. by apply Hin, start_in_log.
Qed.

(** The disk after the header was written and some homes were. *)
Lemma after_header V (D1 := apply_writes (on_disk a) (logw l (logical a) ++ (st, committed_head) :: V)) :
  V `prefix_of` homes ->
  D1 st = committed_head /\ (forall t h, txn l !! t = Some h -> D1 (st + Z.of_nat t + 1) = logical a h) /\
  (forall k, ~ in_log l k -> k ∉ V.*1 -> D1 k = on_disk a k).
Proof.
  intros HV. assert (forall k, k ∈ V.*1 -> ~ in_log l k) as Hhome.
  { intros k Hk. destruct HV as [V' E]. apply (lo_home _ Hl). rewrite <- homes_fst, E, fmap_app. apply elem_of_app. by left. }
  subst D1. rewrite apply_writes_app, apply_writes_cons. split_and!.
  - rewrite apply_writes_out by by apply start_not_homes. apply fn_lookup_insert.
  - intros t h Ht. pose proof (logw_block t h Ht) as Hin.
    destruct (logw_fst l (logical a) (st + Z.of_nat t + 1) Hl) as [Hlog Hne]; [apply list_elem_of_fmap; by eexists (_, _)|].
    rewrite apply_writes_out by (intros Hb; by apply (Hhome _ Hb)). rewrite fn_lookup_insert_ne by done.
    apply apply_writes_in; [apply NoDup_logw|done].
  - intros k Hk Hnot. rewrite apply_writes_out by done. rewrite fn_lookup_insert_ne by (intros <-; by apply Hk, start_in_log).
    apply before_header; [done|by left].
Qed.

(** The disk after the transaction was erased. *)
Lemma after_erase k : ~ in_log l k -> apply_writes (on_disk a) (commit_writes l (logical a)) k = logical a k.
Proof.
  intros Hk. unfold commit_writes. fold committed_head homes. rewrite !app_assoc, apply_writes_app, apply_writes_cons.
  change (apply_writes ?f []) with f. rewrite fn_lookup_insert_ne by (intros <-; by apply Hk, start_in_log).
  rewrite apply_writes_app. destruct (decide (k ∈ txn l)) as [Hin|Hout].
  - apply apply_writes_in; [rewrite homes_fst; apply (lo_nodup _ Hl)|]. apply list_elem_of_fmap. by exists k.
  - rewrite apply_writes_out by by rewrite homes_fst. rewrite clean_disk by done.
    rewrite apply_writes_app, apply_writes_cons. change (apply_writes ?f []) with f.
    rewrite fn_lookup_insert_ne by (intros <-; by apply Hk, start_in_log). apply before_header; [done|by left].
Qed.

Lemma committed_disk k : ~ in_log l k -> apply_writes (on_disk a) committed_writes k = logical a k.
Proof.
  intros Hk. unfold committed_writes. destruct (Z.ltb_spec 0 (lh_n (lg_lh l))) as [|Hn]; [by apply after_erase|].
  symmetry. apply clean_disk. unfold txn. replace (Z.to_nat (lh_n (lg_lh l))) with O by lia. apply not_elem_of_nil.
Qed.

Lemma committed_logical k : ~ in_log l k -> apply_writes (logical a) committed_writes k = logical a k.
Proof.
  intros Hk. assert (forall W, (forall w, w ∈ W -> w.2 = logical a w.1 \/ in_log l w.1) -> apply_writes (logical a) W k = logical a k) as Hgen.
  { induction W as [|[n d] W IH] using rev_ind; intros HW; [done|]. rewrite apply_writes_app, apply_writes_cons. change (apply_writes ?f []) with f.
    destruct (decide (n = k)) as [->|]; [|rewrite fn_lookup_insert_ne by done; apply IH; intros w Hw; apply HW, elem_of_app; by left].
    rewrite fn_lookup_insert. destruct (HW (k, d)) as [H|H]; [apply elem_of_app; right; by apply list_elem_of_singleton|done|done]. }
  apply Hgen. intros w. unfold committed_writes. destruct (0 <? lh_n (lg_lh l)); [|by intros ?%elem_of_nil].
  unfold commit_writes. rewrite !elem_of_app, !list_elem_of_singleton. intros [Hw|[->|[Hw| ->]]]; simpl; try (right; apply start_in_log).
  - right. apply (logw_fst l (logical a) w.1 Hl). apply list_elem_of_fmap. by exists w.
  - left. by apply list_elem_of_fmap in Hw as (h & -> & _).
Qed.

Lemma not_start k : ~ in_log l k -> k <> st.
Proof. intros Hk ->. by apply Hk, start_in_log. Qed.

(** What recovery makes of the disk before, between and after these points. *)
Definition old_or_new (D1 : Z -> list Z) : Prop :=
  hdr_ok st (lg_size l) (D1 st) /\
  ((forall k, ~ in_log l k -> recovered st D1 k = on_disk a k) \/
   (forall k, ~ in_log l k -> recovered st D1 k = logical a k)).

Lemma crash_before V : V `prefix_of` logw l (logical a) -> old_or_new (apply_writes (on_disk a) V).
Proof.
  intros HV. set (D1 := apply_writes _ V). assert (D1 st = on_disk a st) as E by (apply before_header; [done|by right]).
  unfold old_or_new. rewrite E. split; [by apply hdr_ok_none|]. left. intros k Hk.
  rewrite recovered_noop; [|by rewrite E|by apply not_start]. apply before_header; [done|by left].
Qed.

Lemma crash_between V : V `prefix_of` homes ->
  old_or_new (apply_writes (on_disk a) (logw l (logical a) ++ (st, committed_head) :: V)).
Proof.
  intros HV. destruct (after_header V HV) as (E1 & E2 & E3). set (D1 := apply_writes _ _) in *. unfold old_or_new.
  rewrite E1. split; [apply hdr_ok_head|]. right. intros k Hk. pose proof (not_start k Hk) as Hne.
  destruct (decide (k ∈ txn l)) as [Hin|Hout].
  - apply list_elem_of_lookup in Hin as [t Ht]. rewrite <- (E2 t k Ht).
    apply recovered_logged; rewrite ?E1, ?head_txn; [apply (lo_nodup _ Hl)|done|done].
  - rewrite recovered_other by (done || by rewrite E1, head_txn). rewrite E3; [by rewrite clean_disk|done|].
    intros Hb. apply Hout. rewrite <- homes_fst. destruct HV as [V' ->]. rewrite fmap_app. apply elem_of_app. by left.
Qed.

Lemma erased_header : hdr_n (apply_writes (on_disk a) (commit_writes l (logical a)) st) = 0.
Proof.
  unfold commit_writes. rewrite !app_assoc, apply_writes_app, apply_writes_cons. change (apply_writes ?f []) with f.
  rewrite fn_lookup_insert, hdr_n_make; [done| |simpl; lia]. apply make_head_ok.
  - destruct Hrep as [_ Hr]. apply (rep_blocks _ _ _ Hr).
  - rewrite (length_txn l Hl). pose proof (lo_array _ Hl). pose proof (lo_n _ Hl). lia.
Qed.

Lemma committed_header : hdr_n (apply_writes (on_disk a) committed_writes st) = 0.
Proof. unfold committed_writes. destruct (0 <? lh_n (lg_lh l)); [apply erased_header|done]. Qed.

Lemma head_ok : block_ok committed_head.
Proof.
  apply make_head_ok.
  - destruct Hrep as [_ Hr]. apply (rep_blocks _ _ _ Hr).
  - rewrite (length_txn l Hl). pose proof (lo_array _ Hl). pose proof (lo_n _ Hl). lia.
Qed.

Lemma committed_blocks V k : V `prefix_of` committed_writes -> block_ok (apply_writes (on_disk a) V k).
Proof.
  intros [V' E]. destruct Hrep as [_ Hr]. apply apply_writes_ok; [intros; apply (rep_blocks _ _ _ Hr)|]. intros w Hw.
  assert (w ∈ committed_writes) as Hin by (rewrite E; apply elem_of_app; by left). revert Hin. unfold committed_writes.
  destruct (0 <? lh_n (lg_lh l)); [|by intros ?%elem_of_nil]. unfold commit_writes. fold committed_head.
  rewrite !elem_of_app, !list_elem_of_singleton. intros [Hin|[->|[Hin| ->]]]; simpl.
  - unfold logw in Hin. apply elem_of_lookup_imap in Hin as (t & h & -> & _). apply (rep_blocks _ _ _ Hr).
  - apply head_ok.
  - apply list_elem_of_fmap in Hin as (h & -> & _). apply (rep_blocks _ _ _ Hr).
  - apply make_head_ok; [apply head_ok|simpl; lia].
Qed.

Lemma crash_after : old_or_new (apply_writes (on_disk a) (commit_writes l (logical a))).
Proof.
  split; [by apply hdr_ok_none, erased_header|]. right. intros k Hk.
  rewrite recovered_noop; [by apply after_erase|apply erased_header|by apply not_start].
Qed.

Lemma crash_states V : V `prefix_of` committed_writes -> old_or_new (apply_writes (on_disk a) V).
Proof.
  unfold committed_writes. destruct (0 <? lh_n (lg_lh l)).
  2:{ intros ->%prefix_nil_inv. apply crash_before, prefix_nil. }
  intros HV. unfold commit_writes in HV. fold committed_head homes in HV. rewrite !app_assoc in HV.
  apply prefix_split in HV as [HV|(V1 & HV & ->)].
  - apply prefix_split in HV as [HV|(V1 & HV & ->)].
    + apply prefix_split in HV as [HV|(V1 & HV & ->)]; [by apply crash_before|].
      destruct V1 as [|w V1]; [rewrite app_nil_r; by apply crash_before|].
      pose proof (prefix_cons_inv_1 _ _ _ _ HV) as ->. apply prefix_cons_inv_2, prefix_nil_inv in HV as ->.
      apply crash_between, prefix_nil.
    + rewrite <- app_assoc. by apply crash_between.
  - destruct V1 as [|w V1]; [rewrite app_nil_r, <- app_assoc; by apply crash_between|].
    pose proof (prefix_cons_inv_1 _ _ _ _ HV) as ->. apply prefix_cons_inv_2, prefix_nil_inv in HV as ->.
    rewrite <- !app_assoc. apply crash_after.
Qed.
End crash.
End commit.

(** ** A crash during recovery *)
Section recovery_crash.
Context (start sz : Z) (D : Z -> list Z) (Hblock : block_ok (D start)) (Hhdr : hdr_ok start sz (D start)).

Lemma txn_outside k : k ∈ hdr_txn (D start) -> ~ (start <= k < start + sz).
Proof. intros Hk. by apply (ho_home _ _ _ Hhdr). Qed.

Lemma recovery_partial V (D1 := apply_writes D V) : V `prefix_of` recw start D ->
  hdr_ok start sz (D1 start) /\ forall k, ~ (start <= k < start + sz) -> recovered start D1 k = recovered start D k.
Proof.
  intros HV. assert (forall k, k ∈ V.*1 -> k ∈ hdr_txn (D start)) as Hsub.
  { intros k Hk. rewrite <- recw_fst. destruct HV as [V' ->]. rewrite fmap_app. apply elem_of_app. by left. }
  assert (forall k, start <= k < start + sz -> D1 k = D k) as Elog.
  { intros k Hk. apply apply_writes_out. intros Hv. by apply (txn_outside k); [apply Hsub|]. }
  pose proof (ho_n _ _ _ Hhdr) as Hn. assert (D1 start = D start) as Est by (apply Elog; lia).
  rewrite Est. split; [done|]. intros k Hk. assert (k <> start) as Hne by lia.
  destruct (decide (k ∈ hdr_txn (D start))) as [Hin|Hin].
  - apply list_elem_of_lookup in Hin as [t Ht]. pose proof (lookup_lt_Some _ _ _ Ht) as Hlt. rewrite length_hdr_txn in Hlt.
    pose proof (ho_nodup _ _ _ Hhdr). rewrite (recovered_logged _ D1 t), (recovered_logged _ D t) by (rewrite ?Est; done).
    apply Elog. lia.
  - rewrite !recovered_other by (rewrite ?Est; done). apply apply_writes_out. intros Hv. by apply Hin, Hsub.
Qed.

Lemma recovered_header : hdr_n (recovered start D start) = 0.
Proof.
  unfold recovered, recovery_writes. rewrite apply_writes_app, apply_writes_cons. change (apply_writes ?f []) with f.
  rewrite fn_lookup_insert, hdr_n_make; [done|done|simpl; lia].
Qed.

Lemma recovery_blocks w : (forall k, block_ok (D k)) -> w ∈ recovery_writes start D -> block_ok w.2.
Proof.
  intros HD. unfold recovery_writes, recw. rewrite elem_of_app, list_elem_of_singleton. intros [Hin| ->].
  - apply elem_of_lookup_imap in Hin as (t & h & -> & _). apply HD.
  - apply make_head_ok; [done|simpl; lia].
Qed.

Lemma recovery_crash V (D1 := apply_writes D V) : V `prefix_of` recovery_writes start D ->
  hdr_ok start sz (D1 start) /\ forall k, ~ (start <= k < start + sz) -> recovered start D1 k = recovered start D k.
Proof.
  pose proof (ho_n _ _ _ Hhdr) as Hn.
  intros HV. apply prefix_split in HV as [HV|([|w V1] & HV & E)]; [by apply recovery_partial| |].
  - rewrite app_nil_r in E. subst V. by apply recovery_partial.
  - pose proof (prefix_cons_inv_1 _ _ _ _ HV) as ->. apply prefix_cons_inv_2, prefix_nil_inv in HV as ->. subst V.
    change D1 with (recovered start D). split.
    + split; rewrite ?recovered_header; [lia|done| |]; unfold hdr_txn; rewrite recovered_header; [|constructor].
      intros h Hh. by apply elem_of_nil in Hh.
    + intros k Hk. apply recovered_noop; [apply recovered_header|lia].
Qed.
End recovery_crash.

(** ** Booting: main() calls binit, and the first process calls fsinit, which
    calls initlog *)
Definition boot (sb : sb_log) : K (@lst ST) unit := zoom cacheL binit;; initlog dev sb.

Definition boot_log (l : log) : Prop := length (lh_block (lg_lh l)) = Z.to_nat LOGSIZE.

Lemma boot_ok c l0 sb D (st := sb_logstart sb) (sz := sb_nlog sb) :
  cx_ok c -> boot_log l0 -> 0 <= st -> st + sz <= 2 ^ 31 -> sz < 2 ^ 31 -> (forall k, block_ok (D k)) -> hdr_ok st sz (D st) ->
  wp (boot sb (LS c l0 (power_on D))) (fun _ s' =>
    lrep s' (puts (recovery_writes st D) (AC D D [] ∅ ∅)) /\ log_ok (ls_log s') /\
    cx_step c (ls_ctx s') /\
    lh_n (lg_lh (ls_log s')) = 0 /\ lg_start (ls_log s') = st /\ lg_size (ls_log s') = sz /\
    free_lock (lg_lock (ls_log s')) /\ lg_outstanding (ls_log s') = lg_outstanding l0 /\ lg_committing (ls_log s') = lg_committing l0).
Proof.
  intros Hc Hl0 Hst Hsz Hsz' HD Hh. unfold boot. kstep.
  eapply wp_mono; [|apply (lift_law _ (LS c l0 (power_on D)) (fun _ => AC D D [] ∅ ∅) Hc), binit_law; done].
  intros _ s1 [R1 [E1 C1]]. unfold initlog, upd_log. destruct (BSIZE <=? 4 + 4 * LOGSIZE) eqn:Eb; [done|clear Eb].
  do 4 kstep. cbn [over lL ls_log ls_ctx ls_cache lg_lock lg_outstanding lg_committing lg_lh set_lg_lock].
  pose proof (ho_n _ _ _ Hh) as Hn. fold st sz. rewrite (s32_id st), (s32_id sz) by lia.
  match goal with |- wp (recover_from_log ?s2) _ => set (s2' := s2); assert (lrep s2' (AC D D [] ∅ ∅)) as R2 by exact R1 end.
  eapply wp_mono; [|apply (recover_ok s2' _ R2); try done].
  - intros _ s3 (R3 & C3 & L3 & bl & E3). split; [exact R3|]. split; [done|]. split; [by etransitivity|]. rewrite E3. simpl. by rewrite E1.
  - simpl. by rewrite E1.
Qed.

(** ** Transactions *)

(** Between the operations of the log: the blocks of the running transaction
    are pinned in the cache, and the header on the disk is empty. *)
Record txn_ok s a : Prop := {
  to_rep : lrep s a;
  to_log : log_ok (ls_log s);
  to_pin : pinned a = list_to_set (txn (ls_log s));
  to_lock : free_lock (lg_lock (ls_log s));
  to_size : lg_size (ls_log s) <= NBUF;
  to_header : hdr_n (on_disk a (lg_start (ls_log s))) = 0
}.

#[export] Instance lH_ok : LensOk (@lH ST).
Proof. split; intros; try done; destruct s as [[] ? ?]; done. Qed.
#[export] Instance lL_ok : LensOk (@lL ST).
Proof. split; intros; try done; destruct s as [? [] ?]; done. Qed.
#[export] Instance lHL_disj : LensDisj (@lH ST) (@lL ST).
Proof. split; intros; done. Qed.

(** The search for a block in the transaction. *)
Lemma search_block s n : log_ok (ls_log s) ->
  wp (for_each (seqZ 0 (lh_n (lg_lh (ls_log s)))) (fun i =>
        v <- get_block i;; if u32 v =? n then ret (Some i) else ret None) s)
     (fun r s' => s' = s /\
        match r with
        | Some i => exists k, i = Z.of_nat k /\ txn (ls_log s) !! k = Some n
        | None => n ∉ txn (ls_log s)
        end).
Proof.
  intros Hl. set (l := ls_log s) in *.
  apply (wp_for_each _ _ (fun rest s' => s' = s /\ exists k, (k <= length (txn l))%nat /\
    rest = seqZ (Z.of_nat k) (lh_n (lg_lh l) - Z.of_nat k) /\ n ∉ take k (txn l))).
  - intros x d rest s1 E (-> & k & Hk & Ek & Hnot). rewrite (length_txn l Hl) in Hk.
    destruct (decide (k < Z.to_nat (lh_n (lg_lh l)))%nat) as [Hlt|]; [|by rewrite seqZ_nil in Ek by lia].
    rewrite seqZ_cons in Ek by lia. injection Ek as -> ->.
    destruct (txn_lookup s Hl k Hlt) as (h & Hh & Hr & _). kstep.
    eapply wp_mono; [|apply (get_block_ok s k h Hh)]. intros v s1 [-> ->]. destruct (u32_int h Hr) as [_ ->].
    destruct (Z.eqb_spec h n) as [->|Hne]; kstep.
    + split; [done|]. by exists k.
    + split; [done|]. exists (1 + k)%nat. split_and!; [rewrite length_txn by done; lia|f_equal; lia|].
      fold l in Hh. change (1 + k)%nat with (Datatypes.S k). rewrite (take_S_r _ _ _ Hh), not_elem_of_app, list_elem_of_singleton. split; congruence.
  - intros s1 (-> & k & Hk & Ek & Hnot). split; [done|]. rewrite (length_txn l Hl) in Hk.
    destruct (decide (k < Z.to_nat (lh_n (lg_lh l)))%nat); [by rewrite seqZ_cons in Ek by lia|].
    rewrite firstn_all2 in Hnot; [done|]. rewrite length_txn by done. lia.
  - split; [done|]. exists O. split_and!; [lia|f_equal; lia|]. apply not_elem_of_nil.
Qed.

(** The transaction after [log_write] of block [n]. *)
Definition txn_add (n : Z) (hs : list Z) : list Z := if decide (n ∈ hs) then hs else hs ++ [n].

Lemma take_insert_same (k m : nat) (n : Z) (hs : list Z) : take m hs !! k = Some n -> <[k := n]> hs = hs.
Proof. intros H. apply lookup_take_Some in H as [H _]. by apply list_insert_id. Qed.

Definition log_add (n : Z) (l : log) : log :=
  if decide (n ∈ txn l) then l
  else set_n (lh_n (lg_lh l) + 1) (set_block (Z.to_nat (lh_n (lg_lh l))) n l).

Lemma txn_log_add n l : log_ok l -> lh_n (lg_lh l) < LOGSIZE -> txn (log_add n l) = txn_add n (txn l).
Proof.
  intros Hl Hmax. unfold log_add, txn_add. destruct (decide (n ∈ txn l)); [done|]. unfold txn. simpl.
  pose proof (lo_n _ Hl). destruct (lo_array _ Hl) as [Hlen _].
  replace (Z.to_nat (lh_n (lg_lh l) + 1)) with (Datatypes.S (Z.to_nat (lh_n (lg_lh l)))) by lia.
  erewrite take_S_r by (apply list_lookup_insert_eq; lia). by rewrite take_insert_ge by lia.
Qed.

Lemma log_ok_add n l : log_ok l -> 0 <= n < 2 ^ 31 -> ~ in_log l n -> lh_n (lg_lh l) + 1 < lg_size l -> lg_size l <= NBUF ->
  log_ok (log_add n l).
Proof.
  intros Hl Hn Hin Hsz HN. change NBUF with 30 in *. pose proof (lo_n _ Hl) as Hn0.
  assert (lh_n (lg_lh l) < LOGSIZE) as Hmax by (change LOGSIZE with 30; lia).
  pose proof (txn_log_add n l Hl Hmax) as Et. revert Et. unfold log_add, txn_add.
  destruct (decide (n ∈ txn l)); [done|]. intros Et. destruct Hl as [H1 H2 H3 H4 [H5 H5'] H6 H7].
  split; rewrite ?Et; simpl; try done; try lia.
  - change NBUF with 30. lia.
  - rewrite length_insert. split; [done|lia].
  - intros h Hh. apply elem_of_app in Hh as [Hh|Hh]; [by apply H6|]. by apply list_elem_of_singleton in Hh as ->.
  - apply NoDup_app. split; [done|]. split; [|apply NoDup_singleton]. intros x Hx ->%list_elem_of_singleton. done.
Qed.

Lemma log_add_n n l : lh_n (lg_lh (log_add n l)) <= lh_n (lg_lh l) + 1 /\
  lg_outstanding (log_add n l) = lg_outstanding l /\ lg_committing (log_add n l) = lg_committing l.
Proof. unfold log_add. case_decide; simpl; split_and!; lia || done. Qed.

(** Code that runs with a lock held gives the hart back as it is. *)
Lemma cx_step_pushed h p w c' : hart_ok h -> cx_step (Ctx (pushed h) p w) c' -> cx_hart c' = pushed h.
Proof.
  intros Hh [Hs _ _]. simpl in Hs. pose proof (same_hart_noff _ _ Hs) as En. unfold same_hart in Hs.
  rewrite (touched_pushed h Hh) in Hs. rewrite <- Hs. unfold touched. rewrite En. simpl.
  destruct (Z.eqb_spec (noff h + 1) 0); [|done]. destruct Hh. lia.
Qed.

Definition locked s : @lst ST :=
  LS (Ctx (pushed (cx_hart (ls_ctx s))) (cx_pid (ls_ctx s)) (cx_wakes (ls_ctx s)))
     (set_lg_lock (taken (lg_lock (ls_log s)) (cx_hart (ls_ctx s))) (ls_log s)) (ls_cache s).

Lemma acquire_log s : free_lock (lg_lock (ls_log s)) -> acquire lH lL s = Done tt (locked s).
Proof. intros [H1 H2]. by rewrite (acquire_free lH lL s H1). Qed.

Lemma lrep_locked s a : lrep s a -> lrep (locked s) a.
Proof. intros [Hc Hr]. split; [by apply hart_ok_pushed|done]. Qed.

(** The release after code that ran with the log locked. *)
Lemma release_log s s2 l2 (Q : unit -> @lst ST -> Prop) : cx_ok (ls_ctx s) -> free_lock (lg_lock (ls_log s)) ->
  cx_step (ls_ctx (locked s)) (ls_ctx s2) -> ls_log s2 = set_lg_lock (lg_lock (ls_log (locked s))) l2 ->
  lg_lock l2 = lg_lock (ls_log s) ->
  (forall c', cx_step (ls_ctx s) c' -> cx_wakes c' = cx_wakes (ls_ctx s2) -> Q tt (LS c' l2 (ls_cache s2))) ->
  wp (release lH lL s2) Q.
Proof.
  intros Hc [F1 F2] Hst El Ek HQ. set (h := cx_hart (ls_ctx s)).
  pose proof (cx_step_pushed h _ _ _ Hc Hst) as Eh.
  rewrite (release_taken lH lL s2 h); [|done|done|simpl; rewrite El; done].
  replace (over lH _ _) with (LS (Ctx (touched h) (cx_pid (ls_ctx s2)) (cx_wakes (ls_ctx s2))) l2 (ls_cache s2)).
  - apply HQ; [|done]. destruct Hst as [_ E2 E3]. split; [apply same_hart_touched|done|done].
  - simpl. rewrite El. simpl. f_equal.
    destruct (lg_lock (ls_log s)) as [lk cpu nm] eqn:E. simpl in *. subst. destruct l2; simpl in *. by subst.
Qed.

Lemma log_ok_lock k l : log_ok l -> log_ok (set_lg_lock k l).
Proof. by intros []. Qed.

Lemma put_block_ok s k v : (k < Z.to_nat LOGSIZE)%nat ->
  put_block (Z.of_nat k) v s = Done tt (LS (ls_ctx s) (set_block k v (ls_log s)) (ls_cache s)).
Proof.
  intros Hk. unfold put_block, log_get, upd_log, bind, gets, modify.
  destruct (Z.ltb_spec (Z.of_nat k) 0); [lia|]. destruct (Z.leb_spec LOGSIZE (Z.of_nat k)); [lia|]. simpl. by rewrite Nat2Z.id.
Qed.

Lemma set_block_same k n l : txn l !! k = Some n -> set_block k n l = l.
Proof.
  intros Hk. unfold set_block. rewrite (take_insert_same _ _ _ _ Hk). by destruct l as [? ? ? ? ? ? []].
Qed.

Lemma a_pin_pinned n a : n ∈ pinned a -> aequiv a (a_pin n a).
Proof. intros Hn. split; try done. simpl. symmetry. by apply subseteq_union_1_L, singleton_subseteq_l. Qed.

Lemma txn_add_set n (hs : list Z) : (list_to_set (txn_add n hs) : gset Z) = {[n]} ∪ list_to_set hs.
Proof.
  unfold txn_add. case_decide as Hn.
  - symmetry. by apply subseteq_union_1_L, singleton_subseteq_l, elem_of_list_to_set.
  - rewrite list_to_set_app_L, (comm_L (∪)). simpl. by rewrite (right_id_L ∅ (∪)).
Qed.

Section log_write.
Context (s : @lst ST) (a : acache B) (n : Z) (b : B) (l := ls_log s).
Context (Hok : txn_ok s a) (Hb : held a !! n = Some b) (Hn : 0 <= n < 2 ^ 31) (Hin : ~ in_log l n).
Context (Hout : 1 <= lg_outstanding l) (Hroom : lh_n (lg_lh l) + 1 < lg_size l).

Lemma log_room : lh_n (lg_lh l) < LOGSIZE.
Proof. pose proof (to_size _ _ Hok) as H. change NBUF with 30 in H. change LOGSIZE with 30. fold l in H. lia. Qed.

Lemma log_write_done c' t' : cx_step (ls_ctx s) c' -> rep (cx_pid c') t' (a_pin n a) ->
  txn_ok (LS c' (log_add n l) t') (a_pin n a) /\ cx_step (ls_ctx s) c' /\ log_add n l = log_add n l.
Proof.
  destruct Hok as [Hrep Hl Hpin Hlk Hsz Hhd]. fold l in Hl, Hpin, Hlk, Hsz, Hhd. intros Hst Hrp. split; [|done].
  assert (lg_start (log_add n l) = lg_start l /\ lg_size (log_add n l) = lg_size l /\ lg_lock (log_add n l) = lg_lock l) as (E1 & E2 & E3)
    by (unfold log_add; by case_decide).
  split; simpl; rewrite ?E1, ?E2, ?E3; try done.
  - split; [apply (cx_ok_step _ _ Hst), Hrep|done].
  - by apply log_ok_add.
  - by rewrite txn_log_add, txn_add_set, Hpin by (done || apply log_room).
Qed.

Lemma log_write_ok :
  wp (log_write b s) (fun _ s' => txn_ok s' (a_pin n a) /\ cx_step (ls_ctx s) (ls_ctx s') /\ ls_log s' = log_add n l).
Proof.
  pose proof log_room as Hmax. pose proof (to_log _ _ Hok) as Hl. pose proof (to_lock _ _ Hok) as Hlk.
  pose proof (to_rep _ _ Hok) as Hrep. fold l in Hl, Hlk.
  unfold log_write, log_get. do 4 kstep. fold l. destruct (Z.leb_spec LOGSIZE (lh_n (lg_lh l))); [lia|].
  destruct (Z.leb_spec (lg_size l - 1) (lh_n (lg_lh l))); [lia|]. cbn [orb]. do 2 kstep. fold l.
  destruct (Z.ltb_spec (lg_outstanding l) 1); [lia|]. kstep. rewrite (acquire_log s Hlk). cbn [wp].
  pose proof (lrep_locked s a Hrep) as R1. pose proof (log_ok_lock (taken (lg_lock l) (cx_hart (ls_ctx s))) l Hl) as L1.
  do 4 kstep. destruct (bdata_law _ _ _ _ _ (proj2 R1) Hb) as [_ ->]. rewrite (s32_id n) by lia.
  kstep. eapply wp_mono; [|apply (search_block (locked s) n L1)]. intros r s1 [-> Hr]. cbv zeta.
  pose proof (lo_n _ Hl) as Hn0. destruct r as [i|]; simpl default.
  - destruct Hr as (k & -> & Hk). pose proof (lookup_lt_Some _ _ _ Hk) as Hlt. rewrite length_txn in Hlt by done. simpl in Hlt. fold l in Hlt.
    kstep. rewrite put_block_ok by lia. cbn [wp]. rewrite (set_block_same _ _ _ Hk). cbn [locked ls_log set_lg_lock lg_lh].
    fold l. destruct (Z.eqb_spec (Z.of_nat k) (lh_n (lg_lh l))); [lia|]. do 2 kstep.
    assert (n ∈ txn l) as Hnin by (eapply list_elem_of_lookup_2; exact Hk).
    assert (log_add n l = l) as Eadd by (unfold log_add; by rewrite decide_True).
    apply (release_log s _ l); try done; [apply Hrep|]. intros c' Hst Hwk. pose proof (log_write_done c' (ls_cache s) Hst) as Hd. rewrite Eadd in *.
    apply Hd. rewrite (cx_same_pid _ _ Hst). eapply rep_equiv; [|apply Hrep]. apply a_pin_pinned.
    by rewrite (to_pin _ _ Hok), elem_of_list_to_set.
  - assert (log_add n l = set_n (lh_n (lg_lh l) + 1) (set_block (Z.to_nat (lh_n (lg_lh l))) n l)) as Eadd by (unfold log_add; by rewrite decide_False).
    cbn [locked ls_log set_lg_lock lg_lh]. fold l. rewrite Z.max_r by lia.
    kstep. rewrite <- (Z2Nat.id (lh_n (lg_lh l))) at 1 by lia. rewrite put_block_ok by lia. cbn [wp locked ls_ctx ls_log ls_cache]. fold l.
    rewrite Z.eqb_refl. do 2 kstep.
    eapply wp_mono; [|apply (z_bpin _ a n b); [exact R1|done|by rewrite (to_pin _ _ Hok), elem_of_list_to_set]].
    intros _ s2 [R2 [E2 C2]]. unfold upd_log. kstep.
    apply (release_log s _ (log_add n l)); try done.
    + apply Hrep.
    + cbn [ls_log]. rewrite E2, Eadd. done.
    + by rewrite Eadd.
    + intros c' Hst Hwk. apply (log_write_done c'); [done|]. rewrite (cx_same_pid _ _ Hst). destruct R2 as [_ R2].
      by rewrite (cx_same_pid _ _ C2) in R2.
Qed.
End log_write.

(** A change of the two counters. *)
Lemma txn_ok_step s a s' : txn_ok s a -> cx_step (ls_ctx s) (ls_ctx s') -> ls_cache s' = ls_cache s ->
  (exists o c, ls_log s' = set_outstanding o (set_committing c (ls_log s))) -> txn_ok s' a.
Proof.
  intros [[Hc Hr] Hl Hpin Hlk Hsz Hhd] Hst Ec (o & c & El). rewrite ?El in *. split; rewrite ?El; try done.
  - split; [by apply (cx_ok_step _ _ Hst)|]. by rewrite Ec, (cx_same_pid _ _ Hst).
  - by destruct Hl.
Qed.

Definition may_begin (l : log) : bool :=
  (lg_committing l =? 0) && (lh_n (lg_lh l) + (lg_outstanding l + 1) * MAXOPBLOCKS <=? LOGSIZE).

Lemma begin_op_ok s a (l := ls_log s) : txn_ok s a -> may_begin l = true ->
  wp (begin_op s) (fun _ s' => txn_ok s' a /\ cx_step (ls_ctx s) (ls_ctx s') /\ ls_cache s' = ls_cache s /\
    ls_log s' = set_outstanding (lg_outstanding l + 1) l).
Proof.
  intros Hok Hb. destruct Hok as [Hrep Hl Hpin Hlk Hsz Hhd] eqn:Eok. clear Eok. unfold begin_op, upd_log. kstep.
  rewrite (acquire_log s Hlk). cbn [wp]. kstep. unfold sleep_until. unfold may_begin in Hb.
  cbn [locked ls_log set_lg_lock lg_committing lg_outstanding lg_lh]. fold l. rewrite Hb. cbn [wp]. do 2 kstep.
  apply (release_log s _ (set_outstanding (lg_outstanding l + 1) l)); try done; [apply Hrep|].
  intros c' Hst Hwk. split; [|done]. eapply txn_ok_step; [exact Hok|done|done|]. exists (lg_outstanding l + 1), (lg_committing l).
  simpl. fold l. by destruct l.
Qed.

(** Without room for another operation, or during a commit, the caller sleeps
    with the log unlocked until that has changed. *)
Lemma begin_op_waits s a : txn_ok s a -> noff (cx_hart (ls_ctx s)) = 0 -> may_begin (ls_log s) = false ->
  exists s1 ready k, begin_op s = Wait (Some ChanLog) s1 ready k /\ txn_ok s1 a /\ ls_log s1 = ls_log s /\
    forall s2, ready s2 = true -> may_begin (ls_log s2) = true /\ lk_locked (lg_lock (ls_log s2)) = 0.
Proof.
  intros Hok H0 Hb. pose proof (to_lock _ _ Hok) as Hlk. pose proof (to_rep _ _ Hok) as Hrep.
  assert (wp (release lH lL (locked s)) (fun _ s1 => txn_ok s1 a /\ ls_log s1 = ls_log s)) as Hrel.
  { apply (release_log s _ (ls_log s)); try done; [apply Hrep|]. intros c' Hst Hwk. split; [|done].
    eapply txn_ok_step; [exact Hok|done|done|]. exists (lg_outstanding (ls_log s)), (lg_committing (ls_log s)). simpl. by destruct (ls_log s). }
  destruct (release lH lL (locked s)) as [[] s1| | |] eqn:Er; try done. destruct Hrel as [Hok1 E1].
  unfold begin_op. erewrite bind_Done by by apply acquire_log. unfold sleep_until, may_begin in *.
  unfold bind at 1. cbn [locked ls_log set_lg_lock lg_committing lg_outstanding lg_lh]. rewrite Hb.
  replace (noff _) with 1 by (simpl; lia). cbn [Z.eqb negb Pos.eqb].
  change (LS _ _ _) with (locked s). unfold bind at 1. rewrite Er. cbn [obind].
  eexists s1, _, _. split_and!; [reflexivity|done|done|]. intros s2 H2. simpl in H2.
  apply andb_true_iff in H2 as [H2 H3]. by apply Z.eqb_eq in H3.
Qed.

Lemma counters_reset l : lg_committing l = 0 ->
  set_committing 0 (set_n 0 (set_committing 1 (set_outstanding 0 l))) = set_n 0 (set_outstanding 0 l).
Proof. destruct l. simpl. by intros ->. Qed.

Section end_op.
Context (s : @lst ST) (a : acache B) (l := ls_log s).
Context (Hok : txn_ok s a) (Hheld : held a = ∅) (Hout : 1 <= lg_outstanding l) (Hcom : lg_committing l = 0).

(** Another operation is running: its end will commit. *)
Lemma end_op_other : lg_outstanding l <> 1 ->
  wp (end_op s) (fun _ s' => txn_ok s' a /\ ls_cache s' = ls_cache s /\ ls_log s' = set_outstanding (lg_outstanding l - 1) l /\
    ChanLog ∈ cx_wakes (ls_ctx s')).
Proof.
  intros Hne. pose proof (to_lock _ _ Hok) as Hlk. pose proof (to_rep _ _ Hok) as Hrep.
  unfold end_op, upd_log, log_get, wakeup. kstep. rewrite (acquire_log s Hlk). cbn [wp]. do 4 kstep.
  cbn [locked ls_log set_lg_lock set_outstanding lg_committing]. fold l. rewrite Hcom. cbn [Z.eqb negb]. do 2 kstep.
  cbn [ls_log lg_outstanding set_outstanding set_lg_lock]. fold l. destruct (Z.eqb_spec (lg_outstanding l - 1) 0); [lia|]. do 5 kstep.
  apply (release_log s _ (set_outstanding (lg_outstanding l - 1) l)); try done.
  - apply Hrep.
  - split; try done. by exists [ChanLog].
  - intros c' Hst Hwk. kstep. split_and!; [|done|done|].
    + eapply txn_ok_step; [exact Hok|done|done|]. exists (lg_outstanding l - 1), (lg_committing l). simpl. fold l. by destruct l.
    + cbn [ls_ctx]. rewrite Hwk. apply elem_of_cons. by left.
Qed.

(** The last running operation commits. *)
Lemma end_op_last : lg_outstanding l = 1 ->
  wp (end_op s) (fun _ s' => txn_ok s' (after_commit s a) /\ ls_log s' = set_n 0 (set_outstanding 0 l) /\
    ChanLog ∈ cx_wakes (ls_ctx s')).
Proof.
  intros H1. pose proof (to_lock _ _ Hok) as Hlk. pose proof (to_rep _ _ Hok) as Hrep.
  unfold end_op, upd_log, log_get, wakeup. kstep. rewrite (acquire_log s Hlk). cbn [wp]. do 4 kstep.
  cbn [locked ls_log set_lg_lock set_outstanding lg_committing]. fold l. rewrite Hcom. cbn [Z.eqb negb]. do 2 kstep.
  cbn [ls_log lg_outstanding set_outstanding set_lg_lock]. fold l. rewrite H1. change (1 - 1) with 0. cbn [Z.eqb]. do 5 kstep.
  set (l1 := set_committing 1 (set_outstanding 0 l)).
  apply (release_log s _ l1); try done; [apply Hrep|]. intros c1 Hc1 _.
  set (s1 := LS c1 l1 _). assert (txn_ok s1 a) as Hok1.
  { eapply txn_ok_step; [exact Hok|done|done|]. exists 0, 1. done. }
  kstep. eapply wp_mono; [|apply (commit_ok s1 a (to_rep _ _ Hok1) Hheld (to_log _ _ Hok1) (to_pin _ _ Hok1))].
  intros _ s2 (R2 & C2 & E2). assert (free_lock (lg_lock (ls_log s2))) as Hlk2 by by rewrite E2.
  kstep. rewrite (acquire_log s2 Hlk2). cbn [wp]. do 4 kstep.
  apply (release_log s2 _ (set_committing 0 (ls_log s2))); try done.
  - apply R2.
  - split; try done. by exists [ChanLog].
  - intros c3 Hc3 Hwk. rewrite E2. split_and!.
    + split; try done.
      * split; [by apply (cx_ok_step _ _ Hc3), R2|]. cbn [ls_ctx]. rewrite (cx_same_pid _ _ Hc3). apply R2.
      * pose proof (log_ok_empty _ (to_log _ _ Hok)) as []. by split.
      * apply (to_size _ _ Hok).
      * exact (committed_header s a Hrep (to_log _ _ Hok) (to_header _ _ Hok)).
    + by apply counters_reset.
    + cbn [ls_ctx]. rewrite Hwk. apply elem_of_cons. by left.
Qed.
End end_op.
End proofs.
