(* ===== verification/LogSpec.v ===== *)
(** * Transactions over the buffer cache

    The properties of log.c: a transaction reaches the disk completely or not at
    all, whatever crash interrupts it; recovery can itself be interrupted; a
    block is logged once however often it is written; and the admission test of
    [begin_op] against the space the log really has.  They are stated for any
    cache with the interface [BlockCache], and the witnesses run them on bio.c. *)
From S2P Require Import Prelude Machine Spinlock Bio Block Log.
Local Open Scope Z_scope.
Local Open Scope kernel_scope.

Section spec.
Context {ST B : Type} {dev : Z} `{BC : !BlockCache ST B dev}.
Implicit Types (s : @lst ST) (a : acache B).

(** The superblock fields a log was initialised from. *)
Definition sb_of (l : log) : sb_log := mkSbLog (lg_start l) (lg_size l).

(** A machine that starts with the disk [D]. *)
Definition restart (c : ctx) (l0 : log) (D : Z -> list Z) : @lst ST := LS c l0 (power_on D).
Definition reset (c : ctx) (l0 : log) : Prop :=
  cx_ok c /\ boot_log l0 /\ lg_outstanding l0 = 0 /\ lg_committing l0 = 0.

Lemma restart_ok c l0 l D : reset c l0 -> log_ok (dev := dev) l -> lg_size l <= NBUF -> (forall k, block_ok (D k)) ->
  hdr_ok (lg_start l) (lg_size l) (D (lg_start l)) ->
  wp (boot (sb_of l) (restart c l0 D)) (fun _ s' => exists a',
    txn_ok s' a' /\ cx_step c (ls_ctx s') /\ held a' = ∅ /\ lh_n (lg_lh (ls_log s')) = 0 /\ lg_outstanding (ls_log s') = 0 /\ lg_committing (ls_log s') = 0 /\
    lg_start (ls_log s') = lg_start l /\ lg_size (ls_log s') = lg_size l /\
    writes a' = recovery_writes (lg_start l) D /\ forall k, logical a' k = recovered (lg_start l) D k /\ on_disk a' k = recovered (lg_start l) D k).
Proof.
  intros (Hc & Hl0 & Ho & Hm) Hl Hsz HD Hh. pose proof (lo_region _ Hl) as [Hr1 Hr2]. pose proof (lo_n _ Hl).
  eapply wp_mono; [|apply (boot_ok c l0 (sb_of l) D); try done; simpl; change NBUF with 30 in Hsz; lia].
  intros _ s' (R & L & Hcx & En & Es & Ez & Hlk & Eo & Em). cbn [sb_of sb_logstart sb_nlog] in *.
  rewrite Ho in Eo. rewrite Hm in Em. exists (puts (recovery_writes (lg_start l) D) (AC D D [] ∅ ∅)). split; [|split_and!; done].
  split; [exact R|done| |done|by rewrite Ez|].
  - simpl. unfold txn. by rewrite En.
  - simpl. rewrite Es. by apply recovered_header.
Qed.

(** C1: ending the last operation of a transaction is atomic with respect to
    crashes.  [end_op] returns with every block outside the log on the disk as
    the transaction left it, and the log empty.  And if only a prefix [V] of its
    disk writes reaches the disk before the machine loses power, then booting on
    that disk (binit, initlog) yields a file system whose blocks outside the log
    are all as they were before the transaction, or all as it left them. *)
Theorem end_op_atomic s a c l0 (l := ls_log s) :
  txn_ok s a -> held a = ∅ -> lg_outstanding l = 1 -> lg_committing l = 0 -> reset c l0 ->
  wp (end_op s) (fun _ s' => exists a' W,
    txn_ok s' a' /\ lh_n (lg_lh (ls_log s')) = 0 /\ lg_outstanding (ls_log s') = 0 /\
    writes a' = writes a ++ W /\
    (forall k, ~ in_log l k -> on_disk a' k = logical a k /\ logical a' k = logical a k) /\
    forall V, V `prefix_of` W ->
      wp (boot (sb_of l) (restart c l0 (apply_writes (on_disk a) V))) (fun _ s2 => exists a2,
        txn_ok s2 a2 /\ lh_n (lg_lh (ls_log s2)) = 0 /\
        ((forall k, ~ in_log l k -> logical a2 k = on_disk a k) \/
         (forall k, ~ in_log l k -> logical a2 k = logical a k)))).
Proof.
  intros Hok Hheld Ho Hm Hreset. pose proof Hok as [Hrep Hl Hpin _ Hsz Hhd].
  eapply wp_mono; [|apply (end_op_last s a Hok Hheld Hm Ho)]. intros _ s' (Hok' & E' & _).
  exists (after_commit s a), (committed_writes s a). rewrite E'. split_and!; try done.
  - intros k Hk. split; [by apply committed_disk|by apply (committed_logical s a Hl)].
  - intros V HV. destruct (crash_states s a Hrep Hheld Hl Hpin Hhd V HV) as [Hh Hor].
    eapply wp_mono; [|apply (restart_ok c l0 l _ Hreset Hl Hsz); [|exact Hh]].
    + intros _ s2 (a2 & Hok2 & _ & _ & En & _ & _ & _ & _ & _ & Ha2). exists a2. split; [done|]. split; [done|].
      destruct Hor as [Hor|Hor]; [left|right]; intros k Hk; by rewrite (proj1 (Ha2 k)), Hor.
    + intros k. by apply (committed_blocks s a Hrep Hl).
Qed.

(** C2: recovery can be interrupted.  Booting on a disk whose header names a
    transaction installs it; if the power fails after any prefix of the disk
    writes of that boot, the next boot ends with the same blocks outside the log. *)
Theorem recovery_restartable c l0 l D : reset c l0 -> log_ok (dev := dev) l -> lg_size l <= NBUF ->
  (forall k, block_ok (D k)) -> hdr_ok (lg_start l) (lg_size l) (D (lg_start l)) ->
  wp (boot (sb_of l) (restart c l0 D)) (fun _ s1 => exists a1,
    txn_ok s1 a1 /\
    (forall t h, hdr_txn (D (lg_start l)) !! t = Some h -> logical a1 h = D (lg_start l + Z.of_nat t + 1)) /\
    (forall k, ~ in_log l k -> k ∉ hdr_txn (D (lg_start l)) -> logical a1 k = D k) /\
    forall V, V `prefix_of` writes a1 ->
      wp (boot (sb_of l) (restart c l0 (apply_writes D V))) (fun _ s2 => exists a2,
        txn_ok s2 a2 /\ forall k, ~ in_log l k -> logical a2 k = logical a1 k)).
Proof.
  intros Hreset Hl Hsz HD Hh. pose proof (lo_n _ Hl) as Hn.
  eapply wp_mono; [|by apply (restart_ok c l0 l D)].
  intros _ s1 (a1 & Hok1 & _ & _ & _ & _ & _ & _ & _ & Hw & Ha1). exists a1. split; [done|]. split_and!.
  - intros t h Ht. rewrite (proj1 (Ha1 h)). apply recovered_logged; [apply (ho_nodup _ _ _ Hh)| |done].
    intros ->. destruct (ho_home _ _ _ Hh (lg_start l)) as [_ Hb]; [by eapply list_elem_of_lookup_2|]. apply Hb. lia.
  - intros k Hk Hnot. rewrite (proj1 (Ha1 k)). apply recovered_other; [|done]. intros ->. apply Hk. unfold in_log. lia.
  - intros V HV. rewrite Hw in HV. destruct (recovery_crash _ _ D (HD _) Hh V HV) as [Hh2 Hsame].
    eapply wp_mono; [|apply (restart_ok c l0 l _ Hreset Hl Hsz); [|exact Hh2]].
    + intros _ s2 (a2 & Hok2 & _ & _ & _ & _ & _ & _ & _ & _ & Ha2). exists a2. split; [done|].
      intros k Hk. by rewrite (proj1 (Ha2 k)), (proj1 (Ha1 k)), Hsame.
    + apply apply_writes_ok; [done|]. intros w Hin. destruct HV as [V' E].
      assert (w ∈ recovery_writes (lg_start l) D) as Hin' by (rewrite E; apply elem_of_app; by left).
      by eapply recovery_blocks.
Qed.

(** [log_write] of a locked buffer adds its block to the transaction and
    pins it, once: a block that is already logged is absorbed. *)
Theorem log_write_absorbs s a n b (l := ls_log s) : txn_ok s a -> held a !! n = Some b -> 0 <= n < 2 ^ 31 -> ~ in_log l n ->
  1 <= lg_outstanding l -> lh_n (lg_lh l) + 1 < lg_size l ->
  wp (log_write b s) (fun _ s' => txn_ok s' (a_pin n a) /\ cx_step (ls_ctx s) (ls_ctx s') /\
    lg_outstanding (ls_log s') = lg_outstanding l /\
    txn (ls_log s') = if decide (n ∈ txn l) then txn l else txn l ++ [n]).
Proof.
  intros Hok Hb Hn Hin Ho Hroom. eapply wp_mono; [|by apply (log_write_ok s a n b)].
  intros _ s' (Hok' & Hst & E). split; [done|]. split; [done|]. rewrite E. split.
  - unfold log_add. by case_decide.
  - apply (txn_log_add n l (to_log _ _ Hok)). by apply (log_room s a).
Qed.

(** [begin_op] returns with one more operation counted exactly when no
    commit is running and the log has room for MAXOPBLOCKS blocks of every
    operation; otherwise the caller sleeps on the log with the lock free, and is
    not resumed before that condition holds. *)
Theorem begin_op_admits s a (l := ls_log s) : txn_ok s a -> noff (cx_hart (ls_ctx s)) = 0 ->
  if decide (lg_committing l = 0 /\ lh_n (lg_lh l) + (lg_outstanding l + 1) * MAXOPBLOCKS <= LOGSIZE)
  then wp (begin_op s) (fun _ s' => txn_ok s' a /\ ls_log s' = set_outstanding (lg_outstanding l + 1) l)
  else exists s1 ready k, begin_op s = Wait (Some ChanLog) s1 ready k /\ txn_ok s1 a /\ ls_log s1 = l /\
    forall s2, ready s2 = true -> may_begin (ls_log s2) = true /\ lk_locked (lg_lock (ls_log s2)) = 0.
Proof.
  intros Hok H0. assert (may_begin l = bool_decide (lg_committing l = 0 /\ lh_n (lg_lh l) + (lg_outstanding l + 1) * MAXOPBLOCKS <= LOGSIZE)) as E.
  { unfold may_begin. apply eq_true_iff_eq. rewrite andb_true_iff, Z.eqb_eq, Z.leb_le, bool_decide_eq_true. done. }
  destruct (decide (_ /\ _)) as [Hd|Hd].
  - eapply wp_mono; [|apply (begin_op_ok s a Hok); fold l; by rewrite E, bool_decide_eq_true_2].
    intros _ s' (Hok' & _ & _ & El). done.
  - apply begin_op_waits; [done|done|]. fold l. by rewrite E, bool_decide_eq_false_2.
Qed.

(** ** The space reserved for the running operations

    [running s a q]: the state was reached by running the code of the log, with
    an operation for each element of [q], which may still log that many blocks
    of its MAXOPBLOCKS. *)
Inductive running : @lst ST -> acache B -> list nat -> Prop :=
| run_boot s a : txn_ok s a -> lh_n (lg_lh (ls_log s)) = 0 -> lg_outstanding (ls_log s) = 0 -> lg_committing (ls_log s) = 0 ->
    running s a []
| run_cache s a q s' a' : running s a q -> txn_ok s' a' -> ls_log s' = ls_log s -> running s' a' q
| run_begin s a q s' : running s a q -> may_begin (ls_log s) = true -> begin_op s = Done tt s' ->
    running s' a (Z.to_nat MAXOPBLOCKS :: q)
| run_write s a q1 r q2 n b s' : running s a (q1 ++ Datatypes.S r :: q2) -> held a !! n = Some b -> 0 <= n < 2 ^ 31 ->
    ~ in_log (ls_log s) n -> log_write b s = Done tt s' -> running s' (a_pin n a) (q1 ++ r :: q2)
| run_end s a q1 r q2 s' : running s a (q1 ++ r :: q2) -> lg_outstanding (ls_log s) <> 1 -> end_op s = Done tt s' ->
    running s' a (q1 ++ q2)
| run_commit s a r s' : running s a [r] -> held a = ∅ -> end_op s = Done tt s' -> running s' (after_commit s a) [].

(** What begin_op makes sure of. *)
Record reserved s a (q : list nat) : Prop := {
  rs_ok : txn_ok s a;
  rs_count : lg_outstanding (ls_log s) = Z.of_nat (length q);
  rs_commit : lg_committing (ls_log s) = 0;
  rs_each : Forall (fun r => (r <= Z.to_nat MAXOPBLOCKS)%nat) q;
  rs_space : lh_n (lg_lh (ls_log s)) + Z.of_nat (sum_list q) <= LOGSIZE
}.

Lemma wp_result {A} (m : outcome (@lst ST) A) Q x s' : wp m Q -> m = Done x s' -> Q x s'.
Proof. by intros H ->. Qed.

Lemma sum_list_bound q m : Forall (fun r => (r <= m)%nat) q -> (sum_list q <= length q * m)%nat.
Proof. induction 1; simpl; lia. Qed.

(** [log_write]'s first test. *)
Lemma log_write_full s b : lg_size (ls_log s) - 1 <= lh_n (lg_lh (ls_log s)) -> log_write b s = Panic "too big a transaction".
Proof.
  intros H. unfold log_write, log_get, bind, gets. cbn [obind].
  destruct (Z.leb_spec (lg_size (ls_log s) - 1) (lh_n (lg_lh (ls_log s)))); [|lia]. by rewrite orb_true_r.
Qed.

Lemma log_write_room s b s' : log_write b s = Done tt s' -> lh_n (lg_lh (ls_log s)) + 1 < lg_size (ls_log s).
Proof.
  intros E. destruct (Z.le_gt_cases (lg_size (ls_log s) - 1) (lh_n (lg_lh (ls_log s)))) as [H|]; [|lia].
  by rewrite (log_write_full s b H) in E.
Qed.

Lemma running_reserved s a q : running s a q -> reserved s a q.
Proof.
  induction 1 as [s a Hok Hn Ho Hc|s a q s' a' _ IH Hok El|s a q s' _ IH Hb E|s a q1 r q2 n b s' _ IH Hh Hr Hin E
    |s a q1 r q2 s' _ IH Hne E|s a r s' _ IH Hheld E].
  - split; simpl; try done. by rewrite Hn.
  - destruct IH. split; rewrite ?El; done.
  - destruct IH as [Hok Hcnt Hcom He Hsp]. destruct (wp_result _ _ _ _ (begin_op_ok s a Hok Hb) E) as (Hok' & _ & _ & El).
    split; rewrite ?El; simpl; try done; [lia|by constructor|]. unfold may_begin in Hb. apply andb_true_iff in Hb as [_ Hb].
    apply Z.leb_le in Hb. pose proof (sum_list_bound q _ He) as Hsum. change MAXOPBLOCKS with 10 in *. change LOGSIZE with 30 in *. lia.
  - destruct IH as [Hok Hcnt Hcom He Hsp]. rewrite length_app in Hcnt. simpl in Hcnt.
    assert (1 <= lg_outstanding (ls_log s)) as Ho by lia. pose proof (log_write_room _ _ _ E) as Hroom.
    destruct (wp_result _ _ _ _ (log_write_ok s a n b Hok Hh Hr Hin Ho Hroom) E) as (Hok' & _ & El).
    destruct (log_add_n n (ls_log s)) as (A1 & A2 & A3). rewrite sum_list_with_app in *. simpl in Hsp.
    split; rewrite ?El, ?A2, ?A3; try done.
    + rewrite length_app. simpl. lia.
    + apply Forall_app in He as [He1 He2]. inversion He2; subst. apply Forall_app. split; [done|]. constructor; [lia|done].
    + rewrite ?sum_list_with_app. simpl. lia.
  - destruct IH as [Hok Hcnt Hcom He Hsp]. rewrite length_app in Hcnt. simpl in Hcnt.
    assert (1 <= lg_outstanding (ls_log s)) as Ho by lia.
    destruct (wp_result _ _ _ _ (end_op_other s a Hok Ho Hcom Hne) E) as (Hok' & _ & El & _). rewrite sum_list_with_app in Hsp. simpl in Hsp.
    split; rewrite ?El; simpl; try done.
    + rewrite length_app. lia.
    + apply Forall_app in He as [He1 He2]. inversion He2; subst. by apply Forall_app.
    + rewrite sum_list_with_app. lia.
  - destruct IH as [Hok Hcnt Hcom He Hsp]. simpl in Hcnt.
    destruct (wp_result _ _ _ _ (end_op_last s a Hok Hheld Hcom Hcnt) E) as (Hok' & El & _).
    split; rewrite ?El; simpl; done.
Qed.


(** *** ... but the log has one block less than it promises *)

(** An operation can log a fresh block and release it. *)
Lemma log_one s a q1 r q2 n : running s a (q1 ++ Datatypes.S r :: q2) -> held a = ∅ -> 0 <= n < 2 ^ 31 -> ~ in_log (ls_log s) n ->
  lh_n (lg_lh (ls_log s)) + 1 < lg_size (ls_log s) ->
  exists s' a', running s' a' (q1 ++ r :: q2) /\ held a' = ∅ /\ ls_log s' = log_add n (ls_log s).
Proof.
  intros Hrun Hheld Hn Hin Hroom. pose proof (running_reserved _ _ _ Hrun) as [Hok Hcnt Hcom _ _].
  pose proof Hok as [Hrep Hl Hpin _ _ _]. destruct (u32_int n Hn) as [Hu _].
  assert (1 <= lg_outstanding (ls_log s)) as Ho by (rewrite Hcnt, length_app; simpl; lia).
  assert (room n a) as Hfree by (apply (room_no_held s a Hl Hpin a n); done).
  pose proof (z_bread s a n Hrep Hu (not_held a Hheld n) Hfree) as H1.
  destruct (proj1 (wp_inv _ _) H1) as (b & s1 & E1 & R1 & El1 & C1).
  assert (txn_ok s1 (a_hold n b a)) as Hok1.
  { destruct Hok. split; rewrite ?El1; done. }
  pose proof (run_cache _ _ _ _ _ Hrun Hok1 El1) as Hrun1. rewrite <- El1 in Hin, Hroom, Ho.
  pose proof (log_write_ok s1 _ n b Hok1 (held_hold _ _ _) Hn Hin Ho Hroom) as H2.
  destruct (proj1 (wp_inv _ _) H2) as ([] & s2 & E2 & Hok2 & C2 & El2).
  pose proof (run_write _ _ _ _ _ n b _ Hrun1 (held_hold _ _ _) Hn Hin E2) as Hrun2.
  assert (wp (zoom cacheL (brelse b) s2) (fun _ s' => lrep s' (a_drop n (a_pin n (a_hold n b a))) /\ same_log s2 s')) as H3.
  { apply z_brelse; [apply Hok2|apply held_hold|left; simpl; apply elem_of_union; left; by apply elem_of_singleton]. }
  destruct (proj1 (wp_inv _ _) H3) as ([] & s3 & E3 & R3 & El3 & C3).
  eexists s3, _. split; [eapply run_cache; [exact Hrun2| |exact El3]|].
  - destruct Hok2. split; rewrite ?El3; done.
  - split; [|by rewrite El3, El2, El1]. simpl. by rewrite Hheld, insert_empty, delete_singleton_eq.
Qed.

Lemma sum_list_pos q : (0 < sum_list q)%nat -> exists q1 r q2, q = q1 ++ Datatypes.S r :: q2.
Proof.
  induction q as [|[|r] q IH]; simpl; intros H; [lia| |by exists [], r, q].
  destruct (IH H) as (q1 & r & q2 & ->). by exists (O :: q1), r, q2.
Qed.

Lemma log_fill s a q (l := ls_log s) (k : nat) : running s a q -> held a = ∅ -> txn l = [] -> lg_start l + 2 * lg_size l <= 2 ^ 31 ->
  (k <= sum_list q)%nat -> Z.of_nat k < lg_size l ->
  exists s' a' q', running s' a' q' /\ held a' = ∅ /\ (sum_list q' = sum_list q - k)%nat /\
    txn (ls_log s') = seqZ (lg_start l + lg_size l) (Z.of_nat k) /\
    lg_start (ls_log s') = lg_start l /\ lg_size (ls_log s') = lg_size l.
Proof.
  intros Hrun Hheld Htx Hreg Hk Hsz. induction k as [|k IH].
  - exists s, a, q. split_and!; try done. lia.
  - destruct IH as (s1 & a1 & q1 & Hrun1 & Hh1 & Hs1 & Ht1 & Es & Ez); [lia|lia|].
    destruct (sum_list_pos q1) as (qa & r & qb & ->); [lia|].
    pose proof (running_reserved _ _ _ Hrun1) as [Hok1 _ _ _ Hsp]. pose proof (to_log _ _ Hok1) as Hl1.
    pose proof (lo_region _ Hl1) as Hr1. pose proof (length_txn _ Hl1) as Hlen. rewrite Ht1, length_seqZ in Hlen.
    pose proof (lo_n _ Hl1) as Hn1. set (n := lg_start l + lg_size l + Z.of_nat k).
    destruct (log_one s1 a1 qa r qb n Hrun1 Hh1) as (s2 & a2 & Hrun2 & Hh2 & El2).
    { lia. } { unfold in_log. lia. } { lia. }
    exists s2, a2, (qa ++ r :: qb). split_and!; try done.
    + rewrite sum_list_with_app in *. simpl in *. lia.
    + rewrite El2, (txn_log_add n _ Hl1) by (rewrite sum_list_with_app in Hsp; simpl in Hsp; lia).
      unfold txn_add. rewrite decide_False, Ht1.
      * replace (Z.of_nat (Datatypes.S k)) with (Z.of_nat k + 1) by lia. rewrite (seqZ_app _ (Z.of_nat k) 1) by lia. done.
      * rewrite Ht1, elem_of_seqZ. unfold n. lia.
    + rewrite El2. unfold log_add. by case_decide.
    + rewrite El2. unfold log_add. by case_decide.
Qed.

Lemma three_ops s a : running s a [] -> lh_n (lg_lh (ls_log s)) = 0 ->
  exists s', running s' a [10; 10; 10]%nat /\ ls_log s' = set_outstanding 3 (ls_log s).
Proof.
  intros Hrun Hn. pose proof (running_reserved _ _ _ Hrun) as [Hok Ho Hc _ _]. simpl in Ho.
  assert (forall s1 q o, running s1 a q -> ls_log s1 = set_outstanding o (ls_log s) -> 0 <= o <= 2 ->
    exists s2, running s2 a (10%nat :: q) /\ ls_log s2 = set_outstanding (o + 1) (ls_log s)) as Hstep.
  { intros s1 q o Hrun1 El1 Hlt. assert (may_begin (ls_log s1) = true) as Hb.
    { unfold may_begin. rewrite El1. simpl. rewrite Hc, Hn. change MAXOPBLOCKS with 10. change LOGSIZE with 30.
      destruct (Z.leb_spec (0 + (o + 1) * 10) 30); [done|lia]. }
    pose proof (running_reserved _ _ _ Hrun1) as [Hok1 _ _ _ _].
    destruct (proj1 (wp_inv _ _) (begin_op_ok s1 a Hok1 Hb)) as ([] & s2 & E2 & _ & _ & _ & El2).
    exists s2. split; [by eapply run_begin|]. rewrite El2, El1. done. }
  destruct (Hstep s [] 0) as (s1 & R1 & L1); [done|rewrite <- Ho at 1; by destruct (ls_log s)|lia|].
  destruct (Hstep s1 _ 1 R1 L1) as (s2 & R2 & L2); [lia|].
  destruct (Hstep s2 _ 2 R2 L2) as (s3 & R3 & L3); [lia|]. by exists s3.
Qed.

(** C36: the blocks [begin_op] promises are one more than the log can hold.  On a
    log of LOGSIZE blocks, the size mkfs gives it, three operations are admitted
    for 30 blocks, but one block is the header: an operation that has logged
    fewer than MAXOPBLOCKS blocks can make [log_write] panic. *)
Theorem log_overcommitted s a (l := ls_log s) : txn_ok s a -> held a = ∅ ->
  lh_n (lg_lh l) = 0 -> lg_outstanding l = 0 -> lg_committing l = 0 -> lg_size l = LOGSIZE -> lg_start l + 2 * LOGSIZE <= 2 ^ 31 ->
  exists s' a' q n b, running s' a' q /\ (0 < sum_list q)%nat /\ held a' !! n = Some b /\ ~ in_log (ls_log s') n /\
    log_write b s' = Panic "too big a transaction".
Proof.
  intros Hok Hheld Hn Ho Hc Hsz Hst. pose proof (run_boot s a Hok Hn Ho Hc) as Hrun.
  destruct (three_ops s a Hrun Hn) as (s1 & Hrun1 & E1).
  assert (lg_start (ls_log s1) = lg_start l /\ lg_size (ls_log s1) = lg_size l /\ txn (ls_log s1) = []) as (A1 & A2 & A3).
  { rewrite E1. split_and!; try done. unfold txn. simpl. fold l. by rewrite Hn. }
  change LOGSIZE with 30 in *.
  destruct (log_fill s1 a _ 29 Hrun1 Hheld A3) as (s2 & a2 & q & Hrun2 & Hh2 & Hsum & Ht2 & B1 & B2); [rewrite A1, A2; lia|simpl; lia|lia|].
  pose proof (running_reserved _ _ _ Hrun2) as [Hok2 _ _ _ _]. pose proof Hok2 as [Hrep2 Hl2 Hpin2 _ _ _].
  rewrite A1, A2 in *. set (n := lg_start l + lg_size l + 29). assert (0 <= n < 2 ^ 31) as Hr by (pose proof (lo_region _ Hl2); lia).
  destruct (u32_int n Hr) as [Hu _].
  pose proof (z_bread s2 a2 n Hrep2 Hu (not_held a2 Hh2 n) (room_no_held s2 a2 Hl2 Hpin2 a2 n Hh2 (reflexivity _))) as H3.
  destruct (proj1 (wp_inv _ _) H3) as (b & s3 & E3 & R3 & El3 & C3).
  exists s3, (a_hold n b a2), q, n, b. split_and!.
  - eapply run_cache; [exact Hrun2| |exact El3]. destruct Hok2. split; rewrite ?El3; done.
  - simpl in Hsum. lia.
  - apply held_hold.
  - rewrite El3. unfold in_log. lia.
  - apply log_write_full. rewrite El3.
    pose proof (length_txn _ Hl2) as Hlen. rewrite Ht2, length_seqZ in Hlen. pose proof (lo_n _ Hl2). lia.
Qed.
End spec.

(** ** bio.c under the log, on a disk of zeros with the log of mkfs *)
Section example.
Local Instance disk_cache : BlockCache bcache nat 1 := bio_cache 1 ltac:(done).

Definition hart0 : hart := mkHart 0 0 0 false (Some 0%nat).
Definition init_ctx : ctx := Ctx hart0 1 [].
Definition bss_log : log := mkLog (mkLock 0 None "") 0 0 0 0 0 (mkLH 0 (replicate 30 0)).
Definition mkfs_log : log := mkLog (mkLock 0 None "") 2 30 0 0 1 (mkLH 0 (replicate 30 0)).
Definition blank (k : Z) : list Z := zero_block.

Lemma reset_init : reset init_ctx bss_log.
Proof. by split_and!. Qed.

Lemma mkfs_log_ok : log_ok (dev := 1) mkfs_log.
Proof.
  split; try done.
  - intros h Hh. by apply elem_of_nil in Hh.
  - constructor.
Qed.

Lemma blank_hdr : hdr_ok 2 30 (blank 2).
Proof. split; try done; [intros h Hh; by apply elem_of_nil in Hh|constructor]. Qed.

(** The state after booting on the blank disk. *)
Lemma booted_log : exists (s : @lst bcache) a, txn_ok s a /\ noff (cx_hart (ls_ctx s)) = 0 /\ held a = ∅ /\ lh_n (lg_lh (ls_log s)) = 0 /\
  lg_outstanding (ls_log s) = 0 /\ lg_committing (ls_log s) = 0 /\ lg_start (ls_log s) = 2 /\ lg_size (ls_log s) = 30.
Proof.
  assert (wp _ _) as H by (apply (restart_ok init_ctx bss_log mkfs_log blank reset_init mkfs_log_ok); [done|intros; apply zero_block_ok|apply blank_hdr]).
  destruct (proj1 (wp_inv _ _) H) as ([] & s & _ & a & Hok & Hcx & H1 & H2 & H3 & H4 & H5 & H6 & _). clear H. exists s, a.
  pose proof (same_hart_noff _ _ (cx_same_hart _ _ Hcx)) as H0. exact (conj Hok (conj H0 (conj H1 (conj H2 (conj H3 (conj H4 (conj H5 H6))))))). 
Qed.

(** The state in the middle of an operation that writes [d] to block 46. *)
Definition ones : list Z := replicate bsize 1.

Lemma ones_ok : block_ok ones.
Proof. split; [apply length_replicate|]. apply Forall_replicate. unfold is_byte. lia. Qed.

Lemma writing_log : exists (s : @lst bcache) a b, txn_ok s a /\ held a = {[46 := b]} /\ txn (ls_log s) = [] /\ logical a 46 = ones /\
  lg_outstanding (ls_log s) = 1 /\ lg_committing (ls_log s) = 0 /\ lg_start (ls_log s) = 2 /\ lg_size (ls_log s) = 30.
Proof.
  destruct booted_log as (s & a & Hok & _ & Hheld & Hn & Ho & Hc & Hs & Hz).
  assert (may_begin (ls_log s) = true) as Hb by (unfold may_begin; by rewrite Hc, Hn, Ho).
  destruct (proj1 (wp_inv _ _) (begin_op_ok s a Hok Hb)) as ([] & s1 & _ & Hok1 & _ & _ & El1).
  pose proof Hok1 as [Hrep1 Hl1 Hpin1 _ _ _].
  destruct (proj1 (wp_inv _ _) (z_bread s1 a 46 Hrep1 ltac:(done) (not_held a Hheld 46) (room_no_held s1 a Hl1 Hpin1 a 46 Hheld (reflexivity _)))) as (b & s2 & _ & R2 & El2 & _).
  destruct (proj1 (wp_inv _ _) (z_wr s2 _ 46 b R2 ones (held_hold _ _ _) ones_ok)) as ([] & s3 & _ & R3 & El3 & _).
  exists s3, (a_set 46 ones (a_hold 46 b a)), b. rewrite El3, El2, El1. simpl. split_and!; try done.
  - destruct Hok1 as [_ A1 A2 A3 A4 A5]. split; rewrite ?El3, ?El2; done.
  - by rewrite Hheld.
  - unfold txn. simpl. by rewrite Hn.
  - rewrite Ho. done.
Qed.

Lemma log_write_absorbs_witness : exists (s : @lst bcache) a b, held a !! 46 = Some b /\
  wp (log_write b s) (fun _ s' => txn_ok s' (a_pin 46 a) /\ cx_step (ls_ctx s) (ls_ctx s') /\
    lg_outstanding (ls_log s') = lg_outstanding (ls_log s) /\ txn (ls_log s') = if decide (46 ∈ txn (ls_log s)) then txn (ls_log s) else txn (ls_log s) ++ [46]).
Proof.
  destruct writing_log as (s & a & b & Hok & Hh & Ht & Hd & Ho & Hc & Hs & Hz). exists s, a, b.
  assert (held a !! 46 = Some b) as Hb by (rewrite Hh; apply lookup_singleton_eq). split; [done|].
  apply (log_write_absorbs s a 46 b Hok Hb); [lia|unfold in_log; lia|lia|].
  pose proof (length_txn _ (to_log _ _ Hok)) as Hl. rewrite Ht in Hl. simpl in Hl. lia.
Defined.

Lemma end_op_atomic_witness : exists (s : @lst bcache) (a : acache nat), txn (ls_log s) = [46] /\ logical a 46 = ones /\
  wp (end_op s) (fun _ s' => exists a' W,
    txn_ok s' a' /\ lh_n (lg_lh (ls_log s')) = 0 /\ lg_outstanding (ls_log s') = 0 /\
    writes a' = writes a ++ W /\
    (forall k, ~ in_log (ls_log s) k -> on_disk a' k = logical a k /\ logical a' k = logical a k) /\
    forall V, V `prefix_of` W ->
      wp (boot (sb_of (ls_log s)) (restart init_ctx bss_log (apply_writes (on_disk a) V))) (fun _ s2 => exists a2,
        txn_ok s2 a2 /\ lh_n (lg_lh (ls_log s2)) = 0 /\
        ((forall k, ~ in_log (ls_log s) k -> logical a2 k = on_disk a k) \/
         (forall k, ~ in_log (ls_log s) k -> logical a2 k = logical a k)))).
Proof.
  destruct writing_log as (s & a & b & Hok & Hh & Ht & Hd & Ho & Hc & Hs & Hz).
  assert (held a !! 46 = Some b) as Hb by (rewrite Hh; apply lookup_singleton_eq).
  pose proof (length_txn _ (to_log _ _ Hok)) as Hl. rewrite Ht in Hl. simpl in Hl.
  assert (wp _ _) as H1 by (apply (log_write_ok s a 46 b Hok Hb); [lia|unfold in_log; lia|lia|lia]).
  destruct (proj1 (wp_inv _ _) H1) as ([] & s1 & _ & Hok1 & _ & El1).
  assert (txn (ls_log s1) = [46]) as Ht1.
  { rewrite El1, (txn_log_add 46 _ (to_log _ _ Hok)) by (change LOGSIZE with 30; lia). by rewrite Ht. }
  assert (wp _ _) as H2 by (apply (z_brelse s1 (a_pin 46 a) 46 b (to_rep _ _ Hok1) Hb); left; simpl; set_solver).
  destruct (proj1 (wp_inv _ _) H2) as ([] & s2 & _ & R2 & El2 & _).
  exists s2, (a_drop 46 (a_pin 46 a)). rewrite El2. split; [done|]. split; [done|]. rewrite <- El2.
  apply (end_op_atomic s2 (a_drop 46 (a_pin 46 a)) init_ctx bss_log).
  - destruct Hok1 as [_ A1 A2 A3 A4 A5]. split; rewrite ?El2; done.
  - simpl. by rewrite Hh, delete_singleton_eq.
  - rewrite El2, El1. unfold log_add. by case_decide.
  - rewrite El2, El1. unfold log_add. by case_decide.
  - apply reset_init.
Defined.

(** A disk whose header names block 46, logged as ones. *)
Definition crashed_disk : Z -> list Z := <[3 := ones]> (<[2 := make_head zero_block [46]]> blank).

Lemma crashed_blocks k : block_ok (crashed_disk k).
Proof.
  unfold crashed_disk. destruct (decide (k = 3)) as [->|]; [rewrite fn_lookup_insert; apply ones_ok|]. rewrite fn_lookup_insert_ne by done.
  destruct (decide (k = 2)) as [->|]; [|rewrite fn_lookup_insert_ne by done; apply zero_block_ok].
  rewrite fn_lookup_insert. apply make_head_ok; [apply zero_block_ok|by apply Nat.leb_le].
Qed.

Lemma crashed_txn : hdr_txn (crashed_disk 2) = [46].
Proof.
  unfold crashed_disk. rewrite fn_lookup_insert_ne, fn_lookup_insert by done. apply hdr_txn_make; [apply zero_block_ok|by apply Nat.leb_le|].
  intros h ->%list_elem_of_singleton. lia.
Qed.

Lemma crashed_hdr : hdr_ok 2 30 (crashed_disk 2).
Proof.
  pose proof (length_hdr_txn (crashed_disk 2)) as Hlen. rewrite crashed_txn in Hlen. cbn [length] in Hlen.
  split; rewrite ?crashed_txn; [lia|change NBUF with 30; change LOGSIZE with 30; lia| |apply NoDup_singleton].
  intros h ->%list_elem_of_singleton. lia.
Qed.

Lemma recovery_restartable_witness :
  wp (boot (sb_of mkfs_log) (restart init_ctx bss_log crashed_disk)) (fun _ s1 => exists a1 : acache nat,
    txn_ok s1 a1 /\
    (forall t h, hdr_txn (crashed_disk 2) !! t = Some h -> logical a1 h = crashed_disk (2 + Z.of_nat t + 1)) /\
    (forall k, ~ in_log mkfs_log k -> k ∉ hdr_txn (crashed_disk 2) -> logical a1 k = crashed_disk k) /\
    forall V, V `prefix_of` writes a1 ->
      wp (boot (sb_of mkfs_log) (restart init_ctx bss_log (apply_writes crashed_disk V))) (fun _ s2 => exists a2 : acache nat,
        txn_ok s2 a2 /\ forall k, ~ in_log mkfs_log k -> logical a2 k = logical a1 k)).
Proof.
  apply (recovery_restartable init_ctx bss_log mkfs_log crashed_disk).
  - apply reset_init.
  - apply mkfs_log_ok.
  - done.
  - apply crashed_blocks.
  - apply crashed_hdr.
Defined.

Lemma begin_op_admits_witness : exists (s : @lst bcache) (a : acache nat), lg_outstanding (ls_log s) = 0 /\
  if decide (lg_committing (ls_log s) = 0 /\ lh_n (lg_lh (ls_log s)) + (lg_outstanding (ls_log s) + 1) * MAXOPBLOCKS <= LOGSIZE)
  then wp (begin_op s) (fun _ s' => txn_ok s' a /\ ls_log s' = set_outstanding (lg_outstanding (ls_log s) + 1) (ls_log s))
  else exists s1 ready k, begin_op s = Wait (Some ChanLog) s1 ready k /\ txn_ok s1 a /\ ls_log s1 = ls_log s /\
    forall s2, ready s2 = true -> may_begin (ls_log s2) = true /\ lk_locked (lg_lock (ls_log s2)) = 0.
Proof.
  destruct booted_log as (s & a & Hok & H0 & _ & _ & Ho & _). exists s, a. split; [exact Ho|].
  apply (begin_op_admits s a); [exact Hok|exact H0].
Defined.


Lemma log_overcommitted_witness : exists (s : @lst bcache) (a : acache nat), txn_ok s a /\ lg_size (ls_log s) = LOGSIZE /\
  exists s' a' q n b, running s' a' q /\ (0 < sum_list q)%nat /\ held a' !! n = Some b /\ ~ in_log (ls_log s') n /\
    log_write b s' = Panic "too big a transaction".
Proof.
  destruct booted_log as (s & a & Hok & _ & Hh & Hn & Ho & Hc & Hs & Hz). exists s, a. split; [done|]. split; [done|].
  apply (log_overcommitted s a); try done. rewrite Hs. done.
Defined.
End example.
