(* ===== verification/Txn.v ===== *)
(** * The store the file system is written on

    fs.c, file.c, sysfile.c and exec.c reach the disk through bread, brelse,
    log_write, begin_op and end_op only.  [TxnStore] is what they rely on: the
    blocks of a running transaction, the buffers the caller holds, and the
    number of blocks the transaction can still take.  [log_store] shows that
    log.c on top of bio.c provides it. *)
From S2P Require Import Prelude Machine Spinlock Block Log.
Local Open Scope Z_scope.
Local Open Scope kernel_scope.

Class TxnStore (T B : Type) (dev logstart nlog : Z) := {
  t_bread : Z -> Z -> K (ctx * T) B;
  t_brelse : B -> K (ctx * T) unit;
  t_log_write : B -> K (ctx * T) unit;
  t_begin_op : K (ctx * T) unit;
  t_end_op : K (ctx * T) unit;
  t_initlog : Z -> sb_log -> K (ctx * T) unit;
  t_data : T -> B -> list Z;
  t_set_data : B -> list Z -> T -> T;

  (** Inside an operation of process [pid]. *)
  t_rep : Z -> T -> acache B -> Prop;

  t_equiv pid t a a' : aequiv a a' -> t_rep pid t a -> t_rep pid t a';
  t_blocks pid t a : t_rep pid t a -> forall n, block_ok (logical a n);
  t_clean pid t a n : t_rep pid t a -> n ∉ pinned a -> held a !! n = None -> logical a n = on_disk a n;
  t_bread_law c t a n : cx_ok c -> t_rep (cx_pid c) t a -> is_u32 n -> held a !! n = None ->
    Z.of_nat (size (held a) + size (pinned a)) < NBUF ->
    wp (t_bread dev n (c, t)) (fun b '(c', t') => cx_step c c' /\ t_rep (cx_pid c) t' (a_hold n b a));
  t_brelse_law c t a n b : cx_ok c -> t_rep (cx_pid c) t a -> held a !! n = Some b ->
    n ∈ pinned a \/ logical a n = on_disk a n ->
    wp (t_brelse b (c, t)) (fun _ '(c', t') => cx_step c c' /\ t_rep (cx_pid c) t' (a_drop n a));
  t_log_write_law c t a n b : cx_ok c -> t_rep (cx_pid c) t a -> held a !! n = Some b ->
    0 <= n < 2 ^ 31 -> ~ (logstart <= n < logstart + nlog) -> Z.of_nat (size (pinned a)) + 1 < nlog ->
    wp (t_log_write b (c, t)) (fun _ '(c', t') => cx_step c c' /\ t_rep (cx_pid c) t' (a_pin n a));
  t_data_law pid t a n b : t_rep pid t a -> held a !! n = Some b -> t_data t b = logical a n;
  t_set_data_law pid t a n b d : t_rep pid t a -> held a !! n = Some b -> block_ok d ->
    t_rep pid (t_set_data b d t) (a_set n d a)
}.

(** ** log.c on a buffer cache *)
Section log_store.
Context {ST B : Type} {dev : Z} `{BC : !BlockCache ST B dev} (logstart nlog : Z).

(** The state of the log without the context it runs in. *)
Definition outL : lens (ctx * (log * ST)) (@lst ST) :=
  Lens (fun '(c, (l, t)) => LS c l t) (fun s _ => (ls_ctx s, (ls_log s, ls_cache s))).
(** A running transaction. *)
Definition log_rep (pid : Z) (lt : log * ST) (a : acache B) : Prop :=
  (forall c, cx_ok c -> cx_pid c = pid -> txn_ok (LS c lt.1 lt.2) a) /\
  1 <= lg_outstanding lt.1 /\ lg_start lt.1 = logstart /\ lg_size lt.1 = nlog.

Lemma log_rep_state c l t a : log_rep (cx_pid c) (l, t) a -> cx_ok c -> txn_ok (LS c l t) a.
Proof. intros (H & _) Hc. by apply H. Qed.

Lemma log_rep_cache pid l t a : log_rep pid (l, t) a -> rep pid t a.
Proof.
  intros (H & _). destruct (H (Ctx (mkHart 0 0 0 false None) pid [])) as [[_ Hr] _ _ _ _ _]; [by split_and!|done|exact Hr].
Qed.

Lemma log_rep_intro c l t a : txn_ok (LS c l t) a -> 1 <= lg_outstanding l -> lg_start l = logstart -> lg_size l = nlog ->
  log_rep (cx_pid c) (l, t) a.
Proof.
  intros [[Hc Hr] H2 H3 H4 H5 H6] Ho Hs Hz. split; [|done]. intros c' Hc' Ep. split; try done. split; [done|].
  cbn [ls_ctx ls_cache fst snd] in *. by rewrite Ep.
Qed.

(** Run an operation of the log whose effect on [txn_ok] is known. *)
Lemma out_law {A} (m : K (@lst ST) A) c l t (Q : A -> acache B) l' :
  1 <= lg_outstanding l' -> lg_start l' = logstart -> lg_size l' = nlog ->
  wp (m (LS c l t)) (fun r s' => txn_ok s' (Q r) /\ cx_step c (ls_ctx s') /\ ls_log s' = l') ->
  wp (zoom outL m (c, (l, t))) (fun r '(c', lt') => cx_step c c' /\ log_rep (cx_pid c) lt' (Q r)).
Proof.
  intros Ho Hs Hz H. apply wp_zoom. cbn [outL view]. eapply wp_mono; [|exact H].
  intros r [c' l2 t'] (Hok & Hst & El). cbn [ls_ctx ls_log] in *. subst l2. split; [done|].
  rewrite <- (cx_same_pid _ _ Hst). by apply log_rep_intro.
Qed.

Lemma txn_ok_same s s' a a' : txn_ok s a -> lrep s' a' -> same_log s s' -> pinned a' = pinned a ->
  on_disk a' (lg_start (ls_log s)) = on_disk a (lg_start (ls_log s)) -> txn_ok s' a'.
Proof. intros [H1 H2 H3 H4 H5 H6] Hr [El _] Hp Hd. split; rewrite ?El, ?Hp, ?Hd; try done. Qed.

Lemma room_size n (a : acache B) : Z.of_nat (size (held a) + size (pinned a)) < NBUF -> room n a.
Proof.
  intros Hlt. right. unfold in_use. pose proof (size_union_alt (dom (held a)) (pinned a)) as E.
  assert (size (pinned a ∖ dom (held a)) <= size (pinned a))%nat by (apply subseteq_size, subseteq_difference_l; done).
  rewrite size_dom in E. lia.
Qed.

Lemma pinned_count s a : txn_ok s a -> Z.of_nat (size (pinned a)) = lh_n (lg_lh (ls_log s)).
Proof.
  intros [_ Hl Hpin _ _ _]. rewrite Hpin, size_list_to_set by apply (lo_nodup _ Hl). rewrite (length_txn _ Hl).
  pose proof (lo_n _ Hl). lia.
Qed.

Section laws.
Context (c : ctx) (l : log) (t : ST) (a : acache B) (n : Z).
Context (Hc : cx_ok c) (Hrep : log_rep (cx_pid c) (l, t) a).

Lemma log_bread_law : is_u32 n -> held a !! n = None -> Z.of_nat (size (held a) + size (pinned a)) < NBUF ->
  wp (zoom outL (zoom cacheL (bread dev n)) (c, (l, t))) (fun b '(c', lt') => cx_step c c' /\ log_rep (cx_pid c) lt' (a_hold n b a)).
Proof.
  intros Hn Hh Hq. pose proof (log_rep_state _ _ _ _ Hrep Hc) as Hok. destruct Hrep as (_ & Ho & Hs & Hz).
  apply (out_law _ _ _ _ (fun b => a_hold n b a) l); try done.
  eapply wp_mono; [|apply (z_bread (LS c l t) a n); [apply Hok|done|done|by apply room_size]].
  intros b s' [R L]. split; [|split; apply L]. by eapply txn_ok_same.
Qed.

Lemma log_brelse_law b : held a !! n = Some b -> n ∈ pinned a \/ logical a n = on_disk a n ->
  wp (zoom outL (zoom cacheL (brelse b)) (c, (l, t))) (fun _ '(c', lt') => cx_step c c' /\ log_rep (cx_pid c) lt' (a_drop n a)).
Proof.
  intros Hh Hp. pose proof (log_rep_state _ _ _ _ Hrep Hc) as Hok. destruct Hrep as (_ & Ho & Hs & Hz).
  apply (out_law _ _ _ _ (fun _ => a_drop n a) l); try done.
  eapply wp_mono; [|apply (z_brelse (LS c l t) a n); [apply Hok|done|done]].
  intros [] s' [R L]. split; [|split; apply L]. by eapply txn_ok_same.
Qed.

Lemma log_log_write_law b : held a !! n = Some b -> 0 <= n < 2 ^ 31 -> ~ (logstart <= n < logstart + nlog) ->
  Z.of_nat (size (pinned a)) + 1 < nlog ->
  wp (zoom outL (log_write b) (c, (l, t))) (fun _ '(c', lt') => cx_step c c' /\ log_rep (cx_pid c) lt' (a_pin n a)).
Proof.
  intros Hh Hn Hin Hroom. pose proof (log_rep_state _ _ _ _ Hrep Hc) as Hok. destruct Hrep as (_ & Ho & Hs & Hz).
  cbn [fst] in *. destruct (log_add_n n l) as (A1 & A2 & A3). pose proof (pinned_count _ _ Hok) as Hcnt. cbn [ls_log] in Hcnt.
  assert (lg_start (log_add n l) = lg_start l /\ lg_size (log_add n l) = lg_size l) as [A4 A5] by (unfold log_add; by case_decide).
  apply (out_law _ _ _ _ (fun _ => a_pin n a) (log_add n l)); [lia|lia|lia|].
  apply (log_write_ok (LS c l t) a n b Hok Hh Hn); cbn [ls_log]; [unfold in_log; lia|lia|lia].
Qed.
End laws.

Global Program Instance log_store : TxnStore (log * ST) B dev logstart nlog := {|
  t_bread := fun d n => zoom outL (zoom cacheL (bread d n));
  t_brelse := fun b => zoom outL (zoom cacheL (brelse b));
  t_log_write := fun b => zoom outL (log_write b);
  t_begin_op := zoom outL begin_op;
  t_end_op := zoom outL end_op;
  t_initlog := fun d sb => zoom outL (initlog d sb);
  t_data := fun lt b => bdata lt.2 b;
  t_set_data := fun b d lt => (lt.1, set_bdata b d lt.2);
  t_rep := log_rep
|}.
Next Obligation.
  intros pid t a a' E (H & Hb). split; [|done]. intros c Hc Ep. destruct (H c Hc Ep) as [H1 H2 H3 H4 H5 H6].
  split; try done; [by eapply lrep_equiv|by rewrite <- (eq_pinned _ _ E)|by rewrite <- (eq_disk _ _ E)].
Qed.
Next Obligation. intros pid [l t] a H n. apply (rep_blocks _ _ _ (log_rep_cache _ _ _ _ H)). Qed.
Next Obligation. intros pid [l t] a n H. apply (rep_clean _ _ _ _ (log_rep_cache _ _ _ _ H)). Qed.
Next Obligation. intros c [l t] a n Hc. by apply log_bread_law. Qed.
Next Obligation. intros c [l t] a n b Hc Hr. by apply log_brelse_law. Qed.
Next Obligation. intros c [l t] a n b Hc Hr. by apply log_log_write_law. Qed.
Next Obligation. intros pid [l t] a n b H Hh. apply (bdata_law _ _ _ _ _ (log_rep_cache _ _ _ _ H) Hh). Qed.
Next Obligation.
  intros pid [l t] a n b d (H & Hb) Hh Hd. split; [|done]. intros c Hc Ep. destruct (H c Hc Ep) as [[_ H1] H2 H3 H4 H5 H6].
  split; try done. split; [done|]. by apply set_bdata_law.
Qed.
End log_store.
