(* ===== verification/Fs.v ===== *)
(** * kernel/fs.c: blocks, inodes, directories and paths

    The code of fs.c over the transactional store ([TxnStore]).  A pointer to an
    in-memory inode is its index in icache.inode.  Buffers the C code fills
    through a kernel address ([readi] with user_dst = 0, the dirent of
    [dirlookup]) are results of the functions; C strings are lists of bytes, the
    terminating NUL being the end of the list. *)
From S2P Require Import Prelude Machine KString Spinlock Kalloc Vm UserMem Block Env Log Txn.
Local Open Scope Z_scope.
Local Open Scope kernel_scope.

(** ** fs.h, stat.h *)
Definition ROOTINO : Z := 1.
Definition FSMAGIC : Z := 0x10203040.
Definition NDIRECT : Z := 12.
Definition NINDIRECT : Z := BSIZE / 4.
Definition MAXFILE : Z := NDIRECT + NINDIRECT.
Definition DIRSIZ : Z := 14.
Definition T_DIR : Z := 1.
Definition T_FILE : Z := 2.
Definition T_DEVICE : Z := 3.

Record superblock := mkSb {
  sb_magic : Z;
  sb_size : Z;       (* Size of file system image (blocks) *)
  sb_nblocks : Z;
  sb_ninodes : Z;
  sb_logpart : sb_log; (* nlog, logstart *)
  sb_inodestart : Z;
  sb_bmapstart : Z
}.

Record dinode := mkDi {
  di_type : Z;
  di_major : Z;
  di_minor : Z;
  di_nlink : Z;
  di_size : Z;
  di_addrs : list Z
}.

Definition sizeof_dinode : Z := 64.
Definition IPB : Z := BSIZE / sizeof_dinode.
Definition IBLOCK (i : Z) (sb : superblock) : Z := u32 (i / IPB + sb_inodestart sb).
Definition BPB : Z := BSIZE * 8.
Definition BBLOCK (b : Z) (sb : superblock) : Z := u32 (b / BPB + sb_bmapstart sb).

(** The superblock as the first bytes of a block. *)
Definition get_sb (d : list Z) : superblock :=
  mkSb (get32 d 0) (get32 d 4) (get32 d 8) (get32 d 12) (mkSbLog (get32 d 20) (get32 d 16)) (get32 d 24) (get32 d 28).

(** The [k]-th dinode of an inode block. *)
Definition get_dinode (d : list Z) (k : nat) : dinode :=
  let o := (64 * k)%nat in
  mkDi (s16 (get16 d o)) (s16 (get16 d (o + 2))) (s16 (get16 d (o + 4))) (s16 (get16 d (o + 6))) (get32 d (o + 8))
       ((fun j => get32 d (o + 12 + 4 * j)%nat) <$> seq 0 13).
Fixpoint put_addrs (d : list Z) (o : nat) (l : list Z) : list Z :=
  match l with
  | [] => d
  | v :: l => put_addrs (put32 d o v) (o + 4) l
  end.
Definition put_dinode (d : list Z) (k : nat) (v : dinode) : list Z :=
  let o := (64 * k)%nat in
  let d := put16 d o (u16 (di_type v)) in
  let d := put16 d (o + 2) (u16 (di_major v)) in
  let d := put16 d (o + 4) (u16 (di_minor v)) in
  let d := put16 d (o + 6) (u16 (di_nlink v)) in
  let d := put32 d (o + 8) (di_size v) in
  put_addrs d (o + 12) (di_addrs v).

(** ** file.h: the in-memory copy of an inode *)
Record inode := mkInode {
  i_dev : Z;
  i_inum : Z;
  i_ref : Z;
  i_lock : sleeplock;
  i_valid : Z;
  i_di : dinode   (* copy of disk inode *)
}.

Definition set_i_id (dev inum ref valid : Z) (i : inode) : inode := mkInode dev inum ref (i_lock i) valid (i_di i).
Definition set_i_ref (v : Z) (i : inode) : inode := mkInode (i_dev i) (i_inum i) v (i_lock i) (i_valid i) (i_di i).
Definition set_i_lock (v : sleeplock) (i : inode) : inode := mkInode (i_dev i) (i_inum i) (i_ref i) v (i_valid i) (i_di i).
Definition set_i_valid (v : Z) (i : inode) : inode := mkInode (i_dev i) (i_inum i) (i_ref i) (i_lock i) v (i_di i).
Definition set_i_di (v : dinode) (i : inode) : inode := mkInode (i_dev i) (i_inum i) (i_ref i) (i_lock i) (i_valid i) v.
Definition set_di_type (v : Z) (d : dinode) : dinode :=
  mkDi v (di_major d) (di_minor d) (di_nlink d) (di_size d) (di_addrs d).
Definition set_di_dev (major minor nlink : Z) (d : dinode) : dinode :=
  mkDi (di_type d) major minor nlink (di_size d) (di_addrs d).
Definition set_di_nlink (v : Z) (d : dinode) : dinode :=
  mkDi (di_type d) (di_major d) (di_minor d) v (di_size d) (di_addrs d).
Definition set_di_size (v : Z) (d : dinode) : dinode :=
  mkDi (di_type d) (di_major d) (di_minor d) (di_nlink d) v (di_addrs d).
Definition set_di_addr (k : nat) (v : Z) (d : dinode) : dinode :=
  mkDi (di_type d) (di_major d) (di_minor d) (di_nlink d) (di_size d) (<[k := v]> (di_addrs d)).

Record icache := mkIC { ic_lock : spinlock; ic_inode : list inode }.

Definition no_dinode : dinode := mkDi 0 0 0 0 0 (replicate 13 0).
Definition no_inode : inode := mkInode 0 0 0 (mkSleep 0 (mkLock 0 None "") "" 0) 0 no_dinode.
Definition geti (l : list inode) (i : nat) : inode := default no_inode (l !! i).

(** struct stat. *)
Record stat := mkStat { st_dev : Z; st_ino : Z; st_type : Z; st_nlink : Z; st_size : Z }.

(** ** Strings and paths *)

(** The character under a pointer into a C string. *)
Definition chr (s : list Z) : Z := default 0 (head s).

(** string.c's strncmp and strncpy on byte arrays ([strncmp_bytes] and
    [strncpy_bytes] in FsPath.v relate them to the functions on memory). *)
Fixpoint strncmp_list (p q : list Z) (n : nat) : Z :=
  match n with
  | O => 0
  | S n => if negb (chr p =? 0) && (chr p =? chr q) then strncmp_list (tail p) (tail q) n else chr p - chr q
  end.

(** The bytes [strncpy] stores for the string [t]. *)
Fixpoint strncpy_list (t : list Z) (n : nat) : list Z :=
  match n with
  | O => []
  | S n => if chr t =? 0 then 0 :: replicate n 0 else chr t :: strncpy_list (tail t) n
  end.

Definition namecmp (s t : list Z) : Z := strncmp_list s t (Z.to_nat DIRSIZ).

Definition SLASH : Z := 47.

(** while(star path == SLASH) path++ *)
Fixpoint skip_slashes (path : list Z) : list Z :=
  match path with
  | c :: rest => if c =? SLASH then skip_slashes rest else path
  | [] => []
  end.

(** while(star path != SLASH && star path != 0) path++, with the characters passed *)
Fixpoint take_elem (path : list Z) : list Z * list Z :=
  match path with
  | c :: rest => if negb (c =? SLASH) && negb (c =? 0)
                 then let (s, path') := take_elem rest in (c :: s, path') else ([], path)
  | [] => ([], [])
  end.

(** [name] is the array of DIRSIZ bytes; the result is the rest of the path and
    the new contents of the array. *)
Definition skipelem (path name : list Z) : option (list Z * list Z) :=
  let path := skip_slashes path in
  if chr path =? 0 then None else
  let (s, path) := take_elem path in
  let len := Z.of_nat (length s) in
  let name := if DIRSIZ <=? len then splice name 0 (take (Z.to_nat DIRSIZ) s)
              else splice (splice name 0 s) (Z.to_nat len) [0] in
  Some (skip_slashes path, name).

(** ** The code *)
Section code.
Context {T B : Type} {dev logstart nlog : Z} `{TS : !TxnStore T B dev logstart nlog}.

Record fss := FSS { f_env : uenv; f_t : T; f_ic : icache; f_sb : superblock; f_cwd : nat }.

Definition fE : lens fss uenv := Lens f_env (fun e s => FSS e (f_t s) (f_ic s) (f_sb s) (f_cwd s)).
Definition fT : lens fss (ctx * T) :=
  Lens (fun s => (view envC (f_env s), f_t s)) (fun p s => FSS (over envC p.1 (f_env s)) p.2 (f_ic s) (f_sb s) (f_cwd s)).
Definition fH : lens fss hart :=
  Lens (fun s => view envH (f_env s)) (fun h s => FSS (over envH h (f_env s)) (f_t s) (f_ic s) (f_sb s) (f_cwd s)).
Definition upd_ic (f : icache -> icache) (s : fss) : fss := FSS (f_env s) (f_t s) (f (f_ic s)) (f_sb s) (f_cwd s).
Definition fL : lens fss spinlock :=
  Lens (fun s => ic_lock (f_ic s)) (fun l => upd_ic (fun c => mkIC l (ic_inode c))).
Definition upd_inode (i : nat) (f : inode -> inode) (s : fss) : fss :=
  upd_ic (fun c => mkIC (ic_lock c) (alter f i (ic_inode c))) s.
(** The inode's sleep lock, run for the current process. *)
Definition fSL (i : nat) : lens fss slstate :=
  Lens (fun s => mkSL (view envH (f_env s)) (i_lock (geti (ic_inode (f_ic s)) i)) (ue_pid (f_env s)) (ue_wakes (f_env s)))
       (fun x s => upd_inode i (set_i_lock (ss_lk x))
                     (FSS (over envC (Ctx (ss_hart x) (ss_pid x) (ss_wakes x)) (f_env s)) (f_t s) (f_ic s) (f_sb s) (f_cwd s))).
Definition inode_chan (i : nat) : chan := ChanLock "inode" (Z.of_nat i).

Definition ino (i : nat) : K fss inode := gets (fun s => geti (ic_inode (f_ic s)) i).
Definition upd_i (i : nat) (f : inode -> inode) : K fss unit := modify (upd_inode i f).
Definition upd_di (i : nat) (f : dinode -> dinode) : K fss unit := upd_i i (fun x => set_i_di (f (i_di x)) x).
Definition sb : K fss superblock := gets f_sb.

Definition f_bread (d n : Z) : K fss B := zoom fT (t_bread d n).
Definition f_brelse (b : B) : K fss unit := zoom fT (t_brelse b).
Definition f_log_write (b : B) : K fss unit := zoom fT (t_log_write b).
Definition f_data (b : B) : K fss (list Z) := gets (fun s => t_data (f_t s) b).
Definition f_store (b : B) (d : list Z) : K fss unit :=
  modify (fun s => FSS (f_env s) (t_set_data b d (f_t s)) (f_ic s) (f_sb s) (f_cwd s)).

Definition readsb (d : Z) : K fss superblock :=
  bp <- f_bread d 1;;
  data <- f_data bp;;
  f_brelse bp;;
  ret (get_sb data).

Definition fsinit (d : Z) : K fss unit :=
  v <- readsb d;;
  modify (fun s => FSS (f_env s) (f_t s) (f_ic s) v (f_cwd s));;
  if negb (sb_magic v =? FSMAGIC) then panic "invalid file system" else
  zoom fT (t_initlog d (sb_logpart v)).

Definition bzero (d bno : Z) : K fss unit :=
  bp <- f_bread d (u32 bno);;
  f_store bp zero_block;;
  f_log_write bp;;
  f_brelse bp.

Definition balloc (d : Z) : K fss Z :=
  while_ budget (fun b =>
    v <- sb;;
    if negb (b <? sb_size v) then panic "balloc: out of blocks" else
    bp <- f_bread d (BBLOCK b v);;
    r <- for_each (seqZ 0 BPB) (fun bi =>
      if negb (b + bi <? sb_size v) then ret (Some None) else
      let m := Z.shiftl 1 (bi mod 8) in
      data <- f_data bp;;
      let x := get8 data (Z.to_nat (bi / 8)) in
      if Z.land x m =? 0 then (* Is block free? *)
        f_store bp (put8 data (Z.to_nat (bi / 8)) (Z.lor x m));; (* Mark block in use. *)
        f_log_write bp;;
        f_brelse bp;;
        bzero d (b + bi);;
        ret (Some (Some (b + bi)))
      else ret None);;
    match r with
    | Some (Some n) => ret (inr n)
    | _ => f_brelse bp;; ret (inl (b + BPB))
    end) 0.

Definition bfree (d b : Z) : K fss unit :=
  v <- sb;;
  bp <- f_bread d (BBLOCK b v);;
  let bi := b mod BPB in
  let m := Z.shiftl 1 (bi mod 8) in
  data <- f_data bp;;
  let x := get8 data (Z.to_nat (bi / 8)) in
  if Z.land x m =? 0 then panic "freeing free block" else
  f_store bp (put8 data (Z.to_nat (bi / 8)) (Z.land x (Z.lnot m)));;
  f_log_write bp;;
  f_brelse bp.

Definition iinit : K fss unit :=
  modify (over fL (initlock "icache"));;
  _ <- for_each (seqZ 0 NINODE) (fun i =>
    upd_i (Z.to_nat i) (set_i_lock (initsleeplock "inode"));; ret (@None unit));;
  ret tt.

Definition iget (d inum : Z) : K fss nat :=
  acquire fH fL;;
  r <- while_ budget (fun '(ip, empty) =>
    if negb (Z.of_nat ip <? NINODE) then ret (inr (inr empty)) else
    x <- ino ip;;
    if (0 <? i_ref x) && (i_dev x =? d) && (i_inum x =? inum) then
      upd_i ip (set_i_ref (i_ref x + 1));;
      release fH fL;;
      ret (inr (inl ip))
    else
      let empty := match empty with
                   | None => if i_ref x =? 0 then Some ip else None (* Remember empty slot. *)
                   | Some e => Some e
                   end in
      ret (inl (S ip, empty))) (O, None);;
  match r with
  | inl ip => ret ip
  | inr None => panic "iget: no inodes"
  | inr (Some ip) =>
      upd_i ip (set_i_id d inum 1 0);;
      release fH fL;;
      ret ip
  end.

Definition ialloc (d type : Z) : K fss nat :=
  while_ budget (fun inum =>
    v <- sb;;
    if negb (inum <? sb_ninodes v) then panic "ialloc: no inodes" else
    bp <- f_bread d (IBLOCK inum v);;
    data <- f_data bp;;
    let k := Z.to_nat (inum mod IPB) in
    if di_type (get_dinode data k) =? 0 then (* a free inode *)
      f_store bp (put_dinode data k (set_di_type type no_dinode));;
      f_log_write bp;; (* mark it allocated on the disk *)
      f_brelse bp;;
      ip <- iget d inum;;
      ret (inr ip)
    else
      f_brelse bp;;
      ret (inl (inum + 1))) 1.

Definition iupdate (ip : nat) : K fss unit :=
  x <- ino ip;;
  v <- sb;;
  bp <- f_bread (i_dev x) (IBLOCK (i_inum x) v);;
  data <- f_data bp;;
  f_store bp (put_dinode data (Z.to_nat (i_inum x mod IPB)) (i_di x));;
  f_log_write bp;;
  f_brelse bp.

Definition idup (ip : nat) : K fss nat :=
  acquire fH fL;;
  x <- ino ip;;
  upd_i ip (set_i_ref (i_ref x + 1));;
  release fH fL;;
  ret ip.

Definition ilock (ip : nat) : K fss unit :=
  x <- ino ip;;
  if i_ref x <? 1 then panic "ilock" else
  zoom (fSL ip) (acquiresleep (inode_chan ip));;
  x <- ino ip;;
  if i_valid x =? 0 then
    v <- sb;;
    bp <- f_bread (i_dev x) (IBLOCK (i_inum x) v);;
    data <- f_data bp;;
    upd_i ip (set_i_di (get_dinode data (Z.to_nat (i_inum x mod IPB))));;
    f_brelse bp;;
    upd_i ip (set_i_valid 1);;
    x <- ino ip;;
    if di_type (i_di x) =? 0 then panic "ilock: no type" else ret tt
  else ret tt.

Definition iunlock (ip : nat) : K fss unit :=
  h <- zoom (fSL ip) holdingsleep;;
  x <- ino ip;;
  if negb h || (i_ref x <? 1) then panic "iunlock" else
  zoom (fSL ip) (releasesleep (inode_chan ip)).

Definition bmap (ip : nat) (bn : Z) : K fss Z :=
  x <- ino ip;;
  if bn <? NDIRECT then
    let addr := default 0 (di_addrs (i_di x) !! Z.to_nat bn) in
    if addr =? 0 then
      addr <- balloc (i_dev x);;
      upd_di ip (set_di_addr (Z.to_nat bn) addr);;
      ret addr
    else ret addr
  else
  let bn := bn - NDIRECT in
  if bn <? NINDIRECT then
    (* Load indirect block, allocating if necessary. *)
    let addr := default 0 (di_addrs (i_di x) !! Z.to_nat NDIRECT) in
    addr <- (if addr =? 0 then
               addr <- balloc (i_dev x);;
               upd_di ip (set_di_addr (Z.to_nat NDIRECT) addr);;
               ret addr
             else ret addr);;
    bp <- f_bread (i_dev x) addr;;
    a <- f_data bp;;
    let addr := get32 a (Z.to_nat (4 * bn)) in
    addr <- (if addr =? 0 then
               addr <- balloc (i_dev x);;
               a <- f_data bp;;
               f_store bp (put32 a (Z.to_nat (4 * bn)) addr);;
               f_log_write bp;;
               ret addr
             else ret addr);;
    f_brelse bp;;
    ret addr
  else panic "bmap: out of range".

Definition itrunc (ip : nat) : K fss unit :=
  x <- ino ip;;
  _ <- for_each (seqZ 0 NDIRECT) (fun i =>
    x <- ino ip;;
    let addr := default 0 (di_addrs (i_di x) !! Z.to_nat i) in
    if addr =? 0 then ret (@None unit) else
    bfree (i_dev x) addr;;
    upd_di ip (set_di_addr (Z.to_nat i) 0);;
    ret None);;
  x <- ino ip;;
  let addr := default 0 (di_addrs (i_di x) !! Z.to_nat NDIRECT) in
  (if addr =? 0 then ret tt else
   bp <- f_bread (i_dev x) addr;;
   _ <- for_each (seqZ 0 NINDIRECT) (fun j =>
     a <- f_data bp;;
     let aj := get32 a (Z.to_nat (4 * j)) in
     if aj =? 0 then ret (@None unit) else
     bfree (i_dev x) aj;;
     ret None);;
   f_brelse bp;;
   bfree (i_dev x) addr;;
   upd_di ip (set_di_addr (Z.to_nat NDIRECT) 0));;
  upd_di ip (set_di_size 0);;
  iupdate ip.

Definition iput (ip : nat) : K fss unit :=
  acquire fH fL;;
  x <- ino ip;;
  (if (i_ref x =? 1) && negb (i_valid x =? 0) && (di_nlink (i_di x) =? 0) then
     (* inode has no links and no other references: truncate and free. *)
     zoom (fSL ip) (acquiresleep (inode_chan ip));;
     release fH fL;;
     itrunc ip;;
     upd_di ip (set_di_type 0);;
     iupdate ip;;
     upd_i ip (set_i_valid 0);;
     zoom (fSL ip) (releasesleep (inode_chan ip));;
     acquire fH fL
   else ret tt);;
  x <- ino ip;;
  upd_i ip (set_i_ref (i_ref x - 1));;
  release fH fL.

Definition iunlockput (ip : nat) : K fss unit := iunlock ip;; iput ip.

Definition stati (ip : nat) : K fss stat :=
  x <- ino ip;;
  let d := i_di x in
  ret (mkStat (s32 (i_dev x)) (i_inum x) (di_type d) (di_nlink d) (di_size d)).

(** [dst]: a user address, or [None] for a kernel buffer; the result carries
    the bytes stored in the kernel buffer. *)
Definition readi (ip : nat) (dst : option Z) (off n : Z) : K fss (Z * list Z) :=
  x <- ino ip;;
  let size := di_size (i_di x) in
  if (size <? off) || (u32 (off + n) <? off) then ret (0, []) else
  let n := if size <? u32 (off + n) then u32 (size - off) else n in
  while_ budget (fun '(tot, off, dst, acc) =>
    if negb (tot <? n) then ret (inr (s32 tot, acc)) else
    addr <- bmap ip (off / BSIZE);;
    bp <- f_bread (i_dev x) addr;;
    let m := Z.min (n - tot) (BSIZE - off mod BSIZE) in
    data <- f_data bp;;
    r <- zoom fE (either_copyout dst (slice data (Z.to_nat (off mod BSIZE)) (Z.to_nat m)) m);;
    if r.1 =? -1 then
      f_brelse bp;;
      ret (inr (-1, acc))
    else
      f_brelse bp;;
      ret (inl (u32 (tot + m), u32 (off + m), (fun a => u64 (a + m)) <$> dst, acc ++ r.2))) (0, off, dst, []).

(** [src]: a user address, or the bytes of a kernel buffer. *)
Definition advance (m : Z) (src : Z + list Z) : Z + list Z :=
  match src with
  | inl va => inl (u64 (va + m))
  | inr bytes => inr (drop (Z.to_nat m) bytes)
  end.

Definition writei (ip : nat) (src : Z + list Z) (off n : Z) : K fss Z :=
  x <- ino ip;;
  let size := di_size (i_di x) in
  if (size <? off) || (u32 (off + n) <? off) then ret (-1) else
  if MAXFILE * BSIZE <? u32 (off + n) then ret (-1) else
  r <- while_ budget (fun '(tot, off, src) =>
    if negb (tot <? n) then ret (inr (tot, off)) else
    addr <- bmap ip (off / BSIZE);;
    bp <- f_bread (i_dev x) addr;;
    let m := Z.min (n - tot) (BSIZE - off mod BSIZE) in
    c <- zoom fE (either_copyin src m);;
    data <- f_data bp;;
    f_store bp (splice data (Z.to_nat (off mod BSIZE)) c.2);;
    if c.1 =? -1 then
      f_brelse bp;;
      ret (inr (tot, off))
    else
      f_log_write bp;;
      f_brelse bp;;
      ret (inl (u32 (tot + m), u32 (off + m), advance m src))) (0, off, src);;
  let (tot, off) := r : Z * Z in
  x <- ino ip;;
  (if di_size (i_di x) <? off then upd_di ip (set_di_size off) else ret tt);;
  (* write the i-node back to disk even if the size didn't change *)
  iupdate ip;;
  ret (s32 tot).

Definition de_inum (de : list Z) : Z := get16 de 0.
Definition de_name (de : list Z) : list Z := slice de 2 (Z.to_nat DIRSIZ).
Definition sizeof_de : Z := 16.

(** The inode of the entry, and its offset. *)
Definition dirlookup (dp : nat) (name : list Z) : K fss (option (nat * Z)) :=
  x <- ino dp;;
  if negb (di_type (i_di x) =? T_DIR) then panic "dirlookup not DIR" else
  while_ budget (fun off =>
    x <- ino dp;;
    if negb (off <? di_size (i_di x)) then ret (inr None) else
    r <- readi dp None off sizeof_de;;
    if negb (r.1 =? sizeof_de) then panic "dirlookup read" else
    let de := r.2 in
    if de_inum de =? 0 then ret (inl (u32 (off + sizeof_de))) else
    if namecmp name (de_name de) =? 0 then
      (* entry matches path element *)
      ip <- iget (i_dev x) (de_inum de);;
      ret (inr (Some (ip, off)))
    else ret (inl (u32 (off + sizeof_de)))) 0.

Definition dirlink (dp : nat) (name : list Z) (inum : Z) : K fss Z :=
  (* Check that name is not present. *)
  found <- dirlookup dp name;;
  match found with
  | Some (ip, _) => iput ip;; ret (-1)
  | None =>
      (* Look for an empty dirent. *)
      off <- while_ budget (fun off =>
        x <- ino dp;;
        if negb (off <? di_size (i_di x)) then ret (inr off) else
        r <- readi dp None off sizeof_de;;
        if negb (r.1 =? sizeof_de) then panic "dirlink read" else
        if de_inum r.2 =? 0 then ret (inr off) else ret (inl (off + sizeof_de))) 0;;
      let de := le_encode 2 (u16 inum) ++ strncpy_list name (Z.to_nat DIRSIZ) in
      r <- writei dp (inr de) off sizeof_de;;
      if negb (r =? sizeof_de) then panic "dirlink" else ret 0
  end.

(** The inode and, with [nameiparent], the last path element. *)
Definition namex (path : list Z) (nameiparent : bool) (name : list Z) : K fss (option nat * list Z) :=
  ip <- (if chr path =? SLASH then iget ROOTDEV ROOTINO
         else _ <- zoom fH myproc;; cwd <- gets f_cwd;; idup cwd);;
  while_ budget (fun '(ip, path, name) =>
    match skipelem path name with
    | None =>
        if nameiparent : bool then iput ip;; ret (inr (None, name)) else ret (inr (Some ip, name))
    | Some (path, name) =>
        ilock ip;;
        x <- ino ip;;
        if negb (di_type (i_di x) =? T_DIR) then iunlockput ip;; ret (inr (None, name)) else
        if nameiparent && (chr path =? 0) then
          (* Stop one level early. *)
          iunlock ip;;
          ret (inr (Some ip, name))
        else
          next <- dirlookup ip name;;
          match next with
          | None => iunlockput ip;; ret (inr (None, name))
          | Some (next, _) => iunlockput ip;; ret (inl (next, path, name))
          end
    end) (ip, path, name).

Definition namei (path : list Z) : K fss (option nat) :=
  r <- namex path false (replicate (Z.to_nat DIRSIZ) 0);; ret r.1.

Definition nameiparent (path name : list Z) : K fss (option nat * list Z) := namex path true name.
End code.
