(* ===== verification/FsBlock.v ===== *)
(** * kernel/fs.c: blocks of a running transaction, and the free map

    [frep] relates the state of the file system code to the abstract cache; the
    lemmas on [f_bread], [f_store], ... are the laws of [TxnStore] in the state
    of fs.c.  The free bitmap is seen as a predicate on block numbers, [used];
    the theorems say that [balloc] takes the first free block and zeroes it and
    that [bfree] gives a block back. *)
From S2P Require Import Prelude Machine KString Spinlock Kalloc Vm UserMem Block Env Log Txn Fs.
Local Open Scope Z_scope.
Local Open Scope kernel_scope.

(** ** Bits of a block *)
Lemma get8_lookup d o : get8 d o = default 0 (d !! o).
Proof.
  unfold get8, slice. destruct (drop o d) as [|x r] eqn:E.
  - rewrite lookup_ge_None_2; [done|]. assert (length (drop o d) = 0%nat) by by rewrite E. rewrite length_drop in *. lia.
  - replace (d !! o) with (Some x); [simpl; lia|]. symmetry. rewrite <- (Nat.add_0_r o), <- lookup_drop, E. done.
Qed.

Lemma get8_byte d o : block_ok d -> is_byte (get8 d o).
Proof.
  intros [_ Hb]. rewrite get8_lookup. destruct (d !! o) eqn:E; simpl; [|unfold is_byte; lia].
  rewrite Forall_forall in Hb. apply Hb. by eapply list_elem_of_lookup_2.
Qed.

Lemma block_ok_put8 d off v : block_ok d -> (off < bsize)%nat -> block_ok (put8 d off v).
Proof. intros. apply block_ok_splice; [done|rewrite length_le_encode; lia|apply le_encode_bytes]. Qed.

Lemma get8_put8 d off v o : block_ok d -> (off < bsize)%nat -> is_byte v ->
  get8 (put8 d off v) o = if decide (o = off) then v else get8 d o.
Proof.
  intros [Hl _] Ho Hv. rewrite !get8_lookup. unfold put8. rewrite lookup_splice by (rewrite length_le_encode; lia).
  rewrite length_le_encode. case_decide as H1; case_decide as H2; try lia.
  subst. rewrite Nat.sub_diag. simpl. unfold is_byte in Hv. rewrite Z.mod_small by lia. done.
Qed.

(** The bit of block [i] in its bitmap block. *)
Definition bit_of (d : list Z) (i : Z) : bool := Z.testbit (get8 d (Z.to_nat (i / 8))) (i mod 8).
Definition set_bit (d : list Z) (i : Z) : list Z :=
  put8 d (Z.to_nat (i / 8)) (Z.lor (get8 d (Z.to_nat (i / 8))) (Z.shiftl 1 (i mod 8))).
Definition clear_bit (d : list Z) (i : Z) : list Z :=
  put8 d (Z.to_nat (i / 8)) (Z.land (get8 d (Z.to_nat (i / 8))) (Z.lnot (Z.shiftl 1 (i mod 8)))).

Lemma one_bit_spec k j : 0 <= k -> 0 <= j -> Z.testbit (Z.shiftl 1 k) j = (j =? k).
Proof.
  intros Hk Hj. rewrite Z.shiftl_1_l. destruct (Z.eqb_spec j k) as [->|]; [by apply Z.pow2_bits_true|by apply Z.pow2_bits_false].
Qed.

Lemma land_bit x k : 0 <= k -> (Z.land x (Z.shiftl 1 k) =? 0) = negb (Z.testbit x k).
Proof.
  intros Hk. destruct (Z.eqb_spec (Z.land x (Z.shiftl 1 k)) 0) as [E|E].
  - assert (Z.testbit (Z.land x (Z.shiftl 1 k)) k = false) as H by by rewrite E, Z.bits_0.
    rewrite Z.land_spec, one_bit_spec, Z.eqb_refl, andb_true_r in H by done. by rewrite H.
  - destruct (Z.testbit x k) eqn:Hx; [done|]. destruct E. apply Z.bits_inj'. intros j Hj.
    rewrite Z.land_spec, one_bit_spec, Z.bits_0 by done. destruct (Z.eqb_spec j k) as [->|]; [by rewrite Hx|apply andb_false_r].
Qed.

Lemma byte_bits x : 0 <= x -> (forall j, 8 <= j -> Z.testbit x j = false) -> is_byte x.
Proof.
  intros H0 H. unfold is_byte. split; [done|]. destruct (Z.eq_dec x 0); [lia|].
  change 256 with (2 ^ 8). apply Z.log2_lt_pow2; [lia|]. destruct (Z.lt_ge_cases (Z.log2 x) 8); [done|].
  specialize (H (Z.log2 x)). rewrite Z.bit_log2 in H by lia. by discriminate H.
Qed.

Lemma byte_high x j : is_byte x -> 8 <= j -> Z.testbit x j = false.
Proof.
  intros [H0 H] Hj. destruct (Z.eq_dec x 0) as [->|]; [apply Z.bits_0|]. apply Z.bits_above_log2; [done|].
  assert (Z.log2 x < 8) by (apply Z.log2_lt_pow2; lia). lia.
Qed.

Lemma byte_lor_bit x k : is_byte x -> 0 <= k < 8 -> is_byte (Z.lor x (Z.shiftl 1 k)).
Proof.
  intros Hx Hk. apply byte_bits.
  - apply Z.lor_nonneg. split; [apply Hx|]. apply Z.shiftl_nonneg. lia.
  - intros j Hj. rewrite Z.lor_spec, one_bit_spec, (byte_high x) by (done || lia). simpl. lia.
Qed.

Lemma byte_land_mask x m : is_byte x -> is_byte (Z.land x m).
Proof.
  intros Hx. apply byte_bits.
  - apply Z.land_nonneg. left. apply Hx.
  - intros j Hj. by rewrite Z.land_spec, byte_high.
Qed.

Definition bits : Z := 8192.

Section bits.
Context (d : list Z) (i j : Z) (Hd : block_ok d) (Hi : 0 <= i < bits) (Hj : 0 <= j < bits).

Lemma bit_index : (Z.to_nat (i / 8) < bsize)%nat.
Proof. unfold bits, bsize in *. assert (i / 8 < 1024) by (apply Z.div_lt_upper_bound; lia). lia. Qed.

Lemma block_ok_set_bit : block_ok (set_bit d i).
Proof. apply block_ok_put8; [done|apply bit_index]. Qed.
Lemma block_ok_clear_bit : block_ok (clear_bit d i).
Proof. apply block_ok_put8; [done|apply bit_index]. Qed.

(** Bits [i] and [j] are the same bit when their bytes and positions agree. *)
Lemma bit_same : Z.to_nat (j / 8) = Z.to_nat (i / 8) -> j mod 8 = i mod 8 -> j = i.
Proof.
  intros H1 H2. assert (j / 8 = i / 8) by (unfold bits in *; assert (0 <= j / 8) by (apply Z.div_pos; lia);
    assert (0 <= i / 8) by (apply Z.div_pos; lia); lia).
  rewrite (Z.div_mod j 8), (Z.div_mod i 8) by lia. congruence.
Qed.

Lemma bit_of_set : bit_of (set_bit d i) j = if decide (j = i) then true else bit_of d j.
Proof.
  unfold bit_of, set_bit. pose proof (Z.mod_pos_bound i 8). pose proof (Z.mod_pos_bound j 8). rewrite get8_put8; [|done|apply bit_index|].
  2:{ apply byte_lor_bit; [by apply get8_byte|lia]. }
  case_decide as E; [|case_decide; [by subst|done]].
  rewrite Z.lor_spec, one_bit_spec, E by lia. case_decide as Eji.
  - by rewrite Eji, Z.eqb_refl, orb_true_r.
  - destruct (Z.eqb_spec (j mod 8) (i mod 8)); [|apply orb_false_r]. by destruct Eji; apply bit_same.
Qed.

Lemma bit_of_clear : bit_of (clear_bit d i) j = if decide (j = i) then false else bit_of d j.
Proof.
  unfold bit_of, clear_bit. pose proof (Z.mod_pos_bound i 8). pose proof (Z.mod_pos_bound j 8). rewrite get8_put8; [|done|apply bit_index|].
  2:{ by apply byte_land_mask, get8_byte. }
  case_decide as E; [|case_decide; [by subst|done]].
  rewrite Z.land_spec, Z.lnot_spec, one_bit_spec, E by lia. case_decide as Eji.
  - by rewrite Eji, Z.eqb_refl, andb_false_r.
  - destruct (Z.eqb_spec (j mod 8) (i mod 8)); [|apply andb_true_r]. by destruct Eji; apply bit_same.
Qed.
End bits.

(** Clearing the bit just set gives the block back. *)
Lemma clear_set_bit d i : block_ok d -> 0 <= i < bits -> bit_of d i = false -> clear_bit (set_bit d i) i = d.
Proof.
  intros Hd Hi Hf. assert (Z.to_nat (i / 8) < bsize)%nat as Ho by by apply bit_index.
  pose proof (Z.mod_pos_bound i 8). assert (is_byte (get8 d (Z.to_nat (i / 8)))) as Hb by by apply get8_byte.
  assert (block_ok (set_bit d i)) as [Hl _] by by apply block_ok_set_bit.
  assert (get8 (set_bit d i) (Z.to_nat (i / 8)) = Z.lor (get8 d (Z.to_nat (i / 8))) (Z.shiftl 1 (i mod 8))) as Es.
  { unfold set_bit. rewrite get8_put8, decide_True; [done|done|done|done|]. apply byte_lor_bit; [done|lia]. }
  assert (Z.land (Z.lor (get8 d (Z.to_nat (i / 8))) (Z.shiftl 1 (i mod 8))) (Z.lnot (Z.shiftl 1 (i mod 8))) = get8 d (Z.to_nat (i / 8))) as El.
  { apply Z.bits_inj'. intros k Hk. rewrite Z.land_spec, Z.lor_spec, Z.lnot_spec, one_bit_spec by lia.
    destruct (Z.eqb_spec k (i mod 8)) as [->|]; simpl; [|by rewrite orb_false_r, andb_true_r].
    unfold bit_of in Hf. by rewrite Hf. }
  unfold clear_bit. rewrite Es, El. apply list_eq. intros o. unfold put8. rewrite lookup_splice by (rewrite length_le_encode; lia).
  rewrite length_le_encode. case_decide as H1.
  - replace o with (Z.to_nat (i / 8)) by lia. rewrite Nat.sub_diag. simpl. rewrite get8_lookup in *. destruct Hd as [Hdl _].
    destruct (lookup_lt_is_Some_2 d (Z.to_nat (i / 8))) as [x Ex]; [lia|]. rewrite Ex in *. simpl in *. unfold is_byte in Hb. f_equal. apply Z.mod_small. lia.
  - unfold set_bit, put8. rewrite lookup_splice by (rewrite length_le_encode; destruct Hd; lia). rewrite length_le_encode, decide_False by lia. done.
Qed.

(** ** Block updates *)
Section abstract.
Context {B : Type}.
Implicit Types a : acache B.

(** A block changed by the transaction. *)
Definition a_update (n : Z) (d : list Z) a : acache B :=
  AC (<[n := d]> (logical a)) (on_disk a) (writes a) (held a) ({[n]} ∪ pinned a).

Lemma hold_drop n b a : held a !! n = None -> aequiv (a_drop n (a_hold n b a)) a.
Proof. intros Hh. split; try done. simpl. by rewrite delete_insert_id. Qed.

Lemma hold_update n b d a : held a !! n = None ->
  aequiv (a_drop n (a_pin n (a_set n d (a_hold n b a)))) (a_update n d a).
Proof. intros Hh. split; try done. simpl. by rewrite delete_insert_id. Qed.

Lemma f_held_hold n b a : held (a_hold n b a) !! n = Some b.
Proof. apply lookup_insert_eq. Qed.

Lemma size_pin n (X : gset Z) : (size ({[n]} ∪ X) <= S (size X))%nat.
Proof. rewrite size_union_alt, size_singleton. pose proof (subseteq_size (X ∖ {[n]}) X). set_solver by lia. Qed.

Lemma size_hold n b a : (size (held (a_hold n b a)) <= S (size (held a)))%nat.
Proof.
  simpl. destruct (held a !! n) eqn:E; [rewrite map_size_insert_Some by (by eexists); lia|rewrite map_size_insert_None by done; lia].
Qed.
End abstract.
#[export] Hint Resolve f_held_hold : kernel.

Lemma logical_update {B} n d (a : acache B) k : logical (a_update n d a) k = if decide (k = n) then d else logical a k.
Proof. simpl. case_decide; [subst; apply fn_lookup_insert|by apply fn_lookup_insert_ne]. Qed.

Section fs.
Context {T B : Type} {dev logstart nlog : Z} `{TS : !TxnStore T B dev logstart nlog}.
Context (nlog_fits : nlog <= NBUF).
Implicit Types (s : @fss T) (a : acache B).

(** ** The state of the file system code *)
Definition fctx s : ctx := view envC (f_env s).

Definition frep s a : Prop := cx_ok (fctx s) /\ t_rep (ue_pid (f_env s)) (f_t s) a.

(** Steps that leave the process, the superblock and, for [fsame], the inode
    cache alone. *)
Record fstep s s' : Prop := {
  fst_env : exists c, cx_step (fctx s) c /\ f_env s' = over envC c (f_env s);
  fst_sb : f_sb s' = f_sb s;
  fst_cwd : f_cwd s' = f_cwd s
}.
Definition fsame s s' : Prop := fstep s s' /\ f_ic s' = f_ic s.

#[export] Instance fstep_refl : Reflexive fstep.
Proof. intros s. split; try done. exists (fctx s). split; [done|]. unfold fctx. by rewrite over_view. Qed.
#[export] Instance fstep_trans : Transitive fstep.
Proof.
  intros s1 s2 s3 [(c1 & H1 & E1) ? ?] [(c2 & H2 & E2) ? ?]. split; [|congruence|congruence]. exists c2. split.
  - etransitivity; [exact H1|]. unfold fctx in H2. rewrite E1 in H2. by rewrite view_over in H2.
  - by rewrite E2, E1, over_over.
Qed.
#[export] Instance fsame_refl : Reflexive fsame.
Proof. by split. Qed.
#[export] Instance fsame_trans : Transitive fsame.
Proof. intros s1 s2 s3 [] []. split; [by etransitivity|congruence]. Qed.

Lemma fsame_sb s s' : fsame s s' -> f_sb s' = f_sb s.
Proof. by intros [[] _]. Qed.
Lemma fsame_ic s s' : fsame s s' -> f_ic s' = f_ic s.
Proof. by intros []. Qed.

Lemma frep_equiv s a a' : aequiv a a' -> frep s a -> frep s a'.
Proof. intros E [Hc Hr]. split; [done|]. by eapply t_equiv. Qed.

Lemma frep_blocks s a n : frep s a -> block_ok (logical a n).
Proof. intros [_ H]. by eapply t_blocks. Qed.

(** The transaction has space for [k] more blocks. *)
Definition can_log (k : Z) a : Prop := Z.of_nat (size (pinned a)) + k < nlog.

Lemma can_log_pin k n a : can_log k a -> can_log (k - 1) (a_pin n a).
Proof. unfold can_log. simpl. pose proof (size_pin n (pinned a)). lia. Qed.
Lemma can_log_update k n d a : can_log k a -> can_log (k - 1) (a_update n d a).
Proof. unfold can_log. simpl. pose proof (size_pin n (pinned a)). lia. Qed.
Lemma can_log_le k k' a : k' <= k -> can_log k a -> can_log k' a.
Proof. unfold can_log. lia. Qed.

(** An operation of the store run in the state of the file system. *)
Lemma fs_law {A} (m : K (ctx * T) A) s a (Q : A -> acache B) : frep s a ->
  wp (m (fctx s, f_t s)) (fun r '(c', t') => cx_step (fctx s) c' /\ t_rep (cx_pid (fctx s)) t' (Q r)) ->
  wp (zoom fT m s) (fun r s' => fsame s s' /\ frep s' (Q r)).
Proof.
  intros [Hc Hr] H. apply wp_zoom. eapply wp_mono; [|exact H]. intros r [c' t'] [Hst Ht]. cbn [fst snd]. split.
  - split; [|done]. split; try done. by exists c'.
  - split; [by apply (cx_ok_step _ _ Hst)|]. cbn [over fT f_env f_t fst snd envC ue_pid]. by rewrite (cx_same_pid _ _ Hst).
Qed.

Lemma f_bread_ok s a n k : frep s a -> is_u32 n -> held a !! n = None -> can_log k a -> Z.of_nat (size (held a)) <= k ->
  wp (f_bread dev n s) (fun b s' => fsame s s' /\ frep s' (a_hold n b a)).
Proof. intros Hr Hn Hh Hk Hs. apply (fs_law _ _ _ (fun b => a_hold n b a) Hr). destruct Hr. apply t_bread_law; try done. unfold can_log in Hk. lia. Qed.

Lemma f_brelse_ok s a n b : frep s a -> held a !! n = Some b -> n ∈ pinned a \/ logical a n = on_disk a n ->
  wp (f_brelse b s) (fun _ s' => fsame s s' /\ frep s' (a_drop n a)).
Proof. intros Hr Hh Hp. apply (fs_law _ _ _ (fun _ => a_drop n a) Hr). destruct Hr. by apply t_brelse_law. Qed.

Lemma f_log_write_ok s a n b k : frep s a -> held a !! n = Some b -> 0 <= n < 2 ^ 31 -> ~ (logstart <= n < logstart + nlog) ->
  can_log k a -> 1 <= k -> wp (f_log_write b s) (fun _ s' => fsame s s' /\ frep s' (a_pin n a)).
Proof. intros Hr Hh Hn Hl Hk Hk1. apply (fs_law _ _ _ (fun _ => a_pin n a) Hr). destruct Hr. unfold can_log in Hk. apply t_log_write_law; try done. lia. Qed.

Lemma f_data_ok s a n b : frep s a -> held a !! n = Some b -> t_data (f_t s) b = logical a n.
Proof. intros [_ Hr] Hh. by eapply t_data_law. Qed.

Lemma f_store_ok s a n b d : frep s a -> held a !! n = Some b -> block_ok d ->
  wp (f_store b d s) (fun _ s' => fsame s s' /\ frep s' (a_set n d a)).
Proof.
  intros [Hc Hr] Hh Hd. unfold f_store. kstep. split; [split; [|done]; split; try done; exists (fctx s); split; [done|]; cbn [f_env];
    unfold fctx; by rewrite over_view|]. split; [done|]. by apply t_set_data_law.
Qed.

(** Reading a block and giving its buffer back. *)
Lemma release_clean s a n b : frep s (a_hold n b a) -> held a !! n = None -> (n ∈ pinned a \/ logical a n = on_disk a n) ->
  wp (f_brelse b s) (fun _ s' => fsame s s' /\ frep s' a).
Proof.
  intros Hr Hh Hp. eapply wp_mono; [|apply (f_brelse_ok s _ n b Hr); [apply f_held_hold|done]].
  intros _ s' [H1 H2]. split; [done|]. eapply frep_equiv; [|exact H2]. by apply hold_drop.
Qed.

Lemma frep_clean s a n : frep s a -> held a !! n = None -> n ∈ pinned a \/ logical a n = on_disk a n.
Proof. intros [_ Hr] Hh. destruct (decide (n ∈ pinned a)); [by left|right]. by eapply t_clean. Qed.

(** The end of an update: the new contents of a locked buffer are logged. *)
Lemma write_back s a n b d k : frep s (a_hold n b a) -> held a !! n = None -> block_ok d -> 0 <= n < 2 ^ 31 ->
  ~ (logstart <= n < logstart + nlog) -> can_log k a -> 1 <= k ->
  wp ((f_store b d;; f_log_write b;; f_brelse b) s) (fun _ s' => fsame s s' /\ frep s' (a_update n d a)).
Proof.
  intros Hr Hh Hd Hn Hl Hk Hk1. kstep. eapply wp_mono; [|eapply (f_store_ok s _ n); [exact Hr|apply f_held_hold|done]].
  intros _ s1 [S1 R1]. kstep. eapply wp_mono; [|eapply (f_log_write_ok s1 _ n b k); [exact R1|apply f_held_hold|done|done|done|done]].
  intros _ s2 [S2 R2]. eapply wp_mono; [|eapply (f_brelse_ok s2 _ n b); [exact R2|apply f_held_hold|left; set_solver]].
  intros _ s3 [S3 R3]. split; [by do 2 (etransitivity; [eassumption|])|].
  eapply frep_equiv; [|exact R3]. by apply hold_update.
Qed.

(** ** The layout of the disk (mkfs.c): log, inodes, bitmap, data *)
Definition data_start (v : superblock) : Z := sb_size v - sb_nblocks v.

Record layout (v : superblock) : Prop := {
  ly_log : 0 <= logstart;
  ly_inode : logstart + nlog <= sb_inodestart v;
  ly_bmap : sb_inodestart v + sb_ninodes v / IPB + 1 <= sb_bmapstart v;
  ly_data : sb_bmapstart v + sb_size v / BPB + 1 <= data_start v;
  ly_size : 0 <= data_start v <= sb_size v /\ sb_size v < 2 ^ 31;
  ly_ninodes : 0 <= sb_ninodes v
}.

Definition used (v : superblock) (L : Z -> list Z) (b : Z) : bool := bit_of (L (BBLOCK b v)) (b mod BPB).

(** The blocks before the data are never free. *)
Definition meta_used (v : superblock) (L : Z -> list Z) : Prop := forall b, 0 <= b < data_start v -> used v L b = true.

Definition data_block (v : superblock) (b : Z) : Prop := data_start v <= b < sb_size v.

Section layout.
Context (v : superblock) (Hv : layout v) (nlog_pos : 0 < nlog).

Lemma BBLOCK_eq b : 0 <= b < sb_size v -> BBLOCK b v = b / BPB + sb_bmapstart v /\ 0 <= b / BPB <= sb_size v / BPB.
Proof.
  destruct Hv as [H1 H2 H3 H4 H5 H6]. intros Hb.
  assert (0 <= b / BPB) by (apply Z.div_pos; unfold BPB, BSIZE; lia).
  assert (b / BPB <= sb_size v / BPB) by (apply Z.div_le_mono; unfold BPB, BSIZE; lia).
  assert (0 <= sb_ninodes v / IPB) by (apply Z.div_pos; [lia|done]).
  split; [|done]. unfold BBLOCK. rewrite u32_id; [done|]. lia.
Qed.

Lemma BBLOCK_range b : 0 <= b < sb_size v ->
  0 <= BBLOCK b v < data_start v /\ ~ (logstart <= BBLOCK b v < logstart + nlog) /\ BBLOCK b v < 2 ^ 31.
Proof.
  intros Hb. destruct (BBLOCK_eq b Hb) as [-> Hd]. destruct Hv as [H1 H2 H3 H4 H5 H6].
  assert (0 <= sb_ninodes v / IPB) by (apply Z.div_pos; [lia|done]). lia.
Qed.

Lemma data_block_range b : data_block v b -> 0 <= b < 2 ^ 31 /\ ~ (logstart <= b < logstart + nlog) /\ is_u32 b.
Proof.
  intros Hb. unfold data_block in Hb. destruct Hv as [H1 H2 H3 H4 H5 H6]. unfold is_u32.
  assert (0 <= sb_ninodes v / IPB) by (apply Z.div_pos; [lia|done]).
  assert (0 <= sb_size v / BPB) by (apply Z.div_pos; [lia|done]). lia.
Qed.

Lemma data_not_bitmap b c : data_block v b -> 0 <= c < sb_size v -> b <> BBLOCK c v.
Proof. intros Hb Hc. pose proof (BBLOCK_range c Hc). unfold data_block in Hb. lia. Qed.

Lemma bit_range b : 0 <= b mod BPB < bits.
Proof. apply Z.mod_pos_bound. done. Qed.

(** The bitmap after the bit of block [n] is changed. *)
Lemma used_upd L n b d x : 0 <= n < sb_size v -> 0 <= b < sb_size v ->
  (forall j, 0 <= j < bits -> bit_of d j = if decide (j = n mod BPB) then x else bit_of (L (BBLOCK n v)) j) ->
  used v (<[BBLOCK n v := d]> L) b = if decide (b = n) then x else used v L b.
Proof.
  intros Hn Hb Hd. unfold used. destruct (BBLOCK_eq n Hn) as [En Rn], (BBLOCK_eq b Hb) as [Eb Rb].
  destruct (decide (b / BPB = n / BPB)) as [E|E].
  - replace (BBLOCK b v) with (BBLOCK n v) by lia. rewrite fn_lookup_insert, Hd by apply bit_range.
    case_decide as H1; case_decide as H2; try done; [|by subst]. destruct H2.
    rewrite (Z.div_mod b BPB), (Z.div_mod n BPB) by done. congruence.
  - rewrite fn_lookup_insert_ne by lia. case_decide; [by subst|done].
Qed.

Lemma used_set L n b : 0 <= n < sb_size v -> 0 <= b < sb_size v -> block_ok (L (BBLOCK n v)) ->
  used v (<[BBLOCK n v := set_bit (L (BBLOCK n v)) (n mod BPB)]> L) b = if decide (b = n) then true else used v L b.
Proof. intros Hn Hb Hok. apply used_upd; [done|done|]. intros j Hj. apply bit_of_set; [done|apply bit_range|done]. Qed.

Lemma used_clear L n b : 0 <= n < sb_size v -> 0 <= b < sb_size v -> block_ok (L (BBLOCK n v)) ->
  used v (<[BBLOCK n v := clear_bit (L (BBLOCK n v)) (n mod BPB)]> L) b = if decide (b = n) then false else used v L b.
Proof. intros Hn Hb Hok. apply used_upd; [done|done|]. intros j Hj. apply bit_of_clear; [done|apply bit_range|done]. Qed.

(** The bitmap does not depend on the other blocks. *)
Lemma used_other L n d b : data_block v n -> 0 <= b < sb_size v -> used v (<[n := d]> L) b = used v L b.
Proof. intros Hn Hb. unfold used. rewrite fn_lookup_insert_ne; [done|]. by apply data_not_bitmap. Qed.
End layout.

(** ** bzero, bfree and balloc *)
Section bitmap.
Context (v : superblock) (Hv : layout v) (nlog_pos : 0 < nlog).

(** The buffers the caller holds are data blocks in use. *)
Definition holds_data a : Prop := forall n b, held a !! n = Some b -> data_block v n /\ used v (logical a) n = true.

Lemma bitmap_not_held a b : holds_data a -> 0 <= b < sb_size v -> held a !! BBLOCK b v = None.
Proof.
  intros Hh Hb. destruct (held a !! BBLOCK b v) eqn:E; [|done]. apply Hh in E as [E _].
  exfalso. by apply (data_not_bitmap v Hv nlog_pos _ b E).
Qed.

Lemma bzero_ok s a n k : frep s a -> data_block v n -> held a !! n = None -> can_log k a -> 1 <= k -> Z.of_nat (size (held a)) <= k ->
  wp (bzero dev n s) (fun _ s' => fsame s s' /\ frep s' (a_update n zero_block a)).
Proof.
  intros Hr Hn Hh Hk Hk1 Hs. destruct (data_block_range v Hv nlog_pos n Hn) as (R1 & R2 & R3).
  unfold bzero. rewrite u32_id by exact R3. kstep. eapply wp_mono; [|by apply (f_bread_ok s a n k)].
  intros b s1 [S1 H1]. eapply wp_mono; [|apply (write_back s1 a n b zero_block k); try done; apply zero_block_ok].
  intros _ s2 [S2 H2]. split; [by etransitivity|done].
Qed.

Lemma bfree_ok s a n k : f_sb s = v -> frep s a -> holds_data a -> 0 <= n < sb_size v -> used v (logical a) n = true ->
  can_log k a -> 1 <= k -> Z.of_nat (size (held a)) <= k ->
  wp (bfree dev n s) (fun _ s' => fsame s s' /\
    frep s' (a_update (BBLOCK n v) (clear_bit (logical a (BBLOCK n v)) (n mod BPB)) a)).
Proof.
  intros Esb Hr Hhd Hn Hu Hk Hk1 Hs. destruct (BBLOCK_range v Hv nlog_pos n Hn) as (R1 & R2 & R3).
  assert (held a !! BBLOCK n v = None) as Hh by by apply bitmap_not_held.
  unfold bfree, sb. ksteps. rewrite Esb. eapply wp_mono; [|apply (f_bread_ok s a _ k); try done; unfold is_u32; lia].
  intros b s1 [S1 H1]. unfold f_data. ksteps. rewrite (f_data_ok _ _ _ _ H1 (f_held_hold _ _ _)). cbn [logical a_hold].
  pose proof (Z.mod_pos_bound (n mod BPB) 8). rewrite land_bit by lia. unfold used, bit_of in Hu. rewrite Hu. cbn [negb].
  eapply wp_mono; [|apply (write_back s1 a (BBLOCK n v) b (clear_bit (logical a (BBLOCK n v)) (n mod BPB)) k); try done; [|lia]].
  - intros _ s2 [S2 H2]. split; [by etransitivity|exact H2].
  - apply block_ok_clear_bit; [by eapply frep_blocks|apply bit_range].
Qed.

(** The bitmap block of [n] with [n] marked, and [n] zeroed. *)
Definition a_alloc (n : Z) a : acache B :=
  a_update n zero_block (a_update (BBLOCK n v) (set_bit (logical a (BBLOCK n v)) (n mod BPB)) a).

(** [n] is the first free block. *)
Definition first_free (L : Z -> list Z) (n : Z) : Prop :=
  0 <= n < sb_size v /\ used v L n = false /\ forall b, 0 <= b < n -> used v L b = true.

Lemma first_free_data L n : meta_used v L -> first_free L n -> data_block v n.
Proof.
  intros Hm (Hn & Hf & _). unfold data_block. split; [|lia].
  destruct (Z.lt_ge_cases n (data_start v)); [|done]. rewrite Hm in Hf by lia. done.
Qed.

Lemma balloc_div b k : b mod BPB = 0 -> 0 <= k < bits -> (b + k) / BPB = b / BPB /\ (b + k) mod BPB = k.
Proof.
  intros Hb Hk. pose proof (Z.div_mod b BPB ltac:(done)) as E. rewrite Hb in E. change bits with BPB in Hk. split; symmetry.
  - apply (Z.div_unique _ _ _ k); [by left|lia].
  - apply (Z.mod_unique _ _ (b / BPB)); [by left|lia].
Qed.

(** One bit of the scan: block [b + k]. *)
Lemma balloc_bit s a b k q bp : f_sb s = v -> frep s (a_hold (BBLOCK b v) bp a) -> holds_data a -> meta_used v (logical a) ->
  b mod BPB = 0 -> 0 <= b < sb_size v -> 0 <= k < bits -> can_log q a -> 2 <= q -> Z.of_nat (size (held a)) < q ->
  b + k < sb_size v -> (forall c, 0 <= c < b + k -> used v (logical a) c = true) -> used v (logical a) (b + k) = false ->
  let data := logical a (BBLOCK b v) in
  wp ((f_store bp (put8 data (Z.to_nat (k / 8)) (Z.lor (get8 data (Z.to_nat (k / 8))) (Z.shiftl 1 (k mod 8))));;
       f_log_write bp;; f_brelse bp;; bzero dev (b + k);; ret (Some (Some (b + k)))) s)
     (fun r s' => r = Some (Some (b + k)) /\ fsame s s' /\ frep s' (a_alloc (b + k) a) /\ first_free (logical a) (b + k)).
Proof.
  intros Esb Hr Hhd Hm Hmod Hb Hk Hq Hq2 Hs Hlt Hbelow Hfree data. destruct (balloc_div b k Hmod Hk) as [E1 E2].
  assert (first_free (logical a) (b + k)) as Hff by (split_and!; [lia|lia|done|done]).
  pose proof (first_free_data _ _ Hm Hff) as Hdb. destruct (BBLOCK_range v Hv nlog_pos b Hb) as (R1 & R2 & R3).
  assert (held a !! BBLOCK b v = None) as Hh by by apply bitmap_not_held.
  assert (BBLOCK (b + k) v = BBLOCK b v) as EB by (unfold BBLOCK; by rewrite E1).
  set (d := put8 _ _ _). set (a1 := a_update (BBLOCK b v) d a).
  apply wp_three. eapply wp_mono; [|apply (write_back s a (BBLOCK b v) bp d q); try done; [|lia|lia]].
  2:{ apply block_ok_set_bit; [exact (frep_blocks s _ _ Hr)|done]. }
  intros [] s3 [S3 H3]. kstep.
  eapply wp_mono; [|apply (bzero_ok s3 a1 (b + k) (q - 1)); try done].
  - intros _ s4 [S4 H4]. kstep. split; [done|]. split; [by etransitivity|]. split; [|done]. unfold a_alloc. by rewrite EB, E2.
  - cbn [held a1 a_update]. destruct (held a !! (b + k)) eqn:E; [|done]. apply Hhd in E as [_ E]. congruence.
  - by apply can_log_update.
  - lia.
  - cbn [held a1 a_update]. lia.
Qed.

(** The scan of one bitmap block. *)
Definition scan_post s a b (r : option (option Z)) s' bp : Prop :=
  match r with
  | Some (Some n) => fsame s s' /\ frep s' (a_alloc n a) /\ first_free (logical a) n
  | _ => fsame s s' /\ frep s' (a_hold (BBLOCK b v) bp a) /\
         forall c, 0 <= c < Z.min (b + bits) (sb_size v) -> used v (logical a) c = true
  end.

Lemma balloc_scan s a b q bp : f_sb s = v -> frep s (a_hold (BBLOCK b v) bp a) -> holds_data a -> meta_used v (logical a) ->
  b mod BPB = 0 -> 0 <= b < sb_size v -> can_log q a -> 2 <= q -> Z.of_nat (size (held a)) < q ->
  (forall c, 0 <= c < b -> used v (logical a) c = true) ->
  wp (for_each (seqZ 0 BPB) (fun bi =>
      if negb (b + bi <? sb_size v) then ret (Some None) else
      let m := Z.shiftl 1 (bi mod 8) in
      data <- f_data bp;;
      let x := get8 data (Z.to_nat (bi / 8)) in
      if Z.land x m =? 0 then
        f_store bp (put8 data (Z.to_nat (bi / 8)) (Z.lor x m));;
        f_log_write bp;;
        f_brelse bp;;
        bzero dev (b + bi);;
        ret (Some (Some (b + bi)))
      else ret None) s) (fun r s' => scan_post s a b r s' bp).
Proof.
  intros Esb Hr Hhd Hm Hmod Hb Hq Hq2 Hs Hbelow.
  apply (wp_for_range _ _ (fun k s' => s' = s /\ forall c, 0 <= c < Z.min (b + Z.of_nat k) (sb_size v) -> used v (logical a) c = true)).
  - intros k s' Hk [-> HI]. destruct (Z.ltb_spec (b + Z.of_nat k) (sb_size v)) as [Hlt|Hge]; cbn [negb].
    2:{ kstep. split; [done|]. split; [done|]. intros c Hc. apply HI. lia. }
    assert (0 <= Z.of_nat k < bits) as Hkb by (change bits with BPB; lia). destruct (balloc_div b (Z.of_nat k) Hmod Hkb) as [E1 E2].
    unfold f_data. kstep. kstep. rewrite (f_data_ok _ _ _ _ Hr (f_held_hold _ _ _)). cbn [logical a_hold].
    pose proof (Z.mod_pos_bound (Z.of_nat k) 8 ltac:(done)). rewrite land_bit by lia.
    assert (used v (logical a) (b + Z.of_nat k) = Z.testbit (get8 (logical a (BBLOCK b v)) (Z.to_nat (Z.of_nat k / 8))) (Z.of_nat k mod 8)) as Eu.
    { unfold used, BBLOCK. by rewrite E1, E2. }
    destruct (Z.testbit _ _); cbn [negb].
    + kstep. split; [done|]. intros c Hc. destruct (decide (c = b + Z.of_nat k)) as [->|]; [done|]. apply HI. lia.
    + eapply wp_mono; [|apply (balloc_bit s a b (Z.of_nat k) q bp); try done; [intros c Hc; apply HI; lia]].
      intros r s1 (-> & H1 & H2 & H3). done.
  - intros s' [-> HI]. split; [done|]. split; [done|]. intros c Hc. apply HI. change (Z.of_nat (Z.to_nat BPB)) with bits. done.
  - split; [done|]. intros c Hc. apply Hbelow. lia.
Qed.

Lemma balloc_ok s a q : f_sb s = v -> frep s a -> holds_data a -> meta_used v (logical a) ->
  can_log q a -> 2 <= q -> Z.of_nat (size (held a)) < q -> (exists b, 0 <= b < sb_size v /\ used v (logical a) b = false) ->
  wp (balloc dev s) (fun n s' => fsame s s' /\ frep s' (a_alloc n a) /\ first_free (logical a) n).
Proof.
  intros Esb Hr Hhd Hm Hq Hq2 Hs (b0 & Hb0 & Hf0). unfold balloc.
  apply (wp_while _ (fun b s' => fsame s s' /\ frep s' a /\ b mod BPB = 0 /\ 0 <= b < sb_size v + BPB /\
    forall c, 0 <= c < Z.min b (sb_size v) -> used v (logical a) c = true) (fun b => sb_size v + BPB - b)).
  - intros b s1 (S1 & R1 & Hmod & Hb & HI). unfold sb. kstep. kstep. rewrite (fsame_sb _ _ S1), Esb.
    destruct (Z.ltb_spec b (sb_size v)) as [Hlt|Hge]; cbn [negb].
    2:{ rewrite HI in Hf0 by lia. done. }
    destruct (BBLOCK_range v Hv nlog_pos b) as (B1 & B2 & B3); [lia|].
    assert (held a !! BBLOCK b v = None) as Hh by (apply bitmap_not_held; [done|lia]).
    kstep. eapply wp_mono; [|apply (f_bread_ok s1 a (BBLOCK b v) q); try done; [unfold is_u32; lia|lia]].
    intros bp s2 [S2 R2]. kstep. eapply wp_mono; [|apply (balloc_scan s2 a b q bp); try done].
    + intros r s3 H3. assert (forall n, scan_post s2 a b (Some (Some n)) s3 bp -> fsame s s3 /\ frep s3 (a_alloc n a) /\ first_free (logical a) n) as Hfound.
      { intros n (S3 & R3 & F3). split; [|done]. by do 2 (etransitivity; [eassumption|]). }
      assert (scan_post s2 a b None s3 bp -> wp ((f_brelse bp;; ret (inl (b + BPB))) s3) (fun r s' => match r with
        | inl x' => (fsame s s' /\ frep s' a /\ x' mod BPB = 0 /\ 0 <= x' < sb_size v + BPB /\
                     forall c, 0 <= c < Z.min x' (sb_size v) -> used v (logical a) c = true) /\ sb_size v + BPB - x' < sb_size v + BPB - b
        | inr n => fsame s s' /\ frep s' (a_alloc n a) /\ first_free (logical a) n end)) as Hnext.
      { intros (S3 & R3 & F3). kstep. eapply wp_mono; [|apply (release_clean s3 a _ bp R3 Hh); by eapply frep_clean].
        intros _ s4 [S4 R4]. kstep. split; [|unfold BPB, BSIZE; lia]. split; [by do 3 (etransitivity; [eassumption|])|].
        split; [done|]. split; [by rewrite <- Z.add_mod_idemp_r, Z.mod_same, Z.add_0_r by done|]. split; [unfold BPB, BSIZE in *; lia|exact F3]. }
      destruct r as [[n|]|]; [by apply Hfound|by apply Hnext|by apply Hnext].
    + by rewrite (fsame_sb _ _ S2), (fsame_sb _ _ S1).
    + lia.
    + intros c Hc. apply HI. lia.
  - intros b s1 (_ & _ & _ & Hb & _). lia.
  - split; [done|]. split; [done|]. split; [done|]. split; [unfold BPB, BSIZE; lia|]. intros c Hc. lia.
  - destruct Hv. unfold budget, BPB, BSIZE. lia.
Qed.
End bitmap.
End fs.
