(* ===== verification/FsFile.v ===== *)
(** * kernel/fs.c: the blocks of a file

    [fblk] is the contents of the blocks of a file, holes reading as zeros.  The
    theorems say that [bmap] never changes it, whether or not it has to allocate
    ([bmap_ok]), that [readi] returns its bytes and that [writei] replaces
    exactly the bytes written; the blocks of every other file keep their
    contents. *)
From S2P Require Import Prelude Machine KString Spinlock Kalloc Vm UserMem Block Env Log Txn Fs FsBlock.
Local Open Scope Z_scope.
Local Open Scope kernel_scope.

(** ** Blocks of a file *)
Definition addr_at (x : dinode) (k : Z) : Z := default 0 (di_addrs x !! Z.to_nat k).

(** The block number of block [bn] of the file, 0 for a hole. *)
Definition baddr (L : Z -> list Z) (x : dinode) (bn : Z) : Z :=
  if bn <? NDIRECT then addr_at x bn
  else if addr_at x NDIRECT =? 0 then 0
  else get32 (L (addr_at x NDIRECT)) (Z.to_nat (4 * (bn - NDIRECT))).

Definition fblk (L : Z -> list Z) (x : dinode) (bn : Z) : list Z :=
  if baddr L x bn =? 0 then zero_block else L (baddr L x bn).

(** The block numbers of a file are data blocks in use, all different. *)
Record file_wf (v : superblock) (L : Z -> list Z) (x : dinode) : Prop := {
  fw_addrs : length (di_addrs x) = 13%nat;
  fw_data bn : 0 <= bn < MAXFILE -> baddr L x bn <> 0 -> data_block v (baddr L x bn) /\ used v L (baddr L x bn) = true;
  fw_ind : addr_at x NDIRECT <> 0 -> data_block v (addr_at x NDIRECT) /\ used v L (addr_at x NDIRECT) = true;
  fw_inj i j : 0 <= i < MAXFILE -> 0 <= j < MAXFILE -> baddr L x i <> 0 -> baddr L x i = baddr L x j -> i = j;
  fw_sep i : 0 <= i < MAXFILE -> baddr L x i <> 0 -> baddr L x i <> addr_at x NDIRECT
}.

Definition with_addrs (l : list Z) (x : dinode) : dinode :=
  mkDi (di_type x) (di_major x) (di_minor x) (di_nlink x) (di_size x) l.

Lemma addr_at_set k n x j : length (di_addrs x) = 13%nat -> 0 <= k < 13 -> 0 <= j ->
  addr_at (set_di_addr (Z.to_nat k) n x) j = if decide (j = k) then n else addr_at x j.
Proof.
  intros Hl Hk Hj. unfold addr_at. simpl. case_decide as E.
  - subst. rewrite list_lookup_insert_eq by lia. done.
  - rewrite list_lookup_insert_ne by lia. done.
Qed.

(** The number of free blocks. *)
Definition nfree (v : superblock) (L : Z -> list Z) : nat :=
  length (filter (fun b => used v L b = false) (seqZ 0 (sb_size v))).

Lemma filter_ext_in {A} (P Q : A -> Prop) `{!forall x, Decision (P x), !forall x, Decision (Q x)} (l : list A) :
  (forall x, x ∈ l -> Q x <-> P x) -> filter P l = filter Q l.
Proof.
  induction l as [|x l IH]; intros Hl; [done|]. rewrite !filter_cons, IH by (intros y Hy; apply Hl; by right).
  assert (Q x <-> P x) as Hx by (apply Hl; by left). destruct (decide (P x)), (decide (Q x)); tauto.
Qed.

Lemma filter_one_less {A} `{EqDecision A} (P Q : A -> Prop) `{!forall x, Decision (P x), !forall x, Decision (Q x)} (l : list A) n :
  NoDup l -> n ∈ l -> P n -> (forall x, x ∈ l -> Q x <-> P x /\ x <> n) -> length (filter P l) = S (length (filter Q l)).
Proof.
  intros Hnd Hn HP HQ. induction Hnd as [|x l Hx Hnd IH]; [by apply elem_of_nil in Hn|].
  assert (forall y, y ∈ l -> Q y <-> P y /\ y <> n) as HQ' by (intros y Hy; apply HQ; by right).
  rewrite !filter_cons. apply elem_of_cons in Hn as [->|Hn].
  - rewrite decide_True by done. rewrite decide_False by (rewrite HQ by (by left); naive_solver). simpl. do 2 f_equal.
    apply filter_ext_in. intros y Hy. rewrite HQ' by done. split; [tauto|]. intros HPy. split; [done|]. by intros ->.
  - destruct (decide (P x)) as [HPx|HPx], (decide (Q x)) as [HQx|HQx]; simpl; rewrite ?IH by done; try done.
    + destruct HQx. apply HQ; [by left|]. split; [done|]. by intros ->.
    + destruct HPx. by apply HQ in HQx as [? _]; [|by left].
Qed.

Definition bitmap_block (v : superblock) (n : Z) : Prop := sb_bmapstart v <= n <= sb_bmapstart v + sb_size v / BPB.

(** ** Growing a file

    What allocating blocks for a file does to the disk and to its inode: the
    contents of the file do not change, holes are filled with zeroed blocks that
    were free, and the blocks of the rest of the disk keep their contents.  [k]
    bounds the blocks added to the transaction, [c] the blocks taken. *)
Section grow.
Context {B : Type} {logstart nlog : Z} (v : superblock).
Context (Hv : layout (logstart := logstart) (nlog := nlog) v) (nlog_pos : 0 < nlog).
Implicit Types (a : acache B) (x : dinode).

Lemma data_range b : data_block v b -> 0 <= b < sb_size v.
Proof. unfold data_block. destruct Hv. lia. Qed.

Record grows (k c : nat) a x a' x' : Prop := {
  gr_wf : file_wf v (logical a') x';
  gr_blk i : 0 <= i < MAXFILE -> fblk (logical a') x' i = fblk (logical a) x i;
  gr_addr i : 0 <= i < MAXFILE -> baddr (logical a) x i <> 0 -> baddr (logical a') x' i = baddr (logical a) x i;
  gr_new i : 0 <= i < MAXFILE -> baddr (logical a) x i = 0 ->
    baddr (logical a') x' i = 0 \/ used v (logical a) (baddr (logical a') x' i) = false;
  gr_ind : addr_at x' NDIRECT = addr_at x NDIRECT \/ addr_at x NDIRECT = 0 /\ used v (logical a) (addr_at x' NDIRECT) = false;
  gr_frame n : 0 <= n < sb_size v -> used v (logical a) n = true -> ~ bitmap_block v n -> n <> addr_at x NDIRECT ->
    logical a' n = logical a n;
  gr_used n : 0 <= n < sb_size v -> used v (logical a) n = true -> used v (logical a') n = true;
  gr_meta : x' = with_addrs (di_addrs x') x;
  gr_held : held a' = held a;
  gr_disk n : on_disk a' n = on_disk a n;
  gr_pinned : pinned a ⊆ pinned a' /\ (size (pinned a') <= size (pinned a) + k)%nat;
  gr_free : (nfree v (logical a) <= nfree v (logical a') + c)%nat
}.

Lemma with_addrs_id x : with_addrs (di_addrs x) x = x.
Proof. by destruct x. Qed.

Lemma grows_refl a x : file_wf v (logical a) x -> grows 0 0 a x a x.
Proof. intros H. split; try done; [by left|by left|by rewrite with_addrs_id|split; [done|lia]|lia]. Qed.

Lemma grows_trans k1 c1 k2 c2 a1 x1 a2 x2 a3 x3 :
  file_wf v (logical a1) x1 -> grows k1 c1 a1 x1 a2 x2 -> grows k2 c2 a2 x2 a3 x3 -> grows (k1 + k2) (c1 + c2) a1 x1 a3 x3.
Proof.
  intros W G1 G2.
  assert (forall n, 0 <= n < sb_size v -> used v (logical a2) n = false -> used v (logical a1) n = false) as Hback.
  { intros n Hn Hu. destruct (used v (logical a1) n) eqn:Eu; [|done]. by rewrite (gr_used _ _ _ _ _ _ G1) in Hu. }
  split.
  - apply G2.
  - intros i Hi. by rewrite (gr_blk _ _ _ _ _ _ G2), (gr_blk _ _ _ _ _ _ G1).
  - intros i Hi Hn. pose proof (gr_addr _ _ _ _ _ _ G1 i Hi Hn) as E. rewrite <- E. apply (gr_addr _ _ _ _ _ _ G2); [done|congruence].
  - intros i Hi Hz. destruct (decide (baddr (logical a2) x2 i = 0)) as [E2|E2].
    + destruct (decide (baddr (logical a3) x3 i = 0)) as [E3|E3]; [by left|]. right. apply Hback.
      * apply data_range, (fw_data _ _ _ (gr_wf _ _ _ _ _ _ G2)); done.
      * by destruct (gr_new _ _ _ _ _ _ G2 i Hi E2).
    + rewrite (gr_addr _ _ _ _ _ _ G2) by done. by destruct (gr_new _ _ _ _ _ _ G1 i Hi Hz); [|right].
  - destruct (decide (addr_at x3 NDIRECT = addr_at x1 NDIRECT)) as [E|E]; [by left|]. right.
    destruct (gr_ind _ _ _ _ _ _ G2) as [E2|[E2 U2]], (gr_ind _ _ _ _ _ _ G1) as [E1|[E1 U1]]; try congruence.
    + split; [done|congruence].
    + split; [congruence|]. apply Hback; [|done]. destruct (fw_ind _ _ _ (gr_wf _ _ _ _ _ _ G2)) as [D _]; [congruence|].
      unfold data_block in D. destruct Hv. lia.
    + split; [done|]. apply Hback; [|done]. destruct (fw_ind _ _ _ (gr_wf _ _ _ _ _ _ G2)) as [D _]; [congruence|].
      unfold data_block in D. destruct Hv. lia.
  - intros n Hn Hu Hb Hi. rewrite (gr_frame _ _ _ _ _ _ G2); [by apply (gr_frame _ _ _ _ _ _ G1)|done|by apply (gr_used _ _ _ _ _ _ G1)|done|].
    destruct (gr_ind _ _ _ _ _ _ G1) as [E|[_ E]]; [congruence|]. intros ->. congruence.
  - intros n Hn Hu. by apply (gr_used _ _ _ _ _ _ G2), (gr_used _ _ _ _ _ _ G1).
  - rewrite (gr_meta _ _ _ _ _ _ G2), (gr_meta _ _ _ _ _ _ G1). done.
  - rewrite (gr_held _ _ _ _ _ _ G2). apply G1.
  - intros n. rewrite (gr_disk _ _ _ _ _ _ G2). apply G1.
  - destruct (gr_pinned _ _ _ _ _ _ G1), (gr_pinned _ _ _ _ _ _ G2). split; [by etransitivity|lia].
  - pose proof (gr_free _ _ _ _ _ _ G1). pose proof (gr_free _ _ _ _ _ _ G2). lia.
Qed.

Lemma grows_le k c k' c' a x a' x' : (k <= k')%nat -> (c <= c')%nat -> grows k c a x a' x' -> grows k' c' a x a' x'.
Proof. intros Hk Hc [G1 G2 G3 G3' G4 G5 G6 G7 G8 G9 [G10 G11] G12]. split; try done; [split; [done|lia]|lia]. Qed.

(** ** The blocks [balloc] takes *)
Lemma logical_alloc n a k : logical (a_alloc v n a) k =
  if decide (k = n) then zero_block else
  if decide (k = BBLOCK n v) then set_bit (logical a (BBLOCK n v)) (n mod BPB) else logical a k.
Proof. unfold a_alloc. by rewrite !logical_update. Qed.

Lemma data_not_bitmap_block k : data_block v k -> ~ bitmap_block v k.
Proof. unfold data_block, bitmap_block. destruct Hv. lia. Qed.

Lemma alloc_pinned a n : pinned a ⊆ pinned (a_alloc v n a) /\ (size (pinned (a_alloc v n a)) <= size (pinned a) + 2)%nat.
Proof.
  split; [simpl; set_solver|]. simpl. pose proof (size_pin n ({[BBLOCK n v]} ∪ pinned a)). pose proof (size_pin (BBLOCK n v) (pinned a)). lia.
Qed.

Section alloc.
Context a n (Hn : data_block v n) (Hfree : used v (logical a) n = false) (Hblk : forall m, block_ok (logical a m)).

Lemma alloc_range : 0 <= n < sb_size v /\ n <> 0.
Proof.
  unfold data_block in Hn. destruct Hv as [H1 H2 H3 H4 [H5 H6] H7]. assert (0 <= sb_ninodes v / IPB) by (apply Z.div_pos; [lia|done]).
  assert (0 <= sb_size v / BPB) by (apply Z.div_pos; [lia|done]). lia.
Qed.

Lemma used_alloc b : 0 <= b < sb_size v -> used v (logical (a_alloc v n a)) b = if decide (b = n) then true else used v (logical a) b.
Proof.
  intros Hb. destruct alloc_range as [Rn _]. rewrite <- (used_set v Hv nlog_pos (logical a) n b Rn Hb (Hblk _)).
  unfold a_alloc. exact (used_other v Hv nlog_pos _ n zero_block b Hn Hb).
Qed.

Lemma alloc_frame k : 0 <= k < sb_size v -> used v (logical a) k = true -> ~ bitmap_block v k -> logical (a_alloc v n a) k = logical a k.
Proof.
  intros Hk Hu Hb. destruct alloc_range as [Rn _]. rewrite logical_alloc. case_decide as E1; [congruence|]. case_decide as E2; [|done].
  destruct Hb. destruct (BBLOCK_eq v Hv nlog_pos n Rn) as [E' ?]. unfold bitmap_block. lia.
Qed.

Lemma nfree_alloc : nfree v (logical a) = S (nfree v (logical (a_alloc v n a))).
Proof.
  destruct alloc_range as [Rn _]. apply (filter_one_less _ _ _ n); [apply NoDup_seqZ|apply elem_of_seqZ; lia|done|].
  intros b Hb. apply elem_of_seqZ in Hb. rewrite used_alloc by lia. case_decide; naive_solver.
Qed.

End alloc.

(** A file that takes the free block [n], for the hole [slot] or, with [None],
    for the indirect block. *)
Section grows_new.
Context (k : nat) a x a' x' (n : Z) (slot : option Z).
Context (Wf : file_wf v (logical a) x) (Hn : data_block v n) (Hfree : used v (logical a) n = false).
Context (Hlen : length (di_addrs x') = 13%nat).
Context (Haddr : forall i, 0 <= i < MAXFILE -> baddr (logical a') x' i = if decide (slot = Some i) then n else baddr (logical a) x i).
Context (Hslot : forall i, slot = Some i -> 0 <= i < MAXFILE /\ baddr (logical a) x i = 0).
Context (Hind : addr_at x' NDIRECT = match slot with None => n | Some _ => addr_at x NDIRECT end).
Context (Hind0 : slot = None -> addr_at x NDIRECT = 0).
Context (Hused : forall b, 0 <= b < sb_size v -> used v (logical a') b = if decide (b = n) then true else used v (logical a) b).
Context (Hframe : forall m, 0 <= m < sb_size v -> used v (logical a) m = true -> ~ bitmap_block v m -> m <> addr_at x NDIRECT ->
    logical a' m = logical a m).
Context (Hzero : logical a' n = zero_block).

Lemma new_not_old i : 0 <= i < MAXFILE -> baddr (logical a) x i <> n.
Proof.
  intros Hi E. destruct (alloc_range _ Hn) as [_ Hnz]. destruct (fw_data _ _ _ Wf i Hi) as [_ U]; [congruence|]. congruence.
Qed.

Lemma used_keep b : 0 <= b < sb_size v -> used v (logical a) b = true -> used v (logical a') b = true.
Proof. intros Hb Hu. rewrite Hused by done. by case_decide. Qed.

Lemma new_wf : file_wf v (logical a') x'.
Proof.
  destruct (alloc_range _ Hn) as [Rn Hnz]. split; [done|..].
  - intros i Hi Hnz'. rewrite Haddr in * by done. case_decide as E.
    + split; [done|]. by rewrite Hused, decide_True.
    + destruct (fw_data _ _ _ Wf i Hi Hnz'). split; [done|]. apply used_keep; [by apply data_range|done].
  - intros Hnz'. rewrite Hind in *. destruct slot as [i|].
    + destruct (fw_ind _ _ _ Wf Hnz'). split; [done|]. apply used_keep; [by apply data_range|done].
    + split; [done|]. by rewrite Hused, decide_True.
  - intros i j Hi Hj Hnz' E. rewrite !Haddr in * by done. repeat case_decide; try congruence.
    + by destruct (new_not_old j).
    + by destruct (new_not_old i).
    + by apply (fw_inj _ _ _ Wf).
  - intros i Hi Hnz'. rewrite Haddr in * by done. rewrite Hind. destruct slot as [j|] eqn:Es.
    + case_decide as E; [|by apply (fw_sep _ _ _ Wf)]. intros E'.
      destruct (fw_ind _ _ _ Wf) as [_ U]; [congruence|]. congruence.
    + case_decide; [done|]. by apply new_not_old.
Qed.

Lemma new_blk i : 0 <= i < MAXFILE -> fblk (logical a') x' i = fblk (logical a) x i.
Proof.
  intros Hi. destruct (alloc_range _ Hn) as [_ Hnz]. unfold fblk. rewrite Haddr by done. case_decide as E.
  - destruct (Hslot i E) as [_ ->]. destruct (Z.eqb_spec n 0); [done|]. by rewrite Hzero.
  - destruct (Z.eqb_spec (baddr (logical a) x i) 0) as [|Hnz']; [done|]. destruct (fw_data _ _ _ Wf i Hi Hnz').
    apply Hframe; [by apply data_range|done|by apply data_not_bitmap_block|by apply (fw_sep _ _ _ Wf)].
Qed.

Lemma grows_new : x' = with_addrs (di_addrs x') x -> held a' = held a -> (forall m, on_disk a' m = on_disk a m) ->
  pinned a ⊆ pinned a' -> (size (pinned a') <= size (pinned a) + k)%nat ->
  (nfree v (logical a) <= nfree v (logical a') + 1)%nat -> grows k 1 a x a' x'.
Proof.
  intros Hx Hh Hd Hp Hs Hf. split; try done.
  - apply new_wf.
  - apply new_blk.
  - intros i Hi Hnz. rewrite Haddr by done. case_decide as E; [|done]. by destruct (Hslot i E).
  - intros i Hi Hz. rewrite Haddr by done. case_decide; [by right|by left].
  - rewrite Hind. destruct slot; [by left|right]. split; [by apply Hind0|done].
  - apply used_keep.
Qed.
End grows_new.

Lemma NDIRECT_lt_MAXFILE i : 0 <= i < NDIRECT -> 0 <= i < MAXFILE.
Proof. change MAXFILE with 268. unfold NDIRECT. lia. Qed.

(** A hole below NDIRECT. *)
Lemma grow_direct a x n bn : file_wf v (logical a) x -> data_block v n -> used v (logical a) n = false ->
  (forall m, block_ok (logical a m)) -> 0 <= bn < NDIRECT -> addr_at x bn = 0 ->
  grows 2 1 a x (a_alloc v n a) (set_di_addr (Z.to_nat bn) n x) /\
  baddr (logical (a_alloc v n a)) (set_di_addr (Z.to_nat bn) n x) bn = n.
Proof.
  intros Wf Hn Hfree Hblk Hbn Hz. pose proof (fw_addrs _ _ _ Wf) as Hlen. destruct (alloc_range _ Hn) as [Rn Hnz].
  assert (forall j, 0 <= j -> addr_at (set_di_addr (Z.to_nat bn) n x) j = if decide (j = bn) then n else addr_at x j) as HA.
  { intros j Hj. apply addr_at_set; [done|unfold NDIRECT in Hbn; lia|done]. }
  assert (forall i, 0 <= i < MAXFILE -> baddr (logical (a_alloc v n a)) (set_di_addr (Z.to_nat bn) n x) i =
            if decide (Some bn = Some i) then n else baddr (logical a) x i) as HB.
  { intros i Hi. unfold baddr. rewrite !HA by (unfold NDIRECT; lia). rewrite (decide_False (P := NDIRECT = bn)) by lia.
    destruct (Z.ltb_spec i NDIRECT); [repeat case_decide; congruence|]. rewrite decide_False by (intros [=]; lia).
    destruct (Z.eqb_spec (addr_at x NDIRECT) 0) as [|E]; [done|]. destruct (fw_ind _ _ _ Wf E).
    rewrite alloc_frame; [done|done|done|by apply data_range|done|by apply data_not_bitmap_block]. }
  split; [|rewrite HB by (by apply NDIRECT_lt_MAXFILE); by rewrite decide_True].
  destruct (alloc_pinned a n) as [P1 P2].
  apply (grows_new 2 a x _ _ n (Some bn)); try done.
  - simpl. by rewrite length_insert.
  - intros i [= <-]. split; [by apply NDIRECT_lt_MAXFILE|]. unfold baddr. destruct (Z.ltb_spec bn NDIRECT); [done|lia].
  - rewrite HA by done. rewrite decide_False by lia. done.
  - intros b Hb. by apply used_alloc.
  - intros m Hm Hu Hb _. by apply alloc_frame.
  - rewrite logical_alloc. by rewrite decide_True.
  - rewrite (nfree_alloc a n) by done. lia.
Qed.

Lemma get32_zero o : get32 zero_block o = 0.
Proof.
  unfold get32, slice, zero_block. rewrite drop_replicate, take_replicate. by induction (_ `min` _)%nat as [|m IH]; [|simpl; rewrite IH].
Qed.

(** The indirect block. *)
Lemma grow_indirect a x n : file_wf v (logical a) x -> data_block v n -> used v (logical a) n = false ->
  (forall m, block_ok (logical a m)) -> addr_at x NDIRECT = 0 ->
  grows 2 1 a x (a_alloc v n a) (set_di_addr (Z.to_nat NDIRECT) n x) /\
  addr_at (set_di_addr (Z.to_nat NDIRECT) n x) NDIRECT = n.
Proof.
  intros Wf Hn Hfree Hblk Hz. pose proof (fw_addrs _ _ _ Wf) as Hlen. destruct (alloc_range _ Hn) as [Rn Hnz].
  assert (forall j, 0 <= j -> addr_at (set_di_addr (Z.to_nat NDIRECT) n x) j = if decide (j = NDIRECT) then n else addr_at x j) as HA.
  { intros j Hj. apply addr_at_set; [done|unfold NDIRECT; lia|done]. }
  split; [|by rewrite HA, decide_True]. destruct (alloc_pinned a n) as [P1 P2].
  assert (logical (a_alloc v n a) n = zero_block) as HZ by (rewrite logical_alloc; by rewrite decide_True).
  apply (grows_new 2 a x _ _ n None); try done.
  - simpl. by rewrite length_insert.
  - intros i Hi. rewrite decide_False by done. unfold baddr. rewrite !HA by (unfold NDIRECT; lia).
    rewrite (decide_True (P := NDIRECT = NDIRECT)), HZ, Hz by done.
    destruct (Z.ltb_spec i NDIRECT); [by rewrite decide_False by lia|]. destruct (Z.eqb_spec n 0); [done|].
    rewrite get32_zero. done.
  - by rewrite HA, decide_True.
  - intros b Hb. by apply used_alloc.
  - intros m Hm Hu Hb _. by apply alloc_frame.
  - rewrite (nfree_alloc a n) by done. lia.
Qed.

(** A hole in the indirect block. *)
Lemma entry_offset i : NDIRECT <= i < MAXFILE -> (Z.to_nat (4 * (i - NDIRECT)) + 4 <= bsize)%nat.
Proof. change MAXFILE with 268. unfold NDIRECT, bsize. lia. Qed.

Lemma nfree_other L n d : data_block v n -> nfree v (<[n := d]> L) = nfree v L.
Proof.
  intros Hn. unfold nfree. f_equal. apply filter_ext_in. intros b Hb. apply elem_of_seqZ in Hb.
  by rewrite (used_other v Hv nlog_pos) by (done || lia).
Qed.

Lemma grow_entry a x n bn (p := addr_at x NDIRECT) (off := Z.to_nat (4 * (bn - NDIRECT))) :
  file_wf v (logical a) x -> data_block v n -> used v (logical a) n = false ->
  (forall m, block_ok (logical a m)) -> NDIRECT <= bn < MAXFILE -> p <> 0 -> get32 (logical a p) off = 0 ->
  let a' := a_update p (put32 (logical a p) off n) (a_alloc v n a) in
  grows 3 1 a x a' x /\ baddr (logical a') x bn = n.
Proof.
  intros Wf Hn Hfree Hblk Hbn Hp Hz a'. pose proof (fw_addrs _ _ _ Wf) as Hlen. destruct (alloc_range _ Hn) as [Rn Hnz].
  destruct (fw_ind _ _ _ Wf Hp) as [Dp Up]. assert (n <> p) as Hnp by (intros ->; fold p in Up; congruence).
  assert (forall i, 0 <= i < MAXFILE -> baddr (logical a') x i = if decide (Some bn = Some i) then n else baddr (logical a) x i) as HB.
  { intros i Hi. unfold baddr. fold p. destruct (Z.ltb_spec i NDIRECT); [by rewrite decide_False by (intros [=]; lia)|].
    destruct (Z.eqb_spec p 0); [done|]. subst a'. rewrite logical_update, decide_True by done. subst off.
    pose proof (entry_offset bn Hbn) as Ho. case_decide as E.
    - injection E as <-. apply get32_put32_same; [done|done|]. destruct Hv. unfold data_block in Hn. lia.
    - rewrite get32_put32_out; [done|done|done|]. assert (bn <> i) by congruence. lia. }
  split; [|rewrite HB by (unfold NDIRECT in *; lia); by rewrite decide_True].
  destruct (alloc_pinned a n) as [P1 P2]. pose proof (size_pin p (pinned (a_alloc v n a))) as P3.
  apply (grows_new 3 a x _ _ n (Some bn)); try done.
  - intros i [= <-]. split; [unfold NDIRECT in *; lia|]. unfold baddr. fold p. destruct (Z.ltb_spec bn NDIRECT); [lia|].
    by destruct (Z.eqb_spec p 0).
  - intros b Hb. rewrite <- (used_alloc a n) by done. exact (used_other v Hv nlog_pos _ p _ b Dp Hb).
  - intros m Hm Hu Hb Hmp. subst a'. rewrite logical_update, decide_False by done. by apply alloc_frame.
  - subst a'. rewrite logical_update, decide_False, logical_alloc by done. by rewrite decide_True.
  - by rewrite with_addrs_id.
  - simpl in *. set_solver.
  - subst a'. simpl in *. lia.
  - rewrite (nfree_alloc a n) by done. change (logical a') with (<[p := put32 (logical a p) off n]> (logical (a_alloc v n a))).
    rewrite (nfree_other _ p _ Dp). lia.
Qed.
End grow.

Lemma alter_insert {A} (f : A -> A) (l : list A) i x : l !! i = Some x -> alter f i l = <[i := f x]> l.
Proof. revert i. induction l as [|y l IH]; intros [|i] H; simpl in *; try done; [congruence|]. f_equal. by apply IH. Qed.

Lemma nfree_exists v L : (0 < nfree v L)%nat -> exists b, 0 <= b < sb_size v /\ used v L b = false.
Proof.
  unfold nfree. destruct (filter _ _) as [|b l] eqn:E; [simpl; lia|]. intros _.
  assert (b ∈ filter (fun b => used v L b = false) (seqZ 0 (sb_size v))) as Hb by (rewrite E; by left).
  apply list_elem_of_filter in Hb as [Hu Hb]. apply elem_of_seqZ in Hb. exists b. split; [lia|done].
Qed.

Section file.
Context {T B : Type} {dev logstart nlog : Z} `{TS : !TxnStore T B dev logstart nlog}.
Context (nlog_fits : nlog <= NBUF) (nlog_pos : 0 < nlog).
Context (v : superblock) (Hv : layout (logstart := logstart) (nlog := nlog) v).
Implicit Types (s : @fss T) (a : acache B).

(** ** The entry of an inode in the inode cache *)
Definition ino_at s (ip : nat) (i : inode) : Prop := ic_inode (f_ic s) !! ip = Some i.

Definition put_ino (ip : nat) (i : inode) (c : icache) : icache := mkIC (ic_lock c) (<[ip := i]> (ic_inode c)).

(** The step changes entry [ip] of the inode cache, to [i], and no other. *)
Definition fput (ip : nat) (i : inode) s s' : Prop := fstep s s' /\ f_ic s' = put_ino ip i (f_ic s).

Lemma fput_refl s ip i : ino_at s ip i -> fput ip i s s.
Proof. intros H. split; [done|]. unfold put_ino. rewrite list_insert_id by done. by destruct (f_ic s). Qed.

Lemma fput_same ip i s s1 s2 : fput ip i s s1 -> fsame s1 s2 -> fput ip i s s2.
Proof. intros [H1 E1] [H2 E2]. split; [by etransitivity|congruence]. Qed.

Lemma same_fput ip i s s1 s2 : fsame s s1 -> fput ip i s1 s2 -> fput ip i s s2.
Proof. intros [H1 E1] [H2 E2]. split; [by etransitivity|congruence]. Qed.

Lemma fput_fput ip i1 i2 s s1 s2 : fput ip i1 s s1 -> fput ip i2 s1 s2 -> fput ip i2 s s2.
Proof. intros [H1 E1] [H2 E2]. split; [by etransitivity|]. rewrite E2, E1. unfold put_ino. simpl. by rewrite list_insert_insert_eq. Qed.

Lemma fput_at ip i0 i s s' : ino_at s ip i0 -> fput ip i s s' -> ino_at s' ip i.
Proof. intros H [_ E]. unfold ino_at. rewrite E. apply list_lookup_insert_eq. by eapply lookup_lt_Some. Qed.

Lemma fsame_at ip i s s' : ino_at s ip i -> fsame s s' -> ino_at s' ip i.
Proof. intros H [_ E]. unfold ino_at. by rewrite E. Qed.

Lemma fput_sb ip i s s' : fput ip i s s' -> f_sb s' = f_sb s.
Proof. intros [[] _]. done. Qed.

Lemma ino_ok s ip i : ino_at s ip i -> geti (ic_inode (f_ic s)) ip = i.
Proof. unfold ino_at, geti. by intros ->. Qed.

Lemma upd_i_ok s a ip i g : ino_at s ip i -> frep s a ->
  wp (upd_i ip g s) (fun _ s' => fput ip (g i) s s' /\ frep s' a).
Proof.
  intros Hi Hr. unfold upd_i. kstep. split; [|exact Hr]. split.
  - split; try done. exists (fctx s). split; [done|]. unfold fctx. by rewrite over_view.
  - cbn [upd_inode upd_ic f_ic]. unfold put_ino. f_equal. by rewrite (alter_insert _ _ _ _ Hi).
Qed.

(** ** bmap *)

(** 1 for a hole, 0 for a block that is there. *)
Definition hole (L : Z -> list Z) (x : dinode) (bn : Z) : nat := if baddr L x bn =? 0 then 1 else 0.

Record file_ok s a (ip : nat) (i : inode) : Prop := {
  fo_sb : f_sb s = v;
  fo_rep : frep s a;
  fo_held : held a = ∅;
  fo_meta : meta_used v (logical a);
  fo_ino : ino_at s ip i;
  fo_dev : i_dev i = dev;
  fo_wf : file_wf v (logical a) (i_di i)
}.

Lemma file_ok_grows k c s a ip i s' a' x' : file_ok s a ip i -> fput ip (set_i_di x' i) s s' -> frep s' a' ->
  grows v k c a (i_di i) a' x' -> file_ok s' a' ip (set_i_di x' i).
Proof.
  intros [H1 H2 H3 H4 H5 H6 H7] Hs Hr G. split; try done.
  - by rewrite (fput_sb _ _ _ _ Hs).
  - by rewrite (gr_held _ _ _ _ _ _ _ G).
  - intros b Hb. apply (gr_used _ _ _ _ _ _ _ G); [|by apply H4]. destruct Hv. lia.
  - by apply (fput_at ip i _ s).
  - apply G.
Qed.

Lemma can_log_grows q k c a x a' x' : grows v k c a x a' x' -> can_log (nlog := nlog) q a -> can_log (nlog := nlog) (q - Z.of_nat k) a'.
Proof. intros G. unfold can_log. destruct (gr_pinned _ _ _ _ _ _ _ G). lia. Qed.

Lemma holds_none a : held a = ∅ -> holds_data v a.
Proof. intros E n b H. rewrite E in H. by rewrite lookup_empty in H. Qed.

(** [balloc] for a slot of the inode. *)
Lemma bmap_alloc s a ip i k q : file_ok s a ip i -> can_log (nlog := nlog) q a -> 2 <= q -> (0 < nfree v (logical a))%nat ->
  wp ((addr <- balloc dev;; upd_di ip (set_di_addr k addr);; ret addr) s) (fun n s' =>
    data_block v n /\ used v (logical a) n = false /\
    fput ip (set_i_di (set_di_addr k n (i_di i)) i) s s' /\ frep s' (a_alloc v n a)).
Proof.
  intros [H1 H2 H3 H4 H5 H6 H7] Hq Hq2 Hf. kstep. eapply wp_mono.
  2:{ apply (balloc_ok nlog_fits v Hv nlog_pos s a q); try done; [by apply holds_none|rewrite H3, map_size_empty; lia|by apply nfree_exists]. }
  intros n s1 (S1 & R1 & F1). kstep.
  eapply wp_mono; [|apply (upd_i_ok s1 (a_alloc v n a) ip i); [by eapply fsame_at|exact R1]].
  intros _ s2 [S2 R2]. kstep. split; [by eapply first_free_data|]. split; [apply F1|]. split; [by eapply same_fput|done].
Qed.

Definition bmap_post a ip i s bn (r : Z) s' : Prop :=
  exists a' x', fput ip (set_i_di x' i) s s' /\ frep s' a' /\
    grows v (5 * hole (logical a) (i_di i) bn) (2 * hole (logical a) (i_di i) bn) a (i_di i) a' x' /\
    r = baddr (logical a') x' bn /\ r <> 0.

Lemma bmap_direct s a ip i bn q : file_ok s a ip i -> 0 <= bn < NDIRECT -> can_log (nlog := nlog) q a ->
  5 * Z.of_nat (hole (logical a) (i_di i) bn) + 1 <= q -> (2 * hole (logical a) (i_di i) bn <= nfree v (logical a))%nat ->
  wp (bmap ip bn s) (bmap_post a ip i s bn).
Proof.
  intros Hok Hbn Hq Hq5 Hfr. pose proof Hok as [H1 H2 H3 H4 H5 H6 H7]. unfold bmap, ino. kstep. kstep. rewrite (ino_ok _ _ _ H5).
  destruct (Z.ltb_spec bn NDIRECT) as [_|]; [|lia]. fold (addr_at (i_di i) bn).
  assert (baddr (logical a) (i_di i) bn = addr_at (i_di i) bn) as EB by (unfold baddr; destruct (Z.ltb_spec bn NDIRECT); [done|lia]).
  unfold bmap_post. unfold hole in *. rewrite EB in *. destruct (Z.eqb_spec (addr_at (i_di i) bn) 0) as [Ez|Ez].
  - rewrite H6. eapply wp_mono; [|apply (bmap_alloc s a ip i _ q Hok Hq); lia].
    intros n s' (D & U & S' & R'). exists (a_alloc v n a), (set_di_addr (Z.to_nat bn) n (i_di i)).
    destruct (grow_direct v Hv nlog_pos a (i_di i) n bn) as [G E]; try done; [intros m; by eapply frep_blocks|].
    split; [done|]. split; [done|]. split; [eapply grows_le; [| |exact G]; lia|]. split; [done|].
    by apply (alloc_range v Hv nlog_pos n D).
  - kstep. exists a, (i_di i). split; [by apply fput_refl; destruct i|]. split; [done|]. split; [by apply grows_refl|]. by split.
Qed.

(** Block [bn] of the indirect block [p], after [p] is there. *)
Lemma bmap_entry s a ip i bn q (p := addr_at (i_di i) NDIRECT) : file_ok s a ip i -> NDIRECT <= bn < MAXFILE -> p <> 0 ->
  can_log (nlog := nlog) q a -> 3 * Z.of_nat (hole (logical a) (i_di i) bn) + 1 <= q ->
  (hole (logical a) (i_di i) bn <= nfree v (logical a))%nat ->
  wp ((bp <- f_bread dev p;;
       d <- f_data bp;;
       addr <- (if get32 d (Z.to_nat (4 * (bn - NDIRECT))) =? 0 then
                  addr <- balloc dev;;
                  d <- f_data bp;;
                  f_store bp (put32 d (Z.to_nat (4 * (bn - NDIRECT))) addr);;
                  f_log_write bp;;
                  ret addr
                else ret (get32 d (Z.to_nat (4 * (bn - NDIRECT)))));;
       f_brelse bp;;
       ret addr) s)
    (fun r s' => exists a', fsame s s' /\ frep s' a' /\
      grows v (3 * hole (logical a) (i_di i) bn) (hole (logical a) (i_di i) bn) a (i_di i) a' (i_di i) /\
      r = baddr (logical a') (i_di i) bn /\ r <> 0).
Proof.
  intros Hok Hbn Hp Hq Hq5 Hfr. pose proof Hok as [H1 H2 H3 H4 H5 H6 H7]. destruct (fw_ind _ _ _ H7 Hp) as [Dp Up]. fold p in Dp, Up.
  destruct (data_block_range v Hv nlog_pos p Dp) as (R1 & R2 & R3). set (off := Z.to_nat (4 * (bn - NDIRECT))) in *.
  assert (baddr (logical a) (i_di i) bn = get32 (logical a p) off) as EB.
  { unfold baddr. fold p. destruct (Z.ltb_spec bn NDIRECT); [lia|]. by destruct (Z.eqb_spec p 0). }
  assert (held a !! p = None) as Hh by (rewrite H3; apply lookup_empty).
  kstep. eapply wp_mono; [|apply (f_bread_ok nlog_fits s a p q); try done; rewrite H3, map_size_empty; lia].
  intros bp s1 [S1 Hr1]. unfold f_data at 1. kstep. kstep. rewrite (f_data_ok _ _ _ _ Hr1 (f_held_hold _ _ _)). cbn [logical a_hold].
  unfold hole in *. rewrite EB in *. destruct (Z.eqb_spec (get32 (logical a p) off) 0) as [Ez|Ez].
  - kstep. kstep. eapply wp_mono; [|apply (balloc_ok nlog_fits v Hv nlog_pos s1 (a_hold p bp a) q)].
    2: by rewrite (fsame_sb _ _ S1).
    2: done.
    2:{ intros m b Hm. cbn [held a_hold] in Hm. rewrite H3 in Hm. apply lookup_insert_Some in Hm as [[<- _]|[_ Hm]]; [done|by rewrite lookup_empty in Hm]. }
    2,3: done.
    2: lia.
    2:{ pose proof (size_hold p bp a) as Hsz. rewrite H3, map_size_empty in Hsz. lia. }
    2: by apply (nfree_exists v (logical a)); lia.
    intros n s2 (S2 & Hr2 & F2). assert (data_block v n) as Dn by (by eapply first_free_data). destruct F2 as (Rn & Un & _). cbn [logical a_hold] in Un.
    assert (held (a_alloc v n (a_hold p bp a)) !! p = Some bp) as Hhp by apply f_held_hold.
    destruct (grow_entry v Hv nlog_pos a (i_di i) n bn) as [G E]; try done; [intros m; by eapply frep_blocks|]. fold p off in G, E.
    assert (logical (a_alloc v n (a_hold p bp a)) p = logical a p) as El.
    { exact (alloc_frame v Hv nlog_pos (a_hold p bp a) n Dn Un p (data_range v Hv _ Dp) Up (data_not_bitmap_block v Hv _ Dp)). }
    unfold f_data. kstep. kstep. rewrite (f_data_ok _ _ _ _ Hr2 Hhp), El. kstep.
    eapply wp_mono; [|apply (f_store_ok s2 _ p bp (put32 (logical a p) off n) Hr2 Hhp)].
    2:{ apply block_ok_put32; [by eapply frep_blocks|by apply entry_offset]. }
    intros _ s3 [S3 Hr3]. kstep. eapply wp_mono; [|apply (f_log_write_ok s3 _ p bp (q - 2) Hr3 Hhp); try done].
    2:{ pose proof (alloc_pinned v Hv nlog_pos (a_hold p bp a) n) as [_ Hp2]. unfold can_log in *. cbn [pinned a_set]. cbn [pinned a_hold] in Hp2. lia. }
    2: lia.
    intros _ s4 [S4 Hr4]. kstep. kstep. eapply wp_mono; [|apply (f_brelse_ok s4 _ p bp Hr4 Hhp); left; cbn [pinned a_pin]; set_solver].
    intros _ s5 [S5 Hr5]. kstep. exists (a_update p (put32 (logical a p) off n) (a_alloc v n a)).
    split; [by do 4 (etransitivity; [eassumption|])|]. split.
    { eapply frep_equiv; [|exact Hr5]. split; try done. cbn [held a_drop a_pin a_set a_alloc a_update a_hold]. by rewrite delete_insert_id. }
    split; [eapply grows_le; [| |exact G]; lia|]. split; [done|]. by apply (alloc_range v Hv nlog_pos n Dn).
  - kstep. kstep. kstep. eapply wp_mono; [|apply (release_clean s1 a p bp Hr1 Hh); by eapply frep_clean].
    intros _ s2 [S2 Hr2]. kstep. exists a. split; [by etransitivity|]. split; [done|]. split; [by apply grows_refl|]. by rewrite EB.
Qed.

(** The indirect block, allocated if necessary. *)
Lemma bmap_indirect s a ip i bn q (p := addr_at (i_di i) NDIRECT) (h := hole (logical a) (i_di i) bn) :
  file_ok s a ip i -> NDIRECT <= bn -> can_log (nlog := nlog) q a -> 2 * Z.of_nat h <= q -> (h <= nfree v (logical a))%nat ->
  wp ((if p =? 0 then
         addr <- balloc dev;; upd_di ip (set_di_addr (Z.to_nat NDIRECT) addr);; ret addr
       else ret p) s)
    (fun r s' => exists a' x', fput ip (set_i_di x' i) s s' /\ frep s' a' /\ grows v (2 * h) h a (i_di i) a' x' /\
      r = addr_at x' NDIRECT /\ r <> 0).
Proof.
  intros Hok Hbn Hq Hq2 Hfr. pose proof Hok as [H1 H2 H3 H4 H5 H6 H7]. destruct (Z.eqb_spec p 0) as [Ez|Ez].
  - assert (h = 1%nat) as Eh.
    { subst h. unfold hole, baddr. fold p. rewrite Ez. destruct (Z.ltb_spec bn NDIRECT); [lia|done]. }
    eapply wp_mono; [|apply (bmap_alloc s a ip i _ q Hok Hq); lia].
    intros n s' (D & U & S' & R'). destruct (grow_indirect v Hv nlog_pos a (i_di i) n) as [G E]; try done; [intros m; by eapply frep_blocks|].
    exists (a_alloc v n a), (set_di_addr (Z.to_nat NDIRECT) n (i_di i)). split; [done|]. split; [done|].
    split; [eapply grows_le; [| |exact G]; lia|]. split; [done|]. by apply (alloc_range v Hv nlog_pos n D).
  - kstep. exists a, (i_di i). split; [by apply fput_refl; destruct i|]. split; [done|].
    split; [eapply grows_le; [| |by apply grows_refl]; lia|]. by split.
Qed.

Lemma bmap_ok s a ip i bn q : file_ok s a ip i -> 0 <= bn < MAXFILE -> can_log (nlog := nlog) q a ->
  5 * Z.of_nat (hole (logical a) (i_di i) bn) + 1 <= q -> (2 * hole (logical a) (i_di i) bn <= nfree v (logical a))%nat ->
  wp (bmap ip bn s) (bmap_post a ip i s bn).
Proof.
  intros Hok Hbn Hq Hq5 Hfr. destruct (Z.lt_ge_cases bn NDIRECT) as [Hlt|Hge]; [apply (bmap_direct _ _ _ _ _ q); (done || lia)|].
  set (h := hole (logical a) (i_di i) bn) in *. pose proof Hok as [H1 H2 H3 H4 H5 H6 H7].
  unfold bmap, ino. kstep. kstep. rewrite (ino_ok _ _ _ H5). destruct (Z.ltb_spec bn NDIRECT) as [|_]; [lia|].
  destruct (Z.ltb_spec (bn - NDIRECT) NINDIRECT) as [_|]; [|unfold MAXFILE in Hbn; lia]. rewrite H6.
  fold (addr_at (i_di i) NDIRECT). kstep. eapply wp_mono; [|apply (bmap_indirect s a ip i bn q Hok); [done|done|lia|lia]].
  intros p s1 (a1 & x1 & S1 & R1 & G1 & -> & Hp). fold h in G1.
  pose proof (file_ok_grows _ _ _ _ _ _ _ _ _ Hok S1 R1 G1) as Hok1.
  assert (hole (logical a1) x1 bn <= h)%nat as Hh.
  { unfold h, hole. destruct (Z.eqb_spec (baddr (logical a) (i_di i) bn) 0) as [E|E]; [destruct (_ =? 0); lia|].
    rewrite (gr_addr _ _ _ _ _ _ _ G1) by done. by destruct (Z.eqb_spec (baddr (logical a) (i_di i) bn) 0). }
  pose proof (gr_free _ _ _ _ _ _ _ G1) as Hf1. pose proof (can_log_grows _ _ _ _ _ _ _ G1 Hq) as Hq1.
  eapply wp_mono; [|apply (bmap_entry s1 a1 ip (set_i_di x1 i) bn (q - Z.of_nat (2 * h)) Hok1); [lia|exact Hp|exact Hq1|cbn [i_di set_i_di]; lia|cbn [i_di set_i_di]; lia]].
  cbn [i_di set_i_di]. intros r s2 (a2 & S2 & R2 & G2 & Er & Hnz). exists a2, x1. split; [by eapply fput_same|]. split; [done|].
  split; [|done]. eapply grows_le; [| |eapply (grows_trans v Hv); [exact H7|exact G1|exact G2]]; lia.
Qed.

(** A block that is there is only looked up. *)
Lemma bmap_there s a ip i bn : file_ok s a ip i -> 0 <= bn < MAXFILE -> can_log (nlog := nlog) 1 a -> baddr (logical a) (i_di i) bn <> 0 ->
  wp (bmap ip bn s) (fun r s' => r = baddr (logical a) (i_di i) bn /\ fsame s s' /\ frep s' a).
Proof.
  intros [H1 H2 H3 H4 H5 H6 H7] Hbn Hq Hnz. unfold bmap, ino. kstep. kstep. rewrite (ino_ok _ _ _ H5), H6.
  unfold baddr in *. fold (addr_at (i_di i) bn) (addr_at (i_di i) NDIRECT). destruct (bn <? NDIRECT).
  - destruct (Z.eqb_spec (addr_at (i_di i) bn) 0); [congruence|]. by kstep.
  - destruct (Z.ltb_spec (bn - NDIRECT) NINDIRECT) as [_|]; [|unfold MAXFILE in Hbn; lia].
    destruct (Z.eqb_spec (addr_at (i_di i) NDIRECT) 0) as [|Ep]; [congruence|]. set (p := addr_at (i_di i) NDIRECT) in *.
    destruct (fw_ind _ _ _ H7 Ep) as [Dp Up]. destruct (data_block_range v Hv nlog_pos p Dp) as (R1 & R2 & R3).
    assert (held a !! p = None) as Hh by (rewrite H3; apply lookup_empty).
    kstep. kstep. kstep. eapply wp_mono; [|apply (f_bread_ok nlog_fits s a p 1); try done; rewrite H3, map_size_empty; lia].
    intros bp s1 [S1 Hr1]. unfold f_data. kstep. kstep. rewrite (f_data_ok _ _ _ _ Hr1 (f_held_hold _ _ _)). cbn [logical a_hold].
    destruct (Z.eqb_spec (get32 (logical a p) (Z.to_nat (4 * (bn - NDIRECT)))) 0); [congruence|].
    kstep. kstep. kstep. eapply wp_mono; [|apply (release_clean s1 a p bp Hr1 Hh); by eapply frep_clean].
    intros _ s2 [S2 Hr2]. kstep. split; [done|]. split; [by etransitivity|done].
Qed.
End file.
