(* ===== verification/FsInode.v ===== *)
(** * kernel/fs.c: inodes on disk, reading and writing files

    A dinode of an inode block is its 64-byte encoding ([put_dinode_splice]);
    what [iupdate] writes [ilock] reads back, and the other inodes of the block
    are not touched.  [evolves] relates a file and the disk before and after an
    operation on the file; [readi_ok] and [writei_ok] describe [readi] and
    [writei] byte by byte. *)
From S2P Require Import Prelude Machine KString Spinlock Kalloc Vm UserMem Block Env Log Txn Fs FsBlock FsFile.
Local Open Scope Z_scope.
Local Open Scope kernel_scope.

(** ** The encoding of a dinode *)
Lemma splice_splice_next d o l1 o2 l2 : o2 = (o + length l1)%nat -> (o2 + length l2 <= length d)%nat ->
  splice (splice d o l1) o2 l2 = splice d o (l1 ++ l2).
Proof.
  intros -> H. apply list_eq. intros i. rewrite !lookup_splice; rewrite ?length_app, ?length_splice; try lia.
  case_decide; case_decide; try case_decide; try lia.
  - rewrite lookup_app_r by lia. f_equal. lia.
  - rewrite lookup_app_l by lia. done.
  - done.
Qed.

Lemma slice_splice_in d o l j n : (o + length l <= length d)%nat -> (j + n <= length l)%nat ->
  slice (splice d o l) (o + j) n = slice l j n.
Proof.
  intros H Hj. apply list_eq. intros i. destruct (decide (i < n)%nat).
  - rewrite !lookup_slice, lookup_splice, decide_True by lia. f_equal. lia.
  - rewrite !lookup_ge_None_2; [done|..]; rewrite length_slice; rewrite ?length_splice; lia.
Qed.

Lemma slice_app_r l1 l2 j n : slice (l1 ++ l2) (length l1 + j) n = slice l2 j n.
Proof. unfold slice. by rewrite drop_app_add'. Qed.

Lemma slice_app_l l1 l2 : slice (l1 ++ l2) 0 (length l1) = l1.
Proof. unfold slice. by rewrite drop_0, take_app_length. Qed.

Fixpoint enc_addrs (l : list Z) : list Z :=
  match l with [] => [] | v :: l => le_encode 4 v ++ enc_addrs l end.

Definition enc_dinode (x : dinode) : list Z :=
  le_encode 2 (u16 (di_type x)) ++ le_encode 2 (u16 (di_major x)) ++ le_encode 2 (u16 (di_minor x)) ++
  le_encode 2 (u16 (di_nlink x)) ++ le_encode 4 (di_size x) ++ enc_addrs (di_addrs x).

Lemma length_enc_addrs l : length (enc_addrs l) = (4 * length l)%nat.
Proof. induction l as [|v l IH]; [done|]. cbn [enc_addrs length]. rewrite length_app, length_le_encode, IH. lia. Qed.

(** Lengths of encodings and of blocks with parts replaced. *)
Ltac len := rewrite ?length_app, ?length_le_encode, ?length_enc_addrs; first [lia | rewrite length_splice; len].

Lemma put_addrs_splice l d o : (o + 4 * length l <= length d)%nat -> put_addrs d o l = splice d o (enc_addrs l).
Proof.
  revert d o. induction l as [|v l IH]; intros d o H; cbn [put_addrs enc_addrs length] in *.
  - unfold splice. simpl. by rewrite Nat.add_0_r, take_drop.
  - unfold put32. rewrite IH by len. by rewrite (splice_splice_next d o) by len.
Qed.

Lemma put_dinode_splice d k x : length (di_addrs x) = 13%nat -> (64 * k + 64 <= length d)%nat ->
  put_dinode d k x = splice d (64 * k) (enc_dinode x).
Proof.
  intros Hl Hk. unfold put_dinode, enc_dinode, put16, put32. set (o := (64 * k)%nat) in *.
  rewrite put_addrs_splice by len. rewrite !(splice_splice_next d o) by len.
  by rewrite <- !app_assoc.
Qed.

Definition int16 (x : Z) : Prop := -2 ^ 15 <= x < 2 ^ 15.

Lemma s16_u16 x : int16 x -> s16 (u16 x) = x.
Proof.
  intros H. unfold int16 in H. unfold s16, u16. rewrite Zplus_mod_idemp_l. rewrite Z.mod_small by lia. lia.
Qed.

Record dinode_ok (x : dinode) : Prop := {
  do_type : int16 (di_type x);
  do_major : int16 (di_major x);
  do_minor : int16 (di_minor x);
  do_nlink : int16 (di_nlink x);
  do_size : is_u32 (di_size x);
  do_addrs : length (di_addrs x) = 13%nat;
  do_addr : Forall is_u32 (di_addrs x)
}.

Lemma length_enc_dinode x : length (di_addrs x) = 13%nat -> length (enc_dinode x) = 64%nat.
Proof. intros H. unfold enc_dinode. rewrite !length_app, !length_le_encode, length_enc_addrs. lia. Qed.

Lemma get32_enc_addrs l j v : Forall is_u32 l -> l !! j = Some v -> get32 (enc_addrs l) (4 * j) = v.
Proof.
  intros Hl. revert j. induction Hl as [|w l Hw Hl IH]; intros [|j] E; try done; cbn [enc_addrs].
  - injection E as ->. unfold get32. rewrite <- (length_le_encode 4 v) at 2. rewrite slice_app_l. by apply le_decode_encode.
  - unfold get32. replace (4 * S j)%nat with (length (le_encode 4 w) + 4 * j)%nat by (rewrite length_le_encode; lia).
    rewrite slice_app_r. by apply IH.
Qed.

Lemma slice_skip n v rest j m : slice (le_encode n v ++ rest) (n + j) m = slice rest j m.
Proof. rewrite <- (length_le_encode n v) at 2. apply slice_app_r. Qed.

Lemma slice_field n v rest : slice (le_encode n v ++ rest) 0 n = le_encode n v.
Proof. rewrite <- (length_le_encode n v) at 2. apply slice_app_l. Qed.

Lemma get_enc_dinode x : dinode_ok x -> get_dinode (enc_dinode x) 0 = x.
Proof.
  intros [H1 H2 H3 H4 H5 H6 H7]. unfold get_dinode, get16, get32, enc_dinode. change (64 * 0)%nat with 0%nat. rewrite !Nat.add_0_l.
  change 8%nat with (2 + (2 + (2 + (2 + 0))))%nat. change 6%nat with (2 + (2 + (2 + 0)))%nat.
  change (slice ?l 4 2) with (slice l (2 + (2 + 0)) 2). change (slice ?l 2 2) with (slice l (2 + 0) 2).
  rewrite !slice_skip, !slice_field, !le_decode_encode by (done || unfold u16; change (256 ^ Z.of_nat 2) with (2 ^ 16); apply Z.mod_pos_bound; lia).
  rewrite !s16_u16 by done. destruct x as [ty ma mi nl sz addrs]. cbn [di_type di_major di_minor di_nlink di_size di_addrs] in *. f_equal.
  apply list_eq. intros j. rewrite list_lookup_fmap. destruct (decide (j < 13)%nat) as [Hj|Hj].
  - rewrite lookup_seq_lt by done. destruct (lookup_lt_is_Some_2 addrs j) as [w Ew]; [lia|]. rewrite Ew.
    apply (f_equal Some). rewrite Nat.add_0_l, <- (get32_enc_addrs addrs j w H7 Ew). unfold get32.
    change (S (S (S (S (2 + (2 + (2 + (2 + 0))))))) + 4 * j)%nat with (2 + (2 + (2 + (2 + (4 + 4 * j)))))%nat.
    by rewrite !slice_skip.
  - rewrite lookup_seq_ge by lia. symmetry. apply lookup_ge_None_2. lia.
Qed.

Lemma get_dinode_ext d d' k k' : (forall j n, (j + n <= 64)%nat -> slice d (64 * k + j) n = slice d' (64 * k' + j) n) ->
  get_dinode d k = get_dinode d' k'.
Proof.
  intros H. assert (slice d (64 * k) 2 = slice d' (64 * k') 2) as H0.
  { rewrite <- (Nat.add_0_r (64 * k)), <- (Nat.add_0_r (64 * k')). apply H. lia. }
  unfold get_dinode, get16, get32. rewrite H0, !H by lia.
  f_equal. apply list_fmap_ext. intros i j Hj. apply lookup_seq in Hj as [-> Hj].
  rewrite <- !Nat.add_assoc, H by lia. done.
Qed.

(** What is read back from an inode block. *)
Lemma get_put_dinode d k j x : block_ok d -> dinode_ok x -> (k < 16)%nat -> (j < 16)%nat ->
  get_dinode (put_dinode d k x) j = if decide (j = k) then x else get_dinode d j.
Proof.
  intros [Hd _] Hx Hk Hj. unfold bsize in Hd. pose proof (do_addrs _ Hx) as Hl. rewrite put_dinode_splice by lia.
  pose proof (length_enc_dinode x Hl) as Hle. case_decide as E.
  - subst. rewrite <- (get_enc_dinode x Hx) at 2. apply get_dinode_ext. intros i n Hi.
    rewrite slice_splice_in by lia. f_equal.
  - apply get_dinode_ext. intros i n Hi. apply slice_splice_out; lia.
Qed.

Lemma block_ok_put_dinode d k x : block_ok d -> length (di_addrs x) = 13%nat -> (k < 16)%nat -> block_ok (put_dinode d k x).
Proof.
  intros Hd Hl Hk. pose proof Hd as [Hdl _]. unfold bsize in *. rewrite put_dinode_splice by lia.
  apply block_ok_splice; [done|rewrite length_enc_dinode by done; unfold bsize; lia|].
  unfold enc_dinode. rewrite !Forall_app. split_and!; try apply le_encode_bytes.
  clear. induction (di_addrs x) as [|w l IH]; [constructor|]. cbn [enc_addrs]. apply Forall_app. split; [apply le_encode_bytes|done].
Qed.

(** ** Files as sequences of bytes *)
Definition fbyte (L : Z -> list Z) (x : dinode) (o : Z) : Z :=
  default 0 (fblk L x (o / BSIZE) !! Z.to_nat (o mod BSIZE)).
Definition fread (L : Z -> list Z) (x : dinode) (off n : Z) : list Z := (fun k => fbyte L x (off + k)) <$> seqZ 0 n.
Definition MAXBYTES : Z := MAXFILE * BSIZE.

(** No hole below the size of the file; [writei] keeps files so, as it does not
    write beyond the end. *)
Definition full (L : Z -> list Z) (x : dinode) : Prop :=
  di_size x <= MAXBYTES /\ forall bn, 0 <= bn -> bn * BSIZE < di_size x -> baddr L x bn <> 0.

Lemma file_block_index o : 0 <= o < MAXBYTES -> 0 <= o / BSIZE < MAXFILE.
Proof.
  unfold MAXBYTES. intros H. split; [apply Z.div_pos; [lia|done]|]. apply Z.div_lt_upper_bound; [done|]. lia.
Qed.

Lemma length_fread L x off n : length (fread L x off n) = Z.to_nat n.
Proof. unfold fread. by rewrite length_fmap, length_seqZ. Qed.

Lemma lookup_fread L x off n k : (Z.of_nat k < n) -> fread L x off n !! k = Some (fbyte L x (off + Z.of_nat k)).
Proof. intros H. unfold fread. rewrite list_lookup_fmap, lookup_seqZ_lt by lia. simpl. do 2 f_equal. Qed.

Lemma fread_app L x off n m : 0 <= n -> 0 <= m -> fread L x off (n + m) = fread L x off n ++ fread L x (off + n) m.
Proof.
  intros Hn Hm. unfold fread. rewrite seqZ_app, fmap_app by lia. f_equal.
  replace (0 + n) with (n + 0) by lia. rewrite <- fmap_add_seqZ, <- list_fmap_compose. apply list_fmap_ext.
  intros i k _. simpl. f_equal. lia.
Qed.

(** Part of one block. *)
Lemma fread_block L x off m : 0 <= off -> 0 <= m -> off mod BSIZE + m <= BSIZE -> length (fblk L x (off / BSIZE)) = bsize ->
  fread L x off m = slice (fblk L x (off / BSIZE)) (Z.to_nat (off mod BSIZE)) (Z.to_nat m).
Proof.
  intros Ho Hm Hb Hl. pose proof (Z.mod_pos_bound off BSIZE ltac:(done)) as Hr. unfold BSIZE, bsize in *.
  apply list_eq. intros k. destruct (decide (Z.of_nat k < m)) as [Hk|Hk].
  - rewrite lookup_fread, lookup_slice by lia. unfold fbyte. unfold BSIZE.
    pose proof (Z.div_mod off 1024 ltac:(done)) as Hd.
    assert ((off + Z.of_nat k) / 1024 = off / 1024) as ->.
    { symmetry. apply (Z.div_unique _ _ _ (off mod 1024 + Z.of_nat k)); [left|]; lia. }
    assert ((off + Z.of_nat k) mod 1024 = off mod 1024 + Z.of_nat k) as ->.
    { symmetry. apply (Z.mod_unique _ _ (off / 1024)); [left|]; lia. }
    replace (Z.to_nat (off mod 1024 + Z.of_nat k)) with (Z.to_nat (off mod 1024) + k)%nat by lia.
    destruct (lookup_lt_is_Some_2 (fblk L x (off / 1024)) (Z.to_nat (off mod 1024) + k)) as [b ->]; [lia|done].
  - rewrite !lookup_ge_None_2; [done|rewrite length_slice; lia|rewrite length_fread; lia].
Qed.

Section files.
Context {B : Type} {logstart nlog : Z} (v : superblock).
Context (Hv : layout (logstart := logstart) (nlog := nlog) v) (nlog_pos : 0 < nlog).
Implicit Types (a : acache B) (x : dinode).

(** A block in use that is neither part of the file nor of the bitmap. *)
Record foreign (L : Z -> list Z) x (n : Z) : Prop := {
  fg_range : 0 < n < sb_size v;
  fg_used : used v L n = true;
  fg_bitmap : ~ bitmap_block v n;
  fg_ind : n <> addr_at x NDIRECT;
  fg_blk i : 0 <= i < MAXFILE -> n <> baddr L x i
}.

(** A file before and after an operation on it. *)
Record evolves (k c : nat) a x a' x' : Prop := {
  ev_wf : file_wf v (logical a') x';
  ev_addr i : 0 <= i < MAXFILE -> baddr (logical a) x i <> 0 -> baddr (logical a') x' i = baddr (logical a) x i;
  ev_foreign n : foreign (logical a) x n -> foreign (logical a') x' n /\ logical a' n = logical a n;
  ev_used n : 0 <= n < sb_size v -> used v (logical a) n = true -> used v (logical a') n = true;
  ev_meta : x' = with_addrs (di_addrs x') x;
  ev_held : held a' = held a;
  ev_disk n : on_disk a' n = on_disk a n;
  ev_pinned : pinned a ⊆ pinned a' /\ (size (pinned a') <= size (pinned a) + k)%nat;
  ev_free : (nfree v (logical a) <= nfree v (logical a') + c)%nat
}.

Lemma grows_evolves k c a x a' x' : file_wf v (logical a) x -> grows v k c a x a' x' -> evolves k c a x a' x'.
Proof.
  intros W G. pose proof G as [G1 G2 G3 G4 G5 G6 G7 G8 G9 G10 G11 G12]. split; try done.
  intros n [F1 F2 F3 F4 F5]. split; [|apply G6; (done || lia)]. split; try done.
  - apply G7; (done || lia).
  - destruct G5 as [->|[_ E]]; [done|]. intros ->. congruence.
  - intros i Hi E. destruct (decide (baddr (logical a) x i = 0)) as [Ez|Ez].
    + destruct (G4 i Hi Ez) as [E'|E']; [lia|congruence].
    + rewrite (G3 i Hi Ez) in E. by destruct (F5 i Hi).
Qed.

Lemma file_evolves_refl a x : file_wf v (logical a) x -> evolves 0 0 a x a x.
Proof. intros W. by apply grows_evolves, grows_refl. Qed.

Lemma file_evolves_trans k1 c1 k2 c2 a1 x1 a2 x2 a3 x3 :
  evolves k1 c1 a1 x1 a2 x2 -> evolves k2 c2 a2 x2 a3 x3 -> evolves (k1 + k2) (c1 + c2) a1 x1 a3 x3.
Proof.
  intros E1 E2. split.
  - apply E2.
  - intros i Hi Hn. pose proof (ev_addr _ _ _ _ _ _ E1 i Hi Hn) as E. rewrite <- E. apply (ev_addr _ _ _ _ _ _ E2); [done|congruence].
  - intros n Hn. destruct (ev_foreign _ _ _ _ _ _ E1 n Hn) as [F1 <-]. apply (ev_foreign _ _ _ _ _ _ E2 n F1).
  - intros n Hn Hu. by apply (ev_used _ _ _ _ _ _ E2), (ev_used _ _ _ _ _ _ E1).
  - rewrite (ev_meta _ _ _ _ _ _ E2), (ev_meta _ _ _ _ _ _ E1). done.
  - rewrite (ev_held _ _ _ _ _ _ E2). apply E1.
  - intros n. rewrite (ev_disk _ _ _ _ _ _ E2). apply E1.
  - destruct (ev_pinned _ _ _ _ _ _ E1), (ev_pinned _ _ _ _ _ _ E2). split; [by etransitivity|lia].
  - pose proof (ev_free _ _ _ _ _ _ E1). pose proof (ev_free _ _ _ _ _ _ E2). lia.
Qed.

Lemma evolves_le k c k' c' a x a' x' : (k <= k')%nat -> (c <= c')%nat -> evolves k c a x a' x' -> evolves k' c' a x a' x'.
Proof. intros Hk Hc [G1 G2 G3 G4 G5 G6 G7 [G8 G9] G10]. split; try done; [split; [done|lia]|lia]. Qed.

(** A change of a block that is neither of the bitmap nor the indirect block. *)
Lemma baddr_other L x m d i : m <> addr_at x NDIRECT \/ addr_at x NDIRECT = 0 -> baddr (<[m := d]> L) x i = baddr L x i.
Proof.
  intros Hm. unfold baddr. destruct (i <? NDIRECT); [done|]. destruct (Z.eqb_spec (addr_at x NDIRECT) 0); [done|].
  rewrite fn_lookup_insert_ne; [done|]. destruct Hm; congruence.
Qed.

Lemma used_not_bitmap L m d b : ~ bitmap_block v m -> 0 <= b < sb_size v -> used v (<[m := d]> L) b = used v L b.
Proof.
  intros Hm Hb. unfold used. rewrite fn_lookup_insert_ne; [done|]. intros ->. destruct Hm.
  destruct (BBLOCK_eq v Hv nlog_pos b Hb). unfold bitmap_block. lia.
Qed.

Lemma file_wf_other L x m d : file_wf v L x -> ~ bitmap_block v m -> m <> addr_at x NDIRECT \/ addr_at x NDIRECT = 0 -> file_wf v (<[m := d]> L) x.
Proof.
  intros W Hb Hm. assert (forall i, baddr (<[m := d]> L) x i = baddr L x i) as E by (intros; by apply baddr_other).
  assert (forall n, data_block v n -> used v (<[m := d]> L) n = used v L n) as U.
  { intros n Hn. apply used_not_bitmap; [done|]. by apply (data_range v Hv). }
  destruct W as [W1 W2 W3 W4 W5]. split; [done|..].
  - intros i Hi Hnz. rewrite E in *. destruct (W2 i Hi Hnz). by rewrite U.
  - intros Hnz. destruct (W3 Hnz). by rewrite U.
  - intros i j Hi Hj. rewrite !E. by apply W4.
  - intros i Hi. rewrite E. by apply W5.
Qed.

Lemma nfree_not_bitmap L m d : ~ bitmap_block v m -> nfree v (<[m := d]> L) = nfree v L.
Proof.
  intros Hm. unfold nfree. f_equal. apply filter_ext_in. intros b Hb. apply elem_of_seqZ in Hb. by rewrite used_not_bitmap by (done || lia).
Qed.

(** ** Writing a block of the file *)
Lemma block_write a x bn d : file_wf v (logical a) x -> 0 <= bn < MAXFILE -> baddr (logical a) x bn <> 0 ->
  let a' := a_update (baddr (logical a) x bn) d a in
  evolves 1 0 a x a' x /\
  forall i, 0 <= i < MAXFILE -> fblk (logical a') x i = if decide (i = bn) then d else fblk (logical a) x i.
Proof.
  intros W Hbn Hp a'. set (p := baddr (logical a) x bn) in *. pose proof W as [W1 W2 W3 W4 W5].
  destruct (W2 bn Hbn Hp) as [Dp Up]. fold p in Dp, Up. pose proof (W5 bn Hbn Hp) as Sp. fold p in Sp.
  assert (~ bitmap_block v p) as Bp by by apply (data_not_bitmap_block v Hv).
  assert (forall i, baddr (logical a') x i = baddr (logical a) x i) as E by (intros; apply baddr_other; by left).
  assert (forall m, logical a' m = if decide (m = p) then d else logical a m) as EL by (intros; apply logical_update).
  split.
  - split; try done.
    + apply file_wf_other; [done|done|by left].
    + intros n [F1 F2 F3 F4 F5]. assert (n <> p) by by apply F5. split; [|rewrite EL; by rewrite decide_False].
      split; try done; [rewrite <- F2; apply used_not_bitmap; (done || lia)|]. intros i Hi. rewrite E. by apply F5.
    + intros n Hn Hu. rewrite <- Hu. by apply used_not_bitmap.
    + by destruct x.
    + split; [simpl; set_solver|]. pose proof (size_pin p (pinned a)). simpl. lia.
    + pose proof (nfree_not_bitmap (logical a) p d Bp) as En. change (nfree v (logical a') = nfree v (logical a)) in En. lia.
  - intros i Hi. unfold fblk. rewrite E. destruct (Z.eqb_spec (baddr (logical a) x i) 0) as [Ez|Ez].
    + case_decide; [|done]. subst i. by destruct Hp.
    + rewrite EL. case_decide as E1; case_decide as E2; try done; [|by subst i; destruct E1]. destruct E2. by apply W4.
Qed.

Lemma fbyte_write L x L' x' bn o bytes off : 0 <= off -> bn = off / BSIZE -> o = Z.to_nat (off mod BSIZE) ->
  0 <= bn < MAXFILE -> length (fblk L x bn) = bsize -> off mod BSIZE + Z.of_nat (length bytes) <= BSIZE ->
  (forall i, 0 <= i < MAXFILE -> fblk L' x' i = if decide (i = bn) then splice (fblk L x bn) o bytes else fblk L x i) ->
  forall z, 0 <= z < MAXBYTES -> fbyte L' x' z =
    if decide (off <= z < off + Z.of_nat (length bytes)) then default 0 (bytes !! Z.to_nat (z - off)) else fbyte L x z.
Proof.
  intros Ho -> -> Hbn Hl Hb HF z Hz. unfold fbyte. rewrite HF by by apply file_block_index.
  pose proof (Z.mod_pos_bound off BSIZE ltac:(done)). pose proof (Z.mod_pos_bound z BSIZE ltac:(done)).
  pose proof (Z.div_mod off BSIZE ltac:(done)). pose proof (Z.div_mod z BSIZE ltac:(done)). unfold BSIZE, bsize in *.
  destruct (decide (z / 1024 = off / 1024)) as [E|E].
  - rewrite lookup_splice by lia. rewrite E in *. case_decide; case_decide; try lia. do 2 f_equal. lia.
  - rewrite decide_False; [done|]. intros Hin. destruct E. symmetry. apply (Z.div_unique _ _ _ (off mod 1024 + (z - off))); [left|]; lia.
Qed.

(** ** The block of an inode *)
Lemma IBLOCK_range inum : 0 <= inum < sb_ninodes v -> let m := IBLOCK inum v in
  0 < m < data_start v /\ m < sb_bmapstart v /\ ~ (logstart <= m < logstart + nlog) /\ m < 2 ^ 31.
Proof.
  intros Hi. pose proof Hv as [H1 H2 H3 H4 [H5 H6] H7].
  assert (0 <= inum / IPB) by (apply Z.div_pos; [lia|done]).
  assert (inum / IPB <= sb_ninodes v / IPB) by (apply Z.div_le_mono; [done|lia]).
  assert (0 <= sb_size v / BPB) by (apply Z.div_pos; [lia|done]).
  unfold IBLOCK. rewrite u32_id by lia. lia.
Qed.

Lemma inode_slot inum : (Z.to_nat (inum mod IPB) < 16)%nat.
Proof. pose proof (Z.mod_pos_bound inum IPB ltac:(done)). change IPB with 16 in *. lia. Qed.

Lemma inode_block_other inum : 0 <= inum < sb_ninodes v -> ~ bitmap_block v (IBLOCK inum v) /\ ~ data_block v (IBLOCK inum v).
Proof. intros Hi. destruct (IBLOCK_range inum Hi) as (H1 & H2 & _). unfold bitmap_block, data_block. lia. Qed.

(** Updating an inode block leaves the blocks of files alone. *)
Lemma inode_block_write a x inum d : file_wf v (logical a) x -> 0 <= inum < sb_ninodes v ->
  let m := IBLOCK inum v in let a' := a_update m d a in
  file_wf v (logical a') x /\ (forall i, baddr (logical a') x i = baddr (logical a) x i) /\
  (forall i, 0 <= i < MAXFILE -> fblk (logical a') x i = fblk (logical a) x i) /\
  (forall b, 0 <= b < sb_size v -> used v (logical a') b = used v (logical a) b) /\
  nfree v (logical a') = nfree v (logical a).
Proof.
  intros W Hi m a'. destruct (inode_block_other inum Hi) as [Hb Hd]. fold m in Hb, Hd.
  assert (m <> addr_at x NDIRECT \/ addr_at x NDIRECT = 0) as Hm.
  { destruct (decide (addr_at x NDIRECT = 0)) as [|E]; [by right|left]. intros Em. destruct Hd. rewrite Em. apply (fw_ind _ _ _ W E). }
  assert (forall i, baddr (logical a') x i = baddr (logical a) x i) as EB by (intros; by apply baddr_other).
  split; [by apply file_wf_other|]. split; [done|]. split; [|split].
  - intros i Hi'. unfold fblk. rewrite EB. destruct (Z.eqb_spec (baddr (logical a) x i) 0) as [|E]; [done|].
    subst a'. rewrite logical_update, decide_False; [done|]. intros Em. destruct Hd. rewrite <- Em. by apply (fw_data _ _ _ W).
  - intros b Hb'. by apply used_not_bitmap.
  - by apply nfree_not_bitmap.
Qed.
End files.

Section inodes.
Context {T B : Type} {dev logstart nlog : Z} `{TS : !TxnStore T B dev logstart nlog}.
Context (nlog_fits : nlog <= NBUF) (nlog_pos : 0 < nlog).
Context (v : superblock) (Hv : layout (logstart := logstart) (nlog := nlog) v).
Implicit Types (s : @fss T) (a : acache B).

Definition a_iupdate (i : inode) a : acache B :=
  let m := IBLOCK (i_inum i) v in
  a_update m (put_dinode (logical a m) (Z.to_nat (i_inum i mod IPB)) (i_di i)) a.

Lemma iupdate_ok s a ip i q : file_ok v s a ip i (dev := dev) -> 0 <= i_inum i < sb_ninodes v -> can_log (nlog := nlog) q a -> 1 <= q ->
  wp (iupdate ip s) (fun _ s' => fsame s s' /\ frep s' (a_iupdate i a)).
Proof.
  intros [H1 H2 H3 H4 H5 H6 H7] Hi Hq Hq1. destruct (IBLOCK_range v Hv nlog_pos (i_inum i) Hi) as (R1 & R2 & R3 & R4).
  unfold iupdate, ino, sb. ksteps. rewrite (ino_ok _ _ _ H5), H1, H6. set (m := IBLOCK (i_inum i) v) in *.
  assert (held a !! m = None) as Hh by (rewrite H3; apply lookup_empty).
  eapply wp_mono; [|apply (f_bread_ok nlog_fits s a m q); try done; [unfold is_u32; lia|rewrite H3, map_size_empty; lia]].
  intros b s1 [S1 Hr1]. unfold f_data. kstep. kstep. rewrite (f_data_ok _ _ _ _ Hr1 (f_held_hold _ _ _)). cbn [logical a_hold].
  eapply wp_mono; [|apply (write_back nlog_fits s1 a m b (put_dinode (logical a m) (Z.to_nat (i_inum i mod IPB)) (i_di i)) q); try done; [|lia]].
  - intros _ s2 [S2 Hr2]. split; [by etransitivity|exact Hr2].
  - apply block_ok_put_dinode; [by eapply frep_blocks|apply H7|apply inode_slot].
Qed.

(** ** readi *)

(** Steps that may also change user memory. *)
Record fuser s s' : Prop := {
  fu_env : ustep (f_env s) (f_env s');
  fu_ic : f_ic s' = f_ic s;
  fu_sb : f_sb s' = f_sb s;
  fu_cwd : f_cwd s' = f_cwd s
}.

#[export] Instance fuser_refl : Reflexive fuser.
Proof. by split. Qed.
#[export] Instance fuser_trans : Transitive fuser.
Proof. intros s1 s2 s3 [] []. split; [by etransitivity|congruence..]. Qed.

Lemma fsame_fuser s s' : fsame s s' -> fuser s s'.
Proof. intros [[] ?]. split; try done. by apply estep_ustep. Qed.

Lemma file_ok_fuser s s' a ip i : file_ok v s a ip i (dev := dev) -> fuser s s' -> frep s' a -> file_ok v s' a ip i (dev := dev).
Proof. intros [H1 H2 H3 H4 H5 H6 H7] [E1 E2 E3 E4] Hr. split; try done; [congruence|]. unfold ino_at. by rewrite E2. Qed.

Lemma frep_ustep s a e : frep s a -> ustep (f_env s) e -> frep (over fE e s) a.
Proof.
  intros [Hc Hr] (c & m & Hst & ->). split.
  - unfold fctx. cbn [over fE f_env]. rewrite view_over. by eapply cx_ok_step.
  - cbn [over fE f_env f_t envC ue_pid]. by rewrite (cx_same_pid _ _ Hst).
Qed.

Section readi.
Context (s0 : @fss T) (a : acache B) (ip : nat) (i : inode) (off n : Z) (dst0 : option Z).
Context (Hok : file_ok v s0 a ip i (dev := dev)) (Hfull : full (logical a) (i_di i)) (Hlog : can_log (nlog := nlog) 1 a).
Context (Hoff : 0 <= off) (Hn : 0 <= n) (Hsize : off + n <= di_size (i_di i)).
Context (Hdst : forall va, dst0 = Some va -> 0 <= va < 2 ^ 64).
Let L := logical a.
Let x := i_di i.

(** What the copies do: [J t e acc] after [t] bytes, [F] after a failure. *)
Context (J : Z -> uenv -> list Z -> Prop) (F : uenv -> list Z -> Prop).
Context (J_step : forall t e e' acc, J t e acc -> estep e e' -> J t e' acc).
Context (F_step : forall e e' acc, F e acc -> estep e e' -> F e' acc).
Context (J_copy : forall t m e acc, J t e acc -> cx_ok (view envC e) -> 0 <= t -> 0 < m -> t + m <= n ->
  wp (either_copyout ((fun va => u64 (va + t)) <$> dst0) (fread L x (off + t) m) m e)
     (fun r e' => ustep e e' /\ if r.1 =? -1 then F e' acc else J (t + m) e' (acc ++ r.2))).

Definition readi_post (r : Z * list Z) s' : Prop :=
  fuser s0 s' /\ frep s' a /\ (r.1 = n /\ J n (f_env s') r.2 \/ r.1 = -1 /\ F (f_env s') r.2).

Lemma full_block t : 0 <= t < n -> let bn := (off + t) / BSIZE in
  0 <= bn < MAXFILE /\ baddr L x bn <> 0 /\ length (fblk L x bn) = bsize.
Proof.
  intros Ht bn. destruct Hfull as [Hmax Hf]. assert (0 <= bn < MAXFILE) as Hbn by (apply file_block_index; lia).
  split; [done|]. split; [|unfold fblk; destruct (_ =? 0); [apply zero_block_ok|]; apply (frep_blocks s0 a), Hok].
  apply Hf; [lia|]. pose proof (Z.mul_div_le (off + t) BSIZE ltac:(done)). subst bn. lia.
Qed.

(** The round that reads the part of one block at offset [off + t]. *)
Lemma readi_round t acc s (m := Z.min (n - t) (BSIZE - (off + t) mod BSIZE)) :
  fuser s0 s -> frep s a -> J t (f_env s) acc -> 0 <= t < n ->
  wp ((addr <- bmap ip ((off + t) / BSIZE);;
       bp <- f_bread dev addr;;
       data <- f_data bp;;
       r <- zoom fE (either_copyout ((fun va => u64 (va + t)) <$> dst0) (slice data (Z.to_nat ((off + t) mod BSIZE)) (Z.to_nat m)) m);;
       if r.1 =? -1 then f_brelse bp;; ret (inr (-1, acc))
       else f_brelse bp;; ret (inl (u32 (t + m), u32 (off + t + m), (fun va => u64 (va + m)) <$> ((fun va => u64 (va + t)) <$> dst0), acc ++ r.2))) s)
   (fun r s' => match r with
     | inl q => exists acc', q = (u32 (t + m), u32 (off + t + m), (fun va => u64 (va + m)) <$> ((fun va => u64 (va + t)) <$> dst0), acc') /\
                fuser s0 s' /\ frep s' a /\ J (t + m) (f_env s') acc' /\ 0 < m /\ t + m <= n
     | inr q => readi_post q s' end).
Proof.
  intros Hs Hr HJ Ht. destruct (full_block t Ht) as (Hbn & Hnz & Hlen). set (bn := (off + t) / BSIZE) in *.
  pose proof (Z.mod_pos_bound (off + t) BSIZE ltac:(done)) as Hmod. assert (0 < m /\ t + m <= n) as [Hm Htm] by lia.
  pose proof (file_ok_fuser _ _ _ _ _ Hok Hs Hr) as Hok1. pose proof Hok as [_ _ Hheld _ _ _ Hwf].
  destruct (fw_data _ _ _ Hwf bn Hbn Hnz) as [Dp _]. set (p := baddr L x bn) in *.
  destruct (data_block_range v Hv nlog_pos p Dp) as (_ & _ & Up).
  assert (held a !! p = None) as Hh by (rewrite Hheld; apply lookup_empty).
  kstep. eapply wp_mono; [|by apply (bmap_there nlog_fits nlog_pos v Hv s a ip i bn)]. intros _ s1 (-> & S1 & R1). fold L x p.
  kstep. eapply wp_mono; [|apply (f_bread_ok nlog_fits s1 a p 1); try done; rewrite Hheld, map_size_empty; lia].
  intros bp s2 [S2 R2]. unfold f_data. kstep. kstep. rewrite (f_data_ok _ _ _ _ R2 (f_held_hold _ _ _)). cbn [logical a_hold].
  assert (fblk L x bn = logical a p) as Eb by (unfold fblk; fold p; by destruct (Z.eqb_spec p 0)).
  rewrite <- Eb. assert (slice (fblk L x bn) (Z.to_nat ((off + t) mod BSIZE)) (Z.to_nat m) = fread L x (off + t) m) as ->.
  { symmetry. apply fread_block; [lia|lia|lia|done]. }
  kstep. apply wp_zoom. cbn [view fE].
  assert (estep (f_env s) (f_env s2)) as Est by (etransitivity; [apply S1|apply S2]).
  eapply wp_mono; [|apply (J_copy t m (f_env s2) acc); [by eapply J_step|apply R2|lia|done|done]].
  intros r e' [Hu HF]. pose proof (frep_ustep s2 _ e' R2 Hu) as R3. set (s3 := over fE e' s2) in *.
  assert (fuser s0 s3) as S3.
  { etransitivity; [exact Hs|]. etransitivity; [apply fsame_fuser; etransitivity; [exact S1|exact S2]|]. by split. }
  assert (forall s4, fsame s3 s4 -> fuser s0 s4 /\ estep e' (f_env s4)) as Hend.
  { intros s4 S4. split; [etransitivity; [exact S3|by apply fsame_fuser]|apply S4]. }
  destruct (r.1 =? -1); kstep; (eapply wp_mono; [|apply (release_clean s3 a p bp R3 Hh); eapply (frep_clean s1); done]);
    intros _ s4 [S4 R4]; destruct (Hend s4 S4) as [S5 S6]; kstep.
  - split; [done|]. split; [done|]. right. split; [done|]. by eapply F_step.
  - exists (acc ++ r.2). split_and!; try done. by eapply J_step.
Qed.

Lemma advance_dst t m : 0 <= t -> (fun va => u64 (va + m)) <$> ((fun va => u64 (va + t)) <$> dst0) = (fun va => u64 (va + (t + m))) <$> dst0.
Proof.
  intros Ht. destruct dst0 as [va|]; simpl; [|done]. f_equal. unfold u64. rewrite Zplus_mod_idemp_l. f_equal. lia.
Qed.

Lemma readi_run n0 : n0 <= 2 ^ 32 - 1 - off -> n = Z.min n0 (di_size (i_di i) - off) -> J 0 (f_env s0) [] ->
  wp (readi ip dst0 off n0 s0) readi_post.
Proof.
  intros Hn0 En HJ0. pose proof Hok as [_ Hr _ _ Hino Hdev _]. destruct Hfull as [Hmax _]. change MAXBYTES with 274432 in Hmax.
  unfold readi, ino. kstep. kstep. rewrite (ino_ok _ _ _ Hino), Hdev. rewrite !(u32_id (off + n0)) by lia.
  destruct (Z.ltb_spec (di_size (i_di i)) off); [lia|]. destruct (Z.ltb_spec (off + n0) off); [lia|]. cbn [orb].
  replace (if _ <? _ then u32 (di_size (i_di i) - off) else n0) with n.
  2:{ destruct (Z.ltb_spec (di_size (i_di i)) (off + n0)); [rewrite u32_id by lia|]; lia. }
  apply (wp_while _ (fun '(t, o, d, acc) s => 0 <= t <= n /\ o = off + t /\ d = ((fun va => u64 (va + t)) <$> dst0) /\
    fuser s0 s /\ frep s a /\ J t (f_env s) acc) (fun '(t, _, _, _) => n - t)).
  - intros [[[t o] d] acc] s (Ht & -> & -> & Hs & Hrs & HJ). destruct (Z.ltb_spec t n) as [Hlt|Hge]; cbn [negb].
    + eapply wp_mono; [|apply (readi_round t acc s Hs Hrs HJ); lia]. intros [q|q] s'; [|done].
      intros (acc' & -> & Hs' & Hr' & HJ' & Hm & Hle). set (m := Z.min _ _) in *. rewrite !u32_id by lia.
      split; [|lia]. split; [lia|]. split; [lia|]. split; [apply advance_dst; lia|]. done.
    + kstep. split; [done|]. split; [done|]. left. replace t with n in * by lia. split; [|done]. cbn [fst].
      unfold s32. rewrite Z.mod_small by lia. lia.
  - intros [[[t o] d] acc] s (Ht & _). lia.
  - split; [lia|]. split; [lia|]. split; [|done]. destruct dst0 as [va|]; [|done]. simpl. f_equal. rewrite Z.add_0_r. unfold u64.
    rewrite Z.mod_small; [done|]. by apply Hdst.
  - unfold budget. lia.
Qed.
End readi.

(** A read into a kernel buffer returns the bytes of the file. *)
Lemma readi_kernel s a ip i off n0 (n := Z.min n0 (di_size (i_di i) - off)) :
  file_ok v s a ip i (dev := dev) -> full (logical a) (i_di i) -> can_log (nlog := nlog) 1 a ->
  0 <= off <= di_size (i_di i) -> 0 <= n0 <= 2 ^ 32 - 1 - off ->
  wp (readi ip None off n0 s) (fun r s' => r = (n, fread (logical a) (i_di i) off n) /\ fsame s s' /\ frep s' a).
Proof.
  intros Hok Hf Hl Hoff Hn0.
  eapply wp_mono; [|apply (readi_run s a ip i off n None Hok Hf Hl) with (n0 := n0)
    (J := fun t e acc => estep (f_env s) e /\ acc = fread (logical a) (i_di i) off t) (F := fun _ _ => False)].
  - intros [r acc] s' ([S1 S2 S3 S4] & R & [[Er [HJ Eacc]]|[_ []]]). simpl in Er, Eacc. split; [by subst|]. split; [|done]. split; [|done]. by split.
  - lia.
  - subst n. lia.
  - subst n. lia.
  - done.
  - intros t e e' acc [H1 H2] H3. split; [by etransitivity|done].
  - done.
  - intros t m e acc [H1 H2] Hc Ht Hm Htm. eapply wp_mono; [|apply (either_copyout_kernel e _ m Hc)].
    intros r e' [S' ->]. cbn [fst snd]. split; [by apply estep_ustep|]. change (0 =? -1) with false. cbv iota. split; [by etransitivity|].
    rewrite H2, take_ge by (rewrite length_fread; lia). symmetry. apply fread_app; lia.
  - lia.
  - done.
  - by split.
Qed.

(** User memory with the first [k] of the bytes [off, ..) of a file at [va]. *)
Definition holds_file (L : Z -> list Z) (x : dinode) (off va k : Z) (e e' : uenv) : Prop :=
  forall va', 0 <= va' -> ubyte e' va' = if decide (va <= va' < va + k) then Some (fbyte L x (off + (va' - va))) else ubyte e va'.

Section readi_user.
Context (kend : Z) (kend_range : 0 < kend <= PHYSTOP).

Lemma fblk_byte a x o : (forall n, block_ok (logical a n)) -> is_byte (fbyte (logical a) x o).
Proof.
  intros Hb. unfold fbyte. assert (Forall is_byte (fblk (logical a) x (o / BSIZE))) as H.
  { unfold fblk. destruct (_ =? 0); [apply zero_block_ok|apply Hb]. }
  rewrite Forall_lookup in H. destruct (_ !! _) eqn:E; simpl; [by eapply H|unfold is_byte; lia].
Qed.

Lemma fread_bytes a x off m : (forall n, block_ok (logical a n)) -> Forall is_byte (fread (logical a) x off m).
Proof. intros Hb. unfold fread. apply Forall_fmap, Forall_true. intros k. by apply fblk_byte. Qed.

(** A read into user memory stores a prefix of the bytes of the file, all of
    them unless part of the destination is not mapped. *)
Lemma readi_user s a ip i off n0 va l (n := Z.min n0 (di_size (i_di i) - off)) :
  file_ok v s a ip i (dev := dev) -> full (logical a) (i_di i) -> can_log (nlog := nlog) 1 a ->
  0 <= off <= di_size (i_di i) -> 0 <= n0 <= 2 ^ 32 - 1 - off -> env_ok kend (f_env s) l -> 0 <= va -> va + n < 2 ^ 64 ->
  wp (readi ip (Some va) off n0 s) (fun r s' => fuser s s' /\ frep s' a /\ env_ok kend (f_env s') l /\
    exists k, 0 <= k <= n /\ holds_file (logical a) (i_di i) off va k (f_env s) (f_env s') /\
      (r.1 = n /\ k = n \/ r.1 = -1 /\ uread (f_env s) va (Z.to_nat n) = None)).
Proof.
  intros Hok Hf Hl Hoff Hn0 He Hva Hva2. pose proof Hok as [_ Hr _ _ _ _ _]. pose proof (fun m => frep_blocks s a m Hr) as Hblk.
  assert (0 <= n) as Hn by (subst n; lia).
  eapply wp_mono; [|apply (readi_run s a ip i off n (Some va) Hok Hf Hl) with (n0 := n0)
    (J := fun t e _ => env_ok kend e l /\ holds_file (logical a) (i_di i) off va t (f_env s) e)
    (F := fun e _ => env_ok kend e l /\ uread (f_env s) va (Z.to_nat n) = None /\
                     exists k, 0 <= k <= n /\ holds_file (logical a) (i_di i) off va k (f_env s) e)]; try done || lia.
  - intros [r acc] s' (S' & R & [[Er [HJ Eacc]]|[Er (HJ & Hn' & k & Hk & Hm)]]); simpl in Er; split_and!; try done.
    + exists n. split; [lia|]. split; [done|]. by left.
    + exists k. split; [lia|]. split; [done|]. by right.
  - intros va' [= <-]. lia.
  - intros t e e' acc [H1 H2] H3. split; [by eapply estep_env_ok|]. intros va' Hva'. destruct (estep_user _ _ H3) as [_ ->]. by apply H2.
  - intros e e' acc (H1 & H2 & k & Hk & H3) H4. split; [by eapply estep_env_ok|]. split; [done|]. exists k. split; [done|].
    intros va' Hva'. destruct (estep_user _ _ H4) as [_ ->]. by apply H3.
  - intros t m e acc [H1 H2] Hc Ht Hm Htm. cbn [fmap option_fmap option_map]. unfold u64. rewrite Z.mod_small by lia.
    assert (Z.of_nat (length (fread (logical a) (i_di i) (off + t) m)) = m) as Elen by (rewrite length_fread; lia).
    rewrite <- Elen at 2. eapply wp_mono; [|apply (either_copyout_user kend e l (va + t)); [done|done|lia|by apply fread_bytes]].
    intros r e' (O' & U' & _ & k & Hk & Hmem & Hres). rewrite length_fread in Hk, Hres.
    assert (holds_file (logical a) (i_di i) off va (t + Z.of_nat k) (f_env s) e') as HJ'.
    { intros va' Hva'. rewrite Hmem, H2 by done. case_decide as E1.
      - rewrite decide_True by lia. rewrite lookup_fread by lia. do 2 f_equal. lia.
      - repeat case_decide; (done || lia). }
    split; [done|]. destruct Hres as [[-> ->]|[-> Hnone]].
    + change (0 =? -1) with false. cbv iota. split; [done|]. by replace (t + m) with (t + Z.of_nat (Z.to_nat m)) by lia.
    + change (-1 =? -1) with true. cbv iota. split; [done|]. split; [|exists (t + Z.of_nat k); split; [lia|done]].
      apply uread_None in Hnone as (j & Hj & E). apply uread_None. exists (Z.to_nat t + j)%nat. split; [lia|].
      rewrite H2, decide_False in E by lia. by replace (va + Z.of_nat (Z.to_nat t + j)) with (va + t + Z.of_nat j) by lia.
  - split; [done|]. intros va' Hva'. by rewrite decide_False by lia.
Qed.
End readi_user.
End inodes.
