(* ===== verification/FsWrite.v ===== *)
(** * kernel/fs.c: writei

    [writei] replaces the bytes [off, off+n) of a file, allocating blocks as it
    goes, extends the size, and writes the inode back; every block of the disk
    that is not part of the file, of the bitmap or the inode's block keeps its
    contents. *)
From S2P Require Import Prelude Machine KString Spinlock Kalloc Vm UserMem Block Env Log Txn Fs FsBlock FsFile FsInode.
Local Open Scope Z_scope.
Local Open Scope kernel_scope.

(** The number of blocks the bytes [off, off+n) touch. *)
Definition nblk (off n : Z) : Z := (off + n + BSIZE - 1) / BSIZE - off / BSIZE.

Lemma advance_src t m src : 0 <= t -> 0 <= m -> advance m (src_at t src) = src_at (t + m) src.
Proof.
  intros Ht Hm. destruct src as [va|l]; cbn [advance src_at]; f_equal.
  - unfold u64. rewrite Zplus_mod_idemp_l. f_equal. lia.
  - rewrite drop_drop. f_equal. lia.
Qed.

(** The addresses of a file fit the disk inode. *)
Lemma file_addrs_u32 {logstart nlog} v L x : layout (logstart := logstart) (nlog := nlog) v -> file_wf v L x -> Forall is_u32 (di_addrs x).
Proof.
  intros Hv W. apply Forall_lookup. intros k p Hk. assert (k < 13)%nat as Hlt by (rewrite <- (fw_addrs _ _ _ W); by eapply lookup_lt_Some).
  assert (addr_at x (Z.of_nat k) = p) as E by (unfold addr_at; by rewrite Nat2Z.id, Hk).
  destruct (decide (p = 0)) as [->|Hp]; [by unfold is_u32|].
  assert (data_block v p) as D.
  { destruct (decide (k = 12%nat)) as [->|]; [rewrite <- E; apply (fw_ind _ _ _ W); change NDIRECT with (Z.of_nat 12); congruence|].
    assert (baddr L x (Z.of_nat k) = p) as E' by (unfold baddr; destruct (Z.ltb_spec (Z.of_nat k) NDIRECT); [done|unfold NDIRECT in *; lia]).
    rewrite <- E'. apply (fw_data _ _ _ W); [change MAXFILE with 268; lia|congruence]. }
  unfold data_block, is_u32 in *. destruct Hv. lia.
Qed.

Section write.
Context {T B : Type} {dev logstart nlog : Z} `{TS : !TxnStore T B dev logstart nlog}.
Context (nlog_fits : nlog <= NBUF) (nlog_pos : 0 < nlog).
Context (v : superblock) (Hv : layout (logstart := logstart) (nlog := nlog) v).
Implicit Types (s : @fss T) (a : acache B).

Section loop.
Context (kend : Z) (kend_range : 0 < kend <= PHYSTOP).
Context (s0 : @fss T) (a0 : acache B) (ip : nat) (i : inode) (off n : Z) (src : Z + list Z) (bytes : list Z).
Let x0 := i_di i.
Context (Hok : file_ok v s0 a0 ip i (dev := dev)) (Hfull : full (logical a0) x0).
Context (Hoff : 0 <= off <= di_size x0) (Hn : 0 <= n) (Hmax : off + n <= MAXBYTES).
Context (Hsrc : src_ok kend (f_env s0) src) (Hbytes : src_read (f_env s0) src n = Some bytes).
Context (Hlen : Z.of_nat (length bytes) = n) (Hisb : Forall is_byte bytes).
Context (Hlog : can_log (nlog := nlog) (6 * nblk off n + 1) a0) (Hfree : 2 * nblk off n <= Z.of_nat (nfree v (logical a0))).

(** The file after [t] bytes, in [r] rounds. *)
Record written (t : Z) (r : nat) a x : Prop := {
  wr_ev : evolves v (6 * r) (2 * r) a0 x0 a x;
  wr_bytes z : 0 <= z < MAXBYTES -> fbyte (logical a) x z =
    if decide (off <= z < off + t) then default 0 (bytes !! Z.to_nat (z - off)) else fbyte (logical a0) x0 z;
  wr_full bn : 0 <= bn -> bn * BSIZE < Z.max (di_size x0) (off + t) -> baddr (logical a) x bn <> 0;
  wr_rounds : Z.of_nat r <= nblk off t;
  wr_aligned : t = 0 /\ r = O \/ t = n \/ (off + t) mod BSIZE = 0
}.

Lemma written_0 : written 0 0 a0 x0.
Proof.
  split.
  - apply file_evolves_refl, Hok.
  - intros z Hz. by rewrite decide_False by lia.
  - intros bn H1 H2. apply Hfull; lia.
  - unfold nblk. pose proof (Z.div_le_mono off (off + 0 + BSIZE - 1) BSIZE ltac:(done) ltac:(unfold BSIZE; lia)). lia.
  - by left.
Qed.

(** The state of the loop. *)
Definition loop_inv (t : Z) (r : nat) s : Prop := exists a x,
  fput ip (set_i_di x i) s0 s /\ frep s a /\ written t r a x.

Lemma loop_file_ok t r s a x : fput ip (set_i_di x i) s0 s -> frep s a -> written t r a x ->
  file_ok v s a ip (set_i_di x i) (dev := dev).
Proof.
  intros Hs Hr [E _ _ _ _]. destruct Hok as [H1 H2 H3 H4 H5 H6 H7]. split; try done.
  - by rewrite (fput_sb _ _ _ _ Hs).
  - by rewrite (ev_held _ _ _ _ _ _ _ E).
  - intros b Hb. apply (ev_used _ _ _ _ _ _ _ E); [|by apply H4]. destruct Hv. lia.
  - by apply (fput_at ip i _ s0).
  - apply E.
Qed.

(** One more block is needed and there is room for it. *)
Lemma round_bounds t r (m := Z.min (n - t) (BSIZE - (off + t) mod BSIZE)) :
  0 <= t < n -> Z.of_nat r <= nblk off t -> t = 0 /\ r = O \/ t = n \/ (off + t) mod BSIZE = 0 ->
  Z.of_nat r + 1 <= nblk off n /\ Z.of_nat (S r) <= nblk off (t + m) /\
  (t + m = n \/ (off + (t + m)) mod BSIZE = 0) /\ 0 < m /\ t + m <= n /\ (off + t) mod BSIZE + m <= BSIZE.
Proof.
  intros Ht Hr Hal. set (o := off + t) in *. pose proof (Z.mod_pos_bound o BSIZE ltac:(done)) as Hmod.
  pose proof (Z.div_mod o BSIZE ltac:(done)) as Hdiv.
  assert (Z.of_nat r <= o / BSIZE - off / BSIZE) as Hr'.
  { destruct Hal as [[-> ->]|[?|Hz]]; [subst o; rewrite Z.add_0_r; lia|lia|].
    unfold nblk in Hr. replace ((off + t + BSIZE - 1) / BSIZE) with (o / BSIZE) in Hr; [done|].
    apply (Z.div_unique _ _ _ (BSIZE - 1)); [left; unfold BSIZE; lia|]. subst o. lia. }
  assert (forall e, 0 < e -> o / BSIZE + 1 <= (o + e + BSIZE - 1) / BSIZE) as Hceil.
  { intros e He. replace (o + e + BSIZE - 1) with (o + (e - 1) + 1 * BSIZE) by lia. rewrite Z.div_add by done.
    pose proof (Z.div_le_mono o (o + (e - 1)) BSIZE ltac:(done) ltac:(lia)). lia. }
  assert (0 < m /\ t + m <= n) as [Hm Htm] by lia. split_and!; try lia.
  - unfold nblk. pose proof (Hceil (n - t) ltac:(lia)) as H. replace (o + (n - t)) with (off + n) in H by lia. lia.
  - unfold nblk. pose proof (Hceil m Hm) as H. replace (o + m) with (off + (t + m)) in H by lia. lia.
  - destruct (Z.min_spec (n - t) (BSIZE - o mod BSIZE)) as [[? E]|[? E]]; [left; lia|right].
    symmetry. apply (Z.mod_unique _ _ (o / BSIZE + 1)); [left; unfold BSIZE; lia|]. subst m. lia.
Qed.

(** The file after the part at offset [off + t] is stored in its block. *)
Lemma written_step t r a x a1 x1 (o := off + t) (bn := o / BSIZE) (m := Z.min (n - t) (BSIZE - o mod BSIZE))
    (p := baddr (logical a1) x1 bn) (part := slice bytes (Z.to_nat t) (Z.to_nat m)) :
  0 <= t < n -> written t r a x -> grows v 5 2 a x a1 x1 -> p <> 0 -> (forall k, block_ok (logical a1 k)) ->
  written (t + m) (S r) (a_update p (splice (logical a1 p) (Z.to_nat (o mod BSIZE)) part) a1) x1.
Proof.
  intros Ht W G Hp Hblk. pose proof W as [W1 W2 W3 W4 W5]. destruct (round_bounds t r Ht W4 W5) as (B1 & B2 & B3 & B4 & B5 & B6).
  fold o m in B2, B3, B4, B5, B6. assert (0 <= bn < MAXFILE) as Hbn by (apply file_block_index; lia).
  assert (fblk (logical a1) x1 bn = logical a1 p) as Ep by (unfold fblk; fold p; by destruct (Z.eqb_spec p 0)).
  pose proof (gr_wf _ _ _ _ _ _ _ G) as Wf1. destruct (block_write v Hv nlog_pos a1 x1 bn (splice (logical a1 p) (Z.to_nat (o mod BSIZE)) part) Wf1 Hbn Hp) as [Ev Eb].
  fold p in Ev, Eb. set (a2 := a_update p _ a1) in *. rewrite <- Ep in Eb.
  assert (length part = Z.to_nat m) as Hlp by (apply length_slice; lia).
  pose proof (grows_evolves v _ _ _ _ _ _ (ev_wf _ _ _ _ _ _ _ W1) G) as Ev1.
  assert (forall z, 0 <= z < MAXBYTES -> fbyte (logical a1) x1 z = fbyte (logical a) x z) as E1.
  { intros z Hz. unfold fbyte. by rewrite (gr_blk _ _ _ _ _ _ _ G) by by apply file_block_index. }
  split.
  - eapply evolves_le; [| |exact (file_evolves_trans v _ _ _ _ _ _ _ _ _ _ W1 (file_evolves_trans v _ _ _ _ _ _ _ _ _ _ Ev1 Ev))]; lia.
  - intros z Hz. rewrite (fbyte_write (logical a1) x1 (logical a2) x1 bn _ part o) by (done || lia || rewrite ?Ep; apply Hblk || rewrite Hlp; lia).
    rewrite E1, W2 by done. rewrite Hlp, Z2Nat.id by lia. case_decide as D1; [|repeat case_decide; (done || lia)].
    rewrite (decide_True (P := off <= z < off + (t + m))) by lia. unfold part. rewrite lookup_slice by lia. do 2 f_equal. lia.
  - intros b Hb Hlt. assert (0 <= b < MAXFILE) as Rb by (destruct Hfull as [Hm _]; unfold MAXBYTES, BSIZE in *; lia).
    assert (baddr (logical a1) x1 b <> 0) as Hnz; [|by rewrite (ev_addr _ _ _ _ _ _ _ Ev)].
    destruct (decide (b * BSIZE < Z.max (di_size x0) (off + t))) as [Hin|Hout].
    + pose proof (W3 b Hb Hin) as Hnz. by rewrite (gr_addr _ _ _ _ _ _ _ G).
    + assert (b = bn) as ->; [|done]. pose proof (Z.mod_pos_bound o BSIZE ltac:(done)). pose proof (Z.div_mod o BSIZE ltac:(done)).
      subst bn. unfold BSIZE in *. lia.
  - done.
  - by right.
Qed.

Lemma loop_round t r s (o := off + t) (m := Z.min (n - t) (BSIZE - o mod BSIZE)) : 0 <= t < n -> loop_inv t r s ->
  wp ((addr <- bmap ip (o / BSIZE);;
       bp <- f_bread dev addr;;
       c <- zoom fE (either_copyin (src_at t src) m);;
       data <- f_data bp;;
       f_store bp (splice data (Z.to_nat (o mod BSIZE)) c.2);;
       if c.1 =? -1 then f_brelse bp;; ret (inr (t, o))
       else f_log_write bp;; f_brelse bp;; ret (inl (u32 (t + m), u32 (o + m), advance m (src_at t src)))) s)
     (fun q s' => q = inl (u32 (t + m), u32 (o + m), advance m (src_at t src)) /\ loop_inv (t + m) (S r) s').
Proof.
  intros Ht (a & x & Hs & Hr & W). pose proof W as [W1 W2 W3 W4 W5].
  destruct (round_bounds t r Ht W4 W5) as (B1 & B2 & B3 & B4 & B5 & B6). fold o m in B2, B3, B4, B5, B6.
  set (bn := o / BSIZE). assert (0 <= bn < MAXFILE) as Hbn by (apply file_block_index; lia).
  pose proof (loop_file_ok t r s a x Hs Hr W) as Hok1.
  assert (can_log (nlog := nlog) 7 a) as Hlog1. { destruct (ev_pinned _ _ _ _ _ _ _ W1). unfold can_log in *. lia. }
  pose proof (ev_free _ _ _ _ _ _ _ W1) as Hfree1. set (h := hole (logical a) x bn).
  assert (h <= 1)%nat as Hh by (unfold h, hole; destruct (_ =? 0); lia).
  kstep. eapply wp_mono; [|apply (bmap_ok nlog_fits nlog_pos v Hv s a ip (set_i_di x i) bn 7 Hok1); cbn [i_di set_i_di]; fold h; (done || lia)].
  intros p s1 (a1 & x1 & S1 & R1 & G1 & -> & Hp). cbn [i_di set_i_di] in *. fold h in G1. set (p := baddr (logical a1) x1 bn) in *.
  assert (grows v 5 2 a x a1 x1) as G by (eapply grows_le; [| |exact G1]; lia).
  pose proof (can_log_grows v 7 _ _ _ _ _ _ G Hlog1) as Hlog2. change (7 - Z.of_nat 5) with 2 in Hlog2.
  destruct (fw_data _ _ _ (gr_wf _ _ _ _ _ _ _ G) bn Hbn Hp) as [Dp _]. fold p in Dp.
  destruct (data_block_range v Hv nlog_pos p Dp) as (Rp1 & Rp2 & Rp3).
  assert (held a1 = ∅) as Hheld by (rewrite (gr_held _ _ _ _ _ _ _ G); apply Hok1).
  assert (held a1 !! p = None) as Hhp by (rewrite Hheld; apply lookup_empty).
  kstep. eapply wp_mono; [|apply (f_bread_ok nlog_fits s1 a1 p 2); try done; rewrite Hheld, map_size_empty; lia].
  intros bp s2 [S2 R2]. kstep. apply wp_zoom. cbn [view fE].
  assert (estep (f_env s0) (f_env s2)) as Est by (etransitivity; [apply Hs|etransitivity; [apply S1|apply S2]]).
  eapply wp_mono; [|apply (either_copyin_ok kend (f_env s2) (src_at t src) m kend_range); [apply R2|by eapply src_ok_at|lia]].
  rewrite (src_read_estep (f_env s0)), (src_read_part _ _ n bytes) by (done || lia || by destruct src as [?|?]; [apply Hsrc|]).
  intros c e' [He ->]. cbn [fst snd]. pose proof (frep_ustep s2 _ e' R2 (estep_ustep _ _ He)) as R3. set (s3 := over fE e' s2) in *.
  assert (fsame s2 s3) as S3 by (split; [split; try done; exact He|done]).
  unfold f_data. kstep. kstep. rewrite (f_data_ok _ _ _ _ R3 (f_held_hold _ _ _)). cbn [logical a_hold]. change (0 =? -1) with false. cbv iota.
  set (part := slice bytes (Z.to_nat t) (Z.to_nat m)). assert (length part = Z.to_nat m) as Hlp by (apply length_slice; lia).
  apply wp_three. eapply wp_mono; [|apply (write_back nlog_fits s3 a1 p bp (splice (logical a1 p) (Z.to_nat (o mod BSIZE)) part) 2); try done].
  - intros [] s4 [S4 R4]. kstep. split; [done|]. exists (a_update p (splice (logical a1 p) (Z.to_nat (o mod BSIZE)) part) a1), x1.
    split; [|split; [exact R4|]].
    + eapply fput_fput; [exact Hs|]. eapply fput_same; [exact S1|]. by do 2 (etransitivity; [eassumption|]).
    + apply (written_step t r a x a1 x1); [done|done|done|done|]. intros k. by eapply frep_blocks.
  - apply block_ok_splice; [by eapply frep_blocks| |by apply Forall_take, Forall_drop].
    rewrite Hlp. pose proof (Z.mod_pos_bound o BSIZE ltac:(done)). unfold BSIZE, bsize in *. lia.
Qed.

(** What [writei] does to the file and to the disk. *)
Record writei_post (r : Z) s' : Prop := {
  wp_ret : r = n;
  wp_state : exists a x, fput ip (set_i_di x i) s0 s' /\ file_ok v s' a ip (set_i_di x i) (dev := dev) /\ full (logical a) x /\
    x = set_di_size (Z.max (di_size x0) (off + n)) (with_addrs (di_addrs x) x0) /\
    (forall z, 0 <= z < MAXBYTES -> fbyte (logical a) x z =
       if decide (off <= z < off + n) then default 0 (bytes !! Z.to_nat (z - off)) else fbyte (logical a0) x0 z) /\
    (forall m, foreign v (logical a0) x0 m -> m <> IBLOCK (i_inum i) v -> logical a m = logical a0 m) /\
    get_dinode (logical a (IBLOCK (i_inum i) v)) (Z.to_nat (i_inum i mod IPB)) = x /\
    (forall j, (j < 16)%nat -> j <> Z.to_nat (i_inum i mod IPB) ->
       get_dinode (logical a (IBLOCK (i_inum i) v)) j = get_dinode (logical a0 (IBLOCK (i_inum i) v)) j) /\
    (forall m, on_disk a m = on_disk a0 m) /\
    Z.of_nat (size (pinned a)) <= Z.of_nat (size (pinned a0)) + 6 * nblk off n + 1
}.

Lemma with_size_file L x z : file_wf v L x -> file_wf v L (set_di_size z x).
Proof. by intros []; split. Qed.

Context (Hinum : 0 <= i_inum i < sb_ninodes v) (Hdi : dinode_ok x0).

Lemma inode_block_foreign : foreign v (logical a0) x0 (IBLOCK (i_inum i) v).
Proof.
  destruct (IBLOCK_range v Hv nlog_pos _ Hinum) as (R1 & R2 & _). destruct (inode_block_other v Hv nlog_pos _ Hinum) as [Hb Hd].
  destruct Hok as [_ _ _ Hmeta _ _ Hwf]. split; [destruct Hv; lia|apply Hmeta; lia|done|..].
  - intros E. destruct Hd. rewrite E. apply (fw_ind _ _ _ Hwf). unfold x0 in *. lia.
  - intros k Hk E. destruct Hd. rewrite E. apply (fw_data _ _ _ Hwf); [done|]. unfold x0 in *. lia.
Qed.

Lemma dinode_ok_written r a x : written n r a x -> dinode_ok (set_di_size (Z.max (di_size x0) (off + n)) x).
Proof.
  intros [W1 _ _ _ _]. destruct Hdi as [D1 D2 D3 D4 D5 D6 D7]. pose proof (ev_meta _ _ _ _ _ _ _ W1) as Em. assert (MAXBYTES < 2 ^ 31) as Hmb by done.
  destruct Hfull as [Hm0 _]. rewrite Em. split; simpl; try done.
  - unfold is_u32 in *. lia.
  - apply (fw_addrs _ _ _ (ev_wf _ _ _ _ _ _ _ W1)).
  - apply (file_addrs_u32 v (logical a) x Hv), W1.
Qed.

(** The disk and the file once the inode block is written. *)
Lemma inode_written r a x s' (x' := set_di_size (Z.max (di_size x0) (off + n)) x) (a' := a_iupdate v (set_i_di x' i) a) :
  written n r a x -> (forall k, block_ok (logical a k)) -> fput ip (set_i_di x' i) s0 s' -> frep s' a' -> writei_post n s'.
Proof.
  intros W Hblk Hs Hr. pose proof W as [W1 W2 W3 W4 W5]. pose proof (dinode_ok_written r a x W) as Hdi'. fold x' in Hdi'.
  destruct (inode_block_write v Hv nlog_pos a x' (i_inum i) (put_dinode (logical a (IBLOCK (i_inum i) v)) (Z.to_nat (i_inum i mod IPB)) x'))
    as (F1 & F2 & F3 & F4 & F5); [by apply with_size_file, W1|done|]. cbv zeta in F1, F2, F3, F4, F5.
  change (a_update _ _ a) with a' in F1, F2, F3, F4, F5. set (m := IBLOCK (i_inum i) v) in *.
  assert (forall k, logical a' k = if decide (k = m) then put_dinode (logical a m) (Z.to_nat (i_inum i mod IPB)) x' else logical a k) as EL
    by (intros; apply logical_update).
  destruct (ev_foreign _ _ _ _ _ _ _ W1 m inode_block_foreign) as [_ Em].
  pose proof (inode_slot (i_inum i)) as Hslot. split; [done|]. exists a', x'.
  split; [done|]. split; [|split; [|split; [|split; [|split; [|split; [|split; [|split]]]]]]].
  - destruct Hok as [H1 H2 H3 H4 H5 H6 H7]. split; try done.
    + by rewrite (fput_sb _ _ _ _ Hs).
    + simpl. by rewrite (ev_held _ _ _ _ _ _ _ W1).
    + intros b Hb. assert (0 <= b < sb_size v) by (destruct Hv; lia). rewrite F4 by done. apply (ev_used _ _ _ _ _ _ _ W1); [done|by apply H4].
    + by apply (fput_at ip i _ s0).
  - destruct Hfull as [Hm0 _]. split; [simpl; lia|]. intros bn H1 H2. rewrite F2. exact (W3 bn H1 H2).
  - unfold x'. rewrite (ev_meta _ _ _ _ _ _ _ W1). done.
  - intros z Hz. rewrite <- (W2 z Hz). unfold fbyte. by rewrite F3 by by apply file_block_index.
  - intros k Hk Hne. rewrite EL, decide_False by done. apply (ev_foreign _ _ _ _ _ _ _ W1 k Hk).
  - rewrite EL, decide_True, get_put_dinode, decide_True by done. done.
  - intros j Hj Hne. rewrite EL, decide_True, get_put_dinode, decide_False by done. by rewrite Em.
  - intros k. apply W1.
  - destruct (ev_pinned _ _ _ _ _ _ _ W1). pose proof (size_pin m (pinned a)). change (pinned a') with ({[m]} ∪ pinned a). lia.
Qed.

(** The end of [writei]: the size and the inode block. *)
Lemma writei_finish r s : loop_inv n r s ->
  wp ((x <- ino ip;;
       (if di_size (i_di x) <? off + n then upd_di ip (set_di_size (off + n)) else ret tt);;
       iupdate ip;;
       ret (s32 n)) s) writei_post.
Proof.
  intros (a & x & Hs & Hr & W). pose proof (loop_file_ok n r s a x Hs Hr W) as Hok1. pose proof W as [W1 W2 W3 W4 W5].
  assert (MAXBYTES < 2 ^ 31) as Hmb by done. destruct Hfull as [Hm0 _].
  assert (di_size x = di_size x0) as Esz by (by rewrite (ev_meta _ _ _ _ _ _ _ W1)).
  assert (0 <= nblk off n) as Hnb by lia.
  set (x' := set_di_size (Z.max (di_size x0) (off + n)) x).
  unfold ino. kstep. kstep. rewrite (ino_ok _ _ _ (fo_ino _ _ _ _ _ Hok1)). cbn [i_di set_i_di]. rewrite Esz.
  assert (wp ((if di_size x0 <? off + n then upd_di ip (set_di_size (off + n)) else ret tt) s)
            (fun _ s1 => fput ip (set_i_di x' i) s s1 /\ frep s1 a)) as Hupd.
  { destruct (Z.ltb_spec (di_size x0) (off + n)).
    - eapply wp_mono; [|apply (upd_i_ok s a ip _ _ (fo_ino _ _ _ _ _ Hok1) Hr)]. intros _ s1 [S1 R1]. split; [|done].
      unfold x'. by rewrite Z.max_r by lia.
    - kstep. split; [|done]. unfold x'. rewrite Z.max_l, <- Esz by lia. replace (set_di_size (di_size x) x) with x by by destruct x.
      apply fput_refl, Hok1. }
  kstep. eapply wp_mono; [|exact Hupd]. clear Hupd. intros _ s1 [S1 R1].
  assert (fput ip (set_i_di x' i) s0 s1) as S01 by by eapply fput_fput.
  assert (file_ok v s1 a ip (set_i_di x' i) (dev := dev)) as Hok2.
  { destruct Hok1 as [H1 H2 H3 H4 H5 H6 H7]. split; try done; [by rewrite (fput_sb _ _ _ _ S1)|by eapply fput_at|by apply with_size_file]. }
  kstep. eapply wp_mono; [|apply (iupdate_ok nlog_fits nlog_pos v Hv s1 a ip (set_i_di x' i) 1 Hok2 Hinum); [|lia]].
  2:{ destruct (ev_pinned _ _ _ _ _ _ _ W1). unfold can_log in *. lia. }
  intros _ s2 [S2 R2]. kstep. replace (s32 n) with n by (unfold s32; rewrite Z.mod_small by lia; lia).
  apply (inode_written r a x); [done|intros k; by eapply frep_blocks|by eapply fput_same|exact R2].
Qed.

Lemma writei_ok : wp (writei ip src off n s0) writei_post.
Proof.
  assert (MAXBYTES < 2 ^ 31) as Hmb by done. pose proof Hok as [_ Hr _ _ Hino Hdev _].
  unfold writei, ino at 1. kstep. kstep. rewrite (ino_ok _ _ _ Hino), Hdev, u32_id by lia. fold x0.
  destruct (Z.ltb_spec (di_size x0) off); [lia|]. destruct (Z.ltb_spec (off + n) off); [lia|]. cbn [orb].
  fold MAXBYTES. destruct (Z.ltb_spec MAXBYTES (off + n)); [lia|]. kstep.
  apply (wp_while_ghost _ (fun r '(t, o, c) s => 0 <= t <= n /\ o = off + t /\ c = src_at t src /\ loop_inv t r s)
    (fun r => nblk off n + 1 - Z.of_nat r)) with (g := O).
  - intros r [[t o] c] s (Ht & -> & -> & HI). destruct (Z.ltb_spec t n) as [Hlt|Hge]; cbn [negb].
    + eapply wp_mono; [|apply (loop_round t r s); [lia|done]]. intros q s' [-> HI']. set (m := Z.min _ _) in *.
      assert (0 < m /\ t + m <= n) as [Hm Htm] by (pose proof (Z.mod_pos_bound (off + t) BSIZE ltac:(done)); lia).
      exists (S r). rewrite !u32_id by lia. split; [|lia]. split; [lia|]. split; [lia|]. split; [apply advance_src; lia|done].
    + kstep. replace t with n in * by lia. cbv beta iota. by apply (writei_finish r).
  - intros r [[t o] c] s (Ht & _ & _ & (a & x & _ & _ & W)). pose proof (wr_rounds _ _ _ _ W) as Hrd. unfold nblk in *.
    pose proof (Z.div_le_mono (off + t + BSIZE - 1) (off + n + BSIZE - 1) BSIZE ltac:(done) ltac:(lia)). lia.
  - split; [lia|]. split; [lia|]. split.
    + destruct src as [va|l]; [|done]. cbn [src_at]. rewrite Z.add_0_r. unfold u64. f_equal. symmetry. apply Z.mod_small. apply Hsrc.
    + exists a0, x0. split; [apply fput_refl; by destruct i|]. split; [done|]. apply written_0.
  - unfold can_log in Hlog. unfold NBUF, MAXOPBLOCKS in nlog_fits. unfold budget. lia.
Qed.
End loop.
End write.
