(* ===== verification/FsPath.v ===== *)
(** * kernel/fs.c: the inode cache and path names

    [iget] keeps at most one in-memory inode per (dev, inum) ([ic_unique]).
    [skipelem] splits a path into its elements ([elems]); [namecmp] compares
    names as directory entries hold them ([cname]). *)
From S2P Require Import Prelude Machine KString Spinlock Kalloc Vm UserMem Block Env Log Txn Fs FsBlock FsFile.
Local Open Scope Z_scope.
Local Open Scope kernel_scope.

(** ** Path elements *)

(** The elements of a path: its maximal nonempty parts without slashes. *)
Fixpoint elems_from (cur path : list Z) : list (list Z) :=
  match path with
  | [] => match cur with [] => [] | _ => [cur] end
  | c :: path => if c =? SLASH then match cur with [] => elems_from [] path | _ => cur :: elems_from [] path end
                 else elems_from (cur ++ [c]) path
  end.
Definition elems (path : list Z) : list (list Z) := elems_from [] path.

(** The string an array of bytes holds. *)
Fixpoint cstr (l : list Z) : list Z :=
  match l with
  | [] => []
  | c :: l => if c =? 0 then [] else c :: cstr l
  end.
(** The name a field of DIRSIZ bytes stands for. *)
Definition cname (l : list Z) : list Z := cstr (take (Z.to_nat DIRSIZ) l).

(** The functions on byte arrays are those of string.c on memory. *)
Lemma strncmp_bytes m p q n : strncmp_list (load_bytes m p n) (load_bytes m q n) n = strncmp_loop m p q n.
Proof.
  revert p q. induction n as [|n IH]; intros p q; [done|]. rewrite !load_bytes_cons. cbn [strncmp_list strncmp_loop chr head default id tail].
  by rewrite IH.
Qed.

Lemma strncpy_list_cut l n : length l = n -> strncpy_list l n = cut l ++ replicate (n - length (cut l)) 0.
Proof.
  intros <-. induction l as [|b l IH]; [done|]. cbn [length strncpy_list cut chr head default id tail].
  destruct (b =? 0); [done|]. cbn. by rewrite IH.
Qed.

Lemma strncpy_bytes m s t n : apart s t n -> mem_ok m ->
  load_bytes (strncpy_loop m s t n) s n = strncpy_list (load_bytes m t n) n.
Proof. intros H1 H2. by rewrite strncpy_loop_bytes, strncpy_list_cut by (done || apply length_load_bytes). Qed.

Definition no_nul (l : list Z) : Prop := Forall (fun c => c <> 0) l.

Lemma skip_slashes_elems path : elems (skip_slashes path) = elems path.
Proof.
  induction path as [|c path IH]; [done|]. cbn [skip_slashes]. unfold elems in *. cbn [elems_from].
  destruct (Z.eqb_spec c SLASH) as [->|E]; [done|]. cbn [elems_from]. destruct (Z.eqb_spec c SLASH); done.
Qed.

Lemma skip_slashes_head path c rest : skip_slashes path = c :: rest -> c <> SLASH.
Proof.
  induction path as [|d path IH]; [done|]. cbn [skip_slashes]. destruct (Z.eqb_spec d SLASH) as [|E]; [done|].
  by intros [= <- <-].
Qed.

Lemma skip_slashes_no_nul path : no_nul path -> no_nul (skip_slashes path).
Proof. induction 1 as [|c path Hc Hp IH]; [constructor|]. cbn [skip_slashes]. destruct (c =? SLASH); [done|by constructor]. Qed.

Lemma take_elem_spec path s rest : no_nul path -> take_elem path = (s, rest) ->
  path = s ++ rest /\ Forall (fun c => c <> SLASH /\ c <> 0) s /\ (rest = [] \/ exists r, rest = SLASH :: r).
Proof.
  intros Hn. revert s rest. induction Hn as [|c path Hc Hp IH]; intros s rest E; cbn [take_elem] in E.
  - injection E as <- <-. split_and!; [done|constructor|by left].
  - destruct (Z.eqb_spec c SLASH) as [->|Hs]; cbn [negb andb] in E.
    + injection E as <- <-. split_and!; [done|constructor|right; by eexists].
    + destruct (Z.eqb_spec c 0); [done|]. cbn [negb] in E. destruct (take_elem path) as [s' r']. injection E as <- <-.
      destruct (IH s' r' eq_refl) as (-> & H2 & H3). split_and!; [done|by constructor|done].
Qed.

Lemma elems_from_app cur s rest : Forall (fun c => c <> SLASH /\ c <> 0) s -> elems_from cur (s ++ rest) = elems_from (cur ++ s) rest.
Proof.
  intros Hs. revert cur. induction Hs as [|c s [Hc _] Hs IH]; intros cur; [by rewrite app_nil_r|]. cbn [app elems_from].
  destruct (Z.eqb_spec c SLASH); [done|]. rewrite IH, <- app_assoc. done.
Qed.

Lemma elems_from_end s rest : s <> [] -> rest = [] \/ (exists r, rest = SLASH :: r) -> elems_from s rest = s :: elems rest.
Proof. intros Hs [->|[r ->]]; destruct s; try done. Qed.

Lemma elems_from_nonempty cur path : cur <> [] -> elems_from cur path <> [].
Proof.
  revert cur. induction path as [|c path IH]; intros cur Hcur; [by destruct cur|]. cbn [elems_from].
  destruct (c =? SLASH); [by destruct cur|]. apply IH. by destruct cur.
Qed.

Lemma cstr_no_nul l rest : no_nul l -> cstr (l ++ 0 :: rest) = l.
Proof. induction 1 as [|c l Hc Hl IH]; [done|]. cbn [app cstr]. destruct (Z.eqb_spec c 0); [done|]. by rewrite IH. Qed.

Lemma cstr_full l : no_nul l -> cstr l = l.
Proof. induction 1 as [|c l Hc Hl IH]; [done|]. cbn [cstr]. destruct (Z.eqb_spec c 0); [done|]. by rewrite IH. Qed.

(** The name array after an element is copied into it. *)
Definition put_name (name s : list Z) : list Z :=
  if DIRSIZ <=? Z.of_nat (length s) then splice name 0 (take (Z.to_nat DIRSIZ) s)
  else splice (splice name 0 s) (length s) [0].

Lemma put_name_cname name s : no_nul s -> length name = Z.to_nat DIRSIZ ->
  cname (put_name name s) = take (Z.to_nat DIRSIZ) s /\ length (put_name name s) = Z.to_nat DIRSIZ.
Proof.
  intros Hs Hl. unfold put_name, cname. change DIRSIZ with 14 in *. change (Z.to_nat 14) with 14%nat in *.
  destruct (Z.leb_spec 14 (Z.of_nat (length s))) as [H|H].
  - rewrite length_splice by (rewrite length_take; lia). split; [|done]. unfold splice. rewrite take_0. cbn [app].
    rewrite drop_ge, app_nil_r by (rewrite length_take; lia). rewrite take_take. apply cstr_full. by apply Forall_take.
  - rewrite !length_splice by (rewrite ?length_splice; simpl; lia). split; [|done].
    assert (splice (splice name 0 s) (length s) [0] = s ++ 0 :: drop (S (length s)) name) as ->.
    { unfold splice at 1. cbn [app length]. unfold splice. rewrite take_0. cbn [app Nat.add]. rewrite take_app_length.
      do 2 f_equal. rewrite drop_app, drop_ge by lia. cbn [app]. rewrite drop_drop. f_equal. lia. }
    rewrite take_app, take_ge by lia. destruct (14 - length s)%nat as [|k] eqn:E; [lia|]. cbn [take].
    by rewrite cstr_no_nul.
Qed.

(** [skipelem] takes the first element off a path. *)
Lemma skipelem_spec path name : no_nul path -> length name = Z.to_nat DIRSIZ ->
  match elems path with
  | [] => skipelem path name = None
  | e :: es => exists rest name', skipelem path name = Some (rest, name') /\ elems rest = es /\ no_nul rest /\
      (chr rest = 0 <-> es = []) /\ cname name' = take (Z.to_nat DIRSIZ) e /\ length name' = Z.to_nat DIRSIZ
  end.
Proof.
  intros Hn Hl. rewrite <- (skip_slashes_elems path). unfold skipelem. pose proof (skip_slashes_no_nul path Hn) as Hn'.
  destruct (skip_slashes path) as [|c rest] eqn:E; [done|]. pose proof (skip_slashes_head _ _ _ E) as Hc.
  inversion Hn' as [|? ? Hc0 Hr]. subst. change (chr (c :: rest)) with c. destruct (Z.eqb_spec c 0); [done|].
  destruct (take_elem (c :: rest)) as [s r] eqn:Et. destruct (take_elem_spec _ _ _ Hn' Et) as (Eq & Hs & Hr').
  assert (s <> []) as Hne. { intros ->. destruct Hr' as [->|[q ->]]; [done|]. cbn [app] in Eq. injection Eq as ->. done. }
  assert (no_nul s) as Hsn by (eapply Forall_impl; [exact Hs|]; by intros ? []).
  assert (no_nul r) as Hrn by (rewrite Eq in Hn'; by apply Forall_app in Hn' as [_ ?]).
  rewrite Eq. unfold elems at 1. rewrite elems_from_app by done. cbn [app]. rewrite elems_from_end by done.
  destruct (put_name_cname name s Hsn Hl) as [P1 P2].
  exists (skip_slashes r), (put_name name s). split; [unfold put_name; by rewrite Nat2Z.id|]. rewrite skip_slashes_elems.
  split; [done|]. split; [by apply skip_slashes_no_nul|]. split; [|done].
  rewrite <- skip_slashes_elems. pose proof (skip_slashes_no_nul r Hrn) as Hk. destruct (skip_slashes r) as [|d q] eqn:Er; [done|].
  inversion Hk. subst. unfold chr. cbn [head default id]. split; [done|]. intros E0. exfalso.
  unfold elems in E0. cbn [elems_from] in E0. pose proof (skip_slashes_head _ _ _ Er). destruct (Z.eqb_spec d SLASH); [done|].
  by apply elems_from_nonempty in E0.
Qed.

(** ** Names *)
Lemma strncmp_list_spec n p q : strncmp_list p q n = 0 <-> cstr (take n p) = cstr (take n q).
Proof.
  revert p q. induction n as [|n IH]; intros p q; [done|]. cbn [strncmp_list].
  assert (forall l : list Z, take (S n) l = match l with [] => [] | c :: l => c :: take n l end) as Et by by intros [].
  destruct p as [|c p]; cbn [chr head default id tail negb andb Z.eqb].
  - rewrite Et. destruct q as [|d q]; cbn [chr head default id take cstr]; [done|]. unfold chr. cbn [head default id].
    destruct (Z.eqb_spec d 0); split; intros H; try done; lia.
  - unfold chr. cbn [head default id tail]. rewrite !Et. cbn [cstr]. destruct (Z.eqb_spec c 0) as [->|Hc]; cbn [negb andb].
    + destruct q as [|d q]; cbn [head default id cstr]; [done|]. destruct (Z.eqb_spec d 0); split; intros H; try done; lia.
    + destruct q as [|d q]; cbn [head default id tail cstr].
      * destruct (Z.eqb_spec c 0); [done|]. split; [lia|done].
      * destruct (Z.eqb_spec c d) as [->|Hcd].
        -- destruct (Z.eqb_spec d 0); [done|]. rewrite IH. split; [congruence|by intros [=]].
        -- destruct (Z.eqb_spec d 0); split; intros H; try done; try lia. by injection H.
Qed.

Lemma namecmp_spec s t : namecmp s t = 0 <-> cname s = cname t.
Proof. apply strncmp_list_spec. Qed.

(** ** The inode cache *)
Definition in_cache (d inum : Z) (i : inode) : Prop := 0 < i_ref i /\ i_dev i = d /\ i_inum i = inum.
#[export] Instance in_cache_dec d inum i : Decision (in_cache d inum i).
Proof. unfold in_cache. apply _. Defined.

(** At most one entry per inode, reference counts that are not negative. *)
Definition ic_unique (l : list inode) : Prop :=
  Forall (fun i => 0 <= i_ref i) l /\
  forall j k x y, l !! j = Some x -> l !! k = Some y -> 0 < i_ref x -> in_cache (i_dev x) (i_inum x) y -> j = k.

(** What [iget] makes of the cache: the entry of the inode with one more
    reference, or else the first entry that is not in use. *)
Definition iget_spec (d inum : Z) (l : list inode) : option (nat * list inode) :=
  match list_find (in_cache d inum) l with
  | Some (ip, i) => Some (ip, <[ip := set_i_ref (i_ref i + 1) i]> l)
  | None => match list_find (fun i => i_ref i = 0) l with
            | Some (ip, i) => Some (ip, <[ip := set_i_id d inum 1 0 i]> l)
            | None => None
            end
  end.

Lemma iget_spec_entry d inum l ip l' : iget_spec d inum l = Some (ip, l') ->
  exists i i', l !! ip = Some i /\ l' = <[ip := i']> l /\ in_cache d inum i' /\ i_ref i' = i_ref i + 1 /\
    (in_cache d inum i \/ i_ref i = 0 /\ i_valid i' = 0 /\ forall k y, l !! k = Some y -> ~ in_cache d inum y).
Proof.
  unfold iget_spec. destruct (list_find (in_cache d inum) l) as [[k x]|] eqn:E1.
  - intros [= <- <-]. apply list_find_Some in E1 as (Hk & Hx & _). exists x, (set_i_ref (i_ref x + 1) x). split; [done|]. split; [done|].
    unfold in_cache in *. simpl. split; [lia|]. split; [done|]. by left.
  - destruct (list_find (fun i => i_ref i = 0) l) as [[k x]|] eqn:E2; [|done]. intros [= <- <-].
    apply list_find_Some in E2 as (Hk & Hx & _). exists x, (set_i_id d inum 1 0 x). split; [done|]. split; [done|].
    unfold in_cache. simpl. split; [lia|]. split; [lia|]. right. split; [done|]. split; [done|]. intros j y Hj Hy.
    apply list_find_None in E1. rewrite Forall_lookup in E1. by apply (E1 j y).
Qed.

Lemma iget_spec_unique d inum l ip l' : iget_spec d inum l = Some (ip, l') -> ic_unique l -> ic_unique l'.
Proof.
  intros E [Hpos Hu]. destruct (iget_spec_entry _ _ _ _ _ E) as (i & i' & Hi & -> & (Hr & Hd & Hn) & Er & Hcase).
  split; [apply Forall_insert; [done|lia]|].
  assert (forall k y, l !! k = Some y -> in_cache d inum y -> k = ip) as Honly.
  { intros k y Hk Hy. destruct Hcase as [Hin|(_ & _ & Hno)]; [|by destruct (Hno k y)].
    destruct Hy as (Y1 & Y2 & Y3). apply (Hu k ip y i); [done|done|done|]. by rewrite Y2, Y3. }
  intros j k x y Hj Hk Hx Hy. apply list_lookup_insert_Some in Hj as [(-> & <- & _)|[Hne Hj]].
  - apply list_lookup_insert_Some in Hk as [(-> & _ & _)|[_ Hk]]; [done|]. symmetry. apply (Honly k y Hk). by rewrite <- Hd, <- Hn.
  - apply list_lookup_insert_Some in Hk as [(-> & <- & _)|[_ Hk]]; [|by apply (Hu j k x y)].
    apply (Honly j x Hj). destruct Hy as (_ & E1 & E2). split; [done|]. split; congruence.
Qed.

(** There is an entry to hand out: that of the inode, or one not in use. *)
Lemma iget_spec_is_Some d inum l : is_Some (iget_spec d inum l) <-> exists k y, l !! k = Some y /\ (in_cache d inum y \/ i_ref y = 0).
Proof.
  split.
  - intros [[ip l'] E]. destruct (iget_spec_entry _ _ _ _ _ E) as (i & i' & Hi & _ & _ & _ & [H|(H & _)]); exists ip, i; tauto.
  - intros (k & y & Hk & Hy). unfold iget_spec. destruct (list_find (in_cache d inum) l) as [[ip x]|] eqn:E1; [by eexists|].
    destruct Hy as [Hy|Hy].
    + apply list_find_None in E1. rewrite Forall_lookup in E1. by destruct (E1 k y).
    + destruct (list_find_elem_of (fun i => i_ref i = 0) l y) as [[ip x] ->]; [by eapply list_elem_of_lookup_2|done|by eexists].
Qed.

(** The disk part of an entry does not matter. *)
Lemma iget_spec_di d inum l dp i x : l !! dp = Some i ->
  is_Some (iget_spec d inum l) -> is_Some (iget_spec d inum (<[dp := set_i_di x i]> l)).
Proof.
  rewrite !iget_spec_is_Some. intros Hi (k & y & Hk & Hy). destruct (decide (k = dp)) as [->|].
  - exists dp, (set_i_di x i). split; [apply list_lookup_insert_eq; by eapply lookup_lt_Some|].
    rewrite Hi in Hk. injection Hk as ->. exact Hy.
  - exists k, y. by rewrite list_lookup_insert_ne.
Qed.

Section icache.
Context {T B : Type} {dev logstart nlog : Z} `{TS : !TxnStore T B dev logstart nlog}.
Implicit Types (s : @fss T) (a : acache B).

#[export] Instance fH_ok : LensOk (fH (T := T)).
Proof. split; by intros; repeat match goal with x : fss |- _ => destruct x as [[[] ? ? ? ?] ? ? ? ?] end. Qed.
#[export] Instance fL_ok : LensOk (fL (T := T)).
Proof. split; by intros; repeat match goal with x : fss |- _ => destruct x as [? ? [] ? ?] end. Qed.
#[export] Instance fHL_disj : LensDisj (fH (T := T)) fL.
Proof. split; by intros. Qed.

(** The cache at rest. *)
Definition ic_ok s : Prop := free_lock (ic_lock (f_ic s)) /\ length (ic_inode (f_ic s)) = Z.to_nat NINODE.

(** The state with the inode table [l]. *)
Definition with_inodes (l : list inode) s s' : Prop :=
  fstep s s' /\ f_ic s' = mkIC (ic_lock (f_ic s)) l /\ f_t s' = f_t s.

Definition ic_locked s : @fss T := over fL (taken (view fL s) (view fH s)) (over fH (pushed (view fH s)) s).

Lemma ic_acquire s : ic_ok s -> acquire fH fL s = Done tt (ic_locked s).
Proof. intros [[Hl _] _]. exact (acquire_free fH fL s Hl). Qed.

(** Leaving the critical section with the table [l]. *)
Lemma ic_release s l g : hart_ok (view fH s) -> ic_ok s -> g (ic_inode (f_ic s)) = l ->
  release fH fL (upd_ic (fun c => mkIC (ic_lock c) (g (ic_inode c))) (ic_locked s)) =
  Done tt (over fH (touched (view fH s)) (upd_ic (fun c => mkIC (ic_lock c) l) s)).
Proof.
  intros Hh [[H1 H2] _] Hg. erewrite (release_taken fH fL _ (view fH s)); [|done|done|done]. f_equal.
  destruct s as [[[] ? ? ? ?] ? [[lk cpu nm] li] ? ?]. unfold free_lock in *. simpl in *. by subst.
Qed.

Lemma ic_released s l : with_inodes l s (over fH (touched (view fH s)) (upd_ic (fun c => mkIC (ic_lock c) l) s)).
Proof.
  split; [|by split]. split; try done. exists (Ctx (touched (view fH s)) (ue_pid (f_env s)) (ue_wakes (f_env s))). split; [|done].
  split; [apply same_hart_touched|done|done].
Qed.

(** The scan of the table: the entry of the inode, with the lock released, or
    the first entry that is not in use. *)
Definition iget_found s d inum (r : nat + option nat) s' : Prop :=
  let l := ic_inode (f_ic s) in
  match r with
  | inl ip => exists x, list_find (in_cache d inum) l = Some (ip, x) /\
                with_inodes (<[ip := set_i_ref (i_ref x + 1) x]> l) s s'
  | inr e => list_find (in_cache d inum) l = None /\ e = fst <$> list_find (fun i => i_ref i = 0) l /\ s' = ic_locked s
  end.

Definition iget_inv s d inum (q : nat * option nat) s' : Prop :=
  let l := ic_inode (f_ic s) in
  s' = ic_locked s /\ (q.1 <= Z.to_nat NINODE)%nat /\
  (forall k y, l !! k = Some y -> (k < q.1)%nat -> ~ in_cache d inum y) /\
  match q.2 with
  | Some e => exists y, list_find (fun i => i_ref i = 0) l = Some (e, y)
  | None => forall k y, l !! k = Some y -> (k < q.1)%nat -> i_ref y <> 0
  end.

Lemma iget_scan s d inum : hart_ok (view fH s) -> ic_ok s -> Forall (fun i => 0 <= i_ref i) (ic_inode (f_ic s)) ->
  wp (while_ budget (fun '(ip, empty) =>
    if negb (Z.of_nat ip <? NINODE) then ret (inr (inr empty)) else
    x <- ino ip;;
    if (0 <? i_ref x) && (i_dev x =? d) && (i_inum x =? inum) then
      upd_i ip (set_i_ref (i_ref x + 1));;
      release fH fL;;
      ret (inr (inl ip))
    else
      let empty := match empty with
                   | None => if i_ref x =? 0 then Some ip else None
                   | Some e => Some e
                   end in
      ret (inl (S ip, empty))) (O, None) (ic_locked s)) (iget_found s d inum).
Proof.
  intros Hh Hok Hpos. pose proof Hok as [_ Hlen]. apply (wp_while _ (iget_inv s d inum) (fun q => NINODE - Z.of_nat q.1)).
  - intros [ip empty] s' (-> & Hip & Hno & Hemp). cbn [fst snd] in *. destruct (Z.ltb_spec (Z.of_nat ip) NINODE) as [Hlt|Hge]; cbn [negb].
    2:{ kstep. assert (forall k y, ic_inode (f_ic s) !! k = Some y -> (k < ip)%nat) as Hall.
        { intros k y Hk. apply lookup_lt_Some in Hk. lia. }
        split; [apply list_find_None, Forall_lookup; intros k y Hk; apply (Hno k y Hk), (Hall k y Hk)|].
        split; [|done]. destruct empty as [e|]; [destruct Hemp as [y ->]; done|].
        replace (list_find (fun i => i_ref i = 0) (ic_inode (f_ic s))) with (@None (nat * inode)); [done|]. symmetry.
        apply list_find_None, Forall_lookup. intros k y Hk. by apply (Hemp k y Hk), (Hall k y). }
    destruct (lookup_lt_is_Some_2 (ic_inode (f_ic s)) ip) as [x Hx]; [lia|].
    unfold ino. kstep. kstep. replace (geti _ ip) with x by (unfold geti; simpl; by rewrite Hx).
    assert (0 <= i_ref x) as Hrx by (rewrite Forall_lookup in Hpos; by eapply Hpos).
    destruct (Z.ltb_spec 0 (i_ref x)) as [Hr|Hr], (Z.eqb_spec (i_dev x) d) as [Hd|Hd], (Z.eqb_spec (i_inum x) inum) as [Hi|Hi]; cbn [andb].
    1:{ unfold upd_i, upd_inode. kstep. kstep. kstep.
        eapply wp_eq; [exact (ic_release s _ (alter (set_i_ref (i_ref x + 1)) ip) Hh Hok eq_refl)|]. kstep. exists x. split.
        - apply list_find_Some. split; [done|]. split; [done|]. intros k y Hk Hlt'. by apply (Hno k y).
        - rewrite (alter_insert _ _ _ _ Hx). apply ic_released. }
    all: kstep; split; [|simpl; lia]; split; [done|]; cbn [fst snd]; split; [lia|]; split;
      [intros k y Hk Hlt'; destruct (decide (k = ip)) as [->|];
        [rewrite Hx in Hk; injection Hk as <-; unfold in_cache; naive_solver lia|apply (Hno k y Hk); lia]|].
    all: destruct empty as [e|]; [done|]; destruct (Z.eqb_spec (i_ref x) 0) as [Hz|Hz];
      [exists x; apply list_find_Some; split; [done|]; split; [done|]; intros k y Hk Hlt'; by apply (Hemp k y)|].
    all: intros k y Hk Hlt'; destruct (decide (k = ip)) as [->|]; [congruence|apply (Hemp k y Hk); lia].
  - intros [ip empty] s' (_ & Hip & _). cbn [fst] in *. change (Z.to_nat NINODE) with 50%nat in Hip. change NINODE with 50. lia.
  - split; [done|]. cbn [fst snd]. split; [lia|]. split; intros k y _ Hk; lia.
  - done.
Qed.

Lemma iget_ok s d inum : hart_ok (view fH s) -> ic_ok s -> Forall (fun i => 0 <= i_ref i) (ic_inode (f_ic s)) ->
  match iget_spec d inum (ic_inode (f_ic s)) with
  | Some (ip, l) => wp (iget d inum s) (fun r s' => r = ip /\ with_inodes l s s')
  | None => iget d inum s = Panic "iget: no inodes"
  end.
Proof.
  intros Hh Hok Hpos. unfold iget. rewrite (bind_Done _ _ _ _ _ (ic_acquire s Hok)).
  pose proof (iget_scan s d inum Hh Hok Hpos) as Hscan. apply wp_inv in Hscan as (r & s' & E & Hr).
  rewrite (bind_Done _ _ _ _ _ E). clear E. unfold iget_spec. destruct r as [ip|e].
  - destruct Hr as (x & -> & Hs). by kstep.
  - destruct Hr as (-> & -> & ->). destruct (list_find _ _) as [[ip x]|] eqn:E; [|done]. cbn [fmap option_fmap option_map fst].
    apply list_find_Some in E as (Hx & _). unfold upd_i, upd_inode. kstep. kstep. kstep.
    eapply wp_eq; [exact (ic_release s _ (alter (set_i_id d inum 1 0) ip) Hh Hok eq_refl)|]. kstep. split; [done|].
    rewrite (alter_insert _ _ _ _ Hx). apply ic_released.
Qed.

Lemma frep_inodes l s s' a : with_inodes l s s' -> frep s a -> frep s' a.
Proof.
  intros ([(c & Hst & Ee) _ _] & _ & Et) [Hc Hr]. unfold frep, fctx. rewrite Ee, Et, view_over. split; [by eapply cx_ok_step|].
  cbn [over envC ue_pid]. by rewrite (cx_same_pid _ _ Hst).
Qed.

(** One more reference to an inode in use. *)
Lemma idup_ok s ip i : hart_ok (view fH s) -> ic_ok s -> ino_at s ip i ->
  wp (idup ip s) (fun r s' => r = ip /\ with_inodes (<[ip := set_i_ref (i_ref i + 1) i]> (ic_inode (f_ic s))) s s').
Proof.
  intros Hh Hok Hi. unfold idup. rewrite (bind_Done _ _ _ _ _ (ic_acquire s Hok)). unfold ino, upd_i, upd_inode. do 5 kstep.
  replace (geti _ ip) with i by (symmetry; exact (ino_ok s ip i Hi)).
  eapply wp_eq; [exact (ic_release s _ (alter (set_i_ref (i_ref i + 1)) ip) Hh Hok eq_refl)|]. kstep. split; [done|].
  rewrite (alter_insert _ _ _ _ Hi). apply ic_released.
Qed.
End icache.
