(* ===== verification/FsDir.v ===== *)
(** * kernel/fs.c: directories

    A directory is a sequence of 16-byte entries ([dent]); [dirlookup] finds the
    first entry in use with the given name, [dirlink] stores a new one in the
    first free entry or at the end. *)
From S2P Require Import Prelude Machine KString Spinlock Kalloc Vm UserMem Block Env Log Txn Fs FsBlock FsFile FsInode FsWrite FsPath.
Local Open Scope Z_scope.
Local Open Scope kernel_scope.

Definition dent (L : Z -> list Z) (x : dinode) (k : nat) : list Z := fread L x (16 * Z.of_nat k) 16.
Definition ndents (x : dinode) : nat := Z.to_nat (di_size x / 16).

(** Entry [k] is in use and has the name [name]. *)
Definition names (L : Z -> list Z) (x : dinode) (name : list Z) (k : nat) : Prop :=
  de_inum (dent L x k) <> 0 /\ cname name = cname (de_name (dent L x k)).
#[export] Instance names_dec L x name k : Decision (names L x name k).
Proof. unfold names. apply _. Defined.

Definition find_entry (L : Z -> list Z) (x : dinode) (name : list Z) : option nat :=
  fst <$> list_find (names L x name) (seq 0 (ndents x)).
Definition find_free (L : Z -> list Z) (x : dinode) : nat :=
  default (ndents x) (fst <$> list_find (fun k => de_inum (dent L x k) = 0) (seq 0 (ndents x))).

(** The first number below [n] with a property. *)
Lemma find_seq_Some (P : nat -> Prop) `{!forall k, Decision (P k)} n k : (k < n)%nat -> P k -> (forall j, (j < k)%nat -> ~ P j) ->
  fst <$> list_find P (seq 0 n) = Some k.
Proof.
  intros Hk HP Hno. replace (list_find P (seq 0 n)) with (Some (k, k)); [done|]. symmetry. apply list_find_Some.
  split; [by rewrite lookup_seq_lt|]. split; [done|]. intros j y Hj Hlt. apply lookup_seq in Hj as [-> _]. by apply Hno.
Qed.

Lemma find_seq_None (P : nat -> Prop) `{!forall k, Decision (P k)} n : (forall j, (j < n)%nat -> ~ P j) ->
  fst <$> list_find P (seq 0 n) = None.
Proof.
  intros Hno. replace (list_find P (seq 0 n)) with (@None (nat * nat)); [done|]. symmetry. apply list_find_None, Forall_lookup.
  intros j y Hj. apply lookup_seq in Hj as [-> Hj]. by apply Hno.
Qed.

Section dir.
Context {T B : Type} {dev logstart nlog : Z} `{TS : !TxnStore T B dev logstart nlog}.
Context (nlog_fits : nlog <= NBUF) (nlog_pos : 0 < nlog).
Context (v : superblock) (Hv : layout (logstart := logstart) (nlog := nlog) v).
Implicit Types (s : @fss T) (a : acache B).

(** The entry [dp] of the inode cache is a directory. *)
Record dir_ok s a (dp : nat) (i : inode) : Prop := {
  dr_file : file_ok v s a dp i (dev := dev);
  dr_full : full (logical a) (i_di i);
  dr_type : di_type (i_di i) = T_DIR;
  dr_size : 0 <= di_size (i_di i) /\ di_size (i_di i) mod 16 = 0
}.

Lemma dir_ok_same s s' a dp i : dir_ok s a dp i -> fsame s s' -> frep s' a -> dir_ok s' a dp i.
Proof. intros [[H1 H2 H3 H4 H5 H6 H7] H8 H9 H10] S R. split; try done. split; try done; [by rewrite (fsame_sb _ _ S)|by eapply fsame_at]. Qed.

Lemma dents_size s a dp i : dir_ok s a dp i -> di_size (i_di i) = 16 * Z.of_nat (ndents (i_di i)) /\ di_size (i_di i) < 2 ^ 31.
Proof.
  intros [_ [Hm _] _ [H1 H2]]. unfold ndents. pose proof (Z.div_mod (di_size (i_di i)) 16 ltac:(done)).
  assert (0 <= di_size (i_di i) / 16) by by apply Z.div_pos. assert (MAXBYTES < 2 ^ 31) by done. lia.
Qed.

(** Reading an entry. *)
Lemma read_dent s a dp i k : dir_ok s a dp i -> can_log (nlog := nlog) 1 a -> (k < ndents (i_di i))%nat ->
  wp (readi dp None (16 * Z.of_nat k) sizeof_de s) (fun r s' => r = (16, dent (logical a) (i_di i) k) /\ fsame s s' /\ frep s' a).
Proof.
  intros Hd Hq Hk. destruct (dents_size _ _ _ _ Hd) as [Es Hs]. pose proof Hd as [H1 H2 H3 H4].
  eapply wp_mono; [|apply (readi_kernel nlog_fits nlog_pos v Hv s a dp i (16 * Z.of_nat k) sizeof_de); unfold sizeof_de; try done; lia].
  intros r s' (-> & S & R). split; [|done]. unfold sizeof_de, dent. rewrite Z.min_l by lia. done.
Qed.

(** The inode cache is usable. *)
Definition cache_ok s : Prop := hart_ok (view fH s) /\ ic_ok s /\ Forall (fun i => 0 <= i_ref i) (ic_inode (f_ic s)).

Lemma cache_ok_same s s' a : cache_ok s -> fsame s s' -> frep s' a -> cache_ok s'.
Proof.
  intros (H1 & [H2 H3] & H4) [_ E] [Hc _]. split; [exact Hc|]. unfold ic_ok. by rewrite E.
Qed.

Lemma cache_ok_put s s' a dp i x : cache_ok s -> ino_at s dp i -> f_ic s' = put_ino dp (set_i_di x i) (f_ic s) -> frep s' a -> cache_ok s'.
Proof.
  intros (H1 & [H2 H3] & H4) Hi E [Hc _]. split; [exact Hc|]. unfold ic_ok. rewrite E. cbn [put_ino ic_lock ic_inode]. rewrite length_insert.
  split; [done|]. apply Forall_insert; [done|]. rewrite Forall_lookup in H4. exact (H4 _ _ Hi).
Qed.

(** Offsets of entries. *)
Lemma next_dent k n : (k < n)%nat -> 16 * Z.of_nat n < 2 ^ 31 -> u32 (16 * Z.of_nat k + sizeof_de) = 16 * Z.of_nat (S k).
Proof. intros. unfold sizeof_de. rewrite u32_id by lia. lia. Qed.

Definition dirlookup_post s a i name (r : option (nat * Z)) s' : Prop :=
  match find_entry (logical a) (i_di i) name with
  | None => r = None /\ fsame s s' /\ frep s' a
  | Some k => exists ip l, iget_spec dev (de_inum (dent (logical a) (i_di i) k)) (ic_inode (f_ic s)) = Some (ip, l) /\
      r = Some (ip, 16 * Z.of_nat k) /\ fstep s s' /\ f_ic s' = mkIC (ic_lock (f_ic s)) l /\ frep s' a
  end.

(** The inode of the entry found, from the inode cache. *)
Lemma dirlookup_found s s1 a i name k : cache_ok s1 -> fsame s s1 -> frep s1 a ->
  find_entry (logical a) (i_di i) name = Some k ->
  is_Some (iget_spec dev (de_inum (dent (logical a) (i_di i) k)) (ic_inode (f_ic s))) ->
  wp ((ip <- iget dev (de_inum (dent (logical a) (i_di i) k));; ret (inr (A := Z) (Some (ip, 16 * Z.of_nat k)))) s1)
     (fun r s' => match r with inl _ => False | inr b => dirlookup_post s a i name b s' end).
Proof.
  intros (Hh & Hic & Hpos) [S1 E1] R1 Hf [[ip l] El]. kstep.
  pose proof (iget_ok s1 dev (de_inum (dent (logical a) (i_di i) k)) Hh Hic Hpos) as Hg. rewrite E1, El in Hg.
  eapply wp_mono; [|exact Hg]. intros r s2 (-> & S2). pose proof (frep_inodes _ _ _ _ S2 R1) as R2. destruct S2 as (S2 & E2 & _).
  kstep. unfold dirlookup_post. rewrite Hf. exists ip, l. split; [done|]. split; [done|]. split; [by etransitivity|]. split; [congruence|done].
Qed.

Lemma dirlookup_ok s a dp i name : dir_ok s a dp i -> cache_ok s -> can_log (nlog := nlog) 1 a ->
  (forall k, find_entry (logical a) (i_di i) name = Some k ->
     is_Some (iget_spec dev (de_inum (dent (logical a) (i_di i) k)) (ic_inode (f_ic s)))) ->
  wp (dirlookup dp name s) (dirlookup_post s a i name).
Proof.
  intros Hd Hc Hq Hget. destruct (dents_size _ _ _ _ Hd) as [Es Hs]. pose proof (fo_ino _ _ _ _ _ (dr_file _ _ _ _ Hd)) as Hi.
  unfold dirlookup, ino at 1. kstep. kstep. rewrite (ino_ok _ _ _ Hi), (dr_type _ _ _ _ Hd). change (T_DIR =? T_DIR) with true. cbn [negb].
  apply (wp_while _ (fun off s1 => exists k, off = 16 * Z.of_nat k /\ (k <= ndents (i_di i))%nat /\
    (forall j, (j < k)%nat -> ~ names (logical a) (i_di i) name j) /\ fsame s s1 /\ frep s1 a) (fun off => di_size (i_di i) + 1 - off)).
  - intros off s1 (k & -> & Hk & Hno & S1 & R1). pose proof (dir_ok_same _ _ _ _ _ Hd S1 R1) as Hd1.
    unfold ino. kstep. kstep. rewrite (ino_ok _ _ _ (fo_ino _ _ _ _ _ (dr_file _ _ _ _ Hd1))), (fo_dev _ _ _ _ _ (dr_file _ _ _ _ Hd1)).
    destruct (Z.ltb_spec (16 * Z.of_nat k) (di_size (i_di i))) as [Hlt|Hge]; cbn [negb].
    2:{ kstep. unfold dirlookup_post, find_entry. rewrite find_seq_None; [done|]. intros j Hj. apply Hno. lia. }
    kstep. eapply wp_mono; [|apply (read_dent s1 a dp i k Hd1 Hq); lia]. intros r s2 (-> & S2 & R2).
    assert (fsame s s2) as S02 by by etransitivity. cbn [fst snd]. change (16 =? sizeof_de) with true. cbn [negb].
    assert (names (logical a) (i_di i) name k \/ ~ names (logical a) (i_di i) name k) as [Hn|Hn] by (destruct (decide (names (logical a) (i_di i) name k)); tauto).
    + pose proof Hn as [Hz Hcn]. destruct (Z.eqb_spec (de_inum (dent (logical a) (i_di i) k)) 0); [done|].
      apply namecmp_spec in Hcn. rewrite Hcn. change (0 =? 0) with true. cbv iota.
      assert (find_entry (logical a) (i_di i) name = Some k) as Hf by (apply find_seq_Some; (done || lia)).
      eapply wp_mono; [|apply (dirlookup_found s s2 a i name k); try done; [by eapply cache_ok_same|by apply Hget]].
      by intros [q|q] s3.
    + assert (wp (ret (inl (B := option (nat * Z)) (u32 (16 * Z.of_nat k + sizeof_de))) s2) (fun r s' => match r with
        | inl off' => (exists k', off' = 16 * Z.of_nat k' /\ (k' <= ndents (i_di i))%nat /\
             (forall j, (j < k')%nat -> ~ names (logical a) (i_di i) name j) /\ fsame s s' /\ frep s' a) /\
             di_size (i_di i) + 1 - off' < di_size (i_di i) + 1 - 16 * Z.of_nat k
        | inr b => dirlookup_post s a i name b s' end)) as Hnext.
      { kstep. rewrite (next_dent k (ndents (i_di i))) by lia. split; [|lia]. exists (S k). split; [done|]. split; [lia|]. split; [|done].
        intros j Hj. destruct (decide (j = k)) as [->|]; [done|]. apply Hno. lia. }
      destruct (Z.eqb_spec (de_inum (dent (logical a) (i_di i) k)) 0) as [|Hz]; [exact Hnext|].
      destruct (Z.eqb_spec (namecmp name (de_name (dent (logical a) (i_di i) k))) 0) as [E|]; [|exact Hnext].
      apply namecmp_spec in E. destruct Hn. by split.
  - intros off s1 (k & -> & Hk & _). lia.
  - exists O. split; [done|]. split; [lia|]. split; [intros j Hj; lia|]. split; [done|]. apply Hd.
  - unfold budget. lia.
Qed.

(** ** dirlink *)

(** The bytes of a directory entry. *)
Definition mk_dent (inum : Z) (name : list Z) : list Z := le_encode 2 (u16 inum) ++ strncpy_list name (Z.to_nat DIRSIZ).

Lemma free_scan s a dp i : dir_ok s a dp i -> can_log (nlog := nlog) 1 a ->
  wp (while_ budget (fun off =>
        x <- ino dp;;
        if negb (off <? di_size (i_di x)) then ret (inr off) else
        r <- readi dp None off sizeof_de;;
        if negb (r.1 =? sizeof_de) then panic "dirlink read" else
        if de_inum r.2 =? 0 then ret (inr off) else ret (inl (off + sizeof_de))) 0 s)
     (fun off s' => off = 16 * Z.of_nat (find_free (logical a) (i_di i)) /\ fsame s s' /\ frep s' a).
Proof.
  intros Hd Hq. destruct (dents_size _ _ _ _ Hd) as [Es Hs].
  apply (wp_while _ (fun off s1 => exists k, off = 16 * Z.of_nat k /\ (k <= ndents (i_di i))%nat /\
    (forall j, (j < k)%nat -> de_inum (dent (logical a) (i_di i) j) <> 0) /\ fsame s s1 /\ frep s1 a) (fun off => di_size (i_di i) + 1 - off)).
  - intros off s1 (k & -> & Hk & Hno & S1 & R1). pose proof (dir_ok_same _ _ _ _ _ Hd S1 R1) as Hd1.
    unfold ino. kstep. kstep. rewrite (ino_ok _ _ _ (fo_ino _ _ _ _ _ (dr_file _ _ _ _ Hd1))). unfold find_free.
    destruct (Z.ltb_spec (16 * Z.of_nat k) (di_size (i_di i))) as [Hlt|Hge]; cbn [negb].
    2:{ kstep. rewrite find_seq_None by (intros j Hj; apply Hno; lia). split; [simpl; lia|done]. }
    kstep. eapply wp_mono; [|apply (read_dent s1 a dp i k Hd1 Hq); lia]. intros r s2 (-> & S2 & R2).
    cbn [fst snd]. change (16 =? sizeof_de) with true. cbn [negb]. assert (fsame s s2) as S02 by by etransitivity.
    destruct (Z.eqb_spec (de_inum (dent (logical a) (i_di i) k)) 0) as [Hz|Hz]; kstep.
    + rewrite (find_seq_Some _ _ k) by (done || lia). done.
    + split; [|unfold sizeof_de; lia]. exists (S k). split; [unfold sizeof_de; lia|]. split; [lia|]. split; [|done].
      intros j Hj. destruct (decide (j = k)) as [->|]; [done|]. apply Hno. lia.
  - intros off s1 (k & -> & Hk & _). lia.
  - exists O. split; [done|]. split; [lia|]. split; [intros j Hj; lia|]. split; [done|]. apply Hd.
  - unfold budget. lia.
Qed.

Lemma length_strncpy t n : length (strncpy_list t n) = n.
Proof.
  revert t. induction n as [|n IH]; intros t; [done|]. cbn [strncpy_list]. destruct (chr t =? 0); simpl; [by rewrite length_replicate|by rewrite IH].
Qed.

Lemma strncpy_cstr t n : cstr (strncpy_list t n) = cstr (take n t).
Proof.
  revert t. induction n as [|n IH]; intros t; [done|]. cbn [strncpy_list]. destruct t as [|c t]; unfold chr; cbn [head default id tail take cstr]; [done|].
  destruct (Z.eqb_spec c 0) as [->|Hc]; cbn [cstr]; [done|]. destruct (Z.eqb_spec c 0); [done|]. by rewrite IH.
Qed.

Lemma strncpy_bytes_ok t n : Forall is_byte t -> Forall is_byte (strncpy_list t n).
Proof.
  intros Ht. revert t Ht. induction n as [|n IH]; intros t Ht; [constructor|]. cbn [strncpy_list].
  assert (is_byte 0) as H0 by (unfold is_byte; lia).
  destruct t as [|c t]; unfold chr; cbn [head default id tail].
  - constructor; [done|by apply Forall_replicate].
  - inversion Ht; subst. destruct (c =? 0); constructor; try done; [by apply Forall_replicate|by apply IH].
Qed.

Lemma length_mk_dent inum name : length (mk_dent inum name) = 16%nat.
Proof. unfold mk_dent. by rewrite length_app, length_le_encode, length_strncpy. Qed.

Lemma mk_dent_fields inum name : de_inum (mk_dent inum name) = u16 inum /\ cname (de_name (mk_dent inum name)) = cname name.
Proof.
  unfold mk_dent. split.
  - unfold de_inum, get16. rewrite slice_field. apply le_decode_encode. apply Z.mod_pos_bound. done.
  - unfold de_name. change 2%nat with (2 + 0)%nat at 2. rewrite slice_skip. unfold slice. rewrite drop_0. unfold cname.
    rewrite take_take, Nat.min_id, take_ge by (by rewrite length_strncpy). apply strncpy_cstr.
Qed.

(** The entries of the directory after the bytes of entry [k] are replaced. *)
Lemma dent_written L x L' x' k de j : length de = 16%nat ->
  (forall z, 0 <= z < MAXBYTES -> fbyte L' x' z = if decide (16 * Z.of_nat k <= z < 16 * Z.of_nat k + 16)
     then default 0 (de !! Z.to_nat (z - 16 * Z.of_nat k)) else fbyte L x z) ->
  16 * Z.of_nat j + 16 <= MAXBYTES -> dent L' x' j = if decide (j = k) then de else dent L x j.
Proof.
  intros Hde H Hj. apply list_eq. intros m. destruct (decide (m < 16)%nat) as [Hm|Hm].
  - unfold dent at 1. rewrite lookup_fread, H by lia. case_decide as E.
    + rewrite decide_True by lia. replace (Z.to_nat _) with m by lia. by destruct (lookup_lt_is_Some_2 de m) as [b ->]; [lia|].
    + rewrite decide_False by lia. unfold dent. by rewrite lookup_fread by lia.
  - rewrite lookup_ge_None_2 by (unfold dent; rewrite length_fread; lia). symmetry. apply lookup_ge_None_2.
    case_decide; [lia|]. unfold dent. rewrite length_fread. lia.
Qed.

Lemma nblk_dent k : nblk (16 * Z.of_nat k) 16 = 1.
Proof.
  unfold nblk, BSIZE. set (o := 16 * Z.of_nat k). pose proof (Z.mod_pos_bound o 1024 ltac:(done)) as Hm. pose proof (Z.div_mod o 1024 ltac:(done)) as Hd.
  assert (o mod 1024 mod 16 = 0) as H16.
  { rewrite Z.mod_mod_divide by (by exists 64). unfold o. rewrite Z.mul_comm. by apply Z.mod_mul. }
  assert (o mod 1024 <= 1008) as Hle.
  { pose proof (Z.div_mod (o mod 1024) 16 ltac:(done)) as E. rewrite H16 in E.
    assert (o mod 1024 / 16 < 64) by (apply Z.div_lt_upper_bound; lia). lia. }
  assert ((o + 16 + 1024 - 1) / 1024 = o / 1024 + 1) as ->; [|lia].
  symmetry. apply (Z.div_unique _ _ _ (o mod 1024 + 15)); [left|]; lia.
Qed.

(** The state after a name is entered in a directory. *)
Definition dirlink_post s a dp i name inum s' : Prop := exists a' x',
  let k := find_free (logical a) (i_di i) in
  fput dp (set_i_di x' i) s s' /\ dir_ok s' a' dp (set_i_di x' i) /\
  ndents x' = Nat.max (ndents (i_di i)) (S k) /\
  (forall j, (j < ndents x')%nat -> dent (logical a') x' j = if decide (j = k) then mk_dent inum name else dent (logical a) (i_di i) j) /\
  (forall m, foreign v (logical a) (i_di i) m -> m <> IBLOCK (i_inum i) v -> logical a' m = logical a m) /\
  get_dinode (logical a' (IBLOCK (i_inum i) v)) (Z.to_nat (i_inum i mod IPB)) = x' /\
  (forall m, on_disk a' m = on_disk a m) /\ Z.of_nat (size (pinned a')) <= Z.of_nat (size (pinned a)) + 7.

Lemma find_free_le L x : (find_free L x <= ndents x)%nat.
Proof.
  unfold find_free. destruct (list_find _ _) as [[k y]|] eqn:E; simpl; [|lia].
  apply list_find_Some in E as (Hk & _). apply lookup_seq in Hk. lia.
Qed.

Context (kend : Z) (kend_range : 0 < kend <= PHYSTOP).

Lemma dirlink_ok s a dp i name inum : dir_ok s a dp i -> cache_ok s -> can_log (nlog := nlog) 7 a ->
  (2 <= nfree v (logical a))%nat -> di_size (i_di i) + 16 <= MAXBYTES -> 0 <= i_inum i < sb_ninodes v -> dinode_ok (i_di i) ->
  find_entry (logical a) (i_di i) name = None -> Forall is_byte name ->
  wp (dirlink dp name inum s) (fun r s' => r = 0 /\ dirlink_post s a dp i name inum s').
Proof.
  intros Hd Hc Hq Hfr Hroom Hin Hdi Hnone Hbn. destruct (dents_size _ _ _ _ Hd) as [Es Hs].
  set (k := find_free (logical a) (i_di i)). pose proof (find_free_le (logical a) (i_di i)) as Hk. fold k in Hk.
  assert (can_log (nlog := nlog) 1 a) as Hq1 by (eapply can_log_le; [|exact Hq]; lia).
  unfold dirlink. kstep. eapply wp_mono; [|apply (dirlookup_ok s a dp i name Hd Hc Hq1); intros j Hj; congruence].
  unfold dirlookup_post. rewrite Hnone. intros r s1 (-> & S1 & R1). pose proof (dir_ok_same _ _ _ _ _ Hd S1 R1) as Hd1.
  kstep. eapply wp_mono; [|by apply (free_scan s1 a dp i)]. intros off s2 (-> & S2 & R2). pose proof (dir_ok_same _ _ _ _ _ Hd1 S2 R2) as Hd2. fold k.
  kstep. fold (mk_dent inum name). pose proof Hd2 as [Hf2 Hfull2 Hty2 Hsz2].
  eapply wp_mono; [|apply (writei_ok nlog_fits nlog_pos v Hv kend kend_range s2 a dp i (16 * Z.of_nat k) sizeof_de (inr (mk_dent inum name)) (mk_dent inum name) Hf2 Hfull2)].
  - intros r s3 [-> (a' & x' & S3 & F3 & Full3 & Ex & Eb & Fg & Gd & _ & Dk & Pn)]. change (sizeof_de =? sizeof_de) with true. cbn [negb].
    kstep. split; [done|]. exists a', x'. cbv zeta. fold k.
    assert (di_size x' = Z.max (di_size (i_di i)) (16 * Z.of_nat k + 16)) as Esz by by rewrite Ex.
    assert (ndents x' = Nat.max (ndents (i_di i)) (S k)) as En.
    { unfold ndents at 1. rewrite Esz, Es. replace (Z.max _ _) with (Z.of_nat (Nat.max (ndents (i_di i)) (S k)) * 16) by lia.
      rewrite Z.div_mul by done. lia. }
    split; [eapply same_fput; [|exact S3]; by etransitivity|]. split; [|split; [done|split; [|split; [done|split; [done|split; [done|]]]]]].
    + split; [exact F3|exact Full3|by rewrite Ex|]. cbn [i_di set_i_di]. rewrite Esz, Es. split; [lia|].
      replace (Z.max _ _) with (Z.of_nat (Nat.max (ndents (i_di i)) (S k)) * 16) by lia. by apply Z.mod_mul.
    + intros j Hj. apply (dent_written _ _ _ _ k); [apply length_mk_dent|exact Eb|]. destruct Full3 as [Hm3 _]. rewrite En in Hj. lia.
    + rewrite nblk_dent in Pn. lia.
  - lia.
  - done.
  - unfold sizeof_de. lia.
  - done.
  - cbn [src_read]. rewrite take_ge by (by rewrite length_mk_dent). done.
  - by rewrite length_mk_dent.
  - unfold mk_dent. apply Forall_app. split; [apply le_encode_bytes|by apply strncpy_bytes_ok].
  - unfold sizeof_de. rewrite nblk_dent. done.
  - unfold sizeof_de. rewrite nblk_dent. lia.
  - done.
  - done.
Qed.
End dir.
