(* ===== verification/FsSpec.v ===== *)
(** * The file system over the log

    The properties of fs.c, for any transactional store with the interface
    [TxnStore]; the witnesses run them on log.c over bio.c, on a disk with the
    layout of mkfs.c and a root directory. *)
From S2P Require Import Prelude Machine KString Spinlock Kalloc Vm UserMem AddrSpace VmSpec Bio Block Log LogSpec Env Txn.
From S2P Require Import Fs FsBlock FsFile FsInode FsWrite FsPath FsDir.
Local Open Scope Z_scope.
Local Open Scope kernel_scope.

Section inode_cache.
Context {T B : Type} {dev logstart nlog : Z} `{TS : !TxnStore T B dev logstart nlog}.
Implicit Types (s : @fss T).

(** C20: iget keeps one in-memory inode per disk inode.  It returns an entry for
    (dev, inum) with one more reference than before, an entry not in use only if
    there was none for it, and the cache still holds every (dev, inum) at most
    once; when the inode is not cached and no entry is free it panics. *)
Theorem iget_unique s d inum : hart_ok (view fH s) -> ic_ok s -> ic_unique (ic_inode (f_ic s)) ->
  match iget_spec d inum (ic_inode (f_ic s)) with
  | Some (ip, l) => wp (iget d inum s) (fun r s' => r = ip /\ f_ic s' = mkIC (ic_lock (f_ic s)) l) /\ ic_unique l /\
      exists i i', ic_inode (f_ic s) !! ip = Some i /\ l = <[ip := i']> (ic_inode (f_ic s)) /\ in_cache d inum i' /\
        i_ref i' = i_ref i + 1 /\
        (in_cache d inum i \/ i_ref i = 0 /\ forall k y, ic_inode (f_ic s) !! k = Some y -> ~ in_cache d inum y)
  | None => iget d inum s = Panic "iget: no inodes" /\
      forall k y, ic_inode (f_ic s) !! k = Some y -> ~ in_cache d inum y /\ 0 < i_ref y
  end.
Proof.
  intros Hh Hok Hu. pose proof (iget_ok s d inum Hh Hok (proj1 Hu)) as H. destruct (iget_spec _ _ _) as [[ip l]|] eqn:E.
  - split; [eapply wp_mono; [|exact H]; by intros r s' (-> & _ & -> & _)|]. split; [by eapply iget_spec_unique|].
    destruct (iget_spec_entry _ _ _ _ _ E) as (i & i' & H1 & H2 & H3 & H4 & [H5|(H5 & _ & H6)]); exists i, i'; naive_solver.
  - split; [exact H|]. unfold iget_spec in E. destruct (list_find (in_cache d inum) _) as [[? ?]|] eqn:E1; [done|].
    destruct (list_find (fun i => i_ref i = 0) _) as [[? ?]|] eqn:E2; [done|]. apply list_find_None in E1, E2.
    intros k y Hk. rewrite Forall_lookup in E1, E2. split; [exact (E1 k y Hk)|]. destruct Hu as [Hp _]. rewrite Forall_lookup in Hp.
    pose proof (Hp k y Hk). pose proof (E2 k y Hk). simpl in *. lia.
Qed.

End inode_cache.

(** skipelem takes path names apart as intended.  Applied to a path it
    returns 0 exactly when the path has no elements left; otherwise it leaves
    the first element, cut to DIRSIZ characters, in the name buffer and returns
    the rest of the path, which starts at the next element and is empty exactly
    when that was the last one. *)
Theorem skipelem_first path name : no_nul path -> length name = Z.to_nat DIRSIZ ->
  match elems path with
  | [] => skipelem path name = None
  | e :: es => exists rest name', skipelem path name = Some (rest, name') /\ elems rest = es /\ no_nul rest /\
      (chr rest = 0 <-> es = []) /\ cname name' = take (Z.to_nat DIRSIZ) e /\ length name' = Z.to_nat DIRSIZ
  end.
Proof. apply skipelem_spec. Qed.

Section spec.
Context {T B : Type} {dev logstart nlog : Z} `{TS : !TxnStore T B dev logstart nlog}.
Context (nlog_fits : nlog <= NBUF) (nlog_pos : 0 < nlog).
Context (v : superblock) (Hv : layout (logstart := logstart) (nlog := nlog) v).
Context (kend : Z) (kend_range : 0 < kend <= PHYSTOP).
Implicit Types (s : @fss T) (a : acache B).

(** balloc takes the lowest-numbered free block.  When some block is free it
    returns the first one, a data block; afterwards that block is marked in use,
    every other block is as free as before, its contents are zero, and no other
    block but the bitmap block has changed. *)
Theorem balloc_first_free s a q : f_sb s = v -> frep s a -> holds_data v a -> meta_used v (logical a) ->
  can_log (nlog := nlog) q a -> 2 <= q -> Z.of_nat (size (held a)) < q -> (0 < nfree v (logical a))%nat ->
  wp (balloc dev s) (fun n s' => exists a', frep s' a' /\ fsame s s' /\ held a' = held a /\
    data_block v n /\ used v (logical a) n = false /\ (forall b, 0 <= b < n -> used v (logical a) b = true) /\
    logical a' n = zero_block /\
    (forall b, 0 <= b < sb_size v -> used v (logical a') b = if decide (b = n) then true else used v (logical a) b) /\
    (forall m, m <> n -> m <> BBLOCK n v -> logical a' m = logical a m)).
Proof.
  intros Hsb Hr Hh Hm Hq Hq2 Hs Hf. eapply wp_mono; [|apply (balloc_ok nlog_fits v Hv nlog_pos s a q); try done; by apply nfree_exists].
  intros n s' (S & R & F). pose proof (first_free_data v _ _ Hm F) as D. destruct F as (F1 & F2 & F3). exists (a_alloc v n a).
  split_and!; try done.
  - rewrite logical_alloc. by rewrite decide_True.
  - intros b Hb. apply (used_alloc v Hv nlog_pos); [done|intros m; by eapply frep_blocks|done].
  - intros m H1 H2. rewrite logical_alloc, !decide_False by done. done.
Qed.

(** bfree gives back what balloc took.  Freeing the block just allocated
    succeeds and leaves every bitmap block exactly as it was before the
    allocation. *)
Theorem balloc_bfree_roundtrip s a q : f_sb s = v -> frep s a -> held a = ∅ -> meta_used v (logical a) ->
  can_log (nlog := nlog) q a -> 3 <= q -> (0 < nfree v (logical a))%nat ->
  wp ((n <- balloc dev;; bfree dev n;; ret n) s) (fun n s' => exists a', frep s' a' /\ fsame s s' /\ data_block v n /\
    forall m, m <> n -> logical a' m = logical a m).
Proof.
  intros Hsb Hr Hh Hm Hq Hq3 Hf. kstep.
  eapply wp_mono; [|apply (balloc_ok nlog_fits v Hv nlog_pos s a q); try done; [by apply holds_none|lia|rewrite Hh, map_size_empty; lia|by apply nfree_exists]].
  intros n s1 (S1 & R1 & F1). pose proof (first_free_data v _ _ Hm F1) as D. destruct F1 as (F1 & F2 & F3).
  assert (forall m, block_ok (logical a m)) as Hblk by (intros m; by eapply frep_blocks).
  set (a1 := a_alloc v n a) in *. assert (logical a1 (BBLOCK n v) = set_bit (logical a (BBLOCK n v)) (n mod BPB)) as E1.
  { unfold a1. rewrite logical_alloc, decide_False, decide_True; [done|done|]. intros E. by apply (data_not_bitmap v Hv nlog_pos n n D F1). }
  kstep. eapply wp_mono; [|apply (bfree_ok nlog_fits v Hv nlog_pos s1 a1 n 1); try done].
  - intros [] s2 [S2 R2]. kstep. eexists. split; [exact R2|]. split; [by etransitivity|]. split; [done|]. intros m Hne.
    rewrite logical_update. case_decide as Em.
    + subst m. rewrite E1. apply clear_set_bit; [done|apply bit_range|]. exact F2.
    + unfold a1. rewrite logical_alloc, !decide_False by done. done.
  - by rewrite (fsame_sb _ _ S1).
  - apply holds_none. done.
  - unfold a1. rewrite (used_alloc v Hv nlog_pos) by done. by rewrite decide_True.
  - unfold can_log in *. destruct (alloc_pinned v Hv nlog_pos a n) as [_ Hp]. fold a1 in Hp. lia.
  - change (held a1) with (held a). rewrite Hh, map_size_empty. lia.
Qed.

(** bmap never changes the contents of a file.  It returns the number of a
    data block in use that holds block [bn] of the file; allocating direct
    blocks, the indirect block or its entries only fills holes with zeros, keeps
    the blocks of the file distinct, and leaves every other block in use alone. *)
Theorem bmap_transparent s a ip i bn q : file_ok v s a ip i (dev := dev) -> 0 <= bn < MAXFILE -> can_log (nlog := nlog) q a ->
  5 * Z.of_nat (hole (logical a) (i_di i) bn) + 1 <= q -> (2 * hole (logical a) (i_di i) bn <= nfree v (logical a))%nat ->
  wp (bmap ip bn s) (fun r s' => exists a' x', fput ip (set_i_di x' i) s s' /\ frep s' a' /\ file_wf v (logical a') x' /\
    data_block v r /\ used v (logical a') r = true /\ logical a' r = fblk (logical a) (i_di i) bn /\
    (forall k, 0 <= k < MAXFILE -> fblk (logical a') x' k = fblk (logical a) (i_di i) k) /\
    (forall n, foreign v (logical a) (i_di i) n -> logical a' n = logical a n)).
Proof.
  intros Hok Hbn Hq Hq5 Hf. eapply wp_mono; [|by apply (bmap_ok nlog_fits nlog_pos v Hv s a ip i bn q)].
  intros r s' (a' & x' & S & R & G & -> & Hnz). exists a', x'. pose proof (gr_wf _ _ _ _ _ _ _ G) as W. destruct (fw_data _ _ _ W bn Hbn Hnz) as [D U].
  pose proof (grows_evolves v _ _ _ _ _ _ (fo_wf _ _ _ _ _ Hok) G) as E.
  split_and!; try done.
  - rewrite <- (gr_blk _ _ _ _ _ _ _ G) by done. unfold fblk. by destruct (Z.eqb_spec (baddr (logical a') x' bn) 0).
  - intros k Hk. by apply (gr_blk _ _ _ _ _ _ _ G).
  - intros n Hn. apply (ev_foreign _ _ _ _ _ _ _ E n Hn).
Qed.

(** C5: readi copies the bytes of the file to user memory.  Of a request for
    [n0] bytes at [off] it stores the bytes up to the end of the file at [va]
    and returns their number; it fails with -1 only when part of the destination
    is not mapped, having stored a prefix.  Nothing on the disk changes. *)
Theorem readi_reads s a ip i off n0 va l (n := Z.min n0 (di_size (i_di i) - off)) :
  file_ok v s a ip i (dev := dev) -> full (logical a) (i_di i) -> can_log (nlog := nlog) 1 a ->
  0 <= off <= di_size (i_di i) -> 0 <= n0 <= 2 ^ 32 - 1 - off -> env_ok kend (f_env s) l -> 0 <= va -> va + n < 2 ^ 64 ->
  wp (readi ip (Some va) off n0 s) (fun r s' => fuser s s' /\ frep s' a /\
    exists k, 0 <= k <= n /\ (r.1 = n /\ k = n \/ r.1 = -1 /\ uread (f_env s) va (Z.to_nat n) = None) /\
      forall va', 0 <= va' -> ubyte (f_env s') va' =
        if decide (va <= va' < va + k) then Some (fbyte (logical a) (i_di i) (off + (va' - va))) else ubyte (f_env s) va').
Proof.
  intros. eapply wp_mono; [|by apply (readi_user nlog_fits nlog_pos v Hv kend kend_range s a ip i off n0 va l)].
  intros r s' (S & R & _ & k & Hk & Hm & Hr). split; [done|]. split; [done|]. exists k. done.
Qed.

(** C4: writei replaces the bytes [off, off+n) of a file and nothing else.  The
    other bytes of the file keep their values, the size grows to [off+n] when
    the write goes beyond the end, the inode block holds the new inode and the
    other inodes of that block are unchanged, and so is every block that is not
    part of the file or of the bitmap. *)
Theorem writei_replaces s a ip i off n src bytes :
  file_ok v s a ip i (dev := dev) -> full (logical a) (i_di i) -> 0 <= off <= di_size (i_di i) -> 0 <= n -> off + n <= MAXBYTES ->
  src_ok kend (f_env s) src -> src_read (f_env s) src n = Some bytes -> Z.of_nat (length bytes) = n -> Forall is_byte bytes ->
  can_log (nlog := nlog) (6 * nblk off n + 1) a -> 2 * nblk off n <= Z.of_nat (nfree v (logical a)) ->
  0 <= i_inum i < sb_ninodes v -> dinode_ok (i_di i) ->
  wp (writei ip src off n s) (fun r s' => r = n /\ exists a' x', fput ip (set_i_di x' i) s s' /\
    file_ok v s' a' ip (set_i_di x' i) (dev := dev) /\ full (logical a') x' /\
    di_size x' = Z.max (di_size (i_di i)) (off + n) /\
    (forall z, 0 <= z < MAXBYTES -> fbyte (logical a') x' z =
       if decide (off <= z < off + n) then default 0 (bytes !! Z.to_nat (z - off)) else fbyte (logical a) (i_di i) z) /\
    get_dinode (logical a' (IBLOCK (i_inum i) v)) (Z.to_nat (i_inum i mod IPB)) = x' /\
    (forall j, (j < 16)%nat -> j <> Z.to_nat (i_inum i mod IPB) ->
       get_dinode (logical a' (IBLOCK (i_inum i) v)) j = get_dinode (logical a (IBLOCK (i_inum i) v)) j) /\
    (forall m, foreign v (logical a) (i_di i) m -> m <> IBLOCK (i_inum i) v -> logical a' m = logical a m)).
Proof.
  intros. eapply wp_mono; [|by apply (writei_ok nlog_fits nlog_pos v Hv kend kend_range s a ip i off n src bytes)].
  intros r s' [-> (a' & x' & H1' & H2' & H3' & Ex & H5' & H6' & H7' & H8' & _)]. split; [done|]. exists a', x'.
  split_and!; try done. by rewrite Ex.
Qed.

(** C6: what was written is read back.  Writing [bytes] from a kernel buffer at
    [off] and reading as many bytes at [off] returns exactly [bytes]. *)
Theorem writei_readi_roundtrip s a ip i off bytes (n := Z.of_nat (length bytes)) :
  file_ok v s a ip i (dev := dev) -> full (logical a) (i_di i) -> 0 <= off <= di_size (i_di i) -> off + n <= MAXBYTES ->
  Forall is_byte bytes -> can_log (nlog := nlog) (6 * nblk off n + 3) a -> 2 * nblk off n <= Z.of_nat (nfree v (logical a)) ->
  0 <= i_inum i < sb_ninodes v -> dinode_ok (i_di i) ->
  wp ((_ <- writei ip (inr bytes) off n;; readi ip None off n) s) (fun r _ => r = (n, bytes)).
Proof.
  intros Hok Hfull Hoff Hmax Hb Hlog Hfree Hin Hdi. assert (MAXBYTES < 2 ^ 31) as Hmb by done. kstep.
  eapply wp_mono; [|apply (writei_ok nlog_fits nlog_pos v Hv kend kend_range s a ip i off n (inr bytes) bytes); try done; [lia| |]].
  - intros r s1 [_ (a' & x' & S1 & Ok1 & Full1 & Ex & Eb & _ & _ & _ & _ & Pn)].
    assert (di_size x' = Z.max (di_size (i_di i)) (off + n)) as Esz by by rewrite Ex.
    eapply wp_mono; [|apply (readi_kernel nlog_fits nlog_pos v Hv s1 a' ip (set_i_di x' i) off n Ok1 Full1); cbn [i_di set_i_di]; [unfold can_log in *|..]; lia].
    intros r' s2 (-> & _). cbn [i_di set_i_di]. rewrite Z.min_l by lia. f_equal. apply list_eq. intros k.
    destruct (decide (Z.of_nat k < n)) as [Hk|Hk].
    + rewrite lookup_fread, Eb, decide_True by lia. replace (off + Z.of_nat k - off) with (Z.of_nat k) by lia. rewrite Nat2Z.id.
      by destruct (lookup_lt_is_Some_2 bytes k) as [b ->]; [lia|].
    + rewrite !lookup_ge_None_2; [done|lia|rewrite length_fread; lia].
  - cbn [src_read]. rewrite take_ge by lia. done.
  - eapply can_log_le; [|exact Hlog]. lia.
Qed.

(** C19: a name entered with dirlink is found by dirlookup.  When the name is not
    in the directory, dirlink returns 0, and every other entry of the directory is
    unchanged.  Then dirlookup of the name, run in the state dirlink left, returns
    an entry of the inode cache for the inode number linked, and the offset of
    the directory entry that was free (or the end). *)
Theorem dirlink_dirlookup s a dp i name inum (k := find_free (logical a) (i_di i)) :
  dir_ok v s a dp i (dev := dev) -> cache_ok s -> can_log (nlog := nlog) 8 a ->
  (2 <= nfree v (logical a))%nat -> di_size (i_di i) + 16 <= MAXBYTES -> 0 <= i_inum i < sb_ninodes v -> dinode_ok (i_di i) ->
  find_entry (logical a) (i_di i) name = None -> Forall is_byte name -> 0 < inum < 2 ^ 16 ->
  is_Some (iget_spec dev inum (ic_inode (f_ic s))) ->
  wp (dirlink dp name inum s) (fun r s' => r = 0 /\ exists a' x', dir_ok v s' a' dp (set_i_di x' i) (dev := dev) /\
    (forall j, (j < ndents (i_di i))%nat -> j <> k -> dent (logical a') x' j = dent (logical a) (i_di i) j) /\
    wp (dirlookup dp name s') (fun r2 s2 => exists ip e, r2 = Some (ip, 16 * Z.of_nat k) /\
      ic_inode (f_ic s2) !! ip = Some e /\ in_cache dev inum e /\ frep s2 a')).
Proof.
  intros Hd Hc Hq Hf Hr Hi Hdi Hnone Hb Hin Hget.
  eapply wp_mono; [|apply (dirlink_ok nlog_fits nlog_pos v Hv kend kend_range s a dp i name inum); try done; eapply can_log_le; [|exact Hq]; lia].
  intros r s' (-> & a' & x' & Hput & Hd' & En & Ed & _ & _ & _ & Hpin). cbv zeta in *. fold k in En, Ed. split; [done|]. exists a', x'. split; [done|].
  destruct (mk_dent_fields inum name) as [F1 F2]. assert (u16 inum = inum) as Eu by (unfold u16; apply Z.mod_small; lia).
  assert (dent (logical a') x' k = mk_dent inum name) as Ek by (rewrite Ed by lia; by rewrite decide_True).
  split; [intros j Hj Hne; rewrite Ed, decide_False by lia; done|].
  assert (find_entry (logical a') x' name = Some k) as Hfind.
  { apply find_seq_Some; [lia|split; [rewrite Ek, F1, Eu; lia|by rewrite Ek, F2]|]. intros j Hj [Hz Hn].
    assert (j < ndents (i_di i))%nat as Hjn by (pose proof (find_free_le (logical a) (i_di i)); lia).
    rewrite Ed, decide_False in Hz, Hn by lia. unfold find_entry in Hnone.
    destruct (list_find _ _) as [[? ?]|] eqn:E in Hnone; [done|]. apply list_find_None in E. rewrite Forall_lookup in E.
    apply (E j j); [by rewrite lookup_seq_lt|by split]. }
  pose proof (fo_ino _ _ _ _ _ (dr_file _ _ _ _ _ Hd)) as Hat. destruct Hput as [_ Eic].
  assert (is_Some (iget_spec dev inum (ic_inode (f_ic s')))) as Hget' by (rewrite Eic; by apply iget_spec_di).
  eapply wp_mono; [|apply (dirlookup_ok nlog_fits nlog_pos v Hv s' a' dp (set_i_di x' i) name Hd')].
  - intros r2 s2 H2. unfold dirlookup_post in H2. cbn [i_di set_i_di] in H2. rewrite Hfind, Ek, F1, Eu in H2.
    destruct H2 as (ip & l & E & -> & _ & El & R). destruct (iget_spec_entry _ _ _ _ _ E) as (e0 & e & He0 & -> & He & _).
    exists ip, e. split; [done|]. rewrite El. cbn [ic_inode]. split; [|done]. apply list_lookup_insert_eq. by eapply lookup_lt_Some.
  - apply (cache_ok_put s s' a' dp i x'); [done|exact Hat|done|apply Hd'].
  - unfold can_log in *. lia.
  - intros j Hj. cbn [i_di set_i_di] in Hj |- *. rewrite Hfind in Hj. injection Hj as <-. by rewrite Ek, F1, Eu.
Qed.
End spec.

(** ** A disk of mkfs with a root directory *)
Section example.
Local Instance disk_cache : BlockCache bcache nat 1 := bio_cache 1 ltac:(done).
Local Instance disk_store : TxnStore (log * bcache) nat 1 2 30 := log_store 2 30.

Definition mkfs_sb : superblock := mkSb FSMAGIC 1000 954 200 (mkSbLog 2 30) 32 45.
Definition root_bitmap : list Z := replicate 5 255 ++ [127] ++ replicate 1018 0.
Definition root_block : list Z := mk_dent 1 [46] ++ mk_dent 1 [46; 46] ++ replicate 992 0.
Definition root_disk : Z -> list Z := <[46 := root_block]> (<[45 := root_bitmap]> blank).
Definition root_di : dinode := mkDi T_DIR 0 0 1 32 (46 :: replicate 12 0).
Definition root_inode : inode := mkInode 1 1 1 (initsleeplock "inode") 1 root_di.
Definition root_ic : icache := mkIC (initlock "icache") (root_inode :: replicate 49 no_inode).

Lemma mkfs_layout : layout (logstart := 2) (nlog := 30) mkfs_sb.
Proof. by split. Qed.

Definition bytes_ok (l : list Z) : bool := forallb (fun b => (0 <=? b) && (b <? 256)) l.
Lemma bytes_ok_spec l : bytes_ok l = true -> Forall is_byte l.
Proof.
  intros H. apply Forall_forall. intros b Hb. unfold bytes_ok in H. rewrite forallb_forall in H.
  apply list_elem_of_In, H, andb_true_iff in Hb as [H1 H2]. apply Z.leb_le in H1. apply Z.ltb_lt in H2. by split.
Qed.

Lemma root_disk_ok k : block_ok (root_disk k).
Proof.
  unfold root_disk. destruct (decide (k = 46)) as [->|]; [rewrite fn_lookup_insert; split; [done|by apply bytes_ok_spec]|].
  rewrite fn_lookup_insert_ne by done. destruct (decide (k = 45)) as [->|]; [rewrite fn_lookup_insert; split; [done|by apply bytes_ok_spec]|].
  rewrite fn_lookup_insert_ne by done. apply zero_block_ok.
Qed.

Lemma root_hdr : hdr_ok 2 30 (root_disk 2) /\ hdr_n (root_disk 2) = 0.
Proof.
  unfold root_disk. rewrite !fn_lookup_insert_ne by done. split; [|done]. apply blank_hdr.
Qed.

(** The store inside a transaction, on the given disk. *)
Lemma booted_store D : (forall k, block_ok (D k)) -> hdr_ok 2 30 (D 2) -> hdr_n (D 2) = 0 ->
  exists t (a : acache nat), t_rep 1 t a /\ held a = ∅ /\ pinned a = ∅ /\ forall k, k <> 2 -> logical a k = D k.
Proof.
  intros HD Hh Hn0.
  assert (wp _ _) as H by (apply (restart_ok init_ctx bss_log mkfs_log D reset_init mkfs_log_ok); [done|done|exact Hh]).
  destruct (proj1 (wp_inv _ _) H) as ([] & s & _ & a & Hok & Hcx & H1 & H2 & H3 & H4 & H5 & H6 & _ & H7). clear H.
  assert (may_begin (ls_log s) = true) as Hb by (unfold may_begin; by rewrite H4, H2, H3).
  destruct (proj1 (wp_inv _ _) (begin_op_ok s a Hok Hb)) as ([] & s1 & _ & Hok1 & Hc1 & _ & El1).
  exists (ls_log s1, ls_cache s1), a.
  assert (pinned a = ∅) as Hp. { rewrite (to_pin _ _ Hok). unfold txn. rewrite H2. done. }
  split; [|split; [exact H1|split; [exact Hp|]]].
  - change (t_rep 1 (ls_log s1, ls_cache s1) a) with (log_rep 2 30 (cx_pid init_ctx) (ls_log s1, ls_cache s1) a).
    replace (cx_pid init_ctx) with (cx_pid (ls_ctx s1)) by (rewrite (cx_same_pid _ _ Hc1); apply Hcx).
    apply log_rep_intro.
    + destruct s1 as [c1 l1 t1]. exact Hok1.
    + rewrite El1. cbn [lg_outstanding set_outstanding]. rewrite H3. lia.
    + rewrite El1. exact H5.
    + rewrite El1. exact H6.
  - intros k Hk. destruct (H7 k) as [-> _]. change (lg_start mkfs_log) with 2. by apply recovered_noop.
Qed.

Lemma root_bblock b : 0 <= b < 1000 -> BBLOCK b mkfs_sb = 45.
Proof. intros Hb. unfold BBLOCK. change BPB with 8192. rewrite Z.div_small by lia. done. Qed.

Lemma root_used (L : Z -> list Z) b : L 45 = root_bitmap -> 0 <= b < 1000 -> used mkfs_sb L b = bool_decide (b < 47).
Proof.
  intros HL Hb. unfold used. rewrite root_bblock, HL by done. change BPB with 8192. rewrite Z.mod_small by lia.
  assert (forall k, (k < 1000)%nat -> bit_of root_bitmap (Z.of_nat k) = bool_decide (Z.of_nat k < 47)) as H.
  { intros k Hk. assert (forallb (fun k => eqb (bit_of root_bitmap (Z.of_nat k)) (bool_decide (Z.of_nat k < 47))) (seq 0 1000) = true) as E by (vm_compute; done).
    rewrite forallb_forall in E. apply eqb_prop, E, in_seq. lia. }
  replace b with (Z.of_nat (Z.to_nat b)) by lia. apply H. lia.
Qed.

Lemma root_baddr (L : Z -> list Z) bn : 0 <= bn < MAXFILE -> baddr L root_di bn = if decide (bn = 0) then 46 else 0.
Proof.
  intros Hbn. unfold baddr. destruct (Z.ltb_spec bn NDIRECT) as [Hlt|]; [|case_decide; [unfold NDIRECT in *; lia|done]].
  unfold NDIRECT in Hlt. case_decide as E; [by subst|]. unfold addr_at, root_di. cbn [di_addrs].
  destruct (Z.to_nat bn) as [|k] eqn:Ek; [lia|]. rewrite lookup_cons. destruct (replicate 12 0 !! k) eqn:Er; [|done].
  by apply lookup_replicate in Er as [-> _].
Qed.

Lemma root_wf (L : Z -> list Z) : L 45 = root_bitmap -> file_wf mkfs_sb L root_di.
Proof.
  intros HL. split; [done|..].
  - intros bn Hbn. rewrite root_baddr by done. case_decide; [|done]. intros _. split; [unfold data_block, data_start; simpl; lia|]. by rewrite root_used.
  - done.
  - intros i j Hi Hj. rewrite !root_baddr by done. repeat case_decide; (done || lia).
  - intros i Hi. rewrite root_baddr by done. by case_decide.
Qed.

Lemma root_nfree (L : Z -> list Z) : L 45 = root_bitmap -> nfree mkfs_sb L = 953%nat.
Proof.
  intros HL. unfold nfree. rewrite (filter_ext_in _ (fun b => bool_decide (b < 47) = false)); [by vm_compute|].
  intros b Hb. apply elem_of_seqZ in Hb. simpl in Hb. by rewrite root_used by (done || lia).
Qed.

Lemma root_full (L : Z -> list Z) : full L root_di.
Proof.
  split; [done|]. intros bn H1 H2. unfold BSIZE in H2. simpl in H2. rewrite root_baddr by (change MAXFILE with 268; lia). by rewrite decide_True by lia.
Qed.

Lemma root_di_ok : dinode_ok root_di.
Proof. split; try done. unfold root_di. cbn [di_addrs]. constructor; [done|]. by apply Forall_replicate. Qed.

(** The file system running on it, inside a transaction of a user process. *)
Lemma root_fs : exists (s : @fss (log * bcache)) (a : acache nat) l, file_ok mkfs_sb s a 0 root_inode (dev := 1) /\ pinned a = ∅ /\
  f_ic s = root_ic /\ hart_ok (view fH s) /\ env_ok end8 (f_env s) l /\ (exists b, ubyte (f_env s) 0 = Some b) /\
  logical a 45 = root_bitmap /\ logical a 46 = root_block.
Proof.
  destruct (booted_store root_disk root_disk_ok (proj1 root_hdr) (proj2 root_hdr)) as (t & a & Hr & Hh & Hp & HL).
  destruct booted_env as (e & l & He & _ & Hb & Hpid & _). exists (FSS e t root_ic mkfs_sb 0%nat), a, l.
  assert (logical a 45 = root_bitmap) as H45 by (rewrite HL by done; done).
  assert (logical a 46 = root_block) as H46 by (rewrite HL by done; done).
  assert (hart_ok (view envH e)) as Hhart by apply He.
  split; [|exact (conj Hp (conj eq_refl (conj Hhart (conj He (conj Hb (conj H45 H46))))))].
  split; try done.
  - split; [exact Hhart|]. cbn [f_env f_t]. by rewrite Hpid.
  - intros b Hb'. change (data_start mkfs_sb) with 46 in Hb'. rewrite root_used by (done || lia). apply bool_decide_eq_true_2. lia.
  - by apply root_wf.
Qed.

Lemma root_log k (a : acache nat) : pinned a = ∅ -> k < 30 -> can_log (nlog := 30) k a.
Proof. intros Hp Hk. unfold can_log. rewrite Hp, size_empty. lia. Qed.

Lemma balloc_first_free_witness : exists (s : @fss (log * bcache)) (a : acache nat), nfree mkfs_sb (logical a) = 953%nat /\
  wp (balloc 1 s) (fun n s' => exists a', frep s' a' /\ fsame s s' /\ held a' = held a /\
    data_block mkfs_sb n /\ used mkfs_sb (logical a) n = false /\ (forall b, 0 <= b < n -> used mkfs_sb (logical a) b = true) /\
    logical a' n = zero_block /\
    (forall b, 0 <= b < sb_size mkfs_sb -> used mkfs_sb (logical a') b = if decide (b = n) then true else used mkfs_sb (logical a) b) /\
    (forall m, m <> n -> m <> BBLOCK n mkfs_sb -> logical a' m = logical a m)).
Proof.
  destruct root_fs as (s & a & l & [H1 H2 H3 H4 H5 H6 H7] & Hp & _ & _ & _ & _ & H45 & _). exists s, a.
  pose proof (root_nfree _ H45) as Hn. split; [exact Hn|].
  apply (balloc_first_free ltac:(done) ltac:(done) mkfs_sb mkfs_layout s a 2); try exact H1; try exact H2; try exact H4.
  - by apply holds_none.
  - by apply root_log.
  - lia.
  - rewrite H3, map_size_empty. lia.
  - rewrite Hn. lia.
Defined.

Lemma balloc_bfree_roundtrip_witness : exists (s : @fss (log * bcache)) (a : acache nat), nfree mkfs_sb (logical a) = 953%nat /\
  wp ((n <- balloc 1;; bfree 1 n;; ret n) s) (fun n s' => exists a', frep s' a' /\ fsame s s' /\ data_block mkfs_sb n /\
    forall m, m <> n -> logical a' m = logical a m).
Proof.
  destruct root_fs as (s & a & l & [H1 H2 H3 H4 H5 H6 H7] & Hp & _ & _ & _ & _ & H45 & _). exists s, a.
  pose proof (root_nfree _ H45) as Hn. split; [exact Hn|].
  apply (balloc_bfree_roundtrip ltac:(done) ltac:(done) mkfs_sb mkfs_layout s a 3); try exact H1; try exact H2; try exact H3; try exact H4.
  - by apply root_log.
  - lia.
  - rewrite Hn. lia.
Defined.

Lemma bmap_transparent_witness : exists (s : @fss (log * bcache)) (a : acache nat), baddr (logical a) root_di 1 = 0 /\
  wp (bmap 0 1 s) (fun r s' => exists a' x', fput 0 (set_i_di x' root_inode) s s' /\ frep s' a' /\ file_wf mkfs_sb (logical a') x' /\
    data_block mkfs_sb r /\ used mkfs_sb (logical a') r = true /\ logical a' r = fblk (logical a) root_di 1 /\
    (forall k, 0 <= k < MAXFILE -> fblk (logical a') x' k = fblk (logical a) root_di k) /\
    (forall n, foreign mkfs_sb (logical a) root_di n -> logical a' n = logical a n)).
Proof.
  destruct root_fs as (s & a & l & Hok & Hp & _ & _ & _ & _ & H45 & _). exists s, a. pose proof (root_nfree _ H45) as Hn.
  assert (baddr (logical a) root_di 1 = 0) as Hb by (rewrite root_baddr by done; done). split; [exact Hb|].
  assert (hole (logical a) root_di 1 = 1%nat) as Hh by (unfold hole; by rewrite Hb).
  apply (bmap_transparent ltac:(done) ltac:(done) mkfs_sb mkfs_layout s a 0 root_inode 1 6 Hok); cbn [i_di root_inode]; rewrite ?Hh, ?Hn; try done || lia.
  by apply root_log.
Defined.

Lemma readi_reads_witness : exists (s : @fss (log * bcache)) (a : acache nat),
  wp (readi 0 (Some 0) 0 1 s) (fun r s' => fuser s s' /\ frep s' a /\
    exists k, 0 <= k <= 1 /\ (r.1 = 1 /\ k = 1 \/ r.1 = -1 /\ uread (f_env s) 0 1 = None) /\
      forall va', 0 <= va' -> ubyte (f_env s') va' =
        if decide (0 <= va' < 0 + k) then Some (fbyte (logical a) root_di (0 + (va' - 0))) else ubyte (f_env s) va').
Proof.
  destruct root_fs as (s & a & l & Hok & Hp & _ & _ & He & _ & H45 & _). exists s, a.
  apply (readi_reads (dev := 1) ltac:(done) ltac:(done) mkfs_sb mkfs_layout end8 ltac:(done) s a 0 root_inode 0 1 0 l); try exact Hok; try exact He; try done.
  - apply root_full.
  - by apply root_log.
Defined.

Lemma nblk_short : nblk 32 3 = 1.
Proof. done. Qed.

Lemma writei_replaces_witness : exists (s : @fss (log * bcache)) (a : acache nat),
  wp (writei 0 (inr [7; 8; 9]) 32 3 s) (fun r s' => r = 3 /\ exists a' x', fput 0 (set_i_di x' root_inode) s s' /\
    file_ok mkfs_sb s' a' 0 (set_i_di x' root_inode) (dev := 1) /\ full (logical a') x' /\
    di_size x' = Z.max 32 (32 + 3) /\
    (forall z, 0 <= z < MAXBYTES -> fbyte (logical a') x' z =
       if decide (32 <= z < 32 + 3) then default 0 ([7; 8; 9] !! Z.to_nat (z - 32)) else fbyte (logical a) root_di z) /\
    get_dinode (logical a' (IBLOCK 1 mkfs_sb)) (Z.to_nat (1 mod IPB)) = x' /\
    (forall j, (j < 16)%nat -> j <> Z.to_nat (1 mod IPB) ->
       get_dinode (logical a' (IBLOCK 1 mkfs_sb)) j = get_dinode (logical a (IBLOCK 1 mkfs_sb)) j) /\
    (forall m, foreign mkfs_sb (logical a) root_di m -> m <> IBLOCK 1 mkfs_sb -> logical a' m = logical a m)).
Proof.
  destruct root_fs as (s & a & l & Hok & Hp & _ & _ & He & _ & H45 & _). exists s, a. pose proof (root_nfree _ H45) as Hn.
  apply (writei_replaces (dev := 1) ltac:(done) ltac:(done) mkfs_sb mkfs_layout end8 ltac:(done) s a 0 root_inode 32 3 (inr [7; 8; 9]) [7; 8; 9]); try exact Hok; try done.
  - apply root_full.
  - by apply bytes_ok_spec.
  - rewrite nblk_short. by apply root_log.
  - rewrite nblk_short. cbn [i_di root_inode]. rewrite Hn. lia.
  - apply root_di_ok.
Defined.

Lemma writei_readi_roundtrip_witness : exists s : @fss (log * bcache),
  wp ((_ <- writei 0 (inr [7; 8; 9]) 32 3;; readi 0 None 32 3) s) (fun r _ => r = (3, [7; 8; 9])).
Proof.
  destruct root_fs as (s & a & l & Hok & Hp & _ & _ & He & _ & H45 & _). exists s. pose proof (root_nfree _ H45) as Hn.
  apply (writei_readi_roundtrip (dev := 1) ltac:(done) ltac:(done) mkfs_sb mkfs_layout end8 ltac:(done) s a 0 root_inode 32 [7; 8; 9]); try exact Hok; try done.
  - apply root_full.
  - by apply bytes_ok_spec.
  - change (Z.of_nat (length [7; 8; 9])) with 3. rewrite nblk_short. by apply root_log.
  - change (Z.of_nat (length [7; 8; 9])) with 3. rewrite nblk_short. cbn [i_di root_inode]. rewrite Hn. lia.
  - apply root_di_ok.
Defined.

Lemma root_ic_unique : ic_unique (ic_inode root_ic).
Proof.
  split; [by repeat constructor|]. intros j k x y Hj Hk Hx (Hy & _).
  assert (forall m z, ic_inode root_ic !! m = Some z -> 0 < i_ref z -> m = O) as H; [|by rewrite (H j x), (H k y)].
  intros [|m] z Hm Hz; [done|]. unfold root_ic in Hm. cbn [ic_inode] in Hm. rewrite lookup_cons in Hm.
  apply lookup_replicate in Hm as [-> _]. done.
Qed.

Lemma iget_unique_witness : exists s : @fss (log * bcache), f_ic s = root_ic /\
  match iget_spec 1 1 (ic_inode (f_ic s)) with
  | Some (ip, l) => wp (iget 1 1 s) (fun r s' => r = ip /\ f_ic s' = mkIC (ic_lock (f_ic s)) l) /\ ic_unique l /\
      exists i i', ic_inode (f_ic s) !! ip = Some i /\ l = <[ip := i']> (ic_inode (f_ic s)) /\ in_cache 1 1 i' /\
        i_ref i' = i_ref i + 1 /\
        (in_cache 1 1 i \/ i_ref i = 0 /\ forall k y, ic_inode (f_ic s) !! k = Some y -> ~ in_cache 1 1 y)
  | None => iget 1 1 s = Panic "iget: no inodes" /\
      forall k y, ic_inode (f_ic s) !! k = Some y -> ~ in_cache 1 1 y /\ 0 < i_ref y
  end.
Proof.
  destruct root_fs as (s & a & l & Hok & Hp & Hic & Hh & _). exists s. split; [exact Hic|]. apply (iget_unique s 1 1).
  - exact Hh.
  - unfold ic_ok. rewrite Hic. done.
  - rewrite Hic. apply root_ic_unique.
Defined.

(** "/a//bc" *)
Lemma skipelem_first_witness : match elems [47; 97; 47; 47; 98; 99] with
  | [] => skipelem [47; 97; 47; 47; 98; 99] (replicate 14 0) = None
  | e :: es => exists rest name', skipelem [47; 97; 47; 47; 98; 99] (replicate 14 0) = Some (rest, name') /\ elems rest = es /\ no_nul rest /\
      (chr rest = 0 <-> es = []) /\ cname name' = take (Z.to_nat DIRSIZ) e /\ length name' = Z.to_nat DIRSIZ
  end.
Proof. apply (skipelem_first [47; 97; 47; 47; 98; 99] (replicate 14 0)); [by repeat constructor|done]. Defined.

Lemma root_dent (L : Z -> list Z) k : L 46 = root_block -> (k < 2)%nat -> dent L root_di k = slice root_block (16 * k) 16.
Proof.
  intros HL Hk. unfold dent. assert (16 * Z.of_nat k / BSIZE = 0) as E0 by (unfold BSIZE; apply Z.div_small; lia).
  assert (16 * Z.of_nat k mod BSIZE = 16 * Z.of_nat k) as E1 by (unfold BSIZE; apply Z.mod_small; lia).
  assert (fblk L root_di 0 = root_block) as E2 by (unfold fblk; rewrite root_baddr by done; exact HL).
  rewrite fread_block; rewrite ?E0, ?E1, ?E2; [|lia|lia|unfold BSIZE; lia|done]. f_equal. lia.
Qed.

Lemma root_find (L : Z -> list Z) : L 46 = root_block -> find_entry L root_di [97] = None.
Proof.
  intros HL. apply find_seq_None. intros j Hj [_ Hn]. change (ndents root_di) with 2%nat in Hj. rewrite root_dent in Hn by done.
  destruct j as [|[|j]]; [vm_compute in Hn; discriminate|vm_compute in Hn; discriminate|lia].
Qed.

(** The name "a" entered in the root directory. *)
Lemma dirlink_dirlookup_witness : exists (s : @fss (log * bcache)) (a : acache nat),
  wp (dirlink 0 [97] 5 s) (fun r s' => r = 0 /\ exists a' x', dir_ok mkfs_sb s' a' 0 (set_i_di x' root_inode) (dev := 1) /\
    (forall j, (j < ndents root_di)%nat -> j <> find_free (logical a) root_di -> dent (logical a') x' j = dent (logical a) root_di j) /\
    wp (dirlookup 0 [97] s') (fun r2 s2 => exists ip e, r2 = Some (ip, 16 * Z.of_nat (find_free (logical a) root_di)) /\
      ic_inode (f_ic s2) !! ip = Some e /\ in_cache 1 5 e /\ frep s2 a')).
Proof.
  destruct root_fs as (s & a & l & Hok & Hp & Hic & Hh & He & _ & H45 & H46). exists s, a. pose proof (root_nfree _ H45) as Hn.
  apply (dirlink_dirlookup (dev := 1) ltac:(done) ltac:(done) mkfs_sb mkfs_layout end8 ltac:(done) s a 0 root_inode [97] 5).
  - split; [exact Hok|apply root_full|done|done].
  - split; [exact Hh|]. unfold ic_ok. rewrite Hic. split; [done|]. apply root_ic_unique.
  - by apply root_log.
  - cbn [i_di root_inode]. rewrite Hn. lia.
  - done.
  - done.
  - apply root_di_ok.
  - cbn [i_di root_inode]. by apply root_find.
  - by apply bytes_ok_spec.
  - done.
  - rewrite Hic. by eexists.
Defined.
End example.
