(* ===== verification/State.v ===== *)
(** * The state of the kernel

    The data of proc.h and file.h, and [kst], the global variables of the kernel
    with the memory and the devices of the machine, as the code of one hart sees
    them.  The lenses give the components their part of it: the components that
    run for the current process ([myproc()]) read its fields from the process
    table.  Pointers to struct proc, struct file and struct inode are indices
    into their tables; a struct pipe is named by the address of its page. *)
From S2P Require Import Prelude Machine KString Spinlock Kalloc Vm UserMem Block Env Pipe Log Txn Fs.
Local Open Scope Z_scope.
Local Open Scope kernel_scope.

(** ** file.h *)
Inductive fdtype := FD_NONE | FD_PIPE | FD_INODE | FD_DEVICE.
#[export] Instance fdtype_eq_dec : EqDecision fdtype.
Proof. solve_decision. Defined.

Record file := mkFile {
  fl_type : fdtype;
  fl_ref : Z;        (* reference count *)
  fl_readable : Z;
  fl_writable : Z;
  fl_pipe : Z;       (* FD_PIPE *)
  fl_ip : nat;       (* FD_INODE and FD_DEVICE *)
  fl_off : Z;        (* FD_INODE *)
  fl_major : Z       (* FD_DEVICE *)
}.
Definition no_file : file := mkFile FD_NONE 0 0 0 0 O 0 0.

Definition set_fl_ref (v : Z) (f : file) : file :=
  mkFile (fl_type f) v (fl_readable f) (fl_writable f) (fl_pipe f) (fl_ip f) (fl_off f) (fl_major f).
Definition set_fl_type (v : fdtype) (f : file) : file :=
  mkFile v (fl_ref f) (fl_readable f) (fl_writable f) (fl_pipe f) (fl_ip f) (fl_off f) (fl_major f).
Definition set_fl_mode (readable writable : Z) (f : file) : file :=
  mkFile (fl_type f) (fl_ref f) readable writable (fl_pipe f) (fl_ip f) (fl_off f) (fl_major f).
Definition set_fl_pipe (v : Z) (f : file) : file :=
  mkFile (fl_type f) (fl_ref f) (fl_readable f) (fl_writable f) v (fl_ip f) (fl_off f) (fl_major f).
Definition set_fl_ip (v : nat) (f : file) : file :=
  mkFile (fl_type f) (fl_ref f) (fl_readable f) (fl_writable f) (fl_pipe f) v (fl_off f) (fl_major f).
Definition set_fl_off (v : Z) (f : file) : file :=
  mkFile (fl_type f) (fl_ref f) (fl_readable f) (fl_writable f) (fl_pipe f) (fl_ip f) v (fl_major f).
Definition set_fl_major (v : Z) (f : file) : file :=
  mkFile (fl_type f) (fl_ref f) (fl_readable f) (fl_writable f) (fl_pipe f) (fl_ip f) (fl_off f) v.

Record ftable := mkFT { ft_lock : spinlock; ft_file : list file }.

(** ** proc.h *)
Inductive procstate := UNUSED | SLEEPING | RUNNABLE | RUNNING | ZOMBIE.
#[export] Instance procstate_eq_dec : EqDecision procstate.
Proof. solve_decision. Defined.

Definition MAXMMAPITEM : Z := 16.

Record mmapitem := mkVma {
  vma_used : Z;
  vma_addr : Z;
  vma_length : Z;
  vma_prot : Z;
  vma_flags : Z;
  vma_vfd : Z;
  vma_vfile : nat;
  vma_offset : Z
}.
Definition no_vma : mmapitem := mkVma 0 0 0 0 0 0 O 0.
Definition set_vma_used (v : Z) (m : mmapitem) : mmapitem :=
  mkVma v (vma_addr m) (vma_length m) (vma_prot m) (vma_flags m) (vma_vfd m) (vma_vfile m) (vma_offset m).
Definition set_vma_range (addr length : Z) (m : mmapitem) : mmapitem :=
  mkVma (vma_used m) addr length (vma_prot m) (vma_flags m) (vma_vfd m) (vma_vfile m) (vma_offset m).

(** The saved registers [ra] and [sp] of struct context; the callee-saved ones
    are 0 in a context made by the kernel. *)
Record context := mkContext { ctx_ra : Z; ctx_sp : Z }.

Record proc := mkProc {
  p_lock : spinlock;
  p_state : procstate;
  p_parent : option nat;
  p_chan : option chan;
  p_killed : Z;
  p_xstate : Z;
  p_pid : Z;
  p_kstack : Z;
  p_sz : Z;
  p_pagetable : Z;     (* 0 for none *)
  p_trapframe : Z;     (* the address of its page, 0 for none *)
  p_context : context;
  p_ofile : list (option nat);
  p_cwd : option nat;
  p_name : list Z;
  p_vma : list mmapitem
}.

Definition no_proc : proc :=
  mkProc (mkLock 0 None "") UNUSED None None 0 0 0 0 0 0 0 (mkContext 0 0) (replicate (Z.to_nat NOFILE) None) None
         (replicate 16 0) (replicate (Z.to_nat MAXMMAPITEM) no_vma).

Section setters.
Implicit Types p : proc.
Definition set_p_lock v p := mkProc v (p_state p) (p_parent p) (p_chan p) (p_killed p) (p_xstate p) (p_pid p) (p_kstack p) (p_sz p)
  (p_pagetable p) (p_trapframe p) (p_context p) (p_ofile p) (p_cwd p) (p_name p) (p_vma p).
Definition set_p_state v p := mkProc (p_lock p) v (p_parent p) (p_chan p) (p_killed p) (p_xstate p) (p_pid p) (p_kstack p) (p_sz p)
  (p_pagetable p) (p_trapframe p) (p_context p) (p_ofile p) (p_cwd p) (p_name p) (p_vma p).
Definition set_p_parent v p := mkProc (p_lock p) (p_state p) v (p_chan p) (p_killed p) (p_xstate p) (p_pid p) (p_kstack p) (p_sz p)
  (p_pagetable p) (p_trapframe p) (p_context p) (p_ofile p) (p_cwd p) (p_name p) (p_vma p).
Definition set_p_chan v p := mkProc (p_lock p) (p_state p) (p_parent p) v (p_killed p) (p_xstate p) (p_pid p) (p_kstack p) (p_sz p)
  (p_pagetable p) (p_trapframe p) (p_context p) (p_ofile p) (p_cwd p) (p_name p) (p_vma p).
Definition set_p_killed v p := mkProc (p_lock p) (p_state p) (p_parent p) (p_chan p) v (p_xstate p) (p_pid p) (p_kstack p) (p_sz p)
  (p_pagetable p) (p_trapframe p) (p_context p) (p_ofile p) (p_cwd p) (p_name p) (p_vma p).
Definition set_p_xstate v p := mkProc (p_lock p) (p_state p) (p_parent p) (p_chan p) (p_killed p) v (p_pid p) (p_kstack p) (p_sz p)
  (p_pagetable p) (p_trapframe p) (p_context p) (p_ofile p) (p_cwd p) (p_name p) (p_vma p).
Definition set_p_pid v p := mkProc (p_lock p) (p_state p) (p_parent p) (p_chan p) (p_killed p) (p_xstate p) v (p_kstack p) (p_sz p)
  (p_pagetable p) (p_trapframe p) (p_context p) (p_ofile p) (p_cwd p) (p_name p) (p_vma p).
Definition set_p_kstack v p := mkProc (p_lock p) (p_state p) (p_parent p) (p_chan p) (p_killed p) (p_xstate p) (p_pid p) v (p_sz p)
  (p_pagetable p) (p_trapframe p) (p_context p) (p_ofile p) (p_cwd p) (p_name p) (p_vma p).
Definition set_p_sz v p := mkProc (p_lock p) (p_state p) (p_parent p) (p_chan p) (p_killed p) (p_xstate p) (p_pid p) (p_kstack p) v
  (p_pagetable p) (p_trapframe p) (p_context p) (p_ofile p) (p_cwd p) (p_name p) (p_vma p).
Definition set_p_pagetable v p := mkProc (p_lock p) (p_state p) (p_parent p) (p_chan p) (p_killed p) (p_xstate p) (p_pid p) (p_kstack p) (p_sz p)
  v (p_trapframe p) (p_context p) (p_ofile p) (p_cwd p) (p_name p) (p_vma p).
Definition set_p_trapframe v p := mkProc (p_lock p) (p_state p) (p_parent p) (p_chan p) (p_killed p) (p_xstate p) (p_pid p) (p_kstack p) (p_sz p)
  (p_pagetable p) v (p_context p) (p_ofile p) (p_cwd p) (p_name p) (p_vma p).
Definition set_p_context v p := mkProc (p_lock p) (p_state p) (p_parent p) (p_chan p) (p_killed p) (p_xstate p) (p_pid p) (p_kstack p) (p_sz p)
  (p_pagetable p) (p_trapframe p) v (p_ofile p) (p_cwd p) (p_name p) (p_vma p).
Definition set_p_ofile v p := mkProc (p_lock p) (p_state p) (p_parent p) (p_chan p) (p_killed p) (p_xstate p) (p_pid p) (p_kstack p) (p_sz p)
  (p_pagetable p) (p_trapframe p) (p_context p) v (p_cwd p) (p_name p) (p_vma p).
Definition set_p_cwd v p := mkProc (p_lock p) (p_state p) (p_parent p) (p_chan p) (p_killed p) (p_xstate p) (p_pid p) (p_kstack p) (p_sz p)
  (p_pagetable p) (p_trapframe p) (p_context p) (p_ofile p) v (p_name p) (p_vma p).
Definition set_p_name v p := mkProc (p_lock p) (p_state p) (p_parent p) (p_chan p) (p_killed p) (p_xstate p) (p_pid p) (p_kstack p) (p_sz p)
  (p_pagetable p) (p_trapframe p) (p_context p) (p_ofile p) (p_cwd p) v (p_vma p).
Definition set_p_vma v p := mkProc (p_lock p) (p_state p) (p_parent p) (p_chan p) (p_killed p) (p_xstate p) (p_pid p) (p_kstack p) (p_sz p)
  (p_pagetable p) (p_trapframe p) (p_context p) (p_ofile p) (p_cwd p) (p_name p) v.
Definition set_ofile (fd : nat) (f : option nat) p := set_p_ofile (<[fd := f]> (p_ofile p)) p.
Definition set_vma (i : nat) (m : mmapitem) p := set_p_vma (<[i := m]> (p_vma p)) p.
End setters.

Definition getp (l : list proc) (i : nat) : proc := default no_proc (l !! i).
Definition getf (l : list file) (i : nat) : file := default no_file (l !! i).
Definition getv (l : list mmapitem) (i : nat) : mmapitem := default no_vma (l !! i).

(** The offsets of the fields of struct trapframe. *)
Definition TF_kernel_satp : Z := 0.
Definition TF_kernel_sp : Z := 8.
Definition TF_kernel_trap : Z := 16.
Definition TF_epc : Z := 24.
Definition TF_kernel_hartid : Z := 32.
Definition TF_sp : Z := 48.
Definition TF_a (n : Z) : Z := 112 + 8 * n.
Definition sizeof_trapframe : Z := 288.

(** ** The kernel *)
Section state.
Context {T D : Type}.

Record kst := KS {
  k_pm : pm;                  (* the hart, physical memory and kmem *)
  k_wakes : list chan;        (* the wakeups issued *)
  k_t : T;                    (* log and buffer cache *)
  k_ic : icache;
  k_sb : superblock;
  k_ft : ftable;
  k_pipes : gmap Z pipe;
  k_procs : list proc;
  k_pid_lock : spinlock;
  k_nextpid : Z;
  k_initproc : nat;
  k_tickslock : spinlock;
  k_ticks : Z;
  k_first : Z;                (* the static variable first of forkret *)
  k_dev : D                   (* the devices behind devsw[] *)
}.

Definition upd_pm (f : pm -> pm) (k : kst) : kst :=
  KS (f (k_pm k)) (k_wakes k) (k_t k) (k_ic k) (k_sb k) (k_ft k) (k_pipes k) (k_procs k) (k_pid_lock k) (k_nextpid k) (k_initproc k)
     (k_tickslock k) (k_ticks k) (k_first k) (k_dev k).
Definition upd_wakes (f : list chan -> list chan) (k : kst) : kst :=
  KS (k_pm k) (f (k_wakes k)) (k_t k) (k_ic k) (k_sb k) (k_ft k) (k_pipes k) (k_procs k) (k_pid_lock k) (k_nextpid k) (k_initproc k)
     (k_tickslock k) (k_ticks k) (k_first k) (k_dev k).
Definition upd_ft (f : ftable -> ftable) (k : kst) : kst :=
  KS (k_pm k) (k_wakes k) (k_t k) (k_ic k) (k_sb k) (f (k_ft k)) (k_pipes k) (k_procs k) (k_pid_lock k) (k_nextpid k) (k_initproc k)
     (k_tickslock k) (k_ticks k) (k_first k) (k_dev k).
Definition upd_pipes (f : gmap Z pipe -> gmap Z pipe) (k : kst) : kst :=
  KS (k_pm k) (k_wakes k) (k_t k) (k_ic k) (k_sb k) (k_ft k) (f (k_pipes k)) (k_procs k) (k_pid_lock k) (k_nextpid k) (k_initproc k)
     (k_tickslock k) (k_ticks k) (k_first k) (k_dev k).
Definition upd_procs (f : list proc -> list proc) (k : kst) : kst :=
  KS (k_pm k) (k_wakes k) (k_t k) (k_ic k) (k_sb k) (k_ft k) (k_pipes k) (f (k_procs k)) (k_pid_lock k) (k_nextpid k) (k_initproc k)
     (k_tickslock k) (k_ticks k) (k_first k) (k_dev k).
Definition upd_pids (lk : spinlock) (n : Z) (k : kst) : kst :=
  KS (k_pm k) (k_wakes k) (k_t k) (k_ic k) (k_sb k) (k_ft k) (k_pipes k) (k_procs k) lk n (k_initproc k)
     (k_tickslock k) (k_ticks k) (k_first k) (k_dev k).
Definition set_initproc (i : nat) (k : kst) : kst :=
  KS (k_pm k) (k_wakes k) (k_t k) (k_ic k) (k_sb k) (k_ft k) (k_pipes k) (k_procs k) (k_pid_lock k) (k_nextpid k) i
     (k_tickslock k) (k_ticks k) (k_first k) (k_dev k).
Definition upd_ticks (lk : spinlock) (n : Z) (k : kst) : kst :=
  KS (k_pm k) (k_wakes k) (k_t k) (k_ic k) (k_sb k) (k_ft k) (k_pipes k) (k_procs k) (k_pid_lock k) (k_nextpid k) (k_initproc k)
     lk n (k_first k) (k_dev k).

Definition set_first (v : Z) (k : kst) : kst :=
  KS (k_pm k) (k_wakes k) (k_t k) (k_ic k) (k_sb k) (k_ft k) (k_pipes k) (k_procs k) (k_pid_lock k) (k_nextpid k) (k_initproc k)
     (k_tickslock k) (k_ticks k) v (k_dev k).

Definition upd_proc (i : nat) (f : proc -> proc) : kst -> kst := upd_procs (alter f i).
Definition upd_file (i : nat) (f : file -> file) : kst -> kst := upd_ft (fun t => mkFT (ft_lock t) (alter f i (ft_file t))).

(** The process of this hart, [mycpu()->proc]. *)
Definition cur (k : kst) : nat := default O (cproc (pm_hart (k_pm k))).
Definition cur_proc (k : kst) : proc := getp (k_procs k) (cur k).

Definition kP : lens kst pm := Lens k_pm (fun m => upd_pm (fun _ => m)).
Definition kH : lens kst hart :=
  Lens (fun k => pm_hart (k_pm k)) (fun h => upd_pm (fun s => PM h (pm_lock s) (pm_freelist s) (pm_mem s))).
Definition kE : lens kst uenv :=
  Lens (fun k => let p := cur_proc k in UE (k_pm k) (p_pid p) (p_killed p) (p_pagetable p) (k_wakes k))
       (fun e k => upd_pm (fun _ => ue_pm e) (upd_wakes (fun _ => ue_wakes e) k)).
Definition kF : lens kst (@fss T) :=
  Lens (fun k => FSS (view kE k) (k_t k) (k_ic k) (k_sb k) (default O (p_cwd (cur_proc k))))
       (fun s k => let k := over kE (f_env s) k in
          KS (k_pm k) (k_wakes k) (f_t s) (f_ic s) (f_sb s) (k_ft k) (k_pipes k) (k_procs k) (k_pid_lock k) (k_nextpid k) (k_initproc k)
             (k_tickslock k) (k_ticks k) (k_first k) (k_dev k)).
Definition no_pipe : pipe := mkPipe (mkLock 0 None "") (replicate (Z.to_nat PIPESIZE) 0) 0 0 0 0.
Definition kPipe (pi : Z) : lens kst pst :=
  Lens (fun k => PS (view kE k) (default no_pipe (k_pipes k !! pi)))
       (fun s k => upd_pipes (insert pi (ps_pipe s)) (over kE (ps_env s) k)).
Definition kDev : lens kst (uenv * D) :=
  Lens (fun k => (view kE k, k_dev k))
       (fun s k => let k := over kE s.1 k in
          KS (k_pm k) (k_wakes k) (k_t k) (k_ic k) (k_sb k) (k_ft k) (k_pipes k) (k_procs k) (k_pid_lock k) (k_nextpid k) (k_initproc k)
             (k_tickslock k) (k_ticks k) (k_first k) s.2).
(** The locks. *)
Definition kFtL : lens kst spinlock := Lens (fun k => ft_lock (k_ft k)) (fun l => upd_ft (fun t => mkFT l (ft_file t))).
Definition kPL (i : nat) : lens kst spinlock := Lens (fun k => p_lock (getp (k_procs k) i)) (fun l => upd_proc i (set_p_lock l)).
Definition kPidL : lens kst spinlock := Lens k_pid_lock (fun l k => upd_pids l (k_nextpid k) k).
Definition kTicksL : lens kst spinlock := Lens k_tickslock (fun l k => upd_ticks l (k_ticks k) k).

(** Reading through a null pointer: address 0 is not mapped by the kernel's page
    table, so the load traps to kerneltrap(), which panics. *)
Definition deref {A} (p : option A) : K kst A := match p with Some a => ret a | None => panic "kerneltrap" end.

(** struct proc star p = myproc(), whose fields the caller goes on to read. *)
Definition myproc_ : K kst nat := p <- zoom kH myproc;; deref p.
Definition proc_get {A} (i : nat) (f : proc -> A) : K kst A := gets (fun k => f (getp (k_procs k) i)).
Definition proc_upd (i : nat) (f : proc -> proc) : K kst unit := modify (upd_proc i f).
Definition file_get {A} (i : nat) (f : file -> A) : K kst A := gets (fun k => f (getf (ft_file (k_ft k)) i)).
Definition file_upd (i : nat) (f : file -> file) : K kst unit := modify (upd_file i f).

(** p->trapframe->field *)
Definition tf_get (i : nat) (off : Z) : K kst Z :=
  gets (fun k => load64 (pm_mem (k_pm k)) (p_trapframe (getp (k_procs k) i) + off)).
Definition tf_set (i : nat) (off v : Z) : K kst unit :=
  modify (fun k => upd_pm (fun s => set_mem (store64 (pm_mem s) (p_trapframe (getp (k_procs k) i) + off) v) s) k).
Definition k_wakeup (c : chan) : K kst unit := modify (upd_wakes (cons c)).
End state.
Arguments kst : clear implicits.
