(* ===== verification/File.v ===== *)
(** * kernel/file.c and the allocation of pipes

    The file table, and the operations on open files.  [dev_read] and [dev_write]
    are the functions in devsw[]; [stat_pad] is the value of the four bytes of
    padding in struct stat, which the code copies to user memory without setting
    them. *)
From S2P Require Import Prelude Machine KString Spinlock Kalloc Vm UserMem Block Env Pipe Log Txn Fs State.
Local Open Scope Z_scope.
Local Open Scope kernel_scope.

(** struct stat as bytes. *)
Definition stat_bytes (pad : Z) (st : stat) : list Z :=
  le_encode 4 (u32 (st_dev st)) ++ le_encode 4 (st_ino st) ++ le_encode 2 (u16 (st_type st)) ++ le_encode 2 (u16 (st_nlink st)) ++
  le_encode 4 pad ++ le_encode 8 (st_size st).

Section code.
Context {T B D : Type} {dev logstart nlog : Z} `{TS : !TxnStore T B dev logstart nlog}.
Context (kend stat_pad : Z).
Context (dev_read dev_write : Z -> option (Z -> Z -> K (uenv * D) Z)).
Notation K' := (K (kst T D)).

(** begin_op and end_op for the current process. *)
Definition k_begin_op : K' unit := zoom kF (zoom fT t_begin_op).
Definition k_end_op : K' unit := zoom kF (zoom fT t_end_op).

Definition fileinit : K' unit := modify (over kFtL (initlock "ftable")).

Definition filealloc : K' (option nat) :=
  acquire kH kFtL;;
  r <- for_each (seq 0 (Z.to_nat NFILE)) (fun f =>
    ref <- file_get f fl_ref;;
    if ref =? 0 then
      file_upd f (set_fl_ref 1);;
      release kH kFtL;;
      ret (Some f)
    else ret None);;
  match r with
  | Some f => ret (Some f)
  | None => release kH kFtL;; ret None
  end.

Definition filedup (f : nat) : K' nat :=
  acquire kH kFtL;;
  ref <- file_get f fl_ref;;
  if ref <? 1 then panic "filedup" else
  file_upd f (set_fl_ref (ref + 1));;
  release kH kFtL;;
  ret f.

Definition fileclose (f : nat) : K' unit :=
  acquire kH kFtL;;
  ref <- file_get f fl_ref;;
  if ref <? 1 then panic "fileclose" else
  file_upd f (set_fl_ref (ref - 1));;
  if 0 <? ref - 1 then release kH kFtL else
  ff <- file_get f (fun x => x);;
  file_upd f (set_fl_ref 0);;
  file_upd f (set_fl_type FD_NONE);;
  release kH kFtL;;
  match fl_type ff with
  | FD_PIPE => zoom (kPipe (fl_pipe ff)) (pipeclose kend (fl_pipe ff) (negb (fl_writable ff =? 0)))
  | FD_INODE | FD_DEVICE =>
      k_begin_op;;
      zoom kF (iput (fl_ip ff));;
      k_end_op
  | FD_NONE => ret tt
  end.

Definition filestat (f : nat) (addr : Z) : K' Z :=
  p <- myproc_;;
  x <- file_get f (fun x => x);;
  match fl_type x with
  | FD_INODE | FD_DEVICE =>
      zoom kF (ilock (fl_ip x));;
      st <- zoom kF (stati (fl_ip x));;
      zoom kF (iunlock (fl_ip x));;
      root <- proc_get p p_pagetable;;
      r <- zoom kP (copyout root addr (stat_bytes stat_pad st) 24);;
      if r <? 0 then ret (-1) else ret 0
  | _ => ret (-1)
  end.

(** The function of a device, when there is one. *)
Definition devsw (t : Z -> option (Z -> Z -> K (uenv * D) Z)) (major : Z) : option (Z -> Z -> K (uenv * D) Z) :=
  if (major <? 0) || (NDEV <=? major) then None else t major.

Definition fileread (f : nat) (addr n : Z) : K' Z :=
  x <- file_get f (fun x => x);;
  if fl_readable x =? 0 then ret (-1) else
  match fl_type x with
  | FD_PIPE => zoom (kPipe (fl_pipe x)) (piperead (fl_pipe x) addr n)
  | FD_DEVICE =>
      match devsw dev_read (fl_major x) with
      | None => ret (-1)
      | Some read => zoom kDev (read addr n)
      end
  | FD_INODE =>
      zoom kF (ilock (fl_ip x));;
      off <- file_get f fl_off;;
      rr <- zoom kF (readi (fl_ip x) (Some addr) off (u32 n));;
      let r := rr.1 in
      (if 0 <? r then file_upd f (fun x => set_fl_off (u32 (fl_off x + r)) x) else ret tt);;
      zoom kF (iunlock (fl_ip x));;
      ret r
  | FD_NONE => panic "fileread"
  end.

(** Write a few blocks at a time to avoid exceeding the maximum log transaction
    size, including i-node, indirect block, allocation blocks, and 2 blocks of
    slop for non-aligned writes. *)
Definition max_write : Z := ((MAXOPBLOCKS - 1 - 1 - 2) / 2) * BSIZE.

Definition filewrite (f : nat) (addr n : Z) : K' Z :=
  x <- file_get f (fun x => x);;
  if fl_writable x =? 0 then ret (-1) else
  match fl_type x with
  | FD_PIPE => zoom (kPipe (fl_pipe x)) (pipewrite (fl_pipe x) addr n)
  | FD_DEVICE =>
      match devsw dev_write (fl_major x) with
      | None => ret (-1)
      | Some write => zoom kDev (write addr n)
      end
  | FD_INODE =>
      i <- while_ budget (fun i =>
        if negb (i <? n) then ret (inr i) else
        let n1 := n - i in
        let n1 := if max_write <? n1 then max_write else n1 in
        k_begin_op;;
        zoom kF (ilock (fl_ip x));;
        off <- file_get f fl_off;;
        r <- zoom kF (writei (fl_ip x) (inl (u64 (addr + i))) off n1);;
        (if 0 <? r then file_upd f (fun x => set_fl_off (u32 (fl_off x + r)) x) else ret tt);;
        zoom kF (iunlock (fl_ip x));;
        k_end_op;;
        if negb (r =? n1) then ret (inr i) (* error from writei *)
        else ret (inl (i + r))) 0;;
      ret (if i =? n then n else -1)
  | FD_NONE => panic "filewrite"
  end.

(** pipe.c's pipealloc: the read and the write end. *)
Definition pipealloc : K' (option (nat * nat)) :=
  f0 <- filealloc;;
  match f0 with
  | None => ret None
  | Some f0 =>
      f1 <- filealloc;;
      match f1 with
      | None => fileclose f0;; ret None
      | Some f1 =>
          pi <- zoom kP kalloc;;
          if pi =? 0 then fileclose f0;; fileclose f1;; ret None else
          modify (upd_pipes (insert pi (mkPipe (initlock "pipe") (replicate (Z.to_nat PIPESIZE) 5) 0 0 1 1)));;
          file_upd f0 (fun x => set_fl_pipe pi (set_fl_mode 1 0 (set_fl_type FD_PIPE x)));;
          file_upd f1 (fun x => set_fl_pipe pi (set_fl_mode 0 1 (set_fl_type FD_PIPE x)));;
          ret (Some (f0, f1))
      end
  end.
End code.
