(* ===== verification/Proc.v ===== *)
(** * kernel/proc.c: processes

    The process table and the operations of proc.c.  [kend] is the end of the
    kernel image, [trampoline] and [forkret_addr] the addresses of trampoline.S
    and of the function forkret.  A context switch ([swtch]) gives the hart away
    until the process is running again. *)
From S2P Require Import Prelude Machine KString Spinlock Kalloc Vm UserMem Block Env Pipe Log Txn Fs FsPath State File.
Local Open Scope Z_scope.
Local Open Scope kernel_scope.

(** string.c's safestrcpy on byte arrays: at most [n] bytes, always terminated. *)
Definition safestrcpy_list (s t : list Z) (n : Z) : list Z :=
  if n <=? 0 then s else splice s 0 (take (Z.to_nat (n - 1)) (cstr t ++ [0]) ++ [0]).

(** fcntl.h *)
Definition PROT_READ : Z := 0x1.
Definition PROT_WRITE : Z := 0x2.
Definition PROT_EXEC : Z := 0x4.
Definition MAP_SHARED : Z := 0x01.
Definition MAP_PRIVATE : Z := 0x02.

(** A user program that calls exec("/init"). *)
Definition initcode : list Z :=
  [0x17; 0x05; 0x00; 0x00; 0x13; 0x05; 0x45; 0x02;
   0x97; 0x05; 0x00; 0x00; 0x93; 0x85; 0x35; 0x02;
   0x93; 0x08; 0x70; 0x00; 0x73; 0x00; 0x00; 0x00;
   0x93; 0x08; 0x20; 0x00; 0x73; 0x00; 0x00; 0x00;
   0xef; 0xf0; 0x9f; 0xff; 0x2f; 0x69; 0x6e; 0x69;
   0x74; 0x00; 0x00; 0x24; 0x00; 0x00; 0x00; 0x00;
   0x00; 0x00; 0x00; 0x00].

Section code.
Context {T B D : Type} {dev logstart nlog : Z} `{TS : !TxnStore T B dev logstart nlog}.
Context (kend trampoline forkret_addr : Z).
Context (dev_write : Z -> option (Z -> Z -> K (uenv * D) Z)).
Notation K' := (K (kst T D)).

Definition procs : list nat := seq 0 (Z.to_nat NPROC).

Definition procinit : K' unit :=
  modify (over kPidL (initlock "nextpid"));;
  _ <- for_each procs (fun p =>
    modify (over (kPL p) (initlock "proc"));;
    proc_upd p (set_p_kstack (KSTACK (Z.of_nat p)));;
    ret (@None unit));;
  ret tt.

Definition allocpid : K' Z :=
  acquire kH kPidL;;
  pid <- gets k_nextpid;;
  modify (fun k => upd_pids (k_pid_lock k) (s32 (pid + 1)) k);;
  release kH kPidL;;
  ret pid.

(** On the physical memory: the page table of a process whose trapframe is the
    page [trapframe]. *)
Definition proc_pagetable (trapframe : Z) : K pm Z :=
  pagetable <- uvmcreate;;
  if pagetable =? 0 then ret 0 else
  r <- mappages pagetable TRAMPOLINE PGSIZE trampoline (Z.lor PTE_R PTE_X);;
  if r <? 0 then uvmfree kend pagetable 0;; ret 0 else
  r <- mappages pagetable TRAPFRAME PGSIZE trapframe (Z.lor PTE_R PTE_W);;
  if r <? 0 then
    uvmunmap kend pagetable TRAMPOLINE 1 false;;
    uvmfree kend pagetable 0;;
    ret 0
  else ret pagetable.

Definition proc_freepagetable (pagetable sz : Z) : K pm unit :=
  uvmunmap kend pagetable TRAMPOLINE 1 false;;
  uvmunmap kend pagetable TRAPFRAME 1 false;;
  uvmfree kend pagetable sz.

Definition freeproc (p : nat) : K' unit :=
  tf <- proc_get p p_trapframe;;
  (if tf =? 0 then ret tt else zoom kP (kfree kend tf));;
  proc_upd p (set_p_trapframe 0);;
  pt <- proc_get p p_pagetable;;
  sz <- proc_get p p_sz;;
  (if pt =? 0 then ret tt else zoom kP (proc_freepagetable pt sz));;
  proc_upd p (set_p_pagetable 0);;
  proc_upd p (set_p_sz 0);;
  proc_upd p (set_p_pid 0);;
  proc_upd p (set_p_parent None);;
  proc_upd p (fun q => set_p_name (<[O := 0]> (p_name q)) q);;
  proc_upd p (set_p_chan None);;
  proc_upd p (set_p_killed 0);;
  proc_upd p (set_p_xstate 0);;
  proc_upd p (set_p_state UNUSED).

(** If found, returns with p->lock held. *)
Definition allocproc : K' (option nat) :=
  found <- for_each procs (fun p =>
    acquire kH (kPL p);;
    st <- proc_get p p_state;;
    if decide (st = UNUSED) then ret (Some p) else release kH (kPL p);; ret None);;
  match found with
  | None => ret None
  | Some p =>
      pid <- allocpid;;
      proc_upd p (set_p_pid pid);;
      (* Allocate a trapframe page. *)
      tf <- zoom kP kalloc;;
      proc_upd p (set_p_trapframe tf);;
      if tf =? 0 then release kH (kPL p);; ret None else
      (* An empty user page table. *)
      pt <- zoom kP (proc_pagetable tf);;
      proc_upd p (set_p_pagetable pt);;
      if pt =? 0 then freeproc p;; release kH (kPL p);; ret None else
      (* Set up new context to start executing at forkret. *)
      kstack <- proc_get p p_kstack;;
      proc_upd p (set_p_context (mkContext forkret_addr (kstack + PGSIZE)));;
      proc_upd p (set_p_vma (replicate (Z.to_nat MAXMMAPITEM) no_vma));;
      ret (Some p)
  end.

Definition userinit : K' unit :=
  r <- allocproc;;
  p <- deref r;;
  modify (set_initproc p);;
  pt <- proc_get p p_pagetable;;
  zoom kP (uvminit pt initcode 52);;
  proc_upd p (set_p_sz PGSIZE);;
  (* prepare for the very first "return" from kernel to user. *)
  tf_set p TF_epc 0;;
  tf_set p TF_sp PGSIZE;;
  proc_upd p (fun q => set_p_name (safestrcpy_list (p_name q) [105; 110; 105; 116; 99; 111; 100; 101] 16) q);;
  ip <- zoom kF (namei [SLASH]);;
  proc_upd p (set_p_cwd ip);;
  proc_upd p (set_p_state RUNNABLE);;
  release kH (kPL p).

Definition growproc (n : Z) : K' Z :=
  p <- myproc_;;
  psz <- proc_get p p_sz;;
  pt <- proc_get p p_pagetable;;
  let sz := u32 psz in
  if 0 <? n then
    r <- zoom kP (uvmalloc kend pt sz (u32 (sz + n)));;
    let sz := u32 r in
    if sz =? 0 then ret (-1) else
    proc_upd p (set_p_sz sz);; ret 0
  else if n <? 0 then
    r <- zoom kP (uvmdealloc kend pt sz (u32 (sz + n)));;
    proc_upd p (set_p_sz (u32 r));; ret 0
  else proc_upd p (set_p_sz sz);; ret 0.

Definition fork : K' Z :=
  p <- myproc_;;
  (* Allocate process. *)
  r <- allocproc;;
  match r with
  | None => ret (-1)
  | Some np =>
      (* Copy user memory from parent to child. *)
      old <- proc_get p p_pagetable;;
      new <- proc_get np p_pagetable;;
      sz <- proc_get p p_sz;;
      c <- zoom kP (uvmcopy kend old new sz);;
      if c <? 0 then freeproc np;; release kH (kPL np);; ret (-1) else
      proc_upd np (set_p_sz sz);;
      proc_upd np (set_p_parent (Some p));;
      (* copy saved user registers. *)
      from <- proc_get p p_trapframe;;
      to <- proc_get np p_trapframe;;
      modify (upd_pm (fun s => set_mem (store_bytes (pm_mem s) to (load_bytes (pm_mem s) from (Z.to_nat sizeof_trapframe))) s));;
      (* Cause fork to return 0 in the child. *)
      tf_set np (TF_a 0) 0;;
      (* increment reference counts on open file descriptors. *)
      _ <- for_each (seq 0 (Z.to_nat NOFILE)) (fun i =>
        f <- proc_get p (fun q => mjoin (p_ofile q !! i));;
        match f with
        | None => ret (@None unit)
        | Some f => f <- filedup f;; proc_upd np (set_ofile i (Some f));; ret None
        end);;
      cwd <- proc_get p p_cwd;;
      cwd <- deref cwd;;
      ip <- zoom kF (idup cwd);;
      proc_upd np (set_p_cwd (Some ip));;
      _ <- for_each (seq 0 (Z.to_nat MAXMMAPITEM)) (fun i =>
        m <- proc_get p (fun q => getv (p_vma q) i);;
        if vma_used m =? 0 then ret (@None unit) else
        proc_upd np (set_vma i m);;
        _ <- filedup (vma_vfile m);;
        ret None);;
      name <- proc_get p p_name;;
      proc_upd np (fun q => set_p_name (safestrcpy_list (p_name q) name 16) q);;
      pid <- proc_get np p_pid;;
      proc_upd np (set_p_state RUNNABLE);;
      release kH (kPL np);;
      ret pid
  end.

(** Pass p's abandoned children to init.  Caller must hold p->lock. *)
Definition reparent (p : nat) : K' unit :=
  _ <- for_each procs (fun pp =>
    parent <- proc_get pp p_parent;;
    if decide (parent = Some p) then
      acquire kH (kPL pp);;
      init <- gets k_initproc;;
      proc_upd pp (set_p_parent (Some init));;
      release kH (kPL pp);;
      ret (@None unit)
    else ret None);;
  ret tt.

(** Wake up p if it is sleeping in wait(); used by exit().  Caller must hold
    p->lock. *)
Definition wakeup1 (p : nat) : K' unit :=
  h <- gets (view kH);;
  lk <- gets (view (kPL p));;
  if negb (holding lk h) then panic "wakeup1" else
  q <- proc_get p (fun q => q);;
  if decide (p_chan q = Some (ChanProc (Z.of_nat p)) /\ p_state q = SLEEPING) then proc_upd p (set_p_state RUNNABLE) else ret tt.

(** [swtch(&p->context, &mycpu()->context)]: the hart runs the scheduler until
    it chooses [p] again. *)
Definition swtch_to_scheduler (p : nat) : K' unit :=
  fun k => Wait None k (fun k' => bool_decide (p_state (getp (k_procs k') p) = RUNNING /\ cproc (view kH k') = Some p)) (Done tt).

(** Switch to scheduler.  Must hold only p->lock and have changed proc->state. *)
Definition sched : K' unit :=
  p <- myproc_;;
  h <- gets (view kH);;
  lk <- gets (view (kPL p));;
  if negb (holding lk h) then panic "sched p->lock" else
  if negb (noff h =? 1) then panic "sched locks" else
  st <- proc_get p p_state;;
  if decide (st = RUNNING) then panic "sched running" else
  if intr_get h then panic "sched interruptible" else
  let ie := intena h in
  swtch_to_scheduler p;;
  modify (fun k => over kH (set_intena ie (view kH k)) k).

Definition yield : K' unit :=
  p <- myproc_;;
  acquire kH (kPL p);;
  proc_upd p (set_p_state RUNNABLE);;
  sched;;
  release kH (kPL p).

(** [lk]: the lock of the caller, [None] for p->lock itself. *)
Definition sleep (c : chan) (lk : option (lens (kst T D) spinlock)) : K' unit :=
  p <- myproc_;;
  (match lk with Some l => acquire kH (kPL p);; release kH l | None => ret tt end);;
  (* Go to sleep. *)
  proc_upd p (set_p_chan (Some c));;
  proc_upd p (set_p_state SLEEPING);;
  sched;;
  (* Tidy up. *)
  proc_upd p (set_p_chan None);;
  (* Reacquire original lock. *)
  match lk with Some l => release kH (kPL p);; acquire kH l | None => ret tt end.

(** Wake up all processes sleeping on chan. *)
Definition wakeup (c : chan) : K' unit :=
  _ <- for_each procs (fun p =>
    acquire kH (kPL p);;
    q <- proc_get p (fun q => q);;
    (if decide (p_state q = SLEEPING /\ p_chan q = Some c) then proc_upd p (set_p_state RUNNABLE) else ret tt);;
    release kH (kPL p);;
    ret (@None unit));;
  ret tt.

Definition kill (pid : Z) : K' Z :=
  r <- for_each procs (fun p =>
    acquire kH (kPL p);;
    q <- proc_get p (fun q => q);;
    if p_pid q =? pid then
      proc_upd p (set_p_killed 1);;
      (if decide (p_state q = SLEEPING) then proc_upd p (set_p_state RUNNABLE) else ret tt);;
      release kH (kPL p);;
      ret (Some 0)
    else release kH (kPL p);; ret None);;
  ret (default (-1) r).

(** Exit the current process.  Does not return: the process remains a zombie
    until its parent calls wait(). *)
Definition exit (status : Z) : K' unit :=
  p <- myproc_;;
  init <- gets k_initproc;;
  if decide (p = init) then panic "init exiting" else
  (* Close all open files. *)
  _ <- for_each (seq 0 (Z.to_nat NOFILE)) (fun fd =>
    f <- proc_get p (fun q => mjoin (p_ofile q !! fd));;
    match f with
    | None => ret (@None unit)
    | Some f => fileclose kend f;; proc_upd p (set_ofile fd None);; ret None
    end);;
  _ <- for_each (seq 0 (Z.to_nat MAXMMAPITEM)) (fun i =>
    m <- proc_get p (fun q => getv (p_vma q) i);;
    if vma_used m =? 0 then ret (@None unit) else
    (if (vma_flags m =? MAP_SHARED) && negb (Z.land (vma_prot m) PROT_WRITE =? 0)
     then _ <- filewrite dev_write (vma_vfile m) (vma_addr m) (vma_length m);; ret tt else ret tt);;
    fileclose kend (vma_vfile m);;
    pt <- proc_get p p_pagetable;;
    zoom kP (uvmunmap kend pt (vma_addr m) (u64 (Z.quot (vma_length m) PGSIZE)) true);;
    proc_upd p (fun q => set_vma i (set_vma_used 0 (getv (p_vma q) i)) q);;
    ret None);;
  k_begin_op;;
  cwd <- proc_get p p_cwd;;
  cwd <- deref cwd;;
  zoom kF (iput cwd);;
  k_end_op;;
  proc_upd p (set_p_cwd None);;
  acquire kH (kPL init);;
  wakeup1 init;;
  release kH (kPL init);;
  acquire kH (kPL p);;
  parent <- proc_get p p_parent;;
  release kH (kPL p);;
  original_parent <- deref parent;;
  (* the parent-then-child rule says we have to lock the parent first. *)
  acquire kH (kPL original_parent);;
  acquire kH (kPL p);;
  (* Give any children to init. *)
  reparent p;;
  (* Parent might be sleeping in wait(). *)
  wakeup1 original_parent;;
  proc_upd p (set_p_xstate status);;
  proc_upd p (set_p_state ZOMBIE);;
  release kH (kPL original_parent);;
  (* Jump into the scheduler, never to return. *)
  sched;;
  panic "zombie exit".

(** Wait for a child process to exit and return its pid. *)
Definition wait (addr : Z) : K' Z :=
  p <- myproc_;;
  acquire kH (kPL p);;
  while_ budget (fun _ : unit =>
    (* Scan through table looking for exited children. *)
    havekids <- while_ budget (fun '(np, havekids) =>
      if negb (Z.of_nat np <? NPROC) then ret (inr (inl havekids)) else
      parent <- proc_get np p_parent;;
      if decide (parent = Some p) then
        acquire kH (kPL np);;
        q <- proc_get np (fun q => q);;
        if decide (p_state q = ZOMBIE) then
          (* Found one. *)
          root <- proc_get p p_pagetable;;
          r <- (if addr =? 0 then ret 0 else zoom kP (copyout root addr (le_encode 4 (u32 (p_xstate q))) 4));;
          if r <? 0 then
            release kH (kPL np);;
            release kH (kPL p);;
            ret (inr (inr (-1)))
          else
            freeproc np;;
            release kH (kPL np);;
            release kH (kPL p);;
            ret (inr (inr (p_pid q)))
        else release kH (kPL np);; ret (inl (S np, true))
      else ret (inl (S np, havekids))) (O, false);;
    match havekids with
    | inr r => ret (inr r)
    | inl havekids =>
        (* No point waiting if we don't have any children. *)
        killed <- proc_get p p_killed;;
        if negb havekids || negb (killed =? 0) then release kH (kPL p);; ret (inr (-1)) else
        sleep (ChanProc (Z.of_nat p)) None;;
        ret (inl tt)
    end) tt.

(** [swtch(&c->context, &p->context)] runs the process until it switches back,
    having changed its state. *)
Definition swtch_to_proc (p : nat) : K' unit :=
  fun k => Wait None k (fun k' => bool_decide (p_state (getp (k_procs k') p) <> RUNNING)) (Done tt).

(** The body of the scheduler's loop: one pass over the process table. *)
Definition scheduler_pass : K' unit :=
  (* Avoid deadlock by ensuring that devices can interrupt. *)
  modify (fun k => over kH (intr_on (view kH k)) k);;
  nproc <- while_ budget (fun '(p, nproc) =>
    if negb (Z.of_nat p <? NPROC) then ret (inr nproc) else
    acquire kH (kPL p);;
    st <- proc_get p p_state;;
    let nproc := if decide (st = UNUSED) then nproc else nproc + 1 in
    (if decide (st = RUNNABLE) then
       (* Switch to chosen process. *)
       proc_upd p (set_p_state RUNNING);;
       modify (fun k => over kH (set_cproc (Some p) (view kH k)) k);;
       swtch_to_proc p;;
       (* Process is done running for now. *)
       modify (fun k => over kH (set_cproc None (view kH k)) k)
     else ret tt);;
    release kH (kPL p);;
    ret (inl (S p, nproc))) (O, 0);;
  if nproc <=? 2 then (* only init and sh exist *)
    modify (fun k => over kH (intr_on (view kH k)) k)
    (* wfi, a hint to the hart that it may pause until an interrupt *)
  else ret tt.

Definition scheduler : K' unit :=
  modify (fun k => over kH (set_cproc None (view kH k)) k);;
  while_ budget (fun _ : unit => scheduler_pass;; ret (inl tt)) tt.
End code.
