(* ===== verification/Args.v ===== *)
(** * kernel/syscall.c: fetching system call arguments

    The arguments of a system call are the registers a0 to a5 the trapframe
    holds; pointers among them are user addresses. *)
From S2P Require Import Prelude Machine KString Spinlock Kalloc Vm UserMem Block Env Pipe Log Txn Fs FsPath State.
Local Open Scope Z_scope.
Local Open Scope kernel_scope.

Section code.
Context {T D : Type}.
Notation K' := (K (kst T D)).

(** Fetch the uint64 at addr from the current process. *)
Definition fetchaddr (addr : Z) : K' (option Z) :=
  p <- myproc_;;
  sz <- proc_get p p_sz;;
  if (sz <=? addr) || (sz <? u64 (addr + 8)) then ret None else
  root <- proc_get p p_pagetable;;
  r <- zoom kP (copyin root addr 8);;
  if negb (r.1 =? 0) then ret None else ret (Some (le_decode r.2)).

(** Fetch the nul-terminated string at addr from the current process: the length
    of the string, not including nul, or -1; and the bytes stored in [buf]. *)
Definition fetchstr (addr max : Z) : K' (Z * list Z) :=
  p <- myproc_;;
  root <- proc_get p p_pagetable;;
  r <- zoom kP (copyinstr root addr max);;
  if r.1 <? 0 then ret r else ret (Z.of_nat (length (cstr r.2)), r.2).

Definition argraw (n : Z) : K' Z :=
  p <- myproc_;;
  if (0 <=? n) && (n <=? 5) then tf_get p (TF_a n) else panic "argraw".

Definition argint (n : Z) : K' Z := r <- argraw n;; ret (s32 r).

Definition argaddr (n : Z) : K' Z := argraw n.

Definition argstr (n max : Z) : K' (Z * list Z) :=
  addr <- argaddr n;;
  fetchstr addr max.
End code.
