(* ===== verification/Exec.v ===== *)
(** * kernel/exec.c: running a program

    [exec] replaces the memory of the current process by the program in an ELF
    file.  A path is the bytes of the string before its NUL; the strings of
    argv are in memory, at the addresses of the list [argv]. *)
From S2P Require Import Prelude Machine KString Spinlock Kalloc Vm UserMem Block Env Pipe Log Txn Fs FsPath State File Proc.
Local Open Scope Z_scope.
Local Open Scope kernel_scope.

(** elf.h *)
Definition ELF_MAGIC : Z := 0x464C457F.
Definition ELF_PROG_LOAD : Z := 1.
Definition get64 (d : list Z) (off : nat) : Z := le_decode (slice d off 8).
(** struct elfhdr *)
Definition sizeof_elfhdr : Z := 64.
Definition eh_magic (d : list Z) : Z := get32 d 0.
Definition eh_entry (d : list Z) : Z := get64 d 24.
Definition eh_phoff (d : list Z) : Z := get64 d 32.
Definition eh_phnum (d : list Z) : Z := get16 d 56.
(** struct proghdr *)
Definition sizeof_proghdr : Z := 56.
Definition ph_type (d : list Z) : Z := get32 d 0.
Definition ph_off (d : list Z) : Z := get64 d 8.
Definition ph_vaddr (d : list Z) : Z := get64 d 16.
Definition ph_filesz (d : list Z) : Z := get64 d 32.
Definition ph_memsz (d : list Z) : Z := get64 d 40.

(** The loop that leaves [last] after the last slash of the path. *)
Fixpoint last_elem (last s : list Z) : list Z :=
  match s with
  | [] => last
  | c :: s' => last_elem (if c =? SLASH then s' else last) s'
  end.

Section code.
Context {T B D : Type} {dev logstart nlog : Z} `{TS : !TxnStore T B dev logstart nlog}.
Context (kend trampoline : Z).
Notation K' := (K (kst T D)).

(** Load a program segment into pagetable at virtual address va. *)
Definition loadseg (pagetable va : Z) (ip : nat) (offset sz : Z) : K' Z :=
  if negb (va mod PGSIZE =? 0) then panic "loadseg: va must be page aligned" else
  while_ budget (fun i =>
    if negb (i <? sz) then ret (inr 0) else
    pa <- zoom kP (walkaddr pagetable (u64 (va + i)));;
    if pa =? 0 then panic "loadseg: address should exist" else
    let n := if u32 (sz - i) <? PGSIZE then u32 (sz - i) else PGSIZE in
    r <- zoom kF (readi ip None (u32 (offset + i)) n);;
    modify (upd_pm (fun s => set_mem (store_bytes (pm_mem s) pa r.2) s));;
    if negb (u32 r.1 =? n) then ret (inr (-1))
    else ret (inl (u32 (i + PGSIZE)))) 0.

(** The loop over the program headers: the new size of the process, and whether
    it ended without [goto bad]. *)
Definition load_segments (pagetable : Z) (ip : nat) (phoff phnum : Z) : K' (bool * Z) :=
  while_ budget (fun '(i, off, sz) =>
    if negb (i <? phnum) then ret (inr (true, sz)) else
    r <- zoom kF (readi ip None (u32 off) sizeof_proghdr);;
    if negb (r.1 =? sizeof_proghdr) then ret (inr (false, sz)) else
    let ph := r.2 in
    let next sz := (i + 1, s32 (off + sizeof_proghdr), sz) in
    if negb (ph_type ph =? ELF_PROG_LOAD) then ret (inl (next sz)) else
    if ph_memsz ph <? ph_filesz ph then ret (inr (false, sz)) else
    if u64 (ph_vaddr ph + ph_memsz ph) <? ph_vaddr ph then ret (inr (false, sz)) else
    sz1 <- zoom kP (uvmalloc kend pagetable sz (u64 (ph_vaddr ph + ph_memsz ph)));;
    if sz1 =? 0 then ret (inr (false, sz)) else
    let sz := sz1 in
    if negb (ph_vaddr ph mod PGSIZE =? 0) then ret (inr (false, sz)) else
    l <- loadseg pagetable (ph_vaddr ph) ip (u32 (ph_off ph)) (u32 (ph_filesz ph));;
    if l <? 0 then ret (inr (false, sz)) else ret (inl (next sz))) (0, s32 phoff, 0).

(** Push argument strings: the stack pointer and ustack, or [None] for bad.  Each
    string is in a page of its own with its NUL, so PGSIZE rounds of strlen are
    enough. *)
Definition push_args (pagetable stackbase : Z) (argv : list Z) (sp : Z) : K' (option (Z * list Z)) :=
  while_ budget (fun '(argv, argc, sp, ustack) =>
    match argv with
    | [] => ret (inr (Some (sp, ustack)))
    | arg :: argv =>
        if MAXARG <=? argc then ret (inr None) else
        m <- gets (fun k => pm_mem (k_pm k));;
        match strlen m arg (Z.to_nat PGSIZE) with
        | None => fun _ => Diverge
        | Some len =>
            let sp := u64 (sp - (len + 1)) in
            let sp := sp - sp mod 16 in (* riscv sp must be 16-byte aligned *)
            if sp <? stackbase then ret (inr None) else
            c <- zoom kP (copyout pagetable sp (load_bytes m arg (Z.to_nat (len + 1))) (len + 1));;
            if c <? 0 then ret (inr None) else
            ret (inl (argv, argc + 1, sp, ustack ++ [sp]))
        end
    end) (argv, 0, sp, []).

(** [bad:] after the file is closed. *)
Definition exec_bad (pagetable sz : Z) : K' Z :=
  (if pagetable =? 0 then ret tt else zoom kP (proc_freepagetable kend pagetable sz));;
  ret (-1).
(** [bad:] while ip is locked. *)
Definition exec_bad_ip (pagetable sz : Z) (ip : nat) : K' Z :=
  (if pagetable =? 0 then ret tt else zoom kP (proc_freepagetable kend pagetable sz));;
  zoom kF (iunlockput ip);;
  k_end_op;;
  ret (-1).

Definition exec (path : list Z) (argv : list Z) : K' Z :=
  p <- myproc_;;
  k_begin_op;;
  ip <- zoom kF (namei path);;
  match ip with
  | None => k_end_op;; ret (-1)
  | Some ip =>
      zoom kF (ilock ip);;
      (* Check ELF header *)
      r <- zoom kF (readi ip None 0 sizeof_elfhdr);;
      let elf := r.2 in
      if negb (r.1 =? sizeof_elfhdr) then exec_bad_ip 0 0 ip else
      if negb (eh_magic elf =? ELF_MAGIC) then exec_bad_ip 0 0 ip else
      tf <- proc_get p p_trapframe;;
      pagetable <- zoom kP (proc_pagetable kend trampoline tf);;
      if pagetable =? 0 then exec_bad_ip 0 0 ip else
      (* Load program into memory. *)
      l <- load_segments pagetable ip (eh_phoff elf) (eh_phnum elf);;
      if negb l.1 then exec_bad_ip pagetable l.2 ip else
      zoom kF (iunlockput ip);;
      k_end_op;;
      p <- myproc_;;
      oldsz <- proc_get p p_sz;;
      (* Allocate two pages at the next page boundary.
         Use the second as the user stack. *)
      let sz := PGROUNDUP l.2 in
      sz1 <- zoom kP (uvmalloc kend pagetable sz (u64 (sz + 2 * PGSIZE)));;
      if sz1 =? 0 then exec_bad pagetable sz else
      let sz := sz1 in
      zoom kP (uvmclear pagetable (u64 (sz - 2 * PGSIZE)));;
      let stackbase := u64 (sz - PGSIZE) in
      a <- push_args pagetable stackbase argv sz;;
      match a with
      | None => exec_bad pagetable sz
      | Some (sp, ustack) =>
          let argc := Z.of_nat (length ustack) in
          let ustack := ustack ++ [0] in
          (* push the array of argv[] pointers. *)
          let sp := u64 (sp - (argc + 1) * 8) in
          let sp := sp - sp mod 16 in
          if sp <? stackbase then exec_bad pagetable sz else
          c <- zoom kP (copyout pagetable sp (concat (map (le_encode 8) ustack)) ((argc + 1) * 8));;
          if c <? 0 then exec_bad pagetable sz else
          (* arguments to user main(argc, argv): argc is returned via the
             system call return value, which goes in a0. *)
          tf_set p (TF_a 1) sp;;
          (* Save program name for debugging. *)
          proc_upd p (fun q => set_p_name (safestrcpy_list (p_name q) (last_elem path path) 16) q);;
          (* Commit to the user image. *)
          oldpagetable <- proc_get p p_pagetable;;
          proc_upd p (set_p_pagetable pagetable);;
          proc_upd p (set_p_sz sz);;
          tf_set p TF_epc (eh_entry elf);;
          tf_set p TF_sp sp;;
          zoom kP (proc_freepagetable kend oldpagetable oldsz);;
          ret argc
      end
  end.
End code.
