(* ===== verification/Sysfile.v ===== *)
(** * kernel/sysfile.c: file-system system calls

    Argument checking and calls into file.c and fs.c.  The results are those of
    the source's functions, before their conversion to uint64 by the caller.
    [dev_read], [dev_write] and [stat_pad] are as in File.v. *)
From S2P Require Import Prelude Machine KString Spinlock Kalloc Vm UserMem Block Env Pipe Log Txn Fs FsPath State File Proc Args Exec.
Local Open Scope Z_scope.
Local Open Scope kernel_scope.

Definition DOT : list Z := [46].
Definition DOTDOT : list Z := [46; 46].
Definition zero_name : list Z := replicate (Z.to_nat DIRSIZ) 0.

Section code.
Context {T B D : Type} {dev logstart nlog : Z} `{TS : !TxnStore T B dev logstart nlog}.
Context (kend stat_pad trampoline : Z).
Context (dev_read dev_write : Z -> option (Z -> Z -> K (uenv * D) Z)).
Notation K' := (K (kst T D)).

(** The descriptor and the file. *)
Definition argfd (n : Z) : K' (option (nat * nat)) :=
  fd <- argint n;;
  if (fd <? 0) || (NOFILE <=? fd) then ret None else
  p <- myproc_;;
  f <- proc_get p (fun q => mjoin (p_ofile q !! Z.to_nat fd));;
  match f with
  | None => ret None
  | Some f => ret (Some (Z.to_nat fd, f))
  end.

Definition fdalloc (f : nat) : K' Z :=
  p <- myproc_;;
  r <- for_each (seq 0 (Z.to_nat NOFILE)) (fun fd =>
    g <- proc_get p (fun q => mjoin (p_ofile q !! fd));;
    match g with
    | None => proc_upd p (set_ofile fd (Some f));; ret (Some (Z.of_nat fd))
    | Some _ => ret None
    end);;
  ret (default (-1) r).

Definition sys_dup : K' Z :=
  a <- argfd 0;;
  match a with
  | None => ret (-1)
  | Some (_, f) =>
      fd <- fdalloc f;;
      if fd <? 0 then ret (-1) else
      _ <- filedup f;;
      ret fd
  end.

Definition sys_read : K' Z :=
  a <- argfd 0;;
  match a with
  | None => ret (-1)
  | Some (_, f) => n <- argint 2;; p <- argaddr 1;; fileread dev_read f p n
  end.

Definition sys_write : K' Z :=
  a <- argfd 0;;
  match a with
  | None => ret (-1)
  | Some (_, f) => n <- argint 2;; p <- argaddr 1;; filewrite dev_write f p n
  end.

Definition sys_close : K' Z :=
  a <- argfd 0;;
  match a with
  | None => ret (-1)
  | Some (fd, f) =>
      p <- myproc_;;
      proc_upd p (set_ofile fd None);;
      fileclose kend f;;
      ret 0
  end.

Definition sys_fstat : K' Z :=
  a <- argfd 0;;
  match a with
  | None => ret (-1)
  | Some (_, f) => st <- argaddr 1;; filestat stat_pad f st
  end.

Definition add_nlink (ip : nat) (d : Z) : K (@fss T) unit := upd_di ip (fun x => set_di_nlink (s16 (di_nlink x + d)) x).

(** Create the path new as a link to the same inode as old. *)
Definition sys_link : K' Z :=
  old <- argstr 0 MAXPATH;;
  if old.1 <? 0 then ret (-1) else
  new <- argstr 1 MAXPATH;;
  if new.1 <? 0 then ret (-1) else
  k_begin_op;;
  ip <- zoom kF (namei (cstr old.2));;
  match ip with
  | None => k_end_op;; ret (-1)
  | Some ip =>
      zoom kF (ilock ip);;
      x <- zoom kF (ino ip);;
      if di_type (i_di x) =? T_DIR then zoom kF (iunlockput ip);; k_end_op;; ret (-1) else
      zoom kF (add_nlink ip 1);;
      zoom kF (iupdate ip);;
      zoom kF (iunlock ip);;
      let bad := (
        zoom kF (ilock ip);;
        zoom kF (add_nlink ip (-1));;
        zoom kF (iupdate ip);;
        zoom kF (iunlockput ip);;
        k_end_op;;
        ret (-1)) in
      r <- zoom kF (nameiparent (cstr new.2) zero_name);;
      match r with
      | (None, _) => bad
      | (Some dp, name) =>
          zoom kF (ilock dp);;
          d <- zoom kF (ino dp);;
          i <- zoom kF (ino ip);;
          l <- (if negb (i_dev d =? i_dev i) then ret (-1) else zoom kF (dirlink dp name (i_inum i)));;
          if l <? 0 then zoom kF (iunlockput dp);; bad else
          zoom kF (iunlockput dp);;
          zoom kF (iput ip);;
          k_end_op;;
          ret 0
      end
  end.

(** Is the directory dp empty except for "." and ".." ? *)
Definition isdirempty (dp : nat) : K (@fss T) bool :=
  while_ budget (fun off =>
    x <- ino dp;;
    if negb (off <? di_size (i_di x)) then ret (inr true) else
    r <- readi dp None off sizeof_de;;
    if negb (r.1 =? sizeof_de) then panic "isdirempty: readi" else
    if negb (de_inum r.2 =? 0) then ret (inr false) else
    ret (inl (off + sizeof_de))) (2 * sizeof_de).

Definition sys_unlink : K' Z :=
  path <- argstr 0 MAXPATH;;
  if path.1 <? 0 then ret (-1) else
  k_begin_op;;
  r <- zoom kF (nameiparent (cstr path.2) zero_name);;
  match r with
  | (None, _) => k_end_op;; ret (-1)
  | (Some dp, name) =>
      zoom kF (ilock dp);;
      let bad := (zoom kF (iunlockput dp);; k_end_op;; ret (-1)) in
      (* Cannot unlink "." or "..". *)
      if (namecmp name DOT =? 0) || (namecmp name DOTDOT =? 0) then bad else
      e <- zoom kF (dirlookup dp name);;
      match e with
      | None => bad
      | Some (ip, off) =>
          zoom kF (ilock ip);;
          x <- zoom kF (ino ip);;
          if di_nlink (i_di x) <? 1 then panic "unlink: nlink < 1" else
          empty <- (if di_type (i_di x) =? T_DIR then zoom kF (isdirempty ip) else ret true);;
          if negb empty then zoom kF (iunlockput ip);; bad else
          w <- zoom kF (writei dp (inr (replicate (Z.to_nat sizeof_de) 0)) off sizeof_de);;
          if negb (w =? sizeof_de) then panic "unlink: writei" else
          (if di_type (i_di x) =? T_DIR then zoom kF (add_nlink dp (-1));; zoom kF (iupdate dp) else ret tt);;
          zoom kF (iunlockput dp);;
          zoom kF (add_nlink ip (-1));;
          zoom kF (iupdate ip);;
          zoom kF (iunlockput ip);;
          k_end_op;;
          ret 0
      end
  end.

(** [ialloc] returns an inode or panics. *)
Definition create (path : list Z) (type major minor : Z) : K (@fss T) (option nat) :=
  r <- nameiparent path zero_name;;
  match r with
  | (None, _) => ret None
  | (Some dp, name) =>
      ilock dp;;
      e <- dirlookup dp name;;
      match e with
      | Some (ip, _) =>
          iunlockput dp;;
          ilock ip;;
          x <- ino ip;;
          let ty := di_type (i_di x) in
          if (type =? T_FILE) && ((ty =? T_FILE) || (ty =? T_DEVICE)) then ret (Some ip) else
          iunlockput ip;;
          ret None
      | None =>
          d <- ino dp;;
          ip <- ialloc (i_dev d) type;;
          ilock ip;;
          upd_di ip (set_di_dev (s16 major) (s16 minor) 1);;
          iupdate ip;;
          x <- ino ip;;
          (if type =? T_DIR then (* Create . and .. entries. *)
             add_nlink dp 1;; (* for ".." *)
             iupdate dp;;
             (* No ip->nlink++ for ".": avoid cyclic ref count. *)
             a <- dirlink ip DOT (i_inum x);;
             if a <? 0 then panic "create dots" else
             b <- dirlink ip DOTDOT (i_inum d);;
             if b <? 0 then panic "create dots" else ret tt
           else ret tt);;
          l <- dirlink dp name (i_inum x);;
          if l <? 0 then panic "create: dirlink" else
          iunlockput dp;;
          ret (Some ip)
      end
  end.

(** The first part of sys_open: the inode, locked. *)
Definition open_inode (path : list Z) (omode : Z) : K' (option nat) :=
  if negb (Z.land omode O_CREATE =? 0) then
    ip <- zoom kF (create path T_FILE 0 0);;
    match ip with
    | None => k_end_op;; ret None
    | Some ip => ret (Some ip)
    end
  else
    ip <- zoom kF (namei path);;
    match ip with
    | None => k_end_op;; ret None
    | Some ip =>
        zoom kF (ilock ip);;
        x <- zoom kF (ino ip);;
        if (di_type (i_di x) =? T_DIR) && negb (omode =? O_RDONLY) then
          zoom kF (iunlockput ip);; k_end_op;; ret None
        else ret (Some ip)
    end.

Definition sys_open : K' Z :=
  path <- argstr 0 MAXPATH;;
  if path.1 <? 0 then ret (-1) else
  omode <- argint 1;;
  k_begin_op;;
  r <- open_inode (cstr path.2) omode;;
  match r with
  | None => ret (-1)
  | Some ip =>
      let fail := (zoom kF (iunlockput ip);; k_end_op;; ret (-1)) in
      x <- zoom kF (ino ip);;
      let di := i_di x in
      if (di_type di =? T_DEVICE) && ((di_major di <? 0) || (NDEV <=? di_major di)) then fail else
      f <- filealloc;;
      match f with
      | None => fail
      | Some f =>
          fd <- fdalloc f;;
          if fd <? 0 then fileclose kend f;; fail else
          (if di_type di =? T_DEVICE then
             file_upd f (fun y => set_fl_major (di_major di) (set_fl_type FD_DEVICE y))
           else file_upd f (fun y => set_fl_off 0 (set_fl_type FD_INODE y)));;
          file_upd f (set_fl_ip ip);;
          let wronly := negb (Z.land omode O_WRONLY =? 0) in
          let rdwr := negb (Z.land omode O_RDWR =? 0) in
          file_upd f (set_fl_mode (if negb wronly then 1 else 0) (if wronly || rdwr then 1 else 0));;
          (if negb (Z.land omode O_TRUNC =? 0) && (di_type di =? T_FILE) then zoom kF (itrunc ip) else ret tt);;
          zoom kF (iunlock ip);;
          k_end_op;;
          ret fd
      end
  end.

Definition sys_mkdir : K' Z :=
  k_begin_op;;
  path <- argstr 0 MAXPATH;;
  ip <- (if path.1 <? 0 then ret None else zoom kF (create (cstr path.2) T_DIR 0 0));;
  match ip with
  | None => k_end_op;; ret (-1)
  | Some ip => zoom kF (iunlockput ip);; k_end_op;; ret 0
  end.

Definition sys_mknod : K' Z :=
  k_begin_op;;
  path <- argstr 0 MAXPATH;;
  ip <- (if path.1 <? 0 then ret None else
         major <- argint 1;;
         minor <- argint 2;;
         zoom kF (create (cstr path.2) T_DEVICE major minor));;
  match ip with
  | None => k_end_op;; ret (-1)
  | Some ip => zoom kF (iunlockput ip);; k_end_op;; ret 0
  end.

Definition sys_chdir : K' Z :=
  p <- myproc_;;
  k_begin_op;;
  path <- argstr 0 MAXPATH;;
  ip <- (if path.1 <? 0 then ret None else zoom kF (namei (cstr path.2)));;
  match ip with
  | None => k_end_op;; ret (-1)
  | Some ip =>
      zoom kF (ilock ip);;
      x <- zoom kF (ino ip);;
      if negb (di_type (i_di x) =? T_DIR) then zoom kF (iunlockput ip);; k_end_op;; ret (-1) else
      zoom kF (iunlock ip);;
      cwd <- proc_get p p_cwd;;
      cwd <- deref cwd;;
      zoom kF (iput cwd);;
      k_end_op;;
      proc_upd p (set_p_cwd (Some ip));;
      ret 0
  end.

Definition free_args (argv : list Z) : K' unit :=
  _ <- for_each argv (fun a => zoom kP (kfree kend a);; ret (@None unit));;
  ret tt.

(** The loop that copies the arguments: whether it ended with argv[i] = 0, and
    the pages allocated so far. *)
Definition fetch_args (uargv : Z) : K' (bool * list Z) :=
  while_ budget (fun '(i, argv) =>
    if MAXARG <=? i then ret (inr (false, argv)) else
    uarg <- fetchaddr (u64 (uargv + 8 * i));;
    match uarg with
    | None => ret (inr (false, argv))
    | Some uarg =>
        if uarg =? 0 then ret (inr (true, argv)) else
        page <- zoom kP kalloc;;
        if page =? 0 then ret (inr (false, argv)) else
        s <- fetchstr uarg PGSIZE;;
        modify (upd_pm (fun m => set_mem (store_bytes (pm_mem m) page s.2) m));;
        if s.1 <? 0 then ret (inr (false, argv ++ [page])) else
        ret (inl (i + 1, argv ++ [page]))
    end) (0, []).

Definition sys_exec : K' Z :=
  path <- argstr 0 MAXPATH;;
  if path.1 <? 0 then ret (-1) else
  uargv <- argaddr 1;;
  a <- fetch_args uargv;;
  if negb a.1 then free_args a.2;; ret (-1) else
  r <- exec kend trampoline (cstr path.2) a.2;;
  free_args a.2;;
  ret r.

Definition sys_pipe : K' Z :=
  p <- myproc_;;
  fdarray <- argaddr 0;;
  r <- pipealloc kend;;
  match r with
  | None => ret (-1)
  | Some (rf, wf) =>
      let fail := (fileclose kend rf;; fileclose kend wf;; ret (-1)) in
      fd0 <- fdalloc rf;;
      if fd0 <? 0 then fail else
      fd1 <- fdalloc wf;;
      if fd1 <? 0 then proc_upd p (set_ofile (Z.to_nat fd0) None);; fail else
      root <- proc_get p p_pagetable;;
      c0 <- zoom kP (copyout root fdarray (le_encode 4 fd0) 4);;
      c1 <- (if c0 <? 0 then ret (-1) else zoom kP (copyout root (u64 (fdarray + 4)) (le_encode 4 fd1) 4));;
      if c1 <? 0 then
        proc_upd p (set_ofile (Z.to_nat fd0) None);;
        proc_upd p (set_ofile (Z.to_nat fd1) None);;
        fail
      else ret 0
  end.
End code.
