(* ===== verification/Mmap.v ===== *)
(** * Memory-mapped files

    sys_mmap, mmap_handler and sys_munmap of kernel/sysfile.c: a mapping is an
    entry of p->vma, and the range [addr, addr + length) of addresses; its pages
    are read from the file by the page-fault handler. *)
From S2P Require Import Prelude Machine KString Spinlock Kalloc Vm UserMem Block Env Pipe Log Txn Fs FsPath State File Proc Args Exec Sysfile.
Local Open Scope Z_scope.
Local Open Scope kernel_scope.

Section code.
Context {T B D : Type} {dev logstart nlog : Z} `{TS : !TxnStore T B dev logstart nlog}.
Context (kend : Z).
Context (dev_write : Z -> option (Z -> Z -> K (uenv * D) Z)).
Notation K' := (K (kst T D)).

Definition mmap_err : Z := 0xffffffffffffffff.

Definition sys_mmap : K' Z :=
  addr <- argaddr 0;;
  length <- argint 1;;
  prot <- argint 2;;
  flags <- argint 3;;
  a <- argfd 4;;
  match a with
  | None => ret mmap_err
  | Some (fd, vfile) =>
      offset <- argint 5;;
      if negb (addr =? 0) || negb (offset =? 0) || (length <? 0) then ret mmap_err else
      w <- file_get vfile fl_writable;;
      if (w =? 0) && negb (Z.land prot PROT_WRITE =? 0) && (flags =? MAP_SHARED) then ret mmap_err else
      p <- myproc_;;
      r <- for_each (seq 0 (Z.to_nat MAXMMAPITEM)) (fun i =>
        m <- proc_get p (fun q => getv (p_vma q) i);;
        if vma_used m =? 0 then
          sz <- proc_get p p_sz;;
          proc_upd p (set_vma i (mkVma 1 sz length prot flags (Z.of_nat fd) vfile 0));;
          _ <- filedup vfile;;
          proc_upd p (fun q => set_p_sz (u64 (p_sz q + length)) q);;
          m <- proc_get p (fun q => getv (p_vma q) i);;
          ret (Some (vma_addr m))
        else ret None);;
      match r with
      | Some r => ret r
      | None => panic "no empty mmapitem!"
      end
  end.

(** [va] is an int: compared with a uint64 it is sign-extended. *)
Definition in_vma (va : Z) (m : mmapitem) : bool :=
  (vma_used m =? 1) && (vma_addr m <=? u64 va) && (u64 va <? u64 (vma_addr m + vma_length m)).

Definition vma_perm (prot : Z) : Z :=
  let pte_flags := PTE_U in
  let pte_flags := if Z.land prot PROT_READ =? 0 then pte_flags else Z.lor pte_flags PTE_R in
  let pte_flags := if Z.land prot PROT_WRITE =? 0 then pte_flags else Z.lor pte_flags PTE_W in
  if Z.land prot PROT_EXEC =? 0 then pte_flags else Z.lor pte_flags PTE_X.

Definition mmap_handler (va cause : Z) : K' Z :=
  p <- myproc_;;
  i <- for_each (seq 0 (Z.to_nat MAXMMAPITEM)) (fun i =>
    m <- proc_get p (fun q => getv (p_vma q) i);;
    if in_vma va m then ret (Some i) else ret None);;
  match i with
  | None => ret (-1)
  | Some i =>
      m <- proc_get p (fun q => getv (p_vma q) i);;
      f <- file_get (vma_vfile m) (fun f => f);;
      if (cause =? 13) && (fl_readable f =? 0) then ret (-1) else
      if (cause =? 15) && (fl_writable f =? 0) then ret (-1) else
      let pte_flags := vma_perm (vma_prot m) in
      pa <- zoom kP kalloc;;
      if pa =? 0 then ret (-1) else
      modify (upd_pm (fun s => set_mem (memset (pm_mem s) pa 0 PGSIZE) s));;
      zoom kF (ilock (fl_ip f));;
      let offset := s32 (vma_offset m + PGROUNDDOWN (u64 (u64 va - vma_addr m))) in
      r <- zoom kF (readi (fl_ip f) None (u32 offset) PGSIZE);;
      modify (upd_pm (fun s => set_mem (store_bytes (pm_mem s) pa r.2) s));;
      if r.1 =? 0 then
        zoom kF (iunlock (fl_ip f));;
        zoom kP (kfree kend pa);;
        ret (-1)
      else
      zoom kF (iunlock (fl_ip f));;
      root <- proc_get p p_pagetable;;
      e <- zoom kP (mappages root (u64 (PGROUNDDOWN va)) PGSIZE pa pte_flags);;
      if negb (e =? 0) then zoom kP (kfree kend pa);; ret (-1) else ret 0
  end.

(** The shrunk mapping, when [addr, addr + length) is cut from [m]. *)
Definition cut_vma (addr length : Z) (m : mmapitem) : option mmapitem :=
  if negb (vma_used m =? 0) && (length <=? vma_length m) then
    if vma_addr m =? addr then Some (set_vma_range (u64 (vma_addr m + length)) (s32 (vma_length m - length)) m)
    else if u64 (vma_addr m + length) =? u64 (vma_addr m + vma_length m) then
      Some (set_vma_range (vma_addr m) (s32 (vma_length m - length)) m)
    else None
  else None.

Definition sys_munmap : K' Z :=
  addr <- argaddr 0;;
  length <- argint 1;;
  p <- myproc_;;
  i <- for_each (seq 0 (Z.to_nat MAXMMAPITEM)) (fun i =>
    m <- proc_get p (fun q => getv (p_vma q) i);;
    match cut_vma addr length m with
    | Some m => proc_upd p (set_vma i m);; ret (Some i)
    | None => ret None
    end);;
  match i with
  | None => ret (-1)
  | Some i =>
      m <- proc_get p (fun q => getv (p_vma q) i);;
      (if (vma_flags m =? MAP_SHARED) && negb (Z.land (vma_prot m) PROT_WRITE =? 0)
       then _ <- filewrite dev_write (vma_vfile m) addr length;; ret tt else ret tt);;
      root <- proc_get p p_pagetable;;
      zoom kP (uvmunmap kend root addr (u64 (Z.quot length PGSIZE)) true);;
      m <- proc_get p (fun q => getv (p_vma q) i);;
      if vma_length m =? 0 then
        fileclose kend (vma_vfile m);;
        proc_upd p (set_vma i (set_vma_used 0 m));;
        ret 0
      else ret 0
  end.
End code.
