(* ===== verification/Syscall.v ===== *)
(** * kernel/sysproc.c and the dispatch of system calls in kernel/syscall.c *)
From S2P Require Import Prelude Machine KString Spinlock Kalloc Vm UserMem Block Env Pipe Log Txn Fs FsPath State File Proc Args Exec Sysfile Mmap.
Local Open Scope Z_scope.
Local Open Scope kernel_scope.

(** syscall.h *)
Definition SYS_fork : Z := 1.
Definition SYS_exit : Z := 2.
Definition SYS_wait : Z := 3.
Definition SYS_pipe : Z := 4.
Definition SYS_read : Z := 5.
Definition SYS_kill : Z := 6.
Definition SYS_exec : Z := 7.
Definition SYS_fstat : Z := 8.
Definition SYS_chdir : Z := 9.
Definition SYS_dup : Z := 10.
Definition SYS_getpid : Z := 11.
Definition SYS_sbrk : Z := 12.
Definition SYS_sleep : Z := 13.
Definition SYS_uptime : Z := 14.
Definition SYS_open : Z := 15.
Definition SYS_write : Z := 16.
Definition SYS_mknod : Z := 17.
Definition SYS_unlink : Z := 18.
Definition SYS_link : Z := 19.
Definition SYS_mkdir : Z := 20.
Definition SYS_close : Z := 21.
Definition SYS_mmap : Z := 22.
Definition SYS_munmap : Z := 23.

Section code.
Context {T B D : Type} {dev logstart nlog : Z} `{TS : !TxnStore T B dev logstart nlog}.
Context (kend stat_pad trampoline forkret_addr : Z).
Context (dev_read dev_write : Z -> option (Z -> Z -> K (uenv * D) Z)).
Notation K' := (K (kst T D)).

Definition sys_exit : K' Z :=
  n <- argint 0;;
  exit kend dev_write n;;
  ret 0. (* not reached *)

Definition sys_getpid : K' Z :=
  p <- myproc_;;
  proc_get p p_pid.

Definition sys_fork : K' Z := fork kend trampoline forkret_addr.

Definition sys_wait : K' Z :=
  p <- argaddr 0;;
  wait kend p.

Definition sys_sbrk : K' Z :=
  n <- argint 0;;
  p <- myproc_;;
  sz <- proc_get p p_sz;;
  let addr := s32 sz in
  r <- growproc kend n;;
  if r <? 0 then ret (-1) else ret addr.

Definition sys_sleep : K' Z :=
  n <- argint 0;;
  acquire kH kTicksL;;
  ticks0 <- gets k_ticks;;
  while_ budget (fun _ : unit =>
    ticks <- gets k_ticks;;
    if negb (u32 (ticks - ticks0) <? u32 n) then release kH kTicksL;; ret (inr 0) else
    p <- myproc_;;
    killed <- proc_get p p_killed;;
    if negb (killed =? 0) then release kH kTicksL;; ret (inr (-1)) else
    sleep ChanTicks (Some kTicksL);;
    ret (inl tt)) tt.

Definition sys_kill : K' Z :=
  pid <- argint 0;;
  kill pid.

Definition sys_uptime : K' Z :=
  acquire kH kTicksL;;
  xticks <- gets k_ticks;;
  release kH kTicksL;;
  ret xticks.

Definition syscalls (num : Z) : option (K' Z) :=
  if num =? SYS_fork then Some sys_fork else
  if num =? SYS_exit then Some sys_exit else
  if num =? SYS_wait then Some sys_wait else
  if num =? SYS_pipe then Some (sys_pipe kend) else
  if num =? SYS_read then Some (sys_read dev_read) else
  if num =? SYS_kill then Some sys_kill else
  if num =? SYS_exec then Some (sys_exec kend trampoline) else
  if num =? SYS_fstat then Some (sys_fstat stat_pad) else
  if num =? SYS_chdir then Some sys_chdir else
  if num =? SYS_dup then Some sys_dup else
  if num =? SYS_getpid then Some sys_getpid else
  if num =? SYS_sbrk then Some sys_sbrk else
  if num =? SYS_sleep then Some sys_sleep else
  if num =? SYS_uptime then Some sys_uptime else
  if num =? SYS_open then Some (sys_open kend) else
  if num =? SYS_write then Some (sys_write dev_write) else
  if num =? SYS_mknod then Some sys_mknod else
  if num =? SYS_unlink then Some sys_unlink else
  if num =? SYS_link then Some sys_link else
  if num =? SYS_mkdir then Some sys_mkdir else
  if num =? SYS_close then Some (sys_close kend) else
  if num =? SYS_mmap then Some sys_mmap else
  if num =? SYS_munmap then Some (sys_munmap kend dev_write) else None.

(** The message for an unknown number goes to the console. *)
Definition syscall : K' unit :=
  p <- myproc_;;
  a7 <- tf_get p (TF_a 7);;
  let num := s32 a7 in
  match syscalls num with
  | Some call => r <- call;; tf_set p (TF_a 0) (u64 r)
  | None => tf_set p (TF_a 0) (u64 (-1))
  end.
End code.
