(* ===== verification/Console.v ===== *)
(** * kernel/console.c and kernel/printf.c

    The console's input lines and the formatted output of the kernel. *)
From S2P Require Import Prelude Machine KString Spinlock Kalloc Vm UserMem Block Env Uart.
Local Open Scope Z_scope.
Local Open Scope kernel_scope.

Definition BACKSPACE : Z := 0x100.
Definition CONSOLE : Z := 1.
Definition INPUT_BUF : Z := 128.
(** Characters: C('P'), C('U'), C('H'), C('D'), and so on. *)
Definition C_P : Z := 16.
Definition C_U : Z := 21.
Definition C_H : Z := 8.
Definition C_D : Z := 4.
Definition DEL : Z := 127.
Definition NL : Z := 10.
Definition CR : Z := 13.

Definition cons_at (c : consbuf) (i : Z) : Z := default 0 (c_buf c !! Z.to_nat (i mod INPUT_BUF)).
Definition set_c_r (v : Z) (c : consbuf) : consbuf := mkCons (c_lock c) (c_buf c) v (c_w c) (c_e c).
Definition set_c_w (v : Z) (c : consbuf) : consbuf := mkCons (c_lock c) (c_buf c) (c_r c) v (c_e c).
Definition set_c_e (v : Z) (c : consbuf) : consbuf := mkCons (c_lock c) (c_buf c) (c_r c) (c_w c) v.
(** cons.buf[cons.e++ % INPUT_BUF] = ch *)
Definition cons_store (ch : Z) (c : consbuf) : consbuf :=
  mkCons (c_lock c) (<[Z.to_nat (c_e c mod INPUT_BUF) := u8 ch]> (c_buf c)) (c_r c) (c_w c) (u32 (c_e c + 1)).

Definition digits (x : Z) : Z := default 0 (str "0123456789abcdef" !! Z.to_nat x).

(** A value for a conversion of printf. *)
Inductive parg := AInt (v : Z) | APtr (v : Z) | AStr (s : option (list Z)).

Section console.
Context {W : Type} `{MM : !Mmio W}.
Notation K' := (K (cst W)).

Definition cons_get {A} (f : consbuf -> A) : K' A := gets (fun s => f (d_cons s.2)).
Definition cons_upd (f : consbuf -> consbuf) : K' unit := modify (upd_cons f).

Definition consputc (c : Z) : K' unit :=
  if c =? BACKSPACE then
    (* if the user typed backspace, overwrite with a space. *)
    uartputc_sync 8;; uartputc_sync 32;; uartputc_sync 8
  else uartputc_sync c.

(** The devsw entries: user_src and user_dst are 1 (file.c). *)
Definition consolewrite (src n : Z) : K' Z :=
  r <- for_each (seqZ 0 n) (fun i =>
    c <- zoom cE (either_copyin (inl (u64 (src + i))) 1);;
    if c.1 =? -1 then ret (Some i) else
    uartputc (default 0 (head c.2));;
    ret None);;
  ret (default (Z.max 0 n) r).

Definition cons_waits (s : cst W) : bool := c_r (d_cons s.2) =? c_w (d_cons s.2).

Definition consoleread (dst n : Z) : K' Z :=
  let target := u32 n in
  acquire cH cConsL;;
  r <- while_ budget (fun '(dst, n) =>
    if negb (0 <? n) then ret (inr (Some n)) else
    (* wait until interrupt handler has put some input into cons.buffer. *)
    dead <- while_ budget (fun _ : unit =>
      w <- gets cons_waits;;
      if negb w then ret (inr false) else
      _ <- zoom cH myproc;;
      k <- gets (fun s => ue_killed s.1);;
      if negb (k =? 0) then release cH cConsL;; ret (inr true) else
      sleep_until cH cConsL ChanCons (fun s => negb (cons_waits s) || negb (ue_killed s.1 =? 0));;
      ret (inl tt)) tt;;
    if dead : bool then ret (inr None) else
    c <- cons_get (fun b => cons_at b (c_r b));;
    cons_upd (fun b => set_c_r (u32 (c_r b + 1)) b);;
    if c =? C_D then (* end-of-file *)
      (* Save ^D for next time, to make sure caller gets a 0-byte result. *)
      (if n <? target then cons_upd (fun b => set_c_r (u32 (c_r b - 1)) b) else ret tt);;
      ret (inr (Some n))
    else
    (* copy the input byte to the user-space buffer. *)
    e <- zoom cE (either_copyout (Some dst) [c] 1);;
    if e.1 =? -1 then ret (inr (Some n)) else
    let n := n - 1 in
    if c =? NL then (* a whole line has arrived *) ret (inr (Some n)) else
    ret (inl (u64 (dst + 1), n))) (dst, n);;
  match r with
  | None => ret (-1)
  | Some n => release cH cConsL;; ret (s32 (target - n))
  end.

(** [procdump] prints the process table. *)
Definition consoleintr (procdump : K' unit) (c : Z) : K' unit :=
  acquire cH cConsL;;
  (if c =? C_P then procdump
   else if c =? C_U then (* Kill line. *)
     while_ budget (fun _ : unit =>
       b <- cons_get (fun b => b);;
       if negb (c_e b =? c_w b) && negb (cons_at b (u32 (c_e b - 1)) =? NL) then
         cons_upd (fun b => set_c_e (u32 (c_e b - 1)) b);;
         consputc BACKSPACE;;
         ret (inl tt)
       else ret (inr tt)) tt
   else if (c =? C_H) || (c =? DEL) then (* Backspace *)
     b <- cons_get (fun b => b);;
     if negb (c_e b =? c_w b) then
       cons_upd (fun b => set_c_e (u32 (c_e b - 1)) b);;
       consputc BACKSPACE
     else ret tt
   else
     b <- cons_get (fun b => b);;
     if negb (c =? 0) && (u32 (c_e b - c_r b) <? INPUT_BUF) then
       let c := if c =? CR then NL else c in
       (* echo back to the user. *)
       consputc c;;
       (* store for consumption by consoleread(). *)
       cons_upd (cons_store c);;
       b <- cons_get (fun b => b);;
       if (c =? NL) || (c =? C_D) || (c_e b =? u32 (c_r b + INPUT_BUF)) then
         (* wake up consoleread() if a whole line (or end-of-file) has arrived. *)
         cons_upd (fun b => set_c_w (c_e b) b);;
         c_wakeup ChanCons
       else ret tt
     else ret tt);;
  release cH cConsL.

Definition consoleinit : K' unit :=
  modify (over cConsL (initlock "cons"));;
  uartinit.

(** The functions consoleinit() puts in devsw[CONSOLE]. *)
Definition devsw_read (major : Z) : option (Z -> Z -> K' Z) := if major =? CONSOLE then Some consoleread else None.
Definition devsw_write (major : Z) : option (Z -> Z -> K' Z) := if major =? CONSOLE then Some consolewrite else None.

(** ** printf.c *)

(** The characters printint leaves in buf, in the order they are stored. *)
Fixpoint digit_loop (fuel : nat) (x base : Z) : list Z :=
  match fuel with
  | O => []
  | S fuel => digits (x mod base) :: if x / base =? 0 then [] else digit_loop fuel (x / base) base
  end.
Definition int_chars (xx base : Z) (sign : bool) : list Z :=
  let neg := sign && (xx <? 0) in
  let x := if neg then u32 (- xx) else u32 xx in
  digit_loop 32 x base ++ (if neg then [45] else []).

Definition put_chars (l : list Z) : K' unit :=
  _ <- for_each l (fun c => consputc c;; ret (@None unit));;
  ret tt.

Definition printint (xx base : Z) (sign : bool) : K' unit := put_chars (rev (int_chars xx base sign)).

Fixpoint ptr_loop (n : nat) (x : Z) : list Z :=
  match n with
  | O => []
  | S n => digits (Z.shiftr x (64 - 4)) :: ptr_loop n (u64 (Z.shiftl x 4))
  end.
Definition printptr (x : Z) : K' unit :=
  consputc 48;;
  consputc 120;;
  put_chars (ptr_loop 16 x).

Definition null_str : list Z := str "(null)".

(** The loop over the format; an argument that is missing or of the wrong kind
    is undefined in C. *)
Fixpoint printf_loop (fmt : list Z) (args : list parg) : K' unit :=
  match fmt with
  | [] => ret tt
  | c :: fmt =>
      if c =? 0 then ret tt else
      if negb (c =? 37) then consputc c;; printf_loop fmt args else
      match fmt with
      | [] => ret tt
      | c :: fmt =>
          if c =? 0 then ret tt else
          if c =? 100 then (* d *)
            match args with AInt v :: args => printint v 10 true;; printf_loop fmt args | _ => panic "va_arg" end
          else if c =? 120 then (* x *)
            match args with AInt v :: args => printint v 16 true;; printf_loop fmt args | _ => panic "va_arg" end
          else if c =? 112 then (* p *)
            match args with APtr v :: args => printptr v;; printf_loop fmt args | _ => panic "va_arg" end
          else if c =? 115 then (* s *)
            match args with AStr s :: args => put_chars (default null_str s);; printf_loop fmt args | _ => panic "va_arg" end
          else if c =? 37 then consputc 37;; printf_loop fmt args
          else
            (* Print unknown % sequence to draw attention. *)
            consputc 37;; consputc c;; printf_loop fmt args
      end
  end.

Definition printf (fmt : list Z) (args : list parg) : K' unit :=
  locking <- gets (fun s => pr_locking (d_pr s.2));;
  (if negb (locking =? 0) then acquire cH cPrL else ret tt);;
  printf_loop fmt args;;
  if negb (locking =? 0) then release cH cPrL else ret tt.

(** panic: what it does to the devices before it spins for ever. *)
Definition panic_message (s : list Z) : K' unit :=
  modify (upd_pr (fun p => mkPr (pr_lock p) 0));;
  printf (str "panic: ") [];;
  printf s [];;
  printf [NL] [];;
  modify (upd_panicked 1).

Definition printfinit : K' unit :=
  modify (over cPrL (initlock "pr"));;
  modify (upd_pr (fun p => mkPr (pr_lock p) 1)).
End console.
