(* ===== verification/Trap.v ===== *)
(** * kernel/trap.c, kernel/plic.c, forkret and procdump

    Traps, interrupts and exceptions.  [csr] holds the supervisor registers the
    handlers use (sstatus and tp are in the hart).  The addresses [kernelvec],
    [uservec], [userret], [usertrap_addr] and [trampoline] are the linker's.
    [virtio_disk_intr] is the interrupt handler of virtio_disk.c on the kernel's
    state. *)
From S2P Require Import Prelude Machine KString Spinlock Kalloc Vm UserMem Block Env Pipe Log Txn Fs FsPath State File Proc Args Exec Sysfile Mmap Syscall Uart Console.
Local Open Scope Z_scope.
Local Open Scope kernel_scope.

Definition SSTATUS_SPP : Z := Z.shiftl 1 8.
Definition SSTATUS_SPIE : Z := Z.shiftl 1 5.
Definition SATP_SV39 : Z := Z.shiftl 8 60.
Definition MAKE_SATP (pagetable : Z) : Z := Z.lor SATP_SV39 (Z.shiftr pagetable 12).
Definition UART0_IRQ : Z := 10.
Definition VIRTIO0_IRQ : Z := 1.
Definition PLIC_SENABLE (hart : Z) : Z := PLIC + 0x2080 + hart * 0x100.
Definition PLIC_SPRIORITY (hart : Z) : Z := PLIC + 0x201000 + hart * 0x2000.
Definition PLIC_SCLAIM (hart : Z) : Z := PLIC + 0x201004 + hart * 0x2000.

Record csr := mkCsr {
  c_sepc : Z;
  c_scause : Z;
  c_stval : Z;
  c_stvec : Z;
  c_satp : Z;
  c_sip : Z
}.
Definition set_sepc (v : Z) (c : csr) : csr := mkCsr v (c_scause c) (c_stval c) (c_stvec c) (c_satp c) (c_sip c).
Definition set_stvec (v : Z) (c : csr) : csr := mkCsr (c_sepc c) (c_scause c) (c_stval c) v (c_satp c) (c_sip c).
Definition set_sip (v : Z) (c : csr) : csr := mkCsr (c_sepc c) (c_scause c) (c_stval c) (c_stvec c) (c_satp c) v.

(** ** procdump (proc.c) *)
(** The five states as procdump prints them. *)
Definition state_name (s : procstate) : list Z :=
  match s with
  | UNUSED => str "unused"
  | SLEEPING => str "sleep "
  | RUNNABLE => str "runble"
  | RUNNING => str "run   "
  | ZOMBIE => str "zombie"
  end.

Definition procdump {W} `{!Mmio W} (table : list proc) : K (cst W) unit :=
  printf [NL] [];;
  _ <- for_each table (fun p =>
    if decide (p_state p = UNUSED) then ret (@None unit) else
    printf (str "%d %s %s") [AInt (p_pid p); AStr (Some (state_name (p_state p))); AStr (Some (cstr (p_name p)))];;
    printf [NL] [];;
    ret None);;
  ret tt.

(** ** plic.c *)
Section plic.
Context {W : Type} `{MM : !Mmio W}.

Definition cpuid : K (cst W) Z := gets (fun s => s32 (tp (view cH s))).

Definition plicinit : K (cst W) unit :=
  (* set desired IRQ priorities non-zero (otherwise disabled). *)
  write32 (PLIC + UART0_IRQ * 4) 1;;
  write32 (PLIC + VIRTIO0_IRQ * 4) 1.

Definition plicinithart : K (cst W) unit :=
  hart <- cpuid;;
  (* set uart's enable bit for this hart's S-mode. *)
  write32 (PLIC_SENABLE hart) (Z.lor (Z.shiftl 1 UART0_IRQ) (Z.shiftl 1 VIRTIO0_IRQ));;
  (* set this hart's S-mode priority threshold to 0. *)
  write32 (PLIC_SPRIORITY hart) 0.

(** Ask the PLIC what interrupt we should serve. *)
Definition plic_claim : K (cst W) Z :=
  hart <- cpuid;;
  irq <- read32 (PLIC_SCLAIM hart);;
  ret (s32 irq).

(** Tell the PLIC we've served this IRQ. *)
Definition plic_complete (irq : Z) : K (cst W) unit :=
  hart <- cpuid;;
  write32 (PLIC_SCLAIM hart) (u32 irq).
End plic.

Section code.
Context {T B W : Type} {dev logstart nlog : Z} `{TS : !TxnStore T B dev logstart nlog} `{MM : !Mmio W}.
Context (kend stat_pad trampoline forkret_addr kernelvec uservec userret usertrap_addr : Z).
Notation ks := (kst T (devs W)).
Context (virtio_disk_intr : K ks unit).

(** The kernel and the trap registers of the hart. *)
Notation ts := (ks * csr)%type.
Definition tK : lens ts ks := Lens fst (fun k s => (k, s.2)).
Definition tC : lens ts csr := Lens snd (fun c s => (s.1, c)).
Definition csr_get (f : csr -> Z) : K ts Z := gets (fun s => f s.2).
Definition csr_set (f : csr -> csr) : K ts unit := modify (fun s => (s.1, f s.2)).
Definition hart_get {A} (f : hart -> A) : K ts A := gets (fun s => f (view kH s.1)).
Definition hart_upd (f : hart -> hart) : K ts unit := modify (fun s => (over kH (f (view kH s.1)) s.1, s.2)).

Definition trapinit : K ts unit := zoom tK (modify (over kTicksL (initlock "time"))).

(** Set up to take exceptions and traps while in the kernel. *)
Definition trapinithart : K ts unit := csr_set (set_stvec kernelvec).

Definition clockintr : K ks unit :=
  acquire kH kTicksL;;
  modify (fun k => upd_ticks (k_tickslock k) (u32 (k_ticks k + 1)) k);;
  wakeup ChanTicks;;
  release kH kTicksL.

(** 2 if timer interrupt, 1 if other device, 0 if not recognized.  Unexpected
    interrupts are reported on the console. *)
Definition devintr : K ts Z :=
  scause <- csr_get c_scause;;
  if negb (Z.land scause 0x8000000000000000 =? 0) && (Z.land scause 0xff =? 9) then
    (* this is a supervisor external interrupt, via PLIC. *)
    irq <- zoom tK (zoom kDev plic_claim);;
    (if irq =? UART0_IRQ then
       table <- gets (fun s => k_procs s.1);;
       zoom tK (zoom kDev (uartintr (consoleintr (procdump table))))
     else if irq =? VIRTIO0_IRQ then zoom tK virtio_disk_intr
     else if negb (irq =? 0) then
       zoom tK (zoom kDev (printf (str "unexpected interrupt irq=%d" ++ [NL]) [AInt irq]))
     else ret tt);;
    (* tell the PLIC the device is now allowed to interrupt again. *)
    (if negb (irq =? 0) then zoom tK (zoom kDev (plic_complete irq)) else ret tt);;
    ret 1
  else if scause =? 0x8000000000000001 then
    (* software interrupt from a machine-mode timer interrupt. *)
    id <- hart_get (fun h => s32 (tp h));;
    (if id =? 0 then zoom tK clockintr else ret tt);;
    (* acknowledge the software interrupt by clearing the SSIP bit in sip. *)
    sip <- csr_get c_sip;;
    csr_set (set_sip (Z.land sip (Z.lnot 2)));;
    ret 2
  else ret 0.

(** Return to user space: the arguments of userret, which switches to the user
    page table and to user mode. *)
Definition usertrapret : K ts (Z * Z) :=
  p <- zoom tK myproc_;;
  (* we're about to switch the destination of traps from kerneltrap() to
     usertrap(), so turn off interrupts until we're back in user space. *)
  hart_upd intr_off;;
  csr_set (set_stvec (TRAMPOLINE + (uservec - trampoline)));;
  (* set up trapframe values that uservec will need when the process next
     re-enters the kernel. *)
  satp <- csr_get c_satp;;
  zoom tK (tf_set p TF_kernel_satp satp);;
  kstack <- zoom tK (proc_get p p_kstack);;
  zoom tK (tf_set p TF_kernel_sp (kstack + PGSIZE));;
  zoom tK (tf_set p TF_kernel_trap usertrap_addr);;
  id <- hart_get tp;;
  zoom tK (tf_set p TF_kernel_hartid id);;
  (* set S Previous Privilege mode to User. *)
  hart_upd (fun h => set_sstatus (Z.lor (Z.land (sstatus h) (Z.lnot SSTATUS_SPP)) SSTATUS_SPIE) h);;
  (* set S Exception Program Counter to the saved user pc. *)
  epc <- zoom tK (tf_get p TF_epc);;
  csr_set (set_sepc epc);;
  (* tell trampoline.S the user page table to switch to. *)
  pt <- zoom tK (proc_get p p_pagetable);;
  ret (TRAPFRAME, MAKE_SATP pt).

Definition kill_self (p : nat) : K ts unit := zoom tK (proc_upd p (set_p_killed 1)).

(** Handle an interrupt, exception, or system call from user space. *)
Definition usertrap : K ts (Z * Z) :=
  st <- hart_get sstatus;;
  if negb (Z.land st SSTATUS_SPP =? 0) then panic "usertrap: not from user mode" else
  (* send interrupts and exceptions to kerneltrap(), since we're now in the kernel. *)
  csr_set (set_stvec kernelvec);;
  p <- zoom tK myproc_;;
  (* save user program counter. *)
  epc <- csr_get c_sepc;;
  zoom tK (tf_set p TF_epc epc);;
  scause <- csr_get c_scause;;
  which_dev <- (
    if scause =? 8 then
      (* system call *)
      killed <- zoom tK (proc_get p p_killed);;
      (if negb (killed =? 0) then zoom tK (exit kend devsw_write (-1)) else ret tt);;
      (* sepc points to the ecall instruction, but we want to return to the
         next instruction. *)
      epc <- zoom tK (tf_get p TF_epc);;
      zoom tK (tf_set p TF_epc (u64 (epc + 4)));;
      (* an interrupt will change sstatus &c registers, so don't enable until
         done with those registers. *)
      hart_upd intr_on;;
      zoom tK (syscall kend stat_pad trampoline forkret_addr devsw_read devsw_write);;
      ret 0
    else
      which_dev <- devintr;;
      if negb (which_dev =? 0) then ret which_dev else
      if (scause =? 13) || (scause =? 15) then
        fault_va <- csr_get c_stval;;
        sp <- zoom tK (tf_get p TF_sp);;
        sz <- zoom tK (proc_get p p_sz);;
        if (u64 (PGROUNDUP sp - 1) <? fault_va) && (fault_va <? sz) then
          r <- zoom tK (mmap_handler kend (s32 fault_va) (s32 scause));;
          (if negb (r =? 0) then kill_self p else ret tt);;
          ret 0
        else kill_self p;; ret 0
      else
        stval <- csr_get c_stval;;
        pid <- zoom tK (proc_get p p_pid);;
        zoom tK (zoom kDev (printf (str "usertrap(): unexpected scause %p pid=%d" ++ [NL]) [APtr scause; AInt pid]));;
        zoom tK (zoom kDev (printf (str "            sepc=%p stval=%p" ++ [NL]) [APtr epc; APtr stval]));;
        kill_self p;;
        ret 0);;
  killed <- zoom tK (proc_get p p_killed);;
  (if negb (killed =? 0) then zoom tK (exit kend devsw_write (-1)) else ret tt);;
  (* give up the CPU if this is a timer interrupt. *)
  (if which_dev =? 2 then zoom tK yield else ret tt);;
  usertrapret.

(** Interrupts and exceptions from kernel code. *)
Definition kerneltrap : K ts unit :=
  sepc <- csr_get c_sepc;;
  st <- hart_get sstatus;;
  if Z.land st SSTATUS_SPP =? 0 then panic "kerneltrap: not from supervisor mode" else
  on <- hart_get intr_get;;
  if on : bool then panic "kerneltrap: interrupts enabled" else
  which_dev <- devintr;;
  if which_dev =? 0 then
    scause <- csr_get c_scause;;
    stval <- csr_get c_stval;;
    zoom tK (zoom kDev (printf (str "scause %p" ++ [NL]) [APtr scause]));;
    zoom tK (zoom kDev (printf (str "sepc=%p stval=%p" ++ [NL]) [APtr sepc; APtr stval]));;
    panic "kerneltrap"
  else
  (* give up the CPU if this is a timer interrupt. *)
  p <- (if which_dev =? 2 then zoom tK (zoom kH myproc) else ret None);;
  (match p with
   | Some p =>
       state <- zoom tK (proc_get p p_state);;
       if decide (state = RUNNING) then zoom tK yield else ret tt
   | None => ret tt
   end);;
  (* the yield() may have caused some traps to occur, so restore trap registers
     for use by kernelvec.S's sepc instruction. *)
  csr_set (set_sepc sepc);;
  hart_upd (set_sstatus st).

(** proc.c's forkret: where a new process starts. *)
Definition forkret : K ts (Z * Z) :=
  p <- zoom tK myproc_;;
  (* Still holding p->lock from scheduler. *)
  zoom tK (release kH (kPL p));;
  first <- gets (fun s => k_first s.1);;
  (if negb (first =? 0) then
     zoom tK (modify (set_first 0));;
     zoom tK (zoom kF (fsinit ROOTDEV))
   else ret tt);;
  usertrapret.
End code.
