(* ===== verification/ProcSpec.v ===== *)
(** * Correctness of the process table's operations

    [wakeup] and [kill] as operations on the table, and (Module SleepWakeup) the
    protocol of [sleep] and [wakeup] between any number of harts. *)
From S2P Require Import Prelude Machine KString Spinlock Kalloc Vm UserMem Block Env Pipe Log Txn Fs FsPath State File Proc.
Local Open Scope Z_scope.
Local Open Scope kernel_scope.

(** ** Critical sections of a process's lock *)
Section table.
Context {T D : Type}.
Implicit Types (k : kst T D) (f : proc -> proc).

Definition touch k : kst T D := over kH (touched (view kH k)) k.
Definition held (i : nat) k : kst T D :=
  upd_proc i (fun p => set_p_lock (taken (p_lock p) (view kH k)) p) (over kH (pushed (view kH k)) k).

(** An update that does not depend on the lock. *)
Definition lock_free f : Prop := forall l q, f (set_p_lock l q) = set_p_lock l (f q).

Lemma upd_proc_procs i f k : k_procs (upd_proc i f k) = alter f i (k_procs k).
Proof. done. Qed.

Lemma getp_Some (l : list proc) i p : l !! i = Some p -> getp l i = p.
Proof. unfold getp. by intros ->. Qed.

Lemma upd_proc_ext i f g k p : k_procs k !! i = Some p -> f p = g p -> upd_proc i f k = upd_proc i g k.
Proof.
  intros E Hfg. unfold upd_proc, upd_procs. f_equal. apply list_eq. intros j.
  destruct (decide (i = j)) as [<-|]; [|by rewrite !list_lookup_alter_ne]. rewrite !list_lookup_alter_eq, E. simpl. by rewrite Hfg.
Qed.

Lemma upd_proc_compose i f g k : upd_proc i f (upd_proc i g k) = upd_proc i (f ∘ g) k.
Proof.
  unfold upd_proc, upd_procs. simpl. f_equal. apply list_eq. intros j.
  destruct (decide (i = j)) as [<-|]; [|by rewrite !list_lookup_alter_ne]. rewrite !list_lookup_alter_eq. symmetry; apply option_fmap_compose.
Qed.

Lemma upd_proc_id i f k p : k_procs k !! i = Some p -> f p = p -> upd_proc i f k = k.
Proof.
  intros E Hf. destruct k. unfold upd_proc, upd_procs. simpl in *. f_equal. apply list_eq. intros j.
  destruct (decide (i = j)) as [<-|]; [|by rewrite !list_lookup_alter_ne]. rewrite !list_lookup_alter_eq, E. simpl. by rewrite Hf.
Qed.

Lemma acquire_proc i p k : k_procs k !! i = Some p -> lk_locked (p_lock p) = 0 -> acquire kH (kPL i) k = Done tt (held i k).
Proof.
  intros E El. unfold acquire. erewrite bind_Done by (apply zoom_Done, push_off_run).
  do 2 erewrite bind_Done by reflexivity. unfold holding. cbn [view over kPL kH upd_pm k_procs]. rewrite (getp_Some _ _ _ E), El.
  cbn [Z.eqb negb andb]. unfold bind, test_and_set, gets, modify. cbn [view over kPL kH upd_pm k_procs]. rewrite (getp_Some _ _ _ E), El.
  cbn [Z.eqb obind]. f_equal. unfold held. rewrite upd_proc_compose. apply (upd_proc_ext _ _ _ _ p); [done|].
  rewrite upd_proc_procs. unfold getp. rewrite list_lookup_alter_eq. cbn [k_procs upd_pm]. rewrite E. done.
Qed.
Lemma lock_free_id f p : lock_free f -> set_p_lock (p_lock p) (f p) = f p.
Proof. intros Hf. rewrite <- Hf. by destruct p. Qed.

Lemma release_proc i f p k : k_procs k !! i = Some p -> free_lock (p_lock p) -> hart_ok (view kH k) -> lock_free f ->
  release kH (kPL i) (upd_proc i f (held i k)) = Done tt (upd_proc i f (touch k)).
Proof.
  intros E [El Ec] Hh Hf. set (t := taken (p_lock p) (view kH k)).
  assert (E1 : k_procs (upd_proc i f (held i k)) !! i = Some (set_p_lock t (f p))).
  { unfold held. rewrite !upd_proc_procs, !list_lookup_alter_eq. cbn [over kH upd_pm k_procs]. rewrite E. cbn. by rewrite Hf. }
  unfold release. do 2 erewrite bind_Done by reflexivity. unfold holding. cbn [view kPL]. rewrite (getp_Some _ _ _ E1).
  cbn [p_lock set_p_lock t taken lk_locked lk_cpu]. rewrite bool_decide_eq_true_2 by done. cbn [Z.eqb negb andb].
  do 2 erewrite bind_Done by reflexivity. erewrite zoom_Done by (apply (pop_off_pushed (view kH k)); done). f_equal.
  unfold touch, held. cbn [over kPL]. rewrite !upd_proc_compose. unfold upd_proc, upd_procs, kH, upd_pm. cbn [over view k_pm k_procs].
  f_equal. apply list_eq. intros j. destruct (decide (i = j)) as [<-|]; [|by rewrite !list_lookup_alter_ne].
  rewrite !list_lookup_alter_eq, E. cbn [fmap option_fmap option_map k_procs k_pm pm_hart]. f_equal. cbn [compose].
  unfold getp. rewrite !list_lookup_alter_eq, E. cbn. rewrite Hf. cbn. rewrite <- (lock_free_id f p Hf) at 2.
  destruct (p_lock p); cbn in *. by subst.
Qed.

(** ** A loop that visits every process under its lock *)
Definition table_ok k : Prop :=
  hart_ok (view kH k) /\ length (k_procs k) = Z.to_nat NPROC /\ Forall (fun p => free_lock (p_lock p)) (k_procs k).

Lemma table_touch k : table_ok k -> table_ok (touch k).
Proof. intros (Hh & Hl & Hf). split; [|done]. by apply hart_ok_touched. Qed.

Lemma table_upd i f k : lock_free f -> table_ok k -> table_ok (upd_proc i f k).
Proof.
  intros Hf (Hh & Hl & Hfr). split; [done|]. rewrite upd_proc_procs, length_alter. split; [done|].
  apply Forall_alter; [done|]. intros p _ Hp. rewrite <- (lock_free_id f p Hf). done.
Qed.

Lemma touch_touch k : touch (touch k) = touch k.
Proof. unfold touch. cbn [view over kH upd_pm k_pm pm_hart]. by rewrite touched_touched. Qed.

Definition sweep (a n : nat) f (l : list proc) : list proc :=
  imap (fun j p => if decide (a <= j < a + n)%nat then f p else p) l.

Lemma sweep_S a n f l : sweep (S a) n f (alter f a l) = sweep a (S n) f l.
Proof.
  apply list_eq. intros j. unfold sweep. rewrite !list_lookup_imap. destruct (decide (a = j)) as [<-|].
  - rewrite list_lookup_alter_eq. destruct (l !! a); [|done]. cbn. do 2 case_decide; try lia; done.
  - rewrite list_lookup_alter_ne by done. destruct (l !! j); [|done]. cbn. do 2 case_decide; try lia; done.
Qed.

Lemma sweep_0 a f l : sweep a 0 f l = l.
Proof.
  apply list_eq. intros j. unfold sweep. rewrite list_lookup_imap. destruct (l !! j); [|done]. cbn. case_decide; [lia|done].
Qed.

Lemma upd_procs_ext g h k : g (k_procs k) = h (k_procs k) -> upd_procs g k = upd_procs h k.
Proof. unfold upd_procs. by intros ->. Qed.

Lemma sweep_all f l : sweep 0 (length l) f l = f <$> l.
Proof.
  apply list_eq. intros j. unfold sweep. rewrite list_lookup_imap, list_lookup_fmap. destruct (l !! j) eqn:E; [|done].
  apply lookup_lt_Some in E. cbn. case_decide; [done|lia].
Qed.

Lemma for_each_sweep {R} f (body : nat -> K (kst T D) (option R)) a n k : lock_free f -> table_ok k -> (0 < n)%nat ->
  (a + n <= Z.to_nat NPROC)%nat ->
  (forall i k, table_ok k -> (i < Z.to_nat NPROC)%nat -> body i k = Done None (upd_proc i f (touch k))) ->
  for_each (seq a n) body k = Done None (upd_procs (sweep a n f) (touch k)).
Proof.
  intros Hf Hok Hn Ha Hbody. revert a k Hok Ha. induction n as [|n IH]; intros a k Hok Ha; [lia|].
  cbn [seq for_each]. erewrite bind_Done by (apply Hbody; [done|lia]). destruct n as [|n].
  - cbn [seq for_each ret]. unfold ret. f_equal. apply upd_procs_ext. by rewrite <- sweep_S, sweep_0.
  - rewrite IH; [|lia|by apply table_upd, table_touch|lia].
    change (touch (upd_proc a f (touch k))) with (upd_proc a f (touch (touch k))). rewrite touch_touch. f_equal.
    exact (upd_procs_ext (sweep (S a) (S n) f ∘ alter f a) (sweep a (S (S n)) f) (touch k) (sweep_S a (S n) f _)).
Qed.


Lemma table_lookup k i : table_ok k -> (i < Z.to_nat NPROC)%nat ->
  exists p, k_procs k !! i = Some p /\ free_lock (p_lock p).
Proof.
  intros (_ & Hl & Hf) Hi. destruct (lookup_lt_is_Some_2 (k_procs k) i) as [p E]; [lia|]. exists p. split; [done|].
  by apply (proj1 (Forall_lookup _ _) Hf i).
Qed.

Lemma procs_length : length procs = Z.to_nat NPROC.
Proof. apply length_seq. Qed.

(** ** wakeup *)
Definition wake (c : chan) (p : proc) : proc :=
  if decide (p_state p = SLEEPING /\ p_chan p = Some c) then set_p_state RUNNABLE p else p.

Lemma wake_lock_free c : lock_free (wake c).
Proof. intros l q. unfold wake. destruct q. cbn. by case_decide. Qed.

Lemma proc_upd_decide i p (P : Prop) `{Decision P} f k : k_procs k !! i = Some p ->
  (if decide P then proc_upd i f else ret tt) k = Done tt (upd_proc i (fun q => if decide P then f q else q) k).
Proof. intros E. case_decide; [done|]. cbn. unfold ret. f_equal. by rewrite (upd_proc_id i _ k p). Qed.

Lemma held_lookup i p k : k_procs k !! i = Some p -> k_procs (held i k) !! i = Some (set_p_lock (taken (p_lock p) (view kH k)) p).
Proof. intros E. unfold held. rewrite upd_proc_procs, list_lookup_alter_eq. cbn [over kH upd_pm k_procs]. by rewrite E. Qed.

Lemma wakeup_one c i k : table_ok k -> (i < Z.to_nat NPROC)%nat ->
  (acquire kH (kPL i);;
   q <- proc_get i (fun q => q);;
   (if decide (p_state q = SLEEPING /\ p_chan q = Some c) then proc_upd i (set_p_state RUNNABLE) else ret tt);;
   release kH (kPL i);;
   ret (@None unit)) k = Done None (upd_proc i (wake c) (touch k)).
Proof.
  intros Hok Hi. destruct (table_lookup k i Hok Hi) as (p & E & Hp). pose proof (held_lookup i p k E) as E1.
  erewrite bind_Done by (by apply (acquire_proc i p); [|apply Hp]). erewrite bind_Done by reflexivity.
  erewrite bind_Done by (by apply (proc_upd_decide i _ _ _ _ E1)).
  erewrite (upd_proc_ext i _ (wake c)) by (done || by rewrite (getp_Some _ _ _ E1)).
  erewrite bind_Done by (by apply (release_proc i _ p); [| |apply Hok|apply wake_lock_free]). done.
Qed.

Lemma wakeup_run c k : table_ok k -> wakeup c k = Done tt (upd_procs (fmap (wake c)) (touch k)).
Proof.
  intros Hok. unfold wakeup. erewrite bind_Done; [reflexivity|]. unfold procs.
  rewrite (for_each_sweep (wake c)); [|apply wake_lock_free|done|vm_compute; lia|vm_compute; lia|intros; by apply wakeup_one].
  f_equal. apply upd_procs_ext. destruct Hok as (_ & Hl & _). cbn [touch over kH upd_pm k_procs]. rewrite <- Hl. apply sweep_all.
Qed.

(** ** kill *)
Definition killed_one (p : proc) : proc :=
  let p := set_p_killed 1 p in if decide (p_state p = SLEEPING) then set_p_state RUNNABLE p else p.

Fixpoint find_pid (pid : Z) (l : list proc) : option nat :=
  match l with
  | [] => None
  | p :: l => if p_pid p =? pid then Some O else S <$> find_pid pid l
  end.

Lemma killed_lock_free : lock_free killed_one.
Proof. intros l q. unfold killed_one. destruct q. cbn. by case_decide. Qed.
Lemma id_lock_free : lock_free id.
Proof. done. Qed.

Definition kill_body (pid : Z) (p : nat) : K (kst T D) (option Z) :=
  acquire kH (kPL p);;
  q <- proc_get p (fun q => q);;
  if p_pid q =? pid then
    proc_upd p (set_p_killed 1);;
    (if decide (p_state q = SLEEPING) then proc_upd p (set_p_state RUNNABLE) else ret tt);;
    release kH (kPL p);;
    ret (Some 0)
  else release kH (kPL p);; ret None.

Lemma kill_one pid i p k : table_ok k -> k_procs k !! i = Some p -> free_lock (p_lock p) ->
  kill_body pid i k = if p_pid p =? pid then Done (Some 0) (upd_proc i killed_one (touch k)) else Done None (touch k).
Proof.
  intros Hok E Hp. pose proof (held_lookup i p k E) as E1. unfold kill_body.
  erewrite bind_Done by (by apply (acquire_proc i p); [|apply Hp]). erewrite bind_Done by reflexivity.
  rewrite (getp_Some _ _ _ E1). cbn [p_pid p_state set_p_lock]. destruct (p_pid p =? pid).
  - erewrite bind_Done by reflexivity.
    erewrite bind_Done by (eapply proc_upd_decide; rewrite upd_proc_procs, list_lookup_alter_eq, E1; reflexivity).
    rewrite upd_proc_compose. erewrite (upd_proc_ext i _ killed_one) by (exact E1 || (unfold killed_one; destruct p; cbn; by case_decide)).
    erewrite bind_Done by (by apply (release_proc i _ p); [| |apply Hok|apply killed_lock_free]). done.
  - replace (held i k) with (upd_proc i id (held i k)) by by apply (upd_proc_id i _ _ _ E1).
    erewrite bind_Done by (by apply (release_proc i _ p); [| |apply Hok|]). unfold ret. f_equal. by apply (upd_proc_id i _ _ p).
Qed.

Lemma kill_loop pid a n k : table_ok k -> (0 < n)%nat -> (a + n <= Z.to_nat NPROC)%nat ->
  for_each (seq a n) (kill_body pid) k =
  match find_pid pid (take n (drop a (k_procs k))) with
  | Some j => Done (Some 0) (upd_proc (a + j) killed_one (touch k))
  | None => Done None (touch k)
  end.
Proof.
  revert a k. induction n as [|n IH]; intros a k Hok Hn Ha; [lia|].
  destruct (table_lookup k a Hok ltac:(lia)) as (p & E & Hp). rewrite (drop_S _ _ _ E). cbn [seq for_each take find_pid].
  unfold bind at 1. rewrite (kill_one pid a p k Hok E Hp). destruct (p_pid p =? pid); cbn [obind].
  - by rewrite Nat.add_0_r.
  - destruct n as [|n]; [by rewrite take_0|]. rewrite IH; [|by apply table_touch|lia|lia]. rewrite touch_touch.
    change (k_procs (touch k)) with (k_procs k). destruct (find_pid _ _); cbn [fmap option_fmap option_map]; [|done].
    by rewrite Nat.add_succ_r.
Qed.

Lemma kill_run pid k : table_ok k ->
  kill pid k = match find_pid pid (k_procs k) with
               | Some i => Done 0 (upd_proc i killed_one (touch k))
               | None => Done (-1) (touch k)
               end.
Proof.
  intros Hok. transitivity ((r <- for_each procs (kill_body pid);; ret (default (-1) r)) k); [reflexivity|]. unfold bind at 1, procs.
  rewrite kill_loop by (done || (vm_compute; lia)). rewrite drop_0, firstn_all2 by (destruct Hok as (_ & -> & _); done).
  by destruct (find_pid _ _).
Qed.

Lemma find_pid_spec pid l : match find_pid pid l with
  | Some i => exists p, l !! i = Some p /\ p_pid p = pid /\ forall j q, (j < i)%nat -> l !! j = Some q -> p_pid q <> pid
  | None => forall p, p ∈ l -> p_pid p <> pid
  end.
Proof.
  induction l as [|q l IH]; cbn [find_pid]; [by intros p ?%elem_of_nil|].
  destruct (Z.eqb_spec (p_pid q) pid) as [E|E]; [exists q; repeat split; [done|]; intros; lia|].
  destruct (find_pid pid l) as [i|]; cbn [fmap option_fmap option_map].
  - destruct IH as (p & Ep & Hp & Hf). exists p. repeat split; [done|done|]. intros [|j] r Hj Er; [by injection Er as <-|].
    apply (Hf j); [lia|done].
  - intros p [->|H]%elem_of_cons; [done|by apply IH].
Qed.

(** wakeup makes runnable exactly the processes asleep on the channel; it
    changes no other field of any process and nothing else in the kernel. *)
Theorem wakeup_exact (c : chan) k : table_ok k ->
  exists k', wakeup c k = Done tt k' /\ k' = upd_procs (fun _ => k_procs k') (touch k) /\
    length (k_procs k') = length (k_procs k) /\
    forall i p, k_procs k !! i = Some p ->
      k_procs k' !! i = Some (if decide (p_state p = SLEEPING /\ p_chan p = Some c) then set_p_state RUNNABLE p else p).
Proof.
  intros Hok. eexists. split; [by apply wakeup_run|]. split; [done|]. split; [apply length_fmap|].
  intros i p E. cbn [upd_procs touch over kH upd_pm k_procs]. by rewrite list_lookup_fmap, E.
Qed.

(** kill(pid) sets the killed flag of the first process with that pid and,
    when it is asleep, makes it runnable; without such a process it returns -1.
    Nothing else changes. *)
Theorem kill_exact (pid : Z) k : table_ok k ->
  (exists i p, k_procs k !! i = Some p /\ p_pid p = pid /\
     (forall j q, (j < i)%nat -> k_procs k !! j = Some q -> p_pid q <> pid) /\
     kill pid k = Done 0 (upd_proc i (fun p => set_p_killed 1 (if decide (p_state p = SLEEPING) then set_p_state RUNNABLE p else p))
                                   (touch k))) \/
  ((forall p, p ∈ k_procs k -> p_pid p <> pid) /\ kill pid k = Done (-1) (touch k)).
Proof.
  intros Hok. rewrite kill_run by done. pose proof (find_pid_spec pid (k_procs k)) as H. destruct (find_pid _ _) as [i|]; [left|by right].
  destruct H as (p & E & Hp & Hf). exists i, p. repeat split; [done|done|done|]. f_equal. apply (upd_proc_ext _ _ _ _ p); [done|].
  unfold killed_one. destruct p; cbn. by case_decide.
Qed.
End table.

(** An example: a table in which process 3, with pid 7, is asleep. *)
Definition sleepy : proc := set_p_pid 7 (set_p_chan (Some ChanTicks) (set_p_state SLEEPING no_proc)).
Definition example_kernel : kst unit unit :=
  KS (PM (mkHart 0 2 0 false (Some O)) (initlock "kmem") 0 ∅) [] tt (mkIC (initlock "icache") [])
     (get_sb (replicate bsize 0)) (mkFT (initlock "ftable") []) ∅ (<[3%nat := sleepy]> (replicate 64 no_proc))
     (initlock "nextpid") 8 0 (initlock "time") 0 0 tt.

Lemma example_kernel_ok : table_ok example_kernel.
Proof.
  split; [split; [cbn; lia|split; cbn; [lia|intros; lia]]|]. split; [done|].
  apply Forall_insert; [|done]. by apply Forall_replicate.
Qed.

Lemma wakeup_exact_witness : exists k', wakeup ChanTicks example_kernel = Done tt k' /\
  k_procs k' !! 3%nat = Some (set_p_state RUNNABLE sleepy) /\ k_procs k' !! 4%nat = Some no_proc.
Proof.
  destruct (wakeup_exact ChanTicks example_kernel example_kernel_ok) as (k' & E & _ & _ & H). exists k'. split; [done|].
  split; [exact (H 3%nat sleepy eq_refl)|exact (H 4%nat no_proc eq_refl)].
Defined.

Lemma kill_exact_witness : exists k', kill 7 example_kernel = Done 0 k' /\
  k_procs k' !! 3%nat = Some (set_p_killed 1 (set_p_state RUNNABLE sleepy)).
Proof.
  destruct (kill_exact 7 example_kernel example_kernel_ok) as [(i & p & Ep & Hp & _ & ->)|[H _]].
  - eexists. split; [done|]. assert (i = 3%nat) as ->; [|done].
    cbn [k_procs example_kernel] in Ep. destruct (decide (i = 3%nat)) as [|Hne]; [done|].
    rewrite list_lookup_insert_ne in Ep by done. apply lookup_replicate in Ep as [-> _]. done.
  - destruct (H sleepy); [|done]. by apply (list_elem_of_lookup_2 _ 3%nat).
Defined.

(** ** The sleep and wakeup protocol

    Any number of processes run [acquire(lk); while(!cond) sleep(c, lk); ...;
    release(lk)] and any number of harts run [acquire(lk); cond = 1; wakeup(c);
    release(lk)], in steps between which the others can move.  [sleep] takes
    p->lock before it lets go of lk, and [wakeup] looks at each process under
    its p->lock; the processes can also be killed. *)
Module SleepWakeup.
Inductive spc :=
| SOut                (* not in the section of code *)
| STest               (* holds lk, about to look at the condition *)
| SBoth               (* in sleep(): has lk and p->lock *)
| SReleased           (* in sleep(): has p->lock, lk released *)
| SSched              (* in sched(): SLEEPING, p->lock not yet released by the scheduler *)
| SAsleep             (* switched out *)
| SWoken              (* back from sched(), with p->lock *)
| SRelock.            (* about to reacquire lk *)

Inductive wpc :=
| WOut
| WHold               (* holds lk, about to set the condition *)
| WScan (j : nat)     (* in wakeup(): about to acquire the lock of process j *)
| WAt (j : nat).      (* in wakeup(): has the lock of process j *)

Inductive owner := Free | Sleeper (i : nat) | Waker (w : nat).

Record st := mkSt {
  lk : owner;
  pl : nat -> owner;          (* p->lock *)
  cond : bool;
  pstate : nat -> procstate;
  sp : nat -> spc;
  wp : nat -> wpc
}.

Definition set {A} (f : nat -> A) (i : nat) (v : A) (j : nat) : A := if decide (j = i) then v else f j.

Section protocol.
Context (n : nat).   (* the number of processes *)

Definition init : st := mkSt Free (fun _ => Free) false (fun _ => RUNNING) (fun _ => SOut) (fun _ => WOut).

Inductive step (s : st) : st -> Prop :=
| s_acquire i : (i < n)%nat -> sp s i = SOut -> lk s = Free ->
    step s (mkSt (Sleeper i) (pl s) (cond s) (pstate s) (set (sp s) i STest) (wp s))
| s_leave i c : sp s i = STest -> cond s = true ->
    (* the condition holds: the process may reset it, and releases lk *)
    step s (mkSt Free (pl s) c (pstate s) (set (sp s) i SOut) (wp s))
| s_lock_proc i : sp s i = STest -> cond s = false -> pl s i = Free ->
    step s (mkSt (lk s) (set (pl s) i (Sleeper i)) (cond s) (pstate s) (set (sp s) i SBoth) (wp s))
| s_release i : sp s i = SBoth ->
    step s (mkSt Free (pl s) (cond s) (pstate s) (set (sp s) i SReleased) (wp s))
| s_sleep i : sp s i = SReleased ->
    step s (mkSt (lk s) (pl s) (cond s) (set (pstate s) i SLEEPING) (set (sp s) i SSched) (wp s))
| s_switch i : sp s i = SSched ->
    step s (mkSt (lk s) (set (pl s) i Free) (cond s) (pstate s) (set (sp s) i SAsleep) (wp s))
| s_run i : sp s i = SAsleep -> pstate s i = RUNNABLE -> pl s i = Free ->
    step s (mkSt (lk s) (set (pl s) i (Sleeper i)) (cond s) (set (pstate s) i RUNNING) (set (sp s) i SWoken) (wp s))
| s_tidy i : sp s i = SWoken ->
    step s (mkSt (lk s) (set (pl s) i Free) (cond s) (pstate s) (set (sp s) i SRelock) (wp s))
| s_relock i : sp s i = SRelock -> lk s = Free ->
    step s (mkSt (Sleeper i) (pl s) (cond s) (pstate s) (set (sp s) i STest) (wp s))
| s_kill i : pstate s i = SLEEPING -> pl s i = Free ->
    step s (mkSt (lk s) (pl s) (cond s) (set (pstate s) i RUNNABLE) (sp s) (wp s))
| w_acquire w : wp s w = WOut -> lk s = Free ->
    step s (mkSt (Waker w) (pl s) (cond s) (pstate s) (sp s) (set (wp s) w WHold))
| w_set w : wp s w = WHold ->
    step s (mkSt (lk s) (pl s) true (pstate s) (sp s) (set (wp s) w (WScan 0)))
| w_lock_proc w j : wp s w = WScan j -> (j < n)%nat -> pl s j = Free ->
    step s (mkSt (lk s) (set (pl s) j (Waker w)) (cond s) (pstate s) (sp s) (set (wp s) w (WAt j)))
| w_wake w j : wp s w = WAt j ->
    step s (mkSt (lk s) (set (pl s) j Free) (cond s)
                 (if decide (pstate s j = SLEEPING) then set (pstate s) j RUNNABLE else pstate s)
                 (sp s) (set (wp s) w (WScan (S j))))
| w_release w : wp s w = WScan n ->
    step s (mkSt Free (pl s) (cond s) (pstate s) (sp s) (set (wp s) w WOut)).

Definition reachable : st -> Prop := rtc step init.

(** A hart on its way to process [i] in wakeup(). *)
Definition will_wake (w : wpc) (i : nat) : Prop :=
  match w with WScan j => (j <= i)%nat | WAt j => (j <= i)%nat | _ => False end.

Definition has_lk (p : spc) : bool := match p with STest | SBoth => true | _ => false end.
Definition has_pl (p : spc) : bool := match p with SBoth | SReleased | SSched | SWoken => true | _ => false end.
Definition w_lk (p : wpc) : bool := match p with WOut => false | _ => true end.
(** Past its look at the condition, and not woken yet. *)
Definition committed (p : spc) (q : procstate) : Prop :=
  match p with SReleased | SSched => True | SAsleep => q = SLEEPING | _ => False end.

Record inv (s : st) : Prop := {
  i_slk : forall i, has_lk (sp s i) = true <-> lk s = Sleeper i;
  i_wlk : forall w, w_lk (wp s w) = true <-> lk s = Waker w;
  i_spl : forall i, has_pl (sp s i) = true <-> pl s i = Sleeper i;
  i_spl' : forall i j, pl s i = Sleeper j -> i = j;
  i_wpl : forall w j, wp s w = WAt j <-> pl s j = Waker w;
  i_sleeping : forall i, pstate s i = SLEEPING -> sp s i = SSched \/ sp s i = SAsleep;
  i_both : forall i, sp s i = SBoth -> cond s = false;
  i_range : forall i, sp s i <> SOut -> (i < n)%nat;
  i_wake : forall i, cond s = true -> committed (sp s i) (pstate s i) -> exists w, will_wake (wp s w) i
}.

Lemma inv_init : inv init.
Proof. split; cbn; try done; intros; split; done. Qed.

Ltac at_proc I i :=
  pose proof (i_slk _ I i); pose proof (i_spl _ I i); pose proof (i_sleeping _ I i); pose proof (i_both _ I i);
  pose proof (i_range _ I i).
Ltac at_waker I w := pose proof (i_wlk _ I w).
Ltac settle := cbn in *; unfold set in *; repeat case_decide; subst; intros;
  repeat match goal with H : sp ?s ?i = _, H' : context [sp ?s ?i] |- _ => rewrite H in H' end;
  repeat match goal with H : wp ?s ?i = _, H' : context [wp ?s ?i] |- _ => rewrite H in H' end; cbn in *;
  try solve [intuition congruence].

Ltac by_cases I H := destruct H as [i|i c|i|i|i|i|i|i|i|i|w|w|w k|w k|w]; try at_proc I i; try at_waker I w;
  try pose proof (i_wpl _ I w k); try pose proof (i_spl _ I k); settle.

Lemma inv_slk s s' : inv s -> step s s' -> forall i, has_lk (sp s' i) = true <-> lk s' = Sleeper i.
Proof.
  intros I H j. at_proc I j. by_cases I H.
Qed.

Lemma inv_wlk s s' : inv s -> step s s' -> forall w, w_lk (wp s' w) = true <-> lk s' = Waker w.
Proof. intros I H v. at_waker I v. by_cases I H. Qed.

Lemma inv_spl s s' : inv s -> step s s' -> forall i, has_pl (sp s' i) = true <-> pl s' i = Sleeper i.
Proof. intros I H j. at_proc I j. by_cases I H. Qed.

Lemma inv_spl' s s' : inv s -> step s s' -> forall i j, pl s' i = Sleeper j -> i = j.
Proof. intros I H a b. pose proof (i_spl' _ I a b). by_cases I H. Qed.

Lemma inv_wpl s s' : inv s -> step s s' -> forall w j, wp s' w = WAt j <-> pl s' j = Waker w.
Proof.
  intros I H v j. at_proc I j. pose proof (i_wpl _ I v j). destruct H as [i|i c|i|i|i|i|i|i|i|i|w|w|w k|w k|w]; try at_proc I i;
    try pose proof (i_wpl _ I w j); try pose proof (i_wpl _ I w k); try pose proof (i_wpl _ I v k); settle.
Qed.

Lemma inv_sleeping s s' : inv s -> step s s' -> forall i, pstate s' i = SLEEPING -> sp s' i = SSched \/ sp s' i = SAsleep.
Proof. intros I H j. at_proc I j. by_cases I H. Qed.

Lemma inv_both s s' : inv s -> step s s' -> forall i, sp s' i = SBoth -> cond s' = false.
Proof. intros I H j. at_proc I j. by_cases I H. Qed.

Lemma inv_range s s' : inv s -> step s s' -> forall i, sp s' i <> SOut -> (i < n)%nat.
Proof. intros I H j. at_proc I j. by_cases I H. Qed.

Lemma will_wake_moves f w pc i : (exists v, will_wake (f v) i) -> (will_wake (f w) i -> will_wake pc i) ->
  exists v, will_wake (set f w pc v) i.
Proof. intros [v Hv] H. exists v. unfold set. case_decide; subst; auto. Qed.

(** Whoever else holds p->lock finds the process switched out or not in sleep()
    at all. *)
Lemma committed_unlocked s i q : inv s -> pl s i <> Sleeper i -> committed (sp s i) q -> q = SLEEPING.
Proof. intros I H. pose proof (i_spl _ I i) as [H1 _]. destruct (sp s i); cbn in *; intuition congruence. Qed.

Lemma committed_range s i q : inv s -> committed (sp s i) q -> (i < n)%nat.
Proof. intros I H. apply (i_range _ I). by destruct (sp s i). Qed.

(** wakeup() past process [k]: it was on its way to [k], and [k] is awake. *)
Lemma inv_wake_at s w k j q : inv s -> wp s w = WAt k -> cond s = true -> (j = k -> q <> SLEEPING) ->
  (j <> k -> q = pstate s j) -> committed (sp s j) q -> exists v, will_wake (set (wp s) w (WScan (S k)) v) j.
Proof.
  intros I Hw Hc Hk Hq Hj. destruct (decide (j = k)) as [->|Hne].
  - destruct (Hk eq_refl). apply (committed_unlocked s k q I); [|done]. apply (i_wpl _ I) in Hw. congruence.
  - apply will_wake_moves; [apply (i_wake _ I); [done|by rewrite <- Hq]|]. rewrite Hw. cbn. lia.
Qed.

Lemma inv_wake s s' : inv s -> step s s' ->
  forall i, cond s' = true -> committed (sp s' i) (pstate s' i) -> exists w, will_wake (wp s' w) i.
Proof.
  intros I H j. pose proof (i_wake _ I j) as Hw. at_proc I j.
  destruct H as [i|i c|i|i|i|i|i|i|i|i Hi Hp|w Hv|w|w k Hv|w k Hv|w Hv]; try at_proc I i; cbn [sp wp cond pstate]; intros Hc Hj.
  all: try solve [settle].
  - apply Hw; [done|]. unfold set in Hj. case_decide; subst; [|done].
    apply (committed_unlocked s i) in Hj; [done|done|congruence].
  - apply will_wake_moves; [auto|]. by rewrite Hv.
  - exists w. unfold set. rewrite decide_True by done. cbn. lia.
  - apply will_wake_moves; [auto|]. by rewrite Hv.
  - refine (inv_wake_at s w k j _ I Hv Hc _ _ Hj); intros E; case_decide; unfold set; try case_decide; congruence.
  - apply will_wake_moves; [auto|]. rewrite Hv. cbn. pose proof (committed_range s j _ I Hj). lia.
Qed.

Lemma protocol_inv_step s s' : inv s -> step s s' -> inv s'.
Proof.
  intros I H. split.
  - by apply (inv_slk s).
  - by apply (inv_wlk s).
  - by apply (inv_spl s).
  - by apply (inv_spl' s).
  - by apply (inv_wpl s).
  - by apply (inv_sleeping s).
  - by apply (inv_both s).
  - by apply (inv_range s).
  - by apply (inv_wake s).
Qed.

Lemma reachable_inv s : reachable s -> inv s.
Proof.
  assert (forall x, rtc step x s -> inv x -> inv s) as G; [|intros H; exact (G init H inv_init)].
  intros x Hr. induction Hr; eauto using protocol_inv_step.
Qed.

(** Someone who holds a lock can go on. *)
Lemma pl_moves s i : inv s -> lk s <> Sleeper i -> pl s i = Free \/ exists s', step s s'.
Proof.
  intros I Hl. destruct (pl s i) as [|j|w] eqn:E; [by left|right|right].
  - pose proof (i_spl' _ I i j E) as <-. pose proof (proj2 (i_spl _ I i) E) as H. pose proof (i_slk _ I i) as H1.
    destruct (sp s i) eqn:Es; try done; cbn in *; [by destruct Hl; apply H1|eexists..].
    + by apply (s_sleep s i).
    + by apply (s_switch s i).
    + by apply (s_tidy s i).
  - apply (i_wpl _ I) in E. eexists. by apply (w_wake s w i).
Qed.

Lemma waker_moves s w i : inv s -> will_wake (wp s w) i -> (i < n)%nat -> exists s', step s s'.
Proof.
  intros I H Hi. pose proof (i_wlk _ I w) as Hl. destruct (wp s w) as [| |j|j] eqn:E; try done; cbn in *.
  - destruct (pl_moves s j I) as [Hf|]; [|eexists; by apply (w_lock_proc s w j); [|lia|]|done].
    destruct Hl as [Hl _]. rewrite Hl; done.
  - eexists. by apply (w_wake s w j).
Qed.

(** C7.  No wakeup is lost: whenever the condition holds and a process is asleep
    waiting for it, some hart that set the condition is in wakeup() and has not
    passed that process yet, and the system can move. *)
Theorem no_lost_wakeup s i : reachable s -> cond s = true -> pstate s i = SLEEPING ->
  (exists w, will_wake (wp s w) i) /\ (exists s', step s s').
Proof.
  intros H Hc Hp. apply reachable_inv in H as I. assert (Hj : committed (sp s i) (pstate s i)).
  { rewrite Hp. by destruct (i_sleeping _ I i Hp) as [-> | ->]. }
  destruct (i_wake _ I i Hc Hj) as [w Hw]. split; [by exists w|]. apply (waker_moves s w i); [done|done|].
  by apply (committed_range s i (pstate s i)).
Qed.

End protocol.

(** One process asleep, and a hart that has set the condition. *)
Lemma no_lost_wakeup_witness : exists s, reachable 1 s /\ cond s = true /\ pstate s 0 = SLEEPING /\
  ((exists w, will_wake (wp s w) 0) /\ (exists s', step 1 s s')).
Proof.
  assert (exists s, rtc (step 1) init s /\ cond s = true /\ pstate s 0 = SLEEPING) as (s & H & Hc & Hp).
  { eexists. split.
    - eapply rtc_l; [by apply (s_acquire 1 _ 0); [lia|..]|]. eapply rtc_l; [by apply (s_lock_proc 1 _ 0)|].
      eapply rtc_l; [by apply (s_release 1 _ 0)|]. eapply rtc_l; [by apply (s_sleep 1 _ 0)|].
      eapply rtc_l; [by apply (s_switch 1 _ 0)|]. eapply rtc_l; [by apply (w_acquire 1 _ 0)|].
      eapply rtc_l; [by apply (w_set 1 _ 0)|]. apply rtc_refl.
    - done. }
  exists s. split; [done|]. split; [done|]. split; [done|]. by apply (no_lost_wakeup 1 s 0).
Defined.
End SleepWakeup.
