(* ===== verification/UartSpec.v ===== *)
(** * Correctness of the UART driver

    [ring]: the queue a circular buffer holds.  [UartHw] states what the driver
    relies on of the 16550a: a byte written to THR while LSR says the transmitter
    is idle is sent, and the transmitter becomes idle after finitely many reads
    of LSR.  What has been sent followed by what is buffered is a stream to which
    [uartputc] appends, and from which nothing is lost or reordered. *)
From S2P Require Import Prelude Machine KString Spinlock Kalloc Vm UserMem Block Env Uart.
Local Open Scope Z_scope.
Local Open Scope kernel_scope.

(** ** Circular buffers *)
Record ring (size : Z) (buf : list Z) (r : Z) (q : list Z) : Prop := {
  ring_len : length buf = Z.to_nat size;
  ring_room : Z.of_nat (length q) <= size;
  ring_at : forall k b, q !! k = Some b -> buf !! Z.to_nat ((r + Z.of_nat k) mod size) = Some b
}.

Section ring.
Context (size : Z) (size_pos : 0 < size).

Lemma ring_shift buf r r' q : r mod size = r' mod size -> ring size buf r q -> ring size buf r' q.
Proof.
  intros E [H1 H2 H3]. split; [done|done|]. intros k b Hb. rewrite <- (H3 k b Hb).
  by rewrite <- (Z.add_mod_idemp_l r'), <- E, Z.add_mod_idemp_l by lia.
Qed.

Lemma ring_push buf r q b : Z.of_nat (length q) < size -> ring size buf r q ->
  ring size (<[Z.to_nat ((r + Z.of_nat (length q)) mod size) := b]> buf) r (q ++ [b]).
Proof.
  intros Hlt [H1 H2 H3]. split; [by rewrite length_insert|rewrite length_app; cbn; lia|].
  pose proof (Z.mod_pos_bound (r + Z.of_nat (length q)) size size_pos).
  intros k c Hc. apply lookup_app_Some in Hc as [Hc|[Hk Hc]].
  - pose proof (lookup_lt_Some _ _ _ Hc). rewrite list_lookup_insert_ne; [by apply H3|].
    pose proof (Z.mod_pos_bound (r + Z.of_nat k) size size_pos). intros E. apply Z2Nat.inj in E; [|lia..].
    assert (Hz : (Z.of_nat (length q) - Z.of_nat k) mod size = 0).
    { replace (Z.of_nat (length q) - Z.of_nat k) with ((r + Z.of_nat (length q)) - (r + Z.of_nat k)) by lia.
      by rewrite Zminus_mod, E, Z.sub_diag, Z.mod_0_l by lia. }
    rewrite Z.mod_small in Hz by lia. lia.
  - apply list_lookup_singleton_Some in Hc as [Hk0 <-]. replace k with (length q) by lia.
    apply list_lookup_insert_eq. lia.
Qed.

Lemma ring_pop buf r b q : ring size buf r (b :: q) -> buf !! Z.to_nat (r mod size) = Some b /\ ring size buf (r + 1) q.
Proof.
  intros [H1 H2 H3]. cbn [length] in H2. split; [rewrite <- (H3 O b eq_refl); by rewrite Z.add_0_r|]. split; [done|lia|].
  intros k c Hc. rewrite <- (H3 (S k) c Hc). do 3 f_equal. lia.
Qed.

Lemma ring_prefix buf r q q' : ring size buf r (q ++ q') -> ring size buf r q.
Proof.
  intros [H1 H2 H3]. rewrite length_app in H2. split; [done|lia|]. intros k b Hb. apply H3. by apply lookup_app_l_Some.
Qed.
End ring.

(** ** The transmit buffer *)
Record tx_rep (t : uartbuf) (q : list Z) : Prop := {
  tr_r : 0 <= tx_r t < 2 ^ 64;
  tr_w : tx_w t = u64 (tx_r t + Z.of_nat (length q));
  tr_ring : ring UART_TX_BUF_SIZE (tx_buf t) (tx_r t) q
}.

Lemma u64_mod_32 x : u64 x mod UART_TX_BUF_SIZE = x mod UART_TX_BUF_SIZE.
Proof. unfold u64, UART_TX_BUF_SIZE. Z.div_mod_to_equations. lia. Qed.

Section tx.
Context (t : uartbuf) (q : list Z) (Hrep : tx_rep t q).

Lemma tx_room : Z.of_nat (length q) <= UART_TX_BUF_SIZE.
Proof. apply Hrep. Qed.

Lemma tx_w_diff n : 0 <= n <= UART_TX_BUF_SIZE -> tx_w t = u64 (tx_r t + n) <-> Z.of_nat (length q) = n.
Proof.
  pose proof tx_room as Hl. destruct Hrep as [Hr -> _]. unfold UART_TX_BUF_SIZE in *. intros Hn. split; [|by intros <-].
  unfold u64. intros E. Z.div_mod_to_equations. lia.
Qed.

Lemma tx_full_iff : tx_full t = true <-> Z.of_nat (length q) = UART_TX_BUF_SIZE.
Proof. unfold tx_full. rewrite Z.eqb_eq. apply tx_w_diff. unfold UART_TX_BUF_SIZE. lia. Qed.

Lemma tx_empty_iff : tx_empty t = true <-> q = [].
Proof.
  unfold tx_empty. rewrite Z.eqb_eq. transitivity (tx_w t = u64 (tx_r t + 0)).
  - unfold u64 at 1. rewrite Z.add_0_r, Z.mod_small by apply Hrep. done.
  - rewrite tx_w_diff by (unfold UART_TX_BUF_SIZE; lia). destruct q; simpl; split; intros; lia || done.
Qed.

Lemma tx_push_rep c : tx_full t = false -> tx_rep (tx_push c t) (q ++ [u8 c]).
Proof.
  intros Hf. pose proof tx_room. assert (Z.of_nat (length q) < UART_TX_BUF_SIZE).
  { destruct (decide (Z.of_nat (length q) = UART_TX_BUF_SIZE)) as [E|]; [|lia]. apply tx_full_iff in E. congruence. }
  destruct Hrep as [Hr Hw Hq]. split; cbn.
  - done.
  - rewrite Hw, length_app. cbn. unfold u64. rewrite Z.add_mod_idemp_l by lia. f_equal. lia.
  - rewrite Hw, u64_mod_32. by apply ring_push.
Qed.
End tx.

Lemma tx_pop_rep t b q : tx_rep t (b :: q) -> tx_front t = b /\ tx_rep (tx_pop t) q.
Proof.
  intros [Hr Hw Hq]. destruct (ring_pop _ _ _ _ _ Hq) as [Hb Hq']. split; [unfold tx_front; by rewrite Hb|]. split; cbn.
  - unfold u64. apply Z.mod_pos_bound. lia.
  - rewrite Hw. cbn [length]. unfold u64. rewrite Z.add_mod_idemp_l by lia. f_equal. lia.
  - eapply ring_shift; [lazy; reflexivity| |exact Hq']. by rewrite u64_mod_32.
Qed.

(** ** The hardware *)
Class UartHw (W : Type) `{MM : !Mmio W} := {
  sent : W -> list Z;          (* the bytes transmitted so far *)
  polls : W -> Z;              (* how many reads of LSR can still find the transmitter busy *)
  hw_polls : forall w, 0 <= polls w < Zpos budget;
  hw_lsr : forall w, sent (rd8 (UART0 + LSR) w).2 = sent w;
  hw_busy : forall w, Z.land (rd8 (UART0 + LSR) w).1 LSR_TX_IDLE = 0 -> polls (rd8 (UART0 + LSR) w).2 < polls w;
  hw_thr : forall w v, Z.land (rd8 (UART0 + LSR) w).1 LSR_TX_IDLE <> 0 ->
    sent (wr8 (UART0 + THR) v (rd8 (UART0 + LSR) w).2) = sent w ++ [v]
}.

Section uart.
Context {W : Type} `{HW : UartHw W}.
Implicit Types (s : cst W).

#[export] Instance cH_ok : LensOk (@cH W).
Proof. split; try done. by intros [[[] ? ? ? ?] ?]. Qed.
#[export] Instance cTxL_ok : LensOk (@cTxL W).
Proof. split; try done. by intros [? [[] ? ? ? ?]]. Qed.
#[export] Instance cHTx_disj : LensDisj (@cH W) (@cTxL W).
Proof. done. Qed.
#[export] Instance cConsL_ok : LensOk (@cConsL W).
Proof. split; try done. by intros [? [? [] ? ? ?]]. Qed.
#[export] Instance cHCons_disj : LensDisj (@cH W) (@cConsL W).
Proof. done. Qed.
#[export] Instance cPrL_ok : LensOk (@cPrL W).
Proof. split; try done. by intros [? [? ? [] ? ?]]. Qed.
#[export] Instance cHPr_disj : LensDisj (@cH W) (@cPrL W).
Proof. done. Qed.

Lemma same_hart_pushed h h' : 0 <= noff h -> same_hart h' (pushed h) -> h' = pushed h.
Proof.
  intros Hn H. pose proof (same_hart_noff _ _ H) as En. unfold same_hart, touched in H. rewrite En in H. cbn [noff pushed] in H.
  destruct (Z.eqb_spec (noff h + 1) 0); [lia|done].
Qed.

Definition bus_sent s : list Z := sent (d_bus s.2).

(** Output of the bytes [l], with nothing else changed in the drivers. *)
Record outstep (l : list Z) s s' : Prop := {
  os_env : estep s.1 s'.1;
  os_tx : d_tx s'.2 = d_tx s.2;
  os_cons : d_cons s'.2 = d_cons s.2;
  os_pr : d_pr s'.2 = d_pr s.2;
  os_panicked : d_panicked s'.2 = d_panicked s.2;
  os_sent : bus_sent s' = bus_sent s ++ l
}.

Lemma outstep_refl s : outstep [] s s.
Proof. split; try done. by rewrite app_nil_r. Qed.

Lemma outstep_trans l1 l2 s1 s2 s3 : outstep l1 s1 s2 -> outstep l2 s2 s3 -> outstep (l1 ++ l2) s1 s3.
Proof. intros [] []. split; [by etransitivity|congruence..|]. rewrite app_assoc. congruence. Qed.

Lemma estep_hart e h : same_hart h (view envH e) -> estep e (over envH h e).
Proof. intros H. exists (Ctx h (ue_pid e) (ue_wakes e)). split; [by split|]. by destruct e as [[] ? ? ? ?]. Qed.

Lemma estep_wake e c : estep e (set_ue_wakes (c :: ue_wakes e) e).
Proof.
  exists (Ctx (view envH e) (ue_pid e) (c :: ue_wakes e)). split; [split; try done; by apply suffix_cons_r|].
  by destruct e as [[] ? ? ? ?].
Qed.

(** Ready to print: the hart is in order and no hart has panicked. *)
Definition can_print s : Prop := hart_ok (view cH s) /\ d_panicked s.2 = 0.

Lemma can_print_out l s s' : outstep l s s' -> can_print s -> can_print s'.
Proof.
  intros [(c & [Hc _ _] & E) _ _ _ Hp _] [H1 H2]. split; [|congruence]. unfold cH. cbn [view]. rewrite E.
  eapply hart_ok_same; [|exact H1]. exact Hc.
Qed.

Lemma uart_poll s : wp (while_ budget (fun _ : unit =>
    lsr <- ReadReg LSR;;
    if Z.land lsr LSR_TX_IDLE =? 0 then ret (inl tt) else ret (inr tt)) tt s)
  (fun _ s' => exists w, Z.land (rd8 (UART0 + LSR) w).1 LSR_TX_IDLE <> 0 /\ sent w = bus_sent s /\
                         s' = upd_bus (fun _ => (rd8 (UART0 + LSR) w).2) s).
Proof.
  apply (wp_while_ghost _ (fun g _ s' => exists w, g = polls w /\ sent w = bus_sent s /\ s' = upd_bus (fun _ => w) s) id)
    with (g := polls (d_bus s.2)).
  - intros g [] s' (w & -> & Hw & ->). kstep. unfold ReadReg, read8. cbn [upd_bus d_bus snd fst].
    pose proof (hw_lsr w) as H1. pose proof (hw_busy w) as H2. destruct (rd8 (UART0 + LSR) w) as [v w'] eqn:E. cbn [fst snd] in *.
    cbn [wp]. destruct (Z.eqb_spec (Z.land v LSR_TX_IDLE) 0) as [Hv|Hv]; kstep.
    + exists (polls w'). split; [|by apply H2]. exists w'. split; [done|]. split; [congruence|done].
    + exists w. rewrite E. split; [done|]. split; [done|done].
  - intros g [] s' (w & -> & _). apply hw_polls.
  - exists (d_bus s.2). split; [done|]. split; [done|]. by destruct s as [? []].
  - apply hw_polls.
Qed.

Lemma uartputc_sync_ok c s : can_print s -> wp (uartputc_sync c s) (fun _ s' => outstep [u8 c] s s').
Proof.
  intros [Hh Hp]. unfold uartputc_sync. kstep. erewrite zoom_Done by apply push_off_run. cbn [wp]. kstep.
  unfold check_panicked. kstep. kstep. cbn [over cH snd]. rewrite Hp. cbn [Z.eqb negb]. kstep. kstep.
  eapply wp_mono; [|apply uart_poll]. intros _ s' (w & Hi & Hw & ->). kstep. unfold WriteReg, write8. kstep.
  erewrite zoom_Done by (apply (pop_off_pushed (view cH s)); exact Hh). cbn [wp]. split; cbn; try done.
  - exact (estep_hart s.1 _ (same_hart_touched _)).
  - unfold bus_sent. cbn. rewrite hw_thr by done. by rewrite Hw.
Qed.

(** ** The transmit queue *)
Definition stream s (q : list Z) : list Z := bus_sent s ++ q.

(** The drivers changed only in the transmit buffer; nothing of the stream is
    lost. *)
Record txstep (q q' : list Z) s s' : Prop := {
  ts_env : estep s.1 s'.1;
  ts_rep : tx_rep (d_tx s'.2) q';
  ts_lock : tx_lock (d_tx s'.2) = tx_lock (d_tx s.2);
  ts_cons : d_cons s'.2 = d_cons s.2;
  ts_pr : d_pr s'.2 = d_pr s.2;
  ts_panicked : d_panicked s'.2 = d_panicked s.2;
  ts_stream : stream s' q' = stream s q
}.

Lemma txstep_refl q s : tx_rep (d_tx s.2) q -> txstep q q s s.
Proof. by split. Qed.

Lemma txstep_trans q1 q2 q3 s1 s2 s3 : txstep q1 q2 s1 s2 -> txstep q2 q3 s2 s3 -> txstep q1 q3 s1 s3.
Proof. intros [] []. split; [by etransitivity|done|congruence..]. Qed.

(** Reading LSR. *)
Lemma txstep_lsr q s : tx_rep (d_tx s.2) q -> txstep q q s (upd_bus (fun _ => (rd8 (UART0 + LSR) (d_bus s.2)).2) s).
Proof. intros H. split; try done. unfold stream, bus_sent. cbn. by rewrite hw_lsr. Qed.

(** Sending the byte at the front. *)
Lemma txstep_send b q s : tx_rep (d_tx s.2) (b :: q) -> is_byte b ->
  Z.land (rd8 (UART0 + LSR) (d_bus s.2)).1 LSR_TX_IDLE <> 0 ->
  txstep (b :: q) q s
    (set_ue_wakes (ChanUart :: ue_wakes s.1) s.1,
     DV (tx_pop (d_tx s.2)) (d_cons s.2) (d_pr s.2) (d_panicked s.2)
        (wr8 (UART0 + THR) (u8 b) (rd8 (UART0 + LSR) (d_bus s.2)).2)).
Proof.
  intros Hr Hb Hi. destruct (tx_pop_rep _ _ _ Hr) as [_ Hr']. split; try done; cbn; [apply estep_wake|].
  unfold stream, bus_sent. cbn. rewrite hw_thr by done. unfold u8. rewrite Z.mod_small by exact Hb. by rewrite <- app_assoc.
Qed.

(** For each of the bytes [l] sent, the writers waiting for room are woken. *)
Definition sent_woke (l : list Z) s s' : Prop :=
  bus_sent s' = bus_sent s ++ l /\ ue_wakes s'.1 = replicate (length l) ChanUart ++ ue_wakes s.1.

Lemma sent_woke_refl s : sent_woke [] s s.
Proof. split; [by rewrite app_nil_r|done]. Qed.

Lemma sent_woke_one l b s s1 s2 : sent_woke l s s1 -> bus_sent s2 = bus_sent s1 ++ [b] -> ue_wakes s2.1 = ChanUart :: ue_wakes s1.1 ->
  sent_woke (l ++ [b]) s s2.
Proof.
  intros [E1 E2] E3 E4. split; [by rewrite E3, E1, app_assoc|]. rewrite E4, E2, length_app. cbn [length].
  by rewrite Nat.add_1_r.
Qed.

Lemma uartstart_ok q s : tx_rep (d_tx s.2) q -> Forall is_byte q ->
  wp (uartstart s) (fun _ s' => exists q' l, txstep q q' s s' /\ Forall is_byte q' /\ sent_woke l s s').
Proof.
  intros Hr Hb. apply (wp_while_ghost _ (fun g _ s' => txstep q g s s' /\ Forall is_byte g /\ exists l, sent_woke l s s')
    (fun g => Z.of_nat (length g))) with (g := q).
  - intros g [] s1 (H1 & Hg & l & Hl). pose proof (ts_rep _ _ _ _ H1) as Hr1. kstep. unfold tx_get. kstep.
    pose proof (tx_empty_iff _ _ Hr1) as He. destruct (tx_empty (d_tx s1.2)); [kstep; by exists g, l|].
    destruct g as [|b g]; [by destruct He as [_ He]; discriminate He|]. apply Forall_cons_iff in Hg as [Hb0 Hg].
    destruct (tx_pop_rep _ _ _ Hr1) as [Hf _]. kstep. unfold ReadReg, read8.
    pose proof (txstep_lsr _ _ Hr1) as H2. pose proof (txstep_send _ _ _ Hr1 Hb0) as H3.
    pose proof (hw_lsr (d_bus s1.2)) as H4. pose proof (hw_thr (d_bus s1.2) (u8 b)) as H5.
    destruct (rd8 (UART0 + LSR) (d_bus s1.2)) as [v w]. cbn [fst snd wp] in *.
    destruct (Z.eqb_spec (Z.land v LSR_TX_IDLE) 0) as [Hv|Hv].
    + kstep. exists (b :: g), l. split; [by eapply txstep_trans|]. split; [by constructor|].
      destruct Hl as [L1 L2]. split; [|exact L2]. rewrite <- L1. exact H4.
    + kstep. kstep. kstep. kstep. kstep. unfold c_wakeup. apply wp_zoom. unfold e_wakeup. kstep. kstep. unfold WriteReg, write8. kstep. kstep.
      exists g. split; [|cbn [length]; lia]. specialize (H3 Hv). specialize (H5 Hv).
      cbn [upd_bus upd_tx cE over view fst snd d_tx d_cons d_pr d_panicked d_bus] in *. rewrite Hf. split_and!; [by eapply txstep_trans|done|].
      exists (l ++ [u8 b]). by eapply sent_woke_one.
  - intros. lia.
  - split_and!; [by apply txstep_refl|done|]. exists []. apply sent_woke_refl.
  - pose proof (tx_room _ _ Hr). unfold UART_TX_BUF_SIZE in *. unfold budget. lia.
Qed.

(** *** uartputc, while the interrupt handler and other writers move on *)
Definition tx_ok s (q : list Z) : Prop := tx_rep (d_tx s.2) q /\ Forall is_byte q.

(** What the others do while the process sleeps: they send bytes from the buffer
    and append others.  The history is what they appended, and the state in which
    the process last went on. *)
Definition others_print s (h : list Z * cst W) s' (h' : list Z * cst W) : Prop :=
  hart_ok (view cH s') /\ noff (view cH s') = 0 /\ d_panicked s'.2 = 0 /\ h'.2 = s' /\
  forall q, tx_ok s q -> exists q' x, tx_ok s' q' /\ h'.1 = h.1 ++ x /\ stream s' q' = stream s q ++ x.

(** A process sleeps in uartputc only on a full buffer, with the lock released. *)
Definition writer_waits (c : option chan) s : Prop :=
  c = Some ChanUart /\ tx_full (d_tx s.2) = true /\ free_lock (tx_lock (d_tx s.2)).

Lemma tx_rep_lock t q l : tx_rep t q -> tx_rep (mkTx l (tx_buf t) (tx_w t) (tx_r t)) q.
Proof. by intros []. Qed.

Lemma txstep_inside h q q' s s' : txstep q q' s s' -> inside_lock cH cTxL h s -> inside_lock cH cTxL h s'.
Proof.
  intros [(c & [Hc _ _] & E) _ Hl _ _ _ _] (Hh & Hn & EH & EL). unfold inside_lock. split; [done|]. split; [done|].
  cbn [view cTxL]. rewrite Hl. split; [|exact EL]. cbn [view cH]. rewrite E. apply same_hart_pushed; [lia|]. rewrite <- EH. exact Hc.
Qed.

Definition put_body (c : Z) (_ : unit) : K (cst W) (unit + unit) :=
  full <- tx_get tx_full;;
  if full : bool then
    sleep_until cH cTxL ChanUart (fun s => negb (tx_full (d_tx s.2)));;
    ret (inl tt)
  else
    modify (upd_tx (tx_push c));;
    uartstart;;
    release cH cTxL;;
    ret (inr tt).

Definition put_done (c : Z) s0 q0 (_ : unit) s' (h : list Z * cst W) : Prop :=
  free_lock (tx_lock (d_tx s'.2)) /\
  exists q' l, tx_ok s' q' /\ stream s' q' = stream s0 q0 ++ h.1 ++ [u8 c] /\ sent_woke l h.2 s'.

(** In the critical section, with the bytes [g.1] appended by others, nothing
    sent since the process last went on. *)
Definition putting s0 q0 s (g : list Z * cst W) : Prop :=
  (exists h, inside_lock cH cTxL h s) /\ sent_woke [] g.2 s /\ exists q, tx_ok s q /\ stream s q = stream s0 q0 ++ g.1.

Lemma put_push c h s0 q0 q g s : inside_lock cH cTxL h s -> tx_ok s q -> stream s q = stream s0 q0 ++ g.1 -> sent_woke [] g.2 s ->
  tx_full (d_tx s.2) = false ->
  wp ((modify (upd_tx (tx_push c));; uartstart;; release cH cTxL;; ret (@inr unit unit tt)) s) (fun r s' =>
    match r with inl _ => False | inr u => put_done c s0 q0 u s' g end).
Proof.
  intros Hin [Hr Hb] Hst [Hs0 Hw0] Hf. kstep. kstep. pose proof (tx_push_rep _ _ Hr c Hf) as Hr1. kstep.
  assert (Forall is_byte (q ++ [u8 c])) as Hb1.
  { apply Forall_app. split; [done|]. constructor; [|done]. unfold u8, is_byte. change (2 ^ 8) with 256. apply Z.mod_pos_bound. lia. }
  eapply wp_mono; [|exact (uartstart_ok _ (upd_tx (tx_push c) s) Hr1 Hb1)]. intros _ s2 (q2 & l & H2 & Hb2 & Hs2 & Hw2). kstep.
  erewrite (release_leave cH cTxL h s2) by (by eapply txstep_inside). cbn [wp]. kstep. unfold put_done. split; [by split|].
  exists q2, l. split; [split; [apply tx_rep_lock, H2|done]|]. split.
  - change (stream s2 q2 = stream s0 q0 ++ g.1 ++ [u8 c]).
    rewrite (ts_stream _ _ _ _ H2). rewrite app_assoc, <- Hst. unfold stream, bus_sent. cbn. by rewrite app_assoc.
  - rewrite app_nil_r in Hs0. split; [rewrite <- Hs0; exact Hs2|]. transitivity (ue_wakes s2.1); [done|]. rewrite Hw2. cbn [upd_tx fst]. by rewrite Hw0.
Qed.

Lemma put_round c s0 q0 s g : putting s0 q0 s g -> wpi writer_waits others_print (put_body c tt s) g (fun r s' g' =>
  match r with
  | inl _ => putting s0 q0 s' g' /\ tx_full (d_tx s.2) = true /\ tx_full (d_tx s'.2) = false
  | inr u => put_done c s0 q0 u s' g'
  end).
Proof.
  intros ([h Hin] & Hsw & q & Hq & Hst). unfold put_body. kstep. unfold tx_get. kstep.
  destruct (tx_full (d_tx s.2)) eqn:Hf.
  - kstep. apply (wpx_sleep_until _ _ _ _ _ _ _ h); [done|by rewrite Hf|]. intros _. split; [by split_and!|].
    intros s' g' s1 (Hh' & Hn' & _ & Eg & Ho) Hrdy Hfree _ ->. kstep. apply negb_true_iff in Hrdy.
    destruct (Ho q) as (q' & x' & [Hr' Hb'] & Ex & Hst'); [by destruct Hq; split; [apply tx_rep_lock|]|].
    split; [|split; [done|exact Hrdy]]. split; [|split].
    + exists (view cH s'). destruct (acquire_enter cH cTxL s' Hh' Hn' Hfree) as (? & _ & Hin' & ->). done.
    + rewrite Eg. split; [by rewrite app_nil_r|done].
    + exists q'. split; [split; [by apply tx_rep_lock|done]|]. rewrite Ex, app_assoc, <- Hst. exact Hst'.
  - eapply wpx_mono; [|apply wpx_wp; by eapply put_push]. by intros [|] s' g' [H1 ->].
Qed.

(** C23.  uartputc appends its character to the stream of bytes sent and to be
    sent: when it returns, that stream is the old one, then the bytes the other
    writers appended meanwhile ([h.1], which only [others_print] extends), then
    the character.  Nothing of the stream is lost or reordered, whatever the
    interrupt handler and the other writers do.  Since it last went on, in the
    state [h.2], it sent the bytes [l] and woke the writers that wait for room
    once for each.  It sleeps only while the buffer is full, with the lock
    released, and returns from wherever it goes on with room in the buffer. *)
Theorem uartputc_fifo c s q : can_print s -> noff (view cH s) = 0 -> free_lock (tx_lock (d_tx s.2)) -> tx_ok s q ->
  wpi writer_waits others_print (uartputc c s) ([], s) (fun _ s' h =>
    free_lock (tx_lock (d_tx s'.2)) /\
    exists q' l, tx_ok s' q' /\ stream s' q' = stream s q ++ h.1 ++ [u8 c] /\
      bus_sent s' = bus_sent h.2 ++ l /\ ue_wakes s'.1 = replicate (length l) ChanUart ++ ue_wakes h.2.1).
Proof.
  intros [Hh Hp] Hn Hl [Hr Hb]. unfold uartputc. kstep. destruct (acquire_enter cH cTxL s Hh Hn) as (s1 & E & Hin & ->); [apply Hl|].
  eapply wpx_eq; [exact E|]. kstep. unfold check_panicked. kstep. kstep. change (d_panicked _) with (d_panicked s.2) at 1. rewrite Hp. cbn [Z.eqb negb]. kstep.
  match type of E with _ = Done _ ?x => set (s1 := x) in * end.
  apply (wpx_while _ _ _ (put_body c) (fun g _ s' h => g = (if tx_full (d_tx s'.2) then 1 else 0) /\ putting s q s' h) id (put_done c s q))
    with (g := if tx_full (d_tx s1.2) then 1 else 0).
  - intros g [] s2 h [-> H2]. eapply wpx_mono; [|by apply put_round]. intros [[]|[]] s3 h3; [|done].
    intros (H3 & Hf2 & Hf3). rewrite Hf2. eexists. split; [split; [reflexivity|done]|]. rewrite Hf3. cbn. lia.
  - intros g [] s2 h [-> _]. destruct (tx_full _); cbn; lia.
  - split; [done|]. split; [by eexists|]. split; [by split; [rewrite app_nil_r|]|].
    exists q. cbn [fst]. rewrite app_nil_r. split; [split; [by apply tx_rep_lock|done]|done].
  - destruct (tx_full _); done.
Qed.
End uart.

(** ** Witness: a UART that is always idle, with nothing to receive *)
#[global] Instance idle_mmio : Mmio (list Z) :=
  {| rd8 a w := (if a =? UART0 + LSR then LSR_TX_IDLE else 0, w);
     wr8 a v w := if a =? UART0 + THR then w ++ [v] else w;
     rd32 a w := (0, w);
     wr32 a v w := w |}.
#[global] Instance idle_hw : UartHw (list Z).
Proof. by refine (@Build_UartHw (list Z) idle_mmio (fun w => w) (fun _ => 0) _ _ _ _). Defined.

Definition fresh_devs : devs (list Z) :=
  DV (mkTx (initlock "uart") (replicate 32 0) 0 0) (mkCons (initlock "cons") (replicate 128 0) 0 0 0) (mkPr (initlock "pr") 1) 0 [].
Definition fresh_env : uenv := UE (PM (mkHart 0 2 0 false (Some 1%nat)) (initlock "kmem") 0 ∅) 3 0 0 [].

Lemma uartputc_fifo_witness : wpi (writer_waits (W := list Z)) others_print (uartputc 65 (fresh_env, fresh_devs)) ([], (fresh_env, fresh_devs))
  (fun _ s' h => exists q' l, tx_ok s' q' /\ stream s' q' = h.1 ++ [65] /\ bus_sent s' = bus_sent h.2 ++ l /\
                              ue_wakes s'.1 = replicate (length l) ChanUart ++ ue_wakes h.2.1).
Proof.
  eapply wpx_mono; [|apply (uartputc_fifo 65 (fresh_env, fresh_devs) [])].
  - intros _ s' h [_ (q' & l & H)]. exists q', l. exact H.
  - split; [|done]. split; [cbn; lia|split; cbn; [lia|intros; lia]].
  - done.
  - done.
  - split; [|done]. split; [cbn; lia|done|]. by split.
Defined.
