(* ===== verification/ConsoleSpec.v ===== *)
(** * Correctness of the console

    The input buffer holds the characters of whole lines, ready to be read,
    followed by the line being edited.  [type_char] is what a typed character
    does to them; [consoleintr] implements it on the circular buffer, and echoes.
    [consoleread] takes a line.  The numbers printf prints are those it is given. *)
From S2P Require Import Prelude Machine KString Spinlock Kalloc Vm UserMem VmSpec Block Env Uart UartSpec Console.
Local Open Scope Z_scope.
Local Open Scope kernel_scope.

(** ** The abstract console *)
Definition newline (c : Z) : Z := if c =? CR then NL else c.

(** Does the character end the line, or fill the buffer? *)
Definition commits (c : Z) (ready line : list Z) : bool :=
  (c =? NL) || (c =? C_D) || (Z.of_nat (length ready + length line) + 1 =? INPUT_BUF).

Definition type_char (c : Z) (ready line : list Z) : list Z * list Z :=
  if c =? C_U then (ready, []) else
  if (c =? C_H) || (c =? DEL) then (ready, take (length line - 1) line) else
  if (c =? 0) || (INPUT_BUF <=? Z.of_nat (length ready + length line)) then (ready, line) else
  let c := newline c in
  if commits c ready line then (ready ++ line ++ [c], []) else (ready, line ++ [c]).

Definition rubout : list Z := [8; 32; 8].
Definition echo (c : Z) (ready line : list Z) : list Z :=
  if c =? C_U then concat (replicate (length line) rubout) else
  if (c =? C_H) || (c =? DEL) then (match line with [] => [] | _ => rubout end) else
  if (c =? 0) || (INPUT_BUF <=? Z.of_nat (length ready + length line)) then [] else [newline c].

(** ** The buffer *)
Record cons_rep (b : consbuf) (ready line : list Z) : Prop := {
  cr_r : 0 <= c_r b < 2 ^ 32;
  cr_w : c_w b = u32 (c_r b + Z.of_nat (length ready));
  cr_e : c_e b = u32 (c_r b + Z.of_nat (length ready) + Z.of_nat (length line));
  cr_ring : ring INPUT_BUF (c_buf b) (c_r b) (ready ++ line);
  cr_line : NL ∉ line
}.

Lemma u32_mod_128 x : u32 x mod INPUT_BUF = x mod INPUT_BUF.
Proof. unfold u32, INPUT_BUF. Z.div_mod_to_equations. lia. Qed.

Lemma u32_u32_add x y : u32 (u32 x + y) = u32 (x + y).
Proof. unfold u32. by rewrite Z.add_mod_idemp_l by lia. Qed.

Lemma u32_u32_sub x y : u32 (u32 x - y) = u32 (x - y).
Proof. apply (u32_u32_add x (- y)). Qed.

Section buffer.
Context (b : consbuf) (ready line : list Z) (Hrep : cons_rep b ready line).

Lemma cons_room : Z.of_nat (length ready) + Z.of_nat (length line) <= INPUT_BUF.
Proof. pose proof (ring_room _ _ _ _ (cr_ring _ _ _ Hrep)) as H. rewrite length_app in H. lia. Qed.

Lemma cons_used : u32 (c_e b - c_r b) = Z.of_nat (length ready + length line).
Proof.
  pose proof cons_room. rewrite (cr_e _ _ _ Hrep), u32_u32_sub. unfold INPUT_BUF in *. unfold u32. rewrite Z.mod_small; lia.
Qed.

Lemma cons_line_empty : (c_e b =? c_w b) = bool_decide (line = []).
Proof.
  pose proof cons_room. rewrite (cr_e _ _ _ Hrep), (cr_w _ _ _ Hrep). unfold INPUT_BUF in *. destruct line as [|x l]; cbn [length] in *.
  - rewrite Z.add_0_r, Z.eqb_refl. done.
  - rewrite bool_decide_eq_false_2 by done. apply Z.eqb_neq. intros E.
    assert (E' : u32 (u32 (c_r b + Z.of_nat (length ready) + Z.of_nat (S (length l))) - (c_r b + Z.of_nat (length ready))) =
                 u32 (u32 (c_r b + Z.of_nat (length ready)) - (c_r b + Z.of_nat (length ready)))) by by rewrite E.
    rewrite !u32_u32_sub in E'. unfold u32 in E'. rewrite !Z.mod_small in E'; lia.
Qed.

Lemma cons_is_empty : (c_r b =? c_w b) = bool_decide (ready = []).
Proof.
  pose proof cons_room. rewrite (cr_w _ _ _ Hrep). unfold INPUT_BUF in *. destruct Hrep as [Hr _ _ _ _].
  destruct ready as [|x l]; cbn [length] in *.
  - rewrite Z.add_0_r. unfold u32. rewrite Z.mod_small by done. by rewrite Z.eqb_refl.
  - rewrite bool_decide_eq_false_2 by done. apply Z.eqb_neq. unfold u32. intros E. Z.div_mod_to_equations. lia.
Qed.
End buffer.

(** Erasing the last character of the line. *)
Lemma cons_erase b ready line x : cons_rep b ready (line ++ [x]) ->
  cons_at b (u32 (c_e b - 1)) = x /\ cons_rep (set_c_e (u32 (c_e b - 1)) b) ready line.
Proof.
  intros Hrep. pose proof (cons_room _ _ _ Hrep) as Hroom. destruct Hrep as [Hr Hw He Hq Hl]. rewrite length_app in *. cbn [length] in *. split.
  - unfold cons_at. rewrite u32_mod_128, He. rewrite Zminus_mod, u32_mod_128, <- Zminus_mod.
    pose proof (ring_at _ _ _ _ Hq (length (ready ++ line)) x) as H. rewrite app_assoc, lookup_app_r, Nat.sub_diag in H by lia.
    replace (c_r b + _ + _ - 1) with (c_r b + Z.of_nat (length (ready ++ line))) by (rewrite length_app; lia).
    by rewrite (H eq_refl).
  - split; cbn; [done|done| | |].
    + rewrite He, u32_u32_sub. f_equal. lia.
    + rewrite app_assoc in Hq. by eapply ring_prefix.
    + intros H. apply Hl. apply elem_of_app. by left.
Qed.

(** Storing a character. *)
Lemma cons_push b ready line x : cons_rep b ready line -> Z.of_nat (length ready + length line) < INPUT_BUF -> is_byte x ->
  c_e (cons_store x b) = u32 (c_r b + Z.of_nat (length ready) + Z.of_nat (length line) + 1) /\
  ring INPUT_BUF (c_buf (cons_store x b)) (c_r b) (ready ++ line ++ [x]).
Proof.
  intros [Hr Hw He Hq Hl] Hlt Hx. split; [cbn; by rewrite He, u32_u32_add|]. cbn. rewrite He, u32_mod_128.
  replace (u8 x) with x by (symmetry; exact (Z.mod_small x (2 ^ 8) Hx)). rewrite app_assoc. replace (c_r b + _ + _) with (c_r b + Z.of_nat (length (ready ++ line))) by (rewrite length_app; lia).
  apply ring_push; [done|rewrite length_app; lia|done].
Qed.

(** After the character: the line goes on, or it is committed. *)
Lemma cons_push_line b ready line x : cons_rep b ready line -> Z.of_nat (length ready + length line) < INPUT_BUF -> is_byte x ->
  x <> NL -> cons_rep (cons_store x b) ready (line ++ [x]).
Proof.
  intros Hrep Hlt Hx Hn. destruct (cons_push b ready line x Hrep Hlt Hx) as [E Hq]. destruct Hrep as [Hr Hw He _ Hl]. split; try done.
  - rewrite E, length_app. cbn. f_equal. lia.
  - intros [H|H%list_elem_of_singleton]%elem_of_app; done.
Qed.

Lemma cons_push_commit b ready line x : cons_rep b ready line -> Z.of_nat (length ready + length line) < INPUT_BUF -> is_byte x ->
  cons_rep (set_c_w (c_e (cons_store x b)) (cons_store x b)) (ready ++ line ++ [x]) [].
Proof.
  intros Hrep Hlt Hx. destruct (cons_push b ready line x Hrep Hlt Hx) as [E Hq]. destruct Hrep as [Hr Hw He _ Hl]. split; cbn -[cons_store]; try done.
  - rewrite E, !length_app. cbn. f_equal. lia.
  - rewrite E, !length_app. cbn. f_equal. lia.
  - by rewrite app_nil_r.
  - apply not_elem_of_nil.
Qed.

Section console.
Context {W : Type} `{HW : UartHw W}.
Implicit Types (s : cst W).

Lemma consputc_ok c s : can_print s -> wp (consputc c s) (fun _ s' => outstep (if c =? BACKSPACE then rubout else [u8 c]) s s').
Proof.
  intros H. unfold consputc. destruct (c =? BACKSPACE); [|by apply uartputc_sync_ok].
  kstep. eapply wp_mono; [|by apply uartputc_sync_ok]. intros ? s1 H1. kstep.
  eapply wp_mono; [|apply uartputc_sync_ok; exact (can_print_out _ _ _ H1 H)]. intros ? s2 H2.
  eapply wp_mono; [|apply uartputc_sync_ok; exact (can_print_out _ _ _ H2 (can_print_out _ _ _ H1 H))]. intros ? s3 H3.
  exact (outstep_trans _ _ _ _ _ H1 (outstep_trans _ _ _ _ _ H2 H3)).
Qed.

(** A step of the interrupt handler: it may also change the input buffer. *)
Record edited (l : list Z) s s' : Prop := {
  ed_env : estep s.1 s'.1;
  ed_tx : d_tx s'.2 = d_tx s.2;
  ed_lock : c_lock (d_cons s'.2) = c_lock (d_cons s.2);
  ed_pr : d_pr s'.2 = d_pr s.2;
  ed_panicked : d_panicked s'.2 = d_panicked s.2;
  ed_sent : bus_sent s' = bus_sent s ++ l
}.

Lemma edited_trans l1 l2 s1 s2 s3 : edited l1 s1 s2 -> edited l2 s2 s3 -> edited (l1 ++ l2) s1 s3.
Proof. intros [] []. split; [by etransitivity|congruence..|]. rewrite app_assoc. congruence. Qed.

Lemma edited_out l s s' : outstep l s s' -> edited l s s'.
Proof. intros []. split; congruence. Qed.

Lemma edited_cons f s : (forall b, c_lock (f b) = c_lock b) -> edited [] s (upd_cons f s).
Proof. intros H. split; cbn; try done. by rewrite app_nil_r. Qed.

Lemma edited_wake c s : edited [] s (set_ue_wakes (c :: ue_wakes s.1) s.1, s.2).
Proof. split; cbn; try done; [apply estep_wake|by rewrite app_nil_r]. Qed.

Lemma edited_inside h l s s' : edited l s s' -> inside_lock cH cConsL h s -> inside_lock cH cConsL h s'.
Proof.
  intros [(c & [Hc _ _] & E) _ Hl _ _ _] (Hh & Hn & EH & EL). unfold inside_lock. split; [done|]. split; [done|].
  cbn [view cConsL]. rewrite Hl. split; [|exact EL]. cbn [view cH]. rewrite E. apply same_hart_pushed; [lia|]. rewrite <- EH. exact Hc.
Qed.

Lemma inside_can_print h s : inside_lock cH cConsL h s -> d_panicked s.2 = 0 -> can_print s.
Proof. intros (Hh & _ & EH & _) Hp. split; [|done]. rewrite EH. by apply hart_ok_pushed. Qed.

(** Echo after a change of the buffer. *)
Lemma upd_echo h f c s : inside_lock cH cConsL h s -> d_panicked s.2 = 0 -> (forall b, c_lock (f b) = c_lock b) ->
  wp ((cons_upd f;; consputc c) s) (fun _ s' =>
    edited (if c =? BACKSPACE then rubout else [u8 c]) s s' /\ d_cons s'.2 = f (d_cons s.2)).
Proof.
  intros Hin Hp Hf. kstep. unfold cons_upd. kstep. pose proof (edited_cons f s Hf) as H1.
  eapply wp_mono; [|apply consputc_ok, (inside_can_print h); [by eapply edited_inside|done]].
  intros ? s' Ho. split; [exact (edited_trans _ _ _ _ _ H1 (edited_out _ _ _ Ho))|]. apply (os_cons _ _ _ Ho).
Qed.

(** *** Kill line *)
Lemma kill_line_ok h s ready line : inside_lock cH cConsL h s -> d_panicked s.2 = 0 -> cons_rep (d_cons s.2) ready line ->
  wp (while_ budget (fun _ : unit =>
       b <- cons_get (fun b => b);;
       if negb (c_e b =? c_w b) && negb (cons_at b (u32 (c_e b - 1)) =? NL) then
         cons_upd (fun b => set_c_e (u32 (c_e b - 1)) b);;
         consputc BACKSPACE;;
         ret (inl tt)
       else ret (inr tt)) tt s)
    (fun _ s' => edited (concat (replicate (length line) rubout)) s s' /\ cons_rep (d_cons s'.2) ready []).
Proof.
  intros Hin Hp Hr.
  apply (wp_while_ghost _ (fun g _ s' => exists l1 k, g = l1 /\ (length line = k + length l1)%nat /\
      edited (concat (replicate k rubout)) s s' /\ cons_rep (d_cons s'.2) ready l1) (fun g => Z.of_nat (length g))) with (g := line).
  - intros g [] s1 (l1 & k & -> & Hk & He & Hr1). kstep. unfold cons_get. kstep.
    rewrite (cons_line_empty _ _ _ Hr1). destruct l1 as [|x l1 _] using rev_ind; cbn [length] in *.
    + rewrite bool_decide_eq_true_2 by done. cbn [negb andb]. kstep. rewrite Hk, Nat.add_0_r. done.
    + rewrite bool_decide_eq_false_2 by by destruct l1. destruct (cons_erase _ _ _ _ Hr1) as [Hx Hr2]. rewrite Hx.
      assert (x <> NL). { intros ->. apply (cr_line _ _ _ Hr1). apply elem_of_app. right. by apply list_elem_of_singleton. }
      destruct (Z.eqb_spec x NL); [done|]. cbn [negb andb]. kstep.
      unfold cons_upd. kstep. kstep. pose proof (edited_inside h _ _ _ He Hin) as Hin1.
      assert (d_panicked s1.2 = 0) as Hp1 by (rewrite (ed_panicked _ _ _ He); done).
      pose proof (upd_echo h (fun b => set_c_e (u32 (c_e b - 1)) b) BACKSPACE s1 Hin1 Hp1 ltac:(done)) as Hecho.
      apply wp_bind_inv in Hecho. cbn [wp cons_upd modify] in Hecho. eapply wp_mono; [|exact Hecho].
      intros _ s2 [He2 Hc2]. kstep. exists l1. split.
      * exists l1, (S k). split; [done|]. split; [rewrite length_app in Hk; cbn in Hk; lia|]. split.
        -- pose proof (edited_trans _ _ _ _ _ He He2) as He3. replace (S k) with (k + 1)%nat by lia.
           rewrite replicate_add, concat_app. exact He3.
        -- rewrite Hc2. exact Hr2.
      * rewrite length_app. cbn. lia.
  - intros. lia.
  - exists line, O. split; [done|]. split; [done|]. split; [|done]. split; try done. by rewrite app_nil_r.
  - pose proof (cons_room _ _ _ Hr). unfold INPUT_BUF in *. unfold budget. lia.
Qed.

(** *** Backspace *)
Lemma backspace_ok h s ready line : inside_lock cH cConsL h s -> d_panicked s.2 = 0 -> cons_rep (d_cons s.2) ready line ->
  wp ((b <- cons_get (fun b => b);;
       if negb (c_e b =? c_w b) then
         cons_upd (fun b => set_c_e (u32 (c_e b - 1)) b);;
         consputc BACKSPACE
       else ret tt) s)
    (fun _ s' => edited (match line with [] => [] | _ => rubout end) s s' /\
                 cons_rep (d_cons s'.2) ready (take (length line - 1) line)).
Proof.
  intros Hin Hp Hr. kstep. unfold cons_get. kstep. rewrite (cons_line_empty _ _ _ Hr). destruct line as [|x line _] using rev_ind.
  - rewrite bool_decide_eq_true_2 by done. cbn [negb]. kstep. split; [|done]. split; try done. by rewrite app_nil_r.
  - rewrite bool_decide_eq_false_2 by by destruct line. cbn [negb]. destruct (cons_erase _ _ _ _ Hr) as [_ Hr2].
    eapply wp_mono; [|exact (upd_echo h (fun b => set_c_e (u32 (c_e b - 1)) b) BACKSPACE s Hin Hp ltac:(done))]. intros ? s' [He Hc]. split.
    + destruct (line ++ [x]) eqn:E; [by destruct line|exact He].
    + rewrite Hc, length_app, Nat.add_sub, take_app_length. exact Hr2.
Qed.

(** *** Other characters *)
Lemma store_ok h s ready line c : inside_lock cH cConsL h s -> d_panicked s.2 = 0 -> cons_rep (d_cons s.2) ready line -> is_byte c ->
  wp ((b <- cons_get (fun b => b);;
       if negb (c =? 0) && (u32 (c_e b - c_r b) <? INPUT_BUF) then
         let c := if c =? CR then NL else c in
         consputc c;;
         cons_upd (cons_store c);;
         b <- cons_get (fun b => b);;
         if (c =? NL) || (c =? C_D) || (c_e b =? u32 (c_r b + INPUT_BUF)) then
           cons_upd (fun b => set_c_w (c_e b) b);;
           c_wakeup ChanCons
         else ret tt
       else ret tt) s)
    (fun _ s' => let full := (c =? 0) || (INPUT_BUF <=? Z.of_nat (length ready + length line)) in
       let c := newline c in let done := commits c ready line in
       edited (if full then [] else [c]) s s' /\
       cons_rep (d_cons s'.2) (if full then ready else if done then ready ++ line ++ [c] else ready)
                              (if full then line else if done then [] else line ++ [c]) /\
       (full = false -> done = true -> ChanCons ∈ ue_wakes s'.1)).
Proof.
  intros Hin Hp Hr Hc. kstep. unfold cons_get. kstep. rewrite (cons_used _ _ _ Hr). cbv zeta.
  destruct (Z.eqb_spec c 0) as [->|Hc0]; cbn [negb andb orb].
  { kstep. split; [|done]. split; try done. by rewrite app_nil_r. }
  destruct (Z.ltb_spec (Z.of_nat (length ready + length line)) INPUT_BUF) as [Hlt|Hge]; cycle 1.
  { kstep. destruct (Z.leb_spec INPUT_BUF (Z.of_nat (length ready + length line))); [|lia].
    split; [|done]. split; try done. by rewrite app_nil_r. }
  destruct (Z.leb_spec INPUT_BUF (Z.of_nat (length ready + length line))); [lia|].
  change (if c =? CR then NL else c) with (newline c). set (d := newline c).
  assert (is_byte d) as Hd by (unfold d, newline; destruct (c =? CR); [unfold NL, is_byte; lia|done]).
  kstep. eapply wp_mono; [|exact (consputc_ok d s (inside_can_print h s Hin Hp))]. intros ? s1 H1.
  destruct (Z.eqb_spec d BACKSPACE) as [E|_]; [unfold is_byte in Hd; unfold BACKSPACE in E; lia|].
  replace (u8 d) with d in H1 by (symmetry; exact (Z.mod_small d (2 ^ 8) Hd)).
  kstep. unfold cons_upd. kstep. kstep. kstep. cbn [upd_cons snd d_cons c_e]. rewrite (os_cons _ _ _ H1).
  destruct (cons_push _ _ _ _ Hr Hlt Hd) as [Ee _].
  pose proof (edited_trans _ _ _ _ _ (edited_out _ _ _ H1) (edited_cons (cons_store d) s1 ltac:(done))) as H2. rewrite app_nil_r in H2.
  assert (Hcm : (d =? NL) || (d =? C_D) || (c_e (cons_store d (d_cons s.2)) =? u32 (c_r (d_cons s.2) + INPUT_BUF)) = commits d ready line).
  { unfold commits. f_equal. rewrite Ee. pose proof (cr_r _ _ _ Hr). unfold INPUT_BUF in *. apply Bool.eq_iff_eq_true.
    rewrite !Z.eqb_eq. unfold u32. split; intros E; [Z.div_mod_to_equations; lia|]. f_equal. lia. }
  change (c_r (cons_store d (d_cons s.2))) with (c_r (d_cons s.2)). rewrite Hcm. destruct (commits d ready line) eqn:Ed.
  - kstep. kstep. unfold c_wakeup. apply wp_zoom. unfold e_wakeup. kstep.
    pose proof (edited_trans _ _ _ _ _ (edited_trans _ _ _ _ _ H2 (edited_cons (fun b => set_c_w (c_e b) b) _ ltac:(done)))
      (edited_wake ChanCons _)) as H3. rewrite !app_nil_r in H3. split; [exact H3|]. split.
    + cbn [over cE snd upd_cons d_cons]. rewrite (os_cons _ _ _ H1). by apply cons_push_commit.
    + intros _ _. apply elem_of_cons. by left.
  - kstep. split; [exact H2|]. split; [|done]. cbn [snd upd_cons d_cons]. rewrite (os_cons _ _ _ H1). apply cons_push_line; [done..|].
    intros E. unfold commits in Ed. by rewrite E, Z.eqb_refl in Ed.
Qed.

(** The console between interrupts. *)
Record console_ok s (ready line : list Z) : Prop := {
  co_print : can_print s;
  co_noff : noff (view cH s) = 0;
  co_lock : free_lock (c_lock (d_cons s.2));
  co_rep : cons_rep (d_cons s.2) ready line
}.

Lemma cons_rep_lock b ready line l : cons_rep b ready line -> cons_rep (mkCons l (c_buf b) (c_r b) (c_w b) (c_e b)) ready line.
Proof. by intros []. Qed.

Lemma console_leave h s ready line : inside_lock cH cConsL h s -> d_panicked s.2 = 0 -> cons_rep (d_cons s.2) ready line ->
  wp (release cH cConsL s) (fun _ s' => console_ok s' ready line /\ bus_sent s' = bus_sent s /\ ue_wakes s'.1 = ue_wakes s.1).
Proof.
  intros Hin Hp Hr. erewrite (release_leave cH cConsL h s) by done. destruct Hin as (Hh & Hn & _). cbn [wp].
  split; [|done]. split; [split; [by apply hart_ok_touched|done]| |done|by apply cons_rep_lock].
  change (noff (touched h) = 0). unfold touched. by destruct (noff h =? 0).
Qed.

(** C22.  The input interrupt handler implements line editing on the circular
    buffer: a typed character changes the committed characters and the line being
    edited as [type_char] says (kill line, backspace, and otherwise append, commit
    at a newline, an end-of-file or when the buffer is full, ignored when there is
    no room), is echoed as [echo] says, and readers are woken whenever characters
    are committed. *)
Theorem consoleintr_edits pd c s ready line : is_byte c -> c <> C_P -> console_ok s ready line ->
  wp (consoleintr pd c s) (fun _ s' =>
    console_ok s' (type_char c ready line).1 (type_char c ready line).2 /\ bus_sent s' = bus_sent s ++ echo c ready line /\
    ((type_char c ready line).1 <> ready -> ChanCons ∈ ue_wakes s'.1)).
Proof.
  intros Hc Hcp [Hpr Hn Hl Hr]. unfold consoleintr. kstep.
  destruct (acquire_enter cH cConsL s) as (s1 & E & Hin & ->); [apply Hpr|done|apply Hl|]. rewrite E. cbn [wp].
  match type of E with _ = Done _ ?x => set (s1 := x) in * end. clear E.
  assert (Hp1 : d_panicked s1.2 = 0) by apply Hpr. assert (Hr1 : cons_rep (d_cons s1.2) ready line) by by apply cons_rep_lock.
  assert (Hs1 : bus_sent s1 = bus_sent s) by done. clearbody s1. kstep.
  assert (Hfin : forall s2 out rd ln, edited out s1 s2 -> cons_rep (d_cons s2.2) rd ln -> (rd <> ready -> ChanCons ∈ ue_wakes s2.1) ->
    wp (release cH cConsL s2) (fun _ s' => console_ok s' rd ln /\ bus_sent s' = bus_sent s ++ out /\
      (rd <> ready -> ChanCons ∈ ue_wakes s'.1))).
  { intros s2 out rd ln He Hr2 Hw. eapply wp_mono; [|apply (console_leave (view cH s) s2 rd ln); [by eapply edited_inside| |done]].
    - intros ? s3 (H3 & Hb & Hk). split; [done|]. rewrite Hb, Hk, (ed_sent _ _ _ He), Hs1. done.
    - by rewrite (ed_panicked _ _ _ He). }
  destruct (Z.eqb_spec c C_P); [done|]. unfold type_char, echo. destruct (c =? C_U).
  { eapply wp_mono; [|exact (kill_line_ok _ _ _ _ Hin Hp1 Hr1)]. intros ? s2 [He Hr2]. by apply (Hfin s2 _ _ _ He Hr2). }
  destruct ((c =? C_H) || (c =? DEL)).
  { eapply wp_mono; [|exact (backspace_ok _ _ _ _ Hin Hp1 Hr1)]. intros ? s2 [He Hr2]. by apply (Hfin s2 _ _ _ He Hr2). }
  eapply wp_mono; [|exact (store_ok _ _ _ _ c Hin Hp1 Hr1 Hc)]. cbv zeta. intros ? s2 (He & Hr2 & Hw).
  destruct (_ || _) eqn:Hfull; [by apply (Hfin s2 _ _ _ He Hr2)|]. destruct (commits (newline c) ready line); (apply (Hfin s2 _ _ _ He Hr2); [..]); [by intros _; apply Hw|done].
Qed.

(** ** Reading a line *)
(** What a read of at most [n] characters takes from the committed characters:
    up to the end of a line or an end-of-file mark.  The mark is left for the
    next read when something was read before it ([got]).  [None]: the read waits
    for more. *)
Fixpoint read_chars (n : nat) (got : bool) (ready : list Z) : option (list Z * list Z) :=
  match n with
  | O => Some ([], ready)
  | S n => match ready with
           | [] => None
           | c :: rest =>
               if c =? C_D then Some ([], if got then ready else rest)
               else if c =? NL then Some ([c], rest)
               else '(bytes, rest') ← read_chars n true rest; Some (c :: bytes, rest')
           end
  end.

Lemma read_chars_length n got ready bytes rest : read_chars n got ready = Some (bytes, rest) -> (length bytes <= n)%nat.
Proof.
  revert got ready bytes rest. induction n as [|n IH]; intros got ready bytes rest; cbn; [by intros [= <- _]|].
  destruct ready as [|c ready]; [done|]. destruct (c =? C_D); [intros [= <- _]; cbn; lia|].
  destruct (c =? NL); [intros [= <- _]; cbn; lia|]. destruct (read_chars n true ready) as [[b r]|] eqn:E; [|done]. cbn.
  intros [= <- _]. cbn. apply IH in E. lia.
Qed.

Definition wait_input (_ : unit) : K (cst W) (unit + bool) :=
  w <- gets cons_waits;;
  if negb w then ret (inr false) else
  _ <- zoom cH myproc;;
  k <- gets (fun s => ue_killed s.1);;
  if negb (k =? 0) then release cH cConsL;; ret (inr true) else
  sleep_until cH cConsL ChanCons (fun s => negb (cons_waits s) || negb (ue_killed s.1 =? 0));;
  ret (inl tt).

Definition cons_read_body (target : Z) (x : Z * Z) : K (cst W) (Z * Z + option Z) :=
  let '(dst, n) := x in
  if negb (0 <? n) then ret (inr (Some n)) else
  dead <- while_ budget wait_input tt;;
  if dead : bool then ret (inr None) else
  c <- cons_get (fun b => cons_at b (c_r b));;
  cons_upd (fun b => set_c_r (u32 (c_r b + 1)) b);;
  if c =? C_D then
    (if n <? target then cons_upd (fun b => set_c_r (u32 (c_r b - 1)) b) else ret tt);;
    ret (inr (Some n))
  else
  e <- zoom cE (either_copyout (Some dst) [c] 1);;
  if e.1 =? -1 then ret (inr (Some n)) else
  let n := n - 1 in
  if c =? NL then ret (inr (Some n)) else
  ret (inl (u64 (dst + 1), n)).

Lemma consoleread_unfold dst n s : consoleread dst n s =
  (acquire cH cConsL;;
   r <- while_ budget (cons_read_body (u32 n)) (dst, n);;
   match r with
   | None => ret (-1)
   | Some m => release cH cConsL;; ret (s32 (u32 n - m))
   end) s.
Proof. reflexivity. Qed.

(** Taking the first committed character. *)
Lemma cons_take b c ready line : cons_rep b (c :: ready) line -> cons_at b (c_r b) = c /\ cons_rep (set_c_r (u32 (c_r b + 1)) b) ready line.
Proof.
  intros [Hr Hw He Hq Hl]. cbn [app length] in *. destruct (ring_pop _ _ _ _ _ Hq) as [Hc Hq']. split; [unfold cons_at; by rewrite Hc|].
  split; cbn; [unfold u32; apply Z.mod_pos_bound; lia| | | |done].
  - rewrite Hw, u32_u32_add. f_equal. lia.
  - rewrite He, <- !(Z.add_assoc (u32 _)), u32_u32_add. f_equal. lia.
  - eapply ring_shift; [done| |exact Hq']. by rewrite u32_mod_128.
Qed.

Section read.
Context (kend : Z) (kend_range : 0 < kend <= PHYSTOP).
Context (h : hart) (e0 : uenv) (dst n : Z) (bytes rest line : list Z).
Hypothesis dst_range : 0 <= dst /\ dst + n < 2 ^ 64.
Hypothesis n_range : 0 <= n < 2 ^ 31.
Hypothesis fits : Z.of_nat (length bytes) <= n.
Hypothesis mapped : forall j, (j < length bytes)%nat -> ubyte e0 (dst + Z.of_nat j) <> None.

(** The first [i] bytes copied, with [ready] still to be read. *)
Record reading (i : nat) (ready : list Z) s : Prop := {
  rd_in : inside_lock cH cConsL h s;
  rd_env : exists l, env_ok kend s.1 l;
  rd_rep : cons_rep (d_cons s.2) ready line;
  rd_panicked : d_panicked s.2 = 0;
  rd_bytes : Forall is_byte ready;
  rd_mem : forall va, 0 <= va -> ubyte s.1 va =
    if decide (dst <= va < dst + Z.of_nat i) then bytes !! Z.to_nat (va - dst) else ubyte e0 va
}.

Lemma reading_upd i ready ready' s f : reading i ready s -> (forall b, c_lock (f b) = c_lock b) -> Forall is_byte ready' ->
  cons_rep (f (d_cons s.2)) ready' line -> reading i ready' (upd_cons f s).
Proof.
  intros [H1 H2 H3 H4 H5 H6] Hl Hb Hr. split; try done. destruct H1 as (A & B & C & D). split_and!; try done.
  cbn [view cConsL upd_cons snd d_cons]. by rewrite Hl.
Qed.

Lemma reading_copy i ready s c : reading i ready s -> is_byte c -> bytes !! i = Some c ->
  wp (zoom cE (either_copyout (Some (dst + Z.of_nat i)) [c] 1) s) (fun r s' => r.1 = 0 /\ reading (S i) ready s').
Proof.
  intros [Hin [l Hl] Hr Hp Hb Hm] Hc Hi. pose proof (lookup_lt_Some _ _ _ Hi) as Hlt. apply wp_zoom. cbn [view cE].
  eapply wp_mono; [|apply (either_copyout_user kend s.1 l (dst + Z.of_nat i) [c]); [done|done|lia|by constructor]].
  intros r e' (He & Hu & _ & k & Hk & Hmem & Hres). destruct Hres as [[Hr0 ->]|[_ Hnone]]; cycle 1.
  { apply uread_None in Hnone as (j & Hj & E). replace j with O in E by (cbn in Hj; lia). rewrite Z.add_0_r in E.
    rewrite Hm, decide_False in E by lia. by destruct (mapped i Hlt). }
  split; [done|]. split; try done.
  - destruct Hin as (A & B & C & D). split_and!; try done. destruct Hu as (cx & m & [Hx _ _] & ->).
    change (cx_hart cx = pushed h). apply same_hart_pushed; [lia|]. rewrite <- C. exact Hx.
  - by exists l.
  - intros va Hva. cbn [over cE fst]. rewrite Hmem, Hm by lia. cbn [length]. destruct (decide (va = dst + Z.of_nat i)) as [->|Hne].
    + rewrite !decide_True by lia. rewrite Z.sub_diag. cbn. rewrite Z.add_simpl_l, Nat2Z.id. done.
    + rewrite decide_False by lia. do 2 case_decide; try done; lia.
Qed.

Lemma wait_input_ready s ready : cons_rep (d_cons s.2) ready line -> ready <> [] -> while_ budget wait_input tt s = Done false s.
Proof.
  intros Hr Hne. apply while_exit. unfold wait_input. erewrite bind_Done by reflexivity. unfold cons_waits.
  rewrite (cons_is_empty _ _ _ Hr), bool_decide_eq_false_2 by done. done.
Qed.

Lemma cons_read_round i ready s : reading i ready s -> (i <= length bytes)%nat ->
  read_chars (Z.to_nat n - i) (bool_decide (0 < i)%nat) ready = Some (drop i bytes, rest) ->
  wp (cons_read_body (u32 n) (dst + Z.of_nat i, n - Z.of_nat i) s) (fun r s' =>
    match r with
    | inl x => x = (dst + Z.of_nat (S i), n - Z.of_nat (S i)) /\ (S i <= length bytes)%nat /\ exists ready', reading (S i) ready' s' /\
        read_chars (Z.to_nat n - S i) (bool_decide (0 < S i)%nat) ready' = Some (drop (S i) bytes, rest)
    | inr m => m = Some (n - Z.of_nat (length bytes)) /\ reading (length bytes) rest s'
    end).
Proof.
  intros Hrd Hi Hrc. unfold cons_read_body. destruct (Z.ltb_spec 0 (n - Z.of_nat i)) as [Hn|Hn]; cbn [negb].
  2: { replace (Z.to_nat n - i)%nat with O in Hrc by lia. injection Hrc as Hd <-. apply (f_equal length) in Hd.
       rewrite length_drop in Hd. cbn in Hd. kstep. replace (length bytes) with i by lia. done. }
  replace (Z.to_nat n - i)%nat with (S (Z.to_nat n - S i)) in Hrc by lia. cbn [read_chars] in Hrc.
  destruct ready as [|c ready]; [discriminate Hrc|]. pose proof (rd_rep _ _ _ Hrd) as Hr. destruct (cons_take _ _ _ _ Hr) as [Hc Hr'].
  pose proof (rd_bytes _ _ _ Hrd) as Hb. apply Forall_cons_iff in Hb as [Hcb Hb].
  kstep. rewrite (wait_input_ready s (c :: ready)) by done. cbn [wp]. kstep. unfold cons_get. kstep. rewrite Hc. kstep. unfold cons_upd. kstep.
  pose proof (reading_upd i (c :: ready) ready s (fun b => set_c_r (u32 (c_r b + 1)) b) Hrd ltac:(done) Hb Hr') as Hrd1.
  rewrite (u32_id n) by lia. destruct (c =? C_D).
  { injection Hrc as Hd Hrest. apply (f_equal length) in Hd. rewrite length_drop in Hd. cbn in Hd. assert (Ei : i = length bytes) by lia.
    rewrite Ei in *. destruct (Z.ltb_spec (n - Z.of_nat (length bytes)) n) as [Hg|Hg]; kstep; kstep; kstep; (split; [done|]).
    - rewrite bool_decide_eq_true_2 in Hrest by lia. subst rest. apply (reading_upd _ ready); [done|done|by constructor|].
      cbn [upd_cons snd d_cons set_c_r c_r]. rewrite u32_u32_sub, Z.add_simpl_r, u32_id by apply Hr. by destruct (d_cons s.2).
    - rewrite bool_decide_eq_false_2 in Hrest by lia. by subst rest. }
  assert (exists bytes', drop i bytes = c :: bytes' /\ (if c =? NL then bytes' = [] /\ ready = rest else
    read_chars (Z.to_nat n - S i) true ready = Some (bytes', rest))) as (bytes' & Hd & Hrc').
  { destruct (c =? NL); [injection Hrc as Hd <-; by exists []|]. destruct (read_chars _ true ready) as [[b r]|]; [|discriminate Hrc].
    injection Hrc as Hd <-. by exists b. }
  assert (Hbi : bytes !! i = Some c) by (rewrite <- (Nat.add_0_r i), <- lookup_drop, Hd; done).
  pose proof (lookup_lt_Some _ _ _ Hbi) as Hlt. assert (Hd' : drop (S i) bytes = bytes').
  { pose proof (drop_S _ _ _ Hbi) as E. rewrite Hd in E. by injection E. }
  kstep. eapply wp_mono; [|exact (reading_copy i ready _ c Hrd1 Hcb Hbi)]. intros r s' [Hr0 Hrd2]. rewrite Hr0. cbn [Z.eqb].
  destruct (c =? NL).
  - destruct Hrc' as [-> <-]. apply (f_equal length) in Hd'. rewrite length_drop in Hd'. cbn in Hd'. kstep.
    replace (length bytes) with (S i) by lia. split; [f_equal; lia|done].
  - kstep. split; [unfold u64; rewrite Z.mod_small by lia; f_equal; lia|]. split; [lia|]. exists ready.
    split; [done|]. rewrite bool_decide_eq_true_2 by lia. by rewrite Hd'.
Qed.
End read.

(** C32.  A read from the console takes the committed characters up to the end of
    the first line, an end-of-file mark or the size of the buffer: it stores
    exactly those in the caller's memory, changes no other byte of it, leaves the
    rest for the next read, and returns their number. *)
Theorem consoleread_line kend dst n s ready line bytes rest : 0 < kend <= PHYSTOP -> 0 <= dst -> dst + n < 2 ^ 64 -> 0 <= n < 2 ^ 31 ->
  (exists l, env_ok kend s.1 l) -> Forall is_byte ready -> console_ok s ready line ->
  read_chars (Z.to_nat n) false ready = Some (bytes, rest) ->
  (forall j, (j < length bytes)%nat -> ubyte s.1 (dst + Z.of_nat j) <> None) ->
  wp (consoleread dst n s) (fun r s' => r = Z.of_nat (length bytes) /\ console_ok s' rest line /\
    forall va, 0 <= va -> ubyte s'.1 va =
      if decide (dst <= va < dst + Z.of_nat (length bytes)) then bytes !! Z.to_nat (va - dst) else ubyte s.1 va).
Proof.
  intros Hk Hd1 Hd2 Hn [l Hl] Hb [Hpr Hno Hlk Hr] Hrc Hmap. pose proof (read_chars_length _ _ _ _ _ Hrc) as Hlen.
  rewrite consoleread_unfold. kstep. destruct (acquire_enter cH cConsL s) as (s1 & E & Hin & ->); [apply Hpr|done|apply Hlk|].
  rewrite E. cbn [wp]. match type of E with _ = Done _ ?x => set (s1 := x) in * end. kstep.
  assert (H0 : reading kend (view cH s) s.1 dst bytes line 0 ready s1).
  { split; [done|exists l; by apply env_ok_hart, hart_ok_pushed; [|apply Hpr]|by apply cons_rep_lock|apply Hpr|done|].
    intros va Hva. rewrite decide_False by lia. done. }
  clearbody s1. clear E Hin.
  eapply wp_mono; [|apply (wp_while_ghost (cons_read_body (u32 n)) (fun g x s' => x = (dst + Z.of_nat g, n - Z.of_nat g) /\ (g <= length bytes)%nat /\
     exists rd, reading kend (view cH s) s.1 dst bytes line g rd s' /\
       read_chars (Z.to_nat n - g) (bool_decide (0 < g)%nat) rd = Some (drop g bytes, rest)) (fun g => n - Z.of_nat g)
     (fun m s' => m = Some (n - Z.of_nat (length bytes)) /\ reading kend (view cH s) s.1 dst bytes line (length bytes) rest s'))
     with (g := O)].
  - intros m s2 [-> Hrd]. kstep. destruct Hrd as [Hin _ Hr2 Hp2 _ Hm]. erewrite (release_leave cH cConsL) by done. cbn [wp]. kstep.
    split; [|split].
    + rewrite u32_id by lia. unfold s32. replace (n - (n - _)) with (Z.of_nat (length bytes)) by lia. rewrite Z.mod_small by lia. lia.
    + destruct Hin as (Hh & Hno' & _). split; [split; [by apply hart_ok_touched|done]| |done|by apply cons_rep_lock].
      change (noff (touched (view cH s)) = 0). unfold touched. by destruct (noff (view cH s) =? 0).
    + exact Hm.
  - intros g x s2 (-> & Hg & rd & Hrd & Hrc2).
    eapply wp_mono; [|apply (cons_read_round kend Hk (view cH s) s.1 dst n bytes rest line) with (ready := rd); try done; lia].
    intros [x|m] s3; [|done]. intros (-> & Hg' & Hex). exists (S g). split; [|lia]. done.
  - intros g x s2 (_ & Hg & _). lia.
  - split; [f_equal; lia|]. split; [lia|]. exists ready. split; [done|]. by rewrite Nat.sub_0_r.
  - unfold budget. lia.
Qed.

(** ** Printing *)
Lemma put_chars_ok l s : Forall is_byte l -> can_print s -> wp (put_chars l s) (fun _ s' => outstep l s s').
Proof.
  intros Hl Hp. unfold put_chars. kstep.
  eapply wp_mono; [|apply (wp_for_each l _ (fun rest s' => exists done, l = done ++ rest /\ outstep done s s') (fun _ s' => outstep l s s'))].
  - intros r s' H. by kstep.
  - intros x dn rest s1 El (dn' & El' & Ho). rewrite El in El'. kstep.
    assert (is_byte x) as Hx by (rewrite El in Hl; apply Forall_app in Hl as [_ Hl]; by apply Forall_cons_iff in Hl as [? _]).
    eapply wp_mono; [|exact (consputc_ok x s1 (can_print_out _ _ _ Ho Hp))]. intros ? s2 Ho2. kstep. exists (dn' ++ [x]).
    rewrite <- app_assoc. cbn. split; [congruence|]. apply (outstep_trans _ _ _ s1); [done|].
    destruct (Z.eqb_spec x BACKSPACE) as [->|_]; [unfold is_byte, BACKSPACE in Hx; lia|].
    replace (u8 x) with x in Ho2 by (symmetry; exact (Z.mod_small x (2 ^ 8) Hx)). done.
  - intros s1 (dn & -> & Ho). by rewrite app_nil_r.
  - exists []. split; [done|apply outstep_refl].
Qed.
End console.

Lemma digit_loop_map fuel x base : digit_loop fuel x base = map digits (digits_of fuel x base).
Proof. revert x. induction fuel as [|f IH]; intros x; cbn; [done|]. destruct (x / base =? 0); cbn; [done|]. by rewrite IH. Qed.

Lemma digits_byte d : 0 <= d < 16 -> is_byte (digits d).
Proof.
  intros Hd. unfold digits. assert (Forall is_byte (str "0123456789abcdef")) as H
    by (let l := eval vm_compute in (str "0123456789abcdef") in change (str "0123456789abcdef") with l; repeat constructor; unfold is_byte; lia).
  destruct (str "0123456789abcdef" !! Z.to_nat d) eqn:E; [|unfold is_byte; cbn; lia]. cbn. by apply (proj1 (Forall_lookup _ _) H _ _ E).
Qed.

Section numbers.
Context {W : Type} `{HW : UartHw W}.
Implicit Types (s : cst W).

(** printint prints the numeral of its argument: a minus sign for a negative
    number, and then the digits of its absolute value in the given base, most
    significant first and without leading zeros; nothing else of the state of the
    drivers changes. *)
Theorem printint_prints xx base s : can_print s -> - 2 ^ 31 <= xx < 2 ^ 31 -> 2 <= base <= 16 ->
  wp (printint xx base true s) (fun _ s' => exists ds,
    outstep ((if xx <? 0 then [45] else []) ++ map digits (rev ds)) s s' /\
    Forall (fun d => 0 <= d < base) ds /\ value base ds = Z.abs xx /\ (xx = 0 -> ds = [0]) /\
    (xx <> 0 -> exists d ds', ds = ds' ++ [d] /\ d <> 0)).
Proof.
  intros Hp Hx Hb. unfold printint, int_chars. cbn [andb].
  replace (if xx <? 0 then u32 (- xx) else u32 xx) with (Z.abs xx) by (destruct (Z.ltb_spec xx 0); unfold u32; rewrite Z.mod_small; lia).
  rewrite digit_loop_map. destruct (digits_of_ok 31 (Z.abs xx) base) as (H1 & H2 & H3); [lia|change (Z.of_nat 32) with 32; lia|].
  assert (H0 : xx = 0 -> digits_of 32 (Z.abs xx) base = [0]).
  { intros ->. cbn [digits_of Z.abs]. rewrite Z.mod_0_l, Z.div_0_l by lia. done. }
  set (ds := digits_of 32 (Z.abs xx) base) in *. clearbody ds.
  replace (rev (map digits ds ++ _)) with ((if xx <? 0 then [45] else []) ++ map digits (rev ds)) by (rewrite rev_app_distr, map_rev; by destruct (xx <? 0)).
  eapply wp_mono; [|apply put_chars_ok; [|done]].
  - intros ? s' Ho. exists ds. split; [done|]. split; [done|]. split; [done|]. split; [done|]. intros. apply H3. lia.
  - apply Forall_app. split; [destruct (xx <? 0); [apply Forall_singleton; unfold is_byte; lia|done]|]. apply Forall_map, Forall_rev.
    eapply Forall_impl; [exact H1|]. intros d Hd. cbv beta in Hd. apply digits_byte. lia.
Qed.
End numbers.

(** ** Witnesses *)
Lemma fresh_console (e : uenv) : hart_ok (view envH e) -> noff (view envH e) = 0 -> console_ok (e, fresh_devs) [] [].
Proof. intros H1 H2. split; [done|done|done|]. split; [cbn; lia|done|done|by split|apply not_elem_of_nil]. Qed.

Lemma fresh_env_hart : hart_ok (view envH fresh_env).
Proof. split; [cbn; lia|split; cbn; [lia|intros; lia]]. Qed.

(** Typing a carriage return on a fresh console. *)
Lemma consoleintr_edits_witness : wp (consoleintr (ret tt) 13 (fresh_env, fresh_devs)) (fun _ s' =>
  console_ok s' [10] [] /\ bus_sent s' = [10] /\ ChanCons ∈ ue_wakes s'.1).
Proof.
  eapply wp_mono; [|apply (consoleintr_edits (ret tt) 13 (fresh_env, fresh_devs) [] [])].
  - intros ? s' (H1 & H2 & H3). split; [exact H1|]. split; [exact H2|]. by apply H3.
  - unfold is_byte. lia.
  - done.
  - by apply fresh_console; [apply fresh_env_hart|].
Defined.

(** Reading the line that consists of a newline. *)
Definition one_line : devs (list Z) := DV (d_tx fresh_devs) (set_c_w 1 (cons_store 10 (d_cons fresh_devs))) (d_pr fresh_devs) 0 [].
Lemma consoleread_line_witness : exists e, wp (consoleread 0 5 (e, one_line))
  (fun r s' => r = 1 /\ console_ok s' [] [] /\ ubyte s'.1 0 = Some 10).
Proof.
  destruct booted_env as (e & l & He & Hn & [b Hb] & _). exists e.
  eapply wp_mono; [|apply (consoleread_line end8 0 5 (e, one_line)
    [10] [] [10] [] end8_range)].
  - intros r s' (-> & H & Hm). split; [done|]. split; [done|]. by rewrite Hm by lia.
  - lia.
  - lia.
  - lia.
  - by exists l.
  - apply Forall_singleton. unfold is_byte. lia.
  - destruct (fresh_console e) as [Hp Hno Hl Hr]; [apply He|done|]. split; [done|done|done|].
    apply (cons_push_commit (d_cons fresh_devs) [] [] 10 Hr); [done|unfold is_byte; lia].
  - done.
  - intros j Hj. replace j with O by (cbn in Hj; lia). change (ubyte e 0 <> None). by rewrite Hb.
Defined.

(** -10 in base 16. *)
Lemma printint_prints_witness : wp (printint (-10) 16 true (fresh_env, fresh_devs)) (fun _ s' => exists ds,
  bus_sent s' = 45 :: map digits (rev ds) /\ value 16 ds = 10).
Proof.
  eapply wp_mono; [|apply (printint_prints (-10) 16 (fresh_env, fresh_devs))].
  - intros ? s' (ds & Ho & _ & Hv & _). exists ds. split; [|exact Hv]. exact (os_sent _ _ _ Ho).
  - by split; [apply fresh_env_hart|].
  - lia.
  - lia.
Defined.
