(* ===== verification/SysSpec.v ===== *)
(** * Correctness of system calls on files and mappings *)
From S2P Require Import Prelude Machine KString Spinlock Kalloc Vm UserMem VmSpec Block Env Pipe Log Txn Fs FsPath State File Proc ProcSpec Args Exec Sysfile Mmap Bio FsSpec.
Local Open Scope Z_scope.
Local Open Scope kernel_scope.

Section args.
Context {T D : Type}.
Implicit Types (k : kst T D) (p : nat).

(** Process [p] is running on the hart. *)
Definition running p k : Prop := hart_ok (view kH k) /\ cproc (view kH k) = Some p.

Lemma running_touch p k : running p k -> running p (touch k).
Proof. intros [H1 H2]. split; [by apply hart_ok_touched|]. cbn. unfold touched. by destruct (_ =? 0). Qed.

Lemma myproc_run_k p k : running p k -> myproc_ k = Done p (touch k).
Proof.
  intros [Hh Hp]. unfold myproc_. erewrite bind_Done by (apply zoom_Done, myproc_run, Hh). rewrite Hp. done.
Qed.

(** The register the system call's argument [n] is in. *)
Definition arg p k (n : Z) : Z := load64 (pm_mem (k_pm k)) (p_trapframe (getp (k_procs k) p) + TF_a n).

Lemma argraw_run p k n : running p k -> 0 <= n <= 5 -> argraw n k = Done (arg p k n) (touch k).
Proof.
  intros Hr Hn. unfold argraw. erewrite bind_Done by by apply myproc_run_k.
  destruct (Z.leb_spec 0 n); [|lia]. destruct (Z.leb_spec n 5); [|lia]. done.
Qed.

Lemma argint_run p k n : running p k -> 0 <= n <= 5 -> argint n k = Done (s32 (arg p k n)) (touch k).
Proof. intros. unfold argint. by erewrite bind_Done by by apply argraw_run. Qed.

Lemma arg_touch p k n : arg p (touch k) n = arg p k n.
Proof. done. Qed.

#[export] Instance kH_ok : LensOk (@kH T D).
Proof. split; try done. by intros [[] ? ? ? ? ? ? ? ? ? ? ? ? ? ?]. Qed.
#[export] Instance kFtL_ok : LensOk (@kFtL T D).
Proof. split; try done. by intros [? ? ? ? ? [] ? ? ? ? ? ? ? ? ?]. Qed.
#[export] Instance kHFt_disj : LensDisj (@kH T D) (@kFtL T D).
Proof. done. Qed.

(** The file [f] of the table, with its lock free. *)
Definition file_at (f : nat) (x : file) k : Prop := ft_file (k_ft k) !! f = Some x /\ free_lock (ft_lock (k_ft k)).

Lemma file_at_touch f x k : file_at f x k -> file_at f x (touch k).
Proof. done. Qed.

Definition ft_held k : kst T D := over kFtL (taken (view kFtL k) (view kH k)) (over kH (pushed (view kH k)) k).
Definition upd_files (g : list file -> list file) : kst T D -> kst T D := upd_ft (fun t => mkFT (ft_lock t) (g (ft_file t))).

Lemma ft_acquire k : free_lock (ft_lock (k_ft k)) -> acquire kH kFtL k = Done tt (ft_held k).
Proof. intros [H _]. exact (acquire_free kH kFtL k H). Qed.

Lemma ft_release g k : free_lock (ft_lock (k_ft k)) -> hart_ok (view kH k) ->
  release kH kFtL (upd_files g (ft_held k)) = Done tt (upd_files g (touch k)).
Proof.
  intros [El Ec] Hh. rewrite (release_taken kH kFtL _ (view kH k)) by done. f_equal. destruct k as [? ? ? ? ? [[] ?] ? ? ? ? ? ? ? ? ?].
  cbn in *. by subst.
Qed.

Lemma getf_Some (l : list file) i x : l !! i = Some x -> getf l i = x.
Proof. unfold getf. by intros ->. Qed.

Lemma filedup_run f x k : hart_ok (view kH k) -> file_at f x k -> 1 <= fl_ref x ->
  filedup f k = Done f (upd_file f (set_fl_ref (fl_ref x + 1)) (touch k)).
Proof.
  intros Hh [Ex Hl] Hr. unfold filedup. erewrite bind_Done by by apply ft_acquire. erewrite bind_Done by reflexivity.
  change (getf (ft_file (k_ft (ft_held k))) f) with (getf (ft_file (k_ft k)) f). rewrite (getf_Some _ _ _ Ex).
  destruct (Z.ltb_spec (fl_ref x) 1); [lia|]. erewrite bind_Done by reflexivity.
  erewrite bind_Done by (by apply (ft_release (alter (set_fl_ref (fl_ref x + 1)) f))). done.
Qed.

(** Dropping a reference that is not the last. *)
Lemma fileclose_shared {B dev logstart nlog} `{TS : !TxnStore T B dev logstart nlog} kend f x k :
  hart_ok (view kH k) -> file_at f x k -> 2 <= fl_ref x ->
  fileclose kend f k = Done tt (upd_file f (set_fl_ref (fl_ref x - 1)) (touch k)).
Proof.
  intros Hh [Ex Hl] Hr. unfold fileclose. erewrite bind_Done by by apply ft_acquire. erewrite bind_Done by reflexivity.
  change (getf (ft_file (k_ft (ft_held k))) f) with (getf (ft_file (k_ft k)) f). rewrite (getf_Some _ _ _ Ex).
  destruct (Z.ltb_spec (fl_ref x) 1); [lia|]. erewrite bind_Done by reflexivity. destruct (Z.ltb_spec 0 (fl_ref x - 1)); [|lia].
  by apply (ft_release (alter (set_fl_ref (fl_ref x - 1)) f)).
Qed.

(** ** Descriptors *)
Lemma argfd_run p q k n fd f : running p k -> 0 <= n <= 5 -> k_procs k !! p = Some q -> s32 (arg p k n) = Z.of_nat fd ->
  (fd < Z.to_nat NOFILE)%nat -> p_ofile q !! fd = Some (Some f) -> argfd n k = Done (Some (fd, f)) (touch k).
Proof.
  intros Hr Hn Eq Ea Hfd Ef. unfold argfd. erewrite bind_Done by by apply argint_run. rewrite Ea.
  destruct (Z.ltb_spec (Z.of_nat fd) 0); [lia|]. destruct (Z.leb_spec NOFILE (Z.of_nat fd)); [unfold NOFILE in *; lia|]. cbn [orb].
  erewrite bind_Done by (by apply myproc_run_k, running_touch). rewrite touch_touch. erewrite bind_Done by reflexivity.
  change (k_procs (touch k)) with (k_procs k). rewrite (getp_Some _ _ _ Eq), Nat2Z.id, Ef. done.
Qed.

(** A search for the first index with a property, in a table of [n] entries. *)
Lemma for_each_first {S R} (P : nat -> bool) (body : nat -> K S (option R)) a n s o :
  (forall i, (a <= i < a + n)%nat -> P i = false -> body i s = Done None s) ->
  (forall i, (a <= i < a + n)%nat -> P i = true -> (forall j, (a <= j < i)%nat -> P j = false) -> exists r s', body i s = Done (Some r) s' /\ o = Done (Some r) s') ->
  (exists i, (a <= i < a + n)%nat /\ P i = true) -> for_each (seq a n) body s = o.
Proof.
  revert a. induction n as [|n IH]; intros a Hf Ht [i [Hi Hp]]; [lia|]. cbn [seq for_each]. destruct (P a) eqn:E.
  - destruct (Ht a) as (r & s' & Hb & ->); [lia|done|intros; lia|]. by erewrite bind_Done by exact Hb.
  - erewrite bind_Done by (apply Hf; [lia|done]). apply IH.
    + intros j Hj. apply Hf. lia.
    + intros j Hj Hpj Hbefore. apply Ht; [lia|done|]. intros j' Hj'. destruct (decide (j' = a)) as [->|]; [done|apply Hbefore; lia].
    + exists i. split; [|done]. destruct (decide (i = a)) as [->|]; [congruence|lia].
Qed.

Lemma first_below (P : nat -> bool) n :
  (exists i, (i < n)%nat /\ P i = true /\ forall j, (j < i)%nat -> P j = false) \/ forall j, (j < n)%nat -> P j = false.
Proof.
  induction n as [|n [(i & H1 & H2)|H]]; [right; intros; lia|left; exists i; split; [lia|done]|]. destruct (P n) eqn:E.
  - left. exists n. split; [lia|done].
  - right. intros j Hj. destruct (decide (j = n)) as [->|]; [done|apply H; lia].
Qed.

Lemma first_index (P : nat -> bool) i0 : P i0 = true -> exists i, (i <= i0)%nat /\ P i = true /\ forall j, (j < i)%nat -> P j = false.
Proof.
  intros H0. destruct (first_below P (S i0)) as [(i & H1 & H2)|H1]; [exists i; split; [lia|done]|]. rewrite H1 in H0 by lia. done.
Qed.

Lemma for_each_none {S R} (body : nat -> K S (option R)) l s :
  (forall i, i ∈ l -> body i s = Done None s) -> for_each l body s = Done None s.
Proof.
  induction l as [|i l IH]; intros H; [done|]. cbn [for_each]. erewrite bind_Done by (apply H, elem_of_cons; by left).
  apply IH. intros j Hj. apply H, elem_of_cons. by right.
Qed.

(** ** dup *)
Definition free_fd (q : proc) (fd : nat) : bool := match mjoin (p_ofile q !! fd) with None => true | Some _ => false end.

Lemma fdalloc_run p q k f fd : running p k -> k_procs k !! p = Some q -> (fd < Z.to_nat NOFILE)%nat -> free_fd q fd = true ->
  (forall j, (j < fd)%nat -> free_fd q j = false) -> fdalloc f k = Done (Z.of_nat fd) (upd_proc p (set_ofile fd (Some f)) (touch k)).
Proof.
  intros Hrun Eq Hfd Hfree Hbefore. unfold fdalloc. erewrite bind_Done by by apply myproc_run_k.
  rewrite (bind_Done _ _ _ (Some (Z.of_nat fd)) (upd_proc p (set_ofile fd (Some f)) (touch k))); [done|].
  apply (for_each_first (free_fd q)).
  - intros j Hj Hjs. erewrite bind_Done by reflexivity. change (k_procs (touch k)) with (k_procs k). rewrite (getp_Some _ _ _ Eq).
    unfold free_fd in Hjs. by destruct (mjoin _).
  - intros j Hj Hjs Hjb. assert (j = fd) as ->.
    { destruct (lt_eq_lt_dec fd j) as [[Hlt|E]|Hlt]; [|done|].
      - specialize (Hjb fd ltac:(lia)). congruence.
      - specialize (Hbefore j ltac:(lia)). congruence. }
    eexists _, _. split; [|reflexivity]. erewrite bind_Done by reflexivity. change (k_procs (touch k)) with (k_procs k).
    rewrite (getp_Some _ _ _ Eq). unfold free_fd in Hjs. by destruct (mjoin _).
  - exists fd. split; [lia|done].
Qed.

Lemma fdalloc_full p q k f : running p k -> k_procs k !! p = Some q -> (forall j, (j < Z.to_nat NOFILE)%nat -> free_fd q j = false) ->
  fdalloc f k = Done (-1) (touch k).
Proof.
  intros Hrun Eq Hfull. unfold fdalloc. erewrite bind_Done by by apply myproc_run_k.
  erewrite bind_Done; [|apply for_each_none]; [reflexivity|]. intros j Hj%elem_of_seq. erewrite bind_Done by reflexivity.
  change (k_procs (touch k)) with (k_procs k). rewrite (getp_Some _ _ _ Eq). specialize (Hfull j ltac:(lia)).
  unfold free_fd in Hfull. by destruct (mjoin _).
Qed.

(** dup of an open descriptor makes the lowest free descriptor refer to the
    same open file, counts the new reference and returns that descriptor; when
    all descriptors are in use it returns -1.  Nothing else changes. *)
Theorem sys_dup_shares p q k fd f x : running p k -> k_procs k !! p = Some q -> s32 (arg p k 0) = Z.of_nat fd ->
  (fd < Z.to_nat NOFILE)%nat -> p_ofile q !! fd = Some (Some f) -> length (p_ofile q) = Z.to_nat NOFILE ->
  file_at f x k -> 1 <= fl_ref x ->
  (exists fd', p_ofile q !! fd' = Some None /\ (forall j, (j < fd')%nat -> p_ofile q !! j <> Some None) /\
     sys_dup k = Done (Z.of_nat fd') (upd_file f (set_fl_ref (fl_ref x + 1)) (upd_proc p (set_ofile fd' (Some f)) (touch k)))) \/
  ((forall j, p_ofile q !! j <> Some None) /\ sys_dup k = Done (-1) (touch k)).
Proof.
  intros Hrun Eq Ea Hfd Ef Hlen Hf Hx.
  assert (Hiff : forall j, (j < Z.to_nat NOFILE)%nat -> free_fd q j = true <-> p_ofile q !! j = Some None).
  { intros j Hj. unfold free_fd. destruct (lookup_lt_is_Some_2 (p_ofile q) j) as [[g|] ->]; [lia|by split|by split]. }
  unfold sys_dup. erewrite bind_Done by (by apply (argfd_run p q _ _ fd f)).
  destruct (first_below (free_fd q) (Z.to_nat NOFILE)) as [(fd' & Hle & Hs & Hb)|Hnone].
  - left. exists fd'. split; [by apply Hiff|]. split; [intros j Hj E; apply Hiff in E; [|lia]; rewrite Hb in E by done; discriminate E|].
    erewrite bind_Done by (apply (fdalloc_run p q _ _ fd'); [by apply running_touch|done..]). rewrite touch_touch.
    destruct (Z.ltb_spec (Z.of_nat fd') 0); [lia|].
    rewrite (bind_Done _ _ _ _ _ (filedup_run f x (upd_proc p (set_ofile fd' (Some f)) (touch k)) (hart_ok_touched _ (proj1 Hrun)) Hf Hx)).
    change (touch (upd_proc p ?g (touch k))) with (upd_proc p g (touch (touch k))). by rewrite touch_touch.
  - right. split.
    + intros j E. pose proof (lookup_lt_Some _ _ _ E) as Hj. rewrite Hlen in Hj. apply Hiff in E; [|done].
      rewrite Hnone in E by done. discriminate E.
    + erewrite bind_Done by (apply (fdalloc_full p q); [by apply running_touch|done|done]). by rewrite touch_touch.
Qed.

(** ** mmap *)
(** The mappings of a process lie below its size and do not overlap. *)
Record vmas_wf (q : proc) : Prop := {
  vw_len : length (p_vma q) = Z.to_nat MAXMMAPITEM;
  vw_range : forall i m, p_vma q !! i = Some m -> vma_used m <> 0 ->
    0 <= vma_addr m /\ 0 <= vma_length m /\ vma_addr m + vma_length m <= p_sz q;
  vw_disjoint : forall i j m m', i <> j -> p_vma q !! i = Some m -> p_vma q !! j = Some m' -> vma_used m <> 0 -> vma_used m' <> 0 ->
    vma_addr m + vma_length m <= vma_addr m' \/ vma_addr m' + vma_length m' <= vma_addr m
}.

Definition new_vma (sz len prot flags : Z) (fd f : nat) : mmapitem := mkVma 1 sz len prot flags (Z.of_nat fd) f 0.
Definition with_vma (i : nat) (m : mmapitem) (sz : Z) (q : proc) : proc := set_p_sz sz (set_vma i m q).

Lemma vmas_wf_add i q len prot flags fd f : vmas_wf q -> (i < Z.to_nat MAXMMAPITEM)%nat -> 0 <= p_sz q -> 0 <= len ->
  vmas_wf (with_vma i (new_vma (p_sz q) len prot flags fd f) (p_sz q + len) q).
Proof.
  intros [H1 H2 H3] Hi Hsz Hlen. split; cbn.
  - by rewrite length_insert.
  - intros j m Hj Hu. apply list_lookup_insert_Some in Hj as [(-> & <- & _)|[_ Hj]]; [cbn; lia|]. specialize (H2 _ _ Hj Hu). lia.
  - intros j j' m m' Hne Hj Hj' Hu Hu'. apply list_lookup_insert_Some in Hj as [(-> & <- & _)|[_ Hj]];
      apply list_lookup_insert_Some in Hj' as [(-> & <- & _)|[_ Hj']]; cbn.
    + done.
    + right. specialize (H2 _ _ Hj' Hu'). lia.
    + left. specialize (H2 _ _ Hj Hu). lia.
    + by apply (H3 j j').
Qed.

Definition free_slot (q : proc) (i : nat) : bool := vma_used (getv (p_vma q) i) =? 0.

Lemma mmap_entry i p q k f x len prot flags fd : running p k -> k_procs k !! p = Some q -> file_at f x k -> 1 <= fl_ref x ->
  (i < length (p_vma q))%nat -> 0 <= p_sz q -> 0 <= len -> p_sz q + len < 2 ^ 64 -> free_slot q i = true ->
  (m <- proc_get p (fun q => getv (p_vma q) i);;
   if vma_used m =? 0 then
     sz <- proc_get p p_sz;;
     proc_upd p (set_vma i (mkVma 1 sz len prot flags (Z.of_nat fd) f 0));;
     _ <- filedup f;;
     proc_upd p (fun q => set_p_sz (u64 (p_sz q + len)) q);;
     m <- proc_get p (fun q => getv (p_vma q) i);;
     ret (Some (vma_addr m))
   else ret None) k =
  Done (Some (p_sz q)) (upd_proc p (with_vma i (new_vma (p_sz q) len prot flags fd f) (p_sz q + len))
                                   (upd_file f (set_fl_ref (fl_ref x + 1)) (touch k))).
Proof.
  intros [Hh _] Eq Hf Hx Hi Hsz Hlen Hlt Hs. erewrite bind_Done by reflexivity. rewrite (getp_Some _ _ _ Eq).
  unfold free_slot in Hs. rewrite Hs. erewrite bind_Done by reflexivity. rewrite (getp_Some _ _ _ Eq).
  erewrite bind_Done by reflexivity. erewrite bind_Done by (by apply (filedup_run f x)). erewrite bind_Done by reflexivity.
  change (upd_file f ?g (touch (upd_proc p ?h k))) with (upd_proc p h (upd_file f g (touch k))). rewrite upd_proc_compose.
  set (k2 := upd_file f _ (touch k)). assert (Eq2 : k_procs k2 !! p = Some q) by exact Eq. clearbody k2.
  rewrite (upd_proc_ext p _ (with_vma i (new_vma (p_sz q) len prot flags fd f) (p_sz q + len)) k2 q Eq2).
  - erewrite bind_Done by reflexivity. rewrite upd_proc_procs. unfold getp. rewrite list_lookup_alter_eq, Eq2. cbn.
    unfold getv. rewrite list_lookup_insert_eq by done. done.
  - cbn. unfold with_vma, new_vma. cbn. unfold u64. rewrite Z.mod_small by lia. done.
Qed.

(** A call mmap(0, len, prot, flags, fd, 0) by process [p], whose entry is [q],
    with the open file [x] at index [f]. *)
Record mmap_call p q k (fd f : nat) (x : file) (len prot flags : Z) : Prop := {
  mc_running : running p k;
  mc_proc : k_procs k !! p = Some q;
  mc_addr : arg p k 0 = 0;
  mc_len : s32 (arg p k 1) = len;
  mc_prot : s32 (arg p k 2) = prot;
  mc_flags : s32 (arg p k 3) = flags;
  mc_fd : s32 (arg p k 4) = Z.of_nat fd /\ (fd < Z.to_nat NOFILE)%nat /\ p_ofile q !! fd = Some (Some f);
  mc_offset : s32 (arg p k 5) = 0;
  mc_file : file_at f x k /\ 1 <= fl_ref x;
  mc_allowed : (fl_writable x =? 0) && negb (Z.land prot PROT_WRITE =? 0) && (flags =? MAP_SHARED) = false
}.

(** C33.  mmap of an open file, within the permissions of the descriptor and with a
    free entry: it returns the old size of the process, records the new mapping
    in the first free entry, extends the size by the length and takes a reference
    to the file.  The mappings stay below the size and disjoint, and nothing else
    changes. *)
Theorem sys_mmap_maps p q k fd f x len prot flags : mmap_call p q k fd f x len prot flags -> vmas_wf q ->
  0 <= len -> 0 <= p_sz q -> p_sz q + len < 2 ^ 64 -> (exists i m, p_vma q !! i = Some m /\ vma_used m = 0) ->
  exists i m q', p_vma q !! i = Some m /\ vma_used m = 0 /\
    (forall j m', (j < i)%nat -> p_vma q !! j = Some m' -> vma_used m' <> 0) /\
    q' = set_p_sz (p_sz q + len) (set_vma i (mkVma 1 (p_sz q) len prot flags (Z.of_nat fd) f 0) q) /\ vmas_wf q' /\
    sys_mmap k = Done (p_sz q) (upd_proc p (fun _ => q') (upd_file f (set_fl_ref (fl_ref x + 1)) (touch k))).
Proof.
  intros [Hrun Eq Ha El Ep Efl (Efd & Hfd & Eof) Eo [Hf Hx] Hok] Hwf Hlen Hsz Hlt (i0 & m0 & Ei0 & Hu0).
  pose proof (lookup_lt_Some _ _ _ Ei0) as Hi0. pose proof (vw_len _ Hwf) as Hvl.
  destruct (first_index (free_slot q) i0) as (i & Hi & Hs & Hbefore).
  { unfold free_slot, getv. rewrite Ei0. cbn. by rewrite Hu0. }
  destruct (lookup_lt_is_Some_2 (p_vma q) i) as [m Em]; [lia|]. exists i, m.
  eexists. split; [done|]. split; [unfold free_slot, getv in Hs; rewrite Em in Hs; by apply Z.eqb_eq in Hs|].
  split; [intros j m' Hj Ej E; specialize (Hbefore j Hj); unfold free_slot, getv in Hbefore; rewrite Ej in Hbefore; cbn in Hbefore; by rewrite E in Hbefore|].
  split; [reflexivity|]. split; [apply vmas_wf_add; [done|lia|done|done]|].
  unfold sys_mmap, argaddr. erewrite bind_Done by by apply argraw_run.
  do 3 (erewrite bind_Done by (by apply argint_run; [apply running_touch|]); rewrite ?touch_touch, ?arg_touch).
  erewrite bind_Done by (by apply (argfd_run p q _ _ fd f); [apply running_touch|..]). rewrite touch_touch.
  erewrite bind_Done by (by apply argint_run; [apply running_touch|]). rewrite touch_touch, arg_touch.
  rewrite Ha, El, Ep, Efl, Eo. cbn [Z.eqb negb orb]. destruct (Z.ltb_spec len 0); [lia|].
  erewrite bind_Done by reflexivity. change (k_ft (touch k)) with (k_ft k). rewrite (getf_Some _ _ _ (proj1 Hf)), Hok.
  erewrite bind_Done by (by apply myproc_run_k, running_touch). rewrite touch_touch.
  eapply eq_trans; [apply (bind_Done _ _ _ (Some (p_sz q)) (upd_proc p (with_vma i (new_vma (p_sz q) len prot flags fd f) (p_sz q + len))
    (upd_file f (set_fl_ref (fl_ref x + 1)) (touch k))))|unfold ret; f_equal; by apply (upd_proc_ext p _ _ _ q)].
  apply (for_each_first (free_slot q)).
  - intros j Hj Hjs. erewrite bind_Done by reflexivity. change (k_procs (touch k)) with (k_procs k). rewrite (getp_Some _ _ _ Eq).
    unfold free_slot in Hjs. by rewrite Hjs.
  - intros j Hj Hjs Hjb. assert (j = i) as ->.
    { destruct (lt_eq_lt_dec i j) as [[Hlt'|E]|Hlt']; [|done|].
      - specialize (Hjb i ltac:(lia)). congruence.
      - specialize (Hbefore j ltac:(lia)). congruence. }
    exists (p_sz q). eexists. split.
    + apply (mmap_entry i p q (touch k) f x); [by apply running_touch|done|done|done|lia|done|done|done|done].
    + by rewrite touch_touch.
  - exists i. split; [lia|done].
Qed.


Lemma for_each_hd {S R} x l (body : nat -> K S (option R)) s r s' : body x s = Done (Some r) s' -> for_each (x :: l) body s = Done (Some r) s'.
Proof. intros E. cbn [for_each]. by erewrite bind_Done by exact E. Qed.

Section handler.
Context {B : Type} {dev logstart nlog : Z} `{TS : !TxnStore T B dev logstart nlog} (kend : Z).

(** C38.  The page-fault handler takes its address as an int: for a fault at an
    address from 2^31 to 2^32 it fails whatever is mapped there, since the
    address is sign-extended before it is compared with the mappings. *)
Theorem mmap_handler_high p q k va cause : running p k -> k_procs k !! p = Some q -> 2 ^ 31 <= va < 2 ^ 32 ->
  (forall i m, p_vma q !! i = Some m -> 0 <= vma_addr m /\ 0 <= vma_length m /\ vma_addr m + vma_length m <= MAXVA) ->
  mmap_handler kend (s32 va) cause k = Done (-1) (touch k).
Proof.
  intros Hrun Eq Hva Hm. unfold mmap_handler. erewrite bind_Done by by apply myproc_run_k.
  erewrite bind_Done; [|apply for_each_none]; [reflexivity|]. intros i _. erewrite bind_Done by reflexivity.
  change (k_procs (touch k)) with (k_procs k). rewrite (getp_Some _ _ _ Eq). unfold in_vma, getv.
  replace (u64 (s32 va)) with (va + 2 ^ 64 - 2 ^ 32) by (unfold s32, u64; Z.div_mod_to_equations; lia).
  destruct (p_vma q !! i) as [m|] eqn:Em; cbn [default id]; [|done].
  destruct (Hm i m Em) as (H1 & H2 & H3). change MAXVA with (2 ^ 38) in H3.
  destruct (Z.ltb_spec (va + 2 ^ 64 - 2 ^ 32) (u64 (vma_addr m + vma_length m))) as [Hlt|]; [|by rewrite andb_false_r].
  unfold u64 in Hlt. rewrite Z.mod_small in Hlt by lia. lia.
Qed.

Lemma uvmunmap_none root va s : va mod PGSIZE = 0 -> 0 <= va < 2 ^ 64 -> uvmunmap kend root va 0 true s = Done tt s.
Proof.
  intros Ha Hva. unfold uvmunmap. rewrite Ha. cbn [Z.eqb negb]. apply while_exit. rewrite Z.mul_0_l, Z.add_0_r.
  unfold u64. rewrite Z.mod_small, Z.ltb_irrefl by done. done.
Qed.

Context (dev_write : Z -> option (Z -> Z -> K (uenv * D) Z)).

(** munmap looks for its mapping by length alone: a call with the length of
    the mapping in the first entry releases that mapping, whatever page-aligned
    address other than its own it is given, and returns 0.  This is for a mapping of
    less than a page, so that no page is unmapped at that address, which is private
    and whose file is open elsewhere. *)
Theorem munmap_any_address p q k m x : running p k -> k_procs k !! p = Some q -> p_vma q !! O = Some m -> vma_used m <> 0 ->
  s32 (arg p k 1) = vma_length m -> 0 < vma_length m < PGSIZE -> vma_flags m <> MAP_SHARED ->
  0 <= arg p k 0 < 2 ^ 64 -> arg p k 0 mod PGSIZE = 0 -> arg p k 0 <> vma_addr m ->
  file_at (vma_vfile m) x k -> 2 <= fl_ref x ->
  sys_munmap kend dev_write k =
  Done 0 (upd_proc p (set_vma 0 (set_vma_used 0 (set_vma_range (vma_addr m) 0 m)))
                   (upd_file (vma_vfile m) (set_fl_ref (fl_ref x - 1)) (touch k))).
Proof.
  intros Hrun Eq Em Hu El Hlen Hfl Ha Hal Hne Hf Hx. set (m1 := set_vma_range (vma_addr m) 0 m).
  assert (Hcut : cut_vma (arg p k 0) (vma_length m) m = Some m1).
  { unfold cut_vma. destruct (Z.eqb_spec (vma_used m) 0); [done|]. rewrite Z.leb_refl. cbn [negb andb].
    destruct (Z.eqb_spec (vma_addr m) (arg p k 0)); [congruence|]. rewrite Z.eqb_refl. unfold m1. do 2 f_equal. rewrite Z.sub_diag. done. }
  unfold sys_munmap, argaddr. erewrite bind_Done by by apply argraw_run.
  erewrite bind_Done by (by apply argint_run; [apply running_touch|]). rewrite touch_touch, arg_touch, El.
  erewrite bind_Done by (by apply myproc_run_k, running_touch). rewrite touch_touch.
  set (k1 := upd_proc p (set_vma 0 m1) (touch k)).
  assert (Hq1 : k_procs k1 !! p = Some (set_vma 0 m1 q)).
  { unfold k1. rewrite upd_proc_procs, list_lookup_alter_eq. change (k_procs (touch k)) with (k_procs k). by rewrite Eq. }
  assert (Hv1 : getv (p_vma (set_vma 0 m1 q)) 0 = m1).
  { unfold getv. cbn. rewrite list_lookup_insert_eq; [done|]. by apply lookup_lt_Some in Em. }
  rewrite (bind_Done _ _ _ (Some 0%nat) k1); cycle 1.
  { apply (for_each_hd 0%nat (seq 1 15)). erewrite bind_Done by reflexivity. change (k_procs (touch k)) with (k_procs k).
    rewrite (getp_Some _ _ _ Eq). unfold getv. rewrite Em. cbn [default id]. rewrite Hcut. reflexivity. }
  cbn beta iota. erewrite bind_Done by reflexivity. rewrite (getp_Some _ _ _ Hq1), Hv1. cbn [m1 set_vma_range vma_flags vma_prot vma_length].
  destruct (Z.eqb_spec (vma_flags m) MAP_SHARED); [done|]. cbn [andb]. erewrite bind_Done by reflexivity. erewrite bind_Done by reflexivity.
  rewrite Z.quot_small by lia. change (u64 0) with 0.
  erewrite bind_Done by (apply zoom_Done, uvmunmap_none; done). erewrite bind_Done by reflexivity.
  replace (over kP (view kP k1) k1) with k1 by by destruct k. rewrite (getp_Some _ _ _ Hq1), Hv1. cbn [m1 set_vma_range vma_length vma_vfile Z.eqb].
  rewrite (bind_Done _ _ _ _ _ (fileclose_shared kend (vma_vfile m) x k1 (hart_ok_touched _ (proj1 Hrun)) Hf Hx)).
  unfold ret, proc_upd, bind, modify. cbn [obind]. f_equal.
  change (upd_file ?f ?g (touch k1)) with (upd_proc p (set_vma 0 m1) (upd_file f g (touch (touch k)))). rewrite touch_touch, upd_proc_compose.
  apply (upd_proc_ext p _ _ _ q); [done|]. unfold compose, set_vma. cbn [p_vma set_p_vma]. by rewrite list_insert_insert_eq.
Qed.
End handler.
End args.

(** ** Witnesses: process 0 with two mappings of the file 0 and a trapframe *)
Definition tf_page : Z := 0x87000000.
Definition sys_mem (args : list Z) : gmap Z Z :=
  foldr (fun na m => store64 m (tf_page + TF_a na.1) na.2) ∅ (zip (seqZ 0 6) args).
Definition sys_proc (vmas : list mmapitem) : proc :=
  set_p_trapframe tf_page (set_p_sz (2 * PGSIZE) (set_ofile 3 (Some O) (set_p_vma (vmas ++ replicate (16 - length vmas) no_vma) (set_p_state RUNNING no_proc)))).
Definition sys_kernel {T} (t : T) (args : list Z) (vmas : list mmapitem) : kst T unit :=
  KS (PM (mkHart 0 2 0 false (Some O)) (initlock "kmem") 0 (sys_mem args)) [] t (mkIC (initlock "icache") [])
     (get_sb (replicate bsize 0)) (mkFT (initlock "ftable") [mkFile FD_INODE 3 1 1 0 O 0 0]) ∅ [sys_proc vmas]
     (initlock "nextpid") 8 0 (initlock "time") 0 0 tt.

Lemma sys_kernel_running {T} (t : T) args vmas : running 0 (sys_kernel t args vmas).
Proof. split; [split; [cbn; lia|split; cbn; [lia|intros; lia]]|done]. Qed.

Lemma sys_dup_shares_witness : exists k' : kst unit unit, sys_dup (sys_kernel tt [3] []) = Done 0 k' /\
  mjoin (p_ofile (getp (k_procs k') 0) !! 0%nat) = Some 0%nat.
Proof.
  destruct (sys_dup_shares 0 (sys_proc []) (sys_kernel tt [3] []) 3 0 (mkFile FD_INODE 3 1 1 0 O 0 0)) as [(fd & H1 & H2 & E)|[H _]].
  - apply sys_kernel_running.
  - done.
  - by vm_compute.
  - vm_compute. lia.
  - done.
  - done.
  - done.
  - by vm_compute.
  - destruct fd as [|fd]; [|by destruct (H2 0%nat); [lia|]]. eexists. split; [exact E|done].
  - by destruct (H 0%nat).
Defined.

Lemma sys_mmap_maps_witness : exists k' : kst unit unit,
  sys_mmap (sys_kernel tt [0; 100; 1; 2; 3; 0] []) = Done 8192 k' /\ p_sz (getp (k_procs k') 0) = 8292.
Proof.
  destruct (sys_mmap_maps 0 (sys_proc []) (sys_kernel tt [0; 100; 1; 2; 3; 0] []) 3 0 (mkFile FD_INODE 3 1 1 0 O 0 0) 100 1 2)
    as (i & m & q' & Hi & _ & _ & -> & _ & E).
  - split; [apply sys_kernel_running|by vm_compute..| |by vm_compute| |done]; split_and!; first [by vm_compute|vm_compute; lia].
  - split; [done|intros i m Hi Hu|intros i j m m' _ Hi _ Hu _]. all: exfalso; change (replicate 16 no_vma !! i = Some m) in Hi; apply lookup_replicate in Hi as [-> _]; done.
  - lia.
  - by vm_compute.
  - by vm_compute.
  - by exists 0%nat, no_vma.
  - eexists. split; [exact E|]. done.
Defined.

Local Instance sys_cache : BlockCache bcache nat 1 := bio_cache 1 ltac:(done).
Local Instance sys_store : TxnStore (log * bcache) nat 1 2 30 := log_store 2 30.

(** A fault at 2^31, which the mapping in the first entry contains. *)
Definition high_vma : mmapitem := mkVma 1 (2 ^ 31 - 2 * PGSIZE) (4 * PGSIZE) 1 MAP_PRIVATE 3 O 0.
Lemma mmap_handler_high_witness : exists (t : log * bcache) k',
  mmap_handler end8 (s32 (2 ^ 31)) 13 (sys_kernel t [] [high_vma]) = Done (-1) k' /\
  vma_addr high_vma <= 2 ^ 31 < vma_addr high_vma + vma_length high_vma.
Proof.
  destruct root_fs as (s & _). exists (f_t s). eexists. split; [|by vm_compute].
  apply (mmap_handler_high end8 0 (sys_proc [high_vma]) (sys_kernel (f_t s) [] [high_vma]) (2 ^ 31) 13).
  - apply sys_kernel_running.
  - done.
  - lia.
  - intros [|i] m Hi; [injection Hi as <-; by vm_compute|]. change (replicate 15 no_vma !! i = Some m) in Hi. apply lookup_replicate in Hi as [-> _]. by vm_compute.
Defined.

(** munmap at the address of the second of two mappings of the same length. *)
Definition vma_a : mmapitem := mkVma 1 0 100 1 MAP_PRIVATE 3 O 0.
Definition vma_b : mmapitem := mkVma 1 PGSIZE 100 1 MAP_PRIVATE 3 O 0.
Lemma munmap_any_address_witness : exists (t : log * bcache) k',
  sys_munmap end8 (fun _ => None) (sys_kernel t [PGSIZE; 100] [vma_a; vma_b]) = Done 0 k' /\
  vma_used (getv (p_vma (getp (k_procs k') 0)) 0) = 0 /\ getv (p_vma (getp (k_procs k') 0)) 1 = vma_b.
Proof.
  destruct root_fs as (s & _). exists (f_t s). eexists. split.
  - apply (munmap_any_address end8 (fun _ => None) 0 (sys_proc [vma_a; vma_b]) (sys_kernel (f_t s) [PGSIZE; 100] [vma_a; vma_b]) vma_a
      (mkFile FD_INODE 3 1 1 0 O 0 0)); first [apply sys_kernel_running|by vm_compute].
  - done.
Defined.
