(* ===== verification/User.v ===== *)
(** * The system calls as user programs see them (user/user.h)

    A user program is modelled in the monad of the kernel's code, over a state
    [W] that stands for everything outside the program: a system call is an
    operation on it ([Os]).  exit() gives the processor away for ever.  [OsIo]
    states what the programs' theorems rely on of the file system calls: a
    descriptor open for reading gives the bytes of its file in order, in pieces of
    the kernel's choice; one open for writing takes all bytes; open() gives a
    descriptor that was not in use. *)
From S2P Require Import Prelude Machine.
Local Open Scope Z_scope.
Local Open Scope kernel_scope.

Class Os (W : Type) := {
  os_read : Z -> Z -> W -> Z * list Z * W;   (* the result and the bytes stored *)
  os_write : Z -> list Z -> W -> Z * W;
  os_open : list Z -> Z -> W -> Z * W;
  os_close : Z -> W -> Z * W;
  os_exit : Z -> W -> W;
  os_fork : W -> Z * W;                      (* what this process sees of it *)
  os_wait : W -> Z * Z * W;                  (* the result and the status stored *)
  os_exec : list Z -> list (list Z) -> W -> option Z * W;  (* no result: another program runs *)
  os_pipe : W -> Z * (Z * Z) * W;
  os_dup : Z -> W -> Z * W;
  os_chdir : list Z -> W -> Z * W;
  os_mkdir : list Z -> W -> Z * W;
  os_mknod : list Z -> Z -> Z -> W -> Z * W;
  os_link : list Z -> list Z -> W -> Z * W;
  os_unlink : list Z -> W -> Z * W;
  os_fstat : Z -> W -> Z * (Z * Z * Z * Z * Z) * W;  (* dev, ino, type, nlink, size *)
  os_kill : Z -> W -> Z * W;
  os_sleep : Z -> W -> Z * W;
  os_sbrk : Z -> W -> Z * W
}.

Section calls.
Context {W : Type} `{OS : !Os W}.

Definition syscall {A} (f : W -> A * W) : K W A := fun w => let (a, w') := f w in Done a w'.

Definition read (fd n : Z) : K W (Z * list Z) := syscall (os_read fd n).
Definition write (fd : Z) (data : list Z) : K W Z := syscall (os_write fd data).
Definition open (path : list Z) (mode : Z) : K W Z := syscall (os_open path mode).
Definition close (fd : Z) : K W Z := syscall (os_close fd).
Definition fork : K W Z := syscall os_fork.
Definition wait : K W (Z * Z) := syscall os_wait.
Definition pipe : K W (Z * (Z * Z)) := syscall os_pipe.
Definition dup (fd : Z) : K W Z := syscall (os_dup fd).
Definition chdir (path : list Z) : K W Z := syscall (os_chdir path).
Definition mkdir (path : list Z) : K W Z := syscall (os_mkdir path).
Definition mknod (path : list Z) (major minor : Z) : K W Z := syscall (os_mknod path major minor).
Definition link (old new : list Z) : K W Z := syscall (os_link old new).
Definition unlink (path : list Z) : K W Z := syscall (os_unlink path).
Definition fstat (fd : Z) : K W (Z * (Z * Z * Z * Z * Z)) := syscall (os_fstat fd).
Definition kill (pid : Z) : K W Z := syscall (os_kill pid).
Definition sleep (n : Z) : K W Z := syscall (os_sleep n).
Definition sbrk (n : Z) : K W Z := syscall (os_sbrk n).

(** The program does not run any more. *)
Definition gone {A} : K W A := fun w => Wait None w (fun _ => false) (fun _ => Diverge).
Definition exit {A} (status : Z) : K W A := fun w => gone (os_exit status w).
Definition exec (path : list Z) (argv : list (list Z)) : K W Z := fun w =>
  match os_exec path argv w with (Some r, w') => Done r w' | (None, w') => gone w' end.
End calls.

(** ** The files of a process *)
Record io := mkIo {
  io_in : gmap Z (list Z);          (* what reading a descriptor will give *)
  io_out : gmap Z (list Z);         (* what was written to a descriptor *)
  io_file : gmap (list Z) (list Z); (* the files that can be opened *)
  io_status : option Z              (* the status of exit() *)
}.
Definition set_in (fd : Z) (l : list Z) (i : io) : io := mkIo (<[fd := l]> (io_in i)) (io_out i) (io_file i) (io_status i).
Definition del_in (fd : Z) (i : io) : io := mkIo (delete fd (io_in i)) (io_out i) (io_file i) (io_status i).
Definition set_out (fd : Z) (l : list Z) (i : io) : io := mkIo (io_in i) (<[fd := l]> (io_out i)) (io_file i) (io_status i).
Definition set_status (st : Z) (i : io) : io := mkIo (io_in i) (io_out i) (io_file i) (Some st).

Class OsIo (W : Type) `{OS : !Os W} := {
  ios : W -> io;
  read_spec : forall fd n w l, io_in (ios w) !! fd = Some l -> 0 <= n -> exists data rest w',
    os_read fd n w = (Z.of_nat (length data), data, w') /\ l = data ++ rest /\ Z.of_nat (length data) <= n /\
    (0 < n -> l <> [] -> data <> []) /\ ios w' = set_in fd rest (ios w);
  write_spec : forall fd data w l, io_out (ios w) !! fd = Some l -> exists w',
    os_write fd data w = (Z.of_nat (length data), w') /\ ios w' = set_out fd (l ++ data) (ios w);
  open_spec : forall path w l, io_file (ios w) !! path = Some l -> exists fd w',
    os_open path 0 w = (fd, w') /\ 0 <= fd /\ io_in (ios w) !! fd = None /\ io_out (ios w) !! fd = None /\
    ios w' = set_in fd l (ios w);
  close_spec : forall fd w l, io_in (ios w) !! fd = Some l -> exists r w',
    os_close fd w = (r, w') /\ ios w' = del_in fd (ios w);
  exit_spec : forall st w, ios (os_exit st w) = set_status st (ios w)
}.

(** ** Programs that end in exit() *)
Section exits.
Context {W : Type}.

(** The code returns with [Q], or has called exit() and left [X]. *)
Definition uwp {A} (o : outcome W A) (Q : A -> W -> Prop) (X : W -> Prop) : Prop :=
  match o with
  | Done a w => Q a w
  | Wait _ w rdy _ => (forall w', rdy w' = false) /\ X w
  | _ => False
  end.

Lemma uwp_wp {A} (o : outcome W A) Q X : wp o Q -> uwp o Q X.
Proof. by destruct o. Qed.

Lemma uwp_mono {A} (o : outcome W A) (P Q : A -> W -> Prop) X : (forall a w, P a w -> Q a w) -> uwp o P X -> uwp o Q X.
Proof. destruct o; simpl; auto. Qed.

Lemma uwp_bind {A B} (m : K W A) (f : A -> K W B) w Q X :
  uwp (m w) (fun a w' => uwp (f a w') Q X) X -> uwp (bind m f w) Q X.
Proof. unfold bind. by destruct (m w). Qed.

Lemma uwp_for_each {X R} (l : list X) (body : X -> K W (option R)) (I : list X -> W -> Prop) Q E w :
  (forall x done rest w, l = done ++ x :: rest -> I (x :: rest) w ->
     uwp (body x w) (fun r w' => match r with None => I rest w' | Some _ => Q r w' end) E) ->
  (forall w, I [] w -> Q None w) -> I l w -> uwp (for_each l body w) Q E.
Proof.
  intros Hbody Hend.
  assert (forall rest done w, l = done ++ rest -> I rest w -> uwp (for_each rest body w) Q E) as Hgen.
  { induction rest as [|x rest IH]; intros done w0 Hl HI; simpl; [by apply Hend|].
    apply uwp_bind. eapply uwp_mono; [|by eapply Hbody]. intros [r|] w1 H1; simpl; [done|].
    apply (IH (done ++ [x])); [|done]. by rewrite Hl, <- app_assoc. }
  intros HI. by apply (Hgen l []).
Qed.

(** The same of code that may run for ever. *)
Definition upart {A} (o : outcome W A) (Q : A -> W -> Prop) (X : W -> Prop) : Prop := o = Diverge \/ uwp o Q X.

Lemma uwp_upart {A} (o : outcome W A) Q X : uwp o Q X -> upart o Q X.
Proof. by right. Qed.

Lemma upart_mono {A} (o : outcome W A) (P Q : A -> W -> Prop) X : (forall a w, P a w -> Q a w) -> upart o P X -> upart o Q X.
Proof. intros H [->|Ho]; [by left|right]. by eapply uwp_mono. Qed.

Lemma upart_weaken {A} (o : outcome W A) (P Q : A -> W -> Prop) (X Y : W -> Prop) : (forall w, X w -> Y w) -> upart o P X -> (forall a w, P a w -> Q a w) -> upart o Q Y.
Proof. intros HXY [->|Ho] HPQ; [by left|right]. destruct o; simpl in *; try done; [auto|]. destruct Ho. auto. Qed.

Lemma upart_bind {A B} (m : K W A) (f : A -> K W B) w Q X :
  upart (m w) (fun a w' => upart (f a w') Q X) X -> upart (bind m f w) Q X.
Proof.
  unfold bind. intros [->|H]; [by left|]. destruct (m w) as [a w'| | |c w' rdy k]; try done. by right.
Qed.

Lemma upart_iterate {Y B} (body : Y -> K W (Y + B)) (I : Y -> W -> Prop) (Q : B -> W -> Prop) X p y w :
  (forall y w, I y w -> upart (body y w) (fun r w' => match r with inl y' => I y' w' | inr b => Q b w' end) X) ->
  I y w -> upart (iterate p body y w) (fun r w' => match r with inl y' => I y' w' | inr b => Q b w' end) X.
Proof.
  intros Hb. revert y w. assert (forall (q : positive), (forall y w, I y w -> upart (iterate q body y w) (fun r w' => match r with inl y' => I y' w' | inr b => Q b w' end) X) ->
    forall r w, match r with inl y' => I y' w | inr b => Q b w end ->
    upart (match r with inl y' => iterate q body y' | inr b => ret (inr b) end w) (fun r w' => match r with inl y' => I y' w' | inr b => Q b w' end) X) as Hagain.
  { intros q Hq [y'|b] w H; [by apply Hq|by right]. }
  induction p as [p IH|p IH|]; intros y w HI; cbn [iterate].
  - apply upart_bind. eapply upart_mono; [|by apply Hb]. intros r w1 H1. apply upart_bind. eapply upart_mono; [|by apply Hagain].
    intros r2 w2 H2. by apply Hagain.
  - apply upart_bind. eapply upart_mono; [|by apply IH]. intros r w1 H1. by apply Hagain.
  - by apply Hb.
Qed.

Lemma upart_while {Y B} (body : Y -> K W (Y + B)) (I : Y -> W -> Prop) (Q : B -> W -> Prop) X p y w :
  (forall y w, I y w -> upart (body y w) (fun r w' => match r with inl y' => I y' w' | inr b => Q b w' end) X) ->
  I y w -> upart (while_ p body y w) Q X.
Proof.
  intros Hb HI. unfold while_. apply upart_bind. eapply upart_mono; [|by eapply upart_iterate]. intros [y'|b] w' H'; [by left|by right].
Qed.

Context `{OS : !Os W} `{IO : !OsIo W}.

Lemma uwp_exit {A} st w (Q : A -> W -> Prop) (X : W -> Prop) : X (os_exit st w) -> uwp (exit st w) Q X.
Proof. done. Qed.

Lemma wp_read fd n w l (Q : Z * list Z -> W -> Prop) : io_in (ios w) !! fd = Some l -> 0 <= n ->
  (forall data rest w', l = data ++ rest -> Z.of_nat (length data) <= n -> (0 < n -> l <> [] -> data <> []) ->
     ios w' = set_in fd rest (ios w) -> Q (Z.of_nat (length data), data) w') -> wp (read fd n w) Q.
Proof.
  intros Hl Hn HQ. destruct (read_spec fd n w l Hl Hn) as (data & rest & w' & E & ? & ? & ? & ?). unfold read, syscall.
  rewrite E. by eapply HQ.
Qed.

Lemma wp_write fd data w l (Q : Z -> W -> Prop) : io_out (ios w) !! fd = Some l ->
  (forall w', ios w' = set_out fd (l ++ data) (ios w) -> Q (Z.of_nat (length data)) w') -> wp (write fd data w) Q.
Proof.
  intros Hl HQ. destruct (write_spec fd data w l Hl) as (w' & E & ?). unfold write, syscall. rewrite E. by apply HQ.
Qed.

Lemma wp_open path w l (Q : Z -> W -> Prop) : io_file (ios w) !! path = Some l ->
  (forall fd w', 0 <= fd -> io_in (ios w) !! fd = None -> io_out (ios w) !! fd = None ->
     ios w' = set_in fd l (ios w) -> Q fd w') -> wp (open path 0 w) Q.
Proof.
  intros Hl HQ. destruct (open_spec path w l Hl) as (fd & w' & E & ? & ? & ? & ?). unfold open, syscall. rewrite E. by apply HQ.
Qed.

Lemma wp_close fd w l (Q : Z -> W -> Prop) : io_in (ios w) !! fd = Some l ->
  (forall r w', ios w' = del_in fd (ios w) -> Q r w') -> wp (close fd w) Q.
Proof.
  intros Hl HQ. destruct (close_spec fd w l Hl) as (r & w' & E & ?). unfold close, syscall. rewrite E. by apply HQ.
Qed.
End exits.

(** What a filter, which reads [fd] and writes to descriptor 1, does not change. *)
Record io_keep (fd : Z) (i i' : io) : Prop := {
  ik_in : forall fd', fd' <> fd -> io_in i' !! fd' = io_in i !! fd';
  ik_out : forall fd', fd' <> 1 -> io_out i' !! fd' = io_out i !! fd';
  ik_file : io_file i' = io_file i;
  ik_status : io_status i' = io_status i
}.

#[global] Instance io_keep_pre fd : PreOrder (io_keep fd).
Proof.
  split; [by intros i|]. intros i1 i2 i3 [A1 A2 A3 A4] [B1 B2 B3 B4].
  split; [intros; by rewrite B1, A1|intros; by rewrite B2, A2|congruence|congruence].
Qed.

Lemma io_keep_in fd l i : io_keep fd i (set_in fd l i).
Proof. split; try done. intros fd' Hne. simpl. by rewrite lookup_insert_ne by congruence. Qed.

Lemma io_keep_out fd l i : io_keep fd i (set_out 1 l i).
Proof. split; try done. intros fd' Hne. simpl. by rewrite lookup_insert_ne by congruence. Qed.

(** ** Files in memory: a concrete system *)
Definition mem_fd (i : io) : Z := Z.of_nat (fresh (set_map Z.to_nat (dom (io_in i) ∪ dom (io_out i)) : gset nat)).

#[export] Instance mem_os : Os io := {|
  os_read fd n i := match io_in i !! fd with
    | Some l => (Z.of_nat (length (take (Z.to_nat n) l)), take (Z.to_nat n) l, set_in fd (drop (Z.to_nat n) l) i)
    | None => (-1, [], i) end;
  os_write fd data i := match io_out i !! fd with
    | Some l => (Z.of_nat (length data), set_out fd (l ++ data) i) | None => (-1, i) end;
  os_open path mode i := match io_file i !! path with
    | Some l => (mem_fd i, set_in (mem_fd i) l i) | None => (-1, i) end;
  os_close fd i := match io_in i !! fd with Some _ => (0, del_in fd i) | None => (-1, i) end;
  os_exit := set_status;
  os_fork i := (-1, i); os_wait i := (-1, 0, i); os_exec _ _ i := (Some (-1), i); os_pipe i := (-1, (0, 0), i);
  os_dup _ i := (-1, i); os_chdir _ i := (-1, i); os_mkdir _ i := (-1, i); os_mknod _ _ _ i := (-1, i);
  os_link _ _ i := (-1, i); os_unlink _ i := (-1, i); os_fstat _ i := (-1, (0, 0, 0, 0, 0), i);
  os_kill _ i := (-1, i); os_sleep _ i := (-1, i); os_sbrk _ i := (-1, i)
|}.

Lemma mem_fd_free i : io_in i !! mem_fd i = None /\ io_out i !! mem_fd i = None.
Proof.
  unfold mem_fd. set (X := set_map _ _ : gset nat). pose proof (is_fresh X) as Hf.
  assert (Z.of_nat (fresh X) ∉ dom (io_in i) ∪ dom (io_out i)) as Hn.
  { intros Hin. apply Hf. unfold X at 2. apply elem_of_map. exists (Z.of_nat (fresh X)). by rewrite Nat2Z.id. }
  rewrite not_elem_of_union, !not_elem_of_dom in Hn. done.
Qed.

#[export] Program Instance mem_io : OsIo io := {| ios i := i |}.
Next Obligation.
  intros fd n i l Hl Hn. simpl. rewrite Hl. exists (take (Z.to_nat n) l), (drop (Z.to_nat n) l), (set_in fd (drop (Z.to_nat n) l) i).
  split_and!; [done|by rewrite take_drop|rewrite length_take; lia| |done]. intros Hp Hne. destruct l; [done|].
  destruct (Z.to_nat n) eqn:E; [lia|done].
Qed.
Next Obligation. intros fd data i l Hl. simpl. rewrite Hl. eauto. Qed.
Next Obligation.
  intros path i l Hl. simpl. rewrite Hl. destruct (mem_fd_free i). eexists _, _. split_and!; try done. unfold mem_fd. lia.
Qed.
Next Obligation. intros fd i l Hl. simpl. rewrite Hl. eauto. Qed.
Next Obligation. done. Qed.
