(* ===== verification/Ulib.v ===== *)
(** * The user library (user/ulib.c, user/printf.c)

    A [char *] that is read is the list of the bytes from the pointer to the end
    of its array (a byte past the end is read as 0); an array that is written is
    passed and returned, and a write past its end is [None].  [cut] is the string
    before the NUL.  printf writes one byte at a time. *)
From S2P Require Import Prelude Machine KString User.
Local Open Scope Z_scope.
Local Open Scope kernel_scope.

(** ** ulib.c *)

(** [while(( *s++ = *t++ ) != 0);] *)
Fixpoint strcpy (s t : list Z) : option (list Z) :=
  match s with
  | [] => None
  | _ :: s => let c := hd 0 t in
              if c =? 0 then Some (c :: s) else cons c <$> strcpy s (tl t)
  end.

(** [while( *p && *p == *q) p++, q++;] *)
Fixpoint strcmp (p q : list Z) : Z :=
  match p with
  | [] => 0 - u8 (hd 0 q)
  | a :: p => if negb (a =? 0) && (a =? hd 0 q) then strcmp p (tl q) else u8 a - u8 (hd 0 q)
  end.

(** [for(n = 0; s[n]; n++);] *)
Fixpoint strlen_loop (s : list Z) (n : Z) : Z :=
  match s with
  | [] => n
  | b :: s => if b =? 0 then n else strlen_loop s (n + 1)
  end.
Definition strlen (s : list Z) : Z := u32 (strlen_loop s 0).

(** [for(i = 0; i < n; i++) cdst[i] = c;] *)
Fixpoint memset (dst : list Z) (c : Z) (n : nat) : option (list Z) :=
  match n, dst with
  | O, _ => Some dst
  | S n, _ :: dst => cons (u8 c) <$> memset dst c n
  | S _, [] => None
  end.

(** [for(; *s; s++) if( *s == c) return s;]: the distance to the character. *)
Fixpoint strchr (s : list Z) (c : Z) : option nat :=
  match s with
  | [] => None
  | b :: s => if b =? 0 then None else if b =? c then Some O else S <$> strchr s c
  end.

(** [while('0' <= *s && *s <= '9') n = n*10 + *s++ - '0';] *)
Fixpoint atoi_loop (s : list Z) (n : Z) : Z :=
  match s with
  | [] => n
  | b :: s => if (48 <=? b) && (b <=? 57) then atoi_loop s (s32 (n * 10 + b - 48)) else n
  end.
Definition atoi (s : list Z) : Z := atoi_loop s 0.

(** memmove within one array: [while(n-- > 0) *dst++ = *src++;] and
    [while(n-- > 0) *--dst = *--src;] *)
Fixpoint move_up (a : list Z) (dst src n : nat) : option (list Z) :=
  match n with
  | O => Some a
  | S n => v ← a !! src; if decide (dst < length a)%nat then move_up (<[dst := v]> a) (S dst) (S src) n else None
  end.
Fixpoint move_down (a : list Z) (dst src n : nat) : option (list Z) :=
  match n with
  | O => Some a
  | S n => v ← a !! (src + n)%nat; if decide (dst + n < length a)%nat then move_down (<[(dst + n)%nat := v]> a) dst src n else None
  end.
Definition memmove (a : list Z) (dst src n : nat) : option (list Z) :=
  if (dst <? src)%nat then move_up a dst src n else move_down a dst src n.
Definition memcpy (a : list Z) (dst src n : nat) : option (list Z) := memmove a dst src n.

Fixpoint memcmp (p1 p2 : list Z) (n : nat) : Z :=
  match n with
  | O => 0
  | S n => if hd 0 p1 =? hd 0 p2 then memcmp (tl p1) (tl p2) n else hd 0 p1 - hd 0 p2
  end.

Section ulib.
Context {W : Type} `{OS : !Os W}.

(** The characters of a line, at most [max - 1], and the NUL; [budget] bounds the
    loop, which makes less than [max] rounds. *)
Definition gets (max : Z) : K W (list Z) :=
  buf <- while_ budget (fun buf =>
    if negb (Z.of_nat (length buf) + 1 <? max) then ret (inr buf) else
    r <- read 0 1;;
    if r.1 <? 1 then ret (inr buf) else
    let c := hd 0 r.2 in
    let buf := buf ++ [c] in
    if (c =? 10) || (c =? 13) then ret (inr buf) else ret (inl buf)) [];;
  ret (buf ++ [0]).

Definition stat (n : list Z) : K W (Z * (Z * Z * Z * Z * Z)) :=
  fd <- open n O_RDONLY;;
  if fd <? 0 then ret (-1, (0, 0, 0, 0, 0)) else
  r <- fstat fd;;
  close fd;;
  ret r.

(** ** printf.c *)
Definition udigits (x : Z) : Z := default 0 (str "0123456789ABCDEF" !! Z.to_nat x).

Definition putc (fd c : Z) : K W unit := write fd [u8 c];; ret tt.

Definition put_all (fd : Z) (l : list Z) : K W unit :=
  _ <- for_each l (fun c => putc fd c;; ret (@None unit));;
  ret tt.

(** The characters printint leaves in buf, in the order they are stored; [x] has
    at most 32 digits in any base. *)
Fixpoint udigit_loop (fuel : nat) (x base : Z) : list Z :=
  match fuel with
  | O => []
  | S fuel => udigits (x mod base) :: if x / base =? 0 then [] else udigit_loop fuel (x / base) base
  end.
Definition uint_chars (xx base : Z) (sgn : bool) : list Z :=
  let neg := sgn && (xx <? 0) in
  let x := if neg then u32 (- xx) else u32 xx in
  udigit_loop 32 x base ++ (if neg then [45] else []).

Definition printint (fd xx base : Z) (sgn : bool) : K W unit := put_all fd (rev (uint_chars xx base sgn)).

Fixpoint uptr_loop (n : nat) (x : Z) : list Z :=
  match n with
  | O => []
  | S n => udigits (Z.shiftr x (64 - 4)) :: uptr_loop n (u64 (Z.shiftl x 4))
  end.
Definition printptr (fd x : Z) : K W unit :=
  putc fd 48;;
  putc fd 120;;
  put_all fd (uptr_loop 16 x).

(** A value for a conversion: a number, or a string (a null pointer is [None]). *)
Inductive uarg := UInt (v : Z) | UStr (s : option (list Z)).

(** The loop over the format, [state] being '%' or not; an argument that is
    missing or of the wrong kind is undefined in C. *)
Fixpoint vprintf (fd : Z) (fmt : list Z) (args : list uarg) (state : bool) : K W unit :=
  match fmt with
  | [] => ret tt
  | c :: fmt =>
      if c =? 0 then ret tt else
      if negb state then
        if c =? 37 then vprintf fd fmt args true
        else putc fd c;; vprintf fd fmt args false
      else if c =? 100 then (* d *)
        match args with UInt v :: args => printint fd (s32 v) 10 true;; vprintf fd fmt args false | _ => panic "va_arg" end
      else if c =? 108 then (* l *)
        match args with UInt v :: args => printint fd (s32 v) 10 false;; vprintf fd fmt args false | _ => panic "va_arg" end
      else if c =? 120 then (* x *)
        match args with UInt v :: args => printint fd (s32 v) 16 false;; vprintf fd fmt args false | _ => panic "va_arg" end
      else if c =? 112 then (* p *)
        match args with UInt v :: args => printptr fd (u64 v);; vprintf fd fmt args false | _ => panic "va_arg" end
      else if c =? 115 then (* s *)
        match args with UStr s :: args => put_all fd (cut (default (str "(null)") s));; vprintf fd fmt args false | _ => panic "va_arg" end
      else if c =? 99 then (* c *)
        match args with UInt v :: args => putc fd v;; vprintf fd fmt args false | _ => panic "va_arg" end
      else if c =? 37 then putc fd c;; vprintf fd fmt args false
      else
        (* Unknown % sequence.  Print it to draw attention. *)
        putc fd 37;; putc fd c;; vprintf fd fmt args false
  end.

Definition fprintf (fd : Z) (fmt : list Z) (args : list uarg) : K W unit := vprintf fd fmt args false.
Definition printf (fmt : list Z) (args : list uarg) : K W unit := vprintf 1 fmt args false.
End ulib.

(** ** printf() returns *)
(** The arguments fit the format. *)
Fixpoint fmt_ok (fmt : list Z) (args : list uarg) (state : bool) : bool :=
  match fmt with
  | [] => true
  | c :: fmt =>
      if c =? 0 then true else
      if negb state then fmt_ok fmt args (c =? 37)
      else if (c =? 100) || (c =? 108) || (c =? 120) || (c =? 112) then
        match args with UInt _ :: args => fmt_ok fmt args false | _ => false end
      else if c =? 115 then match args with UStr _ :: args => fmt_ok fmt args false | _ => false end
      else if c =? 99 then match args with UInt _ :: args => fmt_ok fmt args false | _ => false end
      else fmt_ok fmt args false
  end.

Section printing.
Context {W : Type} `{OS : !Os W} (I : W -> Prop) (fd : Z).
Context (Hwrite : forall data w, I w -> I (os_write fd data w).2).

Lemma putc_inv c w : I w -> wp (putc fd c w) (fun _ w' => I w').
Proof.
  intros HI. unfold putc, write, syscall. pose proof (Hwrite [u8 c] w HI) as H. unfold bind. by destruct (os_write fd [u8 c] w).
Qed.

Lemma put_all_inv l w : I w -> wp (put_all fd l w) (fun _ w' => I w').
Proof.
  intros HI. unfold put_all. kstep. apply (wp_for_each l _ (fun _ w => I w)); [|done|done].
  intros c done rest w1 _ H1. kstep. eapply wp_mono; [|by apply putc_inv]. by intros [] w2 H2.
Qed.

Lemma printptr_inv x w : I w -> wp (printptr fd x w) (fun _ w' => I w').
Proof.
  intros HI. unfold printptr. do 2 (kstep; eapply wp_mono; [|by apply putc_inv]; clear w HI; intros [] w HI). by apply put_all_inv.
Qed.

Lemma vprintf_inv fmt args state w : fmt_ok fmt args state = true -> I w -> wp (vprintf fd fmt args state w) (fun _ w' => I w').
Proof.
  revert args state w. induction fmt as [|c fmt IH]; intros args state w; [done|]. cbn [fmt_ok vprintf]. destruct (c =? 0); [done|].
  destruct state; cbn [negb].
  2:{ destruct (c =? 37); [apply IH|]. intros Hok HI. kstep. eapply wp_mono; [|by apply putc_inv]. intros [] w' HI'. by apply IH. }
  assert (forall (m : K W unit) args', (forall w, I w -> wp (m w) (fun _ w' => I w')) -> fmt_ok fmt args' false = true -> I w ->
    wp (bind m (fun _ => vprintf fd fmt args' false) w) (fun _ w' => I w')) as Hgo.
  { intros m args' Hm Hok HI. kstep. eapply wp_mono; [|by apply Hm]. intros [] w' HI'. by apply IH. }
  assert (forall v, (forall w, I w -> wp (printint fd v 10 true w) (fun _ w' => I w')) /\ (forall w, I w -> wp (printint fd v 10 false w) (fun _ w' => I w')) /\
    forall w, I w -> wp (printint fd v 16 false w) (fun _ w' => I w')) as Hint by (intros v; split_and!; intros; by apply put_all_inv).
  destruct (c =? 100); [destruct args as [|[v|v] args]; [done|apply Hgo, Hint|done]|].
  destruct (c =? 108); [destruct args as [|[v|v] args]; [done|apply Hgo, Hint|done]|].
  destruct (c =? 120); [destruct args as [|[v|v] args]; [done|apply Hgo, Hint|done]|].
  destruct (c =? 112); [destruct args as [|[v|v] args]; [done|apply Hgo; intros; by apply printptr_inv|done]|]. cbn [orb].
  destruct (c =? 115); [destruct args as [|[v|v] args]; [done|done|apply Hgo; intros; by apply put_all_inv]|].
  destruct (c =? 99); [destruct args as [|[v|v] args]; [done|apply Hgo; intros; by apply putc_inv|done]|].
  destruct (c =? 37); [apply Hgo; intros; by apply putc_inv|]. intros Hok HI. kstep. eapply wp_mono; [|by apply putc_inv].
  intros [] w' HI'. kstep. eapply wp_mono; [|by apply putc_inv]. intros [] w2 H2. by apply IH.
Qed.
End printing.

(** What printf() writes. *)
Definition dec (v : Z) : list Z := map u8 (rev (uint_chars (s32 v) 10 true)).
Fixpoint rendered (fmt : list Z) (args : list uarg) (state : bool) : list Z :=
  match fmt with
  | [] => []
  | c :: fmt =>
      if c =? 0 then [] else
      if negb state then if c =? 37 then rendered fmt args true else u8 c :: rendered fmt args false
      else if c =? 100 then match args with UInt v :: args => dec v ++ rendered fmt args false | _ => [] end
      else if c =? 108 then match args with UInt v :: args => map u8 (rev (uint_chars (s32 v) 10 false)) ++ rendered fmt args false | _ => [] end
      else if c =? 120 then match args with UInt v :: args => map u8 (rev (uint_chars (s32 v) 16 false)) ++ rendered fmt args false | _ => [] end
      else if c =? 112 then match args with UInt v :: args => 48 :: 120 :: map u8 (uptr_loop 16 (u64 v)) ++ rendered fmt args false | _ => [] end
      else if c =? 115 then match args with UStr s :: args => map u8 (cut (default (str "(null)") s)) ++ rendered fmt args false | _ => [] end
      else if c =? 99 then match args with UInt v :: args => u8 v :: rendered fmt args false | _ => [] end
      else if c =? 37 then u8 c :: rendered fmt args false
      else 37 :: u8 c :: rendered fmt args false
  end.

Section output.
Context {W : Type} `{OS : !Os W} `{IO : !OsIo W} (fd : Z) (i0 : io).

(** [out] is all that was written to [fd] since [i0]. *)
Definition wrote (out : list Z) (w : W) : Prop := exists old, io_out i0 !! fd = Some old /\ ios w = set_out fd (old ++ out) i0.

Lemma wrote_start w old : ios w = i0 -> io_out i0 !! fd = Some old -> wrote [] w.
Proof. intros E Ho. exists old. split; [done|]. rewrite E, app_nil_r. unfold set_out. rewrite insert_id by done. by destruct i0. Qed.

Lemma wrote_put c out w : wrote out w -> wp (putc fd c w) (fun _ w' => wrote (out ++ [u8 c]) w').
Proof.
  intros (old & Ho & E). unfold putc. kstep. eapply (wp_write _ _ _ (old ++ out)); [rewrite E; simpl; by rewrite lookup_insert_eq|].
  intros w' E'. kstep. exists old. split; [done|]. rewrite E', E. unfold set_out. simpl. by rewrite insert_insert_eq, app_assoc.
Qed.

Lemma wrote_all l out w : wrote out w -> wp (put_all fd l w) (fun _ w' => wrote (out ++ map u8 l) w').
Proof.
  intros Hw. unfold put_all. kstep. apply (wp_for_each l _ (fun rest w => exists done, l = done ++ rest /\ wrote (out ++ map u8 done) w)).
  - intros c dn rest w1 _ (d & E & H1). kstep. eapply wp_mono; [|by apply wrote_put]. intros [] w2 H2. kstep. exists (d ++ [c]).
    rewrite <- app_assoc. split; [done|]. by rewrite map_app, app_assoc.
  - intros w1 (d & E & H1). kstep. by rewrite app_nil_r in E; subst.
  - exists []. split; [done|]. by rewrite app_nil_r.
Qed.

Lemma wrote_ptr x out w : wrote out w -> wp (printptr fd x w) (fun _ w' => wrote (out ++ 48 :: 120 :: map u8 (uptr_loop 16 x)) w').
Proof.
  intros Hw. unfold printptr. kstep. eapply wp_mono; [|by apply wrote_put]. intros [] w1 H1. kstep. eapply wp_mono; [|by apply wrote_put].
  intros [] w2 H2. rewrite <- app_assoc in H2. replace (out ++ 48 :: 120 :: map u8 (uptr_loop 16 x)) with ((out ++ [u8 48] ++ [u8 120]) ++ map u8 (uptr_loop 16 x))
    by by rewrite <- app_assoc.
  by apply wrote_all.
Qed.

Lemma vprintf_prints fmt args state out w : fmt_ok fmt args state = true -> wrote out w ->
  wp (vprintf fd fmt args state w) (fun _ w' => wrote (out ++ rendered fmt args state) w').
Proof.
  revert args state out w. induction fmt as [|c fmt IH]; intros args state out w; [intros _ Hw; simpl; by rewrite app_nil_r|].
  cbn [fmt_ok vprintf rendered]. destruct (c =? 0); [intros _ Hw; simpl; by rewrite app_nil_r|].
  assert (forall (m : K W unit) l args', (forall out w, wrote out w -> wp (m w) (fun _ w' => wrote (out ++ l) w')) -> fmt_ok fmt args' false = true -> wrote out w ->
    wp (bind m (fun _ => vprintf fd fmt args' false) w) (fun _ w' => wrote (out ++ l ++ rendered fmt args' false) w')) as Hgo.
  { intros m l args' Hm Hok Hw. kstep. eapply wp_mono; [|by apply Hm]. intros [] w' Hw'. rewrite app_assoc. by apply IH. }
  destruct state; cbn [negb]; [|destruct (c =? 37); [apply IH|apply (Hgo _ [u8 c]); intros; by apply wrote_put]].
  destruct (c =? 100); [destruct args as [|[v|v] args]; [done|apply Hgo; intros; by apply wrote_all|done]|].
  destruct (c =? 108); [destruct args as [|[v|v] args]; [done|apply Hgo; intros; by apply wrote_all|done]|].
  destruct (c =? 120); [destruct args as [|[v|v] args]; [done|apply Hgo; intros; by apply wrote_all|done]|].
  destruct (c =? 112); [destruct args as [|[v|v] args]; [done|apply (Hgo _ (48 :: 120 :: map u8 (uptr_loop 16 (u64 v)))); intros; by apply wrote_ptr|done]|]. cbn [orb].
  destruct (c =? 115); [destruct args as [|[v|v] args]; [done|done|apply Hgo; intros; by apply wrote_all]|].
  destruct (c =? 99); [destruct args as [|[v|v] args]; [done|apply (Hgo _ [u8 v]); intros; by apply wrote_put|done]|].
  destruct (c =? 37); [apply (Hgo _ [u8 c]); intros; by apply wrote_put|]. intros Hok Hw. kstep. eapply wp_mono; [|by apply wrote_put].
  intros [] w' Hw'. kstep. eapply wp_mono; [|by apply wrote_put]. intros [] w2 H2. rewrite <- app_assoc in H2.
  replace (out ++ 37 :: u8 c :: rendered fmt args false) with ((out ++ [u8 37] ++ [u8 c]) ++ rendered fmt args false) by by rewrite <- app_assoc.
  by apply IH.
Qed.
End output.

(** ** Numerals *)
Lemma udigit_loop_map fuel x base : udigit_loop fuel x base = map udigits (digits_of fuel x base).
Proof. revert x. induction fuel as [|f IH]; intros x; cbn; [done|]. destruct (x / base =? 0); cbn; [done|]. by rewrite IH. Qed.

Lemma udigits_dec d : 0 <= d < 10 -> udigits d = 48 + d.
Proof. intros H. assert (d = 0 \/ d = 1 \/ d = 2 \/ d = 3 \/ d = 4 \/ d = 5 \/ d = 6 \/ d = 7 \/ d = 8 \/ d = 9) as Hd by lia. by repeat destruct Hd as [->|Hd]; subst. Qed.

(** The decimal numeral of a number that is not negative. *)
Lemma dec_digits v : 0 <= v < 2 ^ 31 -> exists ds, dec v = map (fun d => 48 + d) (rev ds) /\ Forall (fun d => 0 <= d < 10) ds /\ value 10 ds = v /\
  (v <> 0 -> exists d ds', ds = ds' ++ [d] /\ d <> 0).
Proof.
  intros Hv. destruct (digits_of_ok 31 v 10) as (H1 & H2 & H3); [lia|change (Z.of_nat 32) with 32; lia|].
  exists (digits_of 32 v 10). split; [|by split_and!]. unfold dec, uint_chars. rewrite s32_id by lia.
  rewrite (proj2 (Z.ltb_ge v 0)) by lia. cbn [andb]. unfold u32. rewrite Z.mod_small by lia. rewrite app_nil_r, udigit_loop_map, <- map_rev, map_map.
  apply map_ext_in. intros d Hd. rewrite <- in_rev, <- list_elem_of_In in Hd. pose proof (proj1 (Forall_forall _ _) H1 d Hd) as Hr. cbv beta in Hr.
  rewrite udigits_dec by done. apply u8_id. unfold is_byte. lia.
Qed.

Lemma value_nonneg ds : Forall (fun d => 0 <= d < 10) ds -> 0 <= value 10 ds.
Proof. induction 1; cbn [value]; lia. Qed.

Lemma atoi_digits ds rest n : Forall (fun d => 0 <= d < 10) ds -> 0 <= n -> n * 10 ^ Z.of_nat (length ds) + value 10 ds < 2 ^ 31 ->
  atoi_loop (map (fun d => 48 + d) (rev ds) ++ rest) n = atoi_loop rest (n * 10 ^ Z.of_nat (length ds) + value 10 ds).
Proof.
  intros Hds Hn. revert rest. induction Hds as [|d ds Hd Hds IH]; intros rest Hlt; [simpl; f_equal; lia|].
  cbn [rev length value] in *. rewrite Nat2Z.inj_succ, Z.pow_succ_r in * by lia. pose proof (value_nonneg ds Hds). pose proof (Z.pow_pos_nonneg 10 (Z.of_nat (length ds))).
  set (p := 10 ^ Z.of_nat (length ds)) in *. rewrite map_app, <- app_assoc, IH by nia. cbn [map app atoi_loop].
  rewrite (proj2 (Z.leb_le 48 _)), (proj2 (Z.leb_le _ 57)) by lia. cbn [andb]. f_equal. rewrite s32_id by nia. lia.
Qed.

(** atoi() reads back what %d printed. *)
Lemma atoi_dec v rest : 0 <= v < 2 ^ 31 -> (forall b r, rest = b :: r -> b < 48 \/ 57 < b) -> atoi (dec v ++ rest) = v.
Proof.
  intros Hv Hrest. destruct (dec_digits v Hv) as (ds & -> & Hds & E & _). unfold atoi. rewrite atoi_digits by (done || lia).
  rewrite E. destruct rest as [|b r]; [done|]. simpl. destruct (Z.leb_spec 48 b), (Z.leb_spec b 57); simpl; try lia.
  destruct (Hrest b r eq_refl); lia.
Qed.

(** ** Prefixes of a string *)
Fixpoint takewhile (f : Z -> bool) (s : list Z) : list Z :=
  match s with [] => [] | c :: s => if f c then c :: takewhile f s else [] end.
Fixpoint dropwhile (f : Z -> bool) (s : list Z) : list Z :=
  match s with [] => [] | c :: s' => if f c then dropwhile f s' else s end.

Lemma dropwhile_length f s : (length (dropwhile f s) <= length s)%nat.
Proof. induction s as [|c s IH]; simpl; [lia|]. destruct (f c); simpl; lia. Qed.

Lemma take_drop_while f s : takewhile f s ++ dropwhile f s = s.
Proof. induction s as [|c s IH]; simpl; [done|]. destruct (f c); simpl; [by rewrite IH|done]. Qed.

Lemma drop_takewhile f s : drop (length (takewhile f s)) s = dropwhile f s.
Proof. induction s as [|c s IH]; simpl; [done|]. by destruct (f c). Qed.

Lemma take_takewhile f s : take (length (takewhile f s)) s = takewhile f s.
Proof. induction s as [|c s IH]; simpl; [done|]. destruct (f c); simpl; by rewrite ?IH. Qed.

Lemma takewhile_all f s : Forall (fun c => f c = true) (takewhile f s).
Proof. induction s as [|c s IH]; simpl; [constructor|]. destruct (f c) eqn:E; by constructor. Qed.

Lemma dropwhile_head f s c r : dropwhile f s = c :: r -> f c = false.
Proof. induction s as [|d s IH]; simpl; [done|]. destruct (f d) eqn:E; [done|]. by injection 1 as -> _. Qed.

(** ** What the string routines compute *)

Lemma cut_cons b l : b <> 0 -> cut (b :: l) = b :: cut l.
Proof. intros Hb. simpl. by rewrite (proj2 (Z.eqb_neq b 0)). Qed.

Lemma strlen_cut s : Z.of_nat (length s) < 2 ^ 31 -> strlen s = Z.of_nat (length (cut s)).
Proof.
  intros Hs. assert (forall n, strlen_loop s n = n + Z.of_nat (length (cut s))) as H.
  { clear Hs. induction s as [|b s IH]; intros n; simpl; [lia|]. destruct (b =? 0); simpl; [lia|]. rewrite IH. lia. }
  unfold strlen. rewrite H. pose proof (length_cut s). unfold u32. rewrite Z.mod_small; lia.
Qed.

Lemma strchr_found s c d : strchr s c = Some d -> exists rest, s = take d s ++ c :: rest /\ c <> 0 /\
  c ∉ take d s /\ 0 ∉ take d s.
Proof.
  revert d. induction s as [|b s IH]; intros d; simpl; [done|]. destruct (Z.eqb_spec b 0) as [|Hb]; [done|].
  destruct (Z.eqb_spec b c) as [->|Hc].
  - intros [= <-]. exists s. simpl. rewrite !elem_of_nil. tauto.
  - destruct (strchr s c) as [d'|] eqn:E; [|done]. intros [= <-]. destruct (IH d' eq_refl) as (rest & E' & ? & ? & ?).
    exists rest. simpl. rewrite <- E', !elem_of_cons. split_and!; try done; intros [|]; congruence.
Qed.

Lemma strchr_none s c : strchr s c = None -> c ∉ cut s.
Proof.
  induction s as [|b s IH]; simpl; [intros _; apply not_elem_of_nil|]. destruct (b =? 0); [intros _; apply not_elem_of_nil|].
  destruct (Z.eqb_spec b c) as [->|Hc]; [done|]. destruct (strchr s c); [done|]. intros _.
  apply not_elem_of_cons. split; [congruence|by apply IH].
Qed.

Lemma cut_app_nul l r : 0 ∉ l -> cut (l ++ 0 :: r) = l.
Proof.
  induction l as [|b l IH]; simpl; [done|]. rewrite not_elem_of_cons. intros [Hb Hl].
  destruct (Z.eqb_spec b 0) as [->|_]; [done|]. by rewrite IH.
Qed.

Lemma cut_id x : 0 ∉ x -> cut x = x.
Proof.
  induction x as [|b x IH]; [done|]. rewrite not_elem_of_cons. intros [Hb Hx]. simpl.
  rewrite (proj2 (Z.eqb_neq b 0)) by congruence. by rewrite IH.
Qed.

(** strcmp() is 0 exactly on equal strings. *)
Lemma strcmp_zero p q : Forall is_byte p -> Forall is_byte q -> strcmp p q = 0 <-> cut p = cut q.
Proof.
  revert q. induction p as [|a p IH]; intros q Hp Hq; cbn [strcmp cut].
  - destruct q as [|b q]; [done|]. inversion Hq; subst. cbn [hd cut]. rewrite u8_id by done.
    destruct (Z.eqb_spec b 0) as [->|]; [done|]. split; [lia|done].
  - inversion Hp; subst. rewrite u8_id by done. destruct q as [|b q]; cbn [hd tl cut].
    + destruct (Z.eqb_spec a 0) as [->|]; cbn [negb andb]; [done|]. change (u8 0) with 0. split; [lia|done].
    + inversion Hq; subst. rewrite (u8_id b) by done.
      destruct (Z.eqb_spec a 0) as [Ea|Ea], (Z.eqb_spec b 0) as [Eb|Eb], (Z.eqb_spec a b) as [E|E]; cbn [negb andb]; try lia.
      * split; [done|lia].
      * split; [lia|done].
      * split; [lia|done].
      * rewrite IH by done. rewrite E. split; [by intros ->|by intros [=]].
      * split; [lia|]. intros [=]. congruence.
Qed.

(** ** memmove *)
Definition moved (a : list Z) (dst src n : nat) : list Z := take dst a ++ take n (drop src a) ++ drop (dst + n) a.

Lemma lookup_moved a dst src n i : (dst + n <= length a)%nat -> (src + n <= length a)%nat ->
  moved a dst src n !! i = if decide (dst <= i < dst + n)%nat then a !! (src + (i - dst))%nat else a !! i.
Proof.
  intros Hd Hs. unfold moved. destruct (decide (i < dst)%nat).
  { rewrite lookup_app_l, lookup_take_lt by (rewrite ?length_take; lia). case_decide; [lia|done]. }
  rewrite lookup_app_r, length_take_le by (rewrite ?length_take; lia). destruct (decide (i < dst + n)%nat).
  - rewrite lookup_app_l, lookup_take_lt, lookup_drop by (rewrite ?length_take, ?length_drop; lia). rewrite decide_True by lia. done.
  - rewrite lookup_app_r by (rewrite ?length_take, ?length_drop; lia). rewrite length_take, length_drop, lookup_drop.
    rewrite decide_False by lia. f_equal. lia.
Qed.

Lemma move_up_ok n a dst src : (dst < src)%nat -> (src + n <= length a)%nat -> exists b, move_up a dst src n = Some b /\
  length b = length a /\ forall i, b !! i = if decide (dst <= i < dst + n)%nat then a !! (src + (i - dst))%nat else a !! i.
Proof.
  revert a dst src. induction n as [|n IH]; intros a dst src Hlt Hle; simpl.
  - exists a. split_and!; [done|done|]. intros i. by rewrite decide_False by lia.
  - destruct (lookup_lt_is_Some_2 a src) as [v Hv]; [lia|]. rewrite Hv. simpl. rewrite decide_True by lia.
    destruct (IH (<[dst := v]> a) (S dst) (S src)) as (b & -> & Hl & Hb); [lia|rewrite length_insert; lia|].
    exists b. rewrite length_insert in Hl. split_and!; [done|done|]. intros i. rewrite Hb.
    destruct (decide (i = dst)) as [->|Hi].
    + rewrite decide_False, decide_True, list_lookup_insert_eq by lia. rewrite Nat.sub_diag, Nat.add_0_r. done.
    + rewrite !(list_lookup_insert_ne _ dst) by lia. repeat case_decide; try lia; [|done]. f_equal. lia.
Qed.

Lemma move_down_ok n a dst src : (src <= dst)%nat -> (dst + n <= length a)%nat -> exists b, move_down a dst src n = Some b /\
  length b = length a /\ forall i, b !! i = if decide (dst <= i < dst + n)%nat then a !! (src + (i - dst))%nat else a !! i.
Proof.
  revert a. induction n as [|n IH]; intros a Hle Hd; simpl.
  - exists a. split_and!; [done|done|]. intros i. by rewrite decide_False by lia.
  - destruct (lookup_lt_is_Some_2 a (src + n)) as [v Hv]; [lia|]. rewrite Hv. simpl. rewrite decide_True by lia.
    destruct (IH (<[(dst + n)%nat := v]> a)) as (b & -> & Hl & Hb); [lia|rewrite length_insert; lia|].
    exists b. rewrite length_insert in Hl. split_and!; [done|done|]. intros i. rewrite Hb.
    destruct (decide (i = dst + n)%nat) as [->|Hi].
    + rewrite decide_False, decide_True, list_lookup_insert_eq by lia. rewrite <- Hv. f_equal. lia.
    + repeat case_decide; try lia; by rewrite list_lookup_insert_ne by lia.
Qed.

(** memmove() copies as if through a temporary, whatever the overlap. *)
Lemma memmove_moves a dst src n : (dst + n <= length a)%nat -> (src + n <= length a)%nat ->
  memmove a dst src n = Some (moved a dst src n).
Proof.
  intros Hd Hs. unfold memmove. destruct (Nat.ltb_spec dst src) as [Hlt|Hle].
  - destruct (move_up_ok n a dst src Hlt Hs) as (b & -> & _ & Hb). f_equal. apply list_eq. intros i. by rewrite Hb, lookup_moved.
  - destruct (move_down_ok n a dst src Hle Hd) as (b & -> & _ & Hb). f_equal. apply list_eq. intros i. by rewrite Hb, lookup_moved.
Qed.

Lemma strchr_nul seg junk c : c <> 0 -> 0 ∉ seg -> c ∉ seg /\ strchr (seg ++ 0 :: junk) c = None \/
  exists x y, seg = x ++ c :: y /\ c ∉ x /\ strchr (seg ++ 0 :: junk) c = Some (length x).
Proof.
  intros Hc. induction seg as [|b seg IH]; simpl; [left; split; [apply not_elem_of_nil|done]|].
  rewrite not_elem_of_cons. intros [Hb Hs]. rewrite (proj2 (Z.eqb_neq b 0)) by congruence.
  destruct (Z.eqb_spec b c) as [->|Hbc].
  - right. exists [], seg. split_and!; [done|apply not_elem_of_nil|done].
  - destruct (IH Hs) as [[Hn E]|(x & y & -> & Hx & E)]; rewrite E; [left|right].
    + rewrite not_elem_of_cons. split; [|done]. by split; [apply not_eq_sym|].
    + exists (b :: x), y. rewrite not_elem_of_cons. split_and!; done.
Qed.
