(* ===== verification/Grep.v ===== *)
(** * grep (user/grep.c)

    The matcher of Kernighan and Pike, shown to decide the language of the pattern
    read as a regular expression, and the loop that reads a file in pieces into a
    buffer of 1024 bytes and prints the lines that match. *)
From S2P Require Import Prelude Machine KString User Ulib.
Local Open Scope Z_scope.
Local Open Scope kernel_scope.

(** ** The matcher *)

(** matchstar: search for c*re at beginning of text; [here] is matchhere(re, .). *)
Fixpoint matchstar (here : list Z -> bool) (c : Z) (text : list Z) : bool :=
  if here text then true else
  match text with
  | [] => false
  | t :: text => if negb (t =? 0) && ((t =? c) || (c =? 46)) then matchstar here c text else false
  end.

(** matchhere: search for re at beginning of text. *)
Fixpoint matchhere (re text : list Z) : bool :=
  match re with
  | [] => true
  | c :: re1 =>
      if c =? 0 then true else
      let next :=
        if (c =? 36) && (hd 0 re1 =? 0) then hd 0 text =? 0 else
        match text with
        | [] => false
        | t :: text => if negb (t =? 0) && ((c =? 46) || (c =? t)) then matchhere re1 text else false
        end in
      match re1 with
      | [] => next
      | c1 :: re2 => if c1 =? 42 then matchstar (matchhere re2) c text else next
      end
  end.

(** [do { if(matchhere(re, text)) return 1; } while( *text++ != 0 );] *)
Fixpoint match_loop (re text : list Z) : bool :=
  if matchhere re text then true else
  match text with
  | [] => false
  | t :: text => if negb (t =? 0) then match_loop re text else false
  end.

Definition match_ (re text : list Z) : bool :=
  if hd 0 re =? 94 then matchhere (tl re) text else match_loop re text.

(** ** The program *)
Section grep.
Context {W : Type} `{OS : !Os W}.

(** The inner loop: the lines in [buf] from [p] on. *)
Definition grep_lines (pattern : list Z) (x : nat * list Z) : K W (nat * list Z) :=
  while_ budget (fun '(p, buf) =>
    match strchr (drop p buf) 10 with
    | None => ret (inr (p, buf))
    | Some d =>
        let q := (p + d)%nat in
        let buf := <[q := 0]> buf in
        buf <- (if match_ pattern (drop p buf) then
                  let buf := <[q := 10]> buf in
                  write 1 (take (q + 1 - p) (drop p buf));;
                  ret buf
                else ret buf);;
        ret (inl ((q + 1)%nat, buf))
    end) x.

(** A round of the outer loop: read a piece of the file after the [m] bytes of an
    unfinished line. *)
Definition grep_piece (pattern : list Z) (fd : Z) (x : nat * list Z) : K W (nat * list Z + list Z) :=
  let '(m, buf) := x in
  r <- read fd (1024 - Z.of_nat m - 1);;
  let '(n, data) := r in
  if negb (0 <? n) then ret (inr buf) else
  let buf := take m buf ++ data ++ drop (m + length data) buf in
  let m := (m + Z.to_nat n)%nat in
  let buf := <[m := 0]> buf in
  x <- grep_lines pattern (O, buf);;
  let '(p, buf) := x in
  if (0 <? m)%nat then
    let m := (m - p)%nat in
    match memmove buf 0 p m with
    | Some buf => ret (inl (m, buf))
    | None => panic "memmove"
    end
  else ret (inl (m, buf)).

Definition grep (pattern : list Z) (fd : Z) (buf : list Z) : K W (list Z) :=
  while_ budget (grep_piece pattern fd) (O, buf).

(** The loop of main over the files; [buf] is global. *)
Fixpoint grep_files (pattern : list Z) (files : list (list Z)) (buf : list Z) : K W unit :=
  match files with
  | [] => ret tt
  | f :: files =>
      fd <- open f 0;;
      if fd <? 0 then
        printf (str "grep: cannot open %s" ++ [10]) [UStr (Some f)];;
        exit 1
      else
      buf <- grep pattern fd buf;;
      close fd;;
      grep_files pattern files buf
  end.

Definition grep_main (argv : list (list Z)) : K W unit :=
  let buf := replicate 1024 0 in
  match argv with
  | [] | [_] =>
      fprintf 2 (str "usage: grep pattern [file ...]" ++ [10]) [];;
      exit 1
  | [_; pattern] =>
      grep pattern 0 buf;;
      exit 0
  | _ :: pattern :: files =>
      grep_files pattern files buf;;
      exit 0
  end.
End grep.

(** ** Patterns as regular expressions *)
Inductive rx := One (c : Z) | Star (c : Z).

(** '.' is any character; every other character is itself. *)
Definition single (c t : Z) : Prop := c = 46 \/ c = t.

Inductive lang : list rx -> list Z -> Prop :=
| lang_nil : lang [] []
| lang_one c t r l : single c t -> lang r l -> lang (One c :: r) (t :: l)
| lang_star c r l1 l2 : Forall (single c) l1 -> lang r l2 -> lang (Star c :: r) (l1 ++ l2).

(** The expression a pattern is, and whether it ends in '$'. *)
Fixpoint parse (p : list Z) : list rx * bool :=
  match p with
  | [] => ([], false)
  | c :: p1 =>
      let next := if (c =? 36) && bool_decide (p1 = []) then ([], true) else (One c :: (parse p1).1, (parse p1).2) in
      match p1 with
      | [] => next
      | c1 :: p2 => if c1 =? 42 then (Star c :: (parse p2).1, (parse p2).2) else next
      end
  end.

(** [mid] is in the language of the pattern, and nothing follows it if the pattern
    ends in '$'. *)
Definition here (p : list Z) (text : list Z) : Prop :=
  exists mid post, text = mid ++ post /\ lang (parse p).1 mid /\ ((parse p).2 = true -> post = []).

Notation nonul := (Forall (fun b => b <> 0)).

Lemma star_ok (h : list Z -> bool) (p : list Z) c text : (forall t, nonul t -> h t = true <-> here p t) -> nonul text ->
  matchstar h c text = true <-> exists l rest, text = l ++ rest /\ Forall (single c) l /\ here p rest.
Proof.
  intros Hh. induction text as [|t text IH]; intros Hn; cbn [matchstar]; destruct (h _) eqn:E.
  - split; [|done]. intros _. exists [], []. split_and!; [done|done|by apply Hh].
  - split; [done|]. intros (l & rest & El & Hl & Hr). symmetry in El. apply app_eq_nil in El as [-> ->].
    apply Hh in Hr; [congruence|done].
  - split; [|done]. intros _. exists [], (t :: text). split_and!; [done|done|by apply Hh].
  - inversion Hn as [|? ? Ht Hn']; subst. rewrite (proj2 (Z.eqb_neq t 0)) by done. cbn [negb andb].
    destruct ((t =? c) || (c =? 46)) eqn:Ec.
    + rewrite IH by done. assert (single c t) as Hs by (unfold single; lia). split.
      * intros (l & rest & -> & Hl & Hr). exists (t :: l), rest. split_and!; [done|by constructor|done].
      * intros ([|a l] & rest & El & Hl & Hr); simpl in El.
        -- subst rest. apply Hh in Hr; [congruence|done].
        -- injection El as <- ->. exists l, rest. by inversion Hl.
    + split; [done|]. intros ([|a l] & rest & El & Hl & Hr); simpl in El.
      * subst rest. apply Hh in Hr; [congruence|done].
      * injection El as <- ->. inversion Hl as [|? ? Hs]; subst. unfold single in Hs. lia.
Qed.

Lemma here_nil p text : parse p = ([], false) -> here p text.
Proof. intros E. exists [], text. rewrite E. split_and!; [done|constructor|done]. Qed.

Lemma here_end p text : parse p = ([], true) -> here p text <-> text = [].
Proof.
  intros E. unfold here. rewrite E. split.
  - intros (mid & post & -> & Hm & Hp). inversion Hm; subst. simpl. by apply Hp.
  - intros ->. exists [], []. split_and!; [done|constructor|done].
Qed.

Lemma here_one p p1 c text : parse p = (One c :: (parse p1).1, (parse p1).2) ->
  here p text <-> exists t text', text = t :: text' /\ single c t /\ here p1 text'.
Proof.
  intros E. unfold here at 1. rewrite E. split.
  - intros (mid & post & -> & Hm & Hp). inversion Hm as [|? t ? l Ht Hl|]; subst. exists t, (l ++ post).
    split_and!; [done|done|]. by exists l, post.
  - intros (t & text' & -> & Ht & mid & post & -> & Hm & Hp). exists (t :: mid), post. split_and!; [done|by constructor|done].
Qed.

Lemma here_star p p2 c text : parse p = (Star c :: (parse p2).1, (parse p2).2) ->
  here p text <-> exists l rest, text = l ++ rest /\ Forall (single c) l /\ here p2 rest.
Proof.
  intros E. unfold here at 1. rewrite E. split.
  - intros (mid & post & -> & Hm & Hp). inversion Hm as [| |? ? l1 l2 H1 H2]; subst. exists l1, (l2 ++ post).
    split_and!; [by rewrite app_assoc|done|]. by exists l2, post.
  - intros (l & rest & -> & Hl & mid & post & -> & Hm & Hp). exists (l ++ mid), post.
    split_and!; [by rewrite app_assoc|by constructor|done].
Qed.

(** One character of the pattern. *)
Definition matchnext (c : Z) (re1 text : list Z) : bool :=
  if (c =? 36) && (hd 0 re1 =? 0) then hd 0 text =? 0 else
  match text with
  | [] => false
  | t :: text => if negb (t =? 0) && ((c =? 46) || (c =? t)) then matchhere re1 text else false
  end.

Lemma matchhere_cons c re1 text : c <> 0 -> matchhere (c :: re1) text =
  match re1 with c1 :: re2 => if c1 =? 42 then matchstar (matchhere re2) c text else matchnext c re1 text | [] => matchnext c re1 text end.
Proof. intros Hc. cbn [matchhere]. by rewrite (proj2 (Z.eqb_neq c 0)). Qed.

Lemma parse_next c re1 : hd 0 re1 <> 42 -> nonul re1 -> parse (c :: re1) =
  if (c =? 36) && (hd 0 re1 =? 0) then ([], true) else (One c :: (parse re1).1, (parse re1).2).
Proof.
  intros Hne Hr. destruct re1 as [|c1 re2]; [cbn; by destruct (c =? 36)|]. simpl in Hne. inversion Hr as [|? ? Hc1 _]; subst.
  change (parse (c :: c1 :: re2)) with (if c1 =? 42 then (Star c :: (parse re2).1, (parse re2).2) else
    if (c =? 36) && bool_decide (c1 :: re2 = []) then ([], true) else (One c :: (parse (c1 :: re2)).1, (parse (c1 :: re2)).2)).
  rewrite (proj2 (Z.eqb_neq c1 42) Hne), bool_decide_false by done. cbn [hd].
  by rewrite (proj2 (Z.eqb_neq c1 0) Hc1), andb_false_r.
Qed.

Lemma matchnext_ok c re1 text : (forall t, nonul t -> matchhere re1 t = true <-> here re1 t) -> hd 0 re1 <> 42 -> nonul re1 -> nonul text ->
  matchnext c re1 text = true <-> here (c :: re1) text.
Proof.
  intros IH Hne Hr Ht. pose proof (parse_next c re1 Hne Hr) as E. unfold matchnext. destruct ((c =? 36) && (hd 0 re1 =? 0)).
  - rewrite (here_end _ _ E). destruct text as [|t text]; simpl; [done|]. inversion Ht; subst.
    by rewrite (proj2 (Z.eqb_neq t 0)).
  - rewrite (here_one _ _ _ _ E). destruct text as [|t text]; [split; [done|naive_solver]|]. inversion Ht; subst.
    rewrite (proj2 (Z.eqb_neq t 0)) by done. cbn [negb andb]. destruct ((c =? 46) || (c =? t)) eqn:Ec.
    + rewrite IH by done. assert (single c t) by (unfold single; lia). split; [by eauto|]. by intros (? & ? & [= <- <-] & _ & ?).
    + split; [done|]. intros (? & ? & [= <- <-] & Hs & _). unfold single in Hs. lia.
Qed.

Lemma matchhere_ok re : nonul re -> forall text, nonul text -> matchhere re text = true <-> here re text.
Proof.
  induction re as [re IH] using (induction_ltof1 _ (@length Z)). unfold ltof in IH. intros Hr text Ht.
  destruct re as [|c re1]; [split; [intros _; by apply here_nil|done]|]. inversion Hr as [|? ? Hc Hr1]; subst.
  rewrite matchhere_cons by done. destruct re1 as [|c1 re2]; [apply matchnext_ok; try done; apply IH; [simpl; lia|done]|].
  destruct (Z.eqb_spec c1 42) as [->|Hne].
  - inversion Hr1; subst. rewrite (here_star (c :: 42 :: re2) re2 c) by done.
    apply star_ok; [|done]. apply IH; [simpl; lia|done].
  - apply matchnext_ok; try done. apply IH; [simpl; lia|done].
Qed.

(** Text after the NUL does not matter. *)
Lemma matchstar_cut h c text : (forall t, h t = h (cut t)) -> matchstar h c text = matchstar h c (cut text).
Proof.
  intros Hh. induction text as [|t text IH]; [done|]. cbn [matchstar]. rewrite Hh. cbn [cut].
  destruct (Z.eqb_spec t 0) as [->|Ht]; simpl; [done|]. rewrite (proj2 (Z.eqb_neq t 0)) by done. simpl. by rewrite IH.
Qed.

Lemma hd_cut l : hd 0 (cut l) = hd 0 l.
Proof. destruct l as [|b l]; simpl; [done|]. by destruct (Z.eqb_spec b 0) as [->|]. Qed.

Lemma matchhere_cut_text re : forall text, matchhere re text = matchhere re (cut text).
Proof.
  induction re as [re IH] using (induction_ltof1 _ (@length Z)). unfold ltof in IH. intros text.
  destruct re as [|c re1]; [done|]. destruct (decide (c = 0)) as [->|Hc]; [done|]. rewrite !matchhere_cons by done.
  assert (matchnext c re1 text = matchnext c re1 (cut text)) as En.
  { unfold matchnext. rewrite hd_cut. destruct ((c =? 36) && (hd 0 re1 =? 0)); [done|]. destruct text as [|t text]; [done|]. cbn [cut].
    destruct (Z.eqb_spec t 0) as [->|Ht]; [done|]. rewrite (proj2 (Z.eqb_neq t 0)) by done. rewrite (IH re1); [done|simpl; lia]. }
  destruct re1 as [|c1 re2]; [done|]. destruct (c1 =? 42); [|done]. apply matchstar_cut. apply IH. simpl. lia.
Qed.

Lemma matchstar_ext h h' c text : (forall t, h t = h' t) -> matchstar h c text = matchstar h' c text.
Proof. intros Hh. induction text as [|t text IH]; cbn [matchstar]; rewrite Hh; [done|]. by rewrite IH. Qed.

Lemma matchhere_cut_re re : forall text, matchhere re text = matchhere (cut re) text.
Proof.
  induction re as [re IH] using (induction_ltof1 _ (@length Z)). unfold ltof in IH. intros text.
  destruct re as [|c re1]; [done|]. cbn [cut]. destruct (Z.eqb_spec c 0) as [->|Hc]; [done|]. rewrite !matchhere_cons by done.
  assert (matchnext c re1 text = matchnext c (cut re1) text) as En.
  { unfold matchnext. rewrite hd_cut. destruct ((c =? 36) && (hd 0 re1 =? 0)); [done|]. destruct text as [|t text]; [done|].
    rewrite (IH re1); [done|simpl; lia]. }
  destruct re1 as [|c1 re2]; [done|]. cbn [cut]. destruct (Z.eqb_spec c1 0) as [->|Hc1]; [done|]. cbn [cut] in En.
  rewrite (proj2 (Z.eqb_neq c1 0)) in En by done. destruct (c1 =? 42); [|done]. apply matchstar_ext. apply IH. simpl. lia.
Qed.

Lemma match_loop_ok re text : nonul re -> nonul text -> match_loop re text = true <-> exists pre rest, text = pre ++ rest /\ here re rest.
Proof.
  intros Hr. induction text as [|t text IH]; intros Ht; cbn [match_loop]; pose proof (matchhere_ok re Hr _ Ht) as Hh; destruct (matchhere re _).
  - split; [|done]. intros _. exists [], []. by rewrite <- Hh.
  - split; [done|]. intros (pre & rest & E & Hrest). symmetry in E. apply app_eq_nil in E as [-> ->]. by apply Hh.
  - split; [|done]. intros _. exists [], (t :: text). by rewrite <- Hh.
  - inversion Ht; subst. rewrite (proj2 (Z.eqb_neq t 0)) by done. simpl. rewrite IH by done. split.
    + intros (pre & rest & -> & Hrest). by exists (t :: pre), rest.
    + intros ([|t' pre] & rest & E & Hrest); simpl in E; [subst rest; apply Hh in Hrest; done|]. injection E as <- ->. by exists pre, rest.
Qed.

Lemma match_loop_cut re text : match_loop re text = match_loop (cut re) (cut text).
Proof.
  induction text as [|t text IH]; cbn [match_loop]; rewrite matchhere_cut_re, matchhere_cut_text; [done|]. cbn [cut].
  destruct (Z.eqb_spec t 0) as [->|Ht]; simpl; [done|]. rewrite (proj2 (Z.eqb_neq t 0)) by done. simpl. by rewrite IH.
Qed.

(** C15: match() decides the language of the pattern: it returns 1 exactly when some
    part of the text (before the NUL) is in the language of the pattern read as a
    regular expression of literal characters, '.' and starred characters; the part
    is at the beginning if the pattern starts with '^' and at the end if it ends
    with '$'. *)
Theorem match_decides re text : match_ re text = true <-> exists pre mid post,
  cut text = pre ++ mid ++ post /\
  let p := if hd 0 re =? 94 then tl (cut re) else cut re in
  lang (parse p).1 mid /\ ((hd 0 re =? 94) = true -> pre = []) /\ ((parse p).2 = true -> post = []).
Proof.
  assert (nonul (cut re) /\ nonul (cut text)) as [Hr Ht] by (split; apply cut_nonzero).
  unfold match_. destruct (Z.eqb_spec (hd 0 re) 94) as [E|E]; cbn zeta.
  - destruct re as [|c re]; [done|]. simpl in E. subst c. cbn [tl cut] in *. simpl Z.eqb in *. cbv iota in *. inversion Hr; subst.
    rewrite matchhere_cut_re, matchhere_cut_text, (matchhere_ok (cut re)) by done. unfold here. split.
    + intros (mid & post & -> & Hl & Hp). by exists [], mid, post.
    + intros (pre & mid & post & Et & Hl & Hpre & Hp). rewrite Hpre in Et by done. by exists mid, post.
  - rewrite match_loop_cut, match_loop_ok by done. split.
    + intros (pre & rest & -> & mid & post & -> & Hl & Hp). by exists pre, mid, post.
    + intros (pre & mid & post & -> & Hl & _ & Hp). exists pre, (mid ++ post). split; [done|]. by exists mid, post.
Qed.

(** ** The lines of a file *)
Definition unlines (ls : list (list Z)) : list Z := concat (map (fun l => l ++ [10]) ls).

Lemma unlines_cons l ls : unlines (l :: ls) = l ++ 10 :: unlines ls.
Proof. unfold unlines. simpl. by rewrite <- app_assoc. Qed.

Lemma unlines_app ls1 ls2 : unlines (ls1 ++ ls2) = unlines ls1 ++ unlines ls2.
Proof. unfold unlines. by rewrite map_app, concat_app. Qed.

Lemma split_first (x y x' y' : list Z) : 10 ∉ x -> 10 ∉ x' -> x ++ 10 :: y = x' ++ 10 :: y' -> x = x' /\ y = y'.
Proof.
  revert x'. induction x as [|a x IH]; intros [|a' x']; simpl; rewrite ?not_elem_of_cons; intros Hx Hx' [=]; subst; try tauto.
  destruct (IH x') as [-> ->]; tauto.
Qed.

Section lines.
Context (tail : list Z) (Htail : 10 ∉ tail).
Notation line_ok := (fun l : list Z => 10 ∉ l).

(** A newline in the text ends its first line. *)
Lemma first_line x y ls : 10 ∉ x -> Forall line_ok ls -> x ++ 10 :: y = unlines ls ++ tail ->
  exists ls', ls = x :: ls' /\ y = unlines ls' ++ tail.
Proof.
  intros Hx Hls E. destruct ls as [|l ls].
  - destruct Htail. simpl in E. rewrite <- E, elem_of_app, elem_of_cons. tauto.
  - inversion Hls; subst. rewrite unlines_cons, <- app_assoc in E. apply split_first in E as [-> ->]; [|done|done]. by exists ls.
Qed.

(** Text without a newline is part of the first line, or of what follows the last. *)
Lemma part_line x rest ls n : 10 ∉ x -> Forall (fun l => length l <= n)%nat ls -> (length tail <= S n)%nat ->
  x ++ rest = unlines ls ++ tail -> (length x <= n)%nat \/ ls = [] /\ x ++ rest = tail.
Proof.
  intros Hx Hls Ht E. destruct ls as [|l ls]; [by right|left]. inversion Hls; subst. rewrite unlines_cons, <- app_assoc in E.
  destruct (decide (length x <= length l)%nat); [lia|]. destruct Hx. apply list_elem_of_lookup. exists (length l).
  assert ((x ++ rest) !! length l = Some 10) as H by (rewrite E, lookup_app_r, Nat.sub_diag by lia; done).
  by rewrite lookup_app_l in H by lia.
Qed.
End lines.

Lemma match_nul re x r : 0 ∉ x -> match_ re (x ++ 0 :: r) = match_ re x.
Proof.
  intros Hx. unfold match_. destruct (hd 0 re =? 94).
  - by rewrite matchhere_cut_text, cut_app_nul.
  - by rewrite match_loop_cut, (match_loop_cut re x), cut_app_nul, (cut_id x).
Qed.

Lemma insert_mid {X} (pre x : list X) a v r : <[(length pre + length x)%nat := v]> (pre ++ x ++ a :: r) = pre ++ x ++ v :: r.
Proof. by rewrite insert_app_r, (insert_app_r_alt x) by lia; rewrite ?Nat.sub_diag. Qed.

(** ** The loops *)
Section loops.
Context {W : Type} `{OS : !Os W} `{IO : !OsIo W}.
Context (pattern : list Z) (fd : Z) (tail : list Z) (Htail : 10 ∉ tail).
Notation matches := (fun l => match_ pattern l = true).
Notation line_ok := (fun l : list Z => 10 ∉ l).

(** The output of the lines [ls] is on descriptor 1. *)
Definition printed (w : W) (out : list Z) (ls : list (list Z)) (w' : W) : Prop :=
  io_out (ios w') !! 1 = Some (out ++ unlines (filter matches ls)) /\ io_in (ios w') !! fd = io_in (ios w) !! fd /\ io_keep fd (ios w) (ios w').

Lemma printed_nil w out : io_out (ios w) !! 1 = Some out -> printed w out [] w.
Proof. intros E. split; [|done]. rewrite filter_nil. unfold unlines. simpl. by rewrite app_nil_r. Qed.

Lemma printed_snoc w out ls x w1 w2 : printed w out ls w1 ->
  ios w2 = (if match_ pattern x then set_out 1 (out ++ unlines (filter matches ls) ++ x ++ [10]) (ios w1) else ios w1) ->
  printed w out (ls ++ [x]) w2.
Proof.
  intros (Ho & Hi & Hk) E. unfold printed. rewrite filter_app, unlines_app, filter_cons, filter_nil.
  destruct (match_ pattern x) eqn:Em.
  - rewrite decide_True by done. rewrite unlines_cons. rewrite E. simpl. rewrite lookup_insert_eq.
    split_and!; [done|done|]. etrans; [exact Hk|apply io_keep_out].
  - rewrite decide_False by congruence. rewrite E, app_nil_r. done.
Qed.

Lemma grep_lines_ok buf pre seg junk rest ls w out : buf = pre ++ seg ++ 0 :: junk -> 0 ∉ seg -> Z.of_nat (length seg) < 2 ^ 40 ->
  seg ++ rest = unlines ls ++ tail -> Forall line_ok ls -> io_out (ios w) !! 1 = Some out ->
  wp (grep_lines pattern (length pre, buf) w) (fun x w' => exists pre' seg' junk' ls1 ls2, ls = ls1 ++ ls2 /\
    x = (length pre', pre' ++ seg' ++ 0 :: junk') /\ (length pre' + length seg' = length pre + length seg)%nat /\
    length junk' = length junk /\
    0 ∉ seg' /\ 10 ∉ seg' /\ seg' ++ rest = unlines ls2 ++ tail /\ printed w out ls1 w').
Proof.
  intros -> Hz Hlen Erest Hls Hout. unfold grep_lines.
  apply (wp_while_ghost _ (fun g x w' => exists pre' junk' ls1 ls2, ls = ls1 ++ ls2 /\ x = (length pre', pre' ++ g ++ 0 :: junk') /\
    (length pre' + length g = length pre + length seg)%nat /\ length junk' = length junk /\
    0 ∉ g /\ g ++ rest = unlines ls2 ++ tail /\ printed w out ls1 w') (fun g => Z.of_nat (length g)) _) with (g := seg).
  - intros g x w' (pre' & junk' & ls1 & ls2 & -> & -> & Hl & Hj & Hg & Eg & Hp). rewrite drop_app_length.
    destruct (strchr_nul g junk' 10 ltac:(done) Hg) as [[Hn ->]|(y & z & -> & Hy & ->)].
    { kstep. exists pre', g, junk', ls1, ls2. done. }
    apply Forall_app in Hls as [_ Hls2]. rewrite <- app_assoc in Eg. simpl in Eg.
    destruct (first_line tail Htail y (z ++ rest) ls2 Hy Hls2 Eg) as (ls' & -> & Ez).
    rewrite <- !app_assoc. simpl. rewrite insert_mid, drop_app_length, insert_mid.
    rewrite elem_of_app, elem_of_cons in Hg. rewrite match_nul by tauto.
    assert (forall b w2, b = pre' ++ y ++ (if match_ pattern y then 10 else 0) :: z ++ 0 :: junk' -> printed w out (ls1 ++ [y]) w2 ->
      wp (ret (@inl _ (nat * list Z) ((length pre' + length y + 1)%nat, b)) w2) (fun r s' => match r with
        | inl x' => exists g', (exists pre0 junk0 ls0 ls3, ls1 ++ y :: ls' = ls0 ++ ls3 /\ x' = (length pre0, pre0 ++ g' ++ 0 :: junk0) /\
            (length pre0 + length g' = length pre + length seg)%nat /\ length junk0 = length junk /\ 0 ∉ g' /\
            g' ++ rest = unlines ls3 ++ tail /\ printed w out ls0 s') /\ Z.of_nat (length g') < Z.of_nat (length (y ++ 10 :: z))
        | inr b0 => exists pre0 seg' junk0 ls0 ls3, ls1 ++ y :: ls' = ls0 ++ ls3 /\ b0 = (length pre0, pre0 ++ seg' ++ 0 :: junk0) /\
            (length pre0 + length seg' = length pre + length seg)%nat /\ length junk0 = length junk /\ 0 ∉ seg' /\ 10 ∉ seg' /\
            seg' ++ rest = unlines ls3 ++ tail /\ printed w out ls0 s' end)) as Hnext.
    { intros b w2 -> Hp2. kstep. exists z. rewrite length_app in Hl |- *. simpl in *. split; [|lia].
      exists (pre' ++ y ++ [if match_ pattern y then 10 else 0]), junk', (ls1 ++ [y]), ls'.
      rewrite <- !app_assoc, !length_app. simpl. split_and!; try done; [f_equal; lia|lia|tauto]. }
    assert (take (length pre' + length y + 1 - length pre') (y ++ 10 :: z ++ 0 :: junk') = y ++ [10]) as Ed.
    { replace (length pre' + length y + 1 - length pre')%nat with (length (y ++ [10])) by (rewrite length_app; simpl; lia).
      by rewrite (cons_middle 10 y (z ++ 0 :: junk')), (app_assoc y [10]), take_app_length. }
    destruct (match_ pattern y) eqn:Em; kstep.
    + kstep. destruct Hp as (Ho & Hi & Hk). eapply wp_write; [exact Ho|]. intros w2 E2. rewrite drop_app_length, Ed in E2.
      kstep. apply Hnext; [done|]. eapply printed_snoc; [by split_and!|]. by rewrite Em, E2, <- app_assoc.
    + kstep. apply Hnext; [done|]. eapply printed_snoc; [done|]. by rewrite Em.
  - intros; lia.
  - exists pre, junk, [], ls. split_and!; try done. by apply printed_nil.
  - unfold budget. lia.
Qed.

(** What the loop over the pieces of the file starts from: [carry] is the part of a
    line that was read, [rest] what will still be read. *)
Record grep_inv (w0 : W) (out : list Z) (all : list (list Z)) (rest : list Z) (x : nat * list Z) (w : W) : Prop := {
  gi_buf : exists carry junk ls1 ls2, x = (length carry, carry ++ junk) /\ (length carry + length junk = 1024)%nat /\
    (length carry <= 1023)%nat /\ 0 ∉ carry ++ rest /\ 10 ∉ carry /\ carry ++ rest = unlines ls2 ++ tail /\
    all = ls1 ++ ls2 /\ io_out (ios w) !! 1 = Some (out ++ unlines (filter matches ls1));
  gi_in : io_in (ios w) !! fd = Some rest;
  gi_keep : io_keep fd (ios w0) (ios w)
}.

Context (Htlen : (length tail <= 1023)%nat).

Lemma grep_piece_ok w0 out all rest x w : Forall (fun l : list Z => 10 ∉ l /\ (length l <= 1022)%nat) all -> grep_inv w0 out all rest x w ->
  wp (grep_piece pattern fd x w) (fun r w' => match r with
      | inl x' => exists rest', grep_inv w0 out all rest' x' w' /\ Z.of_nat (length rest') < Z.of_nat (length rest)
      | inr buf' => length buf' = 1024%nat /\ io_in (ios w') !! fd = Some [] /\
          io_out (ios w') !! 1 = Some (out ++ unlines (filter matches all)) /\ io_keep fd (ios w0) (ios w')
      end).
Proof.
  intros Hall [(carry & junk & ls1 & ls2 & -> & Hlen & Hle & Hz & Hn & E & -> & Hout) Hin Hkeep].
  apply Forall_app in Hall as [Hall1 Hall2].
  assert ((length carry <= 1022)%nat \/ rest = []) as Hroom.
  { destruct (part_line tail carry rest ls2 1022 Hn ltac:(eapply Forall_impl; [exact Hall2|]; by intros ? []) Htlen E) as [?|[-> Et]]; [by left|].
    destruct rest as [|b rest]; [by right|left]. assert (length (carry ++ b :: rest) <= 1023)%nat by by rewrite Et.
    rewrite length_app in *. simpl in *. lia. }
  unfold grep_piece. kstep. eapply wp_read; [exact Hin|lia|]. intros data rest' w1 -> Hd Hne E1. cbv beta iota.
  assert (io_keep fd (ios w0) (ios w1)) as Hkeep1 by (rewrite E1; etrans; [exact Hkeep|apply io_keep_in]).
  assert (io_in (ios w1) !! fd = Some rest') as Hin1 by (rewrite E1; simpl; by rewrite lookup_insert_eq).
  assert (io_out (ios w1) !! 1 = io_out (ios w) !! 1) as Ho1 by by rewrite E1.
  rewrite <- Ho1 in Hout. destruct (Z.ltb_spec 0 (Z.of_nat (length data))) as [Hpos|Hnil]; cbn [negb].
  2:{ kstep. assert (data = []) as -> by (destruct data; [done|simpl in *; lia]). simpl in *.
    assert (rest' = []) as -> by (destruct rest' as [|b rest']; [done|destruct Hroom; [exfalso; apply Hne; [lia|done|done]|done]]).
    rewrite app_nil_r in E. destruct ls2 as [|l ls2].
    - split_and!; [by rewrite length_app|done|by rewrite app_nil_r|done].
    - destruct Hn. rewrite E, unlines_cons, !elem_of_app, elem_of_cons. tauto. }
  rewrite take_app_length.
  assert (exists v junk', drop (length carry + length data) (carry ++ junk) = v :: junk' /\
    (length carry + length data + S (length junk') = 1024)%nat) as (v & junk' & -> & Hj).
  { destruct (drop _ _) as [|v junk'] eqn:Ed; apply (f_equal length) in Ed; rewrite length_drop, length_app in Ed; simpl in Ed; [lia|].
    exists v, junk'. split; [done|lia]. }
  rewrite Nat2Z.id, insert_mid, (app_assoc carry data).
  rewrite app_assoc in E, Hz. kstep. eapply wp_mono; [|eapply (grep_lines_ok _ [] (carry ++ data) junk' rest' ls2 w1)]; [|done|..|exact Hout].
  - intros ? w2 (pre' & seg' & junk2 & la & lb & -> & -> & Hl2 & Hj2 & Hz2 & Hn2 & E2 & (Hout2 & Hi2 & Hk2)). cbv beta iota.
    rewrite (proj2 (Nat.ltb_lt 0 _)) by lia. rewrite length_app in Hl2. simpl in Hl2.
    replace (length carry + length data - length pre')%nat with (length seg') by lia.
    rewrite memmove_moves by (rewrite ?length_app; simpl; lia). kstep. exists rest'.
    split; [|rewrite length_app; lia]. split; [|congruence|by etrans].
    exists seg', (drop (0 + length seg') (pre' ++ seg' ++ 0 :: junk2)), (ls1 ++ la), lb.
    split_and!; try done.
    + unfold moved. simpl take. simpl app. by rewrite drop_app_length, take_app_length.
    + rewrite length_drop, !length_app. simpl. lia.
    + lia.
    + rewrite not_elem_of_app in Hz |- *. tauto.
    + by rewrite app_assoc.
    + by rewrite filter_app, unlines_app, app_assoc.
  - rewrite not_elem_of_app in Hz. tauto.
  - rewrite length_app. lia.
  - done.
  - eapply Forall_impl; [exact Hall2|]. by intros ? [].
Qed.

(** grep() prints the lines that match.  On a file whose lines have no NUL and at
    most 1022 characters it reads the file to its end, in whatever pieces read()
    gives it, and writes to descriptor 1 exactly the lines (with their newlines)
    that match() accepts, in their order; it returns and changes nothing else.  Text
    after the last newline is not a line. *)
Lemma grep_prints buf w ls out : length buf = 1024%nat -> io_in (ios w) !! fd = Some (unlines ls ++ tail) -> io_out (ios w) !! 1 = Some out ->
  Forall (fun l : list Z => 10 ∉ l /\ (length l <= 1022)%nat) ls -> 0 ∉ unlines ls ++ tail -> Z.of_nat (length (unlines ls)) < 2 ^ 39 ->
  wp (grep pattern fd buf w) (fun buf' w' => length buf' = 1024%nat /\ io_in (ios w') !! fd = Some [] /\
    io_out (ios w') !! 1 = Some (out ++ unlines (filter matches ls)) /\ io_keep fd (ios w) (ios w')).
Proof.
  intros Hbuf Hin Hout Hls Hz Hlen. unfold grep.
  apply (wp_while_ghost _ (grep_inv w out ls) (fun rest => Z.of_nat (length rest)) _) with (g := unlines ls ++ tail).
  - intros rest x w'. by apply grep_piece_ok.
  - intros. lia.
  - split; [|done|done]. exists [], buf, [], ls. simpl. split_and!; try done; [lia|apply not_elem_of_nil|].
    rewrite filter_nil. unfold unlines. simpl. by rewrite app_nil_r.
  - rewrite length_app. unfold budget. lia.
Qed.
End loops.

(** ** The program on files *)
(** A text file grep can read: lines of at most 1022 characters, no NUL. *)
Definition text_file (ls : list (list Z)) (tail : list Z) : Prop :=
  10 ∉ tail /\ (length tail <= 1023)%nat /\ Forall (fun l : list Z => 10 ∉ l /\ (length l <= 1022)%nat) ls /\
  0 ∉ unlines ls ++ tail /\ Z.of_nat (length (unlines ls)) < 2 ^ 39.

Section main.
Context {W : Type} `{OS : !Os W} `{IO : !OsIo W}.

Lemma grep_files_ok pattern files lss buf w out : length buf = 1024%nat -> io_out (ios w) !! 1 = Some out ->
  Forall2 (fun f ls => exists tail, text_file ls tail /\ io_file (ios w) !! f = Some (unlines ls ++ tail)) files lss ->
  wp (grep_files pattern files buf w) (fun _ w' =>
    io_out (ios w') !! 1 = Some (out ++ unlines (filter (fun l => match_ pattern l = true) (concat lss)))).
Proof.
  intros Hbuf Hout Hf. revert buf w out Hbuf Hout Hf. revert lss.
  induction files as [|f files IH]; intros lss buf w out Hbuf Hout Hf; inversion Hf as [|? ls ? lss' Hls Hlss]; subst; cbn [grep_files].
  { kstep. simpl. rewrite filter_nil. unfold unlines. simpl. by rewrite app_nil_r. }
  destruct Hls as (tail & (H1 & H2 & H3 & H4 & H5) & Ef). kstep. eapply wp_open; [exact Ef|]. intros fd w1 Hfd Hin Ho E1.
  rewrite (proj2 (Z.ltb_ge fd 0)) by done. kstep.
  eapply wp_mono; [|eapply (grep_prints pattern fd tail H1 H2 buf w1 ls out); try done; rewrite E1; simpl; [by rewrite lookup_insert_eq|done]].
  intros buf2 w2 (Hb2 & Hi2 & Ho2 & [K1 K2 K3 K4]). kstep. eapply wp_close; [exact Hi2|]. intros r w3 E3.
  cbn [concat]. rewrite filter_app, unlines_app, app_assoc. apply IH; [done|by rewrite E3|].
  eapply Forall2_impl; [exact Hlss|]. intros f' ls' (t' & Ht' & Ef'). exists t'. split; [done|].
  rewrite E3. simpl. rewrite K3, E1. done.
Qed.

(** C16: grep with a pattern and files writes to the standard output the lines of all
    the files that match the pattern, in order, and exits with status 0. *)
Theorem grep_main_prints name pattern f files lss w out : io_out (ios w) !! 1 = Some out ->
  Forall2 (fun f ls => exists tail, text_file ls tail /\ io_file (ios w) !! f = Some (unlines ls ++ tail)) (f :: files) lss ->
  uwp (grep_main (name :: pattern :: f :: files) w) (fun _ _ => False) (fun w' =>
    io_out (ios w') !! 1 = Some (out ++ unlines (filter (fun l => match_ pattern l = true) (concat lss))) /\ io_status (ios w') = Some 0).
Proof.
  intros Hout Hf. unfold grep_main. apply uwp_bind, uwp_wp. eapply wp_mono; [|by eapply grep_files_ok].
  intros [] w' Ho. apply uwp_exit. by rewrite exit_spec.
Qed.

(** ** A line that does not fit *)
Record long_inv (fd : Z) (w0 : W) (out l : list Z) (rest : list Z) (x : nat * list Z) (w : W) : Prop := {
  li_buf : exists carry junk, x = (length carry, carry ++ junk) /\ (length carry + length junk = 1024)%nat /\
    (length carry <= 1023)%nat /\ l = carry ++ rest;
  li_in : io_in (ios w) !! fd = Some rest;
  li_out : io_out (ios w) !! 1 = Some out
}.

Lemma long_piece pattern fd w0 out l rest x w : (1023 <= length l)%nat -> 10 ∉ take 1023 l -> 0 ∉ take 1023 l ->
  long_inv fd w0 out l rest x w -> wp (grep_piece pattern fd x w) (fun r w' => match r with
    | inl x' => exists rest', long_inv fd w0 out l rest' x' w' /\ Z.of_nat (length rest') < Z.of_nat (length rest)
    | inr buf' => io_in (ios w') !! fd = Some (drop 1023 l) /\ io_out (ios w') !! 1 = Some out
    end).
Proof.
  intros Hl Hn Hz [(carry & junk & -> & Hlen & Hle & El) Hin Hout]. unfold grep_piece. kstep. eapply wp_read; [exact Hin|lia|].
  intros data rest' w1 -> Hd Hne E1. cbv beta iota.
  assert (io_in (ios w1) !! fd = Some rest') as Hin1 by (rewrite E1; simpl; by rewrite lookup_insert_eq).
  assert (io_out (ios w1) !! 1 = Some out) as Ho1 by by rewrite E1.
  destruct (Z.ltb_spec 0 (Z.of_nat (length data))) as [Hpos|Hnil]; cbn [negb].
  2:{ kstep. assert (data = []) as -> by (destruct data; [done|simpl in *; lia]). simpl in *.
    assert (length carry = 1023%nat) as Ec.
    { destruct (decide (length carry = 1023%nat)) as [|Hc]; [done|]. exfalso. apply Hne; [lia| |done]. intros ->.
      rewrite app_nil_r in El. subst l. lia. }
    by rewrite El, <- Ec, drop_app_length. }
  rewrite take_app_length.
  assert (exists v junk', drop (length carry + length data) (carry ++ junk) = v :: junk' /\
    (length carry + length data + S (length junk') = 1024)%nat) as (v & junk' & -> & Hj).
  { destruct (drop _ _) as [|v junk'] eqn:Ed; apply (f_equal length) in Ed; rewrite length_drop, length_app in Ed; simpl in Ed; [lia|].
    exists v, junk'. split; [done|lia]. }
  rewrite Nat2Z.id, insert_mid, (app_assoc carry data). rewrite app_assoc in El.
  assert (forall b, b ∉ take 1023 l -> b ∉ carry ++ data) as Hpre.
  { intros b Hb Hin'. apply Hb. rewrite El, take_app_ge by (rewrite length_app; lia). rewrite elem_of_app. by left. }
  kstep. eapply wp_mono; [|eapply (grep_lines_ok pattern fd (carry ++ data) (Hpre 10 Hn) _ [] (carry ++ data) junk' [] [] w1)]; [|done|..].
  - intros ? w2 (pre' & seg' & junk2 & la & lb & Els & -> & Hl2 & Hj2 & Hz2 & Hn2 & E2 & (Hout2 & Hi2 & _)). cbv beta iota.
    symmetry in Els. apply app_eq_nil in Els as [-> ->]. rewrite app_nil_r in E2. simpl in E2. subst seg'.
    rewrite filter_nil in Hout2. unfold unlines in Hout2. simpl in Hout2. rewrite app_nil_r in Hout2.
    rewrite (proj2 (Nat.ltb_lt 0 _)) by lia. rewrite length_app in Hl2. simpl in Hl2.
    assert (pre' = []) as -> by (destruct pre'; [done|simpl in Hl2; lia]).
    rewrite memmove_moves by (rewrite ?length_app; simpl; rewrite ?length_app; simpl; lia). kstep. exists rest'.
    split; [|rewrite length_app; lia]. split; [|congruence|done].
    exists (carry ++ data), (drop (length (carry ++ data)) ((carry ++ data) ++ 0 :: junk2)). rewrite length_drop, !length_app. simpl.
    split_and!; [|lia|lia|done]. rewrite Nat.sub_0_r. f_equal. unfold moved. simpl. rewrite drop_0.
    by rewrite <- length_app, take_app_length.
  - by apply Hpre.
  - rewrite length_app. lia.
  - by rewrite app_nil_r.
  - done.
  - done.
Qed.

(** C39: a line of 1023 characters or more ends the search: when the first 1023
    characters of a file have no newline, grep() reads only these and prints
    nothing, whatever the rest of the file is. *)
Theorem grep_long_line pattern fd buf w l out : length buf = 1024%nat -> io_in (ios w) !! fd = Some l -> io_out (ios w) !! 1 = Some out ->
  (1023 <= length l)%nat -> Z.of_nat (length l) < 2 ^ 40 -> 10 ∉ take 1023 l -> 0 ∉ take 1023 l ->
  wp (grep pattern fd buf w) (fun _ w' => io_in (ios w') !! fd = Some (drop 1023 l) /\ io_out (ios w') !! 1 = Some out).
Proof.
  intros Hbuf Hin Hout Hl Hlt Hn Hz. unfold grep.
  apply (wp_while_ghost _ (long_inv fd w out l) (fun rest => Z.of_nat (length rest)) _) with (g := l).
  - intros rest x w'. by apply long_piece.
  - intros. lia.
  - split; [|done|done]. exists [], buf. simpl. split_and!; [done|lia|lia|done].
  - unfold budget. lia.
Qed.
End main.

(** ** Examples *)
Definition toy_file : list Z := unlines [str "ab"; str "cd"] ++ str "x".
Definition toy_io : io := mkIo ∅ {[1 := []]} {[str "f" := toy_file]} None.

Lemma grep_main_prints_witness :
  uwp (grep_main [str "grep"; str "^.b"; str "f"] toy_io) (fun _ _ => False) (fun w' =>
    io_out (ios w') !! 1 = Some ([] ++ unlines (filter (fun l => match_ (str "^.b") l = true) (concat [[str "ab"; str "cd"]]))) /\
    io_status (ios w') = Some 0).
Proof.
  apply (grep_main_prints (str "grep") (str "^.b") (str "f") [] [[str "ab"; str "cd"]] toy_io []); [done|].
  constructor; [|constructor]. exists (str "x"). split; [|done]. unfold text_file. split_and!; try by vm_compute; try lia.
  all: try (apply (bool_decide_unpack _); by vm_compute).
Defined.

Lemma grep_long_line_witness : let l := replicate 2000 97 in
  wp (grep (str "a") 5 (replicate 1024 0) (mkIo {[5 := l]} {[1 := []]} ∅ None)) (fun _ w' =>
    io_in (ios w') !! 5 = Some (drop 1023 l) /\ io_out (ios w') !! 1 = Some []).
Proof.
  apply (grep_long_line (str "a") 5 (replicate 1024 0) (mkIo {[5 := replicate 2000 97]} {[1 := []]} ∅ None) (replicate 2000 97) []);
    try done; try (apply (bool_decide_unpack _); by vm_compute).
Defined.
