(* ===== verification/Umalloc.v ===== *)
(** * The storage allocator of user programs (user/umalloc.c)

    Kernighan and Ritchie's allocator: free blocks on a circular list in address
    order, in units of a header of 16 bytes.  Memory is the headers at their
    addresses; [base] is the address of the static header the list starts from,
    below the memory that sbrk() gives.  The theorems show that the blocks handed
    out never overlap one another, the free blocks or the list's own headers, and
    are as large as asked for. *)
From S2P Require Import Prelude Machine User.
Local Open Scope Z_scope.
Local Open Scope kernel_scope.

(** [union header]: ptr, size. *)
Record header := mkHeader { h_ptr : Z; h_size : Z }.
Definition sizeof_header : Z := 16.

(** What the allocator relies on of sbrk(): it fails with -1, or returns the old end of
    the process's memory and grows it by as much as asked. *)
Class OsBrk (W : Type) `{OS : !Os W} := {
  brk : W -> Z;
  brk_range : forall w, 0 < brk w < 2 ^ 36;
  sbrk_spec : forall n w, 0 <= n -> let (r, w') := os_sbrk n w in r = -1 /\ brk w' = brk w \/ r = brk w /\ brk w' = brk w + n
}.

Section umalloc.
Context {W : Type} `{OS : !Os W} (base : Z).

(** The memory that holds headers, [freep] (0 before the first call), and the rest of
    the system. *)
Record heap := mkHeap { hp_mem : gmap Z header; hp_freep : Z; hp_os : W }.

Definition hdr_at (m : gmap Z header) (p : Z) : header := default (mkHeader 0 0) (m !! p).
Definition get_ptr (p : Z) : K heap Z := gets (fun s => h_ptr (hdr_at (hp_mem s) p)).
Definition get_size (p : Z) : K heap Z := gets (fun s => h_size (hdr_at (hp_mem s) p)).
Definition upd_hdr (p : Z) (f : header -> header) : K heap unit :=
  modify (fun s => mkHeap (<[p := f (hdr_at (hp_mem s) p)]> (hp_mem s)) (hp_freep s) (hp_os s)).
Definition set_ptr (p v : Z) : K heap unit := upd_hdr p (fun h => mkHeader v (h_size h)).
Definition set_size (p v : Z) : K heap unit := upd_hdr p (fun h => mkHeader (h_ptr h) (u32 v)).
Definition set_freep (p : Z) : K heap unit := modify (fun s => mkHeap (hp_mem s) p (hp_os s)).

(** Where [free] inserts: the block [p] before [bp] on the list. *)
Definition free_place (bp : Z) (p : Z) : K heap (Z + Z) :=
  next <- get_ptr p;;
  if (p <? bp) && (bp <? next) then ret (inr p) else
  if (next <=? p) && ((p <? bp) || (bp <? next)) then ret (inr p) else
  ret (inl next).

(** Join to the upper neighbour, and to the lower one. *)
Definition join_upper (bp p : Z) : K heap unit :=
  next <- get_ptr p;;
  size <- get_size bp;;
  if bp + size * sizeof_header =? next then
    nsize <- get_size next;;
    set_size bp (size + nsize);;
    nnext <- get_ptr next;;
    set_ptr bp nnext
  else set_ptr bp next.
Definition join_lower (bp p : Z) : K heap unit :=
  psize <- get_size p;;
  if p + psize * sizeof_header =? bp then
    size <- get_size bp;;
    set_size p (psize + size);;
    next <- get_ptr bp;;
    set_ptr p next
  else set_ptr p bp.

Definition free (ap : Z) : K heap unit :=
  let bp := ap - sizeof_header in
  freep <- gets hp_freep;;
  p <- while_ budget (free_place bp) freep;;
  join_upper bp p;;
  join_lower bp p;;
  set_freep p.

Definition sbrk (n : Z) : K heap Z := fun s =>
  let (r, w) := os_sbrk n (hp_os s) in Done r (mkHeap (hp_mem s) (hp_freep s) w).

Definition morecore (nu : Z) : K heap Z :=
  let nu := if nu <? 4096 then 4096 else nu in
  p <- sbrk (s32 (nu * sizeof_header));;
  if p =? -1 then ret 0 else
  set_size p nu;;
  free (p + sizeof_header);;
  gets hp_freep.

(** A round of the search: [prevp] and [p] = prevp->s.ptr. *)
Definition malloc_round (nunits : Z) (x : Z * Z) : K heap (Z * Z + Z) :=
  let '(prevp, p) := x in
  size <- get_size p;;
  if nunits <=? size then
    p <- (if size =? nunits then
            next <- get_ptr p;;
            set_ptr prevp next;;
            ret p
          else
            set_size p (size - nunits);;
            size <- get_size p;;
            let p := p + size * sizeof_header in
            set_size p nunits;;
            ret p);;
    set_freep prevp;;
    ret (inr (p + sizeof_header))
  else
  freep <- gets hp_freep;;
  if p =? freep then
    p <- morecore nunits;;
    if p =? 0 then ret (inr 0) else
    next <- get_ptr p;;
    ret (inl (p, next))
  else
    next <- get_ptr p;;
    ret (inl (p, next)).

Definition malloc (nbytes : Z) : K heap Z :=
  let nunits := u32 ((nbytes + sizeof_header - 1) / sizeof_header + 1) in
  freep <- gets hp_freep;;
  prevp <- (if freep =? 0 then
              set_freep base;;
              set_ptr base base;;
              set_size base 0;;
              ret base
            else ret freep);;
  p <- get_ptr prevp;;
  while_ budget (malloc_round nunits) (prevp, p).

(** ** The free list *)
(** A block: its address and its units. *)
Notation blk := (Z * Z)%type.
Definition first (l : list blk) (e : Z) : Z := match l with [] => e | b :: _ => b.1 end.

(** The blocks [l] are linked, the last one to [e]. *)
Fixpoint seg (m : gmap Z header) (l : list blk) (e : Z) : Prop :=
  match l with
  | [] => True
  | b :: l => hdr_at m b.1 = mkHeader (first l e) b.2 /\ seg m l e
  end.

Definition below (b c : blk) : Prop := b.1 + 16 * b.2 < c.1.
Fixpoint ordered (l : list blk) : Prop :=
  match l with
  | [] => True
  | b :: l => Forall (below b) l /\ ordered l
  end.

Lemma seg_app m l1 l2 e : seg m (l1 ++ l2) e <-> seg m l1 (first l2 e) /\ seg m l2 e.
Proof.
  induction l1 as [|b l1 IH]; simpl; [tauto|]. rewrite IH. assert (first (l1 ++ l2) e = first l1 (first l2 e)) as -> by by destruct l1.
  tauto.
Qed.

Lemma hdr_at_insert m p h q : hdr_at (<[p := h]> m) q = if decide (p = q) then h else hdr_at m q.
Proof. unfold hdr_at. case_decide; [subst; by rewrite lookup_insert_eq|by rewrite lookup_insert_ne]. Qed.

Lemma seg_ext m m' l e : (forall b, b ∈ l -> hdr_at m' b.1 = hdr_at m b.1) -> seg m l e -> seg m' l e.
Proof.
  induction l as [|b l IH]; simpl; [done|]. intros Hp [Hb Hl]. rewrite Hp by constructor. split; [done|].
  apply IH; [|done]. intros c Hc. apply Hp. by constructor.
Qed.

Lemma ordered_app l1 l2 : ordered (l1 ++ l2) <-> ordered l1 /\ ordered l2 /\ Forall (fun b => Forall (below b) l2) l1.
Proof.
  induction l1 as [|b l1 IH]; simpl; [by rewrite Forall_nil; tauto|]. rewrite IH, Forall_app, Forall_cons. tauto.
Qed.

(** [p] is [n] steps before [t] on the circular list. *)
Definition ahead (L : list blk) (p t : blk) (n : nat) : Prop :=
  exists l1 l2 ps r, L = l1 ++ l2 /\ l2 ++ l1 = ps ++ t :: r /\ length ps = n /\ head (ps ++ [t]) = Some p.

Lemma ahead_exists L p t : p ∈ L -> t ∈ L -> exists n, (n < length L)%nat /\ ahead L p t n.
Proof.
  intros Hp Ht. apply list_elem_of_split in Hp as (l1 & l2 & ->).
  assert (t ∈ (p :: l2) ++ l1) as Ht' by (rewrite elem_of_app in *; tauto). apply list_elem_of_split in Ht' as (ps & r & E).
  exists (length ps). split.
  - apply (f_equal length) in E. rewrite !length_app in *. simpl in *. lia.
  - exists l1, (p :: l2), ps, r. split_and!; [done|done|done|]. destruct ps as [|p' ps]; simpl in E; by injection E as <- _.
Qed.

Lemma ahead_here L p t : ahead L p t 0 -> p = t.
Proof. intros (l1 & l2 & [|] & r & _ & _ & Hl & Hh); [|done]. by injection Hh. Qed.

Lemma ahead_next m bs p t n : let L := (base, 0) :: bs in seg m L base -> ahead L p t (S n) ->
  exists c, h_ptr (hdr_at m p.1) = c.1 /\ ahead L c t n /\ p ∈ L /\ c ∈ L.
Proof.
  intros L Hs (l1 & l2 & [|p' ps] & r & EL & E & Hl & Hh); [done|]. simpl in Hh. injection Hh as ->. injection Hl as Hl.
  assert (exists c, head (ps ++ [t]) = Some c) as [c Hc] by (destruct ps; simpl; eauto).
  assert (c ∈ L) as HcL.
  { assert (c ∈ l2 ++ l1) as H.
    { rewrite E. assert (c ∈ ps ++ [t]) as H by (destruct ps; simpl in *; injection Hc as ->; constructor).
      clear -H. set_solver. }
    rewrite EL. rewrite elem_of_app in *. tauto. }
  destruct l2 as [|b l2].
  - (* the rotation starts at the head *)
    simpl in E. rewrite app_nil_r in EL. destruct l1 as [|b l1]; [done|]. injection E as -> E. exists c.
    rewrite EL in Hs |- *. destruct Hs as [Hb _]. split_and!; [|..].
    + rewrite Hb. simpl. rewrite E. destruct ps; simpl in *; by injection Hc as <-.
    + exists [p], l1, ps, (r ++ [p]). split_and!; try done. by rewrite E, <- app_assoc.
    + constructor.
    + by rewrite EL in HcL.
  - simpl in E. injection E as -> E. exists c. rewrite EL, seg_app in Hs. destruct Hs as [_ [Hb _]].
    assert (p ∈ L) as HpL by (rewrite EL, elem_of_app, elem_of_cons; tauto).
    split_and!; [|..|done|done].
    + rewrite Hb. simpl. destruct l2 as [|d l2]; simpl in E.
      * destruct l1 as [|d l1]; [by destruct ps|]. unfold L in EL. injection EL as Ed _. destruct ps; simpl in *; injection E as <- _; injection Hc as <-; by rewrite <- Ed.
      * destruct ps; simpl in *; injection E as <- _; by injection Hc as <-.
    + exists (l1 ++ [p]), l2, ps, (r ++ [p]). split_and!; try done; [by rewrite EL, <- app_assoc|].
      rewrite app_assoc, E, <- app_assoc. done.
Qed.

Lemma ordered_len lo hi bs : ordered bs -> Forall (fun b : blk => 0 < b.2 /\ lo <= b.1 /\ b.1 + 16 * b.2 <= hi) bs -> lo <= hi ->
  lo + 16 * Z.of_nat (length bs) <= hi.
Proof.
  revert lo. induction bs as [|b bs IH]; intros lo Ho Hb Hlo; [simpl; lia|]. destruct Ho as [Hbelow Ho]. inversion Hb as [|? ? H1 H2]; subst.
  assert (b.1 + 16 * b.2 + 16 * Z.of_nat (length bs) <= hi).
  { apply IH; [done| |lia]. apply Forall_forall. intros c Hc. rewrite Forall_forall in Hbelow, H2.
    specialize (Hbelow c Hc). specialize (H2 c Hc). unfold below in Hbelow. lia. }
  cbn [length]. lia.
Qed.

(** The free blocks [bs], besides [base]: in order and not adjacent, below [hi]. *)
Record flist (bs : list blk) (hi : Z) : Prop := {
  fl_ord : ordered bs;
  fl_blk : Forall (fun b => 0 < b.2 /\ base + 16 <= b.1 /\ b.1 + 16 * b.2 <= hi) bs
}.
Definition apart (b c : blk) : Prop := b.1 + 16 * b.2 <= c.1 \/ c.1 + 16 * c.2 <= b.1.

(** Where a block belongs. *)
Record place (L l1 : list blk) (t : blk) (l2 : list blk) (bp : Z) : Prop := {
  pl_split : L = l1 ++ t :: l2;
  pl_before : Forall (fun b => b.1 < bp) l1;
  pl_t : t.1 < bp;
  pl_after : Forall (fun b => bp < b.1) l2
}.

Lemma flist_ordered bs hi : flist bs hi -> ordered ((base, 0) :: bs).
Proof. intros [Ho Hb]. split; [|done]. eapply Forall_impl; [exact Hb|]. unfold below. simpl. lia. Qed.

Lemma place_from b l bp : ordered (b :: l) -> Forall (fun c : blk => 0 <= c.2) l -> b.1 < bp -> Forall (fun c : blk => c.1 <> bp) l ->
  exists l1 t l2, place (b :: l) l1 t l2 bp.
Proof.
  revert b. induction l as [|c l IH]; intros b Hord Hsz Hlt Hn; [by exists [], b, []|].
  inversion Hn; subst. inversion Hsz; subst. destruct (decide (c.1 < bp)).
  - destruct (IH c) as (l1 & t & l2 & [E H1' H2' H3']); [apply Hord|done|done|done|]. exists (b :: l1), t, l2.
    split; [by rewrite E|by constructor|done|done].
  - exists [], b, (c :: l). split; try done. constructor; [lia|]. destruct Hord as [_ [Hord _]].
    eapply Forall_impl; [exact Hord|]. unfold below. intros d Hd. lia.
Qed.

Lemma place_exists bs hi bp : flist bs hi -> base < bp -> Forall (fun b : blk => b.1 <> bp) bs -> exists l1 t l2, place ((base, 0) :: bs) l1 t l2 bp.
Proof.
  intros Hf Hb Hne. apply place_from; try done; [by eapply flist_ordered|]. eapply Forall_impl; [apply (fl_blk _ _ Hf)|]. simpl. lia.
Qed.

Section insert.
Context (bs : list blk) (hi : Z) (Hf : flist bs hi) (l1 : list blk) (t : blk) (l2 : list blk) (bp : Z).
Context (Hp : place ((base, 0) :: bs) l1 t l2 bp) (Hbp : base + 16 <= bp).
Notation L := ((base, 0) :: bs).

Lemma L_ordered : ordered l1 /\ Forall (below t) l2 /\ ordered l2 /\ Forall (fun b => below b t /\ Forall (below b) l2) l1.
Proof.
  pose proof (flist_ordered bs hi Hf) as Ho. rewrite (pl_split _ _ _ _ _ Hp), ordered_app in Ho. simpl in Ho.
  destruct Ho as (? & [? ?] & H). split_and!; try done. eapply Forall_impl; [exact H|]. intros b Hb. by inversion Hb.
Qed.

(** The loop of [free] stops at [t] only. *)
Lemma place_stop s : seg (hp_mem s) L base -> free_place bp t.1 s = Done (inr t.1) s.
Proof.
  rewrite (pl_split _ _ _ _ _ Hp), seg_app. intros [_ [Ht _]]. unfold free_place. rewrite (bind_Done _ _ s (first l2 base) s); [|unfold get_ptr, gets; by rewrite Ht].
  pose proof (pl_t _ _ _ _ _ Hp). rewrite (proj2 (Z.ltb_lt t.1 bp)) by done. simpl. destruct l2 as [|c l2'] eqn:E; simpl.
  - destruct (Z.ltb_spec bp base); [lia|]. destruct (Z.leb_spec base t.1); [done|].
    assert (t ∈ L) as Ht' by (rewrite (pl_split _ _ _ _ _ Hp); apply elem_of_app; right; constructor).
    apply elem_of_cons in Ht' as [->|Ht']; [simpl in *; lia|]. pose proof (proj1 (Forall_forall _ _) (fl_blk _ _ Hf) t Ht'). simpl in *. lia.
  - pose proof (pl_after _ _ _ _ _ Hp) as Ha. inversion Ha; subst. by rewrite (proj2 (Z.ltb_lt bp c.1)).
Qed.

Lemma L_size b : b ∈ L -> 0 <= b.2.
Proof.
  rewrite elem_of_cons. intros [->|Hb]; [done|]. pose proof (proj1 (Forall_forall _ _) (fl_blk _ _ Hf) b Hb). simpl in *. lia.
Qed.

Lemma place_skip s p : seg (hp_mem s) L base -> p ∈ L -> p <> t ->
  free_place bp p.1 s = Done (inl (h_ptr (hdr_at (hp_mem s) p.1))) s.
Proof.
  intros Hs Hin Hne. unfold free_place. rewrite (bind_Done _ _ s (h_ptr (hdr_at (hp_mem s) p.1)) s) by done.
  pose proof (L_size p Hin) as Hsz. pose proof (flist_ordered bs hi Hf) as Ho. destruct Hp as [E H1 Ht H2].
  rewrite E in Hin, Hs, Ho. rewrite elem_of_app, elem_of_cons in Hin. destruct Hin as [Hin|[->|Hin]]; [|done|].
  - apply list_elem_of_split in Hin as (la & lb & ->). rewrite <- app_assoc, seg_app in Hs. destruct Hs as [_ [Hh _]].
    rewrite Hh. simpl. rewrite <- app_assoc in Ho. simpl in Ho. rewrite ordered_app in Ho. destruct Ho as (_ & [Ho _] & _).
    rewrite Forall_app in H1. destruct H1 as [_ H1]. inversion H1 as [|? ? Hpb H1']; subst.
    assert (exists c, first (lb ++ t :: l2) base = c.1 /\ c.1 < bp /\ below p c) as (c & -> & Hc & Hb).
    { destruct lb as [|c lb]; simpl in *; [exists t|exists c]; inversion Ho; subst; [done|]. by inversion H1'. }
    unfold below in Hb. destruct (Z.ltb_spec bp c.1); [lia|]. rewrite andb_false_r. destruct (Z.leb_spec c.1 p.1); [lia|done].
  - apply list_elem_of_split in Hin as (la & lb & ->). rewrite Forall_app in H2. destruct H2 as [_ H2]. inversion H2; subst.
    rewrite app_comm_cons, app_assoc, seg_app in Hs. destruct Hs as [_ [Hh _]]. rewrite Hh. simpl.
    rewrite app_comm_cons, app_assoc, ordered_app in Ho. destruct Ho as (_ & [Ho _] & _).
    destruct (Z.ltb_spec p.1 bp); [lia|]. simpl. destruct lb as [|c lb]; simpl.
    + destruct (Z.ltb_spec bp base); [lia|]. by rewrite andb_false_r.
    + inversion Ho as [|? ? Hb _]; subst. unfold below in Hb. destruct (Z.leb_spec c.1 p.1); [lia|done].
Qed.

Lemma L_length : hi < 2 ^ 36 -> 0 < base -> base + 16 <= hi -> Z.of_nat (length L) < 2 ^ 40.
Proof.
  intros Hhi Hb Hle. assert (base + 16 + 16 * Z.of_nat (length bs) <= hi); [|cbn [length]; lia].
  apply ordered_len; [apply Hf| |lia]. eapply Forall_impl; [apply (fl_blk _ _ Hf)|]. simpl. lia.
Qed.

Lemma free_find s f : hi < 2 ^ 36 -> 0 < base -> base + 16 <= hi -> seg (hp_mem s) L base -> f ∈ L ->
  while_ budget (free_place bp) f.1 s = Done t.1 s.
Proof.
  intros Hhi Hb Hle Hs Hin.
  assert (t ∈ L) as Ht by (rewrite (pl_split _ _ _ _ _ Hp); apply elem_of_app; right; constructor).
  destruct (ahead_exists L f t Hin Ht) as (n & Hn & Ha). pose proof (L_length Hhi Hb Hle) as Hlen.
  assert (wp (while_ budget (free_place bp) f.1 s) (fun x s' => x = t.1 /\ s' = s)) as H.
  { apply (wp_while_ghost _ (fun k x s' => s' = s /\ exists p, x = p.1 /\ p ∈ L /\ ahead L p t k) Z.of_nat _) with (g := n).
    - intros k x s' (-> & p & -> & HpL & Hk). destruct (decide (p = t)) as [->|Hne]; [by rewrite place_stop|].
      rewrite place_skip by done. simpl. destruct k as [|k]; [by apply ahead_here in Hk|].
      destruct (ahead_next _ _ _ _ _ Hs Hk) as (c & -> & Hc & _ & HcL). exists k. split; [|lia]. eauto.
    - intros. lia.
    - eauto.
    - unfold budget. lia. }
  apply wp_inv in H as (? & ? & -> & -> & ->). done.
Qed.

Context (n : Z) (Hn : 0 < n) (Htop : bp + 16 * n <= hi) (Hap : Forall (apart (bp, n)) bs).

(** The block with the one above it, if they are adjacent, and then with the one
    below it. *)
Definition merged_up : Z * list blk :=
  match l2 with
  | c :: l2' => if bp + n * 16 =? c.1 then (n + c.2, l2') else (n, l2)
  | [] => (n, l2)
  end.
Definition inserted : list blk :=
  let '(n1, l2') := merged_up in
  if t.1 + t.2 * 16 =? bp then l1 ++ (t.1, t.2 + n1) :: l2' else l1 ++ t :: (bp, n1) :: l2'.

Lemma t_below : t.1 + 16 * t.2 <= bp /\ (t = (base, 0) \/ t ∈ bs).
Proof.
  assert (t ∈ L) as Ht by (rewrite (pl_split _ _ _ _ _ Hp); apply elem_of_app; right; constructor).
  pose proof (pl_t _ _ _ _ _ Hp). apply elem_of_cons in Ht as [->|Ht]; [simpl in *; split; [lia|by left]|].
  pose proof (proj1 (Forall_forall _ _) Hap t Ht) as Ha. pose proof (proj1 (Forall_forall _ _) (fl_blk _ _ Hf) t Ht) as Hb.
  unfold apart in Ha. simpl in *. split; [lia|by right].
Qed.

Lemma after_ok c : c ∈ l2 -> c ∈ bs /\ bp + 16 * n <= c.1 /\ 0 < c.2 /\ base + 16 <= c.1 /\ c.1 + 16 * c.2 <= hi.
Proof.
  intros Hc. assert (c ∈ L) as HcL by (rewrite (pl_split _ _ _ _ _ Hp), elem_of_app, elem_of_cons; tauto).
  pose proof (proj1 (Forall_forall _ _) (pl_after _ _ _ _ _ Hp) c Hc) as Hlt. simpl in Hlt.
  apply elem_of_cons in HcL as [->|HcL]; [simpl in *; lia|].
  pose proof (proj1 (Forall_forall _ _) Hap c HcL) as Ha. pose proof (proj1 (Forall_forall _ _) (fl_blk _ _ Hf) c HcL) as Hb.
  unfold apart in Ha. simpl in *. split; [done|lia].
Qed.

(** [merged_up]: a block from [bp] on that covers what it merged, and the rest. *)
Lemma merged_up_ok : let '(n1, l2') := merged_up in n <= n1 /\ bp + 16 * n1 <= hi /\ ordered l2' /\ l2' ⊆ l2 /\
  Forall (below (bp, n1)) l2' /\ (forall b, 0 < b.2 -> apart b (bp, n) -> Forall (apart b) bs -> apart b (bp, n1)).
Proof.
  destruct L_ordered as (_ & _ & Ho & _). unfold merged_up. pose proof after_ok as Hafter. destruct l2 as [|c l2'] eqn:El2.
  { split_and!; try done; lia. }
  destruct (Hafter c) as (Hcb & ? & ? & ? & ?); [constructor|]. destruct Ho as [Hc Ho]. destruct (Z.eqb_spec (bp + n * 16) c.1) as [E|E].
  - split_and!; [lia|lia|done|set_solver| |].
    + eapply Forall_impl; [exact Hc|]. unfold below. simpl. intros d Hd. lia.
    + intros b Hb Hb1 Hb2. pose proof (proj1 (Forall_forall _ _) Hb2 c Hcb) as Hb3. unfold apart in *. simpl in *. lia.
  - split_and!; [lia|lia|done|done| |done]. constructor; [unfold below; simpl; lia|].
    eapply Forall_impl; [exact Hc|]. unfold below. simpl. intros d Hd. lia.
Qed.

Lemma ordered_mid la mid lb : ordered la -> ordered mid -> ordered lb ->
  Forall (fun b => Forall (below b) mid /\ Forall (below b) lb) la -> Forall (fun b => Forall (below b) lb) mid -> ordered (la ++ mid ++ lb).
Proof.
  intros Ha Hm Hb Hab Hmb. rewrite !ordered_app. split_and!; try done. eapply Forall_impl; [exact Hab|].
  intros b [? ?]. by apply Forall_app.
Qed.

(** The part of the list that changes. *)
Definition merged (n1 : Z) : list blk := if t.1 + t.2 * 16 =? bp then [(t.1, t.2 + n1)] else [t; (bp, n1)].

Lemma merged_ok n1 : n <= n1 -> bp + 16 * n1 <= hi -> t ∈ bs ->
  ordered (merged n1) /\ Forall (fun b => 0 < b.2 /\ base + 16 <= b.1 /\ b.1 + 16 * b.2 <= hi) (merged n1) /\
  (forall c, below (bp, n1) c -> Forall (fun b => below b c) (merged n1)) /\
  (forall b, below b t -> Forall (below b) (merged n1)) /\
  (forall b, 0 < b.2 -> apart b t -> apart b (bp, n1) -> Forall (apart b) (merged n1)).
Proof.
  intros Hn1 Hhi Ht. destruct t_below as [Htb _]. pose proof (pl_t _ _ _ _ _ Hp) as Htlt.
  pose proof (proj1 (Forall_forall _ _) (fl_blk _ _ Hf) t Ht) as Hb. simpl in Hb. unfold merged.
  destruct (Z.eqb_spec (t.1 + t.2 * 16) bp) as [E|E]; split_and!.
  - by repeat constructor.
  - apply Forall_singleton. simpl. lia.
  - intros c Hc. apply Forall_singleton. unfold below in *. simpl in *. lia.
  - intros b Hb'. apply Forall_singleton. unfold below in *. simpl in *. lia.
  - intros b Hb0 Hb1 Hb2. apply Forall_singleton. unfold apart in *. simpl in *. lia.
  - repeat constructor. unfold below. simpl. lia.
  - apply Forall_cons. split; [simpl; lia|]. apply Forall_singleton. simpl. lia.
  - intros c Hc. unfold below in *. apply Forall_cons. split; [simpl in *; lia|]. by apply Forall_singleton.
  - intros b Hb'. unfold below in *. apply Forall_cons. split; [done|]. apply Forall_singleton. simpl. lia.
  - intros b Hb0 Hb1 Hb2. apply Forall_cons. split; [done|]. by apply Forall_singleton.
Qed.

(** After the insertion the free list is in order again, and covers no address that
    was neither free nor in the block. *)
Lemma inserted_flist : exists bs', inserted = (base, 0) :: bs' /\ flist bs' hi /\
  (forall b, 0 < b.2 -> apart b (bp, n) -> Forall (apart b) bs -> Forall (apart b) bs').
Proof.
  pose proof merged_up_ok as Hup. pose proof after_ok as Hafter. destruct t_below as [Htb Htbs]. unfold inserted.
  destruct merged_up as [n1 l2']. destruct Hup as (Hn1 & Hhi & Ho2 & Hsub & Hbel & Hcov).
  destruct L_ordered as (Ho1 & Ht2 & _ & Hb1). pose proof (pl_split _ _ _ _ _ Hp) as E.
  assert (Forall (fun c => c ∈ bs /\ 0 < c.2 /\ base + 16 <= c.1 /\ c.1 + 16 * c.2 <= hi) l2') as Hl2.
  { apply Forall_forall. intros c Hc. destruct (Hafter c (Hsub c Hc)) as (? & ? & ? & ? & ?). done. }
  assert (forall b, Forall (below b) l2 -> Forall (below b) l2') as Hsub'.
  { intros b Hb. apply Forall_forall. intros c Hc. by apply (proj1 (Forall_forall _ _) Hb), Hsub. }
  assert (forall b, Forall (apart b) bs -> Forall (apart b) l2') as Hap2.
  { intros b Hb. eapply Forall_impl; [exact Hl2|]. intros c [Hc _]. by apply (proj1 (Forall_forall _ _) Hb). }
  pose proof (merged_ok n1 Hn1 Hhi) as Hmid. pose proof (fl_blk _ _ Hf) as Hbk.
  destruct l1 as [|b0 l1r]; simpl in E; injection E as E0 E.
  - exists ((bp, n1) :: l2'). rewrite <- E0. simpl. destruct (Z.eqb_spec (base + 0 * 16) bp); [lia|]. split_and!; [done|split|].
    + by split.
    + constructor; [simpl; lia|]. eapply Forall_impl; [exact Hl2|]. naive_solver.
    + intros b Hb Hb1' Hb2. constructor; [by apply Hcov|by apply Hap2].
  - assert (t ∈ bs) as Htin by (rewrite E, elem_of_app, elem_of_cons; tauto).
    destruct (Hmid Htin) as (M1 & M2 & M3 & M4 & M5). apply Forall_cons_iff in Hb1 as [_ Hb1'].
    destruct Ho1 as [_ Ho1]. exists (l1r ++ merged n1 ++ l2'). split_and!; [|split|].
    + unfold merged. rewrite E0. by destruct (_ =? _).
    + apply ordered_mid; try done.
      * eapply Forall_impl; [exact Hb1'|]. intros b [? ?]. auto.
      * apply Forall_forall. intros b Hb. apply Forall_forall. intros c Hc.
        apply (proj1 (Forall_forall _ _) (M3 c (proj1 (Forall_forall _ _) Hbel c Hc)) b Hb).
    + rewrite E in Hbk. apply Forall_app in Hbk as [Hbk _]. rewrite !Forall_app. split_and!; [done|done|].
      eapply Forall_impl; [exact Hl2|]. naive_solver.
    + intros b Hb Hbn Hbs. pose proof (Hap2 b Hbs) as H2. rewrite E in Hbs. pose proof Hbs as Hbs'. apply Forall_app in Hbs as [H1 H3]. apply Forall_cons_iff in H3 as [H3 _].
      rewrite !Forall_app. split_and!; [done| |done]. apply M5; [done|done|]. apply Hcov; [done|done|]. by rewrite E.
Qed.

Definition changed (s s' : heap) (p : Z) (h : header) : Prop :=
  hp_freep s' = hp_freep s /\ hp_os s' = hp_os s /\ forall x, hdr_at (hp_mem s') x = if decide (x = p) then h else hdr_at (hp_mem s) x.

Lemma join_upper_ok s : hi < 2 ^ 36 -> 0 < base -> seg (hp_mem s) L base -> h_size (hdr_at (hp_mem s) bp) = n ->
  wp (join_upper bp t.1 s) (fun _ s' => changed s s' bp (mkHeader (first merged_up.2 base) merged_up.1)).
Proof.
  intros Hhi Hb0 Hs Hsz. rewrite (pl_split _ _ _ _ _ Hp), seg_app in Hs. destruct Hs as [_ [Ht H2]].
  pose proof merged_up_ok as Hup. pose proof after_ok as Ha. unfold join_upper, get_ptr, get_size, set_ptr, set_size, upd_hdr, sizeof_header.
  do 4 kstep. rewrite Ht, Hsz. cbn [h_ptr]. unfold merged_up in *. destruct l2 as [|c l2'] eqn:El2.
  - simpl. destruct (Z.eqb_spec (bp + n * 16) base); [lia|]. kstep. split_and!; [done|done|]. intros x. simpl.
    rewrite hdr_at_insert, Hsz. repeat case_decide; congruence.
  - cbn [first]. destruct (Ha c) as (_ & ? & ? & ? & ?); [constructor|]. destruct H2 as [Hc _].
    destruct (Z.eqb_spec (bp + n * 16) c.1) as [E|E].
    + do 6 kstep. split_and!; [done|done|]. intros x. cbn [hp_mem]. rewrite !hdr_at_insert.
      rewrite (decide_False (P := bp = c.1)), !(decide_True (P := bp = bp)), Hc by (done || lia). cbn [h_ptr h_size fst snd].
      destruct Hup as (? & ? & _). unfold u32. rewrite Z.mod_small by lia. repeat case_decide; congruence.
    + kstep. split_and!; [done|done|]. intros x. simpl. rewrite hdr_at_insert, Hsz. repeat case_decide; congruence.
Qed.

Lemma join_lower_ok s n1 e : hi < 2 ^ 36 -> n <= n1 -> bp + 16 * n1 <= hi -> 0 < base -> hdr_at (hp_mem s) bp = mkHeader e n1 -> h_size (hdr_at (hp_mem s) t.1) = t.2 ->
  wp (join_lower bp t.1 s) (fun _ s' => changed s s' t.1
    (if t.1 + t.2 * 16 =? bp then mkHeader e (t.2 + n1) else mkHeader bp t.2)).
Proof.
  intros Hhi Hn1 Htop1 Hb0 Hbh Hth. pose proof (pl_t _ _ _ _ _ Hp) as Htlt. destruct t_below as [Htb _].
  assert (0 <= t.2) as Ht0 by (apply L_size; rewrite (pl_split _ _ _ _ _ Hp); apply elem_of_app; right; constructor).
  assert (base <= t.1) as Htbase.
  { destruct t_below as [_ [->|Hin]]; [simpl; lia|]. pose proof (proj1 (Forall_forall _ _) (fl_blk _ _ Hf) t Hin). simpl in *. lia. }
  unfold join_lower, get_ptr, get_size, set_ptr, set_size, upd_hdr, sizeof_header. do 2 kstep. rewrite Hth.
  destruct (Z.eqb_spec (t.1 + t.2 * 16) bp) as [E|E].
  - do 6 kstep. rewrite Hbh. split_and!; [done|done|]. intros x. cbn [hp_mem h_size h_ptr]. rewrite !hdr_at_insert.
    rewrite (decide_False (P := t.1 = bp)), Hbh, (decide_True (P := t.1 = t.1)) by (done || lia). cbn [h_ptr h_size]. unfold u32. rewrite Z.mod_small by lia.
    repeat case_decide; congruence.
  - kstep. split_and!; [done|done|]. intros x. simpl. rewrite hdr_at_insert, Hth. repeat case_decide; congruence.
Qed.

Lemma merged_up_tail m : seg m l2 base -> seg m merged_up.2 base.
Proof. unfold merged_up. destruct l2 as [|c l2']; [done|]. destruct (_ =? _); simpl; tauto. Qed.

Lemma inserted_seg s s1 s2 : seg (hp_mem s) L base ->
  changed s s1 bp (mkHeader (first merged_up.2 base) merged_up.1) ->
  changed s1 s2 t.1 (if t.1 + t.2 * 16 =? bp then mkHeader (first merged_up.2 base) (t.2 + merged_up.1) else mkHeader bp t.2) ->
  seg (hp_mem s2) inserted base.
Proof.
  intros Hs (_ & _ & H1) (_ & _ & H2). pose proof (pl_t _ _ _ _ _ Hp) as Htlt. pose proof merged_up_ok as Hup.
  rewrite (pl_split _ _ _ _ _ Hp), seg_app in Hs. destruct Hs as [Hs1 [Ht Hs2]]. apply merged_up_tail in Hs2.
  destruct L_ordered as (_ & _ & _ & Hb1).
  assert (seg (hp_mem s2) l1 t.1) as S1.
  { apply (seg_ext (hp_mem s)); [|done]. intros b Hb. rewrite H2, H1.
    pose proof (proj1 (Forall_forall _ _) (pl_before _ _ _ _ _ Hp) b Hb). destruct (proj1 (Forall_forall _ _) Hb1 b Hb) as [Hbt _].
    assert (0 <= b.2) by (apply L_size; rewrite (pl_split _ _ _ _ _ Hp), elem_of_app; tauto). unfold below in Hbt. simpl in *.
    rewrite !decide_False by lia. done. }
  assert (seg (hp_mem s2) merged_up.2 base) as S2.
  { apply (seg_ext (hp_mem s)); [|done]. intros b Hb. rewrite H2, H1. destruct merged_up as [n1 l2']. destruct Hup as (_ & _ & _ & Hsub & _).
    destruct (after_ok b (Hsub b Hb)) as (_ & ? & _). rewrite !decide_False by lia. done. }
  unfold inserted. destruct merged_up as [n1 l2'] eqn:Em. cbn [fst snd] in *. pose proof (H2 t.1) as E2. rewrite decide_True in E2 by done.
  pose proof (H2 bp) as E3. rewrite decide_False, H1, decide_True in E3 by (done || lia).
  destruct (t.1 + t.2 * 16 =? bp); apply seg_app; simpl; rewrite ?E2, ?E3; done.
Qed.

(** free() of the block. *)
Lemma free_ok s f : hi < 2 ^ 36 -> 0 < base -> seg (hp_mem s) L base -> f ∈ L -> hp_freep s = f.1 ->
  h_size (hdr_at (hp_mem s) bp) = n ->
  wp (free (bp + sizeof_header) s) (fun _ s' => seg (hp_mem s') inserted base /\ hp_os s' = hp_os s /\ hp_freep s' = t.1 /\
    forall x, x <> bp -> x <> t.1 -> hdr_at (hp_mem s') x = hdr_at (hp_mem s) x).
Proof.
  intros Hhi Hb0 Hs Hin Hfreep Hsz. unfold free. do 3 kstep. rewrite Hfreep.
  replace (bp + sizeof_header - sizeof_header) with bp by lia.
  eapply wp_eq; [apply free_find; try done; lia|]. cbv beta. kstep. eapply wp_mono; [|by apply join_upper_ok].
  intros ? s1 H1. pose proof H1 as (F1 & O1 & E1). pose proof merged_up_ok as Hup. pose proof (pl_t _ _ _ _ _ Hp) as Htlt.
  destruct merged_up as [n1 l2'] eqn:Em. destruct Hup as (Hn1 & Htop1 & _). cbn [fst snd] in *. kstep.
  assert (h_size (hdr_at (hp_mem s1) t.1) = t.2) as Ht1.
  { rewrite E1, decide_False by lia. pose proof Hs as Hs'. rewrite (pl_split _ _ _ _ _ Hp), seg_app in Hs'. destruct Hs' as [_ [-> _]]. done. }
  eapply wp_mono; [|eapply (join_lower_ok s1 n1); try done; by rewrite E1, decide_True].
  intros ? s2 H2. unfold set_freep. kstep. pose proof H2 as (F2 & O2 & E2). simpl. split_and!; [|congruence|done|].
  - apply (inserted_seg s s1 s2); rewrite ?Em; done.
  - intros x Hx1 Hx2. rewrite E2, decide_False, E1, decide_False by done. done.
Qed.
End insert.

Lemma inserted_big bs hi l1 t l2 bp n : flist bs hi -> place ((base, 0) :: bs) l1 t l2 bp -> base + 16 <= bp -> 0 < n ->
  bp + 16 * n <= hi -> Forall (apart (bp, n)) bs -> (exists b, b ∈ inserted l1 t l2 bp n /\ n <= b.2) /\ exists f, f ∈ inserted l1 t l2 bp n /\ f.1 = t.1.
Proof.
  intros Hf Hp Hbp Hn Htop Hap. pose proof (merged_up_ok bs hi Hf l1 t l2 bp Hp Hbp n Hn Htop Hap) as Hup. unfold inserted.
  destruct (merged_up l2 bp n) as [n1 l2']. destruct Hup as (Hn1 & _).
  assert (0 <= t.2) by (apply (L_size bs hi Hf); rewrite (pl_split _ _ _ _ _ Hp), elem_of_app, elem_of_cons; tauto).
  destruct (t.1 + t.2 * 16 =? bp).
  - assert ((t.1, t.2 + n1) ∈ l1 ++ (t.1, t.2 + n1) :: l2') by (rewrite elem_of_app, elem_of_cons; tauto).
    split; eexists; (split; [done|]); simpl; [lia|done].
  - split; [exists (bp, n1)|exists t]; rewrite elem_of_app, !elem_of_cons; simpl; split; done || tauto || lia.
Qed.

(** ** The heap: free blocks [bs] and blocks in use [U] (units by address) *)
Context `{BRK : !OsBrk W}.
Notation top s := (brk (hp_os s)).

Record hinv (s : heap) (bs : list blk) (U : gmap Z Z) : Prop := {
  hv_base : 0 < base /\ base + 16 <= top s;
  hv_flist : flist bs (top s);
  hv_list : hp_freep s = 0 /\ bs = [] /\ U = ∅ \/
    seg (hp_mem s) ((base, 0) :: bs) base /\ exists f, f ∈ (base, 0) :: bs /\ hp_freep s = f.1;
  hv_live : forall a n, U !! a = Some n -> 0 < n /\ base + 16 <= a /\ a + 16 * n <= top s /\
    h_size (hdr_at (hp_mem s) a) = n /\ Forall (apart (a, n)) bs;
  hv_apart : forall a n a' n', U !! a = Some n -> U !! a' = Some n' -> a <> a' -> apart (a, n) (a', n')
}.

Lemma apart_ne (b c : blk) : 0 < b.2 -> 0 < c.2 -> apart b c -> b.1 <> c.1.
Proof. unfold apart. lia. Qed.

Lemma flist_mono bs hi hi' : hi <= hi' -> flist bs hi -> flist bs hi'.
Proof. intros Hle [Ho Hb]. split; [done|]. eapply Forall_impl; [exact Hb|]. simpl. lia. Qed.

(** A block in use is none of the free ones. *)
Lemma live_addr bs hi a n b : flist bs hi -> 0 < n -> base + 16 <= a -> Forall (apart (a, n)) bs -> b ∈ (base, 0) :: bs -> a <> b.1.
Proof.
  intros Hf Hn Ha Hap Hb. apply elem_of_cons in Hb as [->|Hb]; [simpl; lia|].
  pose proof (proj1 (Forall_forall _ _) (fl_blk _ _ Hf) b Hb) as Hb2. simpl in Hb2.
  apply (apart_ne (a, n) b); [done|lia|]. by apply (proj1 (Forall_forall _ _) Hap).
Qed.

(** free() of a block that is not in use by anyone else puts it on the list. *)
Lemma free_blk s bs U bp n : hinv s bs U -> hp_freep s <> 0 -> base + 16 <= bp -> 0 < n -> bp + 16 * n <= top s ->
  Forall (apart (bp, n)) bs -> (forall a k, U !! a = Some k -> apart (a, k) (bp, n)) -> h_size (hdr_at (hp_mem s) bp) = n ->
  wp (free (bp + sizeof_header) s) (fun _ s' => exists bs', hinv s' bs' U /\ hp_os s' = hp_os s /\ hp_freep s' <> 0 /\
    exists b, b ∈ bs' /\ n <= b.2).
Proof.
  intros [[Hb0 Hb1] Hf Hlist Hlive Hapart] Hfreep Hbp Hn Htop Hap HapU Hsz. destruct Hlist as [[Hf0 _]|[Hs (f & Hin & Ef)]]; [congruence|].
  pose proof (brk_range (hp_os s)) as [_ Hhi]. set (hi := top s) in *.
  destruct (place_exists bs hi bp Hf) as (l1 & t & l2 & Hp); [lia| |].
  { apply Forall_forall. intros b Hb. apply not_eq_sym. apply (live_addr bs hi bp n); try done. by constructor. }
  eapply wp_mono; [|exact (free_ok bs hi Hf l1 t l2 bp Hp Hbp n Hn Htop Hap s f Hhi Hb0 Hs Hin Ef Hsz)]. intros [] s' (Hs' & Hos & Hfr & Hfrm).
  destruct (inserted_flist bs hi Hf l1 t l2 bp Hp Hbp n Hn Htop Hap) as (bs' & E & Hf' & Hcov).
  destruct (inserted_big bs hi l1 t l2 bp n Hf Hp Hbp Hn Htop Hap) as [(b & Hb & Hbn) (f' & Hf1 & Ef')]. rewrite E in Hs', Hb, Hf1.
  assert (t ∈ (base, 0) :: bs) as HtL by (rewrite (pl_split _ _ _ _ _ Hp), elem_of_app, elem_of_cons; tauto).
  assert (0 < t.1) as Ht0.
  { apply elem_of_cons in HtL as [->|HtL]; [done|]. pose proof (proj1 (Forall_forall _ _) (fl_blk _ _ Hf) t HtL). simpl in *. lia. }
  exists bs'. rewrite Hos. split_and!; [|done|lia|].
  2:{ exists b. split; [|done]. apply elem_of_cons in Hb as [->|Hb]; [simpl in *; lia|done]. }
  split; rewrite ?Hos; [done|done| | |done].
  - right. split; [done|]. exists f'. split; [done|congruence].
  - intros a k Ha. destruct (Hlive a k Ha) as (H1 & H2 & H3 & H4 & H5). pose proof (HapU a k Ha) as Hak. split_and!; try done.
    + rewrite Hfrm; [done| |].
      * by apply (apart_ne (a, k) (bp, n)).
      * by apply (live_addr bs hi a k).
    + by apply Hcov.
Qed.


Lemma hinv_grow s bs U h w : hinv s bs U -> top s <= brk w -> hinv (mkHeap (<[top s := h]> (hp_mem s)) (hp_freep s) w) bs U.
Proof.
  intros [[Hb0 Hb1] Hf Hlist Hlive Hapart] Hle.
  assert (forall b, b ∈ (base, 0) :: bs -> b.1 <> top s) as Hne.
  { intros b Hb. apply elem_of_cons in Hb as [->|Hb]; [simpl; lia|].
    pose proof (proj1 (Forall_forall _ _) (fl_blk _ _ Hf) b Hb) as Hb'. simpl in Hb'. lia. }
  split; cbn [hp_mem hp_freep hp_os]; [lia|by eapply flist_mono| | |done].
  - destruct Hlist as [Hl|[Hs Hfr]]; [by left|right]. split; [|done]. apply (seg_ext (hp_mem s)); [|done].
    intros b Hb. rewrite hdr_at_insert, decide_False; [done|]. apply not_eq_sym. by apply Hne.
  - intros a n Ha. destruct (Hlive a n Ha) as (H1 & H2 & H3 & H4 & H5). rewrite hdr_at_insert, decide_False by lia.
    split_and!; try done. lia.
Qed.

(** sbrk() gives no memory for [nu] units. *)
Definition refused (nu : Z) (w : W) : Prop := (os_sbrk ((if nu <? 4096 then 4096 else nu) * 16) w).1 = -1.

Lemma morecore_ok s bs U nu : hinv s bs U -> hp_freep s <> 0 -> 0 < nu -> nu * 16 < 2 ^ 31 ->
  wp (morecore nu s) (fun r s' => r = 0 /\ hinv s' bs U /\ refused nu (hp_os s) \/
    exists bs', hinv s' bs' U /\ hp_freep s' <> 0 /\ r = hp_freep s' /\ exists b, b ∈ bs' /\ nu <= b.2).
Proof.
  intros HI Hfr Hnu Hlim. pose proof HI as [[Hb0 Hb1] Hf _ Hlive _]. unfold morecore, refused.
  set (nu' := if nu <? 4096 then 4096 else nu). assert (nu <= nu' /\ 0 < nu' /\ nu' * 16 < 2 ^ 31) as (Hnu1 & Hnu2 & Hnu3)
    by (unfold nu'; destruct (Z.ltb_spec nu 4096); lia). clearbody nu'.
  assert (s32 (nu' * 16) = nu' * 16) as E32 by (apply s32_id; lia).
  kstep. unfold sbrk, sizeof_header. rewrite E32.
  pose proof (sbrk_spec (nu' * 16) (hp_os s)) as Hs. destruct (os_sbrk (nu' * 16) (hp_os s)) as [r w]. cbn [wp fst].
  destruct Hs as [[-> Hw]|[-> Hw]]; [lia| |].
  - rewrite Z.eqb_refl. kstep. left. split_and!; [done| |done].
    pose proof HI as [? Hf' Hlist Hlive' ?]. split; cbn [hp_mem hp_freep hp_os]; rewrite ?Hw; done.
  - pose proof (brk_range (hp_os s)) as Hr. destruct (Z.eqb_spec (top s) (-1)); [lia|].
    unfold set_size, upd_hdr at 1. do 2 kstep. cbn [hp_mem hp_freep hp_os].
    set (h := mkHeader _ _). pose proof (hinv_grow s bs U h w HI ltac:(lia)) as HI1. kstep.
    eapply wp_mono; [|apply (free_blk _ bs U (top s) nu' HI1)]; simpl; try done; try lia.
    + intros [] s' (bs' & HI' & _ & Hfr' & b & Hb & Hbn). right. exists bs'. split_and!; try done. exists b. split; [done|lia].
    + apply Forall_forall. intros b Hb. pose proof (proj1 (Forall_forall _ _) (fl_blk _ _ Hf) b Hb) as Hb'. unfold apart. simpl in *. lia.
    + intros a k Ha. destruct (Hlive a k Ha) as (_ & _ & H3 & _). unfold apart. simpl. lia.
    + rewrite hdr_at_insert, decide_True by done. simpl. unfold u32. rewrite Z.mod_small; lia.
Qed.

(** ** Taking a block off the list *)
Section take.
Context (s : heap) (bs : list blk) (U : gmap Z Z) (HI : hinv s bs U) (Hs : seg (hp_mem s) ((base, 0) :: bs) base).
Context (la l2 : list blk) (c : blk) (Ebs : bs = la ++ c :: l2) (l1 : list blk) (pv : blk) (Ela : (base, 0) :: la = l1 ++ [pv]).
Context (n : Z) (Hn : 0 < n <= c.2).

(** What stays on the list, and the block that is handed out: the end of [c]. *)
Definition kept : list blk := if c.2 =? n then [] else [(c.1, c.2 - n)].
Definition taken : blk := (c.1 + 16 * (c.2 - n), n).

Lemma c_ok : 0 < c.2 /\ base + 16 <= c.1 /\ c.1 + 16 * c.2 <= top s.
Proof. apply (proj1 (Forall_forall _ _) (fl_blk _ _ (hv_flist _ _ _ HI)) c). rewrite Ebs, elem_of_app, elem_of_cons. tauto. Qed.

Lemma around : ordered la /\ ordered l2 /\ Forall (below c) l2 /\ Forall (fun b => below b c /\ Forall (below b) l2) la.
Proof.
  pose proof (fl_ord _ _ (hv_flist _ _ _ HI)) as Ho. rewrite Ebs, ordered_app in Ho. destruct Ho as (? & [? ?] & H).
  split_and!; try done. eapply Forall_impl; [exact H|]. intros b Hb. by apply Forall_cons_iff in Hb.
Qed.

Lemma size_pos b : b ∈ bs -> 0 < b.2 /\ base + 16 <= b.1.
Proof. intros Hb. pose proof (proj1 (Forall_forall _ _) (fl_blk _ _ (hv_flist _ _ _ HI)) b Hb). simpl in *. lia. Qed.

(** The blocks before [c], [base] included, and those after it. *)
Lemma before_c b : b ∈ l1 ++ [pv] -> 0 <= b.2 /\ b.1 + 16 * b.2 < c.1.
Proof.
  rewrite <- Ela, elem_of_cons. intros [->|Hb]; [pose proof c_ok; simpl; lia|].
  destruct (size_pos b) as [? _]; [rewrite Ebs, elem_of_app; tauto|].
  destruct around as (_ & _ & _ & Hla). destruct (proj1 (Forall_forall _ _) Hla b Hb) as [Hbc _]. unfold below in Hbc. lia.
Qed.

Lemma after_c b : b ∈ l2 -> c.1 + 16 * c.2 < b.1.
Proof. intros Hb. destruct around as (_ & _ & Hl2 & _). by apply (proj1 (Forall_forall _ _) Hl2 b). Qed.

Lemma kept_flist : flist (la ++ kept ++ l2) (top s).
Proof.
  destruct around as (Hla & Hl2 & Hcl & Hlc). pose proof c_ok. pose proof (fl_blk _ _ (hv_flist _ _ _ HI)) as Hb.
  rewrite Ebs in Hb. apply Forall_app in Hb as [Hb1 Hb2]. apply Forall_cons_iff in Hb2 as [_ Hb2]. unfold kept. split.
  - apply ordered_mid; [done|destruct (_ =? _); simpl; [done|by split]|done| |].
    + eapply Forall_impl; [exact Hlc|]. intros b [Hbc Hbl]. split; [|done]. destruct (_ =? _); [done|]. by apply Forall_singleton.
    + destruct (Z.eqb_spec c.2 n); [done|]. apply Forall_singleton. eapply Forall_impl; [exact Hcl|]. unfold below. simpl. lia.
  - rewrite !Forall_app. split_and!; [done| |done]. destruct (Z.eqb_spec c.2 n); [done|]. apply Forall_singleton. simpl. lia.
Qed.

(** What is apart from the free blocks is apart from what is left of them. *)
Lemma kept_apart b : Forall (apart b) bs -> Forall (apart b) (la ++ kept ++ l2) /\ apart b taken.
Proof.
  rewrite Ebs, !Forall_app, Forall_cons. intros (H1 & Hc & H2). unfold kept, taken, apart in *. simpl.
  split; [|lia]. split_and!; [done| |done]. destruct (Z.eqb_spec c.2 n); [done|]. apply Forall_singleton. simpl. lia.
Qed.

Lemma taken_apart : Forall (apart taken) (la ++ kept ++ l2).
Proof.
  rewrite !Forall_app. split_and!.
  - apply Forall_forall. intros b Hb. destruct (before_c b) as [_ ?]; [rewrite <- Ela, elem_of_cons; tauto|]. unfold apart, taken. simpl. lia.
  - unfold kept. destruct (Z.eqb_spec c.2 n); [done|]. apply Forall_singleton. unfold apart, taken. simpl. lia.
  - apply Forall_forall. intros b Hb. pose proof (after_c b Hb). unfold apart, taken. simpl. lia.
Qed.

(** The heap once the headers are written. *)
Lemma take_hinv m : seg m ((base, 0) :: la ++ kept ++ l2) base -> h_size (hdr_at m taken.1) = n ->
  (forall x, (forall b, b ∈ (base, 0) :: bs -> x <> b.1) -> x <> taken.1 -> hdr_at m x = hdr_at (hp_mem s) x) ->
  U !! taken.1 = None /\ hinv (mkHeap m pv.1 (hp_os s)) (la ++ kept ++ l2) (<[taken.1 := n]> U).
Proof.
  intros Hseg Hsz Hfrm. pose proof HI as [Hb Hf _ Hlive Hapart]. pose proof c_ok as Hc. pose proof taken_apart as Htap.
  assert (forall a k, U !! a = Some k -> apart (a, k) taken) as Hap by (intros a k Ha; by apply kept_apart, Hlive).
  assert (U !! taken.1 = None) as Hnone.
  { destruct (U !! taken.1) as [k|] eqn:E; [|done]. pose proof (Hap _ _ E) as H. destruct (Hlive _ _ E) as [Hk _].
    apply apart_ne in H; simpl in *; [done|done|lia]. }
  split; [done|]. split; cbn [hp_mem hp_freep hp_os]; [done|apply kept_flist| | |].
  - right. split; [done|]. assert (pv ∈ (base, 0) :: la) as Hpv by (rewrite Ela; apply elem_of_app; right; constructor).
    exists pv. split; [|done]. rewrite elem_of_cons in *. rewrite elem_of_app. tauto.
  - intros a k Ha. apply lookup_insert_Some in Ha as [[<- <-]|[Hne Ha]].
    + unfold taken. simpl. split_and!; try lia; [by rewrite <- Hsz at 2|apply Htap].
    + destruct (Hlive a k Ha) as (H1 & H2 & H3 & H4 & H5). split_and!; try done; [|by apply kept_apart].
      rewrite Hfrm; [done| |congruence]. intros b Hb'. by apply (live_addr bs (top s) a k).
  - intros a k a' k' Ha Ha' Hne. apply lookup_insert_Some in Ha as [[<- <-]|[Hna Ha]], Ha' as [[<- <-]|[Hna' Ha']].
    + done.
    + pose proof (Hap _ _ Ha') as H. unfold apart in *. simpl in *. lia.
    + by apply Hap.
    + by eapply Hapart.
Qed.

Lemma L_split : (base, 0) :: bs = l1 ++ pv :: c :: l2.
Proof. by rewrite Ebs, app_comm_cons, Ela, <- app_assoc. Qed.

Lemma list_hdrs : seg (hp_mem s) l1 pv.1 /\ hdr_at (hp_mem s) pv.1 = mkHeader c.1 pv.2 /\
  hdr_at (hp_mem s) c.1 = mkHeader (first l2 base) c.2 /\ seg (hp_mem s) l2 base.
Proof. pose proof Hs as H. rewrite L_split, seg_app in H. simpl in H. tauto. Qed.

Lemma seg_around m : (forall x, x <> pv.1 -> x <> c.1 -> x <> taken.1 -> hdr_at m x = hdr_at (hp_mem s) x) ->
  seg m l1 pv.1 /\ seg m l2 base.
Proof.
  intros Hm. destruct list_hdrs as (S1 & _ & _ & S2).
  assert (forall b, b ∈ l1 -> below b pv) as Hl1.
  { pose proof (flist_ordered _ _ (hv_flist _ _ _ HI)) as Ho. rewrite L_split, ordered_app in Ho. destruct Ho as (_ & _ & Ho).
    intros b Hb. pose proof (proj1 (Forall_forall _ _) Ho b Hb) as H. by apply Forall_cons_iff in H as [? _]. }
  destruct (before_c pv) as [? ?]; [apply elem_of_app; right; constructor|].
  split; (eapply seg_ext; [|eassumption]); intros b Hb; apply Hm; unfold taken; simpl.
  - destruct (before_c b) as [? _]; [apply elem_of_app; tauto|]. specialize (Hl1 b Hb). unfold below in Hl1. lia.
  - destruct (before_c b) as [? ?]; [apply elem_of_app; tauto|]. lia.
  - destruct (before_c b) as [? ?]; [apply elem_of_app; tauto|]. lia.
  - pose proof (after_c b Hb). lia.
  - pose proof (after_c b Hb). lia.
  - pose proof (after_c b Hb). lia.
Qed.

Lemma pv_facts : 0 <= pv.2 /\ pv.1 + 16 * pv.2 < c.1.
Proof. apply before_c, elem_of_app. right. constructor. Qed.

Lemma seg_taken m : (forall x, x <> pv.1 -> x <> c.1 -> x <> taken.1 -> hdr_at m x = hdr_at (hp_mem s) x) ->
  hdr_at m pv.1 = mkHeader (first (kept ++ l2) base) pv.2 -> seg m kept (first l2 base) -> seg m ((base, 0) :: la ++ kept ++ l2) base.
Proof.
  intros Hm Hpv Hk. destruct (seg_around m Hm) as [M1 M2]. rewrite app_comm_cons, Ela, <- app_assoc. cbn [app]. rewrite seg_app.
  split; [done|]. split; [done|]. rewrite seg_app. done.
Qed.

Lemma in_list b : b ∈ (base, 0) :: bs -> b ∈ l1 ++ [pv] \/ b = c \/ b ∈ l2.
Proof. rewrite L_split, !elem_of_app, !elem_of_cons, elem_of_nil. tauto. Qed.

Lemma take_exact : c.2 = n -> wp (malloc_round n (pv.1, c.1) s) (fun r s' => r = inr (taken.1 + sizeof_header) /\ U !! taken.1 = None /\
  hinv s' (la ++ kept ++ l2) (<[taken.1 := n]> U) /\ hp_os s' = hp_os s).
Proof.
  intros E. destruct list_hdrs as (S1 & Hpv & Hc & S2). destruct pv_facts as [Hpv0 Hpvc].
  assert (kept = [] /\ taken = (c.1, n)) as [Ek Et].
  { unfold kept, taken. rewrite (proj2 (Z.eqb_eq c.2 n) E). split; [done|]. f_equal. lia. }
  unfold malloc_round, get_size, get_ptr, set_ptr, upd_hdr, set_freep. do 2 kstep. rewrite Hc. cbn [h_size].
  rewrite (proj2 (Z.leb_le n c.2)), (proj2 (Z.eqb_eq c.2 n) E) by lia. do 8 kstep. cbn [hp_mem hp_freep hp_os]. rewrite Hc, Hpv. cbn [h_ptr h_size].
  set (m := <[pv.1 := _]> (hp_mem s)).
  assert (forall x, hdr_at m x = if decide (pv.1 = x) then mkHeader (first l2 base) pv.2 else hdr_at (hp_mem s) x) as Hm
    by (intros x; unfold m; by rewrite hdr_at_insert).
  destruct (take_hinv m) as [T1 T2]; [..|by rewrite Et in *].
  - apply seg_taken; [|by rewrite Hm, decide_True, Ek|by rewrite Ek]. intros x Hx _ _. rewrite Hm, decide_False; congruence.
  - rewrite Hm, Et, decide_False by (simpl; lia). cbn [fst]. by rewrite Hc.
  - intros x Hx _. rewrite Hm, decide_False; [done|]. apply not_eq_sym, Hx. rewrite L_split, elem_of_app, elem_of_cons. tauto.
Qed.

Lemma take_split : c.2 <> n -> wp (malloc_round n (pv.1, c.1) s) (fun r s' => r = inr (taken.1 + sizeof_header) /\ U !! taken.1 = None /\
  hinv s' (la ++ kept ++ l2) (<[taken.1 := n]> U) /\ hp_os s' = hp_os s).
Proof.
  intros E. destruct list_hdrs as (S1 & Hpv & Hc & S2). destruct pv_facts as [Hpv0 Hpvc]. pose proof c_ok as Hcok. pose proof (brk_range (hp_os s)) as Hr.
  assert (kept = [(c.1, c.2 - n)]) as Ek by (unfold kept; by rewrite (proj2 (Z.eqb_neq c.2 n) E)).
  assert (taken.1 = c.1 + (c.2 - n) * 16) as Et by (unfold taken; simpl; lia).
  unfold malloc_round, get_size, get_ptr, set_size, upd_hdr, set_freep, sizeof_header. do 2 kstep. rewrite Hc. cbn [h_size].
  rewrite (proj2 (Z.leb_le n c.2)), (proj2 (Z.eqb_neq c.2 n) E) by lia. do 10 kstep. cbn [hp_mem hp_freep hp_os].
  pose proof (hv_base _ _ _ HI) as [Hb0 _].
  assert (u32 (c.2 - n) = c.2 - n) as Eu by (unfold u32; apply Z.mod_small; lia).
  assert (u32 n = n) as En by (unfold u32; apply Z.mod_small; lia).
  set (m1 := <[c.1 := _]> (hp_mem s)).
  assert (forall x, hdr_at m1 x = if decide (c.1 = x) then mkHeader (first l2 base) (c.2 - n) else hdr_at (hp_mem s) x) as Hm1
    by (intros x; unfold m1; by rewrite hdr_at_insert, Hc, Eu).
  assert (h_size (hdr_at m1 c.1) = c.2 - n) as Es by by rewrite Hm1, decide_True. rewrite Es, <- Et, En. clearbody m1.
  set (m := <[taken.1 := _]> m1).
  assert (forall x, hdr_at m x = if decide (taken.1 = x) then mkHeader (h_ptr (hdr_at m1 taken.1)) n else hdr_at m1 x) as Hm
    by (intros x; unfold m; by rewrite hdr_at_insert). clearbody m.
  destruct (take_hinv m) as [T1 T2]; [..|done].
  - apply seg_taken.
    + intros x Hx1 Hx2 Hx3. rewrite Hm, decide_False, Hm1, decide_False by congruence. done.
    + rewrite Hm, decide_False, Hm1, decide_False by lia. by rewrite Hpv, Ek.
    + rewrite Ek. split; [|done]. cbn [fst snd]. rewrite Hm, decide_False, Hm1, decide_True by (done || lia). done.
  - by rewrite Hm, decide_True.
  - intros x Hx1 Hx2. rewrite Hm, decide_False, Hm1, decide_False; [done| |congruence]. apply not_eq_sym, Hx1.
    rewrite L_split, elem_of_app, !elem_of_cons. tauto.
Qed.
End take.

(** ** The search *)
Lemma addr_inj m L e b b' : seg m L e -> b ∈ L -> b' ∈ L -> b.1 = b'.1 -> b = b'.
Proof.
  assert (forall b, b ∈ L -> seg m L e -> h_size (hdr_at m b.1) = b.2) as H.
  { intros x Hx Hs. apply list_elem_of_split in Hx as (l1 & l2 & ->). apply seg_app in Hs as [_ [-> _]]. done. }
  intros Hs Hb Hb' E. rewrite (surjective_pairing b), (surjective_pairing b'), <- (H b), <- (H b'), E by done. done.
Qed.

Lemma ordered_NoDup L : ordered L -> Forall (fun b : blk => 0 <= b.2) L -> NoDup L.
Proof.
  induction L as [|b L IH]; intros Ho Hs; [apply NoDup_nil_2|]. destruct Ho as [Hb Ho]. apply Forall_cons_iff in Hs as [Hb0 Hs].
  apply NoDup_cons. split; [|by apply IH]. intros Hin. pose proof (proj1 (Forall_forall _ _) Hb b Hin) as H. unfold below in H. lia.
Qed.

Lemma ahead_same L p j : NoDup L -> ahead L p p j -> j = O.
Proof.
  intros Hnd (l1 & l2 & [|p' ps] & r & EL & E & <- & Hh); [done|]. simpl in Hh. injection Hh as ->.
  assert (NoDup (l2 ++ l1)) as Hnd' by (rewrite EL in Hnd; by rewrite Permutation_app_comm).
  rewrite E in Hnd'. simpl in Hnd'. apply NoDup_cons in Hnd' as [Hn _]. destruct Hn. apply elem_of_app. right. constructor.
Qed.

(** Once around the list from the block after [f]. *)
Lemma ahead_all m bs f : let L := (base, 0) :: bs in seg m L base -> f ∈ L ->
  exists c, h_ptr (hdr_at m f.1) = c.1 /\ c ∈ L /\ ahead L c f (length L - 1) /\
    forall b, b ∈ L -> exists k, (k <= length L - 1)%nat /\ ahead L c b k.
Proof.
  intros L Hs Hf. apply list_elem_of_split in Hf as (l1 & l2 & EL).
  assert (exists c r, l2 ++ l1 ++ [f] = c :: r /\ first l2 base = c.1) as (c & r & Er & Hc).
  { destruct l2 as [|d l2]; [|by exists d, (l2 ++ l1 ++ [f])]. unfold L in EL. destruct l1 as [|d l1]; simpl in EL; injection EL as Ed _.
    - exists f, []. by rewrite <- Ed.
    - exists d, (l1 ++ [f]). by rewrite <- Ed. }
  assert (forall ps b q, l2 ++ l1 ++ [f] = ps ++ b :: q -> ahead L c b (length ps)) as Hah.
  { intros ps b q E. exists (l1 ++ [f]), l2, ps, q. split_and!; [by rewrite EL, <- app_assoc|done|done|].
    rewrite E in Er. destruct ps; simpl in *; by injection Er as -> _. }
  assert (length (l2 ++ l1) = (length L - 1)%nat) as Hlen by (rewrite EL, !length_app; simpl; lia).
  exists c. split_and!.
  - rewrite EL, seg_app in Hs. destruct Hs as [_ [-> _]]. done.
  - assert (c ∈ l2 ++ l1 ++ [f]) as Hin by (rewrite Er; constructor). rewrite EL. clear -Hin. set_solver.
  - rewrite <- Hlen. apply (Hah (l2 ++ l1) f []). by rewrite <- app_assoc.
  - intros b Hb. assert (b ∈ l2 ++ l1 ++ [f]) as Hin by (rewrite EL in Hb; clear -Hb; set_solver).
    apply list_elem_of_split in Hin as (ps & q & E). exists (length ps). split; [|by eapply Hah].
    apply (f_equal length) in E. rewrite app_assoc, !length_app in E. rewrite length_app in Hlen. simpl in E. lia.
Qed.

(** The block after [pv]. *)
Lemma succ_split m bs pv c : let L := (base, 0) :: bs in seg m L base -> pv ∈ L -> c ∈ L -> h_ptr (hdr_at m pv.1) = c.1 -> 0 < c.2 ->
  exists l1 la l2, bs = la ++ c :: l2 /\ (base, 0) :: la = l1 ++ [pv].
Proof.
  intros L Hs Hpv Hc Hptr Hc0. pose proof Hpv as Hpv'. apply list_elem_of_split in Hpv' as (l1 & l2 & EL).
  assert (exists l2', l2 = c :: l2') as [l2' ->].
  { pose proof Hs as Hs'. rewrite EL, seg_app in Hs'. destruct Hs' as [_ [Hh _]]. rewrite Hh in Hptr. simpl in Hptr. destruct l2 as [|d l2].
    - assert ((base, 0) = c) as <- by (eapply addr_inj; [exact Hs|constructor|done|done]). simpl in Hc0. lia.
    - exists l2. f_equal. eapply addr_inj; [exact Hs| |done|done]. rewrite EL, elem_of_app, !elem_of_cons. tauto. }
  unfold L in EL. destruct l1 as [|b l1]; simpl in EL; injection EL as E1 E2.
  - exists [], [], l2'. by rewrite E1.
  - exists (b :: l1), (l1 ++ [pv]), l2'. rewrite E1, <- app_assoc. done.
Qed.

Section search.
Context (n : Z) (Hn : 0 < n) (Hlim : n * 16 < 2 ^ 31) (U : gmap Z Z) (w0 : W).

(** The search, [early] before more memory was asked for: it reaches [freep], and
    then a block that is large enough before [freep]. *)
Record searching (early : bool) (k : nat) (x : Z * Z) (s : heap) : Prop := {
  se_list : exists bs f pv c, hinv s bs U /\ hp_freep s <> 0 /\ seg (hp_mem s) ((base, 0) :: bs) base /\
    f ∈ (base, 0) :: bs /\ hp_freep s = f.1 /\ pv ∈ (base, 0) :: bs /\ c ∈ (base, 0) :: bs /\ x = (pv.1, c.1) /\
    h_ptr (hdr_at (hp_mem s) pv.1) = c.1 /\
    if early then ahead ((base, 0) :: bs) c f k
    else exists b j, b ∈ (base, 0) :: bs /\ n <= b.2 /\ ahead ((base, 0) :: bs) c b k /\ ahead ((base, 0) :: bs) c f j /\ (k <= j)%nat;
  se_os : early = true -> hp_os s = w0;
  se_bound : Z.of_nat k < 2 ^ 39
}.

(** What malloc() returns. *)
Definition allocated (r : Z) (s : heap) : Prop :=
  r = 0 /\ (exists bs, hinv s bs U) /\ refused n w0 \/
  exists a bs, r = a + sizeof_header /\ U !! a = None /\ hinv s bs (<[a := n]> U).

Lemma searching_start s bs f : hinv s bs U -> hp_freep s <> 0 -> seg (hp_mem s) ((base, 0) :: bs) base -> f ∈ (base, 0) :: bs -> hp_freep s = f.1 ->
  exists c : blk, h_ptr (hdr_at (hp_mem s) f.1) = c.1 /\ (hp_os s = w0 -> exists k, searching true k (f.1, c.1) s) /\
    ((exists b, b ∈ bs /\ n <= b.2) -> exists k, searching false k (f.1, c.1) s).
Proof.
  intros HI Hfr Hs Hf Ef. pose proof (hv_base _ _ _ HI) as [Hb0 Hb1]. pose proof (brk_range (hp_os s)) as [_ Hr].
  assert (Z.of_nat (length ((base, 0) :: bs) - 1) < 2 ^ 39) as Hlen.
  { assert (base + 16 + 16 * Z.of_nat (length bs) <= top s); [|simpl; lia]. pose proof (hv_flist _ _ _ HI) as Hfl.
    apply ordered_len; [apply Hfl| |done]. eapply Forall_impl; [apply (fl_blk _ _ Hfl)|]. simpl. lia. }
  destruct (ahead_all (hp_mem s) bs f Hs Hf) as (c & Hc & HcL & Haf & Hall). exists c. split_and!; [done|..].
  - intros Hw. exists (length ((base, 0%Z) :: bs) - 1)%nat. split; [|done|done]. by exists bs, f, f, c.
  - intros (b & Hb & Hbn). destruct (Hall b) as (k & Hk & Hab); [by constructor|]. exists k. split; [|done|lia].
    exists bs, f, f, c. split_and!; try done. exists b, (length ((base, 0%Z) :: bs) - 1)%nat. split_and!; try done. by constructor.
Qed.

(** A block that is too small: the search goes on behind it, or asks for memory. *)
Lemma skip_small pv c s : h_size (hdr_at (hp_mem s) c) < n ->
  malloc_round n (pv, c) s = if c =? hp_freep s then
      bind (morecore n) (fun p => if p =? 0 then ret (inr 0) else bind (get_ptr p) (fun next => ret (inl (p, next)))) s
    else Done (inl (c, h_ptr (hdr_at (hp_mem s) c))) s.
Proof.
  intros Hlt. unfold malloc_round, get_size. erewrite bind_Done by done. rewrite (proj2 (Z.leb_gt n _)) by done.
  erewrite bind_Done by done. destruct (c =? hp_freep s); [done|]. unfold get_ptr. by erewrite bind_Done by done.
Qed.

Lemma ask_more s bs : hinv s bs U -> hp_freep s <> 0 -> hp_os s = w0 ->
  wp (bind (morecore n) (fun p => if p =? 0 then ret (inr 0) else bind (get_ptr p) (fun next => ret (inl (p, next)))) s)
    (fun r s' => match r with inl x => exists k, searching false k x s' | inr r => allocated r s' end).
Proof.
  intros HI Hfr Hw. kstep. eapply wp_mono; [|by apply (morecore_ok s bs U n)]. rewrite Hw.
  intros r s' [(-> & HI' & Href)|(bs' & HI' & Hfr' & -> & b & Hb & Hbn)].
  - simpl. left. split_and!; [done|by exists bs|done].
  - rewrite (proj2 (Z.eqb_neq _ 0)) by done. kstep. unfold get_ptr. do 2 kstep.
    destruct (hv_list _ _ _ HI') as [[Hf0 _]|[Hs (f & Hf & Ef)]]; [congruence|].
    destruct (searching_start s' bs' f HI' Hfr' Hs Hf Ef) as (c & Hc & _ & H2). rewrite Ef, Hc. apply H2. eauto.
Qed.

Lemma malloc_round_ok early k x s : searching early k x s ->
  wp (malloc_round n x s) (fun r s' => match r with
    | inl x' => exists early' k', searching early' k' x' s' /\ ((early' = false /\ early = true) \/ early' = early /\ (k' < k)%nat)
    | inr r => allocated r s'
    end).
Proof.
  intros [(bs & f & pv & c & HI & Hfr & Hs & Hf & Ef & Hpv & Hc & -> & Hptr & Hah) Hw Hk].
  assert (h_size (hdr_at (hp_mem s) c.1) = c.2) as Hcsz.
  { pose proof Hc as Hc'. apply list_elem_of_split in Hc' as (l1 & l2 & E). rewrite E, seg_app in Hs. by destruct Hs as [_ [-> _]]. }
  destruct (decide (n <= c.2)) as [Hbig|Hsmall].
  - destruct (succ_split _ _ _ _ Hs Hpv Hc Hptr) as (l1 & la & l2 & Ebs & Ela); [lia|].
    assert (wp (malloc_round n (pv.1, c.1) s) (fun r s' => r = inr ((taken c n).1 + sizeof_header) /\ U !! (taken c n).1 = None /\
      hinv s' (la ++ kept c n ++ l2) (<[(taken c n).1 := n]> U) /\ hp_os s' = hp_os s)) as H.
    { destruct (decide (c.2 = n)); [eapply take_exact|eapply take_split]; eauto. }
    eapply wp_mono; [|exact H]. intros r s' (-> & Hnone & HI' & _). right. eauto.
  - rewrite skip_small by lia. destruct (Z.eqb_spec c.1 (hp_freep s)) as [E|E].
    + assert (c = f) as -> by (eapply addr_inj; [exact Hs|done|done|congruence]). destruct early.
      * eapply wp_mono; [|by eapply ask_more; [..|apply Hw]]. intros [x'|r] s'; [|done]. intros [k' H']. exists false, k'. split; [done|by left].
      * exfalso. destruct Hah as (b & j & Hb & Hbn & Hab & Haf & Hkj). apply ahead_same in Haf as ->.
        2:{ apply ordered_NoDup; [by eapply flist_ordered, hv_flist|]. apply Forall_cons. split; [done|].
            eapply Forall_impl; [apply (fl_blk _ _ (hv_flist _ _ _ HI))|]. simpl. lia. }
        assert (k = O) as -> by lia. apply ahead_here in Hab as ->. lia.
    + simpl. destruct early.
      * destruct k as [|k]; [apply ahead_here in Hah as ->; congruence|].
        destruct (ahead_next _ _ _ _ _ Hs Hah) as (c' & Hc' & Hah' & _ & HcL'). exists true, k. split; [|right; split; [done|lia]].
        split; [|done|lia]. exists bs, f, c, c'. rewrite Hc'. done.
      * destruct Hah as (b & j & Hb & Hbn & Hab & Haf & Hkj). destruct k as [|k]; [apply ahead_here in Hab as ->; lia|].
        destruct j as [|j]; [lia|]. destruct (ahead_next _ _ _ _ _ Hs Hab) as (c' & Hc' & Hab' & _ & HcL').
        destruct (ahead_next _ _ _ _ _ Hs Haf) as (c'' & Hc'' & Haf' & _ & HcL'').
        assert (c'' = c') as -> by (eapply addr_inj; [exact Hs|done|done|congruence]).
        exists false, k. split; [|right; split; [done|lia]]. split; [|done|lia]. exists bs, f, c, c'. rewrite Hc'. split_and!; try done.
        exists b, j. split_and!; try done. lia.
Qed.

Lemma malloc_search_ok k x s : searching true k x s -> wp (while_ budget (malloc_round n) x s) allocated.
Proof.
  intros Hse. apply (wp_while_ghost _ (fun g x s => searching g.1 g.2 x s)
    (fun g : bool * nat => (if g.1 then 2 ^ 39 else 0) + Z.of_nat g.2) _) with (g := (true, k)).
  - intros [early k1] x1 s1 H1. eapply wp_mono; [|by apply malloc_round_ok]. intros [x2|r] s2; [|done].
    intros (early' & k' & H2 & Hcase). exists (early', k'). split; [done|]. pose proof (se_bound _ _ _ _ H2). pose proof (se_bound _ _ _ _ H1).
    simpl in *. destruct Hcase as [[-> ->]|[-> Hlt]]; lia.
  - intros [early k1] x1 s1 _. simpl. destruct early; lia.
  - done.
  - pose proof (se_bound _ _ _ _ Hse). unfold budget. simpl. lia.
Qed.
End search.

(** The units of a block of [nbytes] bytes, the header among them. *)
Definition units (nbytes : Z) : Z := (nbytes + sizeof_header - 1) / sizeof_header + 1.

Lemma units_ok nbytes : 0 <= nbytes -> nbytes + 31 < 2 ^ 31 ->
  0 < units nbytes /\ units nbytes * 16 < 2 ^ 31 /\ u32 (units nbytes) = units nbytes /\ nbytes <= 16 * (units nbytes - 1).
Proof.
  intros H0 H1. unfold units, sizeof_header. set (q := (nbytes + 16 - 1) / 16).
  assert (nbytes <= 16 * q <= nbytes + 15) as Hq
    by (unfold q; pose proof (Z.div_mod (nbytes + 16 - 1) 16); pose proof (Z.mod_pos_bound (nbytes + 16 - 1) 16); lia).
  clearbody q. unfold u32. rewrite Z.mod_small; lia.
Qed.

(** The first call makes the list of [base] alone. *)
Lemma hinv_first s bs U : hinv s bs U -> hp_freep s = 0 ->
  hinv (mkHeap (<[base := mkHeader base 0]> (hp_mem s)) base (hp_os s)) [] U.
Proof.
  intros [Hb Hf Hlist Hlive Hap] H0.
  assert (bs = [] /\ U = ∅) as [-> ->].
  { destruct Hlist as [(_ & -> & ->)|[Hs (f & Hin & Ef)]]; [done|]. exfalso. apply elem_of_cons in Hin as [->|Hin]; [simpl in *; lia|].
    pose proof (proj1 (Forall_forall _ _) (fl_blk _ _ Hf) f Hin) as H. simpl in H. lia. }
  split; cbn [hp_mem hp_freep hp_os]; [done|done| |done|done]. right. split; [|by exists (base, 0); split; [constructor|]].
  split; [|done]. by rewrite hdr_at_insert, decide_True.
Qed.

Lemma malloc_first s : (set_freep base;; set_ptr base base;; set_size base 0;; ret base) s =
  Done base (mkHeap (<[base := mkHeader base 0]> (hp_mem s)) base (hp_os s)).
Proof.
  unfold set_freep, set_ptr, set_size, upd_hdr. cbn. rewrite insert_insert_eq, hdr_at_insert, decide_True by exact eq_refl. exact eq_refl.
Qed.

Lemma malloc_ok s bs U nbytes : hinv s bs U -> 0 <= nbytes -> nbytes + 31 < 2 ^ 31 ->
  wp (malloc nbytes s) (allocated (units nbytes) U (hp_os s)).
Proof.
  intros HI H0 H1. destruct (units_ok nbytes H0 H1) as (Hn & Hlim & E32 & _). unfold malloc. fold (units nbytes). rewrite E32.
  set (w := hp_os s). assert (forall q s' bs', hinv s' bs' U -> hp_freep s' = q -> q <> 0 -> hp_os s' = w ->
    wp (bind (get_ptr q) (fun p => while_ budget (malloc_round (units nbytes)) (q, p)) s') (allocated (units nbytes) U w)) as Hgo.
  { intros q s' bs' HI' <- Hfr Hw. destruct (hv_list _ _ _ HI') as [[Hf0 _]|[Hs (f & Hf & Ef)]]; [congruence|].
    destruct (searching_start (units nbytes) U w s' bs' f HI' Hfr Hs Hf Ef) as (c & Hc & Hk & _). destruct (Hk Hw) as [k Hse].
    kstep. unfold get_ptr. kstep. rewrite Ef, Hc. by eapply malloc_search_ok. }
  kstep. kstep. destruct (Z.eqb_spec (hp_freep s) 0) as [E|E].
  - assert (base <> 0) as Hb by (pose proof (hv_base _ _ _ HI); lia).
    erewrite bind_Done by apply malloc_first. apply (Hgo base _ []); [by eapply hinv_first|exact eq_refl|exact Hb|exact eq_refl].
  - erewrite bind_Done by exact eq_refl. apply (Hgo _ s bs); [exact HI|exact eq_refl|exact E|exact eq_refl].
Qed.

(** free() of a block in use. *)
Lemma free_live s bs U a n : hinv s bs U -> U !! a = Some n ->
  wp (free (a + sizeof_header) s) (fun _ s' => exists bs', hinv s' bs' (delete a U)).
Proof.
  intros HI Ha. pose proof HI as [Hb Hf Hlist Hlive Hap]. destruct (Hlive a n Ha) as (H1 & H2 & H3 & H4 & H5).
  destruct Hlist as [(_ & _ & ->)|Hlist]; [rewrite lookup_empty in Ha; discriminate Ha|].
  assert (hp_freep s <> 0) as Hfr.
  { destruct Hlist as [_ (f & Hin & ->)]. apply elem_of_cons in Hin as [->|Hin]; [simpl; lia|].
    pose proof (proj1 (Forall_forall _ _) (fl_blk _ _ Hf) f Hin) as H. simpl in H. lia. }
  assert (forall x k, delete a U !! x = Some k -> a <> x /\ U !! x = Some k) as Hdel
    by (intros x k Hx; exact (proj1 (lookup_delete_Some _ _ _ _) Hx)).
  assert (hinv s bs (delete a U)) as HI'.
  { split; [exact Hb|exact Hf|right; exact Hlist| |].
    - intros x k Hx. apply Hlive. exact (proj2 (Hdel _ _ Hx)).
    - intros x k x' k' Hx Hx'. apply Hap; [exact (proj2 (Hdel _ _ Hx))|exact (proj2 (Hdel _ _ Hx'))]. }
  assert (forall x k, delete a U !! x = Some k -> apart (x, k) (a, n)) as HapU.
  { intros x k Hx. destruct (Hdel _ _ Hx) as [Hne Hx']. apply Hap; [exact Hx'|exact Ha|congruence]. }
  eapply wp_mono; [|exact (free_blk s bs (delete a U) a n HI' Hfr H2 H1 H3 H5 HapU H4)].
  intros [] s' (bs' & HI1 & _). exists bs'. exact HI1.
Qed.

(** ** A program that allocates, frees and writes to its blocks *)
Inductive request :=
  | Malloc (nbytes : Z)
  | Free (ap : Z)
  | Store (p : Z) (h : header). (** 16 bytes at [p] *)

(** [live] are the blocks the program holds: address and bytes asked for.  It frees what it
    holds, and writes inside what it holds. *)
Definition within (p : Z) (b : blk) : bool := (b.1 <=? p) && (p + 16 <=? b.1 + b.2).
Definition serve1 (live : list blk) (r : request) : K heap (list blk) :=
  match r with
  | Malloc nbytes => r <- malloc nbytes;; ret (if r =? 0 then live else (r, nbytes) :: live)
  | Free ap => if decide (ap ∈ live.*1) then free ap;; ret (filter (fun b => b.1 <> ap) live) else ret live
  | Store p h => if existsb (within p) live then upd_hdr p (fun _ => h);; ret live else ret live
  end.
Fixpoint serve (rs : list request) (live : list blk) : K heap (list blk) :=
  match rs with
  | [] => ret live
  | r :: rs => live <- serve1 live r;; serve rs live
  end.

(** Sizes that fit: see [malloc_beyond_memory] for the others. *)
Definition req_ok (r : request) : Prop :=
  match r with Malloc nbytes => 0 <= nbytes /\ nbytes + 31 < 2 ^ 31 | _ => True end.

(** The blocks of the program are blocks of the heap. *)
Record held (live : list blk) (s : heap) : Prop := {
  he_heap : exists bs U, hinv s bs U /\ forall b, b ∈ live -> U !! (b.1 - 16) = Some (units b.2);
  he_nodup : NoDup live.*1;
  he_size : Forall (fun b => 0 <= b.2 /\ b.2 + 31 < 2 ^ 31) live
}.

Lemma serve_malloc live nbytes s : held live s -> req_ok (Malloc nbytes) ->
  wp (malloc nbytes s) (fun r s' => r = 0 /\ held live s' /\ refused (units nbytes) (hp_os s) \/
    r <> 0 /\ r ∉ live.*1 /\ held ((r, nbytes) :: live) s').
Proof.
  intros [(bs & U & HI & Hl) Hnd Hsz] [H0 H1]. eapply wp_mono; [|exact (malloc_ok s bs U nbytes HI H0 H1)].
  intros r s' [(-> & (bs' & HI') & Href)|(a & bs' & -> & Hnone & HI')]; [left|right].
  - split; [exact eq_refl|]. split; [|exact Href]. split; [by exists bs', U|exact Hnd|exact Hsz].
  - destruct (hv_live _ _ _ HI' a (units nbytes)) as (_ & Ha & _); [apply lookup_insert_eq|]. pose proof (hv_base _ _ _ HI') as [Hb _].
    assert (a + sizeof_header ∉ live.*1) as Hfresh.
    { intros Hin. apply list_elem_of_fmap in Hin as (b & E & Hin). pose proof (Hl b Hin) as Hb'. unfold sizeof_header in E.
      replace (b.1 - 16) with a in Hb' by lia. congruence. }
    split; [unfold sizeof_header; lia|]. split; [exact Hfresh|]. split.
    + exists bs', (<[a := units nbytes]> U). split; [exact HI'|]. intros b Hin. apply elem_of_cons in Hin as [->|Hin].
      * cbn [fst snd]. unfold sizeof_header. replace (a + 16 - 16) with a by lia. apply lookup_insert_eq.
      * rewrite lookup_insert_ne; [exact (Hl b Hin)|]. intros E. pose proof (Hl b Hin) as Hb'. rewrite <- E in Hb'. congruence.
    + apply NoDup_cons. by split.
    + apply Forall_cons. by split.
Qed.

Lemma serve_free live ap s : held live s -> ap ∈ live.*1 ->
  wp (free ap s) (fun _ s' => held (filter (fun b => b.1 <> ap) live) s').
Proof.
  intros [(bs & U & HI & Hl) Hnd Hsz] Hin. apply list_elem_of_fmap in Hin as (c & -> & Hc).
  replace c.1 with (c.1 - 16 + sizeof_header) at 1 by (unfold sizeof_header; lia).
  eapply wp_mono; [|exact (free_live s bs U _ _ HI (Hl c Hc))]. intros [] s' [bs' HI']. split.
  - exists bs', (delete (c.1 - 16) U). split; [exact HI'|]. intros b Hb. apply list_elem_of_filter in Hb as [Hne Hb].
    rewrite lookup_delete_ne by lia. exact (Hl b Hb).
  - clear -Hnd. induction live as [|b l IH]; [exact Hnd|]. apply NoDup_cons in Hnd as [Hb Hnd]. rewrite filter_cons.
    destruct (decide _); [|exact (IH Hnd)]. apply NoDup_cons. split; [|exact (IH Hnd)]. intros Hin. apply Hb.
    apply list_elem_of_fmap in Hin as (d & E & Hd). apply list_elem_of_filter in Hd as [_ Hd]. rewrite E. by apply list_elem_of_fmap_2.
  - apply Forall_forall. intros b Hb. apply list_elem_of_filter in Hb as [_ Hb]. exact (proj1 (Forall_forall _ _) Hsz b Hb).
Qed.

(** A write inside a block in use touches no header. *)
Lemma hinv_store s bs U a n p h : hinv s bs U -> U !! a = Some n -> a + 16 <= p -> p + 16 <= a + 16 * n ->
  hinv (mkHeap (<[p := h]> (hp_mem s)) (hp_freep s) (hp_os s)) bs U.
Proof.
  intros [Hb Hf Hlist Hlive Hap] Ha H1 H2. destruct (Hlive a n Ha) as (Hn & Ha1 & _ & _ & Hfree).
  split; cbn [hp_mem hp_freep hp_os]; [exact Hb|exact Hf| | |exact Hap].
  - destruct Hlist as [Hl|[Hs Hfr]]; [by left|right]. split; [|exact Hfr]. apply (seg_ext (hp_mem s)); [|exact Hs].
    intros b Hin. rewrite hdr_at_insert, decide_False; [exact eq_refl|]. apply elem_of_cons in Hin as [->|Hin]; [simpl; lia|].
    pose proof (proj1 (Forall_forall _ _) Hfree b Hin) as H. pose proof (proj1 (Forall_forall _ _) (fl_blk _ _ Hf) b Hin) as H'.
    unfold apart in H. simpl in *. lia.
  - intros x k Hx. destruct (Hlive x k Hx) as (Hk & Hx1 & Hx2 & Hx3 & Hx4). rewrite hdr_at_insert, decide_False; [by split_and!|].
    destruct (decide (x = a)) as [->|Hne]; [lia|]. pose proof (Hap x k a n Hx Ha Hne) as H. unfold apart in H. simpl in H. lia.
Qed.

Lemma serve_store live p h s : held live s -> existsb (within p) live = true -> wp (upd_hdr p (fun _ => h) s) (fun _ s' => held live s').
Proof.
  intros [(bs & U & HI & Hl) Hnd Hsz] Hex. apply existsb_exists in Hex as (b & Hb & Hw). apply list_elem_of_In in Hb.
  unfold within in Hw. apply andb_true_iff in Hw as [Hw1 Hw2]. apply Z.leb_le in Hw1, Hw2.
  pose proof (proj1 (Forall_forall _ _) Hsz b Hb) as [Hs0 Hs1]. destruct (units_ok _ Hs0 Hs1) as (_ & _ & _ & Hu).
  unfold upd_hdr. kstep. split; [|exact Hnd|exact Hsz]. exists bs, U. split; [|exact Hl].
  apply (hinv_store s bs U (b.1 - 16) (units b.2)); [exact HI|exact (Hl b Hb)|lia|lia].
Qed.

Lemma serve_held rs live s : held live s -> Forall req_ok rs -> wp (serve rs live s) held.
Proof.
  revert live s. induction rs as [|r rs IH]; intros live s Hh Hrs; [exact Hh|]. apply Forall_cons in Hrs as [Hr Hrs].
  cbn [serve]. kstep. apply (wp_mono _ (fun live' s' => held live' s')); [intros live' s' Hh'; exact (IH live' s' Hh' Hrs)|].
  destruct r as [nbytes|ap|p h]; cbn [serve1].
  - kstep. eapply wp_mono; [|exact (serve_malloc live nbytes s Hh Hr)]. intros r s' [(-> & Hh' & _)|(Hr0 & _ & Hh')]; [exact Hh'|].
    rewrite (proj2 (Z.eqb_neq r 0)) by exact Hr0. exact Hh'.
  - destruct (decide _) as [Hin|]; [|exact Hh]. kstep. eapply wp_mono; [|exact (serve_free live ap s Hh Hin)]. intros [] s' Hh'. exact Hh'.
  - destruct (existsb _ _) eqn:E; [|exact Hh]. kstep. eapply wp_mono; [|exact (serve_store live p h s Hh E)]. intros [] s' Hh'. exact Hh'.
Qed.

Lemma held_start m w : 0 < base -> base + 16 <= brk w -> held [] (mkHeap m 0 w).
Proof.
  intros H0 H1. split; [|apply NoDup_nil_2|apply Forall_nil_2]. exists [], ∅. split; [|intros b Hb; by apply elem_of_nil in Hb].
  split; cbn [hp_mem hp_freep hp_os]; [by split| |by left|by intros|by intros]. by split.
Qed.

Definition disjoint (b c : blk) : Prop := b.1 + b.2 <= c.1 \/ c.1 + c.2 <= b.1.

Lemma held_disjoint live s b c : held live s -> b ∈ live -> c ∈ live -> b.1 <> c.1 -> disjoint b c.
Proof.
  intros [(bs & U & HI & Hl) _ Hsz] Hb Hc Hne. rewrite Forall_forall in Hsz.
  destruct (units_ok _ (proj1 (Hsz b Hb)) (proj2 (Hsz b Hb))) as (_ & _ & _ & Hub).
  destruct (units_ok _ (proj1 (Hsz c Hc)) (proj2 (Hsz c Hc))) as (_ & _ & _ & Huc).
  pose proof (hv_apart _ _ _ HI _ _ _ _ (Hl b Hb) (Hl c Hc) ltac:(lia)) as H. unfold apart in H. unfold disjoint. simpl in H. lia.
Qed.

Lemma held_inside live s b : held live s -> b ∈ live -> base + 32 <= b.1 /\ b.1 + b.2 <= brk (hp_os s).
Proof.
  intros [(bs & U & HI & Hl) _ Hsz] Hb. rewrite Forall_forall in Hsz.
  destruct (units_ok _ (proj1 (Hsz b Hb)) (proj2 (Hsz b Hb))) as (_ & _ & _ & Hub).
  destruct (hv_live _ _ _ HI _ _ (Hl b Hb)) as (_ & H1 & H2 & _). lia.
Qed.

(** C13. The allocator from the first call on, whatever the program does with it (allocating, freeing in any
    order, writing anything into its blocks): every call returns, no block is handed out twice, the blocks in use do not
    overlap, and each lies with all the bytes asked for in the memory that sbrk() gave. *)
Theorem umalloc_disjoint rs m w : 0 < base -> base + 16 <= brk w -> Forall req_ok rs ->
  wp (serve rs [] (mkHeap m 0 w)) (fun live s => NoDup live.*1 /\
    Forall (fun b => base + 32 <= b.1 /\ b.1 + b.2 <= brk (hp_os s)) live /\
    forall b c, b ∈ live -> c ∈ live -> b.1 <> c.1 -> disjoint b c).
Proof.
  intros H0 H1 Hrs. eapply wp_mono; [|exact (serve_held rs [] _ (held_start m w H0 H1) Hrs)]. intros live s Hh. split_and!.
  - exact (he_nodup _ _ Hh).
  - apply Forall_forall. intros b Hb. exact (held_inside live s b Hh Hb).
  - intros b c Hb Hc Hne. exact (held_disjoint live s b c Hh Hb Hc Hne).
Qed.

(** C14. malloc() after any such history: it fails only when sbrk() refuses to grow the process by the larger of
    4096 units and the request; otherwise it returns a block that is in memory and apart from every block in use. *)
Theorem malloc_gives rs m w nbytes : 0 < base -> base + 16 <= brk w -> Forall req_ok rs -> 0 <= nbytes -> nbytes + 31 < 2 ^ 31 ->
  wp (serve rs [] (mkHeap m 0 w)) (fun live s => wp (malloc nbytes s) (fun r s' =>
    r = 0 /\ refused (units nbytes) (hp_os s) \/
    base + 32 <= r /\ r + nbytes <= brk (hp_os s') /\ forall b, b ∈ live -> b.1 <> r /\ disjoint b (r, nbytes))).
Proof.
  intros H0 H1 Hrs Hn0 Hn1. eapply wp_mono; [|exact (serve_held rs [] _ (held_start m w H0 H1) Hrs)]. intros live s Hh.
  eapply wp_mono; [|exact (serve_malloc live nbytes s Hh (conj Hn0 Hn1))].
  intros r s' [(-> & _ & Href)|(_ & Hfresh & Hh')]; [by left|right].
  destruct (held_inside _ s' (r, nbytes) Hh') as [Hr1 Hr2]; [constructor|]. split_and!; [exact Hr1|exact Hr2|].
  intros b Hb. assert (b.1 <> r) as Hne by (intros <-; apply Hfresh, list_elem_of_fmap_2, Hb). split; [exact Hne|].
  apply (held_disjoint _ s' _ _ Hh'); [by constructor|by constructor|exact Hne].
Qed.

(** ** Requests of 2^31 bytes and more *)
(** free() of a block above [base] when the list holds [base] alone. *)
Lemma free_single bp n s : hdr_at (hp_mem s) base = mkHeader base 0 -> h_size (hdr_at (hp_mem s) bp) = n -> hp_freep s = base ->
  base + 16 <= bp -> 0 <= n ->
  exists s', free (bp + sizeof_header) s = Done tt s' /\ hp_freep s' = base /\ hp_os s' = hp_os s /\
    hdr_at (hp_mem s') base = mkHeader bp 0 /\ hdr_at (hp_mem s') bp = mkHeader base n.
Proof.
  intros Hb Hp Hf Hle Hn. unfold free. replace (bp + sizeof_header - sizeof_header) with bp by lia.
  erewrite bind_Done by exact eq_refl. rewrite Hf.
  assert (free_place bp base s = Done (inr base) s) as Hpl.
  { unfold free_place, get_ptr. erewrite bind_Done by exact eq_refl. rewrite Hb. cbn [h_ptr].
    rewrite (proj2 (Z.ltb_ge bp base)), andb_false_r, Z.leb_refl, (proj2 (Z.ltb_lt base bp)) by lia. exact eq_refl. }
  erewrite bind_Done by exact (while_exit _ _ _ _ _ _ Hpl).
  assert (join_upper bp base s = set_ptr bp base s) as Hup.
  { unfold join_upper, get_ptr, get_size. erewrite bind_Done by exact eq_refl. erewrite bind_Done by exact eq_refl. rewrite Hb, Hp.
    cbn [h_ptr h_size]. unfold sizeof_header. rewrite (proj2 (Z.eqb_neq _ base)) by lia. exact eq_refl. }
  erewrite bind_Done by (rewrite Hup; exact eq_refl). cbv beta. rewrite Hp. set (s1 := mkHeap _ _ _).
  assert (join_lower bp base s1 = set_ptr base bp s1) as Hlow.
  { unfold join_lower, get_size. erewrite bind_Done by exact eq_refl. unfold s1. cbn [hp_mem].
    rewrite hdr_at_insert, decide_False, Hb by lia. cbn [h_size]. rewrite (proj2 (Z.eqb_neq _ bp)) by lia. exact eq_refl. }
  erewrite bind_Done by (rewrite Hlow; exact eq_refl).
  eexists. split; [exact eq_refl|]. unfold s1. cbn [hp_mem hp_freep hp_os]. rewrite !hdr_at_insert, (decide_True (P := base = base)) by exact eq_refl.
  rewrite (decide_False (P := bp = base)), (decide_False (P := base = bp)), (decide_True (P := bp = bp)), Hb by (exact eq_refl || lia).
  by split_and!.
Qed.

Lemma morecore_single n s : n = 2 ^ 28 + 1 -> hdr_at (hp_mem s) base = mkHeader base 0 -> hp_freep s = base -> 0 < base ->
  base + 16 <= brk (hp_os s) -> (os_sbrk 16 (hp_os s)).1 <> -1 ->
  exists s', morecore n s = Done base s' /\ hp_freep s' = base /\ brk (hp_os s') = brk (hp_os s) + 16 /\
    hdr_at (hp_mem s') base = mkHeader (brk (hp_os s)) 0 /\ h_size (hdr_at (hp_mem s') (brk (hp_os s))) = n.
Proof.
  intros -> Hb Hf H0 H1 Hs. unfold morecore, sbrk. change (if _ <? 4096 then 4096 else _) with (2 ^ 28 + 1).
  change (s32 ((2 ^ 28 + 1) * sizeof_header)) with 16.
  pose proof (sbrk_spec 16 (hp_os s) ltac:(lia)) as Hsp. destruct (os_sbrk 16 (hp_os s)) as [r w'] eqn:Esb. cbn [fst] in Hs.
  destruct Hsp as [[Hr _]|[-> Hw']]; [congruence|]. erewrite bind_Done by (rewrite Esb; exact eq_refl).
  rewrite (proj2 (Z.eqb_neq _ (-1))) by lia. unfold set_size, upd_hdr. erewrite bind_Done by exact eq_refl. cbn [hp_mem hp_freep hp_os].
  set (s1 := mkHeap _ _ _). destruct (free_single (brk (hp_os s)) (2 ^ 28 + 1) s1) as (s' & Hfree & Hf' & Hos & Hb' & Hp').
  - unfold s1. cbn [hp_mem]. rewrite hdr_at_insert, decide_False by lia. exact Hb.
  - unfold s1. cbn [hp_mem]. rewrite hdr_at_insert, decide_True by exact eq_refl. exact eq_refl.
  - exact Hf.
  - exact H1.
  - lia.
  - exists s'. erewrite bind_Done by exact Hfree. rewrite Hos, Hp'. split_and!; [unfold gets; by rewrite Hf'|exact Hf'|exact Hw'|exact Hb'|exact eq_refl].
Qed.

(** C40. A request of 2^31 bytes and more is truncated on its way to sbrk(): the last uint asks for
    2^28 + 1 units, which is 16 bytes as an int.  malloc() then links a block of 2^28 + 1 units whose header is all the
    memory it got, and returns the address of the end of the process's memory. *)
Theorem malloc_beyond_memory m w : 0 < base -> base + 16 <= brk w -> (os_sbrk 16 w).1 <> -1 ->
  wp (malloc (2 ^ 32 - 1) (mkHeap m 0 w)) (fun r s => r = brk w + 16 /\ brk (hp_os s) = brk w + 16).
Proof.
  intros H0 H1 Hs. unfold malloc. kstep. kstep. cbn [hp_freep]. rewrite Z.eqb_refl.
  erewrite bind_Done by apply malloc_first. cbn [hp_mem hp_os]. set (s1 := mkHeap _ _ _). set (n := u32 _).
  assert (n = 2 ^ 28 + 1) as En by (vm_compute; exact eq_refl). clearbody n.
  assert (hdr_at (hp_mem s1) base = mkHeader base 0) as Hb by (unfold s1; cbn [hp_mem]; rewrite hdr_at_insert, decide_True by exact eq_refl; exact eq_refl).
  kstep. unfold get_ptr. kstep. rewrite Hb. cbn [h_ptr].
  assert (exists s2, morecore n s1 = Done base s2 /\ hp_freep s2 = base /\ brk (hp_os s2) = brk w + 16 /\
    hdr_at (hp_mem s2) base = mkHeader (brk w) 0 /\ h_size (hdr_at (hp_mem s2) (brk w)) = n) as (s2 & Hmc & Hf2 & Hbrk & Hb2 & Hz2).
  { by apply morecore_single. }
  apply (wp_while_ghost _ (fun (g : bool) x s => if g then x = (base, base) /\ s = s1 else x = (base, brk w) /\ s = s2)
    (fun g : bool => if g then 1 else 0) _) with (g := true).
  - intros [|] x s [-> ->].
    + rewrite skip_small by (rewrite Hb; cbn [h_size]; lia). unfold s1 at 1. cbn [hp_freep]. rewrite Z.eqb_refl.
      erewrite bind_Done by exact Hmc. rewrite (proj2 (Z.eqb_neq base 0)) by lia. kstep. unfold get_ptr. do 2 kstep. rewrite Hb2.
      exists false. by repeat split.
    + unfold malloc_round, get_size. erewrite bind_Done by exact eq_refl. rewrite Hz2, Z.leb_refl, Z.eqb_refl.
      erewrite bind_Done by exact eq_refl. by repeat split.
  - intros [|] ? ? _; lia.
  - by split.
  - reflexivity.
Qed.
End umalloc.

(** ** A process whose memory grows from one page: a concrete sbrk() *)
#[export] Instance brk_os : Os Z := {|
  os_sbrk n w := if (0 <=? n) && (w mod 2 ^ 35 + n <? 2 ^ 35) then (4096 + w mod 2 ^ 35, w mod 2 ^ 35 + n) else (-1, w);
  os_read _ _ w := (-1, [], w); os_write _ _ w := (-1, w); os_open _ _ w := (-1, w); os_close _ w := (-1, w); os_exit _ w := w;
  os_fork w := (-1, w); os_wait w := (-1, 0, w); os_exec _ _ w := (Some (-1), w); os_pipe w := (-1, (0, 0), w);
  os_dup _ w := (-1, w); os_chdir _ w := (-1, w); os_mkdir _ w := (-1, w); os_mknod _ _ _ w := (-1, w);
  os_link _ _ w := (-1, w); os_unlink _ w := (-1, w); os_fstat _ w := (-1, (0, 0, 0, 0, 0), w);
  os_kill _ w := (-1, w); os_sleep _ w := (-1, w)
|}.

#[export] Program Instance brk_brk : OsBrk Z := {| brk w := 4096 + w mod 2 ^ 35 |}.
Next Obligation. intros w. pose proof (Z.mod_pos_bound w (2 ^ 35) ltac:(lia)). lia. Qed.
Next Obligation.
  intros n w Hn. pose proof (Z.mod_pos_bound w (2 ^ 35) ltac:(lia)). unfold os_sbrk, brk_os. rewrite (proj2 (Z.leb_le 0 n)) by exact Hn.
  destruct (Z.ltb_spec (w mod 2 ^ 35 + n) (2 ^ 35)); simpl; [right|by left]. rewrite (Z.mod_small (w mod 2 ^ 35 + n)) by lia. lia.
Qed.

Definition some_requests : list request := [Malloc 10; Malloc 100; Store 69616 (mkHeader 1 2); Free 69616; Malloc 50].

Lemma umalloc_disjoint_witness :
  wp (serve 2048 some_requests [] (mkHeap ∅ 0 0)) (fun live s => NoDup live.*1 /\
    Forall (fun b => 2048 + 32 <= b.1 /\ b.1 + b.2 <= brk (hp_os s)) live /\
    forall b c, b ∈ live -> c ∈ live -> b.1 <> c.1 -> disjoint b c).
Proof. apply umalloc_disjoint; [lia|vm_compute; congruence|repeat constructor; simpl; lia]. Defined.

Lemma malloc_gives_witness :
  wp (serve 2048 some_requests [] (mkHeap ∅ 0 0)) (fun live s => wp (malloc 2048 7 s) (fun r s' =>
    r = 0 /\ refused (units 7) (hp_os s) \/
    2048 + 32 <= r /\ r + 7 <= brk (hp_os s') /\ forall b, b ∈ live -> b.1 <> r /\ disjoint b (r, 7))).
Proof. apply malloc_gives; [lia|vm_compute; congruence|repeat constructor; simpl; lia|lia|lia]. Defined.

Lemma malloc_beyond_memory_witness :
  wp (malloc 2048 (2 ^ 32 - 1) (mkHeap ∅ 0 0)) (fun r s => r = brk 0 + 16 /\ brk (hp_os s) = brk 0 + 16).
Proof. apply malloc_beyond_memory; [lia|vm_compute; congruence|vm_compute; congruence]. Defined.
