(* ===== verification/Sh.v ===== *)
(** * The shell (user/sh.c)

    The parser works on positions in the line buffer and cannot do anything but
    return or print a message and exit, so its functions return a [res].  Commands
    carry the positions of their strings until [nulterminate] has cut the buffer
    into strings.  The theorem shows that the parser decides the grammar of the
    shell's command language. *)
From S2P Require Import Prelude Machine KString User Ulib.
Local Open Scope Z_scope.
Local Open Scope kernel_scope.

(** ** Parsed command representation *)
Definition MAXARGS : nat := 10.

(** [struct cmd] and the structs it stands for; a string is of type [S]: the pair of its
    start and end in the buffer (argv and eargv, file and efile), or its contents.
    argv ends at the first null pointer. *)
Inductive cmd (S : Type) :=
  | EXEC (argv : list S)
  | REDIR (c : cmd S) (file : S) (mode fd : Z)
  | PIPE (left right : cmd S)
  | LIST (left right : cmd S)
  | BACK (c : cmd S).
Arguments EXEC {S} argv.
Arguments REDIR {S} c file mode fd.
Arguments PIPE {S} left right.
Arguments LIST {S} left right.
Arguments BACK {S} c.
Notation pos := (nat * nat)%type.

Fixpoint cmd_map {S T} (f : S -> T) (c : cmd S) : cmd T :=
  match c with
  | EXEC argv => EXEC (map f argv)
  | REDIR c file mode fd => REDIR (cmd_map f c) (f file) mode fd
  | PIPE l r => PIPE (cmd_map f l) (cmd_map f r)
  | LIST l r => LIST (cmd_map f l) (cmd_map f r)
  | BACK c => BACK (cmd_map f c)
  end.

(** [cmd->argv[argc] = q], where parseexec's [cmd] is the execcmd inside the redirections
    of [ret]. *)
Fixpoint add_arg {S} (c : cmd S) (a : S) : cmd S :=
  match c with
  | EXEC argv => EXEC (argv ++ [a])
  | REDIR c file mode fd => REDIR (add_arg c a) file mode fd
  | c => c
  end.

(** ** Parsing *)
Inductive res (A : Type) := Ok (a : A) | Err (msg : string) | NoFuel.
Arguments Ok {A} a.
Arguments Err {A} msg.
Arguments NoFuel {A}.
Definition rbind {A B} (r : res A) (f : A -> res B) : res B :=
  match r with Ok a => f a | Err msg => Err msg | NoFuel => NoFuel end.
Notation "'let?' x := r 'in' k" := (rbind r (fun x => k)) (at level 10, x pattern, r at level 100, k at level 200) : kernel_scope.

Definition whitespace : list Z := [32; 9; 13; 10; 11].
Definition symbols : list Z := str "<|>&;()".
Definition is_in (s : list Z) (c : Z) : bool := match strchr s c with Some _ => true | None => false end.
Definition wordchar (c : Z) : bool := negb (is_in whitespace c) && negb (is_in symbols c).

Lemma is_in_cons b s c : b <> 0 -> is_in (b :: s) c = (b =? c) || is_in s c.
Proof. intros H. unfold is_in. simpl. rewrite (proj2 (Z.eqb_neq b 0)) by done. destruct (b =? c); [done|]. by destruct (strchr s c). Qed.

Section parser.
Context (buf : list Z) (es : nat).

Definition at_ (s : nat) : Z := nth s buf 0.

(** [while(s < es && f( *s)) s++;] with [n] characters up to [es]. *)
Fixpoint skip_while (f : Z -> bool) (n s : nat) : nat :=
  match n with
  | O => s
  | S n => if f (at_ s) then skip_while f n (S s) else s
  end.
Definition skip (f : Z -> bool) (s : nat) : nat := skip_while f (es - s) s.

(** The token, its start and end, and the new [*ps]. *)
Definition gettoken (ps : nat) : Z * nat * nat * nat :=
  let s := skip (is_in whitespace) ps in
  let q := s in
  let c := at_ s in
  let '(tok, s) :=
    if c =? 0 then (c, s)
    else if is_in (str "|();&<") c then (c, S s)
    else if c =? 62 (* > *) then
      if at_ (S s) =? 62 then (43 (* + *), S (S s)) else (c, S s)
    else (97 (* a *), skip wordchar s) in
  let eq := s in
  let s := skip (is_in whitespace) s in
  (tok, q, eq, s).

Definition peek (toks : list Z) (ps : nat) : bool * nat :=
  let s := skip (is_in whitespace) ps in
  (negb (at_ s =? 0) && is_in toks (at_ s), s).

Definition redir (c : cmd pos) (tok : Z) (f : pos) : cmd pos :=
  if tok =? 60 then REDIR c f O_RDONLY 0
  else if tok =? 62 then REDIR c f (Z.lor (Z.lor O_WRONLY O_CREATE) O_TRUNC) 1
  else if tok =? 43 then REDIR c f (Z.lor O_WRONLY O_CREATE) 1
  else c.

(** The loops recurse on [n], the functions that call one another on [fuel]. *)
Fixpoint parseredirs (n : nat) (c : cmd pos) (ps : nat) : res (cmd pos * nat) :=
  match n with
  | O => NoFuel
  | S n =>
      let '(b, ps) := peek (str "<>") ps in
      if b then
        let '(tok, _, _, ps) := gettoken ps in
        let '(tok2, q, eq, ps) := gettoken ps in
        if negb (tok2 =? 97) then Err "missing file for redirection" else
        parseredirs n (redir c tok (q, eq)) ps
      else Ok (c, ps)
  end.

(** The loop of parseexec over the arguments. *)
Fixpoint parseargs (n : nat) (ret : cmd pos) (argc : nat) (ps : nat) : res (cmd pos * nat) :=
  match n with
  | O => NoFuel
  | S n =>
      let '(b, ps) := peek (str "|)&;") ps in
      if b then Ok (ret, ps) else
      let '(tok, q, eq, ps) := gettoken ps in
      if tok =? 0 then Ok (ret, ps) else
      if negb (tok =? 97) then Err "syntax" else
      let ret := add_arg ret (q, eq) in
      let argc := S argc in
      if (MAXARGS <=? argc)%nat then Err "too many args" else
      let? (ret, ps) := parseredirs (S es) ret ps in
      parseargs n ret argc ps
  end.

(** The loop of parseline over the &. *)
Fixpoint parsebacks (n : nat) (c : cmd pos) (ps : nat) : res (cmd pos * nat) :=
  match n with
  | O => NoFuel
  | S n =>
      let '(b, ps) := peek (str "&") ps in
      if b then
        let '(_, _, _, ps) := gettoken ps in
        parsebacks n (BACK c) ps
      else Ok (c, ps)
  end.

Fixpoint parseline (fuel : nat) (ps : nat) : res (cmd pos * nat) :=
  match fuel with
  | O => NoFuel
  | S fuel =>
      let? (c, ps) := parsepipe fuel ps in
      let? (c, ps) := parsebacks (S es) c ps in
      let '(b, ps) := peek (str ";") ps in
      if b then
        let '(_, _, _, ps) := gettoken ps in
        let? (c2, ps) := parseline fuel ps in
        Ok (LIST c c2, ps)
      else Ok (c, ps)
  end
with parsepipe (fuel : nat) (ps : nat) : res (cmd pos * nat) :=
  match fuel with
  | O => NoFuel
  | S fuel =>
      let? (c, ps) := parseexec fuel ps in
      let '(b, ps) := peek (str "|") ps in
      if b then
        let '(_, _, _, ps) := gettoken ps in
        let? (c2, ps) := parsepipe fuel ps in
        Ok (PIPE c c2, ps)
      else Ok (c, ps)
  end
with parseblock (fuel : nat) (ps : nat) : res (cmd pos * nat) :=
  match fuel with
  | O => NoFuel
  | S fuel =>
      let '(b, ps) := peek (str "(") ps in
      if negb b then Err "parseblock" else
      let '(_, _, _, ps) := gettoken ps in
      let? (c, ps) := parseline fuel ps in
      let '(b, ps) := peek (str ")") ps in
      if negb b then Err "syntax - missing )" else
      let '(_, _, _, ps) := gettoken ps in
      parseredirs (S es) c ps
  end
with parseexec (fuel : nat) (ps : nat) : res (cmd pos * nat) :=
  match fuel with
  | O => NoFuel
  | S fuel =>
      let '(b, ps) := peek (str "(") ps in
      if b then parseblock fuel ps else
      let? (ret, ps) := parseredirs (S es) (EXEC []) ps in
      parseargs (S es) ret 0 ps
  end.
End parser.

(** NUL-terminate all the counted strings. *)
Fixpoint nulterminate (c : cmd pos) (buf : list Z) : list Z :=
  match c with
  | EXEC argv => fold_left (fun buf '(_, e) => <[e := 0]> buf) argv buf
  | REDIR c (_, efile) _ _ => <[efile := 0]> (nulterminate c buf)
  | PIPE l r => nulterminate r (nulterminate l buf)
  | LIST l r => nulterminate r (nulterminate l buf)
  | BACK c => nulterminate c buf
  end.

Section sh.
Context {W : Type} `{OS : !Os W}.

Definition sh_panic {A} (s : string) : K W A :=
  fprintf 2 (str "%s" ++ [10]) [UStr (Some (str s))];;
  exit 1.

(** A character takes the parser through at most four functions. *)
Definition parsecmd (buf : list Z) : K W (cmd pos * list Z) :=
  let es := Z.to_nat (strlen buf) in
  match parseline buf es (4 * es + 4) 0 with
  | NoFuel => fun _ => Diverge
  | Err msg => sh_panic msg
  | Ok (c, s) =>
      let '(_, s) := peek buf es [] s in
      if negb (Nat.eqb s es) then
        fprintf 2 (str "leftovers: %s" ++ [10]) [UStr (Some (drop s buf))];;
        sh_panic "syntax"
      else
        ret (c, nulterminate c buf)
  end.

(** ** Running commands *)
Definition fork1 : K W Z :=
  pid <- fork;;
  if pid =? -1 then sh_panic "fork" else ret pid.

(** Execute cmd.  Never returns. *)
Fixpoint runcmd (buf : list Z) (c : cmd pos) : K W unit :=
  match c with
  | EXEC argv =>
      let argv := map (fun a : pos => cut (drop a.1 buf)) argv in
      match argv with
      | [] => exit 1
      | a :: _ =>
          exec a argv;;
          fprintf 2 (str "exec %s failed" ++ [10]) [UStr (Some a)];;
          exit 0
      end
  | REDIR c file mode fd =>
      let file := cut (drop file.1 buf) in
      close fd;;
      r <- open file mode;;
      if r <? 0 then
        fprintf 2 (str "open %s failed" ++ [10]) [UStr (Some file)];;
        exit 1
      else
      runcmd buf c;;
      exit 0
  | LIST l r =>
      pid <- fork1;;
      (if pid =? 0 then runcmd buf l else ret tt);;
      wait;;
      runcmd buf r;;
      exit 0
  | PIPE l r =>
      x <- pipe;;
      let '(rc, (p0, p1)) := x in
      if rc <? 0 then sh_panic "pipe" else
      pid <- fork1;;
      (if pid =? 0 then
         close 1;;
         dup p1;;
         close p0;;
         close p1;;
         runcmd buf l
       else ret tt);;
      pid <- fork1;;
      (if pid =? 0 then
         close 0;;
         dup p0;;
         close p0;;
         close p1;;
         runcmd buf r
       else ret tt);;
      close p0;;
      close p1;;
      wait;;
      wait;;
      exit 0
  | BACK c =>
      pid <- fork1;;
      (if pid =? 0 then runcmd buf c else ret tt);;
      exit 0
  end.

(** The child of main(): runcmd(parsecmd(buf)). *)
Definition sh_child (buf : list Z) : K W unit :=
  x <- parsecmd buf;;
  runcmd x.2 x.1.

Definition getcmd (nbuf : nat) : K W (Z * list Z) :=
  fprintf 2 (str "$ ") [];;
  l <- gets (Z.of_nat nbuf);;
  let buf := l ++ drop (length l) (replicate nbuf 0) in
  if hd 0 buf =? 0 then ret (-1, buf) else ret (0, buf).

Definition sh_main : K W unit :=
  (* Ensure that three file descriptors are open. *)
  while_ budget (fun _ : unit =>
    fd <- open (str "console") O_RDWR;;
    if negb (0 <=? fd) then ret (inr tt) else
    if 3 <=? fd then close fd;; ret (inr tt) else ret (inl tt)) tt;;
  (* Read and run input commands. *)
  while_ budget (fun _ : unit =>
    x <- getcmd 100;;
    let '(r, buf) := x in
    if negb (0 <=? r) then ret (inr tt) else
    if (nth 0 buf 0 =? 99) && (nth 1 buf 0 =? 100) && (nth 2 buf 0 =? 32) then
      (* Chdir must be called by the parent, not the child. *)
      let buf := <[Z.to_nat (strlen buf - 1) := 0]> buf in
      r <- chdir (cut (drop 3 buf));;
      (if r <? 0 then fprintf 2 (str "cannot cd %s" ++ [10]) [UStr (Some (drop 3 buf))] else ret tt);;
      ret (inl tt)
    else
    pid <- fork1;;
    (if pid =? 0 then sh_child buf else ret tt);;
    wait;;
    ret (inl tt)) tt;;
  exit 0.
End sh.

(** ** The command language *)

(** Tokens: the symbols stand for themselves, [+] for [>>]. *)
Inductive token := Word (w : list Z) | Sym (k : Z).

(** A line as tokens; a word takes as many characters as it can. *)
Fixpoint lex_n (n : nat) (s : list Z) : list token :=
  match n, s with
  | O, _ | _, [] => []
  | S n, c :: s' =>
      if is_in whitespace c then lex_n n s'
      else if c =? 62 then if hd 0 s' =? 62 then Sym 43 :: lex_n n (tl s') else Sym 62 :: lex_n n s'
      else if is_in symbols c then Sym c :: lex_n n s'
      else Word (takewhile wordchar s) :: lex_n n (dropwhile wordchar s)
  end.
Definition lex (s : list Z) : list token := lex_n (length s) s.

(** The grammar.  [redirs c ts c']: [ts] are redirections that make [c'] of [c]; [args c n ts c']:
    [ts] are arguments and redirections after [n] arguments. *)
Definition redir_of {S} (k : Z) (c : cmd S) (f : S) (c' : cmd S) : Prop :=
  k = 60 /\ c' = REDIR c f 0 0 \/ k = 62 /\ c' = REDIR c f 0x601 1 \/ k = 43 /\ c' = REDIR c f 0x201 1.

Inductive redirs : cmd (list Z) -> list token -> cmd (list Z) -> Prop :=
  | r_nil c : redirs c [] c
  | r_cons k f c c1 ts c2 : redir_of k c f c1 -> redirs c1 ts c2 -> redirs c (Sym k :: Word f :: ts) c2.

Inductive args : cmd (list Z) -> nat -> list token -> cmd (list Z) -> Prop :=
  | a_nil c n : args c n [] c
  | a_word c n w ts1 c1 ts2 c2 : (S n < MAXARGS)%nat -> redirs (add_arg c w) ts1 c1 -> args c1 (S n) ts2 c2 ->
      args c n (Word w :: ts1 ++ ts2) c2.

Fixpoint backs {S} (n : nat) (c : cmd S) : cmd S := match n with O => c | S n => backs n (BACK c) end.

(** line: pipe & ... & ; line.  pipe: exec | pipe.  exec: ( line ) redirections, or
    redirections and arguments. *)
Inductive g_line : list token -> cmd (list Z) -> Prop :=
  | g_last ts c n : g_pipe ts c -> g_line (ts ++ replicate n (Sym 38)) (backs n c)
  | g_list ts c n ts2 c2 : g_pipe ts c -> g_line ts2 c2 ->
      g_line (ts ++ replicate n (Sym 38) ++ Sym 59 :: ts2) (LIST (backs n c) c2)
with g_pipe : list token -> cmd (list Z) -> Prop :=
  | g_one ts c : g_exec ts c -> g_pipe ts c
  | g_to ts c ts2 c2 : g_exec ts c -> g_pipe ts2 c2 -> g_pipe (ts ++ Sym 124 :: ts2) (PIPE c c2)
with g_exec : list token -> cmd (list Z) -> Prop :=
  | g_block ts c rs c2 : g_line ts c -> redirs c rs c2 -> g_exec (Sym 40 :: ts ++ Sym 41 :: rs) c2
  | g_args rs c as_ c2 : redirs (EXEC []) rs c -> args c 0 as_ c2 -> g_exec (rs ++ as_) c2.

(** ** The lexer *)
Lemma wordchar_ws c : wordchar c = true -> is_in whitespace c = false.
Proof. unfold wordchar. by destruct (is_in whitespace c). Qed.
Lemma wordchar_sym c : wordchar c = true -> is_in symbols c = false.
Proof. unfold wordchar. intros H. apply andb_true_iff in H as [_ H]. by apply negb_true_iff in H. Qed.

Lemma lex_n_fuel n m s : (length s <= n)%nat -> (length s <= m)%nat -> lex_n n s = lex_n m s.
Proof.
  revert m s. induction n as [|n IH]; intros m s Hn Hm; [destruct s; [destruct m; reflexivity|simpl in Hn; lia]|].
  destruct s as [|c s]; [destruct m; reflexivity|]. destruct m as [|m]; [simpl in Hm; lia|]. cbn [length] in *. cbn [lex_n].
  destruct (is_in whitespace c) eqn:Ews; [apply IH; lia|]. destruct (c =? 62).
  - assert (length (tl s) <= length s)%nat by (destruct s; simpl; lia). destruct (hd 0 s =? 62); f_equal; apply IH; lia.
  - destruct (is_in symbols c) eqn:Es; f_equal; [apply IH; lia|]. pose proof (dropwhile_length wordchar s).
    assert (wordchar c = true) as Hw by (unfold wordchar; by rewrite Ews, Es). simpl. rewrite Hw. apply IH; lia.
Qed.

Lemma lex_fold n s : (length s <= n)%nat -> lex_n n s = lex s.
Proof. intros H. by apply lex_n_fuel. Qed.

Lemma lex_ws s : lex (dropwhile (is_in whitespace) s) = lex s.
Proof.
  induction s as [|c s IH]; [done|]. cbn [dropwhile]. destruct (is_in whitespace c) eqn:E; [|done]. rewrite IH. unfold lex at 2. simpl. by rewrite E.
Qed.

(** The tokens of a line that does not start with whitespace. *)
Lemma lex_cons c s : is_in whitespace c = false -> lex (c :: s) =
  if c =? 62 then if hd 0 s =? 62 then Sym 43 :: lex (tl s) else Sym 62 :: lex s
  else if is_in symbols c then Sym c :: lex s
  else Word (takewhile wordchar (c :: s)) :: lex (dropwhile wordchar (c :: s)).
Proof.
  intros E. unfold lex at 1. cbn [length lex_n]. rewrite E. assert (length (tl s) <= length s)%nat by (destruct s; simpl; lia).
  destruct (c =? 62); [destruct (hd 0 s =? 62); [|done]; f_equal; by apply lex_fold|]. destruct (is_in symbols c) eqn:Es; [done|].
  f_equal. apply lex_fold. assert (wordchar c = true) as Hw by (unfold wordchar; by rewrite E, Es). simpl. rewrite Hw. apply dropwhile_length.
Qed.

(** ** Commands and their strings *)
Fixpoint cmd_all {S} (P : S -> Prop) (c : cmd S) : Prop :=
  match c with
  | EXEC argv => Forall P argv
  | REDIR c file _ _ => cmd_all P c /\ P file
  | PIPE l r | LIST l r => cmd_all P l /\ cmd_all P r
  | BACK c => cmd_all P c
  end.

Lemma cmd_all_add {S} (P : S -> Prop) c a : cmd_all P c -> P a -> cmd_all P (add_arg c a).
Proof. induction c; simpl; intros Hc Ha; try done; [by apply Forall_app; split; [|constructor]|destruct Hc; auto]. Qed.

Lemma cmd_map_add {S T} (f : S -> T) c a : cmd_map f (add_arg c a) = add_arg (cmd_map f c) (f a).
Proof. induction c as [argv|c IH ? ? ?| | |]; simpl; [by rewrite map_app|by rewrite IH|done..]. Qed.

Lemma cmd_map_backs {S T} (f : S -> T) n c : cmd_map f (backs n c) = backs n (cmd_map f c).
Proof. revert c. induction n as [|n IH]; intros c; simpl; [done|]. by rewrite IH. Qed.

Lemma cmd_map_ext {S T} (P : S -> Prop) (f g : S -> T) c : cmd_all P c -> (forall a, P a -> f a = g a) -> cmd_map f c = cmd_map g c.
Proof.
  intros Hc Hfg. induction c as [argv|c IH file mode fd|l IHl r IHr|l IHl r IHr|c IH]; simpl in *.
  - f_equal. apply map_ext_in. intros a Ha. apply Hfg. by apply (proj1 (Forall_forall _ _) Hc), list_elem_of_In.
  - destruct Hc as [Hc Hf]. by rewrite IH, Hfg.
  - destruct Hc. by rewrite IHl, IHr.
  - destruct Hc. by rewrite IHl, IHr.
  - by rewrite IH.
Qed.

Lemma cmd_all_and {S} (P Q : S -> Prop) c : cmd_all P c -> cmd_all Q c -> cmd_all (fun a => P a /\ Q a) c.
Proof. induction c; simpl; [intros HP HQ; apply Forall_and; by split|tauto..]. Qed.

(** The ends of the strings, which nulterminate() overwrites. *)
Fixpoint ends (c : cmd pos) : list nat :=
  match c with
  | EXEC argv => map snd argv
  | REDIR c file _ _ => ends c ++ [file.2]
  | PIPE l r | LIST l r => ends l ++ ends r
  | BACK c => ends c
  end.

Lemma cmd_all_ends c E : ends c ⊆ E -> cmd_all (fun a : pos => a.2 ∈ E) c.
Proof.
  induction c as [argv| | | |]; simpl; intros H.
  - apply Forall_forall. intros a Ha. apply H, (list_elem_of_fmap_2 snd), Ha.
  - split; [apply IHc|apply H]; set_solver.
  - split; [apply IHc1|apply IHc2]; set_solver.
  - split; [apply IHc1|apply IHc2]; set_solver.
  - by apply IHc.
Qed.

Lemma ends_all (P : pos -> Prop) c e : cmd_all P c -> e ∈ ends c -> exists a, P a /\ a.2 = e.
Proof.
  induction c as [argv| | | |]; simpl; rewrite ?elem_of_app; try naive_solver.
  - intros Hf He. apply list_elem_of_fmap in He as (a & -> & Ha). exists a. split; [|done]. by apply (proj1 (Forall_forall _ _) Hf).
  - intros [Hc Hf] [He|He]; [auto|]. apply list_elem_of_singleton in He as ->. eauto.
Qed.

(** [b'] is [b] with NULs at [E]. *)
Definition zeroed (E : list nat) (b b' : list Z) : Prop :=
  length b' = length b /\ forall i, b' !! i = if decide (i ∈ E /\ (i < length b)%nat) then Some 0 else b !! i.

Lemma zeroed_nil b : zeroed [] b b.
Proof. split; [done|]. intros i. rewrite decide_False; [done|]. rewrite elem_of_nil. tauto. Qed.
Lemma zeroed_one e b : zeroed [e] b (<[e := 0]> b).
Proof.
  split; [apply length_insert|]. intros i. destruct (decide (i = e)) as [->|Hne].
  - destruct (decide (e < length b)%nat) as [Hlt|Hge].
    + rewrite list_lookup_insert_eq, decide_True by (split; [constructor|done] || done). done.
    + rewrite decide_False, list_insert_ge by (lia || tauto). done.
  - rewrite list_lookup_insert_ne, decide_False by (rewrite ?list_elem_of_singleton; tauto || congruence). done.
Qed.
Lemma zeroed_app E1 E2 b b1 b2 : zeroed E1 b b1 -> zeroed E2 b1 b2 -> zeroed (E1 ++ E2) b b2.
Proof.
  intros [L1 H1] [L2 H2]. split; [congruence|]. intros i. rewrite H2, L1, H1. pose proof (elem_of_app E1 E2 i) as Happ.
  repeat case_decide; tauto.
Qed.

Lemma nulterminate_zeroed c b : zeroed (ends c) b (nulterminate c b).
Proof.
  revert b. induction c as [argv|c IH [q e] mode fd|l IHl r IHr|l IHl r IHr|c IH]; intros b; simpl.
  - revert b. induction argv as [|[q e] argv IH]; intros b; simpl; [apply zeroed_nil|].
    apply (zeroed_app [e] (map snd argv) b (<[e := 0]> b)); [apply zeroed_one|apply IH].
  - eapply zeroed_app; [apply IH|apply zeroed_one].
  - eapply zeroed_app; [apply IHl|apply IHr].
  - eapply zeroed_app; [apply IHl|apply IHr].
  - apply IH.
Qed.

(** ** The parser on a line *)
Section line.
Context (line pad : list Z) (Hnz : Forall (fun c => c <> 0) line).
Notation lbuf := (line ++ 0 :: pad).
Notation es := (length line).

Lemma at_hd ps : (ps <= es)%nat -> at_ lbuf ps = hd 0 (drop ps line).
Proof.
  intros H. unfold at_. destruct (decide (ps = es)) as [->|Hne].
  - rewrite app_nth2, Nat.sub_diag, drop_all by lia. done.
  - rewrite app_nth1 by lia. destruct (drop ps line) as [|c r] eqn:E; [apply (f_equal length) in E; rewrite length_drop in E; simpl in E; lia|].
    rewrite <- (take_drop ps line), app_nth2, length_take, E by (rewrite length_take; lia). by replace (ps - _)%nat with O by lia.
Qed.

Lemma skip_ok f ps : (ps <= es)%nat -> skip lbuf es f ps = (ps + length (takewhile f (drop ps line)))%nat.
Proof.
  unfold skip. remember (es - ps)%nat as n eqn:En. revert ps En. induction n as [|n IH]; intros ps En Hps; cbn [skip_while].
  - rewrite drop_ge by lia. simpl. lia.
  - rewrite at_hd by done. destruct (drop ps line) as [|c r] eqn:E; [apply (f_equal length) in E; rewrite length_drop in E; simpl in E; lia|].
    simpl. destruct (f c); [|simpl; lia]. rewrite IH by lia. replace (drop (S ps) line) with r; [simpl; lia|].
    rewrite <- (Nat.add_1_r ps), <- drop_drop, E. done.
Qed.

Lemma skip_drop f ps : (ps <= es)%nat ->
  drop (skip lbuf es f ps) line = dropwhile f (drop ps line) /\ (ps <= skip lbuf es f ps <= es)%nat.
Proof.
  intros H. rewrite skip_ok by done. pose proof (take_drop_while f (drop ps line)) as E. split.
  - by rewrite <- drop_drop, drop_takewhile.
  - apply (f_equal length) in E. rewrite length_app, length_drop in E. lia.
Qed.

(** The string between two positions. *)
Definition sub (a : pos) : list Z := take (a.2 - a.1) (drop a.1 line).

(** A word of the line. *)
Definition word_at (a : pos) : Prop := (a.1 < a.2 <= es)%nat /\ Forall (fun c => wordchar c = true) (sub a) /\ (forall c r, drop a.2 line = c :: r -> wordchar c = false).

Definition tok_code (t : token) : Z := match t with Word _ => 97 | Sym k => k end.
Definition tok_char (t : token) : Z := match t with Word w => hd 0 w | Sym k => if k =? 43 then 62 else k end.


(** The first token: its first character is the first that is not whitespace. *)
Lemma lex_head s c r : dropwhile (is_in whitespace) s = c :: r -> exists t ts, lex s = t :: ts /\ tok_char t = c.
Proof.
  intros E. pose proof (dropwhile_head _ _ _ _ E) as Hc. rewrite <- lex_ws, E, lex_cons by done. destruct (Z.eqb_spec c 62) as [->|Hne].
  - destruct (hd 0 r =? 62); eauto.
  - destruct (is_in symbols c) eqn:Es.
    + eexists _, _. split; [done|]. simpl. destruct (Z.eqb_spec c 43) as [->|]; [done|done].
    + eexists _, _. split; [done|]. assert (wordchar c = true) as Hw by (unfold wordchar; by rewrite Hc, Es). simpl. by rewrite Hw.
Qed.

Lemma drop_nil ps : (ps <= es)%nat -> drop ps line = [] -> ps = es.
Proof. intros H E. apply (f_equal length) in E. rewrite length_drop in E. simpl in E. lia. Qed.

Lemma drop_nz ps c r : drop ps line = c :: r -> c <> 0.
Proof. intros E. apply (proj1 (Forall_forall _ _) Hnz). rewrite <- (take_drop ps line), E. apply elem_of_app. right. constructor. Qed.

Lemma peek_ok toks ps : (ps <= es)%nat -> exists s, peek lbuf es toks ps =
    (match lex (drop ps line) with [] => false | t :: _ => is_in toks (tok_char t) end, s) /\
  (ps <= s <= es)%nat /\ lex (drop s line) = lex (drop ps line) /\ (lex (drop ps line) = [] -> s = es).
Proof.
  intros H. unfold peek. destruct (skip_drop (is_in whitespace) ps H) as [E Hs]. exists (skip lbuf es (is_in whitespace) ps).
  set (s := skip _ _ _ _) in *. rewrite at_hd, E, lex_ws by lia.
  destruct (dropwhile (is_in whitespace) (drop ps line)) as [|c r] eqn:Ed.
  - rewrite <- lex_ws, Ed. split_and!; try lia; try done. intros _. apply drop_nil; [lia|by rewrite E].
  - destruct (lex_head _ _ _ Ed) as (t & ts & -> & <-). split_and!; try lia; try done. simpl.
    rewrite (proj2 (Z.eqb_neq _ 0)) by (eapply drop_nz; exact E). done.
Qed.

Lemma sub_skip f ps : (ps <= es)%nat -> sub (ps, skip lbuf es f ps) = takewhile f (drop ps line).
Proof.
  intros H. rewrite skip_ok by done. unfold sub. simpl. by rewrite Nat.add_comm, Nat.add_sub, take_takewhile.
Qed.

(** The symbols of one character that are not the start of another one. *)
Lemma plain_symbol c : is_in (str "|();&<") c = negb (c =? 62) && is_in symbols c.
Proof.
  change (str "|();&<") with [124; 40; 41; 59; 38; 60]. change symbols with [60; 124; 62; 38; 59; 40; 41]. rewrite !is_in_cons by done.
  destruct (Z.eqb_spec c 62) as [->|]; [done|]. rewrite (proj2 (Z.eqb_neq 62 c)) by congruence. cbn [negb andb orb].
  by destruct (124 =? c), (40 =? c), (41 =? c), (59 =? c), (38 =? c), (60 =? c).
Qed.

(** gettoken() takes the first token. *)
Lemma gettoken_ok ps : (ps <= es)%nat -> exists q eq s, (ps <= s <= es)%nat /\
  gettoken lbuf es ps = (match lex (drop ps line) with [] => 0 | t :: _ => tok_code t end, q, eq, s) /\
  lex (drop s line) = tl (lex (drop ps line)) /\ (lex (drop ps line) = [] -> s = es) /\ (lex (drop ps line) <> [] -> (ps < s)%nat) /\
  (forall w ts, lex (drop ps line) = Word w :: ts -> word_at (q, eq) /\ sub (q, eq) = w).
Proof.
  intros H. unfold gettoken. destruct (skip_drop (is_in whitespace) ps H) as [E Hs]. set (s := skip _ _ _ _) in *. rewrite at_hd, E by lia.
  destruct (dropwhile (is_in whitespace) (drop ps line)) as [|c r] eqn:Ed.
  - simpl. rewrite <- lex_ws, Ed. assert (s = es) as Es by (apply drop_nil; [lia|by rewrite E]).
    destruct (skip_drop (is_in whitespace) s) as [E2 Hs2]; [lia|]. eexists _, _, _. split; [|split; [reflexivity|]]; [lia|].
    rewrite E2, E. split_and!; try done. lia.
  - pose proof (dropwhile_head _ _ _ _ Ed) as Hc. pose proof (drop_nz _ _ _ E) as Hc0. cbn [hd]. rewrite (proj2 (Z.eqb_neq c 0)) by done.
    assert (drop (S s) line = r) as Er by (rewrite <- Nat.add_1_r, <- drop_drop, E; done).
    assert (S s <= es)%nat as HS by (apply (f_equal length) in E; rewrite length_drop in E; simpl in E; lia).
    rewrite (at_hd (S s)), Er by done. rewrite <- (lex_ws (drop ps line)), Ed, lex_cons by done.
    assert (forall t s', (s < s' <= es)%nat -> (forall w ts, t :: lex (drop s' line) = Word w :: ts -> word_at (s, s') /\ sub (s, s') = w) ->
      exists q eq s1, (ps <= s1 <= es)%nat /\ (tok_code t, s, s', skip lbuf es (is_in whitespace) s') = (tok_code t, q, eq, s1) /\
        lex (drop s1 line) = lex (drop s' line) /\ (t :: lex (drop s' line) = [] -> s1 = es) /\ (t :: lex (drop s' line) <> [] -> (ps < s1)%nat) /\
        (forall w ts, t :: lex (drop s' line) = Word w :: ts -> word_at (q, eq) /\ sub (q, eq) = w)) as Hfin.
    { intros t s' Hs' Hw. destruct (skip_drop (is_in whitespace) s') as [E2 Hs2]; [lia|]. eexists _, _, _. split; [|split; [reflexivity|]]; [lia|].
      rewrite E2, lex_ws. split_and!; try done. lia. }
    rewrite plain_symbol. destruct (Z.eqb_spec c 62) as [->|Hne]; cbn [negb andb].
    + destruct (Z.eqb_spec (hd 0 r) 62) as [E62|_].
      * destruct r as [|d r]; [done|]. simpl in E62. subst d. cbn [tl].
        assert (drop (S (S s)) line = r) as Er2 by (rewrite <- (Nat.add_1_r (S s)), <- drop_drop, Er; done). rewrite <- Er2.
        apply (Hfin (Sym 43)); [|done]. apply (f_equal length) in Er. rewrite length_drop in Er. simpl in Er. lia.
      * rewrite <- Er. apply (Hfin (Sym 62)); [lia|done].
    + destruct (is_in symbols c) eqn:Es; [rewrite <- Er; apply (Hfin (Sym c)); [lia|done]|].
      assert (wordchar c = true) as Hw by (unfold wordchar; by rewrite Hc, Es).
      destruct (skip_drop wordchar s) as [E2 Hs2]; [lia|]. rewrite <- E, <- E2. pose proof (sub_skip wordchar s ltac:(lia)) as Hsub.
      assert (s < skip lbuf es wordchar s)%nat as Hlt by (rewrite skip_ok, E by lia; simpl; rewrite Hw; simpl; lia).
      apply (Hfin (Word _)); [lia|]. intros w ts [= <- _]. split; [|done]. unfold word_at. rewrite Hsub. cbn [fst snd].
      split_and!; [lia|lia|apply takewhile_all|]. intros d r' Ed'. rewrite E2 in Ed'. by eapply dropwhile_head.
Qed.

(** [ps] is before the tokens [T]. *)
Definition at_toks (ps : nat) (T : list token) : Prop := (ps <= es)%nat /\ lex (drop ps line) = T.

(** The next token is one of the symbols [ks]. *)
Definition sym_in (ks : list Z) (T : list token) : bool :=
  match T with Sym k :: _ => is_in ks (if k =? 43 then 62 else k) | _ => false end.

Definition tok_ok (t : token) : Prop :=
  match t with Word w => wordchar (hd 0 w) = true | Sym k => k = 43 \/ is_in symbols k = true end.

Lemma lex_ok s : Forall tok_ok (lex s).
Proof.
  unfold lex. generalize (length s) as n. intros n. revert s. induction n as [|n IH]; intros [|c s]; cbn [lex_n]; try by constructor.
  destruct (is_in whitespace c) eqn:Ew; [done|]. destruct (Z.eqb_spec c 62) as [->|]; [destruct (_ =? _); constructor; try done; [by left|by right]|].
  destruct (is_in symbols c) eqn:Es; constructor; try done; [by right|].
  assert (wordchar c = true) as Hw by (unfold wordchar; by rewrite Ew, Es). simpl. by rewrite Hw.
Qed.

Lemma lex_len n s : (length (lex_n n s) <= length s)%nat.
Proof.
  revert s. induction n as [|n IH]; intros [|c s]; cbn [lex_n]; simpl; try lia. pose proof (IH s).
  destruct (is_in whitespace c) eqn:Ew; [lia|]. destruct (c =? 62).
  - destruct (_ =? _); simpl; [|lia]. pose proof (IH (tl s)). destruct s; simpl in *; lia.
  - destruct (is_in symbols c) eqn:Es; simpl; [lia|]. assert (wordchar c = true) as Hw by (unfold wordchar; by rewrite Ew, Es).
    rewrite Hw. pose proof (IH (dropwhile wordchar s)). pose proof (dropwhile_length wordchar s). lia.
Qed.

Lemma toks_len ps T : at_toks ps T -> (length T <= es)%nat.
Proof. intros [_ <-]. pose proof (lex_len (length (drop ps line)) (drop ps line)). rewrite length_drop in *. unfold lex. rewrite length_drop. lia. Qed.

Lemma peek_toks ks ps T : forallb (is_in symbols) ks = true -> at_toks ps T ->
  exists s, peek lbuf es ks ps = (sym_in ks T, s) /\ at_toks s T /\ (T = [] -> s = es).
Proof.
  intros Hks [Hps HT]. destruct (peek_ok ks ps Hps) as (s & E & Hs & El & Hend). rewrite HT in *. exists s. split_and!; [|split; [lia|done]|done].
  rewrite E. f_equal. destruct T as [|[w|k] T]; [done| |done]. simpl. pose proof (lex_ok (drop ps line)) as Hok. rewrite HT in Hok.
  apply Forall_cons in Hok as [Hw _]. simpl in Hw. clear -Hks Hw. induction ks as [|b ks IH]; [done|]. simpl in Hks.
  apply andb_true_iff in Hks as [Hb Hks]. rewrite is_in_cons; [|by intros ->]. rewrite IH by done.
  destruct (Z.eqb_spec b (hd 0 w)) as [->|]; [|done]. by rewrite (wordchar_sym _ Hw) in Hb.
Qed.

Lemma gettoken_toks ps t T : at_toks ps (t :: T) -> exists q eq s, gettoken lbuf es ps = (tok_code t, q, eq, s) /\ at_toks s T /\ tok_ok t /\
  (forall w, t = Word w -> word_at (q, eq) /\ sub (q, eq) = w).
Proof.
  intros [Hps HT]. destruct (gettoken_ok ps Hps) as (q & eq & s & Hs & E & El & _ & _ & Hw). rewrite HT in *. exists q, eq, s.
  split_and!; [done|split; [lia|done]| |].
  - pose proof (lex_ok (drop ps line)) as Hok. rewrite HT in Hok. by apply Forall_cons in Hok as [Hw' _].
  - intros w ->. by eapply Hw.
Qed.

Lemma gettoken_end ps : at_toks ps [] -> exists q eq, gettoken lbuf es ps = (0, q, eq, es).
Proof.
  intros [Hps HT]. destruct (gettoken_ok ps Hps) as (q & eq & s & Hs & E & El & Hend & _). rewrite HT in *. exists q, eq.
  by rewrite E, (Hend eq_refl).
Qed.

(** ** The parser accepts only the language *)
Notation tr := (cmd_map sub).

(** The parser ends; if it returns a command, this is made of words of the line. *)
Definition parsed (r : res (cmd pos * nat)) (Q : cmd pos -> list token -> Prop) : Prop :=
  match r with
  | Ok (c, ps) => cmd_all word_at c /\ exists T, at_toks ps T /\ Q c T
  | Err _ => True
  | NoFuel => False
  end.

Lemma parsed_bind r f Q R : parsed r Q -> (forall c ps T, at_toks ps T -> cmd_all word_at c -> Q c T -> parsed (f (c, ps)) R) -> parsed (rbind r f) R.
Proof. destruct r as [[c ps]| |]; simpl; [|done|done]. intros (Hc & T & HT & HQ) Hf. eauto. Qed.

Lemma redir_char k : is_in (str "<>") (if k =? 43 then 62 else k) = true -> k = 60 \/ k = 62 \/ k = 43.
Proof.
  change (str "<>") with [60; 62]. rewrite !is_in_cons by done. destruct (Z.eqb_spec k 43); [tauto|].
  destruct (Z.eqb_spec 60 k); [auto|]. destruct (Z.eqb_spec 62 k); [auto|done].
Qed.

Lemma redir_ok k c a : k = 60 \/ k = 62 \/ k = 43 -> word_at a -> cmd_all word_at c ->
  cmd_all word_at (redir c k a) /\ redir_of k (tr c) (sub a) (tr (redir c k a)).
Proof. intros [->|[-> | ->]] Ha Hc; split; try done; unfold redir_of; simpl; tauto. Qed.

Lemma redirs_sound n c ps T : at_toks ps T -> (length T < n)%nat -> cmd_all word_at c ->
  parsed (parseredirs lbuf es n c ps) (fun c' T' => exists ts, T = ts ++ T' /\ redirs (tr c) ts (tr c')).
Proof.
  revert c ps T. induction n as [|n IH]; intros c ps T HT Hn Hc; [lia|]. cbn [parseredirs].
  destruct (peek_toks (str "<>") ps T eq_refl HT) as (s & -> & Hs & _).
  destruct (sym_in (str "<>") T) eqn:Eb; [|split; [done|exists T; split; [done|]; exists []; by split; [|constructor]]].
  destruct T as [|[w|k] T]; try done. apply redir_char in Eb.
  destruct (gettoken_toks _ _ _ Hs) as (q & eq & s1 & -> & Hs1 & _ & _). cbn [tok_code].
  destruct T as [|t T]; [destruct (gettoken_end _ Hs1) as (q1 & eq1 & ->); done|].
  destruct (gettoken_toks _ _ _ Hs1) as (q1 & eq1 & s2 & -> & Hs2 & Ht & Hw).
  destruct (Z.eqb_spec (tok_code t) 97) as [E97|]; [|done]. cbn [negb].
  destruct t as [w|k']; [|simpl in E97; subst k'; by destruct Ht]. destruct (Hw w eq_refl) as [Hw1 <-].
  destruct (redir_ok k c (q1, eq1) Eb Hw1 Hc) as [Hc' Hr]. simpl in Hn.
  pose proof (IH (redir c k (q1, eq1)) s2 T Hs2 ltac:(lia) Hc') as HIH. unfold parsed in *.
  destruct (parseredirs lbuf es n _ s2) as [[c2 s3]| |]; [|done|done]. destruct HIH as (Hc2 & T' & HT' & ts & -> & Hrs).
  split; [done|]. exists T'. split; [done|]. exists (Sym k :: Word (sub (q1, eq1)) :: ts). split; [done|]. by econstructor.
Qed.

Lemma parsed_mono r (Q R : cmd pos -> list token -> Prop) : (forall c T, Q c T -> R c T) -> parsed r Q -> parsed r R.
Proof. intros H. destruct r as [[c ps]| |]; simpl; [|done|done]. intros (Hc & T & HT & HQ). eauto. Qed.

Lemma parsed_ok c ps T (Q : cmd pos -> list token -> Prop) : at_toks ps T -> cmd_all word_at c -> Q c T -> parsed (Ok (c, ps)) Q.
Proof. intros HT Hc HQ. split; eauto. Qed.

Lemma args_sound n c argc ps T : at_toks ps T -> (length T < n)%nat -> cmd_all word_at c ->
  parsed (parseargs lbuf es n c argc ps) (fun c' T' => exists ts, T = ts ++ T' /\ args (tr c) argc ts (tr c')).
Proof.
  revert c argc ps T. induction n as [|n IH]; intros c argc ps T HT Hn Hc; [lia|]. cbn [parseargs].
  destruct (peek_toks (str "|)&;") ps T eq_refl HT) as (s & -> & Hs & _).
  destruct (sym_in (str "|)&;") T); [apply (parsed_ok _ _ T); [done|done|]; exists []; by split; [|constructor]|].
  destruct T as [|t T].
  { destruct (gettoken_end _ Hs) as (q & eq & ->). simpl. split; [done|]. exists []. split; [|by exists []; split; [|constructor]].
    split; [done|]. by rewrite drop_all. }
  destruct (gettoken_toks _ _ _ Hs) as (q & eq & s1 & -> & Hs1 & Ht & Hw).
  destruct (Z.eqb_spec (tok_code t) 0) as [E0|_]; [destruct t as [w|k]; [done|]; simpl in E0; subst k; by destruct Ht|].
  destruct (Z.eqb_spec (tok_code t) 97) as [E97|]; [|done]. cbn [negb].
  destruct t as [w|k']; [|simpl in E97; subst k'; by destruct Ht]. destruct (Hw w eq_refl) as [Hw1 <-].
  destruct (Nat.leb_spec MAXARGS (S argc)) as [|Hlt]; [done|]. simpl in Hn.
  eapply parsed_bind; [apply (redirs_sound _ _ _ T Hs1)|].
  - pose proof (toks_len _ _ Hs1). lia.
  - by apply cmd_all_add.
  - intros c1 ps1 T1 HT1 Hc1 (ts & -> & Hr). rewrite cmd_map_add in Hr.
    eapply parsed_mono; [|apply (IH c1 (S argc) ps1 T1 HT1); [|done]]; [|rewrite length_app in Hn; lia].
    intros c2 T2 (ts2 & -> & Ha). exists (Word (sub (q, eq)) :: ts ++ ts2). split; [by rewrite <- app_comm_cons, app_assoc|]. by econstructor.
Qed.

Lemma sym_one k T : sym_in [k] T = true -> k <> 0 -> k <> 62 -> exists T', T = Sym k :: T'.
Proof.
  intros E H0 H1. destruct T as [|[w|k'] T]; try done. exists T. simpl in E. rewrite is_in_cons in E by done.
  destruct (Z.eqb_spec k' 43); [destruct (Z.eqb_spec k 62); done|]. by destruct (Z.eqb_spec k k') as [->|].
Qed.

Lemma backs_sound n c ps T : at_toks ps T -> (length T < n)%nat -> cmd_all word_at c ->
  parsed (parsebacks lbuf es n c ps) (fun c' T' => exists k, T = replicate k (Sym 38) ++ T' /\ tr c' = backs k (tr c) /\ sym_in [38] T' = false).
Proof.
  revert c ps T. induction n as [|n IH]; intros c ps T HT Hn Hc; [lia|]. cbn [parsebacks].
  destruct (peek_toks (str "&") ps T eq_refl HT) as (s & -> & Hs & _). change (str "&") with [38].
  destruct (sym_in [38] T) eqn:Eb; [|by apply (parsed_ok _ _ T); [..|exists O]].
  destruct (sym_one 38 T Eb ltac:(done) ltac:(done)) as [T' ->]. destruct (gettoken_toks _ _ _ Hs) as (q & eq & s1 & -> & Hs1 & _ & _).
  simpl in Hn. eapply parsed_mono; [|apply (IH (BACK c) s1 T' Hs1); [lia|done]].
  intros c2 T2 (k & -> & E & Hstop). exists (S k). by split_and!.
Qed.

(** With [4 * length T + k] fuel [p] ends, and accepts phrases of [G] only. *)
Definition sound (p : nat -> nat -> res (cmd pos * nat)) (k : nat) (G : list token -> cmd (list Z) -> Prop) (fuel : nat) : Prop :=
  forall ps T, at_toks ps T -> (4 * length T + k <= fuel)%nat -> parsed (p fuel ps) (fun c T' => exists ts, T = ts ++ T' /\ G ts (tr c)).

Notation p_line := (parseline lbuf es).
Notation p_pipe := (parsepipe lbuf es).
Notation p_block := (parseblock lbuf es).
Notation p_exec := (parseexec lbuf es).

Ltac klen := repeat (cbn [length] in *; match goal with
    | H : context [length (_ ++ _)] |- _ => rewrite length_app in H
    | |- context [length (_ ++ _)] => rewrite length_app
    end); cbn [length] in *; lia.

Lemma line_sound fuel : sound p_pipe 3 g_pipe fuel -> sound p_line 4 g_line fuel -> sound p_line 4 g_line (S fuel).
Proof.
  intros HP HL ps T HT Hf. cbn [parseline]. eapply parsed_bind; [apply (HP ps T HT); lia|].
  intros c ps1 T1 HT1 Hc (ts & -> & Hg). eapply parsed_bind; [apply (backs_sound _ _ _ T1 HT1); [pose proof (toks_len _ _ HT1); lia|done]|].
  intros c2 ps2 T2 HT2 Hc2 (k & -> & E2 & _). destruct (peek_toks (str ";") ps2 T2 eq_refl HT2) as (s & -> & Hs & _).
  change (str ";") with [59]. destruct (sym_in [59] T2) eqn:Eb.
  - destruct (sym_one 59 T2 Eb ltac:(done) ltac:(done)) as [T3 ->]. destruct (gettoken_toks _ _ _ Hs) as (q & eq & s1 & -> & Hs1 & _ & _).
    eapply parsed_bind; [apply (HL s1 T3 Hs1); klen|]. intros c4 ps4 T4 HT4 Hc4 (ts4 & -> & Hg4).
    apply (parsed_ok _ _ T4); [done|by split|]. exists (ts ++ replicate k (Sym 38) ++ Sym 59 :: ts4).
    split; [by rewrite <- !app_assoc, <- app_comm_cons|]. simpl. rewrite E2. by constructor.
  - apply (parsed_ok _ _ T2); [done|done|]. exists (ts ++ replicate k (Sym 38)). split; [by rewrite <- app_assoc|]. rewrite E2. by constructor.
Qed.

Lemma pipe_sound fuel : sound p_exec 2 g_exec fuel -> sound p_pipe 3 g_pipe fuel -> sound p_pipe 3 g_pipe (S fuel).
Proof.
  intros HE HP ps T HT Hf. cbn [parsepipe]. eapply parsed_bind; [apply (HE ps T HT); lia|].
  intros c ps2 T2 HT2 Hc2 (ts & -> & Hg). destruct (peek_toks (str "|") ps2 T2 eq_refl HT2) as (s & -> & Hs & _).
  change (str "|") with [124]. destruct (sym_in [124] T2) eqn:Eb.
  - destruct (sym_one 124 T2 Eb ltac:(done) ltac:(done)) as [T3 ->]. destruct (gettoken_toks _ _ _ Hs) as (q & eq & s1 & -> & Hs1 & _ & _).
    eapply parsed_bind; [apply (HP s1 T3 Hs1); klen|]. intros c4 ps4 T4 HT4 Hc4 (ts4 & -> & Hg4).
    apply (parsed_ok _ _ T4); [done|by split|]. exists (ts ++ Sym 124 :: ts4).
    split; [by rewrite <- !app_assoc, <- app_comm_cons|]. by constructor.
  - apply (parsed_ok _ _ T2); [done|done|]. exists ts. split; [done|]. by constructor.
Qed.

Lemma block_sound fuel : sound p_line 4 g_line fuel -> sound p_block 1 g_exec (S fuel).
Proof.
  intros HL ps T HT Hf. cbn [parseblock]. destruct (peek_toks (str "(") ps T eq_refl HT) as (s & -> & Hs & _). change (str "(") with [40].
  destruct (sym_in [40] T) eqn:Eb; [|done]. destruct (sym_one 40 T Eb ltac:(done) ltac:(done)) as [T1 ->]. cbn [negb].
  destruct (gettoken_toks _ _ _ Hs) as (q & eq & s1 & -> & Hs1 & _ & _).
  eapply parsed_bind; [apply (HL s1 T1 Hs1); klen|]. intros c ps2 T2 HT2 Hc (ts & -> & Hg).
  destruct (peek_toks (str ")") ps2 T2 eq_refl HT2) as (s2 & -> & Hs2 & _). change (str ")") with [41].
  destruct (sym_in [41] T2) eqn:Eb2; [|done]. destruct (sym_one 41 T2 Eb2 ltac:(done) ltac:(done)) as [T3 ->]. cbn [negb].
  destruct (gettoken_toks _ _ _ Hs2) as (q2 & eq2 & s3 & -> & Hs3 & _ & _).
  eapply parsed_mono; [|apply (redirs_sound _ _ _ T3 Hs3); [pose proof (toks_len _ _ Hs3); lia|done]].
  intros c4 T4 (rs & -> & Hr). exists (Sym 40 :: ts ++ Sym 41 :: rs). split; [by rewrite <- app_comm_cons, <- !app_assoc, <- app_comm_cons|].
  by econstructor.
Qed.

Lemma exec_sound fuel : sound p_block 1 g_exec fuel -> sound p_exec 2 g_exec (S fuel).
Proof.
  intros HB ps T HT Hf. cbn [parseexec]. destruct (peek_toks (str "(") ps T eq_refl HT) as (s & -> & Hs & _).
  destruct (sym_in (str "(") T) eqn:Eb; [apply HB; [done|lia]|].
  eapply parsed_bind; [apply (redirs_sound _ _ _ T Hs); [pose proof (toks_len _ _ Hs); lia|constructor]|].
  intros c ps1 T1 HT1 Hc (rs & -> & Hr). eapply parsed_mono; [|apply (args_sound _ _ _ _ T1 HT1); [pose proof (toks_len _ _ HT1); lia|done]].
  intros c2 T2 (as_ & -> & Ha). exists (rs ++ as_). split; [by rewrite app_assoc|]. by econstructor.
Qed.

Lemma parse_sound fuel : sound p_line 4 g_line fuel /\ sound p_pipe 3 g_pipe fuel /\ sound p_block 1 g_exec fuel /\ sound p_exec 2 g_exec fuel.
Proof.
  induction fuel as [|fuel (HL & HP & HB & HE)]; [split_and!; intros ps T HT Hf; lia|].
  split_and!; [by apply line_sound|by apply pipe_sound|by apply block_sound|by apply exec_sound].
Qed.

(** ** The parser accepts all of the language *)
(** What can follow a phrase: the end or one of the symbols [ks]. *)
Definition follows (ks : list Z) (T : list token) : Prop := T = [] \/ exists k T', T = Sym k :: T' /\ k ∈ ks.
Notation f_line := [41].
Notation f_pipe := [41; 38; 59].
Notation f_exec := [41; 38; 59; 124].

Lemma follows_mono ks ks' T : follows ks T -> ks ⊆ ks' -> follows ks' T.
Proof. intros [->|(k & T' & -> & Hk)] H; [by left|]. right. eauto. Qed.

Lemma follows_sym ks T toks : follows ks T -> forallb (fun k => negb (is_in toks (if k =? 43 then 62 else k))) ks = true -> sym_in toks T = false.
Proof.
  intros [->|(k & T' & -> & Hk)] H; [done|]. simpl. apply list_elem_of_In in Hk. rewrite forallb_forall in H. specialize (H k Hk). by apply negb_true_iff in H.
Qed.

(** [p] with [n] steps takes [ts] off the line and returns [t]. *)
Definition takes (r : res (cmd pos * nat)) (t : cmd (list Z)) (rest : list token) : Prop :=
  exists c ps, r = Ok (c, ps) /\ tr c = t /\ at_toks ps rest.

Lemma takes_bind r f t rest t' rest' : takes r t rest -> (forall c ps, tr c = t -> at_toks ps rest -> takes (f (c, ps)) t' rest') -> takes (rbind r f) t' rest'.
Proof. intros (c & ps & -> & Ht & HT) Hf. by apply Hf. Qed.

Lemma redirs_complete n c ps ts t rest : redirs (tr c) ts t -> at_toks ps (ts ++ rest) -> sym_in (str "<>") rest = false ->
  (length (ts ++ rest) < n)%nat -> takes (parseredirs lbuf es n c ps) t rest.
Proof.
  intros Hr. revert n ps. remember (tr c) as t0 eqn:Et. revert c Et. induction Hr as [t0|k f t0 t1 ts t2 Hk Hr IH]; intros c Et n ps HT Hrest Hn;
    (destruct n as [|n]; [lia|]); cbn [parseredirs].
  - destruct (peek_toks (str "<>") ps _ eq_refl HT) as (s & -> & Hs & _). simpl app. rewrite Hrest. by exists c, s.
  - destruct (peek_toks (str "<>") ps _ eq_refl HT) as (s & -> & Hs & _).
    assert (sym_in (str "<>") ((Sym k :: Word f :: ts) ++ rest) = true) as -> by (destruct Hk as [[-> _]|[[-> _]|[-> _]]]; done).
    simpl app in Hs. destruct (gettoken_toks _ _ _ Hs) as (q & eq & s1 & -> & Hs1 & _ & _). cbn [tok_code].
    destruct (gettoken_toks _ _ _ Hs1) as (q1 & eq1 & s2 & -> & Hs2 & _ & Hw). cbn [tok_code]. simpl negb.
    apply IH; [|done|done|simpl in Hn; lia]. destruct (Hw f eq_refl) as [_ Ef].
    destruct Hk as [[-> ->]|[[-> ->]|[-> ->]]]; unfold redir; simpl; by rewrite Ef, Et.
Qed.

Lemma args_complete n c argc ps ts t rest : args (tr c) argc ts t -> at_toks ps (ts ++ rest) -> follows f_exec rest ->
  (length (ts ++ rest) < n)%nat -> takes (parseargs lbuf es n c argc ps) t rest.
Proof.
  intros Ha. revert n ps. remember (tr c) as t0 eqn:Et. revert c Et. induction Ha as [t0 argc|t0 argc w ts1 t1 ts2 t2 Hlt Hr Ha IH]; intros c Et n ps HT Hrest Hn;
    (destruct n as [|n]; [lia|]); cbn [parseargs]; destruct (peek_toks (str "|)&;") ps _ eq_refl HT) as (s & -> & Hs & Hend).
  - simpl app in *. destruct Hrest as [->|(k & T' & -> & Hk)].
    + simpl. destruct (gettoken_end _ Hs) as (q & eq & ->). simpl. exists c, es. split_and!; [done|done|split; [done|by rewrite drop_all]].
    + assert (sym_in (str "|)&;") (Sym k :: T') = true) as -> by (rewrite !elem_of_cons in Hk; by destruct Hk as [->|[->|[->|[->|Hk]]]]; [..|inversion Hk]).
      by exists c, s.
  - simpl app in Hs |- *. simpl sym_in. destruct (gettoken_toks _ _ _ Hs) as (q & eq & s1 & -> & Hs1 & _ & Hw). cbn [tok_code]. cbn [Z.eqb negb Pos.eqb].
    destruct (Nat.leb_spec MAXARGS (S argc)) as [|_]; [lia|]. destruct (Hw w eq_refl) as [_ Ew]. rewrite <- app_assoc in Hs1.
    eapply takes_bind; [apply (redirs_complete _ _ _ ts1 t1 (ts2 ++ rest)); [|done| |]|].
    + by rewrite cmd_map_add, Ew, <- Et.
    + inversion Ha; subst; simpl; [by eapply follows_sym|done].
    + pose proof (toks_len _ _ Hs1). lia.
    + intros c1 ps1 E1 HT1. apply IH; [done|done|done|klen].
Qed.

Lemma backs_complete n c ps k rest : at_toks ps (replicate k (Sym 38) ++ rest) -> sym_in [38] rest = false ->
  (length (replicate k (Sym 38) ++ rest) < n)%nat -> takes (parsebacks lbuf es n c ps) (backs k (tr c)) rest.
Proof.
  revert n c ps. induction k as [|k IH]; intros n c ps HT Hrest Hn; (destruct n as [|n]; [lia|]); cbn [parsebacks];
    destruct (peek_toks (str "&") ps _ eq_refl HT) as (s & -> & Hs & _).
  - simpl app. change (str "&") with [38]. rewrite Hrest. by exists c, s.
  - simpl app in Hs |- *. change (sym_in (str "&") _) with true. destruct (gettoken_toks _ _ _ Hs) as (q & eq & s1 & -> & Hs1 & _ & _).
    apply (IH n (BACK c)); [done|done|simpl in Hn; lia].
Qed.

Definition complete (p : nat -> nat -> res (cmd pos * nat)) (k : nat) (G : list token -> cmd (list Z) -> Prop) (ks : list Z) (fuel : nat) : Prop :=
  forall ts t ps rest, G ts t -> at_toks ps (ts ++ rest) -> follows ks rest -> (4 * length (ts ++ rest) + k <= fuel)%nat -> takes (p fuel ps) t rest.

Lemma line_complete fuel : complete p_pipe 3 g_pipe f_pipe fuel -> complete p_line 4 g_line f_line fuel -> complete p_line 4 g_line f_line (S fuel).
Proof.
  intros HP HL ts t ps rest Hg HT Hrest Hf. cbn [parseline]. destruct Hg as [ts c n Hg|ts c n ts2 c2 Hg Hg2].
  - rewrite <- app_assoc in HT, Hf. eapply takes_bind; [apply (HP ts c ps (replicate n (Sym 38) ++ rest) Hg HT)|].
    + destruct n; [|right; eexists _, _; split; [done|set_solver]]. eapply follows_mono; [exact Hrest|set_solver].
    + lia.
    + intros c1 ps1 <- HT1. eapply takes_bind; [apply (backs_complete _ _ _ n rest HT1); [by eapply follows_sym|pose proof (toks_len _ _ HT1); lia]|].
      intros c2 ps2 Ec2 HT2. destruct (peek_toks (str ";") ps2 _ eq_refl HT2) as (s & -> & Hs & _).
      rewrite (follows_sym _ _ (str ";") Hrest) by done. by exists c2, s.
  - assert ((ts ++ replicate n (Sym 38) ++ Sym 59 :: ts2) ++ rest = ts ++ replicate n (Sym 38) ++ Sym 59 :: ts2 ++ rest) as Eapp
      by by rewrite <- !app_assoc, <- app_comm_cons. rewrite Eapp in HT, Hf.
    eapply takes_bind; [apply (HP ts c ps _ Hg HT)|].
    + right. destruct n; eexists _, _; (split; [done|set_solver]).
    + lia.
    + intros c1 ps1 <- HT1. eapply takes_bind; [apply (backs_complete _ _ _ n _ HT1); [done|pose proof (toks_len _ _ HT1); lia]|].
      intros c3 ps2 Ec3 HT2. destruct (peek_toks (str ";") ps2 _ eq_refl HT2) as (s & -> & Hs & _). change (sym_in (str ";") _) with true. cbv iota.
      destruct (gettoken_toks _ _ _ Hs) as (q & eq & s1 & -> & Hs1 & _ & _).
      eapply takes_bind; [apply (HL ts2 c2 s1 rest Hg2 Hs1 Hrest); klen|]. intros c4 ps4 <- HT4.
      eexists _, _. split; [done|]. split; [simpl; by rewrite Ec3|done].
Qed.

Lemma pipe_complete fuel : complete p_exec 2 g_exec f_exec fuel -> complete p_pipe 3 g_pipe f_pipe fuel -> complete p_pipe 3 g_pipe f_pipe (S fuel).
Proof.
  intros HE HP ts t ps rest Hg HT Hrest Hf. cbn [parsepipe]. destruct Hg as [ts c Hg|ts c ts2 c2 Hg Hg2].
  - eapply takes_bind; [apply (HE ts c ps rest Hg HT); [eapply follows_mono; [exact Hrest|set_solver]|lia]|].
    intros c2 ps2 Ec2 HT2. destruct (peek_toks (str "|") ps2 _ eq_refl HT2) as (s & -> & Hs & _).
    rewrite (follows_sym _ _ (str "|") Hrest) by done. by exists c2, s.
  - rewrite <- app_assoc, <- app_comm_cons in HT, Hf. eapply takes_bind; [apply (HE ts c ps _ Hg HT); [right; eexists _, _; split; [done|set_solver]|lia]|].
    intros c3 ps2 Ec3 HT2. destruct (peek_toks (str "|") ps2 _ eq_refl HT2) as (s & -> & Hs & _). change (sym_in (str "|") _) with true. cbv iota.
    destruct (gettoken_toks _ _ _ Hs) as (q & eq & s1 & -> & Hs1 & _ & _).
    eapply takes_bind; [apply (HP ts2 c2 s1 rest Hg2 Hs1 Hrest); klen|]. intros c4 ps4 <- HT4.
    eexists _, _. split; [done|]. split; [simpl; by rewrite Ec3|done].
Qed.

Lemma exec_complete fuel : complete p_line 4 g_line f_line fuel -> complete p_exec 2 g_exec f_exec (S (S fuel)).
Proof.
  intros HL ts t ps rest Hg HT Hrest Hf. cbn [parseexec]. destruct (peek_toks (str "(") ps _ eq_refl HT) as (s & -> & Hs & _). destruct Hg as [ts c rs c2 Hg Hr|rs c as_ c2 Hr Ha].
  - change (sym_in (str "(") _) with true. cbv iota. cbn [parseblock]. destruct (peek_toks (str "(") s _ eq_refl Hs) as (s0 & -> & Hs0 & _).
    change (sym_in (str "(") _) with true. cbn [negb].
    simpl app in Hs0. rewrite <- app_assoc, <- app_comm_cons in Hs0. destruct (gettoken_toks _ _ _ Hs0) as (q & eq & s1 & -> & Hs1 & _ & _).
    eapply takes_bind; [apply (HL ts c s1 _ Hg Hs1); [right; eexists _, _; split; [done|set_solver]|klen]|]. intros c3 ps2 <- HT2.
    destruct (peek_toks (str ")") ps2 _ eq_refl HT2) as (s2 & -> & Hs2 & _). change (sym_in (str ")") _) with true. cbn [negb].
    destruct (gettoken_toks _ _ _ Hs2) as (q2 & eq2 & s3 & -> & Hs3 & _ & _).
    apply (redirs_complete _ _ _ rs _ rest Hr Hs3); [by eapply follows_sym|pose proof (toks_len _ _ Hs3); lia].
  - assert (sym_in (str "(") ((rs ++ as_) ++ rest) = false) as ->.
    { inversion Hr as [|k f ? ? ? ? Hk]; subst; [|destruct Hk as [[-> _]|[[-> _]|[-> _]]]; done]. inversion Ha; subst; [|done]. simpl. by eapply follows_sym. }
    rewrite <- app_assoc in Hs. eapply takes_bind; [apply (redirs_complete _ _ _ rs c (as_ ++ rest)); [done|done| |pose proof (toks_len _ _ Hs); lia]|].
    + inversion Ha; subst; simpl; [by eapply follows_sym|done].
    + intros c1 ps1 <- HT1. apply (args_complete _ _ _ _ as_ _ rest Ha HT1 Hrest). pose proof (toks_len _ _ HT1). lia.
Qed.

Lemma parse_complete fuel : complete p_line 4 g_line f_line fuel /\ complete p_pipe 3 g_pipe f_pipe fuel /\ complete p_exec 2 g_exec f_exec fuel.
Proof.
  induction fuel as [fuel IH] using lt_wf_ind. destruct fuel as [|fuel]; [split_and!; intros ts t ps rest Hg HT Hr Hf; lia|].
  destruct (IH fuel ltac:(lia)) as (HL & HP & HE). split_and!; [by apply line_complete|by apply pipe_complete|].
  destruct fuel as [|fuel]; [intros ts t ps rest Hg HT Hr Hf; lia|]. apply exec_complete, IH. lia.
Qed.

(** ** The strings of a command *)
Definition strings (b : list Z) (c : cmd pos) : cmd (list Z) := cmd_map (fun a => cut (drop a.1 b)) c.

Lemma sub_lookup a i : word_at a -> (i < a.2 - a.1)%nat -> exists c, line !! (a.1 + i)%nat = Some c /\ wordchar c = true /\ c <> 0.
Proof.
  intros ([H1 H2] & Hw & _) Hi. destruct (lookup_lt_is_Some_2 line (a.1 + i)%nat) as [c Hc]; [lia|]. exists c. split_and!; [done| |].
  - apply (proj1 (Forall_forall _ _) Hw). apply list_elem_of_lookup. exists i. unfold sub. rewrite lookup_take_lt, lookup_drop by lia. done.
  - apply (proj1 (Forall_forall _ _) Hnz). apply list_elem_of_lookup. eauto.
Qed.

(** The cuts at the ends of words leave the words as they are. *)
Lemma word_string E b a : zeroed E lbuf b -> (forall e, e ∈ E -> exists a', word_at a' /\ a'.2 = e) -> word_at a -> a.2 ∈ E -> cut (drop a.1 b) = sub a.
Proof.
  intros [Hlen Hz] HE Ha Hin. pose proof Ha as ([H1 H2] & Hw & _).
  assert (forall i, (i < a.2 - a.1)%nat -> b !! (a.1 + i)%nat = line !! (a.1 + i)%nat) as Hkeep.
  { intros i Hi. destruct (sub_lookup a i Ha Hi) as (c & Hc & Hcw & _). rewrite Hz, decide_False.
    - rewrite lookup_app_l by (apply lookup_lt_Some in Hc; done). done.
    - intros [He _]. destruct (HE _ He) as (a' & (_ & _ & Hstop) & Ea'). rewrite Ea' in Hstop.
      rewrite (Hstop c (drop (S (a.1 + i)) line)) in Hcw; [done|]. by apply drop_S. }
  assert (b !! a.2 = Some 0) as H0.
  { rewrite Hz, decide_True; [done|]. split; [done|]. rewrite length_app. simpl. lia. }
  rewrite <- (take_drop (a.2 - a.1) (drop a.1 b)), drop_drop. replace (a.1 + (a.2 - a.1))%nat with a.2 by lia. rewrite (drop_S b 0 a.2 H0).
  assert (take (a.2 - a.1) (drop a.1 b) = sub a) as ->.
  { apply list_eq. intros i. unfold sub. destruct (decide (i < a.2 - a.1)%nat) as [Hi|Hi].
    - rewrite !lookup_take_lt, !lookup_drop by done. by apply Hkeep.
    - by rewrite !lookup_take_ge by lia. }
  apply cut_app_nul. intros H. apply list_elem_of_lookup in H as [i Hi]. unfold sub in Hi. apply lookup_take_Some in Hi as [Hi Hlt].
  rewrite lookup_drop in Hi. destruct (sub_lookup a i Ha Hlt) as (c & Hc & _ & Hc0). congruence.
Qed.

Lemma strings_ok c : cmd_all word_at c -> strings (nulterminate c lbuf) c = tr c.
Proof.
  intros Hc. eapply cmd_map_ext; [apply cmd_all_and; [exact Hc|apply (cmd_all_ends c (ends c)); done]|].
  intros a [Ha He]. eapply word_string; [apply nulterminate_zeroed| |done|done]. intros e Hin. by eapply ends_all.
Qed.

(** parseline() on the whole line. *)
Lemma whole_line : at_toks 0 (lex line).
Proof. split; [lia|]. by rewrite drop_0. Qed.

Lemma parse_line : match parseline lbuf es (4 * es + 4) 0 with
  | NoFuel => False
  | Err _ => forall t, ~ g_line (lex line) t
  | Ok (c, s) =>
      if Nat.eqb (peek lbuf es [] s).2 es then forall t, g_line (lex line) t <-> t = strings (nulterminate c lbuf) c
      else forall t, ~ g_line (lex line) t
  end.
Proof.
  pose proof (toks_len 0 _ whole_line) as Hlen. pose proof (proj1 (parse_sound (4 * es + 4)) 0%nat _ whole_line ltac:(lia)) as Hs.
  assert (forall t, g_line (lex line) t -> takes (parseline lbuf es (4 * es + 4) 0) t []) as Hcomp.
  { intros t Hg. apply (proj1 (parse_complete (4 * es + 4)) (lex line) t); rewrite ?app_nil_r; [done|apply whole_line|by left|lia]. }
  destruct (parseline _ _ _ _) as [[c s]|msg|]; [|intros t Hg; by destruct (Hcomp t Hg) as (? & ? & ? & _)|done].
  destruct Hs as (Hc & T & HT & ts & E & Hg). destruct (peek_toks [] s T eq_refl HT) as (s' & -> & Hs' & Hend). cbn [snd].
  destruct (Nat.eqb_spec s' es) as [->|Hne].
  - assert (T = []) as -> by (destruct Hs' as [_ <-]; by rewrite drop_all). rewrite app_nil_r in E. subst ts. rewrite strings_ok by done.
    intros t. split; [|by intros ->]. intros Hg'. destruct (Hcomp t Hg') as (c' & ps' & [= -> ->] & <- & _). done.
  - intros t Hg'. destruct (Hcomp t Hg') as (c' & ps' & [= -> ->] & _ & [_ HT']). destruct HT as [_ HT]. apply Hne, Hend. congruence.
Qed.
End line.

(** ** parsecmd *)
Section decides.
Context {W : Type} `{OS : !Os W}.

Lemma sh_panic_exits {A} (I : W -> Prop) msg w (Q : A -> W -> Prop) (X : W -> Prop) : (forall data w, I w -> I (os_write 2 data w).2) -> I w ->
  (forall w', I w' -> X (os_exit 1 w')) -> uwp (sh_panic msg w) Q X.
Proof.
  intros HI Hw HX. unfold sh_panic. apply uwp_bind, uwp_wp. eapply wp_mono; [|by apply (vprintf_inv I 2)].
  intros [] w' Hw'. by apply uwp_exit, HX.
Qed.

(** [I] is what the messages keep. *)
Lemma parsecmd_ok (I : W -> Prop) line pad w : Forall (fun c => c <> 0) line -> Z.of_nat (length (line ++ 0 :: pad)) < 2 ^ 31 ->
  (forall data w, I w -> I (os_write 2 data w).2) -> I w ->
  uwp (parsecmd (line ++ 0 :: pad) w)
    (fun r w' => w' = w /\ forall t, g_line (lex line) t <-> t = strings r.2 r.1)
    (fun w' => (exists w1, I w1 /\ w' = os_exit 1 w1) /\ forall t, ~ g_line (lex line) t).
Proof.
  intros Hnz Hlen HI Hw. unfold parsecmd. rewrite strlen_cut by done. rewrite cut_app_nul by (intros H; by apply (proj1 (Forall_forall _ _) Hnz) in H).
  rewrite Nat2Z.id. pose proof (parse_line line pad Hnz) as H. destruct (parseline _ _ _ _) as [[c s]|msg|]; [|apply (sh_panic_exits I); eauto|done].
  destruct (peek _ _ [] s) as [b s']. cbn [snd] in H. destruct (Nat.eqb s' (length line)); cbn [negb].
  - by split.
  - apply uwp_bind, uwp_wp. eapply wp_mono; [|by apply (vprintf_inv I 2)].
    intros [] w' Hw'. apply (sh_panic_exits I); eauto.
Qed.

(** C11. The shell's parser decides the command language: for every line, parsecmd() returns the one command that the
    grammar gives the tokens of the line, with its strings cut out of the buffer, or, if the line is not in the language, it
    exits with status 1.  It always ends. *)
Theorem parsecmd_decides line pad w : Forall (fun c => c <> 0) line -> Z.of_nat (length (line ++ 0 :: pad)) < 2 ^ 31 ->
  uwp (parsecmd (line ++ 0 :: pad) w)
    (fun r w' => w' = w /\ forall t, g_line (lex line) t <-> t = strings r.2 r.1)
    (fun w' => (exists w1, w' = os_exit 1 w1) /\ forall t, ~ g_line (lex line) t).
Proof.
  intros Hnz Hlen. pose proof (parsecmd_ok (fun _ => True) line pad w Hnz Hlen ltac:(done) ltac:(done)) as H.
  destruct (parsecmd _ w) as [| | |c w' rdy k]; try done. destruct H as [Hr [(w1 & _ & E) Hno]]. split; [done|]. eauto.
Qed.
End decides.

(** ** A line as an example *)
Definition some_line : list Z := str "grep x <in | wc; (sleep 5 >>log)&".

Definition some_tree : cmd (list Z) :=
  LIST (PIPE (REDIR (EXEC [str "grep"; str "x"]) (str "in") 0 0) (EXEC [str "wc"])) (BACK (REDIR (EXEC [str "sleep"; str "5"]) (str "log") 0x201 1)).
Definition no_files : io := mkIo ∅ ∅ ∅ None.

Lemma some_line_nz : Forall (fun c => c <> 0) some_line.
Proof. vm_compute. repeat constructor; discriminate. Qed.

Lemma parsecmd_decides_witness : exists r, parsecmd (some_line ++ [0]) no_files = Done r no_files /\
  strings r.2 r.1 = some_tree /\ g_line (lex some_line) some_tree.
Proof.
  pose proof (parsecmd_decides some_line [] no_files some_line_nz ltac:(vm_compute; reflexivity)) as H.
  set (r := match parsecmd (some_line ++ [0]) no_files with Done r _ => r | _ => (EXEC [], []) end). exists r.
  assert (parsecmd (some_line ++ [0]) no_files = Done r no_files) as E by (vm_compute; reflexivity). rewrite E in H. destruct H as [_ H].
  assert (strings r.2 r.1 = some_tree) as Er by (vm_compute; reflexivity). split; [exact E|]. split; [exact Er|]. apply H. symmetry. exact Er.
Defined.
