(* ===== verification/ShRun.v ===== *)
(** * Running shell commands (runcmd of user/sh.c)

    What the shell's processes do to their descriptors.  [OsFd] states what runcmd()
    relies on of the system calls: a table of descriptors per process, copied by fork(),
    in which open(), dup() and pipe() take free entries, the lowest one first.  A run of
    the model follows one process: at fork() the system decides whether it goes on as
    the parent or as the child.  The theorem shows that whichever process is followed,
    the program it executes is one of the line, with exactly the descriptors the
    command language says. *)
From S2P Require Import Prelude Machine KString User Ulib Sh.
Local Open Scope Z_scope.
Local Open Scope kernel_scope.

(** What a descriptor stands for: a file with the mode it was opened in, an end of a
    pipe, or something the shell was started with. *)
Inductive obj := ObjFile (path : list Z) (mode : Z) | ObjPipe (id : nat) (wr : bool) | ObjOther (id : nat).
#[export] Instance obj_eq_dec : EqDecision obj.
Proof. solve_decision. Defined.
Notation table := (gmap Z obj).

Definition lowest (D : table) (r : Z) : Prop := 0 <= r /\ D !! r = None /\ forall x, 0 <= x < r -> is_Some (D !! x).
Definition new_pipe (D : table) (id : nat) : Prop := forall fd wr, D !! fd <> Some (ObjPipe id wr).

Class OsFd (W : Type) `{OS : !Os W} := {
  fds : W -> table;
  execd : W -> option (list (list Z) * table);  (* the program that exec() started: arguments and descriptors *)
  fd_write : forall fd data w, let w' := (os_write fd data w).2 in fds w' = fds w /\ execd w' = execd w;
  fd_close : forall fd w, let w' := (os_close fd w).2 in fds w' = delete fd (fds w) /\ execd w' = execd w;
  fd_open : forall path mode w, let (r, w') := os_open path mode w in execd w' = execd w /\
    (r < 0 /\ fds w' = fds w \/ lowest (fds w) r /\ fds w' = <[r := ObjFile path mode]> (fds w));
  (* dup() fails only on a full table, which has more than three entries *)
  fd_dup : forall fd o r w, fds w !! fd = Some o -> lowest (fds w) r -> r < 3 ->
    let w' := (os_dup fd w).2 in fds w' = <[r := o]> (fds w) /\ execd w' = execd w;
  fd_dup_bad : forall fd w, fds w !! fd = None -> let w' := (os_dup fd w).2 in fds w' = fds w /\ execd w' = execd w;
  fd_mknod : forall path major minor w, let w' := (os_mknod path major minor w).2 in fds w' = fds w /\ execd w' = execd w;
  fd_pipe : forall w, let '(rc, (p0, p1), w') := os_pipe w in execd w' = execd w /\
    (rc < 0 /\ fds w' = fds w \/ exists id, new_pipe (fds w) id /\ p0 <> p1 /\ fds w !! p0 = None /\ fds w !! p1 = None /\
       fds w' = <[p0 := ObjPipe id false]> (<[p1 := ObjPipe id true]> (fds w)));
  fd_fork : forall w, let w' := (os_fork w).2 in fds w' = fds w /\ execd w' = execd w;
  fd_wait : forall w, let w' := (os_wait w).2 in fds w' = fds w /\ execd w' = execd w;
  fd_exec : forall path argv w, let (r, w') := os_exec path argv w in
    match r with None => execd w' = Some (argv, fds w) | Some _ => fds w' = fds w /\ execd w' = execd w end;
  fd_exit : forall st w, execd (os_exit st w) = execd w
}.

(** The programs of a command, with their arguments and their descriptors, when the
    shell's are [D]. *)
Inductive runs : cmd (list Z) -> table -> list (list Z) -> table -> Prop :=
  | run_exec a argv D : runs (EXEC (a :: argv)) D (a :: argv) D
  | run_redir c f mode fd D argv D' : runs c (<[fd := ObjFile f mode]> D) argv D' -> runs (REDIR c f mode fd) D argv D'
  | run_left l r id D argv D' : new_pipe D id -> runs l (<[1 := ObjPipe id true]> D) argv D' -> runs (PIPE l r) D argv D'
  | run_right l r id D argv D' : new_pipe D id -> runs r (<[0 := ObjPipe id false]> D) argv D' -> runs (PIPE l r) D argv D'
  | run_first l r D argv D' : runs l D argv D' -> runs (LIST l r) D argv D'
  | run_second l r D argv D' : runs r D argv D' -> runs (LIST l r) D argv D'
  | run_back c D argv D' : runs c D argv D' -> runs (BACK c) D argv D'.

(** Redirections are of descriptor 0 or 1. *)
Fixpoint std_redirs {S} (c : cmd S) : Prop :=
  match c with
  | EXEC _ => True
  | REDIR c _ _ fd => (fd = 0 \/ fd = 1) /\ std_redirs c
  | PIPE l r | LIST l r => std_redirs l /\ std_redirs r
  | BACK c => std_redirs c
  end.

Section running.
Context {W : Type} `{OS : !Os W} `{FD : !OsFd W}.

(** No program was started, and the descriptors are [D]. *)
Definition has (D : table) (w : W) : Prop := fds w = D /\ execd w = None.

Lemma uwp_close fd D w (Q : Z -> W -> Prop) X : has D w -> (forall r w', has (delete fd D) w' -> Q r w') -> uwp (close fd w) Q X.
Proof.
  intros [<- He] HQ. unfold close, syscall. pose proof (fd_close fd w) as H. destruct (os_close fd w) as [r w']. destruct H as [H1 H2].
  apply HQ. split; [done|]. simpl in *. congruence.
Qed.

Lemma uwp_open path mode D w (Q : Z -> W -> Prop) X : has D w -> (forall r w', r < 0 -> has D w' -> Q r w') ->
  (forall r w', lowest D r -> has (<[r := ObjFile path mode]> D) w' -> Q r w') -> uwp (open path mode w) Q X.
Proof.
  intros [<- He] HQ1 HQ2. unfold open, syscall. pose proof (fd_open path mode w) as H. destruct (os_open path mode w) as [r w']. destruct H as [H1 H2].
  destruct H2 as [[Hr H2]|[Hr H2]]; [apply HQ1|apply HQ2]; try done; split; try done; congruence.
Qed.

Lemma uwp_dup fd o r D w (Q : Z -> W -> Prop) X : has D w -> D !! fd = Some o -> lowest D r -> r < 3 -> (forall r' w', has (<[r := o]> D) w' -> Q r' w') ->
  uwp (dup fd w) Q X.
Proof.
  intros [<- He] Ho Hr Hr3 HQ. unfold dup, syscall. pose proof (fd_dup fd o r w Ho Hr Hr3) as H. destruct (os_dup fd w) as [r' w']. destruct H as [H1 H2].
  apply HQ. split; [done|]. simpl in *. congruence.
Qed.

Lemma uwp_wait D w (Q : Z * Z -> W -> Prop) X : has D w -> (forall r w', has D w' -> Q r w') -> uwp (wait w) Q X.
Proof.
  intros [<- He] HQ. unfold wait, syscall. pose proof (fd_wait w) as H. destruct (os_wait w) as [r w']. destruct H as [H1 H2].
  apply HQ. split; [done|]. simpl in *. congruence.
Qed.

Lemma has_write fd data D w : has D w -> has D (os_write fd data w).2.
Proof. intros [<- He]. destruct (fd_write fd data w) as [H1 H2]. split; [done|congruence]. Qed.

Lemma has_exit st D w : has D w -> execd (os_exit st w) = None.
Proof. intros [_ He]. by rewrite fd_exit. Qed.

(** A message, and the end of the process. *)
Lemma uwp_message {A} fmt a st D w (Q : A -> W -> Prop) (X : W -> Prop) : fmt_ok fmt [UStr (Some a)] false = true -> has D w ->
  (forall w', execd w' = None -> X w') -> uwp ((fprintf 2 fmt [UStr (Some a)];; exit st) w) Q X.
Proof.
  intros Hok Hw HX. apply uwp_bind, uwp_wp. eapply wp_mono; [|apply (vprintf_inv (has D) 2); [intros; by apply has_write|done|done]].
  intros [] w' Hw'. apply uwp_exit, HX. by eapply has_exit.
Qed.

Lemma uwp_fork1 D w (Q : Z -> W -> Prop) (X : W -> Prop) : has D w -> (forall w', execd w' = None -> X w') -> (forall pid w', has D w' -> Q pid w') -> uwp (fork1 w) Q X.
Proof.
  intros Hw HX HQ. unfold fork1. apply uwp_bind. unfold fork, syscall. destruct Hw as [<- He]. pose proof (fd_fork w) as H.
  destruct (os_fork w) as [pid w'] eqn:E. destruct H as [H1 H2]. simpl in *. assert (has (fds w) w') as Hw' by (split; [done|congruence]).
  destruct (pid =? -1); [|by apply HQ]. unfold sh_panic. eapply uwp_message; [done|exact Hw'|done].
Qed.

Definition ran (c : cmd (list Z)) (D : table) (w : W) : Prop := forall argv D', execd w = Some (argv, D') -> runs c D argv D'.

Lemma ran_none c D w : execd w = None -> ran c D w.
Proof. intros H argv D'. by rewrite H. Qed.

(** A process that does not come back. *)
Definition ends_as (o : outcome W unit) (c : cmd (list Z)) (D : table) : Prop := uwp o (fun _ _ => False) (ran c D).

Lemma then_never {A B} (m : K W A) (f : A -> K W B) w (X Y : W -> Prop) Q : uwp (m w) (fun _ _ => False) X -> (forall w', X w' -> Y w') -> uwp (bind m f w) Q Y.
Proof. intros H HXY. unfold bind. destruct (m w); simpl in *; try done. destruct H. auto. Qed.

Lemma uwp_ends {A} (o : outcome W A) (X Y : W -> Prop) : uwp o (fun _ _ => False) X -> (forall w, X w -> Y w) -> uwp o (fun _ _ => False) Y.
Proof. intros H HXY. destruct o; simpl in *; try done. destruct H. auto. Qed.

Lemma lowest_delete D fd r : lowest (delete fd D) r -> 0 <= fd -> (forall x, 0 <= x < fd -> is_Some (D !! x)) -> r = fd.
Proof.
  intros (H0 & Hn & Hlow) Hfd HD. destruct (Z.lt_trichotomy r fd) as [Hlt|[Heq|Hgt]]; [|done|].
  - rewrite lookup_delete_ne in Hn by lia. destruct (HD r ltac:(lia)) as [o Ho]. congruence.
  - destruct (Hlow fd ltac:(lia)) as [o Ho]. by rewrite lookup_delete_eq in Ho.
Qed.

Lemma lowest_is_deleted D fd : 0 <= fd -> (forall x, 0 <= x < fd -> is_Some (D !! x)) -> lowest (delete fd D) fd.
Proof.
  intros Hfd HD. split_and!; [done|apply lookup_delete_eq|]. intros x Hx. rewrite lookup_delete_ne by lia. by apply HD.
Qed.

(** Descriptors 0 and 1 are open. *)
Definition stdio (D : table) : Prop := is_Some (D !! 0) /\ is_Some (D !! 1).

Lemma stdio_insert D fd o : stdio D -> stdio (<[fd := o]> D).
Proof. intros [H0 H1]. split; rewrite lookup_insert_is_Some; destruct (decide (fd = 0)), (decide (fd = 1)); tauto. Qed.

Lemma stdio_below D fd x : stdio D -> fd = 0 \/ fd = 1 -> 0 <= x < fd -> is_Some (D !! x).
Proof. intros [H0 _] Hfd Hx. by replace x with 0 by lia. Qed.

(** The child of a pipe: its end becomes descriptor [fd], both others are closed. *)
Lemma pipe_child {B} fd p p0 p1 o (k : K W B) D0 D w Q X : fd = 0 \/ fd = 1 -> stdio D -> D !! p0 = None -> D !! p1 = None ->
  (p = p0 \/ p = p1) -> D0 !! p = Some o -> (forall x, x <> p0 -> x <> p1 -> D0 !! x = D !! x) -> has D0 w ->
  (forall w', has (<[fd := o]> D) w' -> uwp (k w') Q X) ->
  uwp ((close fd;; dup p;; close p0;; close p1;; k) w) Q X.
Proof.
  intros Hfd Hstd Hp0 Hp1 Hp Ho Heq Hw Hk.
  assert (forall q, D !! q = None -> q <> 0 /\ q <> 1) as Hne by (intros q Hq; destruct Hstd as [[? H0] [? H1]]; split; intros ->; congruence).
  destruct (Hne p0 Hp0), (Hne p1 Hp1). assert (p <> fd) as Hpf by (destruct Hp, Hfd; subst; done).
  apply uwp_bind. eapply uwp_close; [exact Hw|]. intros _ w1 Hw1. apply uwp_bind. eapply (uwp_dup p o fd); [exact Hw1| | |lia|].
  - by rewrite lookup_delete_ne.
  - apply lowest_is_deleted; [lia|]. intros x Hx. rewrite Heq by lia. by eapply stdio_below.
  - intros _ w2 Hw2. apply uwp_bind. eapply uwp_close; [exact Hw2|]. intros _ w3 Hw3. apply uwp_bind. eapply uwp_close; [exact Hw3|].
    intros _ w4 Hw4. apply Hk. replace (<[fd := o]> D) with (delete p1 (delete p0 (<[fd := o]> (delete fd D0)))); [done|].
    apply map_eq. intros x. destruct (decide (x = p1)) as [->|]; [rewrite lookup_delete_eq, lookup_insert_ne by lia; done|].
    rewrite lookup_delete_ne by done. destruct (decide (x = p0)) as [->|]; [rewrite lookup_delete_eq, lookup_insert_ne by lia; done|].
    rewrite lookup_delete_ne by done. destruct (decide (x = fd)) as [->|]; [by rewrite !lookup_insert_eq|].
    rewrite !lookup_insert_ne, lookup_delete_ne by done. by apply Heq.
Qed.

(** fork1(), after which the child does not come back. *)
Lemma fork_child {B} (child : K W unit) (k : K W B) D w Q (X : W -> Prop) : has D w -> (forall w', execd w' = None -> X w') ->
  (forall w', has D w' -> uwp (child w') (fun _ _ => False) X) -> (forall w', has D w' -> uwp (k w') Q X) ->
  uwp (bind fork1 (fun pid => (if pid =? 0 then child else ret tt);; k) w) Q X.
Proof.
  intros Hw HX Hc Hk. apply uwp_bind. eapply uwp_fork1; [exact Hw|done|]. intros pid w' Hw'. destruct (pid =? 0).
  - eapply then_never; [by apply Hc|done].
  - by apply Hk.
Qed.

Lemma runcmd_exec buf argv D w : has D w -> ends_as (runcmd buf (EXEC argv) w) (strings buf (EXEC argv)) D.
Proof.
  intros Hw. unfold ends_as, strings. cbn [runcmd cmd_map]. set (av := map _ argv). destruct av as [|a av].
  - apply uwp_exit, ran_none. by eapply has_exit.
  - apply uwp_bind. unfold exec. destruct Hw as [<- He]. pose proof (fd_exec a (a :: av) w) as H. destruct (os_exec a (a :: av) w) as [[r|] w'].
    + destruct H as [H1 H2]. eapply (uwp_message _ _ _ (fds w)); [done|split; [done|congruence]|]. apply ran_none.
    + split; [done|]. intros argv' D' HD. rewrite H in HD. injection HD as <- <-. constructor.
Qed.

Lemma runcmd_pipe buf l r D w : stdio D -> has D w ->
  (forall D w, stdio D -> has D w -> ends_as (runcmd buf l w) (strings buf l) D) ->
  (forall D w, stdio D -> has D w -> ends_as (runcmd buf r w) (strings buf r) D) ->
  ends_as (runcmd buf (PIPE l r) w) (strings buf (PIPE l r)) D.
Proof.
  intros Hstd Hw IHl IHr. unfold ends_as. cbn [runcmd]. apply uwp_bind. unfold pipe, syscall. destruct Hw as [<- He]. pose proof (fd_pipe w) as H.
  destruct (os_pipe w) as [[rc [p0 p1]] w1]. cbn [uwp]. destruct H as [H1 [[Hrc H2]|(id & Hid & Hne & Hp0 & Hp1 & H2)]].
  { rewrite (proj2 (Z.ltb_lt rc 0)) by done. eapply (uwp_message _ _ _ (fds w)); [done|split; [done|congruence]|]. apply ran_none. }
  assert (has (<[p0 := ObjPipe id false]> (<[p1 := ObjPipe id true]> (fds w))) w1) as Hw1 by (split; [done|congruence]).
  destruct (rc <? 0); [eapply uwp_message; [done|exact Hw1|apply ran_none]|].
  assert (forall x, x <> p0 -> x <> p1 -> (<[p0 := ObjPipe id false]> (<[p1 := ObjPipe id true]> (fds w))) !! x = fds w !! x) as Heq
    by (intros x Hx0 Hx1; by rewrite !lookup_insert_ne by congruence).
  eapply fork_child; [exact Hw1|apply ran_none| |].
  { intros w2 Hw2. eapply (pipe_child 1 p1 p0 p1 (ObjPipe id true)); [by right|exact Hstd|done|done|by right| |exact Heq|exact Hw2|].
    - by rewrite lookup_insert_ne, lookup_insert_eq.
    - intros w3 Hw3. eapply uwp_ends; [eapply IHl; [|exact Hw3]; by apply stdio_insert|]. intros w4 H4 argv D' HD.
      eapply run_left; [exact Hid|]. by apply H4. }
  intros w2 Hw2. eapply fork_child; [exact Hw2|apply ran_none| |].
  { intros w3 Hw3. eapply (pipe_child 0 p0 p0 p1 (ObjPipe id false)); [by left|exact Hstd|done|done|by left| |exact Heq|exact Hw3|].
    - by rewrite lookup_insert_eq.
    - intros w4 Hw4. eapply uwp_ends; [eapply IHr; [|exact Hw4]; by apply stdio_insert|]. intros w5 H5 argv D' HD.
      eapply run_right; [exact Hid|]. by apply H5. }
  intros w3 Hw3. apply uwp_bind. eapply uwp_close; [exact Hw3|]. intros _ w4 Hw4. apply uwp_bind. eapply uwp_close; [exact Hw4|].
  intros _ w5 Hw5. apply uwp_bind. eapply uwp_wait; [exact Hw5|]. intros _ w6 Hw6. apply uwp_bind. eapply uwp_wait; [exact Hw6|].
  intros _ w7 Hw7. apply uwp_exit, ran_none. by eapply has_exit.
Qed.

Lemma runcmd_ok buf c D w : std_redirs c -> stdio D -> has D w -> ends_as (runcmd buf c w) (strings buf c) D.
Proof.
  revert D w. induction c as [argv|c IH file mode fd|l IHl r IHr|l IHl r IHr|c IH]; intros D w Hc Hstd Hw; [by apply runcmd_exec|..];
    unfold ends_as; cbn [runcmd].
  - destruct Hc as [Hfd Hc]. apply uwp_bind. eapply uwp_close; [exact Hw|]. intros _ w1 Hw1. apply uwp_bind. eapply uwp_open; [exact Hw1|..].
    + intros rc w2 Hr Hw2. rewrite (proj2 (Z.ltb_lt rc 0)) by done. eapply uwp_message; [done|exact Hw2|]. apply ran_none.
    + intros rc w2 Hr Hw2. apply (lowest_delete D fd) in Hr as ->; [|lia|intros x Hx; by eapply stdio_below].
      rewrite (proj2 (Z.ltb_ge fd 0)) by lia. rewrite insert_delete_eq in Hw2.
      eapply then_never; [eapply IH; [exact Hc| |exact Hw2]; by apply stdio_insert|]. intros w3 H3 argv D' HD. constructor. by apply H3.
  - destruct Hc as [Hl Hr]. apply runcmd_pipe; [done|done|intros D' w' Hs' Hw'; by apply IHl|intros D' w' Hs' Hw'; by apply IHr].
  - destruct Hc as [Hl Hr]. eapply fork_child; [exact Hw|apply ran_none| |].
    + intros w1 Hw1. eapply uwp_ends; [by apply IHl|]. intros w2 H2 argv D' HD. apply run_first. by apply H2.
    + intros w1 Hw1. apply uwp_bind. eapply uwp_wait; [exact Hw1|]. intros _ w2 Hw2. eapply then_never; [by apply IHr|].
      intros w3 H3 argv D' HD. apply run_second. by apply H3.
  - eapply fork_child; [exact Hw|apply ran_none| |].
    + intros w1 Hw1. eapply uwp_ends; [by apply IH|]. intros w2 H2 argv D' HD. apply run_back. by apply H2.
    + intros w1 Hw1. apply uwp_exit, ran_none. by eapply has_exit.
Qed.


(** Redirections in the language are of descriptors 0 and 1. *)
Lemma redirs_std c ts c' : redirs c ts c' -> std_redirs c -> std_redirs c'.
Proof. induction 1 as [|k f c c1 ts c2 Hk _ IH]; [done|]. intros Hc. apply IH. destruct Hk as [[_ ->]|[[_ ->]|[_ ->]]]; simpl; tauto. Qed.

Lemma add_arg_std {S} (c : cmd S) a : std_redirs c -> std_redirs (add_arg c a).
Proof. induction c; simpl; tauto. Qed.

Lemma args_std c n ts c' : args c n ts c' -> std_redirs c -> std_redirs c'.
Proof. induction 1 as [|c n w ts1 c1 ts2 c2 _ Hr _ IH]; [done|]. intros Hc. apply IH. eapply redirs_std; [exact Hr|]. by apply add_arg_std. Qed.

Lemma backs_std {S} n (c : cmd S) : std_redirs c -> std_redirs (backs n c).
Proof. revert c. induction n as [|n IH]; intros c Hc; [done|]. by apply (IH (BACK c)). Qed.

Lemma line_std ts t : g_line ts t -> std_redirs t.
Proof.
  revert ts t. fix LINE 3 with (pipe_std ts t (H : g_pipe ts t) {struct H} : std_redirs t) (exec_std ts t (H : g_exec ts t) {struct H} : std_redirs t).
  - intros ts t [ts' c n Hp|ts' c n ts2 c2 Hp Hl]; [by eapply backs_std, pipe_std|]. split; [by eapply backs_std, pipe_std|by eapply LINE].
  - intros ts t [ts' c He|ts' c ts2 c2 He Hp]; [by eapply exec_std|]. split; [by eapply exec_std|by eapply pipe_std].
  - intros ts t [ts' c rs c2 Hl Hr|rs c as_ c2 Hr Ha]; [eapply redirs_std; [exact Hr|by eapply LINE]|].
    eapply args_std; [exact Ha|]. by eapply redirs_std.
Qed.

Lemma strings_std buf c : std_redirs (strings buf c) -> std_redirs c.
Proof. unfold strings. induction c; simpl; tauto. Qed.

(** C12. A command line, run by the child of the shell's main(): the process never returns.  It exits, or it executes one
    of the programs of the command the grammar gives the line, with its arguments, and with the descriptors of the shell but for the
    redirections and the ends of pipes that the command says; no other end of a pipe is left open. *)
Theorem sh_child_runs line pad w : Forall (fun c => c <> 0) line -> Z.of_nat (length (line ++ 0 :: pad)) < 2 ^ 31 ->
  stdio (fds w) -> execd w = None ->
  uwp (sh_child (line ++ 0 :: pad) w) (fun _ _ => False) (fun w' => forall argv D, execd w' = Some (argv, D) ->
    exists t, g_line (lex line) t /\ runs t (fds w) argv D).
Proof.
  intros Hnz Hlen Hstd He. assert (has (fds w) w) as Hw by by split.
  pose proof (parsecmd_ok (has (fds w)) line pad w Hnz Hlen ltac:(intros; by apply has_write) Hw) as H.
  unfold sh_child. unfold bind at 1. destruct (parsecmd _ w) as [[c b] w1| | |c w' rdy k]; try done.
  - destruct H as [-> H]. cbn [fst snd] in *. pose proof (proj2 (H _) eq_refl) as Hg.
    eapply uwp_ends; [apply (runcmd_ok b c (fds w) w); [by eapply strings_std, line_std|done|done]|]. intros w2 H2 argv D HD. eauto.
  - destruct H as [Hr [(w1 & Hw1 & ->) _]]. split; [done|]. intros argv D. by rewrite (has_exit 1 _ _ Hw1).
Qed.
End running.

(** ** A concrete system *)
(** The descriptors, the program started, and which process to follow at the next forks. *)
Record toy := mkToy { ty_fds : table; ty_exec : option (list (list Z) * table); ty_child : list bool }.
Definition set_fds (D : table) (w : toy) : toy := mkToy D (ty_exec w) (ty_child w).

Definition first_free (D : table) : option Z := find (fun r => bool_decide (D !! r = None)) [0; 1; 2].
Definition free_fd (X : gset Z) : Z := Z.of_nat (fresh (set_map Z.to_nat X : gset nat)).
Definition pipe_ids (D : table) : gset nat :=
  list_to_set (omap (fun '(_, o) => match o with ObjPipe i _ => Some i | _ => None end) (map_to_list D)).

#[export] Instance toy_os : Os toy := {|
  os_read _ _ w := (-1, [], w); os_write _ data w := (Z.of_nat (length data), w);
  os_open path mode w := match first_free (ty_fds w) with Some r => (r, set_fds (<[r := ObjFile path mode]> (ty_fds w)) w) | None => (-1, w) end;
  os_close fd w := (0, set_fds (delete fd (ty_fds w)) w);
  os_exit _ w := w;
  os_fork w := match ty_child w with true :: l => (0, mkToy (ty_fds w) (ty_exec w) l) | _ => (1, mkToy (ty_fds w) (ty_exec w) (tl (ty_child w))) end;
  os_wait w := (-1, 0, w);
  os_exec path argv w := (None, mkToy (ty_fds w) (Some (argv, ty_fds w)) (ty_child w));
  os_pipe w := let D := ty_fds w in let p0 := free_fd (dom D) in let p1 := free_fd (dom D ∪ {[p0]}) in let id := fresh (pipe_ids D) in
    (0, (p0, p1), set_fds (<[p0 := ObjPipe id false]> (<[p1 := ObjPipe id true]> D)) w);
  os_dup fd w := match ty_fds w !! fd, first_free (ty_fds w) with Some o, Some r => (r, set_fds (<[r := o]> (ty_fds w)) w) | _, _ => (-1, w) end;
  os_chdir _ w := (-1, w); os_mkdir _ w := (-1, w); os_mknod _ _ _ w := (-1, w); os_link _ _ w := (-1, w); os_unlink _ w := (-1, w);
  os_fstat _ w := (-1, (0, 0, 0, 0, 0), w); os_kill _ w := (-1, w); os_sleep _ w := (-1, w); os_sbrk _ w := (-1, w)
|}.

Lemma first_free_ok D r : first_free D = Some r -> lowest D r.
Proof.
  unfold first_free. simpl. unfold lowest. repeat case_bool_decide; intros [= <-]; (split; [lia|]); (split; [done|]); intros x Hx;
    apply not_eq_None_Some; [lia|by replace x with 0 by lia|]. destruct (decide (x = 0)) as [->|]; [done|]. by replace x with 1 by lia.
Qed.

Lemma first_free_lowest D r : lowest D r -> r < 3 -> first_free D = Some r.
Proof.
  intros (H0 & Hn & Hlow) Hr. unfold first_free. simpl.
  assert (forall x, 0 <= x < r -> bool_decide (D !! x = None) = false) as Hx by (intros x Hx; apply bool_decide_eq_false_2; destruct (Hlow x Hx) as [o ->]; done).
  assert (r = 0 \/ r = 1 \/ r = 2) as [->|[-> | ->]] by lia; rewrite ?Hx, (bool_decide_eq_true_2 _ Hn) by lia; done.
Qed.

Lemma free_fd_ok (X : gset Z) : free_fd X ∉ X.
Proof.
  unfold free_fd. set (Y := set_map _ _ : gset nat). pose proof (is_fresh Y) as Hf. intros Hin. apply Hf. unfold Y at 2. apply elem_of_map.
  exists (Z.of_nat (fresh Y)). by rewrite Nat2Z.id.
Qed.

Lemma pipe_ids_ok D : new_pipe D (fresh (pipe_ids D)).
Proof.
  intros fd wr HD. apply (is_fresh (pipe_ids D)). unfold pipe_ids at 2. apply elem_of_list_to_set, list_elem_of_omap.
  exists (fd, ObjPipe (fresh (pipe_ids D)) wr). split; [by apply elem_of_map_to_list|done].
Qed.

#[export] Program Instance toy_fd : OsFd toy := {| fds := ty_fds; execd := ty_exec |}.
Next Obligation. done. Qed.
Next Obligation. done. Qed.
Next Obligation.
  intros path mode w. simpl. destruct (first_free (ty_fds w)) as [r|] eqn:E; (split; [done|]); [right; split; [by apply first_free_ok|done]|left; by split].
Qed.
Next Obligation. intros fd o r w Ho Hr Hr3. simpl. by rewrite Ho, (first_free_lowest _ _ Hr Hr3). Qed.
Next Obligation. intros fd w Hn. simpl. by rewrite Hn. Qed.
Next Obligation. done. Qed.
Next Obligation.
  intros w. simpl. split; [done|]. right. set (D := ty_fds w). pose proof (free_fd_ok (dom D)) as H0. pose proof (free_fd_ok (dom D ∪ {[free_fd (dom D)]})) as H1.
  exists (fresh (pipe_ids D)). rewrite not_elem_of_union, elem_of_singleton in H1. destruct H1 as [H1 Hne].
  split_and!; [apply pipe_ids_ok|congruence|by apply not_elem_of_dom|by apply not_elem_of_dom|done].
Qed.
Next Obligation. intros w. simpl. by destruct (ty_child w) as [|[|] l]. Qed.
Next Obligation. done. Qed.
Next Obligation. done. Qed.
Next Obligation. done. Qed.

Definition toy_shell : toy := mkToy {[0 := ObjOther 0; 1 := ObjOther 0; 2 := ObjOther 0]} None [true; false; true].

(** The child of the line, the parent of the first fork of the pipe and the child of the second one. *)
Lemma sh_child_runs_witness : uwp (sh_child (some_line ++ [0]) toy_shell) (fun _ _ => False) (fun w' =>
  fst <$> execd w' = Some [str "wc"] /\ forall argv D, execd w' = Some (argv, D) ->
    exists t, g_line (lex some_line) t /\ runs t (fds toy_shell) argv D).
Proof.
  pose proof (sh_child_runs some_line [] toy_shell some_line_nz ltac:(vm_compute; reflexivity) ltac:(by split; eexists) eq_refl) as H.
  assert (match sh_child (some_line ++ [0]) toy_shell with Wait _ w' _ _ => fst <$> execd w' = Some [str "wc"] | _ => True end) as E by (vm_compute; reflexivity).
  destruct (sh_child (some_line ++ [0]) toy_shell) as [| | |c w' rdy k]; try done. destruct H as [Hr HX]. split; [exact Hr|]. split; [exact E|exact HX].
Defined.
