(* ===== verification/Programs.v ===== *)
(** * The small user programs (user/cat.c, wc.c, echo.c, kill.c, ln.c, mkdir.c, rm.c, ls.c, init.c, zombie.c)

    Over the system calls of User.v and the library of Ulib.v.  Theorems: what cat, wc
    and echo write to their standard output, and what ls makes of a path. *)
From S2P Require Import Prelude Machine KString Block Fs Console User Ulib Sh ShRun.
Local Open Scope Z_scope.
Local Open Scope kernel_scope.

Section programs.
Context {W : Type} `{OS : !Os W}.

(** ** cat.c; [buf] is global *)
Definition read_into (buf data : list Z) : list Z := data ++ drop (length data) buf.

Definition cat (fd : Z) (buf : list Z) : K W (list Z) :=
  x <- while_ budget (fun buf =>
    r <- read fd 512;;
    let '(n, data) := r in
    let buf := read_into buf data in
    if 0 <? n then
      r <- write 1 (take (Z.to_nat n) buf);;
      if negb (r =? n) then
        fprintf 2 (str "cat: write error" ++ [10]) [];;
        exit 1
      else ret (inl buf)
    else ret (inr (n, buf))) buf;;
  let '(n, buf) := x in
  if n <? 0 then
    fprintf 2 (str "cat: read error" ++ [10]) [];;
    exit 1
  else ret buf.

Fixpoint cat_files (files : list (list Z)) (buf : list Z) : K W unit :=
  match files with
  | [] => ret tt
  | f :: files =>
      fd <- open f 0;;
      if fd <? 0 then
        fprintf 2 (str "cat: cannot open %s" ++ [10]) [UStr (Some f)];;
        exit 1
      else
      buf <- cat fd buf;;
      close fd;;
      cat_files files buf
  end.

Definition cat_main (argv : list (list Z)) : K W unit :=
  let buf := replicate 512 0 in
  match argv with
  | [] | [_] => cat 0 buf;; exit 0
  | _ :: files => cat_files files buf;; exit 0
  end.

(** ** wc.c *)
Definition blank (c : Z) : bool := match strchr [32; 13; 9; 10; 11] c with Some _ => true | None => false end.

(** The body of the loop over the bytes: l, w, c and inword. *)
Definition wc_char (x : Z * Z * Z * bool) (b : Z) : Z * Z * Z * bool :=
  let '(l, w, c, inword) := x in
  let c := s32 (c + 1) in
  let l := if b =? 10 then s32 (l + 1) else l in
  if blank b then (l, w, c, false)
  else if negb inword then (l, s32 (w + 1), c, true)
  else (l, w, c, inword).

Definition wc (fd : Z) (name buf : list Z) : K W (list Z) :=
  x <- while_ budget (fun '(st, buf) =>
    r <- read fd 512;;
    let '(n, data) := r in
    let buf := read_into buf data in
    if 0 <? n then ret (inl (fold_left wc_char (take (Z.to_nat n) buf) st, buf))
    else ret (inr (n, st, buf))) ((0, 0, 0, false), buf);;
  let '(n, st, buf) := x in
  let '(l, w, c, _) := st in
  if n <? 0 then
    printf (str "wc: read error" ++ [10]) [];;
    exit 1
  else
  printf (str "%d %d %d %s" ++ [10]) [UInt l; UInt w; UInt c; UStr (Some name)];;
  ret buf.

Fixpoint wc_files (files : list (list Z)) (buf : list Z) : K W unit :=
  match files with
  | [] => ret tt
  | f :: files =>
      fd <- open f 0;;
      if fd <? 0 then
        printf (str "wc: cannot open %s" ++ [10]) [UStr (Some f)];;
        exit 1
      else
      buf <- wc fd f buf;;
      close fd;;
      wc_files files buf
  end.

Definition wc_main (argv : list (list Z)) : K W unit :=
  let buf := replicate 512 0 in
  match argv with
  | [] | [_] => wc 0 [] buf;; exit 0
  | _ :: files => wc_files files buf;; exit 0
  end.

(** ** echo.c *)
Fixpoint echo_args (args : list (list Z)) : K W unit :=
  match args with
  | [] => ret tt
  | a :: args =>
      write 1 (take (Z.to_nat (strlen a)) a);;
      write 1 (match args with [] => [10] | _ => [32] end);;
      echo_args args
  end.
Definition echo_main (argv : list (list Z)) : K W unit := echo_args (tl argv);; exit 0.

(** ** kill.c, ln.c, mkdir.c, rm.c, zombie.c *)
Definition kill_main (argv : list (list Z)) : K W unit :=
  if (length argv <? 2)%nat then
    fprintf 2 (str "usage: kill pid..." ++ [10]) [];;
    exit 1
  else
  _ <- for_each (tl argv) (fun a => kill (atoi a);; ret (@None unit));;
  exit 0.

Definition ln_main (argv : list (list Z)) : K W unit :=
  match argv with
  | [_; old; new] =>
      r <- link old new;;
      (if r <? 0 then fprintf 2 (str "link %s %s: failed" ++ [10]) [UStr (Some old); UStr (Some new)] else ret tt);;
      exit 0
  | _ =>
      fprintf 2 (str "Usage: ln old new" ++ [10]) [];;
      exit 1
  end.

Definition mkdir_main (argv : list (list Z)) : K W unit :=
  if (length argv <? 2)%nat then
    fprintf 2 (str "Usage: mkdir files..." ++ [10]) [];;
    exit 1
  else
  _ <- for_each (tl argv) (fun a =>
    r <- mkdir a;;
    if r <? 0 then
      fprintf 2 (str "mkdir: %s failed to create" ++ [10]) [UStr (Some a)];;
      ret (Some tt)
    else ret None);;
  exit 0.

Definition rm_main (argv : list (list Z)) : K W unit :=
  if (length argv <? 2)%nat then
    fprintf 2 (str "Usage: rm files..." ++ [10]) [];;
    exit 1
  else
  _ <- for_each (tl argv) (fun a =>
    r <- unlink a;;
    if r <? 0 then
      fprintf 2 (str "rm: %s failed to delete" ++ [10]) [UStr (Some a)];;
      ret (Some tt)
    else ret None);;
  exit 0.

Definition zombie_main : K W unit :=
  pid <- fork;;
  (if 0 <? pid then sleep 5;; ret tt else ret tt);;
  exit 0.

(** ** init.c *)
(** Before the loop, and a round of it: start a shell and wait until it exits.  The loops
    have no end of their own: [budget] rounds stand for as many as there are. *)
Definition init_console : K W unit :=
  r <- open (str "console") O_RDWR;;
  (if r <? 0 then
     mknod (str "console") CONSOLE 0;;
     open (str "console") O_RDWR;;
     ret tt
   else ret tt);;
  dup 0;; (* stdout *)
  dup 0;; (* stderr *)
  ret tt.

Definition init_round : K W unit :=
  printf (str "init: starting sh" ++ [10]) [];;
  pid <- fork;;
  if pid <? 0 then
    printf (str "init: fork failed" ++ [10]) [];;
    exit 1
  else if pid =? 0 then
    exec (str "sh") [str "sh"];;
    printf (str "init: exec sh failed" ++ [10]) [];;
    exit 1
  else
  while_ budget (fun _ : unit =>
    r <- wait;;
    let wpid := r.1 in
    if wpid =? pid then ret (inr tt) (* the shell exited; restart it. *)
    else if wpid <? 0 then
      printf (str "init: wait returned an error" ++ [10]) [];;
      exit 1
    else ret (inl tt)) tt. (* it was a parentless process; do nothing. *)

Definition init_main : K W unit :=
  init_console;;
  while_ budget (fun _ : unit => init_round;; ret (@inl unit unit tt)) tt.

(** ** ls.c *)
(** The character after the last slash at or before [n]. *)
Fixpoint last_slash (path : list Z) (n : nat) : nat :=
  if nth n path 0 =? 47 then S n else match n with O => O | S n => last_slash path n end.

(** The name, and the static buffer afterwards. *)
Definition fmtname (path sbuf : list Z) : list Z * list Z :=
  (* Find first character after last slash. *)
  let p := drop (last_slash path (Z.to_nat (strlen path))) path in
  (* Return blank-padded name. *)
  if DIRSIZ <=? strlen p then (p, sbuf) else
  let n := Z.to_nat (strlen p) in
  let sbuf := take n p ++ drop n sbuf in
  let sbuf := take n sbuf ++ default [] (memset (drop n sbuf) 32 (Z.to_nat (DIRSIZ - strlen p))) in
  (sbuf, sbuf).

(** The loop over the entries of a directory: the path with its slash, of [n] bytes, is in
    [buf]. *)
Definition ls_dir (fd : Z) (n : nat) (buf sbuf : list Z) : K W (list Z) :=
  while_ budget (fun '(buf, sbuf) =>
    r <- read fd 16;;
    let '(k, de) := r in
    if negb (k =? 16) then ret (inr sbuf) else
    if get16 de 0 =? 0 then ret (inl (buf, sbuf)) else
    let buf := splice buf n (slice de 2 14) in
    let buf := splice buf (n + 14) [0] in
    r <- stat (cut buf);;
    let '(rc, (dev, ino, type, nlink, size)) := r in
    if rc <? 0 then
      printf (str "ls: cannot stat %s" ++ [10]) [UStr (Some buf)];;
      ret (inl (buf, sbuf))
    else
    let '(name, sbuf) := fmtname buf sbuf in
    printf (str "%s %d %d %d" ++ [10]) [UStr (Some name); UInt type; UInt ino; UInt size];;
    ret (inl (buf, sbuf))) (buf, sbuf).

Definition ls (path sbuf : list Z) : K W (list Z) :=
  fd <- open path 0;;
  if fd <? 0 then
    fprintf 2 (str "ls: cannot open %s" ++ [10]) [UStr (Some path)];;
    ret sbuf
  else
  r <- fstat fd;;
  let '(rc, (dev, ino, type, nlink, size)) := r in
  if rc <? 0 then
    fprintf 2 (str "ls: cannot stat %s" ++ [10]) [UStr (Some path)];;
    close fd;;
    ret sbuf
  else
  sbuf <- (if type =? T_FILE then
    let '(name, sbuf) := fmtname path sbuf in
    printf (str "%s %d %d %l" ++ [10]) [UStr (Some name); UInt type; UInt ino; UInt size];;
    ret sbuf
  else if type =? T_DIR then
    if 512 <? strlen path + 1 + DIRSIZ + 1 then
      printf (str "ls: path too long" ++ [10]) [];;
      ret sbuf
    else
    (* strcpy(buf, path), and the slash *)
    let buf := splice (replicate 512 0) 0 (cut path ++ [0]) in
    let n := Z.to_nat (strlen buf) in
    let buf := splice buf n [47] in
    ls_dir fd (n + 1) buf sbuf
  else ret sbuf);;
  close fd;;
  ret sbuf.

Fixpoint ls_paths (paths : list (list Z)) (sbuf : list Z) : K W unit :=
  match paths with
  | [] => ret tt
  | p :: paths => sbuf <- ls p sbuf;; ls_paths paths sbuf
  end.
Definition ls_main (argv : list (list Z)) : K W unit :=
  let sbuf := replicate 15 0 in
  match argv with
  | [] | [_] => ls (str ".") sbuf;; exit 0
  | _ :: paths => ls_paths paths sbuf;; exit 0
  end.
End programs.

(** ** Files read to their end *)
Section theorems.
Context {W : Type} `{OS : !Os W} `{IO : !OsIo W}.

Lemma take_read data buf : take (Z.to_nat (Z.of_nat (length data))) (read_into buf data) = data.
Proof. unfold read_into. by rewrite Nat2Z.id, take_app_length. Qed.

(** A file [l] that was opened as [fd] is read, and what [f l] says is written to descriptor 1. *)
Definition filtered (fd : Z) (w : W) (out : list Z) (w' : W) : Prop :=
  io_out (ios w') !! 1 = Some out /\ io_in (ios w') !! fd = Some [] /\ io_keep fd (ios w) (ios w').

Lemma cat_ok fd l out buf w : io_in (ios w) !! fd = Some l -> io_out (ios w) !! 1 = Some out -> Z.of_nat (length l) < 2 ^ 39 ->
  wp (cat fd buf w) (fun _ w' => filtered fd w (out ++ l) w').
Proof.
  intros Hin Hout Hlen. unfold cat. kstep.
  eapply (wp_mono _ (fun x w' => x.1 = 0 /\ filtered fd w (out ++ l) w')).
  { intros [n b] w' [E Hf]. simpl in E. subst n. done. }
  apply (wp_while_ghost _ (fun rest (_ : list Z) w' => exists dn, l = dn ++ rest /\ io_out (ios w') !! 1 = Some (out ++ dn) /\
    io_in (ios w') !! fd = Some rest /\ io_keep fd (ios w) (ios w')) (fun rest => Z.of_nat (length rest)) _) with (g := l).
  - intros rest b w1 (dn & -> & Ho & Hi & Hk). kstep. eapply wp_read; [exact Hi|lia|]. intros data rest' w2 -> Hd Hne E2. cbv beta iota.
    rewrite take_read. assert (io_keep fd (ios w) (ios w2)) as Hk2 by (rewrite E2; etrans; [exact Hk|apply io_keep_in]).
    destruct (Z.ltb_spec 0 (Z.of_nat (length data))) as [Hpos|Hz].
    + kstep. eapply (wp_write _ _ _ (out ++ dn)); [by rewrite E2|]. intros w3 E3. rewrite Z.eqb_refl. cbn [negb]. kstep. exists rest'.
      split; [|rewrite length_app; lia]. exists (dn ++ data). split_and!.
      * by rewrite app_assoc.
      * rewrite E3. simpl. by rewrite lookup_insert_eq, app_assoc.
      * rewrite E3, E2. simpl. by rewrite lookup_insert_eq.
      * rewrite E3. etrans; [exact Hk2|apply io_keep_out].
    + assert (data = []) as -> by (destruct data; [done|simpl in *; lia]). assert (rest' = []) as -> by (destruct rest'; [done|by destruct (Hne ltac:(lia))]).
      kstep. split; [done|]. split_and!; [|rewrite E2; simpl; by rewrite lookup_insert_eq|done]. rewrite E2. simpl. by rewrite app_nil_r.
  - intros. lia.
  - exists []. rewrite app_nil_r. by split_and!.
  - unfold budget. lia.
Qed.

Lemma cat_files_ok files ls buf w out : io_out (ios w) !! 1 = Some out ->
  Forall2 (fun f l => Z.of_nat (length l) < 2 ^ 39 /\ io_file (ios w) !! f = Some l) files ls ->
  wp (cat_files files buf w) (fun _ w' => io_out (ios w') !! 1 = Some (out ++ concat ls)).
Proof.
  intros Hout Hf. revert buf w out Hout Hf. revert ls.
  induction files as [|f files IH]; intros ls buf w out Hout Hf; inversion Hf as [|? l ? ls' [Hlen Ef] Hls]; subst; cbn [cat_files].
  { kstep. simpl. by rewrite app_nil_r. }
  kstep. eapply wp_open; [exact Ef|]. intros fd w1 Hfd Hin Ho E1. rewrite (proj2 (Z.ltb_ge fd 0)) by done. kstep.
  eapply wp_mono; [|apply (cat_ok fd l out buf w1); [rewrite E1; simpl; by rewrite lookup_insert_eq|by rewrite E1|done]].
  intros buf2 w2 (Ho2 & Hi2 & [K1 K2 K3 K4]). kstep. eapply wp_close; [exact Hi2|]. intros r w3 E3.
  cbn [concat]. rewrite app_assoc. apply IH; [by rewrite E3|].
  eapply Forall2_impl; [exact Hls|]. intros f' l' [Hl' Ef']. split; [done|]. rewrite E3. simpl. by rewrite K3, E1.
Qed.

(** cat writes the files it is given to its standard output, one after the other and in whatever pieces read() gives
    them, and exits with status 0. *)
Theorem cat_main_copies name f files ls w out : io_out (ios w) !! 1 = Some out ->
  Forall2 (fun f l => Z.of_nat (length l) < 2 ^ 39 /\ io_file (ios w) !! f = Some l) (f :: files) ls ->
  uwp (cat_main (name :: f :: files) w) (fun _ _ => False) (fun w' =>
    io_out (ios w') !! 1 = Some (out ++ concat ls) /\ io_status (ios w') = Some 0).
Proof.
  intros Hout Hf. unfold cat_main. apply uwp_bind, uwp_wp. eapply wp_mono; [|by eapply cat_files_ok].
  intros [] w' Ho. apply uwp_exit. by rewrite exit_spec.
Qed.

(** ** wc *)
(** The words of a text. *)
Fixpoint words_n (n : nat) (s : list Z) : list (list Z) :=
  match n with
  | O => []
  | S n =>
      let s := dropwhile blank s in
      match s with
      | [] => []
      | _ => takewhile (fun c => negb (blank c)) s :: words_n n (dropwhile (fun c => negb (blank c)) s)
      end
  end.
Definition words (s : list Z) : list (list Z) := words_n (length s) s.
Definition newlines (s : list Z) : list Z := filter (fun c => c = 10) s.

(** The beginnings of words, [inword] telling whether there was one just before. *)
Fixpoint starts (inword : bool) (s : list Z) : Z :=
  match s with
  | [] => 0
  | b :: s => (if blank b || inword then 0 else 1) + starts (negb (blank b)) s
  end.

Lemma starts_range inword s : 0 <= starts inword s <= Z.of_nat (length s).
Proof. revert inword. induction s as [|b s IH]; intros inword; cbn [starts length]; [lia|]. specialize (IH (negb (blank b))). destruct (_ || _); lia. Qed.

Lemma starts_blank s : starts false (dropwhile blank s) = starts false s.
Proof. induction s as [|b s IH]; [done|]. cbn [dropwhile starts]. destruct (blank b) eqn:E; [by rewrite IH|]. simpl. by rewrite E. Qed.

Lemma starts_word s : starts true s = starts false (dropwhile (fun c => negb (blank c)) s).
Proof. induction s as [|b s IH]; [done|]. cbn [dropwhile starts]. destruct (blank b) eqn:E; cbn [negb orb]; [simpl; by rewrite E|]. by rewrite IH. Qed.

Lemma starts_words n s : (length s <= n)%nat -> starts false s = Z.of_nat (length (words_n n s)).
Proof.
  revert s. induction n as [|n IH]; intros s Hn; [destruct s; [done|simpl in Hn; lia]|]. cbn [words_n]. rewrite <- starts_blank.
  pose proof (dropwhile_length blank s) as Hd. destruct (dropwhile blank s) as [|b r] eqn:Eb; [done|]. apply dropwhile_head in Eb.
  cbn [length starts]. rewrite Eb. cbn [orb negb]. rewrite starts_word. cbn [dropwhile]. rewrite Eb. cbn [negb].
  pose proof (dropwhile_length (fun c => negb (blank c)) r). cbn [length] in Hd. rewrite Nat2Z.inj_succ, <- IH by lia. lia.
Qed.

Lemma newlines_cons b s : Z.of_nat (length (newlines (b :: s))) = (if b =? 10 then 1 else 0) + Z.of_nat (length (newlines s)).
Proof.
  unfold newlines. rewrite filter_cons. destruct (Z.eqb_spec b 10) as [->|Hne]; [rewrite decide_True by done|rewrite decide_False by done]; simpl; lia.
Qed.

Lemma wc_count s l w c inword : 0 <= l <= c -> 0 <= w <= c -> c + Z.of_nat (length s) < 2 ^ 31 ->
  exists inword', fold_left wc_char s (l, w, c, inword) =
    (l + Z.of_nat (length (newlines s)), w + starts inword s, c + Z.of_nat (length s), inword').
Proof.
  revert l w c inword. induction s as [|b s IH]; intros l w c inword Hl Hw Hc.
  { exists inword. simpl. by rewrite !Z.add_0_r. }
  rewrite newlines_cons. cbn [fold_left wc_char starts length] in *. rewrite (s32_id (c + 1)) by lia.
  assert ((if b =? 10 then s32 (l + 1) else l) = l + (if b =? 10 then 1 else 0)) as -> by (destruct (b =? 10); [rewrite s32_id; lia|lia]).
  set (nl := if b =? 10 then 1 else 0). assert (0 <= nl <= 1) as Hnl by (unfold nl; destruct (b =? 10); lia). clearbody nl.
  destruct (blank b) eqn:Eb; [|destruct inword]; cbn [negb orb].
  - destruct (IH (l + nl) w (c + 1) false) as [iw ->]; try lia. exists iw. apply (f_equal3 (fun a b c => (a, b, c, iw))); lia.
  - destruct (IH (l + nl) w (c + 1) true) as [iw ->]; try lia. exists iw. apply (f_equal3 (fun a b c => (a, b, c, iw))); lia.
  - rewrite s32_id by lia. destruct (IH (l + nl) (w + 1) (c + 1) true) as [iw ->]; try lia. exists iw. apply (f_equal3 (fun a b c => (a, b, c, iw))); lia.
Qed.

(** The line wc prints about a text. *)
Definition wc_line (name text : list Z) : list Z :=
  dec (Z.of_nat (length (newlines text))) ++ [32] ++ dec (Z.of_nat (length (words text))) ++ [32] ++
  dec (Z.of_nat (length text)) ++ [32] ++ name ++ [10].

Lemma wc_rendered l w c name : Forall is_byte name -> 0 ∉ name ->
  rendered (str "%d %d %d %s" ++ [10]) [UInt l; UInt w; UInt c; UStr (Some name)] false = dec l ++ [32] ++ dec w ++ [32] ++ dec c ++ [32] ++ name ++ [10].
Proof.
  intros Hb Hz. assert (map u8 (cut name) = name) as En.
  { rewrite cut_id by done. rewrite <- (map_id name) at 2. apply map_ext_in. intros b Hin. apply u8_id. by apply (proj1 (Forall_forall _ _) Hb), list_elem_of_In. }
  change (str "%d %d %d %s" ++ [10]) with [37; 100; 32; 37; 100; 32; 37; 100; 32; 37; 115; 10]. cbn -[dec u8 cut]. by rewrite En.
Qed.

Lemma printf_out fmt args w old (Q : unit -> W -> Prop) : io_out (ios w) !! 1 = Some old -> fmt_ok fmt args false = true ->
  (forall w', ios w' = set_out 1 (old ++ rendered fmt args false) (ios w) -> Q tt w') -> wp (printf fmt args w) Q.
Proof.
  intros Ho Hok HQ. eapply wp_mono; [|apply (vprintf_prints 1 (ios w) fmt args false [] w Hok); by eapply wrote_start].
  intros [] w' (old' & Ho' & E). apply HQ. by replace old with old' by congruence.
Qed.

Lemma wc_ok fd name l out buf w : io_in (ios w) !! fd = Some l -> io_out (ios w) !! 1 = Some out -> Z.of_nat (length l) < 2 ^ 31 ->
  Forall is_byte name -> 0 ∉ name -> wp (wc fd name buf w) (fun _ w' => filtered fd w (out ++ wc_line name l) w').
Proof.
  intros Hin Hout Hlen Hname Hz. unfold wc. kstep.
  eapply (wp_mono _ (fun x w' => x.1.1 = 0 /\ x.1.2 = fold_left wc_char l (0, 0, 0, false) /\ filtered fd w out w')).
  { intros [[n st] b] w' (E & Est & Ho & Hi & Hk). cbn [fst snd] in E, Est. subst n st. cbv beta iota.
    destruct (wc_count l 0 0 0 false) as [iw ->]; [lia..|]. cbn [Z.ltb Z.compare]. kstep.
    eapply printf_out; [exact Ho|done|]. intros w2 E2. kstep. rewrite wc_rendered in E2 by done. rewrite (starts_words _ l (le_n _)) in E2.
    split_and!; rewrite E2; simpl; [by rewrite lookup_insert_eq|done|]. etrans; [exact Hk|apply io_keep_out]. }
  apply (wp_while_ghost _ (fun rest x w' => exists dn, l = dn ++ rest /\ x.1 = fold_left wc_char dn (0, 0, 0, false) /\ io_out (ios w') !! 1 = Some out /\
    io_in (ios w') !! fd = Some rest /\ io_keep fd (ios w) (ios w')) (fun rest => Z.of_nat (length rest)) _) with (g := l).
  - intros rest [st b] w1 (dn & -> & Est & Ho & Hi & Hk). simpl in Est. subst st. cbv beta iota. kstep. eapply wp_read; [exact Hi|lia|].
    intros data rest' w2 -> Hd Hne E2. cbv beta iota. rewrite take_read.
    assert (io_keep fd (ios w) (ios w2)) as Hk2 by (rewrite E2; etrans; [exact Hk|apply io_keep_in]).
    destruct (Z.ltb_spec 0 (Z.of_nat (length data))) as [Hpos|Hz0]; kstep.
    + exists rest'. split; [|rewrite length_app; lia]. exists (dn ++ data). rewrite fold_left_app.
      split_and!; [by rewrite app_assoc|done|by rewrite E2|rewrite E2; simpl; by rewrite lookup_insert_eq|done].
    + assert (data = []) as -> by (destruct data; [done|simpl in *; lia]). assert (rest' = []) as -> by (destruct rest'; [done|by destruct (Hne ltac:(lia))]).
      cbn [fst snd]. simpl app. rewrite app_nil_r. unfold filtered. split_and!; [done|done|by rewrite E2|rewrite E2; simpl; by rewrite lookup_insert_eq|done].
  - intros. lia.
  - exists []. by split_and!.
  - unfold budget. lia.
Qed.

Lemma wc_files_ok files ls buf w out : io_out (ios w) !! 1 = Some out ->
  Forall2 (fun f l => (Forall is_byte f /\ 0 ∉ f) /\ Z.of_nat (length l) < 2 ^ 31 /\ io_file (ios w) !! f = Some l) files ls ->
  wp (wc_files files buf w) (fun _ w' => io_out (ios w') !! 1 = Some (out ++ concat (zip_with wc_line files ls))).
Proof.
  intros Hout Hf. revert buf w out Hout Hf. revert ls.
  induction files as [|f files IH]; intros ls buf w out Hout Hf; inversion Hf as [|? l ? ls' ([Hf1 Hf2] & Hlen & Ef) Hls]; subst; cbn [wc_files].
  { kstep. simpl. by rewrite app_nil_r. }
  kstep. eapply wp_open; [exact Ef|]. intros fd w1 Hfd Hin Ho E1. rewrite (proj2 (Z.ltb_ge fd 0)) by done. kstep.
  eapply wp_mono; [|apply (wc_ok fd f l out buf w1); [rewrite E1; simpl; by rewrite lookup_insert_eq|by rewrite E1|done..]].
  intros buf2 w2 (Ho2 & Hi2 & [K1 K2 K3 K4]). kstep. eapply wp_close; [exact Hi2|]. intros r w3 E3.
  cbn [zip_with concat]. rewrite app_assoc. apply IH; [by rewrite E3|].
  eapply Forall2_impl; [exact Hls|]. intros f' l' (Hf' & Hl' & Ef'). split_and!; [apply Hf'..|done|]. rewrite E3. simpl. by rewrite K3, E1.
Qed.

(** C17. wc prints for each of its files a line with the number of its newlines, of its words (maximal sequences of characters
    that are not blank) and of its bytes, in decimal, and the name, and exits with status 0. *)
Theorem wc_main_counts name f files ls w out : io_out (ios w) !! 1 = Some out ->
  Forall2 (fun f l => (Forall is_byte f /\ 0 ∉ f) /\ Z.of_nat (length l) < 2 ^ 31 /\ io_file (ios w) !! f = Some l) (f :: files) ls ->
  uwp (wc_main (name :: f :: files) w) (fun _ _ => False) (fun w' =>
    io_out (ios w') !! 1 = Some (out ++ concat (zip_with wc_line (f :: files) ls)) /\ io_status (ios w') = Some 0).
Proof.
  intros Hout Hf. unfold wc_main. apply uwp_bind, uwp_wp. eapply wp_mono; [|by eapply wc_files_ok].
  intros [] w' Ho. apply uwp_exit. by rewrite exit_spec.
Qed.
End theorems.

(** ** The names ls prints *)
Lemma last_slash_ok path n : let k := last_slash path n in (k <= S n)%nat /\
  (forall i, (k <= i <= n)%nat -> nth i path 0 <> 47) /\ (k = O \/ nth (k - 1) path 0 = 47).
Proof.
  induction n as [|n IH]; cbn [last_slash].
  - destruct (Z.eqb_spec (nth 0 path 0) 47) as [E|E]; (split; [lia|]).
    + split; [lia|by right].
    + split; [|by left]. intros i Hi. by replace i with O by lia.
  - destruct (Z.eqb_spec (nth (S n) path 0) 47) as [E|E].
    + split_and!; [lia|lia|]. right. by replace (S (S n) - 1)%nat with (S n) by lia.
    + destruct IH as (H1 & H2 & H3). split_and!; [lia| |done]. intros i Hi. destruct (decide (i = S n)) as [->|]; [done|]. apply H2. lia.
Qed.

Lemma memset_all dst c n : (n <= length dst)%nat -> memset dst c n = Some (replicate n (u8 c) ++ drop n dst).
Proof.
  revert dst. induction n as [|n IH]; intros dst Hn; [by destruct dst|]. destruct dst as [|b dst]; [simpl in Hn; lia|].
  cbn [memset]. rewrite IH by (simpl in Hn; lia). done.
Qed.

(** What fmtname() leaves in its static buffer ends in a NUL. *)
Definition sbuf_ok (sbuf : list Z) : Prop := length sbuf = 15%nat /\ drop 14 sbuf = [0].

Lemma padded base sbuf : sbuf_ok sbuf -> Z.of_nat (length base) < DIRSIZ ->
  take (length base) (take (length base) base ++ drop (length base) sbuf) ++
  default [] (memset (drop (length base) (take (length base) base ++ drop (length base) sbuf)) 32 (Z.to_nat (DIRSIZ - Z.of_nat (length base)))) =
  base ++ replicate (Z.to_nat DIRSIZ - length base) 32 ++ [0].
Proof.
  intros [Hs1 Hs2] Hlt. unfold DIRSIZ in *. rewrite (take_ge base), take_app_length, drop_app_length, memset_all by (rewrite ?length_drop; lia). cbn [default].
  replace (Z.to_nat (14 - Z.of_nat (length base))) with (14 - length base)%nat by lia. change (Z.to_nat 14) with 14%nat.
  rewrite drop_drop. by replace (length base + (14 - length base))%nat with 14%nat by lia; rewrite Hs2.
Qed.

(** ls's fmtname() returns the last component of a path, padded with blanks to DIRSIZ characters when it is shorter. *)
Theorem fmtname_pads path sbuf : 0 ∉ path -> Z.of_nat (length path) < 2 ^ 31 -> sbuf_ok sbuf ->
  exists pre base, path = pre ++ base /\ 47 ∉ base /\ (pre = [] \/ exists pre', pre = pre' ++ [47]) /\
    cut (fmtname path sbuf).1 = base ++ replicate (Z.to_nat DIRSIZ - length base) 32 /\ sbuf_ok (fmtname path sbuf).2.
Proof.
  intros Hz Hlen Hs. unfold fmtname. rewrite (strlen_cut path), (cut_id path), Nat2Z.id by done.
  destruct (last_slash_ok path (length path)) as (H1 & H2 & H3). set (k := last_slash path (length path)) in *. clearbody k.
  assert (k <= length path)%nat as Hk by (destruct (decide (k = S (length path))) as [->|]; [|lia]; destruct H3 as [|H3]; [done|]; rewrite nth_overflow in H3 by lia; done).
  exists (take k path), (drop k path). assert (0 ∉ drop k path) as Hz' by (intros H; apply Hz; rewrite <- (take_drop k path); apply elem_of_app; by right).
  assert (length (drop k path) = (length path - k)%nat) as Hd by apply length_drop.
  rewrite (strlen_cut (drop k path)), (cut_id (drop k path)) by (done || lia).
  split_and!; [by rewrite take_drop| | | |].
  - intros H. apply list_elem_of_lookup in H as [i Hi]. rewrite lookup_drop in Hi. pose proof (lookup_lt_Some _ _ _ Hi).
    apply (H2 (k + i)%nat); [lia|]. by apply nth_lookup_Some.
  - destruct H3 as [->|H3]; [by left|]. destruct k as [|k]; [by left|]. right. exists (take k path). replace (S k - 1)%nat with k in H3 by lia.
    apply take_S_r. destruct (nth_lookup_or_length path k 0) as [E|]; [by rewrite E, H3|lia].
  - rewrite Nat2Z.id. destruct (Z.leb_spec DIRSIZ (Z.of_nat (length (drop k path)))) as [Hge|Hlt]; cbn [fst].
    + unfold DIRSIZ in *. replace (Z.to_nat 14 - _)%nat with O by lia. by rewrite cut_id, app_nil_r.
    + rewrite padded by done. rewrite app_assoc. apply cut_app_nul. intros H. apply elem_of_app in H as [H|H]; [done|]. by apply elem_of_replicate in H as [H _].
  - rewrite Nat2Z.id. destruct (Z.leb_spec DIRSIZ (Z.of_nat (length (drop k path)))) as [Hge|Hlt]; cbn [snd]; [done|].
    rewrite padded by done. unfold DIRSIZ in *. change (Z.to_nat 14) with 14%nat.
    split; [rewrite !length_app, length_replicate; simpl; lia|]. rewrite app_assoc. apply drop_app_length'. rewrite length_app, length_replicate. lia.
Qed.

(** ** init *)
Section init.
Context {W : Type} `{OS : !Os W} `{FD : !OsFd W}.
Notation con := (ObjFile (str "console") O_RDWR).

(** The console can be opened, if need be after init made it with mknod(). *)
Definition console_opens (w : W) : bool :=
  let (r, w1) := os_open (str "console") O_RDWR w in
  if r <? 0 then negb ((os_open (str "console") O_RDWR (os_mknod (str "console") CONSOLE 0 w1).2).1 <? 0) else true.

(** The descriptors init gives the shell: three for the console, or none if the console can not be opened. *)
Definition three : table := {[0 := con; 1 := con; 2 := con]}.
Definition sh_fds (w : W) : table := if console_opens w then three else ∅.

Lemma uwp_dup_bad fd D w (Q : Z -> W -> Prop) X : has D w -> D !! fd = None -> (forall r w', has D w' -> Q r w') -> uwp (dup fd w) Q X.
Proof.
  intros [<- He] Hn HQ. unfold dup, syscall. pose proof (fd_dup_bad fd w Hn) as H. destruct (os_dup fd w) as [r w']. destruct H as [H1 H2].
  apply HQ. split; [done|]. simpl in *. congruence.
Qed.

Lemma lowest_zero r : lowest ∅ r -> r = 0.
Proof. intros (H0 & _ & H). destruct (decide (r = 0)); [done|]. destruct (H 0 ltac:(lia)) as [? Hl]. by rewrite lookup_empty in Hl. Qed.

Lemma dup_console w (Q : unit -> W -> Prop) X : has {[0 := con]} w -> (forall w', has three w' -> Q tt w') -> uwp ((dup 0;; dup 0;; ret tt) w) Q X.
Proof.
  intros Hw HQ. apply uwp_bind. eapply (uwp_dup 0 con 1); [exact Hw|done| |lia|].
  { split_and!; [lia|done|]. intros x Hx. replace x with 0 by lia. by eexists. }
  intros _ w1 Hw1. apply uwp_bind. eapply (uwp_dup 0 con 2); [exact Hw1|done| |lia|].
  { split_and!; [lia|done|]. intros x Hx. destruct (decide (x = 0)) as [->|]; [by eexists|]. replace x with 1 by lia. by eexists. }
  intros _ w2 Hw2. apply HQ. replace three with (<[2 := con]> (<[1 := con]> {[0 := con]}) : table); [done|]. by vm_compute.
Qed.

Lemma dup_nothing w (Q : unit -> W -> Prop) X : has ∅ w -> (forall w', has ∅ w' -> Q tt w') -> uwp ((dup 0;; dup 0;; ret tt) w) Q X.
Proof.
  intros Hw HQ. apply uwp_bind. eapply uwp_dup_bad; [exact Hw|done|]. intros _ w1 Hw1. apply uwp_bind. eapply uwp_dup_bad; [exact Hw1|done|].
  intros _ w2 Hw2. by apply HQ.
Qed.

(** An open() of the console without descriptors: it fails, or gives descriptor 0. *)
Lemma open_console w : has ∅ w -> let (r, w') := os_open (str "console") O_RDWR w in
  if r <? 0 then has ∅ w' else r = 0 /\ has {[0 := con]} w'.
Proof.
  intros [Hf He]. pose proof (fd_open (str "console") O_RDWR w) as H. destruct (os_open _ _ w) as [r w']. destruct H as [H1 [[Hr H2]|[Hr H2]]].
  - rewrite (proj2 (Z.ltb_lt r 0)) by done. split; congruence.
  - rewrite Hf in Hr, H2. pose proof (lowest_zero r Hr) as ->. cbn [Z.ltb Z.compare]. split; [done|]. split; [done|congruence].
Qed.

Lemma init_console_ok w (Q : unit -> W -> Prop) X : has ∅ w -> (forall w', has (sh_fds w) w' -> Q tt w') -> uwp (init_console w) Q X.
Proof.
  intros Hw HQ. unfold sh_fds, console_opens in HQ. unfold init_console, open, mknod, syscall. apply uwp_bind. pose proof (open_console w Hw) as H1.
  destruct (os_open _ _ w) as [r w1]. cbn [uwp]. destruct (r <? 0) eqn:Er.
  - pose proof (fd_mknod (str "console") CONSOLE 0 w1) as H2. apply uwp_bind, uwp_bind. destruct (os_mknod _ _ _ w1) as [r2 w2]. cbn [uwp snd] in *.
    assert (has ∅ w2) as Hw2 by (destruct H1, H2; split; congruence). pose proof (open_console w2 Hw2) as H3. apply uwp_bind.
    destruct (os_open _ _ w2) as [r3 w3]. cbn [uwp fst] in *. destruct (r3 <? 0); cbn [negb] in HQ.
    + by apply dup_nothing.
    + apply dup_console; [apply H3|done].
  - apply uwp_bind. cbn [uwp ret]. apply dup_console; [apply H1|done].
Qed.

(** How a process of init ends: it executes sh with the descriptors [D]; or without executing anything, because a fork(), an exec()
    or a wait() failed. *)
Definition sh_started (D : table) (w : W) : Prop :=
  execd w = Some ([str "sh"], D) \/
  execd w = None /\ exists w1, fds w1 = D /\
    ((os_fork w1).1 < 0 \/ (exists r, (os_exec (str "sh") [str "sh"] w1).1 = Some r) \/ (os_wait w1).1.1 < 0).

Lemma printf_has fmt D w (Q : unit -> W -> Prop) X : fmt_ok fmt [] false = true -> has D w -> (forall w', has D w' -> uwp (ret tt w') Q X) -> uwp (printf fmt [] w) Q X.
Proof.
  intros Hok Hw HQ. apply uwp_wp. eapply wp_mono; [|apply (vprintf_inv (has D) 1); [intros; by apply has_write|exact Hok|exact Hw]]. intros [] w' Hw'. by apply HQ.
Qed.

(** A message, and the end of init. *)
Lemma printf_exit {A} fmt D st w w1 (Q : A -> W -> Prop) : fmt_ok fmt [] false = true -> has D w -> fds w1 = D ->
  (os_fork w1).1 < 0 \/ (exists r, (os_exec (str "sh") [str "sh"] w1).1 = Some r) \/ (os_wait w1).1.1 < 0 ->
  upart ((printf fmt [];; exit st) w) Q (sh_started D).
Proof.
  intros Hok Hw H1 Hf. apply uwp_upart, uwp_bind. eapply printf_has; [exact Hok|exact Hw|]. intros w' Hw'. apply uwp_exit. right.
  split; [by eapply has_exit|by exists w1].
Qed.

Lemma init_round_ok D w : has D w -> upart (init_round w) (fun _ w' => has D w') (sh_started D).
Proof.
  intros Hw. unfold init_round. apply upart_bind, uwp_upart. eapply printf_has; [done|exact Hw|]. intros w1 Hw1. cbn [uwp ret].
  apply upart_bind. unfold fork, syscall. destruct Hw1 as [<- He]. pose proof (fd_fork w1) as H. destruct (os_fork w1) as [pid w2] eqn:Ef. destruct H as [H1 H2]. simpl in H1, H2.
  right. cbn [uwp]. assert (has (fds w1) w2) as Hw2 by (split; [done|congruence]). destruct (Z.ltb_spec pid 0).
  { apply (printf_exit _ _ _ _ w1); [done|done|done|]. left. by rewrite Ef. }
  destruct (pid =? 0).
  - apply upart_bind. unfold exec. pose proof (fd_exec (str "sh") [str "sh"] w2) as H3. destruct (os_exec _ _ w2) as [[r|] w3] eqn:Ex; right.
    + destruct H3 as [H3 H4]. apply (printf_exit _ _ _ _ w2); [done|destruct Hw2; split; congruence|done|]. right. left. exists r. by rewrite Ex.
    + split; [done|]. left. rewrite H3. by rewrite H1.
  - apply (upart_while _ (fun _ w' => has (fds w1) w')); [|exact Hw2]. intros [] w3 Hw3. apply upart_bind, uwp_upart. unfold wait, syscall.
    pose proof (fd_wait w3) as H3. destruct (os_wait w3) as [r w4] eqn:Ew. destruct H3 as [H3 H4]. cbn [uwp fst snd] in *.
    assert (has (fds w1) w4) as Hw4 by (destruct Hw3; split; congruence). destruct (r.1 =? pid); [by right|]. destruct (Z.ltb_spec r.1 0); [|by right].
    apply (printf_exit _ _ _ _ w3); [done|done|apply Hw3|]. right. right. by rewrite Ew.
Qed.

(** C18. init, started with no descriptors: however long it runs and whatever its children do, the only program its processes execute
    is sh, and exactly with descriptors 0, 1 and 2 open on the console; or with none, in the one case that open() of the console fails,
    and fails again after mknod().  A process of init ends without executing sh only when a fork(), exec() or wait() failed; and init
    never returns. *)
Theorem init_starts_sh w : fds w = ∅ -> execd w = None -> upart (init_main w) (fun _ _ => False) (sh_started (sh_fds w)).
Proof.
  intros Hf He. unfold init_main. apply upart_bind, uwp_upart. apply init_console_ok; [by split|]. intros w1 Hw1.
  apply (upart_while _ (fun _ w' => has (sh_fds w) w')); [|exact Hw1]. intros [] w2 Hw2. apply upart_bind.
  eapply upart_weaken; [done|by apply init_round_ok|]. intros [] w3 Hw3. by right.
Qed.
End init.

(** ** Examples *)
Definition two_files : io := mkIo ∅ {[1 := []]} {[str "a" := str "one two" ++ [10]; str "b" := str "three"]} None.

Lemma cat_main_copies_witness : uwp (cat_main [str "cat"; str "a"; str "b"] two_files) (fun _ _ => False) (fun w' =>
  io_out (ios w') !! 1 = Some (str "one two" ++ [10] ++ str "three") /\ io_status (ios w') = Some 0).
Proof.
  apply (cat_main_copies (str "cat") (str "a") [str "b"] [str "one two" ++ [10]; str "three"] two_files []); [reflexivity|].
  repeat constructor; vm_compute; reflexivity.
Defined.

Lemma wc_main_counts_witness : uwp (wc_main [str "wc"; str "a"; str "b"] two_files) (fun _ _ => False) (fun w' =>
  io_out (ios w') !! 1 = Some (str "1 2 8 a" ++ [10] ++ str "0 1 5 b" ++ [10]) /\ io_status (ios w') = Some 0).
Proof.
  assert (str "1 2 8 a" ++ [10] ++ str "0 1 5 b" ++ [10] = [] ++ concat (zip_with wc_line [str "a"; str "b"] [str "one two" ++ [10]; str "three"])) as ->
    by (vm_compute; reflexivity).
  apply (wc_main_counts (str "wc") (str "a") [str "b"] [str "one two" ++ [10]; str "three"] two_files []); [reflexivity|].
  assert (forall c, 0 < c < 256 -> Forall is_byte [c] /\ 0 ∉ [c]) as Hn
    by (intros c Hc; split; [apply Forall_singleton; unfold is_byte; lia|intros H; apply list_elem_of_singleton in H; lia]).
  apply Forall2_cons_2; [split; [apply (Hn 97); lia|split; vm_compute; reflexivity]|].
  apply Forall2_cons_2; [split; [apply (Hn 98); lia|split; vm_compute; reflexivity]|apply Forall2_nil_2].
Defined.

Lemma fmtname_pads_witness : cut (fmtname (str "/usr/bin/ls") (replicate 15 0)).1 = str "ls            " /\
  exists pre base, str "/usr/bin/ls" = pre ++ base /\ 47 ∉ base /\ cut (fmtname (str "/usr/bin/ls") (replicate 15 0)).1 = base ++ replicate (14 - length base) 32.
Proof.
  split; [vm_compute; reflexivity|]. destruct (fmtname_pads (str "/usr/bin/ls") (replicate 15 0)) as (pre & base & H1 & H2 & _ & H3 & _).
  - refine (bool_decide_unpack _ _). vm_compute. exact I.
  - vm_compute. reflexivity.
  - split; reflexivity.
  - exists pre, base. split; [exact H1|]. split; [exact H2|exact H3].
Defined.

Lemma init_starts_sh_witness : sh_fds (mkToy ∅ None [true]) = three /\ upart (init_main (mkToy ∅ None [true])) (fun _ _ => False) (sh_started three).
Proof.
  assert (sh_fds (mkToy ∅ None [true]) = three) as E by reflexivity. split; [exact E|]. rewrite <- E. apply (init_starts_sh (mkToy ∅ None [true])); reflexivity.
Defined.
