(* ===== verification/Mkfs.v ===== *)
(** * mkfs (mkfs/mkfs.c)

    The host program that makes the file system image the kernel starts from.  The
    image is a regular file on the host, a list of blocks; lseek, and reads and
    writes inside it, succeed, and a read beyond its end makes mkfs exit.  An input
    file is the sequence of pieces read() gives of it, or [None] when it cannot be
    opened.  Structures are kept as values and stored in the byte order of xshort()
    and xint().  The theorem shows that the image is a file system as the kernel's
    theorems want it, which holds exactly the files given. *)
From S2P Require Import Prelude Machine KString Spinlock Kalloc Vm UserMem Block Env Log Txn Fs FsBlock FsFile FsInode FsPath FsDir FsSpec.
Local Open Scope Z_scope.
Local Open Scope kernel_scope.

Definition NINODES : Z := 200.

(** convert to intel byte order: the value whose bytes in memory are [a]. *)
Definition xshort (x : Z) : Z := le_decode [u8 x; u8 (Z.shiftr x 8)].
Definition xint (x : Z) : Z := le_decode [u8 x; u8 (Z.shiftr x 8); u8 (Z.shiftr x 16); u8 (Z.shiftr x 24)].

Definition nbitmap : Z := FSSIZE / (BSIZE * 8) + 1.
Definition ninodeblocks : Z := NINODES / IPB + 1.
Definition mk_nlog : Z := LOGSIZE.
Definition nmeta : Z := 2 + mk_nlog + ninodeblocks + nbitmap.
Definition nblocks : Z := FSSIZE - nmeta.
Definition mk_sb : superblock :=
  mkSb FSMAGIC (xint FSSIZE) (xint nblocks) (xint NINODES) (mkSbLog (xint 2) (xint mk_nlog)) (xint (2 + mk_nlog)) (xint (2 + mk_nlog + ninodeblocks)).

(** memmove(buf, &sb, sizeof(sb)) *)
Definition put_sb (d : list Z) (v : superblock) : list Z :=
  let d := put32 d 0 (sb_magic v) in
  let d := put32 d 4 (sb_size v) in
  let d := put32 d 8 (sb_nblocks v) in
  let d := put32 d 12 (sb_ninodes v) in
  let d := put32 d 16 (sb_nlog (sb_logpart v)) in
  let d := put32 d 20 (sb_logstart (sb_logpart v)) in
  let d := put32 d 24 (sb_inodestart v) in
  put32 d 28 (sb_bmapstart v).

Record mkfs := mkMkfs { mk_img : list (list Z); freeinode : Z; freeblock : Z }.
Definition set_img (l : list (list Z)) (s : mkfs) : mkfs := mkMkfs l (freeinode s) (freeblock s).

(** freeblock++ *)
Definition take_block : K mkfs Z := fun s => Done (freeblock s) (mkMkfs (mk_img s) (freeinode s) (u32 (freeblock s + 1))).

(** The block at offset [sec * BSIZE], an unsigned int. *)
Definition sect (sec : Z) : nat := Z.to_nat (u32 (sec * BSIZE) / BSIZE).
Definition wsect (sec : Z) (buf : list Z) : K mkfs unit := modify (fun s =>
  let n := sect sec in
  set_img (if (n <? length (mk_img s))%nat then <[n := buf]> (mk_img s)
           else mk_img s ++ replicate (n - length (mk_img s)) zero_block ++ [buf]) s).
Definition rsect (sec : Z) : K mkfs (list Z) := fun s =>
  match mk_img s !! sect sec with
  | Some buf => Done buf s
  | None => Panic "exit"
  end.

Definition winode (inum : Z) (ip : dinode) : K mkfs unit :=
  let bn := IBLOCK inum mk_sb in
  buf <- rsect bn;;
  wsect bn (put_dinode buf (Z.to_nat (inum mod IPB)) ip).
Definition rinode (inum : Z) : K mkfs dinode :=
  let bn := IBLOCK inum mk_sb in
  buf <- rsect bn;;
  ret (get_dinode buf (Z.to_nat (inum mod IPB))).

Definition mkfs_ialloc (type : Z) : K mkfs Z :=
  inum <- gets freeinode;;
  modify (fun s => mkMkfs (mk_img s) (u32 (freeinode s + 1)) (freeblock s));;
  winode inum (mkDi (xshort type) 0 0 (xshort 1) (xint 0) (replicate 13 0));;
  ret inum.

Definition mkfs_balloc (nused : Z) : K mkfs unit :=
  if negb (nused <? BSIZE * 8) then panic "assert" else
  let buf := fold_left set_bit (seqZ 0 nused) zero_block in
  wsect (sb_bmapstart mk_sb) buf.

(** The number of block [fbn] of the file, allocated if need be. *)
Definition iappend_block (din : dinode) (fbn : Z) : K mkfs (dinode * Z) :=
  if fbn <? NDIRECT then
    din <- (if xint (addr_at din fbn) =? 0 then
              b <- take_block;;
              ret (set_di_addr (Z.to_nat fbn) (xint b) din)
            else ret din);;
    ret (din, xint (addr_at din fbn))
  else
    din <- (if xint (addr_at din NDIRECT) =? 0 then
              b <- take_block;;
              ret (set_di_addr (Z.to_nat NDIRECT) (xint b) din)
            else ret din);;
    let ind := xint (addr_at din NDIRECT) in
    let o := Z.to_nat (4 * (fbn - NDIRECT)) in
    indirect <- rsect ind;;
    indirect <- (if get32 indirect o =? 0 then
                   b <- take_block;;
                   let indirect := put32 indirect o (xint b) in
                   wsect ind indirect;;
                   ret indirect
                 else ret indirect);;
    ret (din, xint (get32 indirect o)).

(** A round of the loop: what is still to be appended, the offset and the inode. *)
Definition iappend_round (q : list Z * Z * dinode) : K mkfs (list Z * Z * dinode + Z * dinode) :=
  let '(p, off, din) := q in
  let n := Z.of_nat (length p) in
  if negb (0 <? n) then ret (inr (off, din)) else
  let fbn := off / BSIZE in
  if negb (fbn <? MAXFILE) then panic "assert" else
  r <- iappend_block din fbn;;
  let '(din, x) := r in
  let n1 := Z.min n ((fbn + 1) * BSIZE - off) in
  buf <- rsect x;;
  wsect x (splice buf (Z.to_nat (off - fbn * BSIZE)) (take (Z.to_nat n1) p));;
  ret (inl (drop (Z.to_nat n1) p, u32 (off + n1), din)).

Definition iappend (inum : Z) (xp : list Z) : K mkfs unit :=
  din <- rinode inum;;
  let off := xint (di_size din) in
  r <- while_ budget iappend_round (xp, off, din);;
  let '(off, din) := r in
  winode inum (set_di_size (xint off) din).

(** ** main *)
Record infile := mkIn { in_path : list Z; in_pieces : option (list (list Z)) }.

Definition USER_ : list Z := str "user/".
(** get rid of user/, and skip leading _ in name. *)
Definition strip_user (path : list Z) : list Z := if strncmp_list path USER_ 5 =? 0 then drop 5 path else path.
Definition strip_under (name : list Z) : list Z := if chr name =? 95 then tail name else name.

Definition add_file (rootino : Z) (f : infile) : K mkfs unit :=
  let shortname := strip_user (in_path f) in
  if bool_decide (SLASH ∈ shortname) then panic "assert" else
  match in_pieces f with
  | None => panic "exit"
  | Some pieces =>
      let shortname := strip_under shortname in
      inum <- mkfs_ialloc T_FILE;;
      iappend rootino (mk_dent (xshort inum) shortname);;
      _ <- for_each pieces (fun buf => iappend inum buf;; ret (@None unit));;
      ret tt
  end.

Definition mkfs_main (files : list infile) : K mkfs unit :=
  modify (fun s => mkMkfs (mk_img s) (freeinode s) nmeta);;
  _ <- for_each (seqZ 0 FSSIZE) (fun i => wsect i zero_block;; ret (@None unit));;
  wsect 1 (put_sb zero_block mk_sb);;
  rootino <- mkfs_ialloc T_DIR;;
  if negb (rootino =? ROOTINO) then panic "assert" else
  iappend rootino (mk_dent (xshort rootino) [46]);;
  iappend rootino (mk_dent (xshort rootino) [46; 46]);;
  _ <- for_each files (fun f => add_file rootino f;; ret (@None unit));;
  (* fix size of root inode dir *)
  din <- rinode rootino;;
  let off := xint (di_size din) in
  let off := u32 ((off / BSIZE + 1) * BSIZE) in
  winode rootino (set_di_size (xint off) din);;
  fb <- gets freeblock;;
  mkfs_balloc fb.

(** ** The image as the kernel sees it *)
Lemma mk_sb_eq : mk_sb = mkfs_sb.
Proof. vm_compute. reflexivity. Qed.

Lemma xint_id x : is_u32 x -> xint x = x.
Proof.
  unfold is_u32, xint, u8. intros H. cbn [le_decode]. rewrite !Z.shiftr_div_pow2 by lia.
  change (2 ^ 8) with 256. change (2 ^ 16) with (256 * 256). change (2 ^ 24) with (256 * 256 * 256). rewrite <- !Z.div_div by lia.
  pose proof (Z.div_mod x 256 ltac:(lia)). pose proof (Z.div_mod (x / 256) 256 ltac:(lia)). pose proof (Z.div_mod (x / 256 / 256) 256 ltac:(lia)).
  assert (0 <= x / 256 / 256 / 256 < 256) as Hq.
  { rewrite !Z.div_div by lia. split; [apply Z.div_pos; lia|]. apply Z.div_lt_upper_bound; lia. }
  rewrite (Z.mod_small (x / 256 / 256 / 256)) by lia. lia.
Qed.

Definition Lof (s : mkfs) (b : Z) : list Z := default zero_block (mk_img s !! Z.to_nat b).

(** An image of all its blocks. *)
Definition img_ok (s : mkfs) : Prop := length (mk_img s) = 1000%nat /\ Forall block_ok (mk_img s).
Definition in_img (b : Z) : Prop := 0 <= b < 1000.

Lemma sect_id b : in_img b -> sect b = Z.to_nat b.
Proof. unfold in_img, sect. intros H. rewrite u32_id by (unfold BSIZE; lia). unfold BSIZE. by rewrite Z.div_mul. Qed.

Lemma block_ok_L s b : img_ok s -> block_ok (Lof s b).
Proof.
  intros [_ Hb]. unfold Lof. destruct (mk_img s !! Z.to_nat b) as [d|] eqn:E; [by apply (proj1 (Forall_lookup _ _) Hb _ _ E)|].
  apply zero_block_ok.
Qed.

Lemma rsect_run b s : img_ok s -> in_img b -> rsect b s = Done (Lof s b) s.
Proof.
  intros [Hl _] Hb. unfold rsect, Lof. rewrite sect_id by done. unfold in_img in Hb.
  destruct (lookup_lt_is_Some_2 (mk_img s) (Z.to_nat b)) as [d ->]; [lia|done].
Qed.

Lemma wsect_run b d s : img_ok s -> in_img b -> block_ok d -> exists s', wsect b d s = Done tt s' /\ img_ok s' /\
  (forall c, 0 <= c -> Lof s' c = if decide (c = b) then d else Lof s c) /\ freeinode s' = freeinode s /\ freeblock s' = freeblock s.
Proof.
  intros [Hl Hok] Hb Hd. unfold in_img in Hb. exists (set_img (<[Z.to_nat b := d]> (mk_img s)) s). split.
  { unfold wsect, modify. cbv zeta. by rewrite sect_id, (proj2 (Nat.ltb_lt (Z.to_nat b) _)) by (done || lia). }
  split; [split; cbn [mk_img set_img]; [by rewrite length_insert|by apply Forall_insert]|]. split; [|done].
  intros c Hc. unfold Lof. cbn [mk_img set_img]. case_decide as E.
  - subst. by rewrite list_lookup_insert_eq by lia.
  - by rewrite list_lookup_insert_ne by lia.
Qed.

(** ** A file in the image: its blocks [bl] and its bytes [c], zeros behind them *)
Record repr (L : Z -> list Z) (x : dinode) (bl c : list Z) : Prop := {
  rp_di : dinode_ok x;
  rp_addr : forall k, 0 <= k < MAXFILE -> baddr L x k = default 0 (bl !! Z.to_nat k);
  rp_ind : addr_at x NDIRECT = 0 <-> (length bl <= 12)%nat;
  rp_len : (length c <= 1024 * length bl)%nat /\ (length bl <= 268)%nat;
  rp_data : Forall (fun b => 46 <= b < 1000) bl;
  rp_bytes : forall k d o, bl !! k = Some d -> (o < 1024)%nat -> L d !! o = Some (default 0 (c !! (1024 * k + o)%nat))
}.

Definition owned (x : dinode) (bl : list Z) : list Z := bl ++ if (12 <? length bl)%nat then [addr_at x NDIRECT] else [].

Lemma repr_ext L L' x bl c : (forall b, b ∈ owned x bl -> L' b = L b) -> repr L x bl c -> repr L' x bl c.
Proof.
  intros HL [H1 H2 H3 H4 H5 H6]. split; try done.
  - intros k Hk. rewrite <- H2 by done. unfold baddr. destruct (k <? NDIRECT); [done|]. destruct (Z.eqb_spec (addr_at x NDIRECT) 0) as [|E]; [done|].
    rewrite HL; [done|]. unfold owned. apply elem_of_app. right. rewrite (proj2 (Nat.ltb_lt _ _)) by lia. constructor.
  - intros k d o Hd Ho. rewrite HL; [by apply H6|]. unfold owned. apply elem_of_app. left. by eapply list_elem_of_lookup_2.
Qed.

Lemma di_ok_set_addr x k b : dinode_ok x -> is_u32 b -> dinode_ok (set_di_addr k b x).
Proof. intros [H1 H2 H3 H4 H5 H6 H7] Hb. split; try done; simpl; [by rewrite length_insert|by apply Forall_insert]. Qed.

Lemma data_u32 b : 46 <= b < 1000 -> is_u32 b.
Proof. unfold is_u32. lia. Qed.

Lemma snoc_lookup (bl : list Z) b (k : nat) : default 0 ((bl ++ [b]) !! k) = if decide (k = length bl) then b else default 0 (bl !! k).
Proof.
  case_decide as E; [subst; by rewrite lookup_app_r, Nat.sub_diag by lia|]. destruct (decide (k < length bl)%nat).
  - by rewrite lookup_app_l by done.
  - by rewrite !lookup_ge_None_2 by (rewrite ?length_app; simpl; lia).
Qed.

Lemma bytes_snoc (L L' : Z -> list Z) (bl c : list Z) (b : Z) : (forall d, d ∈ bl -> L' d = L d) -> L' b = zero_block ->
  (length c <= 1024 * length bl)%nat ->
  (forall k d o, bl !! k = Some d -> (o < 1024)%nat -> L d !! o = Some (default 0 (c !! (1024 * k + o)%nat))) ->
  forall k d o, (bl ++ [b]) !! k = Some d -> (o < 1024)%nat -> L' d !! o = Some (default 0 (c !! (1024 * k + o)%nat)).
Proof.
  intros HL Hz Hc H k d o Hd Ho. apply lookup_app_Some in Hd as [Hd|[Hk Hd]].
  - rewrite HL by (by eapply list_elem_of_lookup_2). by apply H.
  - apply list_lookup_singleton_Some in Hd as [Hk0 ->]. rewrite Hz. unfold zero_block. rewrite lookup_replicate_2 by (unfold bsize; lia).
    by rewrite (lookup_ge_None_2 c) by lia.
Qed.

(** A new block among the direct ones. *)
Lemma repr_direct L x bl c b : repr L x bl c -> (length bl < 12)%nat -> 46 <= b < 1000 -> L b = zero_block ->
  repr L (set_di_addr (length bl) b x) (bl ++ [b]) c.
Proof.
  intros [H1 H2 H3 [H4 H4'] H5 H6] Hlt Hb Hz. pose proof (do_addrs _ H1) as H13.
  assert (forall k, 0 <= k -> addr_at (set_di_addr (length bl) b x) k = if decide (k = Z.of_nat (length bl)) then b else addr_at x k) as Ha.
  { intros k Hk. rewrite <- (addr_at_set (Z.of_nat (length bl)) b x k H13) by lia. by rewrite Nat2Z.id. }
  split.
  - apply di_ok_set_addr; [done|by apply data_u32].
  - intros k Hk. rewrite snoc_lookup. specialize (H2 k Hk). unfold baddr in *. unfold NDIRECT in *. rewrite !Ha by lia.
    rewrite (decide_False (P := 12 = _)) by lia. rewrite (proj2 H3) in * by lia. destruct (Z.ltb_spec k 12) as [Hk12|Hk12].
    + repeat case_decide; (done || lia || congruence).
    + rewrite decide_False by lia. done.
  - unfold NDIRECT. rewrite Ha, decide_False by lia. rewrite length_app. simpl. split; [lia|]. intros _. apply H3. lia.
  - rewrite length_app. simpl. lia.
  - apply Forall_app. split; [done|]. by constructor.
  - by eapply bytes_snoc.
Qed.

(** The first block that is not direct, and with it the indirect block. *)
Lemma repr_first L L' x bl c ind b : repr L x bl c -> length bl = 12%nat -> 46 <= b < 1000 -> 46 <= ind < 1000 ->
  (forall d, d ∈ bl -> L' d = L d) -> L' b = zero_block -> L' ind = put32 zero_block 0 b -> repr L' (set_di_addr 12 ind x) (bl ++ [b]) c.
Proof.
  intros [H1 H2 H3 [H4 H4'] H5 H6] Hlen Hb Hi HL Hzb Hind. pose proof (do_addrs _ H1) as H13.
  assert (forall k, 0 <= k -> addr_at (set_di_addr 12 ind x) k = if decide (k = 12) then ind else addr_at x k) as Ha.
  { intros k Hk. by apply (addr_at_set 12). }
  pose proof zero_block_ok as Hz.
  split.
  - apply di_ok_set_addr; [done|by apply data_u32].
  - intros k Hk. rewrite snoc_lookup. specialize (H2 k Hk). unfold baddr in *. unfold NDIRECT in *. rewrite !Ha by lia.
    rewrite (proj2 H3) in * by lia. rewrite (decide_True (P := 12 = 12)) by done. destruct (Z.ltb_spec k 12) as [Hk12|Hk12].
    + repeat case_decide; (done || lia || congruence).
    + rewrite (proj2 (Z.eqb_neq ind 0)), Hind by lia. case_decide as E.
      * replace (Z.to_nat (4 * (k - 12))) with 0%nat by lia. apply get32_put32_same; [done|unfold bsize; lia|lia].
      * rewrite get32_put32_out, get32_zero, lookup_ge_None_2; [done|lia|done|unfold bsize; lia|lia].
  - unfold NDIRECT. rewrite Ha, decide_True, length_app by done. simpl. lia.
  - rewrite length_app. simpl. lia.
  - apply Forall_app. split; [done|]. by constructor.
  - by eapply bytes_snoc.
Qed.

(** A block through the indirect block. *)
Lemma repr_next L L' x bl c b : repr L x bl c -> (12 < length bl < 268)%nat -> 46 <= b < 1000 -> block_ok (L (addr_at x NDIRECT)) ->
  (forall d, d ∈ bl -> L' d = L d) -> L' b = zero_block -> L' (addr_at x NDIRECT) = put32 (L (addr_at x NDIRECT)) (4 * (length bl - 12)) b -> repr L' x (bl ++ [b]) c.
Proof.
  intros [H1 H2 H3 [H4 H4'] H5 H6] Hlen Hb Hok HL Hzb Hind.
  assert (addr_at x NDIRECT <> 0) as Hnz by (intros E; apply H3 in E; lia). split.
  - done.
  - intros k Hk. rewrite snoc_lookup. specialize (H2 k Hk). unfold MAXFILE, NDIRECT, NINDIRECT in *. change (BSIZE / 4) with 256 in *.
    unfold baddr in *. unfold NDIRECT in *. rewrite (proj2 (Z.eqb_neq _ 0)) in * by done. destruct (Z.ltb_spec k 12) as [Hk12|Hk12].
    + rewrite decide_False by lia. done.
    + rewrite Hind. case_decide as E.
      * replace (Z.to_nat (4 * (k - 12))) with (4 * (length bl - 12))%nat by lia. apply get32_put32_same; [done|unfold bsize; lia|lia].
      * rewrite get32_put32_out; [done|done|unfold bsize; lia|lia].
  - rewrite length_app. simpl. split; [done|lia].
  - rewrite length_app. simpl. lia.
  - apply Forall_app. split; [done|]. by constructor.
  - by eapply bytes_snoc.
Qed.

(** Bytes at the end of the file. *)
Lemma repr_write L L' x bl c chunk d : repr L x bl c -> NoDup (owned x bl) -> bl !! (length c / 1024)%nat = Some d -> chunk <> [] ->
  (length c mod 1024 + length chunk <= 1024)%nat -> length (L d) = 1024%nat -> L' d = splice (L d) (length c mod 1024) chunk ->
  (forall b, b ∈ owned x bl -> b <> d -> L' b = L b) -> repr L' x bl (c ++ chunk).
Proof.
  intros [H1 H2 H3 [H4 H4'] H5 H6] Hnd Hd Hne Hfit Hlen HL' HL.
  assert (0 < length chunk)%nat as Hpos by (destruct chunk; [done|simpl; lia]). pose proof (Nat.div_mod (length c) 1024 ltac:(lia)) as Hdm.
  pose proof (lookup_lt_Some _ _ _ Hd) as Hlt. apply NoDup_app in Hnd as (Hnd & Hdisj & _). split; try done.
  - intros k Hk. rewrite <- H2 by done. unfold baddr. destruct (k <? NDIRECT); [done|]. destruct (Z.eqb_spec (addr_at x NDIRECT) 0) as [|E]; [done|].
    assert (addr_at x NDIRECT ∈ (if (12 <? length bl)%nat then [addr_at x NDIRECT] else [])) as Hin by (rewrite (proj2 (Nat.ltb_lt _ _)) by lia; constructor).
    rewrite HL; [done|unfold owned; apply elem_of_app; by right|]. intros E'. apply (Hdisj d); [by eapply list_elem_of_lookup_2|]. by rewrite <- E'.
  - rewrite length_app. split; [|done]. lia.
  - intros k e o He Ho. destruct (decide (e = d)) as [->|Hed].
    + assert (k = length c / 1024)%nat as -> by by eapply NoDup_lookup. rewrite HL', lookup_splice by lia. case_decide as E.
      * rewrite lookup_app_r by lia. replace (1024 * _ + o - _)%nat with (o - length c mod 1024)%nat by lia.
        destruct (lookup_lt_is_Some_2 chunk (o - length c mod 1024)) as [v ->]; [lia|done].
      * rewrite (H6 _ _ _ Hd Ho). do 2 f_equal. destruct (decide (1024 * (length c / 1024) + o < length c)%nat).
        -- by rewrite lookup_app_l by done.
        -- by rewrite !lookup_ge_None_2 by (rewrite ?length_app; lia).
    + rewrite HL; [|unfold owned; apply elem_of_app; left; by eapply list_elem_of_lookup_2|done]. rewrite (H6 _ _ _ He Ho). do 2 f_equal.
      assert (k <> length c / 1024)%nat as Hk by congruence. destruct (decide (1024 * k + o < length c)%nat).
      * by rewrite lookup_app_l by done.
      * by rewrite !lookup_ge_None_2 by (rewrite ?length_app; lia).
Qed.

(** ** The files of the image *)
Record ent := Ent { e_x : dinode; e_bl : list Z; e_c : list Z }.
Definition e_owned (e : ent) : list Z := owned (e_x e) (e_bl e).
Definition taken_by (F : list ent) : list Z := F ≫= e_owned.

(** The data blocks: those of the files, handed out in order, and zeros. *)
Record dinv (s : mkfs) (F : list ent) : Prop := {
  dv_img : img_ok s;
  dv_next : freeblock s = 46 + Z.of_nat (length (taken_by F)) /\ freeblock s <= 1000;
  dv_zero : forall b, freeblock s <= b < 1000 -> Lof s b = zero_block;
  dv_nodup : NoDup (taken_by F);
  dv_range : Forall (fun b => 46 <= b < freeblock s) (taken_by F);
  dv_file : forall i e, F !! i = Some e -> repr (Lof s) (e_x e) (e_bl e) (e_c e)
}.

Lemma taken_insert F i e e' nb : F !! i = Some e -> e_owned e' ≡ₚ nb ++ e_owned e -> taken_by (<[i := e']> F) ≡ₚ nb ++ taken_by F.
Proof.
  intros Hi Ho. unfold taken_by. rewrite (insert_take_drop F i e') by (by eapply lookup_lt_Some). rewrite <- (take_drop_middle F i e Hi) at 3.
  rewrite !bind_app, !bind_cons, Ho, !app_assoc. by rewrite (Permutation_app_comm (take i F ≫= e_owned) nb).
Qed.

Lemma taken_file F i e b : F !! i = Some e -> b ∈ e_owned e -> b ∈ taken_by F.
Proof. intros Hi Hb. apply list_elem_of_bind. exists e. split; [done|by eapply list_elem_of_lookup_2]. Qed.

Lemma taken_other F i j e e' b : NoDup (taken_by F) -> F !! i = Some e -> F !! j = Some e' -> b ∈ e_owned e -> b ∈ e_owned e' -> i = j.
Proof.
  intros Hnd Hi Hj Hb Hb'. destruct (decide (i = j)) as [|Hne]; [done|exfalso]. unfold taken_by in Hnd.
  rewrite (delete_Permutation F i e Hi) in Hnd. simpl in Hnd. apply NoDup_app in Hnd as (_ & Hd & _). apply (Hd b Hb).
  apply list_elem_of_bind. exists e'. split; [done|]. destruct (decide (j < i)%nat).
  - apply (list_elem_of_lookup_2 _ j). by rewrite list_lookup_delete_lt.
  - apply (list_elem_of_lookup_2 _ (j - 1)). rewrite list_lookup_delete_ge by lia. by replace (S (j - 1)) with j by lia.
Qed.

(** A file that takes the next [k] blocks, when nothing changes but its blocks. *)
Lemma dinv_step s s' F i e e' k : dinv s F -> F !! i = Some e -> img_ok s' ->
  freeblock s' = freeblock s + Z.of_nat k -> freeblock s' <= 1000 -> e_owned e' ≡ₚ seqZ (freeblock s) (Z.of_nat k) ++ e_owned e ->
  (forall b, 46 <= b < 1000 -> b ∉ e_owned e' -> Lof s' b = Lof s b) -> repr (Lof s') (e_x e') (e_bl e') (e_c e') -> dinv s' (<[i := e']> F).
Proof.
  intros [H1 [H2 H2'] H3 H4 H5 H6] Hi Hok Hfb Hmax Ho HL Hr. pose proof (taken_insert F i e e' _ Hi Ho) as Ht.
  assert (forall b, b ∈ seqZ (freeblock s) (Z.of_nat k) -> freeblock s <= b < freeblock s') as Hnew by (intros b Hb; apply elem_of_seqZ in Hb; lia).
  rewrite Forall_forall in H5. split.
  - done.
  - split; [|done]. rewrite Ht, length_app, length_seqZ. lia.
  - intros b Hb. rewrite HL; [apply H3; lia|lia|]. rewrite Ho. intros [Hb'|Hb']%elem_of_app; [apply Hnew in Hb'; lia|].
    pose proof (H5 _ (taken_file _ _ _ _ Hi Hb')). lia.
  - rewrite Ht. apply NoDup_app. split_and!; [apply NoDup_seqZ| |done]. intros b Hb Hb'. apply Hnew in Hb. apply H5 in Hb'. lia.
  - rewrite Ht. apply Forall_forall. intros b [Hb|Hb]%elem_of_app; [apply Hnew in Hb; lia|apply H5 in Hb; lia].
  - intros j e2 Hj. destruct (decide (i = j)) as [->|Hij].
    { rewrite list_lookup_insert_eq in Hj by (by eapply lookup_lt_Some). by injection Hj as <-. }
    rewrite list_lookup_insert_ne in Hj by done. eapply repr_ext; [|by eapply H6]. intros b Hb.
    pose proof (H5 _ (taken_file _ _ _ _ Hj Hb)) as Hbr. apply HL; [lia|]. rewrite Ho. intros [Hb'|Hb']%elem_of_app.
    + apply Hnew in Hb'. lia.
    + apply Hij. by eapply taken_other.
Qed.

(** The metadata before the data, and the inode but for its blocks, stay. *)
Definition keeps (s s' : mkfs) : Prop := freeinode s' = freeinode s /\ forall b, 0 <= b < 46 -> Lof s' b = Lof s b.
Definition blk_post (s : mkfs) (F : list ent) (i : nat) (e : ent) (fbn : nat) (r : dinode * Z) (s' : mkfs) : Prop := exists bl,
  dinv s' (<[i := Ent (fst r) bl (e_c e)]> F) /\ bl !! fbn = Some (snd r) /\ length bl = Nat.max (length (e_bl e)) (1 + fbn) /\
  keeps s s' /\ fst r = with_addrs (di_addrs (fst r)) (e_x e).

Lemma xint_data b : 46 <= b < 1000 -> xint b = b.
Proof. intros H. apply xint_id, data_u32, H. Qed.

Lemma xint_0 : xint 0 = 0.
Proof. done. Qed.

Lemma set_addr_meta x0 k b x : x = with_addrs (di_addrs x) x0 -> set_di_addr k b x = with_addrs (di_addrs (set_di_addr k b x)) x0.
Proof. intros E. destruct x, x0. unfold with_addrs in E. simpl in E. injection E as -> -> -> -> ->. done. Qed.

Lemma addr_ind x b : dinode_ok x -> addr_at (set_di_addr 12 b x) NDIRECT = b.
Proof. intros H. rewrite (addr_at_set 12) by (done || lia || apply H). done. Qed.

Section append_block.
Context (s : mkfs) (F : list ent) (i : nat) (e : ent) (fbn : nat).
Context (HI : dinv s F) (Hi : F !! i = Some e) (Hmax : (fbn < 268)%nat).
Local Notation din := (e_x e).
Local Notation bl := (e_bl e).
Local Notation z := (Z.of_nat fbn).

Lemma blk_addr : baddr (Lof s) din z = default 0 (bl !! fbn).
Proof. rewrite (rp_addr _ _ _ _ (dv_file _ _ HI _ _ Hi)) by (change MAXFILE with 268; lia). by rewrite Nat2Z.id. Qed.

Lemma ind_range : (12 < length bl)%nat -> 46 <= addr_at din NDIRECT < freeblock s.
Proof.
  intros H. apply (proj1 (Forall_forall _ _) (dv_range _ _ HI)), (taken_file _ _ _ _ Hi). unfold e_owned, owned. apply elem_of_app. right.
  rewrite (proj2 (Nat.ltb_lt _ _) H). constructor.
Qed.

Lemma file_nodup : NoDup (owned din bl).
Proof. pose proof (dv_nodup _ _ HI) as H. unfold taken_by in H. rewrite (delete_Permutation F i e Hi) in H. simpl in H. by apply NoDup_app in H as (H & _). Qed.

Lemma ind_sep : (12 < length bl)%nat -> addr_at din NDIRECT ∉ bl.
Proof.
  intros Hlt Hin. pose proof file_nodup as H. apply NoDup_app in H as (_ & H & _). apply (H _ Hin).
  rewrite (proj2 (Nat.ltb_lt _ _) Hlt). constructor.
Qed.

Lemma block_old : (fbn < length bl)%nat -> wp (iappend_block din z s) (blk_post s F i e fbn).
Proof.
  intros Hlt. pose proof (dv_file _ _ HI _ _ Hi) as Hr. destruct (lookup_lt_is_Some_2 bl fbn Hlt) as [b Hb].
  pose proof (proj1 (Forall_lookup _ _) (rp_data _ _ _ _ Hr) _ _ Hb) as Hbr. cbv beta in Hbr. pose proof blk_addr as Ha. rewrite Hb in Ha. simpl in Ha.
  pose proof (proj2 (dv_next _ _ HI)) as Hfb.
  assert (blk_post s F i e fbn (din, b) s) as Hpost.
  { exists bl. simpl. rewrite list_insert_id by (by destruct e). split_and!; [done|done|lia|done|by destruct din]. }
  unfold iappend_block. unfold baddr in Ha. destruct (Z.ltb_spec z NDIRECT) as [Hd|Hd].
  - rewrite Ha, xint_data by done. rewrite (proj2 (Z.eqb_neq b 0)) by lia. erewrite bind_Done by done. by rewrite Ha, xint_data by done.
  - unfold NDIRECT in Hd. pose proof ind_range ltac:(lia) as Hx. rewrite xint_data by lia.
    rewrite (proj2 (Z.eqb_neq (addr_at din NDIRECT) 0)) in * by lia. erewrite bind_Done by done. cbv zeta. rewrite xint_data by lia.
    erewrite bind_Done by (apply rsect_run; [apply HI|unfold in_img; lia]). rewrite Ha, (proj2 (Z.eqb_neq b 0)) by lia.
    erewrite bind_Done by done. by rewrite Ha, xint_data by done.
Qed.

Lemma block_direct : fbn = length bl -> (fbn < 12)%nat -> freeblock s + 1 <= 1000 -> wp (iappend_block din z s) (blk_post s F i e fbn).
Proof.
  intros Hlen H12 Hcap. pose proof (dv_file _ _ HI _ _ Hi) as Hr. pose proof blk_addr as Ha. rewrite (lookup_ge_None_2 bl) in Ha by lia.
  unfold baddr in Ha. unfold iappend_block. rewrite (proj2 (Z.ltb_lt z NDIRECT)) in * by (unfold NDIRECT; lia). simpl in Ha.
  pose proof (proj1 (dv_next _ _ HI)) as Hfb. rewrite Ha, xint_0, Z.eqb_refl. erewrite bind_Done by done. rewrite xint_data by lia.
  pose proof (repr_direct _ _ _ _ (freeblock s) Hr ltac:(lia) ltac:(lia) (dv_zero _ _ HI (freeblock s) ltac:(lia))) as Hr'. rewrite <- Hlen in Hr'.
  rewrite addr_at_set, decide_True by (done || lia || apply (rp_di _ _ _ _ Hr)). rewrite xint_data by lia. rewrite Nat2Z.id.
  exists (bl ++ [freeblock s]). simpl. split_and!.
  - eapply (dinv_step s _ F i e _ 1); [done|done|apply HI|simpl; rewrite u32_id by lia; lia|simpl; rewrite u32_id by lia; lia| |done|exact Hr'].
    unfold e_owned, owned. simpl. rewrite length_app. simpl. rewrite !(proj2 (Nat.ltb_ge _ _)) by lia. rewrite !app_nil_r.
    by rewrite Permutation_app_comm.
  - rewrite lookup_app_r by lia. by rewrite Hlen, Nat.sub_diag.
  - rewrite length_app. simpl. lia.
  - done.
  - by destruct din.
Qed.

Lemma block_first : fbn = length bl -> fbn = 12%nat -> freeblock s + 2 <= 1000 -> wp (iappend_block din z s) (blk_post s F i e fbn).
Proof.
  intros Hlen H12 Hcap. pose proof (dv_file _ _ HI _ _ Hi) as Hr. pose proof (proj1 (dv_next _ _ HI)) as Hfb.
  pose proof (proj2 (rp_ind _ _ _ _ Hr) ltac:(lia)) as Ha. unfold iappend_block. rewrite H12. change (Z.of_nat 12 <? NDIRECT) with false. cbv iota.
  rewrite Ha, xint_0, Z.eqb_refl. erewrite bind_Done by done. rewrite (xint_data (freeblock s)) by lia. cbv zeta.
  change (Z.to_nat NDIRECT) with 12%nat. rewrite addr_ind by apply Hr. rewrite xint_data by lia.
  set (s1 := mkMkfs _ _ _). assert (img_ok s1) as Hok by apply HI.
  erewrite bind_Done by (apply rsect_run; [done|unfold in_img; lia]). change (Z.to_nat (4 * (Z.of_nat 12 - NDIRECT))) with 0%nat.
  change (Lof s1) with (Lof s). rewrite (dv_zero _ _ HI) by lia. rewrite get32_zero, Z.eqb_refl. 
  set (s2 := mkMkfs (mk_img s) (freeinode s) (freeblock s + 2)).
  assert (take_block s1 = Done (freeblock s + 1) s2) as Et by (unfold take_block, s1, s2; simpl; rewrite !u32_id by (rewrite ?u32_id; lia); do 2 f_equal; lia).
  assert (img_ok s2) as Hok2 by apply HI.
  destruct (wsect_run (freeblock s) (put32 zero_block 0 (freeblock s + 1)) s2 Hok2) as (s3 & Ew & Hok3 & HL3 & Hi3 & Hb3);
    [unfold in_img; lia|apply block_ok_put32; [apply zero_block_ok|unfold bsize; lia]|]. change (Lof s2) with (Lof s) in HL3. simpl in Hi3, Hb3.
  erewrite bind_Done; [|erewrite bind_Done by exact Et; rewrite xint_data by lia; erewrite bind_Done by exact Ew; reflexivity].
  rewrite get32_put32_same, xint_data by (apply zero_block_ok || unfold bsize; lia).
  assert (forall d, d ∈ bl -> 46 <= d < freeblock s) as Hbl.
  { intros d Hd. apply (proj1 (Forall_forall _ _) (dv_range _ _ HI)), (taken_file _ _ _ _ Hi). unfold e_owned, owned. apply elem_of_app. by left. }
  exists (bl ++ [freeblock s + 1]). simpl. split_and!.
  - eapply (dinv_step s _ F i e _ 2); [done|done|done|lia|lia| | |].
    + unfold e_owned, owned. simpl. rewrite length_app. simpl. rewrite (proj2 (Nat.ltb_lt _ _)), (proj2 (Nat.ltb_ge _ _)) by lia.
      rewrite addr_ind by apply Hr. rewrite app_nil_r, <- app_assoc. simpl.
      rewrite (Permutation_app_comm bl). simpl. rewrite Permutation_swap. by rewrite (Z.add_comm (freeblock s) 1).
    + intros b Hb Hnin. rewrite HL3, decide_False; [done| |lia]. intros ->. apply Hnin. unfold e_owned, owned. simpl. apply elem_of_app. right.
      rewrite length_app. simpl. rewrite (proj2 (Nat.ltb_lt _ _)) by lia.
      rewrite addr_ind by apply Hr. constructor.
    + simpl. apply (repr_first (Lof s)); [done|lia|lia|lia| | |].
      * intros d Hd. apply Hbl in Hd. rewrite HL3, decide_False; [done|lia|lia].
      * rewrite HL3, decide_False by lia. apply HI. lia.
      * rewrite HL3, decide_True by lia. done.
  - rewrite lookup_app_r by lia. by rewrite <- Hlen, H12, Nat.sub_diag.
  - rewrite length_app. simpl. lia.
  - split; [done|]. intros b Hb. rewrite HL3, decide_False; [done|lia|lia].
  - by destruct din.
Qed.

Lemma block_next : fbn = length bl -> (12 < fbn)%nat -> freeblock s + 1 <= 1000 -> wp (iappend_block din z s) (blk_post s F i e fbn).
Proof.
  intros Hlen H12 Hcap. pose proof (dv_file _ _ HI _ _ Hi) as Hr. pose proof (proj1 (dv_next _ _ HI)) as Hfb.
  pose proof ind_range ltac:(lia) as Hx. pose proof blk_addr as Ha. rewrite (lookup_ge_None_2 bl) in Ha by lia. simpl in Ha.
  unfold iappend_block. unfold baddr in Ha. rewrite (proj2 (Z.ltb_ge z NDIRECT)) in * by (unfold NDIRECT; lia). rewrite xint_data by lia.
  rewrite (proj2 (Z.eqb_neq (addr_at din NDIRECT) 0)) in * by lia. erewrite bind_Done by done. cbv zeta. rewrite xint_data by lia.
  erewrite bind_Done by (apply rsect_run; [apply HI|unfold in_img; lia]). rewrite Ha, Z.eqb_refl.
  replace (Z.to_nat (4 * (z - NDIRECT))) with (4 * (length bl - 12))%nat by (unfold NDIRECT; lia).
  set (ind := addr_at din NDIRECT) in *. set (s2 := mkMkfs (mk_img s) (freeinode s) (freeblock s + 1)).
  assert (take_block s = Done (freeblock s) s2) as Et by (unfold take_block, s2; rewrite u32_id by lia; done).
  assert (img_ok s2) as Hok2 by apply HI. assert (block_ok (Lof s ind)) as Hblk by (apply block_ok_L, HI).
  destruct (wsect_run ind (put32 (Lof s ind) (4 * (length bl - 12)) (freeblock s)) s2 Hok2) as (s3 & Ew & Hok3 & HL3 & Hi3 & Hb3);
    [unfold in_img; lia|apply block_ok_put32; [done|unfold bsize; lia]|]. change (Lof s2) with (Lof s) in HL3. simpl in Hi3, Hb3.
  erewrite bind_Done; [|erewrite bind_Done by exact Et; rewrite xint_data by lia; erewrite bind_Done by exact Ew; reflexivity].
  rewrite get32_put32_same, xint_data by (done || unfold bsize; lia).
  assert (ind ∉ bl) as Hsep by (apply ind_sep; lia).
  assert (forall b, b <> ind -> 46 <= b -> Lof s3 b = Lof s b) as HLo by (intros b Hb Hb'; rewrite HL3, decide_False; [done|done|lia]).
  exists (bl ++ [freeblock s]). simpl. split_and!.
  - eapply (dinv_step s _ F i e _ 1); [done|done|done|lia|lia| | |].
    + unfold e_owned, owned. simpl. rewrite length_app. simpl. rewrite !(proj2 (Nat.ltb_lt _ _)) by lia. rewrite <- app_assoc.
      by rewrite Permutation_app_swap_app.
    + intros b Hb Hnin. apply HLo; [|lia]. intros ->. apply Hnin. unfold e_owned, owned. simpl. apply elem_of_app. right.
      rewrite length_app. simpl. rewrite (proj2 (Nat.ltb_lt _ _)) by lia. constructor.
    + simpl. apply (repr_next (Lof s)); [done|lia|lia|done| | |].
      * intros d Hd. apply HLo; [by intros ->|]. apply (proj1 (Forall_forall _ _) (rp_data _ _ _ _ Hr)) in Hd. lia.
      * rewrite HLo by lia. apply HI. lia.
      * fold ind. by rewrite HL3, decide_True by lia.
  - rewrite lookup_app_r by lia. by rewrite Hlen, Nat.sub_diag.
  - rewrite length_app. simpl. lia.
  - split; [done|]. intros b Hb. rewrite HL3, decide_False; [done|lia|lia].
  - by destruct din.
Qed.

(** The blocks that block [fbn] of the file costs. *)
Definition need : Z := if (fbn <? length bl)%nat then 0 else if (fbn =? 12)%nat then 2 else 1.

Lemma iappend_block_ok : (fbn <= length bl)%nat -> freeblock s + need <= 1000 -> wp (iappend_block din z s) (blk_post s F i e fbn).
Proof.
  unfold need. intros Hle Hcap. destruct (Nat.ltb_spec fbn (length bl)); [by apply block_old|]. destruct (Nat.eqb_spec fbn 12); [apply block_first; lia|].
  destruct (decide (fbn < 12)%nat); [apply block_direct; lia|apply block_next; lia].
Qed.
End append_block.

(** ** Appending: the blocks of [n] bytes, and what they cost *)
Definition nblk (n : nat) : nat := ((n + 1023) / 1024)%nat.
Definition cost (n : nat) : nat := (nblk n + if (12 <? nblk n)%nat then 1 else 0)%nat.
Definition tight (e : ent) : Prop := length (e_bl e) = nblk (length (e_c e)).

Lemma nblk_spec n : (n <= 1024 * nblk n < n + 1024)%nat.
Proof. unfold nblk. pose proof (Nat.div_mod (n + 1023) 1024 ltac:(lia)). pose proof (Nat.mod_upper_bound (n + 1023) 1024 ltac:(lia)). lia. Qed.

Lemma cost_mono n m : (n <= m)%nat -> (cost n <= cost m)%nat.
Proof.
  intros H. unfold cost. pose proof (nblk_spec n). pose proof (nblk_spec m). assert (nblk n <= nblk m)%nat by lia.
  destruct (Nat.ltb_spec 12 (nblk n)), (Nat.ltb_spec 12 (nblk m)); lia.
Qed.

Lemma owned_cost e : tight e -> length (e_owned e) = cost (length (e_c e)).
Proof. intros H. unfold e_owned, owned, cost. rewrite length_app, H. by destruct (12 <? _)%nat. Qed.

Lemma need_cost e : tight e -> let fbn := (length (e_c e) / 1024)%nat in
  (fbn <= length (e_bl e))%nat /\ need e fbn + Z.of_nat (cost (length (e_c e))) <= Z.of_nat (cost (1 + length (e_c e))).
Proof.
  intros H. cbv zeta. unfold need, cost. rewrite H. pose proof (nblk_spec (length (e_c e))). pose proof (nblk_spec (1 + length (e_c e))).
  pose proof (Nat.div_mod (length (e_c e)) 1024 ltac:(lia)). pose proof (Nat.mod_upper_bound (length (e_c e)) 1024 ltac:(lia)). set (fbn := (length (e_c e) / 1024)%nat) in *.
  split; [lia|]. destruct (Nat.ltb_spec fbn (nblk (length (e_c e)))), (Nat.eqb_spec fbn 12), (Nat.ltb_spec 12 (nblk (length (e_c e)))),
    (Nat.ltb_spec 12 (nblk (1 + length (e_c e)))); lia.
Qed.

Lemma freeblock_step s s' F i e e' : dinv s F -> F !! i = Some e -> dinv s' (<[i := e']> F) ->
  freeblock s' + Z.of_nat (length (e_owned e)) = freeblock s + Z.of_nat (length (e_owned e')).
Proof.
  intros H Hi H'. rewrite (proj1 (dv_next _ _ H)), (proj1 (dv_next _ _ H')). unfold taken_by.
  rewrite (insert_take_drop F i e') by (by eapply lookup_lt_Some). rewrite <- (take_drop_middle F i e Hi) at 3.
  rewrite !bind_app, !bind_cons, !length_app. lia.
Qed.

(** What a call of iappend() leaves behind. *)
Definition appended (s : mkfs) (F : list ent) (i : nat) (e e' : ent) (p : list Z) (s' : mkfs) : Prop :=
  e_c e' = e_c e ++ p /\ tight e' /\ dinv s' (<[i := e']> F) /\ keeps s s' /\ e_x e' = with_addrs (di_addrs (e_x e')) (e_x e).

Lemma append_in_block s F i e p x k : dinv s F -> F !! i = Some e -> Forall is_byte p -> e_bl e !! (length (e_c e) / 1024)%nat = Some x ->
  p <> [] -> (length (e_c e) mod 1024 + length p <= 1024)%nat -> k = (length (e_c e) mod 1024)%nat ->
  exists s', rsect x s = Done (Lof s x) s /\ wsect x (splice (Lof s x) k p) s = Done tt s' /\
    dinv s' (<[i := Ent (e_x e) (e_bl e) (e_c e ++ p)]> F) /\ keeps s s'.
Proof.
  intros HI Hi Hp Hx Hne Hfit ->. pose proof (dv_file _ _ HI _ _ Hi) as Hr. assert (x ∈ e_owned e) as Hown.
  { unfold e_owned, owned. apply elem_of_app. left. by eapply list_elem_of_lookup_2. }
  pose proof (proj1 (Forall_forall _ _) (dv_range _ _ HI) x (taken_file _ _ _ _ Hi Hown)) as Hxr. cbv beta in Hxr.
  pose proof (proj2 (dv_next _ _ HI)) as Hfb. pose proof (block_ok_L s x (dv_img _ _ HI)) as Hblk.
  destruct (wsect_run x (splice (Lof s x) (length (e_c e) mod 1024) p) s (dv_img _ _ HI)) as (s' & Ew & Hok & HL & Hfi & Hfb');
    [unfold in_img; lia|by apply block_ok_splice|].
  exists s'. split; [apply rsect_run; [apply HI|unfold in_img; lia]|]. split; [done|]. split; [|split; [done|intros b Hb; rewrite HL, decide_False; [done|lia|lia]]].
  eapply (dinv_step s s' F i e _ 0); [done|done|done|lia|lia|done| |].
  - intros b Hb Hnin. rewrite HL, decide_False; [done| |lia]. by intros ->.
  - simpl. apply (repr_write (Lof s) _ _ _ _ _ x); try done.
    + by eapply file_nodup.
    + apply Hblk.
    + by rewrite HL, decide_True by lia.
    + intros b Hb Hne'. apply (taken_file _ _ _ _ Hi) in Hb. apply (proj1 (Forall_forall _ _) (dv_range _ _ HI)) in Hb.
      rewrite HL, decide_False; [done|done|lia].
Qed.

Lemma iappend_round_ok s F i e p : dinv s F -> F !! i = Some e -> tight e -> Forall is_byte p -> p <> [] ->
  Z.of_nat (length (e_c e) + length p) <= MAXBYTES -> freeblock s + Z.of_nat (cost (length (e_c e) + length p)) <= 1000 + Z.of_nat (cost (length (e_c e))) ->
  wp (iappend_round (p, Z.of_nat (length (e_c e)), e_x e) s) (fun r s' => exists e' k, (0 < k <= length p)%nat /\
    r = inl (drop k p, Z.of_nat (length (e_c e')), e_x e') /\ appended s F i e e' (take k p) s').
Proof.
  intros HI Hi Ht Hp Hne Hlen Hcap. change MAXBYTES with 274432 in Hlen. assert (0 < length p)%nat as Hpos by (destruct p; [done|simpl; lia]).
  destruct (need_cost e Ht) as [Hle Hneed]. set (n := length (e_c e)) in *. set (fbn := (n / 1024)%nat) in *.
  pose proof (Nat.div_mod n 1024 ltac:(lia)) as Hdm. pose proof (Nat.mod_upper_bound n 1024 ltac:(lia)) as Hmod. fold fbn in Hdm.
  pose proof (cost_mono (1 + n) (n + length p) ltac:(lia)) as Hmono.
  unfold iappend_round. rewrite (proj2 (Z.ltb_lt 0 _)) by lia. change BSIZE with (Z.of_nat 1024). rewrite <- Nat2Z.inj_div. fold fbn.
  cbv zeta. cbn [negb]. rewrite (proj2 (Z.ltb_lt (Z.of_nat fbn) MAXFILE)) by (change MAXFILE with 268; lia). cbn [negb].
  apply wp_bind. eapply wp_mono; [|apply (iappend_block_ok s F i e fbn); [done|done|lia|done|lia]].
  intros [din x] s1 (bl & HI1 & Hx & Hbl & K1 & M1). cbn [fst snd] in *. set (e1 := Ent din bl (e_c e)) in *.
  assert (<[i := e1]> F !! i = Some e1) as Hi1 by (apply list_lookup_insert_eq; by eapply lookup_lt_Some).
  set (k := Nat.min (length p) (1024 - n mod 1024)).
  replace (Z.to_nat (Z.min (Z.of_nat (length p)) ((Z.of_nat fbn + 1) * Z.of_nat 1024 - Z.of_nat n))) with k by lia.
  assert (length (take k p) = k) as Hk by (rewrite length_take; lia).
  assert (take k p <> []) as Hne' by (intros E; rewrite E in Hk; simpl in Hk; lia).
  destruct (append_in_block s1 (<[i := e1]> F) i e1 (take k p) x (Z.to_nat (Z.of_nat n - Z.of_nat fbn * Z.of_nat 1024)) HI1 Hi1)
    as (s2 & Er & Ew & HI2 & K2); [by apply Forall_take|done|done|change (e_c e1) with (e_c e); fold n; lia|change (e_c e1) with (e_c e); fold n; lia|].
  erewrite bind_Done by exact Er. erewrite bind_Done by exact Ew. rewrite list_insert_insert_eq in HI2.
  exists (Ent din bl (e_c e ++ take k p)), k. cbn [e_c e_x]. rewrite length_app, Hk. fold n. split; [lia|]. split.
  - do 3 f_equal. rewrite u32_id by lia. lia.
  - split; [done|]. split; [|split; [done|split; [|done]]].
    + unfold tight. cbn [e_c e_bl]. rewrite Hbl, length_app, Hk. unfold tight in Ht. fold n in Ht |- *. rewrite Ht.
      pose proof (nblk_spec n). pose proof (nblk_spec (n + k)). lia.
    + split; [by rewrite (proj1 K2), (proj1 K1)|]. intros b Hb. by rewrite (proj2 K2), (proj2 K1).
Qed.

Lemma appended_trans s F i e e1 q s1 e2 q2 s2 : appended s F i e e1 q s1 -> appended s1 (<[i := e1]> F) i e1 e2 q2 s2 ->
  appended s F i e e2 (q ++ q2) s2.
Proof.
  intros (C1 & T1 & D1 & [K1 K1'] & M1) (C2 & T2 & D2 & [K2 K2'] & M2). rewrite list_insert_insert_eq in D2.
  split; [by rewrite C2, C1, app_assoc|]. split; [done|]. split; [done|]. split.
  - split; [congruence|]. intros b Hb. by rewrite K2', K1'.
  - rewrite M2. rewrite M1. done.
Qed.

Lemma appended_nil s F i e : dinv s F -> F !! i = Some e -> tight e -> appended s F i e e [] s.
Proof.
  intros HI Hi Ht. split; [by rewrite app_nil_r|]. split; [done|]. rewrite list_insert_id by done. split; [done|]. split; [done|].
  by destruct (e_x e).
Qed.

(** The loop of iappend(): all of [p] goes to the end of the file. *)
Lemma iappend_loop s F i e p : dinv s F -> F !! i = Some e -> tight e -> Forall is_byte p ->
  Z.of_nat (length (e_c e) + length p) <= MAXBYTES -> freeblock s + Z.of_nat (cost (length (e_c e) + length p)) <= 1000 + Z.of_nat (cost (length (e_c e))) ->
  wp (while_ budget iappend_round (p, Z.of_nat (length (e_c e)), e_x e) s) (fun r s' => exists e',
    r = (Z.of_nat (length (e_c e')), e_x e') /\ appended s F i e e' p s').
Proof.
  intros HI Hi Ht Hp Hlen Hcap. pose proof Hlen as Hlen'. change MAXBYTES with 274432 in Hlen'.
  apply (wp_while _ (fun q s1 => exists e1 d, p = d ++ q.1.1 /\ q = (q.1.1, Z.of_nat (length (e_c e1)), e_x e1) /\ appended s F i e e1 d s1)
    (fun q => Z.of_nat (length q.1.1))).
  - intros [[q off] din] s1 (e1 & d & Ep & [= -> ->] & HA). simpl in Ep. destruct (decide (q = [])) as [->|Hq].
    { rewrite app_nil_r in Ep. subst d. exists e1. done. }
    destruct HA as (C1 & T1 & D1 & K1 & M1) eqn:EA. clear EA.
    assert (<[i := e1]> F !! i = Some e1) as Hi1 by (apply list_lookup_insert_eq; by eapply lookup_lt_Some).
    assert (length (e_c e1) + length q = length (e_c e) + length p)%nat as El by (rewrite C1, Ep, !length_app; lia).
    pose proof (freeblock_step s s1 F i e e1 HI Hi D1) as Hfs. rewrite !owned_cost in Hfs by done.
    eapply wp_mono; [|apply (iappend_round_ok s1 (<[i := e1]> F) i e1 q); [done|done|done| |done|by rewrite El|rewrite El; lia]].
    + intros r s2 (e2 & k & Hk & -> & HA2). cbn [fst]. split; [|rewrite length_drop; lia]. exists e2, (d ++ take k q).
      split; [by rewrite <- app_assoc, take_drop|]. split; [done|]. eapply appended_trans; [split_and!|]; eassumption.
    + rewrite Ep in Hp. by apply Forall_app in Hp as [_ Hp].
  - intros. lia.
  - exists e, []. split; [done|]. split; [done|]. by apply appended_nil.
  - simpl. change (Z.pos budget) with (2 ^ 40). lia.
Qed.

(** ** The inodes *)
Definition ino_of (s : mkfs) (j : Z) : dinode := get_dinode (Lof s (IBLOCK j mkfs_sb)) (Z.to_nat (j mod IPB)).

Lemma IBLOCK_img j : 0 <= j < 200 -> 32 <= IBLOCK j mkfs_sb < 45 /\ IBLOCK j mkfs_sb = j / 16 + 32 /\ (Z.to_nat (j mod IPB) < 16)%nat.
Proof.
  intros H. unfold IBLOCK. change IPB with 16. change (sb_inodestart mkfs_sb) with 32. pose proof (Z.div_mod j 16 ltac:(lia)).
  pose proof (Z.mod_pos_bound j 16 ltac:(lia)). rewrite u32_id by lia. lia.
Qed.

Lemma winode_run j x s : img_ok s -> 0 <= j < 200 -> dinode_ok x -> exists s', winode j x s = Done tt s' /\ img_ok s' /\
  (freeinode s' = freeinode s /\ freeblock s' = freeblock s) /\ (forall b, 0 <= b -> ~ (32 <= b < 45) -> Lof s' b = Lof s b) /\
  (forall k, 0 <= k < 200 -> ino_of s' k = if decide (k = j) then x else ino_of s k).
Proof.
  intros Hok Hj Hx. destruct (IBLOCK_img j Hj) as (Hr & Ej & Hm). unfold winode. rewrite mk_sb_eq. cbv zeta.
  erewrite bind_Done by (apply rsect_run; [done|unfold in_img; lia]). pose proof (block_ok_L s (IBLOCK j mkfs_sb) Hok) as Hblk.
  destruct (wsect_run (IBLOCK j mkfs_sb) (put_dinode (Lof s (IBLOCK j mkfs_sb)) (Z.to_nat (j mod IPB)) x) s Hok) as (s' & -> & Hok' & HL & Hi & Hb);
    [unfold in_img; lia|apply block_ok_put_dinode; [done|apply Hx|done]|].
  exists s'. split_and!; try done.
  - intros b Hb0 Hb'. rewrite HL, decide_False; [done|lia|lia].
  - intros k Hk. destruct (IBLOCK_img k Hk) as (Hrk & Ek & Hmk). unfold ino_of. rewrite HL by lia. case_decide as E.
    + rewrite get_put_dinode, E by done. pose proof (Z.div_mod j 16 ltac:(lia)). pose proof (Z.div_mod k 16 ltac:(lia)). change IPB with 16 in *.
      pose proof (Z.mod_pos_bound j 16 ltac:(lia)). pose proof (Z.mod_pos_bound k 16 ltac:(lia)). repeat case_decide; (done || lia).
    + rewrite decide_False; [done|]. intros ->. done.
Qed.

Lemma rinode_run j s : img_ok s -> 0 <= j < 200 -> rinode j s = Done (ino_of s j) s.
Proof.
  intros Hok Hj. destruct (IBLOCK_img j Hj) as (Hr & _ & _). unfold rinode. rewrite mk_sb_eq. cbv zeta.
  by erewrite bind_Done by (apply rsect_run; [done|unfold in_img; lia]).
Qed.

Lemma dinv_frame s s' F : dinv s F -> img_ok s' -> freeblock s' = freeblock s -> (forall b, 46 <= b < 1000 -> Lof s' b = Lof s b) -> dinv s' F.
Proof.
  intros [H1 [H2 H2'] H3 H4 H5 H6] Hok Hfb HL. split; rewrite ?Hfb; try done.
  - intros b Hb. rewrite HL by lia. by apply H3.
  - intros i e Hi. eapply repr_ext; [|by eapply H6]. intros b Hb. apply HL.
    apply (taken_file _ _ _ _ Hi), (proj1 (Forall_forall _ _) H5) in Hb. lia.
Qed.

Lemma di_ok_set_size x n : dinode_ok x -> is_u32 n -> dinode_ok (set_di_size n x).
Proof. intros [H1 H2 H3 H4 H5 H6 H7] Hn. by split. Qed.

Lemma dinv_size s F i e n : dinv s F -> F !! i = Some e -> is_u32 n -> dinv s (<[i := Ent (set_di_size n (e_x e)) (e_bl e) (e_c e)]> F).
Proof.
  intros HI Hi Hn. eapply (dinv_step s s F i e _ 0); [done|done|apply HI|lia|apply HI|done|done|]. pose proof (dv_file _ _ HI _ _ Hi) as [H1 H2 H3 H4 H5 H6].
  split; try done. by apply di_ok_set_size.
Qed.

Local Opaque nblk.

(** ** The image of a list of files, each a type and its bytes *)
Definition total (A : list (Z * list Z)) : nat := sum_list_with (fun a => cost (length a.2)) A.
Definition fits (A : list (Z * list Z)) : Prop :=
  (total A <= 954)%nat /\ Forall (fun a => Z.of_nat (length a.2) <= MAXBYTES) A /\ (length A <= 199)%nat.

Definition slot (F : list ent) (j : Z) : dinode := if j =? 0 then no_dinode else from_option e_x no_dinode (F !! Z.to_nat (j - 1)).
Definition is_file (e : ent) (a : Z * list Z) : Prop :=
  tight e /\ e_c e = a.2 /\ e_x e = mkDi a.1 0 0 1 (Z.of_nat (length a.2)) (di_addrs (e_x e)).

Record minv (s : mkfs) (F : list ent) (A : list (Z * list Z)) : Prop := {
  mv_d : dinv s F;
  mv_head : forall b, 0 <= b < 32 -> Lof s b = if decide (b = 1) then put_sb zero_block mk_sb else zero_block;
  mv_next : freeinode s = 1 + Z.of_nat (length A) /\ freeinode s <= 200;
  mv_ino : forall j, 0 <= j < 200 -> ino_of s j = slot F j;
  mv_files : Forall2 is_file F A
}.
Definition holds (s : mkfs) (A : list (Z * list Z)) : Prop := exists F, minv s F A.

Lemma taken_total F A : Forall2 is_file F A -> length (taken_by F) = total A.
Proof.
  intros H. unfold taken_by, total. induction H as [|e a F A (Ht & Hc & _) _ IH]; [done|]. rewrite bind_cons, length_app, IH, owned_cost, Hc by done. reflexivity.
Qed.

Lemma total_app A B : total (A ++ B) = (total A + total B)%nat.
Proof. unfold total. apply sum_list_with_app. Qed.

Lemma total_insert A i a a' : A !! i = Some a -> (total (<[i := a']> A) + cost (length a.2) = total A + cost (length a'.2))%nat.
Proof.
  intros Hi. rewrite (insert_take_drop A i a') by (by eapply lookup_lt_Some). rewrite <- (take_drop_middle A i a Hi) at 3.
  rewrite !total_app. unfold total. simpl. lia.
Qed.

Lemma slot_insert F i e e' j : F !! i = Some e -> 0 <= j -> slot (<[i := e']> F) j = if decide (j = Z.of_nat i + 1) then e_x e' else slot F j.
Proof.
  intros Hi Hj. unfold slot. destruct (Z.eqb_spec j 0) as [->|Hj0]; [by rewrite decide_False by lia|]. case_decide as E.
  - replace (Z.to_nat (j - 1)) with i by lia. by rewrite list_lookup_insert_eq by (by eapply lookup_lt_Some).
  - by rewrite list_lookup_insert_ne by lia.
Qed.

Lemma iappend_ok s A i t c p : holds s A -> A !! i = Some (t, c) -> Forall is_byte p -> fits (<[i := (t, c ++ p)]> A) ->
  wp (iappend (Z.of_nat i + 1) p s) (fun _ s' => holds s' (<[i := (t, c ++ p)]> A)).
Proof.
  intros (F & [HD Hh [Hfi Hfi'] Hino HF]) Hi Hp (Hcap & Hsz & _). destruct (Forall2_lookup_r _ _ _ _ _ HF Hi) as (e & He & (Ht & Hc & Hx)).
  simpl in Hc, Hx. pose proof (lookup_lt_Some _ _ _ Hi) as HiA.
  assert (Z.of_nat (length c + length p) <= MAXBYTES) as Hlen.
  { rewrite <- length_app. apply (proj1 (Forall_lookup _ _) Hsz i (t, c ++ p)). by apply list_lookup_insert_eq. }
  pose proof Hlen as Hlen'. change MAXBYTES with 274432 in Hlen'. pose proof (proj1 (dv_next _ _ HD)) as Hfb. rewrite (taken_total F A HF) in Hfb.
  pose proof (total_insert A i (t, c) (t, c ++ p) Hi) as Htot. simpl in Htot. rewrite length_app in Htot.
  unfold iappend. erewrite bind_Done by (apply rinode_run; [apply HD|lia]). cbv zeta. rewrite Hino by lia. unfold slot.
  rewrite (proj2 (Z.eqb_neq _ 0)) by lia. replace (Z.to_nat (Z.of_nat i + 1 - 1)) with i by lia. rewrite He. cbn [from_option].
  replace (xint (di_size (e_x e))) with (Z.of_nat (length (e_c e))) by (rewrite Hx, Hc; simpl; rewrite xint_id by (unfold is_u32; lia); done).
  apply wp_bind. eapply wp_mono; [|apply (iappend_loop s F i e p); rewrite ?Hc; [done|done|done|done|done|lia]].
  intros r s1 (e1 & -> & (C1 & T1 & D1 & [K1 K1'] & M1)). rewrite Hc in C1. set (n := Z.of_nat (length (e_c e1))).
  assert (0 <= n < 2 ^ 32) as Hn by (unfold n; rewrite C1, length_app; lia). rewrite xint_id by done.
  assert (<[i := e1]> F !! i = Some e1) as Hi1 by (apply list_lookup_insert_eq; by eapply lookup_lt_Some).
  pose proof (dinv_size s1 _ i e1 n D1 Hi1 Hn) as D1'. rewrite list_insert_insert_eq in D1'.
  destruct (winode_run (Z.of_nat i + 1) (set_di_size n (e_x e1)) s1) as (s2 & -> & Hok2 & [Hi2 Hb2] & HL2 & Hino2);
    [apply D1|lia|apply di_ok_set_size; [apply (dv_file _ _ D1 _ _ Hi1)|done]|].
  eexists. split.
  - eapply dinv_frame; [exact D1'|done|done|]. intros b Hb. apply HL2; lia.
  - intros b Hb. rewrite HL2, K1' by lia. by apply Hh.
  - rewrite length_insert. lia.
  - intros j Hj. rewrite Hino2, (slot_insert F i e) by (done || lia). case_decide; [done|]. rewrite <- Hino by done. unfold ino_of.
    by rewrite K1' by (pose proof (IBLOCK_img j Hj); lia).
  - apply Forall2_insert; [done|]. split; [done|]. split; [done|]. cbn [e_x snd fst]. unfold n. rewrite <- C1. rewrite M1, Hx. done.
Qed.

Lemma xshort_id x : 0 <= x < 2 ^ 15 -> xshort x = x.
Proof.
  unfold xshort, u8. intros H. cbn [le_decode]. rewrite Z.shiftr_div_pow2 by lia. change (2 ^ 8) with 256.
  pose proof (Z.div_mod x 256 ltac:(lia)). pose proof (Z.mod_pos_bound x 256 ltac:(lia)). rewrite (Z.mod_small (x / 256)) by lia. lia.
Qed.

Definition new_di (t : Z) : dinode := mkDi t 0 0 1 0 (replicate 13 0).

Lemma addr_at_new t k : addr_at (new_di t) k = 0.
Proof. unfold addr_at, new_di. cbn [di_addrs]. destruct (replicate 13 0 !! Z.to_nat k) as [v|] eqn:E; [|done]. by apply lookup_replicate in E as [-> _]. Qed.

Lemma new_di_ok t : 0 <= t < 2 ^ 15 -> dinode_ok (new_di t).
Proof. intros H. split; simpl; unfold int16, is_u32; try lia. repeat constructor; lia. Qed.

Lemma repr_new L t : 0 <= t < 2 ^ 15 -> repr L (new_di t) [] [].
Proof.
  intros H. split; try done.
  - by apply new_di_ok.
  - intros k Hk. unfold baddr. rewrite !addr_at_new. by destruct (k <? NDIRECT).
  - rewrite addr_at_new. simpl. split; [lia|done].
  - simpl. lia.
Qed.

Lemma slot_app F e j : 0 <= j -> slot (F ++ [e]) j = if decide (j = 1 + Z.of_nat (length F)) then e_x e else slot F j.
Proof.
  intros Hj. unfold slot. destruct (Z.eqb_spec j 0) as [->|Hj0]; [by rewrite decide_False by lia|]. case_decide as E.
  - rewrite lookup_app_r by lia. by replace (Z.to_nat (j - 1) - length F)%nat with 0%nat by lia.
  - destruct (decide (j - 1 < Z.of_nat (length F))).
    + by rewrite lookup_app_l by lia.
    + by rewrite !lookup_ge_None_2 by (rewrite ?length_app; simpl; lia).
Qed.

Lemma mkfs_ialloc_ok s A t : holds s A -> 0 <= t < 2 ^ 15 -> (length A < 199)%nat ->
  wp (mkfs_ialloc t s) (fun r s' => r = 1 + Z.of_nat (length A) /\ holds s' (A ++ [(t, [])])).
Proof.
  intros (F & [HD Hh [Hfi Hfi'] Hino HF]) Ht Hlen. pose proof (Forall2_length _ _ _ HF) as HFA. unfold mkfs_ialloc.
  erewrite bind_Done by done. erewrite bind_Done by done. rewrite !xshort_id, xint_0 by lia. fold (new_di t). rewrite u32_id by lia.
  set (s1 := mkMkfs _ _ _). destruct (winode_run (freeinode s) (new_di t) s1) as (s2 & E & Hok2 & [Hi2 Hb2] & HL2 & Hino2);
    [apply HD|lia|by apply new_di_ok|]. erewrite bind_Done by exact E. split; [done|]. simpl in Hi2, Hb2. change (Lof s1) with (Lof s) in HL2.
  exists (F ++ [Ent (new_di t) [] []]). split.
  - apply (dinv_frame s s2); [|done|done|intros b Hb; apply HL2; lia]. assert (taken_by (F ++ [Ent (new_di t) [] []]) = taken_by F) as Et.
    { unfold taken_by. rewrite bind_app. simpl. apply app_nil_r. }
    split; rewrite ?Et; try apply HD. intros i e [Hi|[_ Hi]]%lookup_app_Some; [by apply (dv_file _ _ HD i)|].
    apply list_lookup_singleton_Some in Hi as [_ <-]. by apply repr_new.
  - intros b Hb. rewrite HL2 by lia. by apply Hh.
  - rewrite length_app. simpl. lia.
  - intros j Hj. rewrite Hino2, slot_app, Hfi, HFA by lia. case_decide; [done|]. by apply Hino.
  - apply Forall2_app; [done|]. constructor; [|constructor]. done.
Qed.

Lemma fits_prefix t r r' A B : fits ((t, r ++ r') :: A ++ B) -> fits ((t, r) :: A).
Proof.
  unfold fits. unfold total. cbn [sum_list_with length fst snd]. rewrite sum_list_with_app, !length_app, !Forall_cons, Forall_app. cbn [snd].
  rewrite length_app. intros (H1 & (H2 & H3 & _) & H4). pose proof (cost_mono (length r) (length r + length r') ltac:(lia)).
  split_and!; [lia|lia|done|lia].
Qed.

Lemma fits_last a A t c c' : fits (a :: A ++ [(t, c ++ c')]) -> fits (a :: A ++ [(t, c)]).
Proof.
  unfold fits, total. cbn [sum_list_with length]. rewrite !sum_list_with_app, !length_app, !Forall_cons, !Forall_app, !Forall_singleton.
  cbn [sum_list_with snd length]. rewrite length_app. intros (H1 & (H2 & H3 & H4) & H5). pose proof (cost_mono (length c) (length c + length c') ltac:(lia)).
  split_and!; [lia|done|done|lia|lia].
Qed.

(** ** The input files *)
Definition in_name (f : infile) : list Z := strip_under (strip_user (in_path f)).
Definition in_bytes (f : infile) : list Z := concat (default [] (in_pieces f)).
Record readable (f : infile) : Prop := {
  rd_path : Forall is_byte (in_path f);
  rd_slash : SLASH ∉ strip_user (in_path f);
  rd_open : exists pieces, in_pieces f = Some pieces /\ Forall (Forall is_byte) pieces
}.
Definition file_of (f : infile) : Z * list Z := (T_FILE, in_bytes f).
(** The entries of the root directory of the files, from inode [k]. *)
Fixpoint dents (k : Z) (fs : list infile) : list Z :=
  match fs with
  | [] => []
  | f :: fs => mk_dent k (in_name f) ++ dents (k + 1) fs
  end.

Lemma iappend_root s r A p : holds s ((T_DIR, r) :: A) -> Forall is_byte p -> fits ((T_DIR, r ++ p) :: A) ->
  wp (iappend 1 p s) (fun _ s' => holds s' ((T_DIR, r ++ p) :: A)).
Proof. intros H Hp Hf. by apply (iappend_ok s _ 0 T_DIR r p H). Qed.

Lemma iappend_last s a A c p : holds s (a :: A ++ [(T_FILE, c)]) -> Forall is_byte p -> fits (a :: A ++ [(T_FILE, c ++ p)]) ->
  wp (iappend (2 + Z.of_nat (length A)) p s) (fun _ s' => holds s' (a :: A ++ [(T_FILE, c ++ p)])).
Proof.
  intros H Hp Hf. assert (<[(1 + length A)%nat := (T_FILE, c ++ p)]> (a :: A ++ [(T_FILE, c)]) = a :: A ++ [(T_FILE, c ++ p)]) as E.
  { simpl. f_equal. rewrite insert_app_r_alt by lia. by rewrite Nat.sub_diag. }
  pose proof (iappend_ok s _ (1 + length A) T_FILE c p H) as Ho. rewrite E in Ho. replace (2 + _) with (Z.of_nat (1 + length A) + 1) by lia.
  apply Ho; [|done|done]. simpl. rewrite lookup_app_r by lia. by rewrite Nat.sub_diag.
Qed.

(** The loop that copies a file. *)
Lemma copy_pieces pieces s a A c : holds s (a :: A ++ [(T_FILE, c)]) -> Forall (Forall is_byte) pieces -> fits (a :: A ++ [(T_FILE, c ++ concat pieces)]) ->
  wp (for_each pieces (fun buf => iappend (2 + Z.of_nat (length A)) buf;; ret (@None unit)) s)
    (fun _ s' => holds s' (a :: A ++ [(T_FILE, c ++ concat pieces)])).
Proof.
  revert s c. induction pieces as [|p pieces IH]; intros s c H Hp Hf; cbn [for_each concat] in *; [by rewrite app_nil_r|].
  apply Forall_cons in Hp as [Hp Hps]. rewrite app_assoc in *. apply wp_bind, wp_bind.
  eapply wp_mono; [|apply (iappend_last s a A c p); [done|done|by eapply fits_last]]. intros [] s1 H1. by apply IH.
Qed.

Lemma strip_bytes path : Forall is_byte path -> Forall is_byte (strip_under (strip_user path)).
Proof.
  intros H. assert (Forall is_byte (strip_user path)) as Hu by (unfold strip_user; case_match; [by apply Forall_drop|done]).
  unfold strip_under. case_match; [|done]. destruct (strip_user path); [done|]. by inversion Hu.
Qed.

Lemma mk_dent_bytes k name : Forall is_byte name -> Forall is_byte (mk_dent k name).
Proof. intros H. apply Forall_app. split; [apply le_encode_bytes|by apply strncpy_bytes_ok]. Qed.

Lemma add_file_ok s r A f : holds s ((T_DIR, r) :: A) -> readable f -> 
  fits ((T_DIR, r ++ mk_dent (2 + Z.of_nat (length A)) (in_name f)) :: A ++ [file_of f]) ->
  wp (add_file 1 f s) (fun _ s' => holds s' ((T_DIR, r ++ mk_dent (2 + Z.of_nat (length A)) (in_name f)) :: A ++ [file_of f])).
Proof.
  intros H [Hp Hs (pieces & Eo & Hb)] Hf. unfold add_file. cbv zeta. rewrite bool_decide_eq_false_2, Eo by done.
  unfold file_of, in_bytes in *. rewrite Eo in *. cbn [default from_option] in *. change (concat (id pieces)) with ([] ++ concat pieces) in Hf |- *.
  pose proof (fits_last _ _ _ _ _ Hf) as Hf0. pose proof Hf as (_ & _ & Hl). cbn [length] in Hl. rewrite length_app in Hl. cbn [length] in Hl.
  apply wp_bind. eapply wp_mono; [|apply (mkfs_ialloc_ok s _ T_FILE H); [unfold T_FILE; lia|cbn [length]; lia]]. cbn [length].
  intros r0 s1 [-> H1]. replace (1 + Z.of_nat (S (length A))) with (2 + Z.of_nat (length A)) by lia. rewrite xshort_id by lia.
  apply wp_bind. eapply wp_mono; [|apply (iappend_root s1 r (A ++ [(T_FILE, [])])); [done|by apply mk_dent_bytes, strip_bytes|done]].
  intros [] s2 H2. apply wp_bind. eapply wp_mono; [|by apply (copy_pieces pieces s2 _ A [] H2 Hb)]. done.
Qed.

Lemma add_files fs s r A : holds s ((T_DIR, r) :: A) -> Forall readable fs ->
  fits ((T_DIR, r ++ dents (2 + Z.of_nat (length A)) fs) :: A ++ (file_of <$> fs)) ->
  wp (for_each fs (fun f => add_file 1 f;; ret (@None unit)) s)
    (fun _ s' => holds s' ((T_DIR, r ++ dents (2 + Z.of_nat (length A)) fs) :: A ++ (file_of <$> fs))).
Proof.
  revert s r A. induction fs as [|f fs IH]; intros s r A H Hr Hf; cbn [for_each dents fmap list_fmap] in *; [by rewrite !app_nil_r|].
  apply Forall_cons in Hr as [Hr Hrs]. rewrite (cons_middle (file_of f)) in *. rewrite !app_assoc in *.
  apply wp_bind, wp_bind. eapply wp_mono; [|apply (add_file_ok s r A f); [done|done|by eapply fits_prefix]]. intros [] s1 H1.
  specialize (IH s1 _ _ H1 Hrs). rewrite length_app in IH. cbn [length] in IH.
  replace (2 + Z.of_nat (length A + 1)) with (2 + Z.of_nat (length A) + 1) in IH by lia. by apply IH.
Qed.

(** ** An empty image *)
Definition mkfs_start : mkfs := mkMkfs [] 1 0.

Lemma zero_dinode k : (k < 16)%nat -> get_dinode zero_block k = no_dinode.
Proof. intros H. do 16 (destruct k as [|k]; [by vm_compute|]). lia. Qed.

Lemma format_ok : wp (for_each (seqZ 0 FSSIZE) (fun i => wsect i zero_block;; ret (@None unit)) (mkMkfs [] 1 nmeta))
  (fun _ s => mk_img s = replicate 1000 zero_block /\ freeinode s = 1 /\ freeblock s = 46).
Proof.
  apply (wp_for_range FSSIZE _ (fun k s => mk_img s = replicate k zero_block /\ freeinode s = 1 /\ freeblock s = 46)); [|done|done].
  intros k s Hk (H1 & H2 & H3). change (Z.to_nat FSSIZE) with 1000%nat in Hk. unfold bind, wsect, modify. cbv zeta.
  rewrite sect_id by (unfold in_img; lia). rewrite Nat2Z.id, H1, length_replicate, Nat.ltb_irrefl, Nat.sub_diag. simpl.
  split; [|done]. by rewrite <- replicate_S_end.
Qed.

Lemma put_sb_ok : block_ok (put_sb zero_block mk_sb) /\ get_sb (put_sb zero_block mk_sb) = mkfs_sb.
Proof.
  split; [|by vm_compute]. unfold put_sb. cbv zeta. repeat (apply block_ok_put32; [|unfold bsize; lia]). apply zero_block_ok.
Qed.

Lemma empty_ok s : mk_img s = replicate 1000 zero_block -> freeinode s = 1 -> freeblock s = 46 ->
  wp (wsect 1 (put_sb zero_block mk_sb) s) (fun _ s' => holds s' []).
Proof.
  intros Hm Hi Hb. assert (img_ok s) as Hok.
  { split; rewrite Hm; [by rewrite length_replicate|apply Forall_replicate, zero_block_ok]. }
  assert (forall b, 0 <= b < 1000 -> Lof s b = zero_block) as Hz.
  { intros b Hb0. unfold Lof. rewrite Hm, lookup_replicate_2 by lia. done. }
  destruct (wsect_run 1 (put_sb zero_block mk_sb) s Hok) as (s' & -> & Hok' & HL & Hi' & Hb'); [unfold in_img; lia|apply put_sb_ok|].
  exists []. split.
  - split; [done|simpl; lia| |constructor|constructor|done]. intros b Hb0. rewrite HL, decide_False by lia. apply Hz. lia.
  - intros b Hb0. rewrite HL by lia. case_decide; [done|]. apply Hz. lia.
  - simpl. lia.
  - intros j Hj. destruct (IBLOCK_img j Hj) as (Hr & _ & Hm'). unfold ino_of. rewrite HL, decide_False, Hz, zero_dinode by (done || lia).
    unfold slot. by case_match.
  - constructor.
Qed.

(** ** The bitmap *)
Lemma mkfs_bits n d j : block_ok d -> Z.of_nat n <= 8192 -> 0 <= j < bits ->
  block_ok (fold_left set_bit (seqZ 0 (Z.of_nat n)) d) /\
  bit_of (fold_left set_bit (seqZ 0 (Z.of_nat n)) d) j = (j <? Z.of_nat n) || bit_of d j.
Proof.
  intros Hd. induction n as [|n IH]; intros Hn Hj.
  { change (Z.of_nat 0) with 0. rewrite (proj2 (Z.ltb_ge j 0)) by lia. done. }
  destruct IH as [Hok E]; [lia|done|]. replace (Z.of_nat (S n)) with (Z.of_nat n + 1) by lia. rewrite seqZ_app by lia.
  rewrite fold_left_app. change (seqZ (0 + Z.of_nat n) 1) with [0 + Z.of_nat n]. cbn [fold_left].
  assert (0 <= 0 + Z.of_nat n < bits) as Hb by (unfold bits; lia). split; [by apply block_ok_set_bit|].
  rewrite bit_of_set, E by done. case_decide; [by rewrite (proj2 (Z.ltb_lt _ _)) by lia|].
  f_equal. destruct (Z.ltb_spec j (Z.of_nat n)), (Z.ltb_spec j (Z.of_nat n + 1)); (done || lia).
Qed.

Lemma bit_of_zero j : bit_of zero_block j = false.
Proof.
  unfold bit_of, get8, zero_block, slice. rewrite drop_replicate, take_replicate.
  assert (forall n, le_decode (replicate n 0) = 0) as E by (induction n as [|n IH]; [done|cbn; by rewrite IH]). by rewrite E, Z.testbit_0_l.
Qed.

Lemma used_eq L b : 0 <= b < 1000 -> used mkfs_sb L b = bit_of (L 45) b.
Proof.
  intros Hb. unfold used. change BPB with 8192. rewrite Z.mod_small by lia. unfold BBLOCK. change BPB with 8192. rewrite Z.div_small by lia. done.
Qed.

(** ** What is in the blocks of a file *)
Lemma repr_fbyte L x bl c o : repr L x bl c -> 0 <= o < MAXBYTES -> fbyte L x o = default 0 (c !! Z.to_nat o).
Proof.
  intros H Ho. change MAXBYTES with 274432 in Ho. unfold fbyte, fblk. change BSIZE with 1024.
  pose proof (Z.div_mod o 1024 ltac:(lia)) as Hdm. pose proof (Z.mod_pos_bound o 1024 ltac:(lia)) as Hmod.
  rewrite (rp_addr _ _ _ _ H) by (change MAXFILE with 268; lia). destruct (bl !! Z.to_nat (o / 1024)) as [d|] eqn:E; simpl.
  - pose proof (proj1 (Forall_lookup _ _) (rp_data _ _ _ _ H) _ _ E) as Hd. cbv beta in Hd. rewrite (proj2 (Z.eqb_neq d 0)) by lia.
    rewrite (rp_bytes _ _ _ _ H _ _ _ E) by lia. simpl. do 2 f_equal. lia.
  - apply lookup_ge_None in E. pose proof (rp_len _ _ _ _ H) as [Hl _]. rewrite (lookup_ge_None_2 c) by lia.
    unfold zero_block. rewrite lookup_replicate_2 by (unfold bsize; lia). done.
Qed.

Lemma repr_fread L x bl c n : repr L x bl c -> (length c <= n)%nat -> Z.of_nat n <= MAXBYTES ->
  fread L x 0 (Z.of_nat n) = c ++ replicate (n - length c) 0.
Proof.
  intros H Hc Hn. apply list_eq. intros k. destruct (decide (k < n)%nat) as [Hk|Hk].
  - rewrite lookup_fread, (repr_fbyte _ _ _ _ _ H) by lia. rewrite Z.add_0_l, Nat2Z.id. destruct (decide (k < length c)%nat) as [Hkc|Hkc].
    + rewrite lookup_app_l by done. destruct (lookup_lt_is_Some_2 c k Hkc) as [v ->]. done.
    + rewrite lookup_app_r, lookup_replicate_2, (lookup_ge_None_2 c) by lia. done.
  - rewrite !lookup_ge_None_2; [done|rewrite length_app, length_replicate; lia|rewrite length_fread; lia].
Qed.

Lemma owned_baddr L x bl c k : repr L x bl c -> 0 <= k < MAXFILE -> baddr L x k <> 0 -> bl !! Z.to_nat k = Some (baddr L x k) /\ baddr L x k ∈ owned x bl.
Proof.
  intros H Hk Hn. rewrite (rp_addr _ _ _ _ H) in * by done. destruct (bl !! Z.to_nat k) as [d|] eqn:E; simpl in *; [|done]. split; [done|].
  apply elem_of_app. left. by eapply list_elem_of_lookup_2.
Qed.

Lemma owned_ind L x bl c : repr L x bl c -> addr_at x NDIRECT <> 0 -> addr_at x NDIRECT ∈ owned x bl.
Proof.
  intros H Hn. apply elem_of_app. right. rewrite (proj2 (Nat.ltb_lt _ _)); [constructor|]. pose proof (proj2 (rp_ind _ _ _ _ H)). lia.
Qed.

Lemma dinv_file_wf s F i e : dinv s F -> F !! i = Some e -> (forall b, 46 <= b < freeblock s -> used mkfs_sb (Lof s) b = true) ->
  file_wf mkfs_sb (Lof s) (e_x e).
Proof.
  intros HI Hi Hu. pose proof (dv_file _ _ HI _ _ Hi) as Hr. pose proof (proj2 (dv_next _ _ HI)) as Hfb.
  assert (forall b, b ∈ owned (e_x e) (e_bl e) -> data_block mkfs_sb b /\ used mkfs_sb (Lof s) b = true) as Ho.
  { intros b Hb. apply (taken_file _ _ _ _ Hi), (proj1 (Forall_forall _ _) (dv_range _ _ HI)) in Hb. split; [|by apply Hu].
    unfold data_block. change (data_start mkfs_sb) with 46. change (sb_size mkfs_sb) with 1000. lia. }
  pose proof (file_nodup _ _ _ _ HI Hi) as Hnd. split.
  - apply Hr.
  - intros k Hk Hn. apply Ho. by eapply owned_baddr.
  - intros Hn. apply Ho. by eapply owned_ind.
  - intros k l Hk Hl Hn E. destruct (owned_baddr _ _ _ _ k Hr Hk Hn) as [E1 _]. rewrite E in Hn. destruct (owned_baddr _ _ _ _ l Hr Hl Hn) as [E2 _].
    apply NoDup_app in Hnd as [Hnd _]. rewrite E in E1. pose proof (NoDup_lookup _ _ _ _ Hnd E1 E2). lia.
  - intros k Hk Hn E. destruct (owned_baddr _ _ _ _ k Hr Hk Hn) as [E1 _]. rewrite E in E1, Hn. apply (ind_sep _ _ _ _ HI Hi).
    + pose proof (proj2 (rp_ind _ _ _ _ Hr)). lia.
    + by eapply list_elem_of_lookup_2.
Qed.

(** ** The image *)
Definition inode_of (L : Z -> list Z) (j : Z) : dinode := get_dinode (L (IBLOCK j mkfs_sb)) (Z.to_nat (j mod IPB)).
Definition blk_of (L : Z -> list Z) (x : dinode) (b : Z) : Prop :=
  b <> 0 /\ ((exists k, 0 <= k < MAXFILE /\ baddr L x k = b) \/ addr_at x NDIRECT = b).
(** The size of file [i] in its inode: that of the root directory, which comes
    first, is rounded up. *)
Definition size_of (i : nat) (c : list Z) : Z :=
  if (i =? 0)%nat then (Z.of_nat (length c) / BSIZE + 1) * BSIZE else Z.of_nat (length c).

(** [L] is a file system with the files [A], in the inodes from 1. *)
Record image_of (L : Z -> list Z) (A : list (Z * list Z)) : Prop := {
  im_sb : get_sb (L 1) = mkfs_sb;
  im_log : L 2 = zero_block;  (* the header of the log: nothing is committed *)
  im_used : forall b, 0 <= b < 1000 -> used mkfs_sb L b = (b <? 46 + Z.of_nat (total A));
  im_file : forall i t c, A !! i = Some (t, c) -> let x := inode_of L (Z.of_nat i + 1) in
    di_type x = t /\ di_nlink x = 1 /\ di_size x = size_of i c /\
    fread L x 0 (size_of i c) = c ++ replicate (Z.to_nat (size_of i c) - length c) 0 /\ file_wf mkfs_sb L x;
  im_apart : forall i j b, (i < length A)%nat -> (j < length A)%nat ->
    blk_of L (inode_of L (Z.of_nat i + 1)) b -> blk_of L (inode_of L (Z.of_nat j + 1)) b -> i = j;
  im_free : forall j, Z.of_nat (length A) < j < 200 -> inode_of L j = no_dinode
}.

Lemma blk_of_owned L x bl c b : repr L x bl c -> blk_of L x b -> b ∈ owned x bl.
Proof.
  intros H [Hb [(k & Hk & <-)|<-]]; [|by eapply owned_ind]. by eapply owned_baddr.
Qed.

Section finish.
Context (s s1 s2 : mkfs) (F : list ent) (r : list Z) (A : list (Z * list Z)).
Context (HM : minv s F ((T_DIR, r) :: A)) (Hr : (length r <= 3200)%nat).
Context (Hsz : Forall (fun a => Z.of_nat (length a.2) <= MAXBYTES) A).
Local Notation n := (size_of 0 r).
Local Notation A' := ((T_DIR, r) :: A).
Context (e : ent) (He : F !! O = Some e).
Local Notation F' := (<[0%nat := Ent (set_di_size n (e_x e)) (e_bl e) (e_c e)]> F).
Context (D1 : dinv s1 F') (HL1 : forall b, 0 <= b < 32 -> Lof s1 b = Lof s b).
Context (Hino1 : forall j, 0 <= j < 200 -> ino_of s1 j = slot F' j).
Context (Hok2 : img_ok s2) (Hfb2 : freeblock s2 = freeblock s1).
Context (HL2 : forall b, 0 <= b -> Lof s2 b = if decide (b = 45) then fold_left set_bit (seqZ 0 (freeblock s1)) zero_block else Lof s1 b).

Lemma root_size : 0 <= n <= 4096 /\ Z.of_nat (length r) <= n.
Proof.
  unfold size_of. cbn [Nat.eqb]. change BSIZE with 1024. pose proof (Z.div_mod (Z.of_nat (length r)) 1024 ltac:(lia)).
  pose proof (Z.mod_pos_bound (Z.of_nat (length r)) 1024 ltac:(lia)). lia.
Qed.

Lemma finish_dinv : dinv s2 F'.
Proof. eapply dinv_frame; [exact D1|done|done|]. intros b Hb. rewrite HL2, decide_False by lia. done. Qed.

Lemma finish_ino j : 0 <= j < 200 -> inode_of (Lof s2) j = slot F' j.
Proof.
  intros Hj. rewrite <- (Hino1 j Hj). unfold inode_of, ino_of. pose proof (IBLOCK_img j Hj). rewrite HL2, decide_False by lia. done.
Qed.

Lemma finish_files : Forall2 (fun e' a => e_c e' = a.2 /\ di_type (e_x e') = a.1 /\ di_nlink (e_x e') = 1) F' A'.
Proof.
  pose proof (mv_files _ _ _ HM) as HF. apply Forall2_cons_inv_r in HF as (e0 & F0 & (Ht & Hc & Hx) & HF & ->). injection He as ->.
  cbn [insert list_insert]. constructor; [split_and!; [exact Hc|simpl; by rewrite Hx|simpl; by rewrite Hx]|].
  eapply Forall2_impl; [exact HF|]. intros e' a (_ & Hc' & Hx'). rewrite Hx'. done.
Qed.

Lemma finish_size i e' t c : F' !! i = Some e' -> A' !! i = Some (t, c) -> di_size (e_x e') = size_of i c.
Proof.
  destruct i as [|i]; intros He' Ha.
  - rewrite list_lookup_insert_eq in He' by (by eapply lookup_lt_Some). injection He' as <-. injection Ha as <- <-. done.
  - rewrite list_lookup_insert_ne in He' by done. destruct (Forall2_lookup_lr _ _ _ _ _ _ (mv_files _ _ _ HM) He' Ha) as (_ & _ & Hx).
    rewrite Hx. done.
Qed.

Lemma finish_fb : freeblock s2 = 46 + Z.of_nat (total A') /\ freeblock s2 <= 1000.
Proof.
  rewrite <- (taken_total F A' (mv_files _ _ _ HM)). pose proof (dv_next _ _ finish_dinv) as [H1 H2].
  assert (taken_by F' ≡ₚ [] ++ taken_by F) as Hp by (eapply taken_insert; [exact He|done]). rewrite Hp in H1. split; [exact H1|exact H2].
Qed.

Lemma finish_used b : 0 <= b < 1000 -> used mkfs_sb (Lof s2) b = (b <? freeblock s2).
Proof.
  intros Hb. pose proof finish_fb as [H1 H2]. rewrite used_eq, HL2, decide_True, <- Hfb2 by (done || lia).
  destruct (mkfs_bits (Z.to_nat (freeblock s2)) zero_block b zero_block_ok) as [_ E]; [lia|unfold bits; lia|].
  rewrite Z2Nat.id in E by lia. rewrite E. rewrite bit_of_zero. apply orb_false_r.
Qed.

Lemma finish_lookup i t c : A' !! i = Some (t, c) -> exists e', F' !! i = Some e' /\ inode_of (Lof s2) (Z.of_nat i + 1) = e_x e' /\
  e_c e' = c /\ di_type (e_x e') = t /\ di_nlink (e_x e') = 1 /\ di_size (e_x e') = size_of i c.
Proof.
  intros Ha. destruct (Forall2_lookup_r _ _ _ _ _ finish_files Ha) as (e' & He' & Hc & Ht & Hl). exists e'.
  pose proof (lookup_lt_Some _ _ _ Ha). pose proof (proj1 (mv_next _ _ _ HM)). pose proof (proj2 (mv_next _ _ _ HM)).
  split; [done|]. rewrite finish_ino by lia. unfold slot. rewrite (proj2 (Z.eqb_neq _ 0)) by lia.
  replace (Z.to_nat (Z.of_nat i + 1 - 1)) with i by lia. rewrite He'. split_and!; try done. by eapply finish_size.
Qed.

Lemma finish_bytes i t c : A' !! i = Some (t, c) -> Z.of_nat (length c) <= size_of i c <= MAXBYTES.
Proof.
  destruct i as [|i]; intros Ha.
  - injection Ha as <- <-. pose proof root_size. change MAXBYTES with 274432. lia.
  - pose proof (proj1 (Forall_lookup _ _) Hsz i (t, c) Ha) as H. unfold size_of. cbn [Nat.eqb snd] in *. lia.
Qed.

Lemma finish_image : image_of (Lof s2) A'.
Proof.
  pose proof finish_dinv as HD. split.
  - rewrite HL2, decide_False, HL1, (mv_head _ _ _ HM) by lia. apply put_sb_ok.
  - rewrite HL2, decide_False, HL1, (mv_head _ _ _ HM) by lia. done.
  - intros b Hb. rewrite finish_used by done. by rewrite (proj1 finish_fb).
  - intros i t c Ha. destruct (finish_lookup i t c Ha) as (e' & He' & -> & Hc & Ht & Hl & Hs). cbv zeta. split_and!; try done.
    + pose proof (finish_bytes i t c Ha). rewrite <- (Z2Nat.id (size_of i c)) at 1 by lia. rewrite <- Hc in *.
      eapply repr_fread; [by apply (dv_file _ _ HD i e')|lia|lia].
    + apply (dinv_file_wf s2 F' i e' HD He'). intros b Hb. pose proof (proj2 finish_fb). rewrite finish_used by lia. apply Z.ltb_lt. lia.
  - intros i j b Hi Hj Bi Bj. destruct (lookup_lt_is_Some_2 A' i Hi) as [[ti ci] Ei]. destruct (lookup_lt_is_Some_2 A' j Hj) as [[tj cj] Ej].
    destruct (finish_lookup i ti ci Ei) as (ei & Hei & Exi & _). destruct (finish_lookup j tj cj Ej) as (ej & Hej & Exj & _).
    rewrite Exi in Bi. rewrite Exj in Bj.
    eapply (taken_other F' i j ei ej b (dv_nodup _ _ HD) Hei Hej); [eapply blk_of_owned; [by apply (dv_file _ _ HD i)|done]|].
    eapply blk_of_owned; [by apply (dv_file _ _ HD j)|done].
  - intros j Hj. rewrite finish_ino by lia. unfold slot. rewrite (proj2 (Z.eqb_neq _ 0)) by lia. rewrite lookup_ge_None_2; [done|].
    rewrite length_insert, (Forall2_length _ _ _ (mv_files _ _ _ HM)). lia.
Qed.
End finish.

(** The end of main: the size of the root directory, and the bitmap. *)
Lemma finish_ok s r A : holds s ((T_DIR, r) :: A) -> (length r <= 3200)%nat -> Forall (fun a => Z.of_nat (length a.2) <= MAXBYTES) A ->
  wp ((din <- rinode 1;;
       let off := xint (di_size din) in
       let off := u32 ((off / BSIZE + 1) * BSIZE) in
       winode 1 (set_di_size (xint off) din);;
       fb <- gets freeblock;;
       mkfs_balloc fb) s) (fun _ s' => img_ok s' /\ image_of (Lof s') ((T_DIR, r) :: A)).
Proof.
  intros (F & HM) Hr Hsz. pose proof HM as [HD Hh [Hfi Hfi'] Hino HF]. pose proof (root_size r Hr) as Hn.
  destruct (Forall2_lookup_r _ _ _ O (T_DIR, r) HF eq_refl) as (e & He & (Ht & Hc & Hx)). simpl in Hc, Hx.
  erewrite bind_Done by (apply rinode_run; [apply HD|lia]). cbv zeta. rewrite Hino by lia. unfold slot. cbn [Z.eqb].
  change (Z.to_nat (1 - 1)) with O. rewrite He. cbn [from_option].
  replace (di_size (e_x e)) with (Z.of_nat (length r)) by (by rewrite Hx). rewrite (xint_id (Z.of_nat (length r))) by (unfold is_u32; lia).
  change ((Z.of_nat (length r) / BSIZE + 1) * BSIZE) with (size_of 0 r). rewrite u32_id, xint_id by (unfold is_u32; lia).
  assert (is_u32 (size_of 0 r)) as Hu by (unfold is_u32; lia). pose proof (dinv_size s F 0 e _ HD He Hu) as HD'.
  destruct (winode_run 1 (set_di_size (size_of 0 r) (e_x e)) s) as (s1 & E1 & Hok1 & [Hi1 Hb1] & HL1 & Hino1);
    [apply HD|lia|apply di_ok_set_size; [apply (dv_file _ _ HD _ _ He)|done]|].
  erewrite bind_Done by exact E1. erewrite bind_Done by reflexivity. pose proof (dv_next _ _ HD) as [Hfb Hfb'].
  unfold mkfs_balloc. rewrite (proj2 (Z.ltb_lt (freeblock s1) (BSIZE * 8))) by (change (BSIZE * 8) with 8192; lia). cbn [negb].
  change (sb_bmapstart mk_sb) with 45.
  destruct (wsect_run 45 (fold_left set_bit (seqZ 0 (freeblock s1)) zero_block) s1 Hok1) as (s2 & -> & Hok2 & HL2 & _ & Hb2); [unfold in_img; lia| |].
  { destruct (mkfs_bits (Z.to_nat (freeblock s1)) zero_block 0 zero_block_ok) as [H _]; [lia|unfold bits; lia|]. rewrite Z2Nat.id in H by lia. exact H. }
  split; [done|]. apply (finish_image s s1 s2 F r A HM Hr Hsz e He); try done.
  - eapply dinv_frame; [exact HD'|done|done|]. intros b Hb. apply HL1; lia.
  - intros b Hb. apply HL1; lia.
  - intros j Hj. rewrite Hino1, (slot_insert F 0 e) by (done || lia). change (Z.of_nat 0 + 1) with 1. case_decide; [done|by apply Hino].
Qed.

(** ** The theorem *)
Definition root_dents (files : list infile) : list Z := mk_dent 1 [46] ++ mk_dent 1 [46; 46] ++ dents 2 files.
Definition image (files : list infile) : list (Z * list Z) := (T_DIR, root_dents files) :: (file_of <$> files).

Lemma length_dents k files : length (dents k files) = (16 * length files)%nat.
Proof. revert k. induction files as [|f fs IH]; intros k; [done|]. cbn [dents length]. rewrite length_app, length_mk_dent, IH. lia. Qed.

Lemma length_root files : length (root_dents files) = (16 * (2 + length files))%nat.
Proof. unfold root_dents. rewrite !length_app, !length_mk_dent, length_dents. lia. Qed.

Lemma fits_dots files : fits (image files) -> fits [(T_DIR, mk_dent 1 [46] ++ mk_dent 1 [46; 46])] /\ fits [(T_DIR, mk_dent 1 [46])].
Proof.
  intros H. unfold image, root_dents in H. split.
  - apply (fits_prefix _ _ (dents 2 files) [] (file_of <$> files)). by rewrite <- app_assoc.
  - by apply (fits_prefix _ _ (mk_dent 1 [46; 46] ++ dents 2 files) [] (file_of <$> files)).
Qed.

(** C35.  mkfs makes the image of a file system with exactly the files it is given.
    If they can be opened and read, and fit (at most 198 files of at most MAXFILE
    blocks, 954 blocks in all), mkfs ends; the image has FSSIZE blocks and the
    superblock of the kernel's layout; the log is empty; inode 1 is the root
    directory, with entries for ".", ".." and every file, under its name without
    "user/" and "_", cut to DIRSIZ bytes, and with its inode number; the inodes from 2 on hold the bytes of
    the files in order; no block belongs to two files; the bitmap marks the blocks
    up to the last one used, and every other inode is free. *)
Theorem mkfs_image files : Forall readable files -> fits (image files) ->
  wp (mkfs_main files mkfs_start) (fun _ s' => length (mk_img s') = Z.to_nat FSSIZE /\ Forall block_ok (mk_img s') /\
    image_of (Lof s') (image files)).
Proof.
  intros Hr Hf. destruct (fits_dots files Hf) as [Hf2 Hf1]. unfold mkfs_main. erewrite bind_Done by reflexivity.
  apply wp_bind. eapply wp_mono; [|apply format_ok]. intros _ s1 (H1 & H2 & H3). apply wp_bind.
  eapply wp_mono; [|by apply empty_ok]. intros [] s2 Hs2. apply wp_bind.
  eapply wp_mono; [|apply (mkfs_ialloc_ok s2 [] T_DIR Hs2); [unfold T_DIR; lia|simpl; lia]]. intros r s3 [-> Hs3].
  change (1 + Z.of_nat (length (@nil (Z * list Z)))) with 1. cbn [app] in Hs3. change (negb (1 =? ROOTINO)) with false. cbv iota.
  assert (Forall is_byte [46] /\ Forall is_byte [46; 46]) as [B1 B2] by (split; repeat constructor; unfold is_byte; lia).
  change (xshort 1) with 1. apply wp_bind. eapply wp_mono; [|apply (iappend_root s3 [] [] (mk_dent 1 [46]) Hs3); [by apply mk_dent_bytes|exact Hf1]].
  intros [] s4 Hs4. cbn [app] in Hs4. apply wp_bind.
  eapply wp_mono; [|apply (iappend_root s4 (mk_dent 1 [46]) [] (mk_dent 1 [46; 46]) Hs4); [by apply mk_dent_bytes|exact Hf2]].
  intros [] s5 Hs5. apply wp_bind. pose proof (add_files files s5 _ [] Hs5 Hr) as Hadd. cbn [app length] in Hadd.
  change (2 + Z.of_nat 0) with 2 in Hadd. rewrite <- app_assoc in Hadd. eapply wp_mono; [|by apply Hadd]. intros u s6 Hs6.
  pose proof Hf as (_ & Hsz & Hlen). apply Forall_cons in Hsz as [_ Hsz]. cbn [image length] in Hlen. rewrite length_fmap in Hlen.
  eapply wp_mono; [|apply (finish_ok s6 (root_dents files) (file_of <$> files) Hs6); [rewrite length_root; lia|exact Hsz]].
  intros [] s7 ([Hl Hb] & Him). split; [exact Hl|]. split; [exact Hb|exact Him].
Qed.

(** A program and a text file. *)
Definition two_inputs : list infile := [mkIn (str "user/_sh") (Some [[127; 69; 76; 70]; [1; 2]]); mkIn (str "README") (Some [[120; 118; 54]])].

Lemma mkfs_image_witness : wp (mkfs_main two_inputs mkfs_start) (fun _ s' => length (mk_img s') = Z.to_nat FSSIZE /\ Forall block_ok (mk_img s') /\
  image_of (Lof s') [(T_DIR, mk_dent 1 [46] ++ mk_dent 1 [46; 46] ++ mk_dent 2 (str "sh") ++ mk_dent 3 (str "README"));
                     (T_FILE, [127; 69; 76; 70; 1; 2]); (T_FILE, [120; 118; 54])]).
Proof.
  assert (forall l, bytes_ok l = true -> Forall is_byte l) as Hb by (intros l; apply bytes_ok_spec).
  assert (image two_inputs = [(T_DIR, mk_dent 1 [46] ++ mk_dent 1 [46; 46] ++ mk_dent 2 (str "sh") ++ mk_dent 3 (str "README"));
                     (T_FILE, [127; 69; 76; 70; 1; 2]); (T_FILE, [120; 118; 54])]) as <- by reflexivity.
  apply (mkfs_image two_inputs).
  - apply Forall_cons_2; [split|apply Forall_cons_2; [split|apply Forall_nil_2]].
    + by apply Hb.
    + refine (bool_decide_unpack _ _). by vm_compute.
    + eexists. split; [reflexivity|]. apply Forall_cons_2; [by apply Hb|]. apply Forall_cons_2; [by apply Hb|apply Forall_nil_2].
    + by apply Hb.
    + refine (bool_decide_unpack _ _). by vm_compute.
    + eexists. split; [reflexivity|]. apply Forall_cons_2; [by apply Hb|apply Forall_nil_2].
  - split; [apply Nat.leb_le; by vm_compute|]. split; [|apply Nat.leb_le; by vm_compute].
    repeat apply Forall_cons_2; try apply Forall_nil_2; apply Z.leb_le; by vm_compute.
Defined.
